(* ===== verification/_CoqProject ===== *)
-Q . S2P
Prelude.v
Borsh.v
Crypto.v
Session.v
Trace.v
Negotiation.v
Evidence.v
Validation.v
Receipt.v
Frame.v
Execution.v
Invariant.v
History.v
Publish.v
Fixture.v
Guarantees.v
Consistency.v
Canonical.v
Artifacts.v
NoPanic.v
StateCodec.v
Ranges.v
Envelope.v
ChangeLog.v
Database.v
Persist.v
Store.v
Registry.v
Durable.v
Writes.v
Registered.v
Refinement.v
Simulation.v
Opening.v
StoreExample.v
Ballots.v
CommitReveal.v
Randomness.v
Book.v
Driver.v
Gossip.v
Signing.v
Drives.v
Freezing.v
Activating.v
DriveExample.v
Resident.v
Absorbing.v
Actor.v
Delivery.v
Reasons.v
Acting.v
Handling.v
Concluding.v
Accepting.v
Serving.v
Spawning.v
ActorExample.v
Imports.v
Emission.v
Staging.v
Trapping.v
Hosts.v
ImportExample.v
Wire.v
Tree.v
Transfer.v
TransferHost.v
TransferRun.v
TransferExample.v
