(* ===== verification/Prelude.v ===== *)
(** * arena0: a verification development of the session protocol

    arena0 runs multi-party programs between mutually distrusting hosts.  A
    session goes through three parts of the code, all under [src/crates]:

    - _negotiation_: a creator gossips an offer, participants answer with tickets,
      and an N-of-N activation fixes the ensemble, the keys and the parameters
      ([arena0-protocol/src/negotiation.rs], [session.rs]);
    - _execution_: each host keeps one durable [ExecutionState]
      ([arena0-protocol/src/execution/state.rs]).  A guest program consumes events;
      an event every host must agree on stages a proposal, participants sign the
      commitment of its trace entry, and the step is certified once all have
      signed.  Local events, direct messages between two participants, callouts
      to an agent, stops and the end handshake change the same state;
    - _receipts_: the certified log of a finished session is assembled into an
      artifact that anyone can verify offline ([execution/certificate.rs],
      [execution/validation.rs], [arena0-store/src/database/execution.rs]).

    ** Files

    - [Prelude]: results with a panic outcome, the state monad of [&mut self]
      methods, checked machine integers, sequences ([sort_by_key], [dedup],
      [windows(2)], [binary_search_by_key]) and their lemmas, tactics, hints.
    - [Borsh]: bounded readers and writers ([arena0-program/src/bounded.rs]) and
      codecs as records of a writer, a reader, a typing predicate and the law
      that a reader undoes its writer.
    - [Crypto]: the class [Crypto] of primitives that are not under [src/] and the
      wrappers of [arena0-crypto] over them.
    - [Session]: ensembles, participants, canonical state images and their hash.
    - [Trace]: effects, events, trace entries, step commitments, the hash chain,
      signer bitmaps and aggregate attestations ([trace/], [effect.rs], [event.rs]).
    - [Negotiation]: offers, tickets, activations, gossip, counteroffers.
    - [Evidence]: bindings, cursors, aborts, outcomes, statuses, callouts, lanes.
    - [Validation]: validation of entries, effects, proposals, signatures and
      certificates; replay of a certified trace.
    - [Receipt]: bodies, artifacts, identities, evidence checks, reserved size.
    - [Frame]: the execution frames and their codec.
    - [Execution]: the aggregate and all its operations ([state.rs], [end.rs],
      [direct.rs]); [Op] is the alphabet of its transitions and [run_op] runs one.
    - [Invariant]: the well-formedness invariant [wf] and its preservation.
    - [History]: [reach], histories of successful operations with the log of
      certified entries their caller stored, and what the log satisfies.
    - [Publish]: [assemble_terminal_artifact] of the store, and that its result
      validates.
    - [Fixture]: a toy instance of [Crypto] and a two-party session run to its end
      on it; the witnesses evaluate there.
    - [Guarantees]: recovery, publication, unanimity, finality, atomicity, versions.
    - [Consistency]: no two certified histories of a session fork.
    - [Canonical]: encodings of frames and gossip are unique.
    - [Artifacts]: decoding a receipt verifies it; identities bind bodies.
    - [NoPanic]: operations on reachable states never panic.
    - [StateCodec]: the borsh layout of the whole [ExecutionState]; [Ranges]: the
      typing of every reachable state and its round trip.

    The store ([arena0-store]):

    - [Envelope]: sealed payloads ([codec.rs]); [ChangeLog]: the ring of changes a
      reader catches up from ([changes.rs]).
    - [Database]: the tables with the constraints of [schema.sql], transactions and
      their failures; [Persist]: the columns, logs, timers and step states an
      execution writes; [Store]: the calls on executions and startup validation;
      [Registry]: requests, activations, programs, salts, receipts.
    - [Durable], [Writes], [Registered]: the invariant of a database and that every
      call keeps it; [Refinement], [Simulation]: the calls refine updates of a map
      of executions; [Opening]: histories of calls, failures and restarts, with the
      theorems about them; [StoreExample]: a worked history.

    The guest primitives ([arena0-primitives], [arena0-crypto/src/permutation.rs]):

    - [Ballots]: turn order, ballots, agreements; [CommitReveal]: commit-reveal
      rounds; [Randomness]: joint seeds, rejection sampling, the seeded permutation.
    - [Tree]: leaf values of an object and their root along the tree of BLAKE3;
      [Transfer]: the transfer of an object over direct messages; [TransferHost]: the
      host's imports implement the blob calls of its handlers; [TransferRun]: runs of
      two honest participants; [TransferExample]: a transfer of two leaves
      ([verified_transfer.rs]).

    The negotiation of a node ([arena0-node/src/machines]):

    - [Book]: the book of offers, tickets and counteroffers of a host, its signing
      keys, its invariant, and the arrival of tickets in any order.
    - [Driver]: the driver of one negotiation, handler by handler, up to [run].
    - [Gossip]: sizes of negotiation facts, and calls that cannot panic.
    - [Drives]: weakest preconditions over the driver's effects and the invariant
      that every handler keeps; [Freezing]: the set a creator freezes; [Activating]:
      runs from construction; [DriveExample]: a worked negotiation.

    The execution actor of a node ([arena0-node/src/execution]):

    - [Signing]: what a host signs for its guest and how it is verified
      ([arena0-protocol/src/execution/signing.rs]).
    - [Resident]: the resident guest instance with its checkpoint
      ([arena0-sandbox/src/engine/runtime.rs]).
    - [Actor]: persistence, dispatches, signatures and terminal transitions of the
      actor ([actor.rs], [guest.rs], [terminal.rs]); [Delivery]: frames in and out,
      commands, startup and the loop ([delivery.rs], [actor.rs]).
    - [Absorbing]: the frames a state has absorbed, for good; [Reasons]: truncation
      of texts at scalar boundaries.
    - [Acting]: weakest preconditions over the actor's effects, what the actor relies
      on ([Hosting]) and its invariant through the store, the resident and a
      dispatch; [Handling], [Concluding], [Accepting], [Serving]: every handler keeps
      it; [Spawning]: the guarantees of a whole run; [ActorExample]: a worked run.

    The host imports of the sandbox ([arena0-sandbox/src/engine/imports]):

    - [Imports]: every import a guest can call, with its charges and checks;
      [guest_run] is any sequence of calls with any computation between them.
    - [Emission]: the effects left by any such sequence; [Staging]: the blob changes
      it stages, over a view of the store, and how the store applies them;
      [Trapping]: no import panics.
    - [Hosts]: the signer, verifier and view the actor installs, and the guarantees
      over them; [ImportExample]: a worked guest call.

    The streams between nodes ([arena0-wire], [arena0-transport/src/lib.rs]):

    - [Wire]: the framing codec, the fetch frame and what each stream writes and
      accepts.

    ** How the code is modelled

    A fallible function returns [result E A]; [Panic] stands for [expect],
    [unwrap], [unreachable!] and out-of-range indexing.  A [&mut self] method is
    [M S E A], which returns the state on every path; where the code works on a
    clone and assigns it at the end the model has [on_clone].  Integers are [Z]
    with the checks of the code ([checked_add] at 64 bits, length prefixes at 32);
    hashes, keys, identities and signatures are [Z] as well, the big-endian value
    of their fixed-size array, whose range is part of the codec's typing predicate
    [cwf].  Byte strings are lists of [Z], UTF-8 strings are their bytes, and the
    text inside an error is a structured value.  A [BTreeMap] keyed by peers is a
    [gmap] iterated in key order, a [BTreeSet] a [gset].

    blake3, ed25519-dalek, blst and serde_json are the fields of the class
    [Crypto], arguments of every definition that uses them.  No theorem assumes
    collision resistance in general: a statement that needs it concludes with a
    collision of values it names ([entry_collision], [forged_opening], [forgery]); that
    a creator's set reaches the store is shown for sets whose own ticket hashes are
    distinct.  The no-fork theorem assumes, for one honest participant, that an
    aggregate signature including its key verifies only for commitments that
    participant staged.

    A SQL table is a map or a list of rows with its constraints as guards that
    answer an error; BEGIN, COMMIT and ROLLBACK may fail where the model takes a
    fault, a panic inside a transaction is a reopened database, and files and the
    change log live outside the transaction.  A missing file is an error of the store;
    other failures of file reads and writes are not modelled.  Randomly drawn salts are arguments.
    [prepare_activation] assumes that a session hash is not the zero array, and the
    state codec that digests and aggregate signatures are in the range of their
    arrays ([digest_range], [aggregate_range]).

    ChaCha20 is the class [Rng]; [blake3::hazmat] is the class [Blake3Hazmat], with its
    documented laws in [Blake3Tree]; how borsh cuts an encoding into writes is the class
    [Serialize].  The secret keys of a host are the class
    [LocalKeys].  The driver of a negotiation runs in a world with a log of its
    effects; clocks, the gossip topic, the store effects and the recomputed initial
    state answer through [Outside], any function of the number of questions asked,
    and the select loop runs over the list of inputs it takes.

    The execution actor runs in a world with the database of [Database] and a log in
    which every action keeps the state and the database it was taken in.  Other
    users of the store act between its calls and any transaction may fail; the
    guest, the engine, the clocks and the observer answer through [Surroundings].
    [Hosting] collects what the actor relies on: its keys sign, values have their
    types' bounds, other users leave its execution alone.  A send task lives in the
    actor's state until an input settles it.

    Recursion is structural except where a loop has fuel: [binary_search_by_key]
    (the length of the slice, enough by [binary_search_Some] and
    [binary_search_None]), the authoring loop of the actor (the length of the
    outgoing queue, enough by [author_loop_wp]), the cycle walk [follow] of the permutation (the number of
    slots, enough by [shuffle_is_fisher_yates]), the merge of leaf values (their number,
    enough by [root_of_leaves]) and the paged validation loops of
    the store (one page per row and one more, exact by [startup_pages_exact]).

    ** What is shown

    _Execution_: a reachable execution recovers after a restart, loses nothing on a
    failed operation, never panics, certifies only unanimously, stages at most one
    commitment per coordinate, keeps a log that replays to its cursor, does not
    change once concluded, can always be published, and agrees with every other
    certified history of its session.

    _Receipts and encodings_: receipts decode only when they are complete evidence,
    round-trip, and are bound by their identity; frames and gossip have one
    encoding; the durable state and its envelope round-trip.

    _Primitives_: ballots decide as early as they can and independently of order,
    agreements are fixed by their digest, commit-reveal rounds bind and complete,
    the permutation is a Fisher-Yates shuffle with even draws, turns are fair.

    _Store_: under any failures the calls act as updates of a map, read back what
    was written, admit one writer per version, keep activation evidence, and leave
    a database that startup validation accepts.

    _Negotiation_: books converge whatever the order of tickets; a creator with
    enough tickets reaches the store with an activation formed from them; no run of
    a drive panics, signs before the store accepted, or returns a session that is
    not stored and valid.  Two runs in [DriveExample] show where the driver departs
    from its comments.

    _Execution actor_: over every sequence of inputs it returns without a panic;
    what it sends is in the store when the send starts; a frame it acknowledged is
    absorbed in the store and stays so; dispatches run only on committed images; the
    observer hears one end, after the receipt is published, unless startup failed and no
    execution could be loaded.  A host is no signing
    oracle for its guest, and what it signs for it verifies everywhere.

    _Host imports_: whatever a guest calls, its effects are ones the aggregate admits,
    the objects it commits hash to their names once the store applied its changes, and
    the host does not panic.

    _Transfers_: the root merged from leaf values is the hash of the object; a receiver
    stores nothing but the agreed object, whatever its sender does; between honest
    participants every run completes in a number of deliveries its length fixes.

    _Streams_: a stream accepts exactly the packets its sender writes, packets delimit
    themselves, and no frame of the protocol is too large for its stream.

    ** What is not modelled

    Serde and schema impls, the list and recovery-page queries of the store and its
    linked blobs, key derivation, sockets, wasmtime, the finalization of modules, HTTP
    and terminal I/O, the asynchronous plumbing of the node, the transport and the
    daemon, procedural macros, sample programs. *)

From Stdlib Require Export ZArith Lia Permutation Sorted.
From stdpp Require Export base numbers list gmap strings.

#[global] Open Scope Z_scope.

(** ** Results: values, error paths and panics *)

(** [Result<A, E>], plus the [panic!] / [expect] / [assert!] / slice-index
    abort of Rust as a third outcome, so that the absence of panics is a
    theorem and not a convention of the model. *)
Inductive result (E A : Type) : Type :=
| Ok (a : A)
| Err (e : E)
| Panic.
Arguments Ok {E A} a.
Arguments Err {E A} e.
Arguments Panic {E A}.

Definition rbind {E A B} (m : result E A) (f : A -> result E B) : result E B :=
  match m with
  | Ok a => f a
  | Err e => Err e
  | Panic => Panic
  end.

Definition rmap {E A B} (f : A -> B) (m : result E A) : result E B :=
  rbind m (fun a => Ok (f a)).

(** [Result::map_err]. *)
Definition map_err {E F A} (f : E -> F) (m : result E A) : result F A :=
  match m with
  | Ok a => Ok a
  | Err e => Err (f e)
  | Panic => Panic
  end.

(** [Option::ok_or]. *)
Definition ok_or {E A} (o : option A) (e : E) : result E A :=
  match o with Some a => Ok a | None => Err e end.

(** [Option::expect] / [unwrap]. *)
Definition expect {E A} (o : option A) : result E A :=
  match o with Some a => Ok a | None => Panic end.

(** [Result::expect]. *)
Definition expect_ok {E F A} (r : result F A) : result E A :=
  match r with Ok a => Ok a | _ => Panic end.

(** [Result::is_ok]. *)
Definition is_ok {E A} (r : result E A) : bool :=
  match r with Ok _ => true | _ => false end.

(** [if b { return Err(e) }]. *)
Definition err_if {E} (b : bool) (e : E) : result E unit :=
  if b then Err e else Ok tt.

Declare Scope arena_scope.
Delimit Scope arena_scope with arena.
Notation "'let?' x ':=' m 'in' k" := (rbind m (fun x => k))
  (at level 10, x pattern, m at level 100, k at level 200,
   format "'[v' 'let?'  x  ':='  m  'in' '//' k ']'") : arena_scope.
Notation "m ';;?' k" := (rbind m (fun _ => k))
  (at level 200, k at level 200, right associativity,
   format "'[v' m  ';;?' '//' k ']'") : arena_scope.
#[global] Open Scope arena_scope.

(** [for x in l { f(x)?; }] *)
Fixpoint try_for_each {E A} (f : A -> result E unit) (l : list A) : result E unit :=
  match l with
  | [] => Ok tt
  | x :: l => f x ;;? try_for_each f l
  end.

(** [for x in l { acc = f(acc, x)?; }] *)
Fixpoint try_fold {E A B} (f : B -> A -> result E B) (acc : B) (l : list A) : result E B :=
  match l with
  | [] => Ok acc
  | x :: l => let? acc' := f acc x in try_fold f acc' l
  end.

(** ** Methods on [&mut self]: state in, result and state out *)

(** The final state is returned on every path, so a method that mutates before
    it fails shows the partial mutation. *)
Definition M (S E A : Type) : Type := S -> result E A * S.

Definition sret {S E A} (a : A) : M S E A := fun s => (Ok a, s).
Definition sbind {S E A B} (m : M S E A) (f : A -> M S E B) : M S E B := fun s =>
  match m s with
  | (Ok a, s') => f a s'
  | (Err e, s') => (Err e, s')
  | (Panic, s') => (Panic, s')
  end.
(** A call that only reads [self]. *)
Definition sread {S E A} (f : S -> result E A) : M S E A := fun s => (f s, s).
Definition smodify {S E} (f : S -> S) : M S E unit := fun s => (Ok tt, f s).

(** [let mut next = self.clone(); ...next...; *self = next;]: the body runs on
    a clone that replaces [self] only when it returns normally. *)
Definition on_clone {S E A} (m : M S E A) : M S E A := fun s =>
  match m s with
  | (Ok a, s') => (Ok a, s')
  | (r, _) => (r, s)
  end.

Notation "'let!' x ':=' m 'in' k" := (sbind m (fun x => k))
  (at level 10, x pattern, m at level 100, k at level 200,
   format "'[v' 'let!'  x  ':='  m  'in' '//' k ']'") : arena_scope.
Notation "m ';;!' k" := (sbind m (fun _ => k))
  (at level 200, k at level 200, right associativity,
   format "'[v' m  ';;!' '//' k ']'") : arena_scope.

(** ** Machine integers *)

Definition u8_max : Z := 2 ^ 8 - 1.
Definition u16_max : Z := 2 ^ 16 - 1.
Definition u32_max : Z := 2 ^ 32 - 1.
Definition u64_max : Z := 2 ^ 64 - 1.
Definition is_uint (max x : Z) : bool := (0 <=? x) && (x <=? max).

(** [u64::checked_add]. *)
Definition checked_add (x y : Z) : option Z :=
  if x + y <=? u64_max then Some (x + y) else None.

(** [Option<T> == Option<T>] on integers. *)
Definition opt_eqb (x y : option Z) : bool :=
  match x, y with
  | Some a, Some b => a =? b
  | None, None => true
  | _, _ => false
  end.

(** [Vec::len] as an unsigned integer. *)
Definition zlen {A} (l : list A) : Z := Z.of_nat (length l).

(** ** Sequences *)

(** [iter().find]. *)
Definition find_by {A} (p : A -> bool) (l : list A) : option A := List.find p l.

(** [iter().position]. *)
Fixpoint position {A} (p : A -> bool) (l : list A) : option nat :=
  match l with
  | [] => None
  | x :: l => if p x then Some O else S <$> position p l
  end.

(** [slice::windows(2)]. *)
Definition windows2 {A} (l : list A) : list (A * A) := zip l (drop 1 l).

(** [for x in l { if !seen.insert(x) { return Some(x) } }]: the first element
    already in the [HashSet] of its predecessors. *)
Fixpoint first_dup (seen : list Z) (l : list Z) : option Z :=
  match l with
  | [] => None
  | x :: l => if existsb (Z.eqb x) seen then Some x else first_dup (x :: seen) l
  end.

(** [slice::sort_by_key]: the stable sort by a [u64]-ordered key. *)
Fixpoint insert_key {A} (key : A -> Z) (x : A) (l : list A) : list A :=
  match l with
  | [] => [x]
  | y :: l => if key x <=? key y then x :: y :: l else y :: insert_key key x l
  end.
Definition sort_key {A} (key : A -> Z) (l : list A) : list A :=
  foldr (insert_key key) [] l.

(** [Vec::dedup]: drop each element equal to its predecessor. *)
Fixpoint dedup (l : list Z) : list Z :=
  match l with
  | x :: (y :: _) as l' => if x =? y then dedup l' else x :: dedup l'
  | _ => l
  end.

(** [slice::binary_search_by_key] of the standard library: the interval
    halving on [base] and [size], then one equality test. *)
Fixpoint bsearch_base {A} (key : A -> Z) (l : list A) (k : Z) (fuel base size : nat) : nat :=
  match fuel with
  | O => base
  | S fuel =>
      if (size <=? 1)%nat then base else
      let half := (size / 2)%nat in
      let mid := (base + half)%nat in
      let base' := match l !! mid with
                   | Some x => if k <? key x then base else mid
                   | None => base
                   end in
      bsearch_base key l k fuel base' (size - half)
  end.
Definition binary_search_by_key {A} (key : A -> Z) (l : list A) (k : Z) : option nat :=
  if (length l =? 0)%nat then None else
  let base := bsearch_base key l k (length l) 0 (length l) in
  match l !! base with
  | Some x => if key x =? k then Some base else None
  | None => None
  end.

(** ** Lemmas: results *)

Create HintDb arena.
Create Rewrite HintDb zlen.

Lemma rbind_Ok {E A B} (m : result E A) (f : A -> result E B) b :
  rbind m f = Ok b <-> exists a, m = Ok a /\ f a = Ok b.
Proof.
  destruct m as [a| |]; simpl; split; try done; eauto.
  - by intros (? & [= ->] & ?).
  - by intros (? & ? & ?).
  - by intros (? & ? & ?).
Qed.

Lemma rbind_noPanic {E A B} (m : result E A) (f : A -> result E B) :
  m <> Panic -> (forall a, m = Ok a -> f a <> Panic) -> rbind m f <> Panic.
Proof. destruct m; simpl; auto; done. Qed.

Lemma is_ok_unit {E} (r : result E unit) : is_ok r = true <-> r = Ok tt.
Proof. by destruct r as [[]| |]. Qed.

Section ResultLemmas.
Context {E A B : Type}.
Implicit Types (m : result E A).

Lemma map_err_Ok {F} (g : E -> F) m a : map_err g m = Ok a <-> m = Ok a.
Proof. destruct m; simpl; naive_solver. Qed.

Lemma map_err_noPanic {F} (g : E -> F) m : m <> Panic -> map_err g m <> Panic.
Proof. destruct m; simpl; naive_solver. Qed.

Lemma ok_or_Ok (o : option A) (e : E) a : ok_or o e = Ok a <-> o = Some a.
Proof. destruct o; simpl; naive_solver. Qed.

Lemma ok_or_noPanic (o : option A) (e : E) : ok_or o e <> Panic.
Proof. by destruct o. Qed.

Lemma expect_Ok (o : option A) a : expect (E:=E) o = Ok a <-> o = Some a.
Proof. destruct o; simpl; naive_solver. Qed.

Lemma expect_ok_Ok {F} (r : result F A) a : expect_ok (E:=E) r = Ok a <-> r = Ok a.
Proof. destruct r; simpl; naive_solver. Qed.

Lemma err_if_Ok b (e : E) u : err_if b e = Ok u <-> b = false.
Proof. destruct b, u; simpl; naive_solver. Qed.

Lemma err_if_noPanic b (e : E) : err_if b e <> Panic.
Proof. by destruct b. Qed.

Lemma try_for_each_Ok (f : A -> result E unit) l u :
  try_for_each f l = Ok u <-> Forall (fun x => f x = Ok tt) l.
Proof.
  destruct u; induction l as [|x l IH]; simpl.
  - split; auto.
  - rewrite rbind_Ok, Forall_cons, <- IH. split.
    + intros ([] & H & ?); auto.
    + intros [H ?]; eauto.
Qed.

Lemma try_for_each_noPanic (f : A -> result E unit) l :
  Forall (fun x => f x <> Panic) l -> try_for_each f l <> Panic.
Proof. induction 1; simpl; [done|]. by apply rbind_noPanic. Qed.

Lemma try_fold_app (f : B -> A -> result E B) l1 l2 b :
  try_fold f b (l1 ++ l2) = let? b' := try_fold f b l1 in try_fold f b' l2.
Proof. revert b; induction l1 as [|x l IH]; intros b; simpl; [done|].
  destruct (f b x); simpl; auto. Qed.

(** A loop invariant of a fallible fold. *)
Lemma try_fold_inv_elem (P : B -> Prop) (f : B -> A -> result E B) l b b' :
  (forall b x b', x ∈ l -> P b -> f b x = Ok b' -> P b') ->
  P b -> try_fold f b l = Ok b' -> P b'.
Proof.
  revert b; induction l as [|x l IH]; simpl; intros b Hf Hb H; [by injection H as <-|].
  apply rbind_Ok in H as (b1 & Hx & Hr). eapply (IH b1); [|eapply Hf; eauto; left|done].
  intros. eapply Hf; eauto. by right.
Qed.

Lemma try_fold_inv (P : B -> Prop) (f : B -> A -> result E B) l b b' :
  (forall b x b', P b -> f b x = Ok b' -> P b') ->
  P b -> try_fold f b l = Ok b' -> P b'.
Proof.
  intros Hf; revert b; induction l as [|x l IH]; simpl; intros b Hb H.
  - naive_solver.
  - apply rbind_Ok in H as (? & ? & ?); eauto.
Qed.
End ResultLemmas.

#[export] Hint Resolve err_if_noPanic ok_or_noPanic map_err_noPanic rbind_noPanic
  try_for_each_noPanic : arena.

(** ** Lemmas: methods *)

(** A method is atomic when a failing call leaves [self] as it was. *)
Definition atomic {S E A} (m : M S E A) : Prop :=
  forall s, match m s with (Ok _, _) => True | (_, s') => s' = s end.

(** A method that never changes [self]. *)
Definition read_only {S E A} (m : M S E A) : Prop := forall s, snd (m s) = s.

(** A method that keeps an invariant on every path. *)
Definition preserves {S E A} (I : S -> Prop) (m : M S E A) : Prop :=
  forall s, I s -> I (snd (m s)).

Section MethodLemmas.
Context {S E : Type}.

Lemma sbind_Ok {A B} (m : M S E A) (f : A -> M S E B) s b s' :
  sbind m f s = (Ok b, s') <-> exists a s1, m s = (Ok a, s1) /\ f a s1 = (Ok b, s').
Proof.
  unfold sbind. destruct (m s) as [[a|e|] s1]; split; try done; eauto.
  - by intros (? & ? & [= -> ->] & ?).
  - by intros (? & ? & ? & ?).
  - by intros (? & ? & ? & ?).
Qed.

Lemma sread_Ok {A} (f : S -> result E A) s a s' :
  sread f s = (Ok a, s') <-> f s = Ok a /\ s' = s.
Proof. unfold sread. split; [by intros [= -> ->]|by intros [-> ->]]. Qed.

Lemma smodify_Ok (f : S -> S) s u s' : smodify (E:=E) f s = (Ok u, s') <-> s' = f s.
Proof. unfold smodify; destruct u. split; [by intros [= ->]|by intros ->]. Qed.

Lemma sret_Ok {A} (a b : A) (s s' : S) : sret (E:=E) a s = (Ok b, s') <-> b = a /\ s' = s.
Proof. unfold sret. split; [by intros [= -> ->]|by intros [-> ->]]. Qed.

Lemma on_clone_Ok {A} (m : M S E A) s a s' :
  on_clone m s = (Ok a, s') <-> m s = (Ok a, s').
Proof. unfold on_clone. by destruct (m s) as [[]]. Qed.

Lemma read_only_sread {A} (f : S -> result E A) : read_only (sread f).
Proof. done. Qed.

Lemma read_only_sret {A} (a : A) : read_only (sret (S:=S) (E:=E) a).
Proof. done. Qed.

Lemma read_only_sbind {A B} (m : M S E A) (f : A -> M S E B) :
  read_only m -> (forall a, read_only (f a)) -> read_only (sbind m f).
Proof.
  intros Hm Hf s. unfold sbind. specialize (Hm s).
  destruct (m s) as [[a|e|] s'] eqn:Hs; simpl in *; subst; auto. apply Hf.
Qed.

Lemma atomic_read_only {A} (m : M S E A) : read_only m -> atomic m.
Proof. intros H s. specialize (H s). destruct (m s) as [[]]; auto. Qed.

Lemma atomic_on_clone {A} (m : M S E A) : atomic (on_clone m).
Proof. intros s. unfold on_clone. by destruct (m s) as [[]]. Qed.

Lemma atomic_smodify (f : S -> S) : atomic (E:=E) (smodify f).
Proof. intros s. done. Qed.

(** Guards first, effects last: reading steps before an atomic step. *)
Lemma atomic_sbind {A B} (m : M S E A) (f : A -> M S E B) :
  read_only m -> (forall a, atomic (f a)) -> atomic (sbind m f).
Proof.
  intros Hm Hf s. unfold sbind. specialize (Hm s).
  destruct (m s) as [[a|e|] s'] eqn:Hs; simpl in *; subst; auto. apply Hf.
Qed.

(** An atomic step followed by a step that cannot fail. *)
Lemma atomic_sbind_total {A B} (m : M S E A) (f : A -> M S E B) :
  atomic m -> (forall a s, exists b s', f a s = (Ok b, s')) -> atomic (sbind m f).
Proof.
  intros Hm Hf s. unfold sbind. specialize (Hm s).
  destruct (m s) as [[a|e|] s'] eqn:Hs; simpl in *; subst; auto.
  destruct (Hf a s') as (b & s2 & ->). done.
Qed.

Lemma preserves_read_only {A} (I : S -> Prop) (m : M S E A) : read_only m -> preserves I m.
Proof. intros Hm s Hs. by rewrite Hm. Qed.

Lemma preserves_sbind {A B} (I : S -> Prop) (m : M S E A) (f : A -> M S E B) :
  preserves I m -> (forall a, preserves I (f a)) -> preserves I (sbind m f).
Proof.
  intros Hm Hf s Hs. specialize (Hm s Hs). unfold sbind.
  destruct (m s) as [[a|e|] s']; simpl in *; [by apply Hf|done..].
Qed.

Lemma atomic_fail {A} (m : M S E A) s s' :
  atomic m -> (forall a, m s <> (Ok a, s')) -> m s = (fst (m s), s') -> s' = s.
Proof.
  intros Hm Hne Heq. specialize (Hm s).
  destruct (m s) as [[a|e|] s1]; simpl in *; simplify_eq; auto.
  by destruct (Hne a).
Qed.
End MethodLemmas.

#[export] Hint Resolve read_only_sread read_only_sret read_only_sbind atomic_on_clone
  atomic_smodify atomic_sbind : arena.
#[export] Hint Resolve atomic_read_only | 10 : arena.

(** ** Lemmas: integers and lengths *)

Lemma checked_add_Some x y z :
  checked_add x y = Some z <-> x + y <= u64_max /\ z = x + y.
Proof.
  unfold checked_add. destruct (x + y <=? u64_max) eqn:H; naive_solver lia.
Qed.

Lemma opt_eqb_true x y : opt_eqb x y = true <-> x = y.
Proof.
  destruct x as [x|], y as [y|]; simpl; rewrite ?Z.eqb_eq; naive_solver.
Qed.

Section Zlen.
Context {A : Type}.
Implicit Types (l : list A).
Lemma zlen_nil : zlen (@nil A) = 0. Proof. done. Qed.
Lemma zlen_cons x l : zlen (x :: l) = 1 + zlen l. Proof. unfold zlen; simpl; lia. Qed.
Lemma zlen_app l1 l2 : zlen (l1 ++ l2) = zlen l1 + zlen l2.
Proof. unfold zlen; rewrite length_app; lia. Qed.
Lemma zlen_nonneg l : 0 <= zlen l. Proof. unfold zlen; lia. Qed.
Lemma zlen_Permutation l1 l2 : l1 ≡ₚ l2 -> zlen l1 = zlen l2.
Proof. unfold zlen; by intros ->. Qed.
Lemma zlen_0 l : zlen l = 0 <-> l = [].
Proof. unfold zlen; destruct l; simpl; naive_solver lia. Qed.
End Zlen.
Lemma zlen_map {A B} (f : A -> B) l : zlen (map f l) = zlen l.
Proof. unfold zlen; by rewrite length_map. Qed.
Lemma zlen_fmap {A B} (f : A -> B) l : zlen (f <$> l) = zlen l.
Proof. apply zlen_map. Qed.
Lemma zlen_replicate {A} n (x : A) : zlen (replicate n x) = Z.of_nat n.
Proof. unfold zlen; by rewrite length_replicate. Qed.
#[export] Hint Rewrite @zlen_nil @zlen_cons @zlen_app @zlen_map @zlen_replicate : zlen.

Lemma filter_all {A} (P : A -> Prop) `{!forall x, Decision (P x)} l : Forall P l -> filter P l = l.
Proof. induction 1; [done|]. rewrite filter_cons_True by done. by f_equal. Qed.

(** ** Lemmas: sorting and searching *)

Section SortKey.
Context {A : Type} (key : A -> Z).
Implicit Types (l : list A).

Definition key_le (x y : A) : Prop := key x <= key y.
Definition key_lt (x y : A) : Prop := key x < key y.

Lemma insert_key_Permutation x l : insert_key key x l ≡ₚ x :: l.
Proof.
  induction l as [|y l IH]; simpl; [done|].
  destruct (key x <=? key y); [done|]. rewrite IH. apply Permutation_swap.
Qed.

Lemma sort_key_Permutation l : sort_key key l ≡ₚ l.
Proof.
  induction l as [|x l IH]; simpl; [done|].
  rewrite insert_key_Permutation. by rewrite IH.
Qed.

Lemma insert_key_sorted x l :
  StronglySorted key_le l -> StronglySorted key_le (insert_key key x l).
Proof.
  induction 1 as [|y l Hl IH Hy]; simpl; [by repeat constructor|].
  destruct (key x <=? key y) eqn:Hxy.
  - constructor; [by constructor|]. constructor; [unfold key_le; lia|].
    eapply Forall_impl; [done|]. unfold key_le; simpl; intros; lia.
  - constructor; [done|]. rewrite insert_key_Permutation.
    constructor; [unfold key_le; lia|done].
Qed.

Lemma sort_key_sorted l : StronglySorted key_le (sort_key key l).
Proof. induction l; simpl; [constructor|]. by apply insert_key_sorted. Qed.

(** Distinct keys make the sorted order strict. *)
Lemma sorted_NoDup_strict l :
  NoDup (key <$> l) -> StronglySorted key_le l -> StronglySorted key_lt l.
Proof.
  intros Hnd; induction 1 as [|x l Hl IH Hx]; [constructor|].
  apply NoDup_cons in Hnd as [Hnin Hnd]. constructor; [by apply IH|].
  rewrite Forall_forall in Hx |- *. intros y Hy.
  specialize (Hx y Hy). unfold key_le, key_lt in *.
  assert (key x <> key y); [|lia].
  intros Heq. apply Hnin. rewrite Heq. by apply list_elem_of_fmap_2.
Qed.

Lemma sort_key_strict l :
  NoDup (key <$> l) -> StronglySorted key_lt (sort_key key l).
Proof.
  intros Hnd. apply sorted_NoDup_strict; [|apply sort_key_sorted].
  by rewrite sort_key_Permutation.
Qed.

Lemma strict_sorted_fmap_NoDup l : StronglySorted key_lt l -> NoDup (key <$> l).
Proof.
  induction 1 as [|x l Hl IH Hx]; simpl; [constructor|]. constructor; [|done].
  intros (y & Heq & Hy)%list_elem_of_fmap. rewrite Forall_forall in Hx.
  specialize (Hx y Hy). unfold key_lt in Hx. lia.
Qed.

(** Two strictly sorted lists with the same elements are equal. *)
Lemma strict_sorted_unique l1 l2 :
  StronglySorted key_lt l1 -> StronglySorted key_lt l2 -> l1 ≡ₚ l2 -> l1 = l2.
Proof.
  intros H1; revert l2; induction H1 as [|x l1 H1 IH Hx]; intros l2 H2 Hp.
  - by apply Permutation_nil_l in Hp.
  - destruct H2 as [|y l2 H2 Hy].
    { by apply Permutation_nil_r in Hp. }
    assert (x = y) as ->.
    { assert (x ∈ y :: l2) as Hxin by (rewrite <- Hp; left).
      assert (y ∈ x :: l1) as Hyin by (rewrite Hp; left).
      rewrite Forall_forall in Hx, Hy. unfold key_lt in *.
      apply elem_of_cons in Hxin as [->|Hxin]; [done|].
      apply elem_of_cons in Hyin as [->|Hyin]; [done|].
      specialize (Hx _ Hyin). specialize (Hy _ Hxin). simpl in *. lia. }
    f_equal. apply IH; [done|]. by eapply Permutation_cons_inv.
Qed.

Lemma strict_sorted_lookup_lt l i j x y :
  StronglySorted key_lt l -> l !! i = Some x -> l !! j = Some y -> (i < j)%nat ->
  key x < key y.
Proof.
  intros Hl; revert i j; induction Hl as [|z l Hl IH Hz]; intros i j Hi Hj Hij.
  - by rewrite lookup_nil in Hi.
  - destruct i as [|i], j as [|j]; simpl in *; try lia.
    + simplify_eq. rewrite Forall_forall in Hz. apply Hz.
      by eapply list_elem_of_lookup_2.
    + eapply IH; eauto; lia.
Qed.

Lemma bsearch_base_spec l k i x fuel base size :
  StronglySorted key_lt l -> l !! i = Some x -> key x = k ->
  (base <= i < base + size)%nat -> (base + size <= length l)%nat -> (size <= fuel)%nat ->
  bsearch_base key l k fuel base size = i.
Proof.
  intros Hl Hi Hk; revert base size.
  induction fuel as [|fuel IH]; intros base size Hb Hlen Hf; cbn [bsearch_base]; [lia|].
  destruct (size <=? 1)%nat eqn:Hs; [apply Nat.leb_le in Hs; lia|].
  apply Nat.leb_gt in Hs.
  pose proof (Nat.Div0.mul_div_le size 2).
  assert (1 <= size / 2 < size)%nat as Hhalf.
  { split; [apply Nat.div_le_lower_bound; lia|apply Nat.div_lt; lia]. }
  destruct (lookup_lt_is_Some_2 l (base + size / 2)%nat) as [y Hy]; [lia|].
  rewrite Hy. destruct (k <? key y) eqn:Hky.
  - apply IH; try lia. split; [lia|].
    destruct (decide (i < base + size / 2)%nat); [|].
    + lia.
    + exfalso. apply Z.ltb_lt in Hky.
      destruct (decide (i = base + size / 2)%nat) as [->|]; [simplify_eq; lia|].
      pose proof (strict_sorted_lookup_lt l (base + size / 2)%nat i y x). naive_solver lia.
  - apply IH; try lia. apply Z.ltb_ge in Hky.
    destruct (decide (base + size / 2 <= i)%nat); [lia|].
    pose proof (strict_sorted_lookup_lt l i (base + size / 2)%nat x y). naive_solver lia.
Qed.

(** On a strictly sorted slice the binary search is the lookup by key. *)
Lemma binary_search_Some l k i :
  StronglySorted key_lt l ->
  binary_search_by_key key l k = Some i <-> exists x, l !! i = Some x /\ key x = k.
Proof.
  intros Hl. unfold binary_search_by_key.
  destruct (length l =? 0)%nat eqn:Hn.
  { apply Nat.eqb_eq, length_zero_iff_nil in Hn as ->. split; [done|].
    intros (x & Hx & _). by rewrite lookup_nil in Hx. }
  split.
  - destruct (l !! _) as [x|] eqn:Hx; [|done].
    destruct (key x =? k) eqn:Hk; [|done]. intros [= <-].
    apply Z.eqb_eq in Hk. eauto.
  - intros (x & Hx & Hk). pose proof (lookup_lt_Some _ _ _ Hx).
    rewrite (bsearch_base_spec l k i x) by (done || lia).
    rewrite Hx. by rewrite (proj2 (Z.eqb_eq _ _) Hk).
Qed.

Lemma binary_search_None l k :
  StronglySorted key_lt l ->
  binary_search_by_key key l k = None <-> Forall (fun x => key x <> k) l.
Proof.
  intros Hl. rewrite Forall_forall. split.
  - intros Hnone x Hx Hk. apply list_elem_of_lookup in Hx as [i Hi].
    assert (binary_search_by_key key l k = Some i) as Hs
      by (apply binary_search_Some; eauto). by rewrite Hs in Hnone.
  - intros Hall. destruct (binary_search_by_key key l k) as [i|] eqn:Hs; [|done].
    apply binary_search_Some in Hs as (x & Hx & Hk); [|done].
    exfalso. eapply Hall; [|done]. by eapply list_elem_of_lookup_2.
Qed.
End SortKey.

Lemma dedup_strict l : StronglySorted (key_lt id) l -> dedup l = l.
Proof.
  induction 1 as [|x l Hl IH Hx]; simpl; [done|].
  destruct l as [|y l]; [done|]. apply Forall_cons in Hx as [Hxy _].
  unfold key_lt, id in Hxy. rewrite IH, (proj2 (Z.eqb_neq x y)) by lia. done.
Qed.

Lemma dedup_elem_of l x : x ∈ dedup l <-> x ∈ l.
Proof.
  induction l as [|y l IH]; simpl; [done|].
  destruct l as [|z l]; [done|]. destruct (Z.eqb_spec y z) as [->|].
  - rewrite IH, !elem_of_cons. tauto.
  - rewrite !(elem_of_cons _ x), IH. by rewrite elem_of_cons.
Qed.

Lemma dedup_sorted_strict l :
  StronglySorted (key_le id) l -> StronglySorted (key_lt id) (dedup l).
Proof.
  induction 1 as [|x l Hl IH Hx]; simpl; [constructor|].
  destruct l as [|y l]; [by repeat constructor|].
  destruct (Z.eqb_spec x y) as [->|Hne]; [done|]. constructor; [done|].
  rewrite Forall_forall in Hx |- *. intros z Hz. rewrite dedup_elem_of in Hz.
  unfold key_le, key_lt, id in *. pose proof (Hx z Hz) as Hxz.
  apply StronglySorted_inv in Hl as [_ Hy]. rewrite Forall_forall in Hy.
  pose proof (Hx y ltac:(left)). apply elem_of_cons in Hz as [->|Hz]; [simpl in *; lia|].
  specialize (Hy z Hz). simpl in *. lia.
Qed.

Lemma existsb_eqb x l : existsb (Z.eqb x) l = true <-> x ∈ l.
Proof.
  rewrite existsb_exists, list_elem_of_In. split.
  - intros (y & Hy & ->%Z.eqb_eq). done.
  - intros Hx. exists x. split; [done|apply Z.eqb_refl].
Qed.

Lemma first_dup_None seen l :
  first_dup seen l = None <-> NoDup l /\ forall x, x ∈ l -> x ∉ seen.
Proof.
  revert seen; induction l as [|x l IH]; intros seen; simpl.
  - split; [|done]. intros _. split; [constructor|]. intros x Hx. by apply elem_of_nil in Hx.
  - destruct (existsb (Z.eqb x) seen) eqn:Hx.
    + split; [done|]. intros [_ Hs]. exfalso. apply (Hs x); [left|]. by apply existsb_eqb.
    + rewrite IH, NoDup_cons. split.
      * intros [Hnd Hs]. split; [split; [|done]|].
        -- intros Hin. apply (Hs x Hin). left.
        -- intros y [->|Hy]%elem_of_cons.
           ++ intros Hin. apply existsb_eqb in Hin. congruence.
           ++ intros Hin. apply (Hs y Hy). by right.
      * intros [[Hnin Hnd] Hs]. split; [done|]. intros y Hy.
        apply not_elem_of_cons. split; [intros ->; done|]. apply Hs. by right.
Qed.

Lemma first_dup_NoDup l : first_dup [] l = None <-> NoDup l.
Proof.
  rewrite first_dup_None. split; [by intros [? _]|]. intros. split; [done|].
  intros x _ Hx. by apply elem_of_nil in Hx.
Qed.

(** Adjacent comparisons order the whole sequence. *)
Lemma windows2_sorted {A} (key : A -> Z) l :
  existsb (fun p => key p.2 <=? key p.1) (windows2 l) = false ->
  StronglySorted (key_lt key) l.
Proof.
  unfold windows2. induction l as [|x l IH]; simpl; [constructor|].
  destruct l as [|y l]; [by repeat constructor|]. simpl. rewrite orb_false_iff. intros [Hxy H].
  specialize (IH H). constructor; [done|]. apply StronglySorted_inv in IH as [_ Hy].
  apply Z.leb_gt in Hxy. constructor; [done|].
  eapply Forall_impl; [done|]. unfold key_lt. simpl. intros; lia.
Qed.

Lemma sorted_windows2 {A} (key : A -> Z) l :
  StronglySorted (key_lt key) l ->
  existsb (fun p => key p.2 <=? key p.1) (windows2 l) = false.
Proof.
  unfold windows2. induction 1 as [|x l Hl IH Hx]; [done|]. destruct l as [|y l]; [done|].
  simpl in *. rewrite orb_false_iff. split; [|done].
  apply Forall_cons in Hx as [Hxy _]. unfold key_lt in Hxy. lia.
Qed.

Lemma sorted_filter {A} (R : A -> A -> Prop) (P : A -> Prop) `{!forall x, Decision (P x)} l :
  StronglySorted R l -> StronglySorted R (filter P l).
Proof.
  induction 1 as [|x l Hl IH Hx]; [constructor|]. destruct (decide (P x)) as [HP|HP].
  - rewrite filter_cons_True by done. constructor; [done|]. rewrite Forall_forall in *.
    intros y [_ Hy]%list_elem_of_filter. eauto.
  - by rewrite filter_cons_False by done.
Qed.

Lemma enumerate_sorted {A} (l : list A) n :
  StronglySorted (key_lt fst) (imap (fun i x => (Z.of_nat (n + i), x)) l).
Proof.
  revert n; induction l as [|x l IH]; intros n; [constructor|]. rewrite imap_cons. constructor.
  - rewrite (imap_ext _ (fun i x => (Z.of_nat (S n + i), x))); [apply IH|].
    intros i y _. simpl. do 2 f_equal. lia.
  - apply Forall_forall. intros [z y] (i & Hi)%list_elem_of_lookup.
    rewrite list_lookup_imap in Hi. destruct (l !! i); [|done]. simpl in Hi. simplify_eq.
    unfold key_lt. simpl. lia.
Qed.

Lemma map_filter_sublist {A B} (f : A -> B) (P : A -> Prop) `{!forall x, Decision (P x)} l :
  map f (filter P l) `sublist_of` map f l.
Proof.
  induction l as [|x l IH]; [done|]. destruct (decide (P x)) as [HP|HP].
  - rewrite filter_cons_True by done. simpl. by apply sublist_skip.
  - rewrite filter_cons_False by done. simpl. by apply sublist_cons.
Qed.

(** ** Tactics *)

(** Turn hypotheses [... = Ok _] (and [... = (Ok _, _)]) into the facts the
    successful path established. *)
Ltac inv_ok_step :=
  match goal with
  | H : Err _ = Ok _ |- _ => discriminate H
  | H : Panic = Ok _ |- _ => discriminate H
  | H : Ok _ = Ok _ |- _ => injection H as H; subst
  | H : rbind _ _ = Ok _ |- _ => apply (proj1 (rbind_Ok _ _ _)) in H as (? & ? & H)
  | H : rmap _ _ = Ok _ |- _ => unfold rmap in H
  | H : map_err _ _ = Ok _ |- _ => apply (proj1 (map_err_Ok _ _ _)) in H
  | H : ok_or _ _ = Ok _ |- _ => apply (proj1 (ok_or_Ok _ _ _)) in H
  | H : expect _ = Ok _ |- _ => apply (proj1 (expect_Ok _ _)) in H
  | H : expect_ok _ = Ok _ |- _ => apply (proj1 (expect_ok_Ok _ _)) in H
  | H : err_if _ _ = Ok _ |- _ => apply (proj1 (err_if_Ok _ _ _)) in H
  | H : sbind _ _ _ = (Ok _, _) |- _ => apply (proj1 (sbind_Ok _ _ _ _ _)) in H as (? & ? & ? & H)
  | H : sread _ _ = (Ok _, _) |- _ => apply (proj1 (sread_Ok _ _ _ _)) in H as [H ?]; subst
  | H : smodify _ _ = (Ok _, _) |- _ => apply (proj1 (smodify_Ok _ _ _ _)) in H; subst
  | H : sret _ _ = (Ok _, _) |- _ => apply (proj1 (sret_Ok _ _ _ _)) in H as [? ?]; subst
  | H : on_clone _ _ = (Ok _, _) |- _ => apply (proj1 (on_clone_Ok _ _ _ _)) in H
  | H : checked_add _ _ = Some _ |- _ => apply (proj1 (checked_add_Some _ _ _)) in H as [? ?]; subst
  | H : negb _ = true |- _ => apply negb_true_iff in H
  | H : negb _ = false |- _ => apply negb_false_iff in H
  | H : (_ || _)%bool = false |- _ => apply orb_false_iff in H as [? ?]
  | H : (_ && _)%bool = true |- _ => apply andb_true_iff in H as [? ?]
  end.
Ltac inv_ok := repeat inv_ok_step.
