(* ===== verification/Borsh.v ===== *)
(** * Borsh field codecs (crates/arena0-program/src/bounded.rs)

    The canonical byte encodings everything in arena0 is hashed, signed and
    bounded under.  [write_bytes] ... [read_len] translate the bounded field
    codecs of [bounded.rs]; the combinators [c_pair], [c_option], [c_iso] ...
    assemble them the way a derived [BorshSerialize]/[BorshDeserialize] lays out
    a struct: fields in declaration order, little-endian integers, a [u32]
    length before a vector, a [u8] tag before a variant.  A codec carries its
    round-trip law, so every composite codec has it by construction.

    Values of type [[u8; n]] that the code compares or orders ([PeerId], hashes,
    signatures, keys) are kept as the integer they spell in big-endian: the
    derived lexicographic order is the integer order.  A [String] is its UTF-8
    bytes. *)

From S2P Require Import Prelude.

Abbreviation bytes := (list Z) (only parsing).

#[global] Unset Program Cases.

(** [std::io::ErrorKind], as far as the codecs distinguish it. *)
Inductive io_kind := InvalidInput | InvalidData | UnexpectedEof.

Definition writer : Type := result io_kind bytes.
Definition Reader (A : Type) : Type := bytes -> result io_kind (A * bytes).

(** Two writes in a row; the first error ends the write. *)
Definition wcat (w1 w2 : writer) : writer :=
  let? a := w1 in let? b := w2 in Ok (a ++ b).
Notation "w1 +++ w2" := (wcat w1 w2) (at level 60, right associativity) : arena_scope.

(** ** Integers and arrays *)

Fixpoint le_bytes (n : nat) (z : Z) : bytes :=
  match n with
  | O => []
  | S n => (z mod 256) :: le_bytes n (z / 256)
  end.
Fixpoint le_val (bs : bytes) : Z :=
  match bs with
  | [] => 0
  | b :: bs => b + 256 * le_val bs
  end.
Definition be_bytes (n : nat) (z : Z) : bytes := reverse (le_bytes n z).
Definition be_val (bs : bytes) : Z := le_val (reverse bs).

(** [io::Read::read_exact]. *)
Definition read_exact (n : nat) : Reader bytes := fun bs =>
  if (length bs <? n)%nat then Err UnexpectedEof else Ok (take n bs, drop n bs).

Definition write_uint (n : nat) (z : Z) : writer := Ok (le_bytes n z).
Definition read_uint (n : nat) : Reader Z := fun bs =>
  let? (b, rest) := read_exact n bs in Ok (le_val b, rest).
Definition read_arr (n : nat) : Reader Z := fun bs =>
  let? (b, rest) := read_exact n bs in Ok (be_val b, rest).

(** ** bounded.rs *)

Definition over_bound : io_kind := InvalidInput.

Definition read_len (max : Z) : Reader Z := fun bs =>
  let? (len, rest) := read_uint 4 bs in
  if max <? len then Err InvalidData else Ok (len, rest).

Definition write_len (max len : Z) : writer :=
  if max <? len then Err over_bound else
  if u32_max <? len then Err over_bound else
  write_uint 4 len.

Definition write_bytes (max : Z) (bs : bytes) : writer :=
  write_len max (zlen bs) +++ Ok bs.

Definition read_bytes (max : Z) : Reader bytes := fun bs =>
  let? (len, rest) := read_len max bs in
  read_exact (Z.to_nat len) rest.

(** [String::from_utf8]: well-formed UTF-8 (no overlong form, no surrogate). *)
Fixpoint utf8_valid (bs : bytes) : bool :=
  let cont b := (128 <=? b) && (b <=? 191) in
  let range lo hi b := (lo <=? b) && (b <=? hi) in
  match bs with
  | [] => true
  | b0 :: t0 =>
      if range 0 127 b0 then utf8_valid t0 else
      match t0 with
      | [] => false
      | b1 :: t1 =>
          if range 194 223 b0 then cont b1 && utf8_valid t1 else
          match t1 with
          | [] => false
          | b2 :: t2 =>
              if b0 =? 224 then range 160 191 b1 && cont b2 && utf8_valid t2
              else if b0 =? 237 then range 128 159 b1 && cont b2 && utf8_valid t2
              else if range 225 239 b0 then cont b1 && cont b2 && utf8_valid t2
              else match t2 with
                   | [] => false
                   | b3 :: t3 =>
                       if b0 =? 240 then range 144 191 b1 && cont b2 && cont b3 && utf8_valid t3
                       else if b0 =? 244 then range 128 143 b1 && cont b2 && cont b3 && utf8_valid t3
                       else if range 241 243 b0 then cont b1 && cont b2 && cont b3 && utf8_valid t3
                       else false
                   end
          end
      end
  end.

Definition write_string (max : Z) (s : bytes) : writer := write_bytes max s.
Definition read_string (max : Z) : Reader bytes := fun bs =>
  let? (s, rest) := read_bytes max bs in
  if utf8_valid s then Ok (s, rest) else Err InvalidData.

Definition write_option_string (max : Z) (v : option bytes) : writer :=
  match v with
  | None => write_uint 1 0
  | Some v => write_uint 1 1 +++ write_string max v
  end.
Definition read_option_string (max : Z) : Reader (option bytes) := fun bs =>
  let? (tag, rest) := read_uint 1 bs in
  if tag =? 0 then Ok (None, rest) else
  if tag =? 1 then let? (v, rest) := read_string max rest in Ok (Some v, rest)
  else Err InvalidData.

Section VecCodec.
Context {A : Type} (w : A -> writer) (r : Reader A).

Fixpoint write_items (l : list A) : writer :=
  match l with
  | [] => Ok []
  | x :: l => w x +++ write_items l
  end.
Definition write_vec (max : Z) (l : list A) : writer :=
  write_len max (zlen l) +++ write_items l.

Fixpoint read_items (n : nat) : Reader (list A) := fun bs =>
  match n with
  | O => Ok ([], bs)
  | S n => let? (x, rest) := r bs in
           let? (l, rest) := read_items n rest in
           Ok (x :: l, rest)
  end.
Definition read_vec (max : Z) : Reader (list A) := fun bs =>
  let? (len, rest) := read_len max bs in
  read_items (Z.to_nat len) rest.
End VecCodec.

(** ** Lemmas on the byte layer *)

Lemma wcat_Ok w1 w2 bs :
  (w1 +++ w2) = Ok bs <-> exists b1 b2, w1 = Ok b1 /\ w2 = Ok b2 /\ bs = b1 ++ b2.
Proof.
  unfold wcat. split.
  - intros H. inv_ok. eauto.
  - intros (a & b & -> & -> & ->). done.
Qed.

Lemma length_le_bytes n z : length (le_bytes n z) = n.
Proof. revert z; induction n; intros z; simpl; auto. Qed.

Lemma le_val_bytes n z : 0 <= z < 256 ^ Z.of_nat n -> le_val (le_bytes n z) = z.
Proof.
  revert z; induction n as [|n IH]; intros z Hz; cbn [le_bytes le_val].
  - change (256 ^ Z.of_nat 0) with 1 in Hz. lia.
  - rewrite Nat2Z.inj_succ, Z.pow_succ_r in Hz by lia.
    pose proof (Z.div_mod z 256 ltac:(lia)).
    rewrite IH; [lia|]. split; [apply Z.div_pos; lia|].
    apply Z.div_lt_upper_bound; lia.
Qed.

Lemma be_val_bytes n z : 0 <= z < 256 ^ Z.of_nat n -> be_val (be_bytes n z) = z.
Proof. unfold be_val, be_bytes. rewrite reverse_involutive. apply le_val_bytes. Qed.

Lemma length_be_bytes n z : length (be_bytes n z) = n.
Proof. unfold be_bytes. by rewrite length_reverse, length_le_bytes. Qed.

Lemma read_exact_app n b rest : length b = n -> read_exact n (b ++ rest) = Ok (b, rest).
Proof.
  intros <-. unfold read_exact. rewrite length_app.
  rewrite (proj2 (Nat.ltb_ge _ _)) by lia. by rewrite take_app_length, drop_app_length.
Qed.

Lemma read_uint_write n z rest :
  0 <= z < 256 ^ Z.of_nat n -> read_uint n (le_bytes n z ++ rest) = Ok (z, rest).
Proof.
  intros Hz. unfold read_uint. rewrite read_exact_app by apply length_le_bytes.
  simpl. by rewrite le_val_bytes.
Qed.

Lemma write_len_Ok max len bs :
  write_len max len = Ok bs <-> len <= max /\ len <= u32_max /\ bs = le_bytes 4 len.
Proof.
  unfold write_len, write_uint. destruct (max <? len) eqn:H1; [naive_solver lia|].
  destruct (u32_max <? len) eqn:H2; [naive_solver lia|].
  split; [intros [= <-]; split_and!; (lia || done)|]. by intros (_ & _ & ->).
Qed.

Lemma read_len_write max len rest :
  0 <= len -> len <= max -> len <= u32_max ->
  read_len max (le_bytes 4 len ++ rest) = Ok (len, rest).
Proof.
  intros ? ? Hu. unfold read_len. unfold u32_max in Hu.
  rewrite read_uint_write by (change (256 ^ Z.of_nat 4) with (2 ^ 32); lia). simpl.
  by rewrite (proj2 (Z.ltb_ge _ _)) by lia.
Qed.

Lemma write_bytes_Ok max bs out :
  write_bytes max bs = Ok out <->
  zlen bs <= max /\ zlen bs <= u32_max /\ out = le_bytes 4 (zlen bs) ++ bs.
Proof.
  unfold write_bytes. rewrite wcat_Ok. split.
  - intros (? & ? & (? & ? & ->)%write_len_Ok & [= <-] & ->). auto.
  - intros (? & ? & ->). eexists _, _. split_and!; [by apply write_len_Ok|done|done].
Qed.

Lemma read_bytes_write max bs out rest :
  write_bytes max bs = Ok out -> read_bytes max (out ++ rest) = Ok (bs, rest).
Proof.
  intros (? & ? & ->)%write_bytes_Ok. unfold read_bytes. rewrite <- app_assoc.
  rewrite read_len_write by (auto using zlen_nonneg). simpl.
  unfold zlen. rewrite Nat2Z.id. by apply read_exact_app.
Qed.

Lemma read_items_write {A} (w : A -> writer) (r : Reader A) (P : A -> Prop) l out rest :
  (forall a bs rest, P a -> w a = Ok bs -> r (bs ++ rest) = Ok (a, rest)) ->
  Forall P l -> write_items w l = Ok out -> read_items r (length l) (out ++ rest) = Ok (l, rest).
Proof.
  intros Hr Hl; revert out; induction Hl as [|x l Hx Hl IH]; intros out H; simpl in *.
  - inv_ok. done.
  - apply wcat_Ok in H as (b1 & b2 & Hb1 & Hb2 & ->).
    rewrite <- app_assoc, (Hr x) by done. simpl. by rewrite (IH b2).
Qed.

#[global] Arguments wcat : simpl never.
#[global] Arguments write_uint : simpl never.
#[global] Arguments read_uint : simpl never.
#[global] Arguments le_bytes : simpl never.
#[global] Arguments be_bytes : simpl never.
#[global] Arguments write_bytes : simpl never.
#[global] Arguments write_len : simpl never.

(** ** Codecs *)

Record codec (A : Type) := Codec {
  enc : A -> writer;
  dec : Reader A;
  cwf : A -> Prop;
  dec_enc : forall a bs rest, cwf a -> enc a = Ok bs -> dec (bs ++ rest) = Ok (a, rest) }.
Arguments enc {A} c a.
Arguments dec {A} c bs.
Arguments cwf {A} c a.
Arguments dec_enc {A} c a bs rest.

(** [borsh::to_vec] keeps the writer's error; [borsh::object_length] is the
    length of the same bytes; [borsh::from_slice] also rejects trailing bytes. *)
Definition to_vec {A} (c : codec A) (a : A) : result io_kind bytes := enc c a.
Definition object_length {A} (c : codec A) (a : A) : result io_kind Z := rmap zlen (enc c a).
Definition from_slice {A} (c : codec A) (bs : bytes) : result io_kind A :=
  let? (a, rest) := dec c bs in
  match rest with [] => Ok a | _ => Err InvalidData end.

Ltac codec_law :=
  let a := fresh "a" in let bs := fresh "bs" in let rest := fresh "rest" in
  intros a bs rest ? ?; simpl in *.

Program Definition c_uint (n : nat) : codec Z :=
  {| enc := write_uint n; dec := read_uint n; cwf z := 0 <= z < 256 ^ Z.of_nat n |}.
Next Obligation. intros ?. codec_law. unfold write_uint in *; inv_ok. by apply read_uint_write. Qed.
Abbreviation c_u8 := (c_uint 1).
Abbreviation c_u16 := (c_uint 2).
Abbreviation c_u32 := (c_uint 4).
Abbreviation c_u64 := (c_uint 8).

(** [[u8; n]] as its big-endian value. *)
Program Definition c_arr (n : nat) : codec Z :=
  {| enc z := Ok (be_bytes n z); dec := read_arr n; cwf z := 0 <= z < 256 ^ Z.of_nat n |}.
Next Obligation.
  intros ?. codec_law. inv_ok. unfold read_arr. rewrite read_exact_app by apply length_be_bytes.
  simpl. by rewrite be_val_bytes.
Qed.

(** [[u8; n]] kept as its bytes (domain tags). *)
Program Definition c_raw (n : nat) : codec bytes :=
  {| enc b := Ok b; dec := read_exact n; cwf b := length b = n |}.
Next Obligation. intros ?. codec_law. inv_ok. by apply read_exact_app. Qed.

Program Definition c_bytes (max : Z) : codec bytes :=
  {| enc := write_bytes max; dec := read_bytes max; cwf _ := True |}.
Next Obligation. intros ?. codec_law. by apply read_bytes_write. Qed.

Program Definition c_string (max : Z) : codec bytes :=
  {| enc := write_string max; dec := read_string max; cwf s := utf8_valid s = true |}.
Next Obligation.
  intros ?. codec_law. unfold read_string. rewrite (read_bytes_write max a) by done. simpl.
  by destruct (utf8_valid a).
Qed.

Program Definition c_vec {A} (max : Z) (c : codec A) : codec (list A) :=
  {| enc := write_vec (enc c) max; dec := read_vec (dec c) max; cwf := Forall (cwf c) |}.
Next Obligation.
  intros A max c. codec_law. unfold write_vec in *.
  match goal with H : (_ +++ _) = _ |- _ => apply wcat_Ok in H as (b1 & b2 & Hb1 & Hb2 & ->) end.
  apply write_len_Ok in Hb1 as (? & ? & ->). unfold read_vec. rewrite <- app_assoc.
  rewrite read_len_write by (auto using zlen_nonneg). simpl.
  unfold zlen. rewrite Nat2Z.id. eapply read_items_write; eauto using dec_enc.
Qed.

Program Definition c_option {A} (c : codec A) : codec (option A) :=
  {| enc o := match o with None => write_uint 1 0 | Some a => write_uint 1 1 +++ enc c a end;
     dec bs := let? (tag, rest) := read_uint 1 bs in
               if tag =? 0 then Ok (None, rest) else
               if tag =? 1 then let? (a, rest) := dec c rest in Ok (Some a, rest)
               else Err InvalidData;
     cwf o := match o with None => True | Some a => cwf c a end |}.
Next Obligation.
  intros A c. codec_law. destruct a as [a|]; simpl in *.
  - match goal with H : (_ +++ _) = _ |- _ => apply wcat_Ok in H as (b1 & b2 & Hb1 & Hb2 & ->) end.
    unfold write_uint in *; inv_ok. rewrite <- app_assoc, read_uint_write by (simpl; lia).
    simpl. by rewrite (dec_enc c a).
  - unfold write_uint in *; inv_ok. rewrite read_uint_write by (simpl; lia). done.
Qed.

Program Definition c_pair {A B} (c1 : codec A) (c2 : codec B) : codec (A * B) :=
  {| enc p := enc c1 p.1 +++ enc c2 p.2;
     dec bs := let? (a, rest) := dec c1 bs in
               let? (b, rest) := dec c2 rest in Ok ((a, b), rest);
     cwf p := cwf c1 p.1 /\ cwf c2 p.2 |}.
Next Obligation.
  intros A B c1 c2. codec_law. destruct a as [a b]; simpl in *.
  match goal with H : (_ +++ _) = _ |- _ => apply wcat_Ok in H as (b1 & b2 & Hb1 & Hb2 & ->) end.
  destruct_and!. rewrite <- app_assoc, (dec_enc c1 a) by done. simpl. by rewrite (dec_enc c2 b).
Qed.

(** A record as the nested pair of its fields. *)
Program Definition c_iso {A B} (c : codec A) (to : B -> A) (back : A -> B)
    (H : forall b, back (to b) = b) : codec B :=
  {| enc b := enc c (to b);
     dec bs := let? (a, rest) := dec c bs in Ok (back a, rest);
     cwf b := cwf c (to b) |}.
Next Obligation.
  intros A B c to back H. codec_law. rewrite (dec_enc c (to a)) by done. simpl. by rewrite H.
Qed.

(** A reader that validates what it read. *)
Program Definition c_check {A} (p : A -> bool) (c : codec A) : codec A :=
  {| enc := enc c;
     dec bs := let? (a, rest) := dec c bs in if p a then Ok (a, rest) else Err InvalidData;
     cwf a := cwf c a /\ p a = true |}.
Next Obligation.
  intros A p c. codec_law. destruct_and!. rewrite (dec_enc c a) by done. simpl.
  by destruct (p a).
Qed.

(** A value rebuilt by a validating constructor on read. *)
Program Definition c_refine {A B E} (c : codec A) (to : B -> A) (mk : A -> result E B) : codec B :=
  {| enc b := enc c (to b);
     dec bs := let? (a, rest) := dec c bs in
               let? b := map_err (fun _ => InvalidData) (mk a) in Ok (b, rest);
     cwf b := cwf c (to b) /\ mk (to b) = Ok b |}.
Next Obligation.
  intros A B E c to mk. codec_law. destruct_and!. rewrite (dec_enc c (to a)) by done. simpl.
  match goal with H : mk _ = _ |- _ => rewrite H end. done.
Qed.

(** A leading format-version byte, checked before the rest is read. *)
Program Definition c_versioned {A} (v : Z) (c : codec A) : codec A :=
  {| enc a := write_uint 1 v +++ enc c a;
     dec bs := let? (v', rest) := read_uint 1 bs in
               if v' =? v then dec c rest else Err InvalidData;
     cwf a := 0 <= v < 256 /\ cwf c a |}.
Next Obligation.
  intros A v c. codec_law. destruct_and!.
  match goal with H : (_ +++ _) = _ |- _ => apply wcat_Ok in H as (b1 & b2 & Hb1 & Hb2 & ->) end.
  unfold write_uint in *; inv_ok. rewrite <- app_assoc, read_uint_write by (simpl; lia). simpl.
  rewrite Z.eqb_refl. by apply dec_enc.
Qed.

(** [from_slice] inverts [to_vec]. *)
Lemma from_slice_to_vec {A} (c : codec A) a bs :
  cwf c a -> to_vec c a = Ok bs -> from_slice c bs = Ok a.
Proof.
  intros Hwf H. unfold from_slice. rewrite <- (app_nil_r bs), (dec_enc c a) by done. done.
Qed.

(** An encoding determines its value. *)
Lemma enc_inj {A} (c : codec A) a b bs :
  cwf c a -> cwf c b -> enc c a = Ok bs -> enc c b = Ok bs -> a = b.
Proof.
  intros Ha Hb Ea Eb.
  pose proof (from_slice_to_vec c a bs Ha Ea). pose proof (from_slice_to_vec c b bs Hb Eb).
  congruence.
Qed.

(** ** Codecs that never refuse to write *)

Definition total_codec {A} (c : codec A) : Prop := forall a, exists bs, enc c a = Ok bs.

Lemma total_uint n : total_codec (c_uint n).
Proof. intros a. by eexists. Qed.
Lemma total_arr n : total_codec (c_arr n).
Proof. intros a. by eexists. Qed.
Lemma total_raw n : total_codec (c_raw n).
Proof. intros a. by eexists. Qed.
Lemma total_pair {A B} (c1 : codec A) (c2 : codec B) :
  total_codec c1 -> total_codec c2 -> total_codec (c_pair c1 c2).
Proof.
  intros H1 H2 [a b]. destruct (H1 a) as [b1 E1], (H2 b) as [b2 E2].
  eexists. apply wcat_Ok. eauto 6.
Qed.
Lemma total_iso {A B} (c : codec A) (to : B -> A) back H :
  total_codec c -> total_codec (c_iso c to back H).
Proof. intros Hc b. apply Hc. Qed.
#[export] Hint Resolve total_uint total_arr total_raw total_pair total_iso : arena.

(** No writer panics. *)
Lemma wcat_noPanic w1 w2 : w1 <> Panic -> w2 <> Panic -> (w1 +++ w2) <> Panic.
Proof. unfold wcat. destruct w1, w2; simpl; done. Qed.

(** ** Encoded lengths *)

Lemma zlen_le_bytes n z : zlen (le_bytes n z) = Z.of_nat n.
Proof. unfold zlen. by rewrite length_le_bytes. Qed.

Lemma object_length_Ok {A} (c : codec A) a n :
  object_length c a = Ok n <-> exists bs, enc c a = Ok bs /\ zlen bs = n.
Proof.
  unfold object_length, rmap. rewrite rbind_Ok. split.
  - intros (bs & Hbs & [= <-]). eauto.
  - intros (bs & Hbs & <-). eauto.
Qed.

Lemma ol_uint n z : object_length (c_uint n) z = Ok (Z.of_nat n).
Proof. apply object_length_Ok. eexists. split; [done|]. unfold zlen. by rewrite length_le_bytes. Qed.
Lemma ol_arr n z : object_length (c_arr n) z = Ok (Z.of_nat n).
Proof. apply object_length_Ok. eexists. split; [done|]. unfold zlen. by rewrite length_be_bytes. Qed.
Lemma ol_raw n b : object_length (c_raw n) b = Ok (zlen b).
Proof. done. Qed.
Lemma ol_iso {A B} (c : codec A) (to : B -> A) back H b :
  object_length (c_iso c to back H) b = object_length c (to b).
Proof. done. Qed.
Lemma ol_refine {A B E} (c : codec A) (to : B -> A) (mk : A -> result E B) b :
  object_length (c_refine c to mk) b = object_length c (to b).
Proof. done. Qed.
Lemma ol_check {A} p (c : codec A) a : object_length (c_check p c) a = object_length c a.
Proof. done. Qed.

Lemma ol_pair {A B} (c1 : codec A) (c2 : codec B) p n :
  object_length (c_pair c1 c2) p = Ok n <->
  exists n1 n2, object_length c1 p.1 = Ok n1 /\ object_length c2 p.2 = Ok n2 /\ n = n1 + n2.
Proof.
  rewrite object_length_Ok. simpl. setoid_rewrite wcat_Ok. split.
  - intros (bs & (b1 & b2 & H1 & H2 & ->) & <-). exists (zlen b1), (zlen b2).
    rewrite !object_length_Ok, zlen_app. split_and!; eauto.
  - intros (n1 & n2 & (b1 & H1 & <-)%object_length_Ok & (b2 & H2 & <-)%object_length_Ok & ->).
    eexists. split; [eauto|]. by rewrite zlen_app.
Qed.

Lemma ol_versioned {A} v (c : codec A) a n :
  object_length (c_versioned v c) a = Ok n <-> exists m, object_length c a = Ok m /\ n = 1 + m.
Proof.
  rewrite object_length_Ok. simpl. setoid_rewrite wcat_Ok. split.
  - intros (bs & (b1 & b2 & H1 & H2 & ->) & <-). exists (zlen b2).
    rewrite object_length_Ok. unfold write_uint in H1. inv_ok. rewrite zlen_app, zlen_le_bytes. eauto.
  - intros (m & (b & H1 & <-)%object_length_Ok & ->). exists (le_bytes 1 v ++ b). split; [|by rewrite zlen_app, zlen_le_bytes].
    exists (le_bytes 1 v), b. done.
Qed.

Lemma ol_bytes max b n :
  object_length (c_bytes max) b = Ok n <-> zlen b <= max /\ zlen b <= u32_max /\ n = 4 + zlen b.
Proof.
  rewrite object_length_Ok. simpl. setoid_rewrite write_bytes_Ok. split.
  - intros (bs & (H1 & H2 & ->) & <-). by rewrite zlen_app, zlen_le_bytes.
  - intros (H1 & H2 & ->). eexists. split; [eauto|]. by rewrite zlen_app, zlen_le_bytes.
Qed.

Lemma ol_string max b n :
  object_length (c_string max) b = Ok n <-> zlen b <= max /\ zlen b <= u32_max /\ n = 4 + zlen b.
Proof. apply ol_bytes. Qed.

(** The sum of the encoded lengths of a sequence. *)
Definition items_length {A} (c : codec A) (l : list A) : result io_kind Z :=
  rmap zlen (write_items (enc c) l).

Lemma items_length_nil {A} (c : codec A) : items_length c [] = Ok 0.
Proof. done. Qed.

Lemma items_length_cons {A} (c : codec A) a l n :
  items_length c (a :: l) = Ok n <->
  exists n1 n2, object_length c a = Ok n1 /\ items_length c l = Ok n2 /\ n = n1 + n2.
Proof.
  unfold items_length, rmap. simpl. rewrite rbind_Ok. setoid_rewrite wcat_Ok. split.
  - intros (bs & (b1 & b2 & H1 & H2 & ->) & [= <-]). exists (zlen b1), (zlen b2).
    rewrite object_length_Ok, zlen_app. rewrite H2. split_and!; eauto.
  - intros (n1 & n2 & (b1 & H1 & <-)%object_length_Ok & Hn2 & ->). inv_ok.
    eexists. split; [eauto 6|]. by rewrite zlen_app.
Qed.

Lemma items_length_app {A} (c : codec A) l1 l2 n1 n2 :
  items_length c l1 = Ok n1 -> items_length c l2 = Ok n2 ->
  items_length c (l1 ++ l2) = Ok (n1 + n2).
Proof.
  revert n1; induction l1 as [|a l1 IH]; intros n1 H1 H2.
  - rewrite items_length_nil in H1. by injection H1 as <-.
  - apply items_length_cons in H1 as (m1 & m2 & Ha & Hl & ->). apply items_length_cons.
    exists m1, (m2 + n2). split_and!; [done|by apply IH|lia].
Qed.

Lemma ol_vec {A} max (c : codec A) l n :
  object_length (c_vec max c) l = Ok n <->
  zlen l <= max /\ zlen l <= u32_max /\ exists m, items_length c l = Ok m /\ n = 4 + m.
Proof.
  rewrite object_length_Ok. simpl. unfold write_vec. setoid_rewrite wcat_Ok.
  setoid_rewrite write_len_Ok. unfold items_length, rmap. setoid_rewrite rbind_Ok. split.
  - intros (bs & (b1 & b2 & (H1 & H2 & ->) & H3 & ->) & <-). split_and!; [done|done|].
    exists (zlen b2). split; [eauto|]. by rewrite zlen_app, zlen_le_bytes.
  - intros (H1 & H2 & m & (b & Hb & [= <-]) & ->). eexists. split; [by eauto 8|].
    by rewrite zlen_app, zlen_le_bytes.
Qed.

Lemma ol_none {A} (c : codec A) : object_length (c_option c) None = Ok 1.
Proof. done. Qed.
Lemma ol_some {A} (c : codec A) a n :
  object_length (c_option c) (Some a) = Ok n <-> exists m, object_length c a = Ok m /\ n = 1 + m.
Proof. apply (ol_versioned 1 c a n). Qed.
