(* ===== verification/Crypto.v ===== *)
(** * Cryptography and bounds (crates/arena0-crypto, protocol limits)

    The primitives of [blake3], [ed25519_dalek], [blst] and [serde_json] are
    outside the repository: the class [Crypto] lists the calls the code makes on
    them and every model is written against it.  The thin wrappers of
    [arena0-crypto] over those calls are translated here, with the protocol's
    numeric limits. *)

From S2P Require Import Prelude Borsh.

(** ** Limits (protocol/src/limits.rs, execution/mod.rs, program/src/profile.rs) *)

Definition MAX_EFFECT_PAYLOAD_BYTES : Z := 64 * 1024.
Definition MAX_TIMER_PAYLOAD_BYTES : Z := 64 * 1024.
Definition MAX_TERMINAL_REASON_BYTES : Z := 4 * 1024.
Definition MAX_TERMINAL_OUTCOME_BYTES : Z := 64 * 1024.
Definition MAX_PARTICIPANTS : Z := 64.
Definition MAX_BLOB_BYTES : Z := 16 * 1024 * 1024.
Definition MAX_DIRECT_CONTROL_BYTES : Z := 2 * 1024.
Definition MAX_DIRECT_RANGE_BYTES : Z := 32 * 1024.

Definition MAX_EFFECTS : Z := 128.
Definition MAX_OUTGOING_MESSAGES : Z := 16.
Definition MAX_DIRECT_QUEUE : Z := 8.
Definition MAX_PROOF_SIGNATURES : Z := MAX_PARTICIPANTS.
Definition MAX_EXECUTION_STATE_BYTES : Z := 32 * 1024 * 1024.
Definition MAX_RECEIPT_BYTES : Z := 8 * 1024 * 1024.
Definition MAX_TRACE_ENTRY_BYTES : Z := 256 * 1024.
Definition MAX_RECEIPT_TRACE_ENTRIES : Z := 65536.

Definition MAX_INPUT_BYTES : Z := 4 * 1024 * 1024.
Definition MAX_EFFECT_BYTES : Z := 4 * 1024 * 1024.
Definition MAX_CALL_PAYLOAD_BYTES : Z := MAX_INPUT_BYTES.
Definition MAX_CALLOUT_CONTEXT_BYTES : Z := 64 * 1024.

(** ** Third-party calls *)

(** Digests, keys and signatures are the big-endian values of their arrays;
    the left summand of a fallible call is the library's error text. *)
Class Crypto := {
  blake3 : bytes -> Z;
  dalek_verify : Z -> bytes -> Z -> string + bool;
  blst_verify : bytes -> Z -> bytes -> Z -> string + bool;
  blst_aggregate : list Z -> string + Z;
  blst_fast_aggregate_verify : Z -> bytes -> list Z -> string + bool;
  serde_json_value : bytes -> string + unit }.

Definition bytes_of_string (s : string) : bytes :=
  map (fun a => Z.of_N (Ascii.N_of_ascii a)) (String.list_ascii_of_string s).

(** A fixed 24-byte domain tag, zero padded. *)
Definition domain24 (s : string) : bytes :=
  let b := bytes_of_string s in b ++ replicate (24 - length b) 0.

(** ** arena0-crypto *)

Inductive CryptoError :=
| UnsupportedAlgorithm (what : string)
| InvalidKeyLength (expected actual : Z)
| SigningFailed (what : string)
| VerificationFailed (what : string)
| InvalidSignature
| ZeroExecutionSalt.

Definition blst_err {A} (r : string + A) : result CryptoError A :=
  match r with inl e => Err (VerificationFailed e) | inr a => Ok a end.

Section Wrappers.
Context `{Crypto}.

Definition DST_SIG : bytes := bytes_of_string "BLS_SIG_BLS12381G1_XMD:SHA-256_SSWU_RO_POP_".
Definition DST_BIND : bytes := bytes_of_string "BLS_BIND_BLS12381G1_XMD:SHA-256_SSWU_RO_NUL_".

(** [BlsPublicKey::verify] and [verify_binding]. *)
Definition bls_verify (key : Z) (msg : bytes) (sig : Z) : result CryptoError bool :=
  blst_err (blst_verify DST_SIG key msg sig).
Definition verify_binding (key : Z) (msg : bytes) (sig : Z) : result CryptoError bool :=
  blst_err (blst_verify DST_BIND key msg sig).

(** [BlsSignature::aggregate] and [fast_aggregate_verify]. *)
Definition bls_aggregate (sigs : list Z) : result CryptoError Z :=
  blst_err (blst_aggregate sigs).
Definition fast_aggregate_verify (sig : Z) (msg : bytes) (pubkeys : list Z)
    : result CryptoError bool :=
  if (length pubkeys =? 0)%nat then Ok false
  else blst_err (blst_fast_aggregate_verify sig msg pubkeys).

(** [arena0_crypto::verify] with [SignScheme::Ed25519] and a 32-byte key. *)
Definition ed25519_verify (key : Z) (data : bytes) (sig : Z) : result CryptoError bool :=
  blst_err (dalek_verify key data sig).

Definition BLS_BINDING_DOMAIN : bytes := bytes_of_string "arena0/execution-key-binding/v2".
Definition key_binding_message (offer_hash signer execution_bls : Z) : bytes :=
  BLS_BINDING_DOMAIN ++ be_bytes 32 offer_hash ++ be_bytes 32 signer ++ be_bytes 96 execution_bls.
Definition verify_key_binding (offer_hash signer execution_bls binding : Z)
    : result CryptoError bool :=
  verify_binding execution_bls (key_binding_message offer_hash signer execution_bls) binding.
End Wrappers.

(** ** No call of the wrappers panics *)

Lemma blst_err_noPanic {A} (r : string + A) : blst_err r <> Panic.
Proof. by destruct r. Qed.
#[export] Hint Resolve blst_err_noPanic : arena.

(** Two different preimages with one digest. *)
Definition collision `{Crypto} (b1 b2 : bytes) : Prop := b1 <> b2 /\ blake3 b1 = blake3 b2.

(** Two values whose encodings collide. *)
Definition encoded_collision `{Crypto} {A} (c : codec A) (a b : A) : Prop :=
  exists x y, enc c a = Ok x /\ enc c b = Ok y /\ collision x y.

Lemma blake3_cases `{Crypto} b1 b2 : blake3 b1 = blake3 b2 -> b1 = b2 \/ collision b1 b2.
Proof. intros Hh. destruct (decide (b1 = b2)); [by left|right; by split]. Qed.

(** A digest of an encoding binds the value. *)
Lemma encoding_binds `{Crypto} {A} (c : codec A) a b x y :
  cwf c a -> cwf c b -> enc c a = Ok x -> enc c b = Ok y -> blake3 x = blake3 y -> a = b \/ encoded_collision c a b.
Proof.
  intros Wa Wb Ea Eb Hh. apply blake3_cases in Hh as [->|Hc]; [left; by eapply (enc_inj c)|right; by exists x, y].
Qed.
