(* ===== verification/Session.v ===== *)
(** * Participants, ensembles and state images
    (protocol/src/session.rs, protocol/src/state.rs, program/src/state.rs)

    [Ensemble::from_peers] fixes the participant order every host derives from
    the same membership; [canonical_state_image] is the fixed-size preimage of
    the shared-state hash. *)

From S2P Require Import Prelude Borsh Crypto.

Unset Program Cases.

(** 32-byte identities, as the big-endian value of the array. *)
Abbreviation PeerId := Z (only parsing).
Abbreviation ExecId := Z (only parsing).
Abbreviation SessionHash := Z (only parsing).
Abbreviation StateHash := Z (only parsing).
Abbreviation ProgramHash := Z (only parsing).
Abbreviation NegotiationId := Z (only parsing).
Abbreviation ExecutionProfileHash := Z (only parsing).
Abbreviation ReceiptId := Z (only parsing).
Abbreviation BlobHash := Z (only parsing).

Definition c_id : codec Z := c_arr 32.
Lemma total_id : total_codec c_id.
Proof. apply total_arr. Qed.
#[export] Hint Resolve total_id : arena.

(** ** Participant indices *)

Record Participant := MkParticipant { p_index : Z }.

#[global] Instance Participant_eq_dec : EqDecision Participant.
Proof. solve_decision. Defined.

(** [Participant::try_from(usize)]. *)
Definition Participant_try_from (index : Z) : option Participant :=
  if is_uint u8_max index then Some (MkParticipant index) else None.

(** [Participant::other]: panics outside a bilateral session. *)
Definition other {E} (p : Participant) : result E Participant :=
  if p_index p <? 2 then Ok (MkParticipant (1 - p_index p)) else Panic.

(** [Participant::of]. *)
Definition participant_for (local remote : PeerId) : Participant :=
  if local <? remote then MkParticipant 0 else MkParticipant 1.

(** ** Committed ensembles *)

Inductive EnsembleError :=
| TooFewParticipants (len : Z)
| TooManyParticipants (len : Z).

Record Ensemble := MkEnsemble { peers : list PeerId }.

#[global] Instance Ensemble_eq_dec : EqDecision Ensemble.
Proof. solve_decision. Defined.

Definition from_peers (ps : list PeerId) : result EnsembleError Ensemble :=
  let ps := dedup (sort_key id ps) in
  let len := zlen ps in
  err_if (len <? 2) (TooFewParticipants len) ;;?
  err_if (MAX_PARTICIPANTS <? len) (TooManyParticipants len) ;;?
  Ok (MkEnsemble ps).

(** [Ensemble<Open>]: [new], [add] and [commit]. *)
Record OpenEnsemble := MkOpen { open_peers : list PeerId }.
Definition open_new (local : PeerId) : OpenEnsemble := MkOpen [local].
Definition open_add (peer : PeerId) (o : OpenEnsemble) : OpenEnsemble :=
  MkOpen (open_peers o ++ [peer]).
Definition open_commit (o : OpenEnsemble) : result EnsembleError Ensemble :=
  from_peers (open_peers o).

Definition ensemble_contains (e : Ensemble) (peer : PeerId) : bool :=
  existsb (Z.eqb peer) (peers e).

(** [participant_of]: the [expect] that the index fits in [u8] is a panic. *)
Definition participant_of {E} (e : Ensemble) (peer : PeerId) : result E (option Participant) :=
  match position (Z.eqb peer) (peers e) with
  | None => Ok None
  | Some index => rmap Some (expect (Participant_try_from (Z.of_nat index)))
  end.

Definition peer_at (e : Ensemble) (p : Participant) : option PeerId :=
  peers e !! Z.to_nat (p_index p).

Definition others (e : Ensemble) (local : PeerId) : list PeerId :=
  filter (fun p => p <> local) (peers e).

(** The Borsh codec: a bounded vector, re-canonicalised on read. *)
Program Definition c_ensemble : codec Ensemble :=
  {| enc e := write_vec (enc c_id) MAX_PARTICIPANTS (peers e);
     dec bs := let? (ps, rest) := read_vec (dec c_id) MAX_PARTICIPANTS bs in
               let? e := map_err (fun _ => InvalidData) (from_peers ps) in
               Ok (e, rest);
     cwf e := Forall (cwf c_id) (peers e) /\ from_peers (peers e) = Ok e |}.
Next Obligation.
  intros e bs rest [Hids Hcanon] He.
  change (read_vec (dec c_id) MAX_PARTICIPANTS (bs ++ rest))
    with (dec (c_vec MAX_PARTICIPANTS c_id) (bs ++ rest)).
  rewrite (dec_enc (c_vec MAX_PARTICIPANTS c_id) (peers e)) by done.
  simpl. by rewrite Hcanon.
Qed.

(** ** State memory frames (program/src/state.rs) *)

Definition MAX_SHARED_STATE_BYTES : Z := 4 * 1024 * 1024.
Definition MAX_LOCAL_STATE_BYTES : Z := 4 * 1024 * 1024.
Definition CANONICAL_STATE_PREFIX_BYTES : Z := 4.
Definition CANONICAL_STATE_MEMORY_PAGES : Z := 65.
Definition CANONICAL_STATE_MEMORY_BYTES : Z := CANONICAL_STATE_MEMORY_PAGES * 65536.

Inductive StateBytesError :=
| SharedTooLarge (actual max : Z)
| LocalTooLarge (actual max : Z)
| CanonicalTooLarge (actual max : Z).

Inductive StateFrameError :=
| MissingPrefix
| WrongSize (actual expected : Z)
| TooLarge (actual max : Z)
| ExceedsMemory (actual capacity : Z)
| NonZeroTail.

(** [SharedStateBytes::try_new]. *)
Definition shared_try_new (b : bytes) : result StateBytesError bytes :=
  if MAX_SHARED_STATE_BYTES <? zlen b
  then Err (SharedTooLarge (zlen b) MAX_SHARED_STATE_BYTES) else Ok b.
Definition local_try_new (b : bytes) : result StateBytesError bytes :=
  if MAX_LOCAL_STATE_BYTES <? zlen b
  then Err (LocalTooLarge (zlen b) MAX_LOCAL_STATE_BYTES) else Ok b.

Definition state_frame_len (frame : bytes) (max_payload : Z) : result StateFrameError Z :=
  if zlen frame <? CANONICAL_STATE_PREFIX_BYTES then Err MissingPrefix else
  let len := le_val (take 4 frame) in
  if max_payload <? len then Err (TooLarge len max_payload) else
  if zlen frame - CANONICAL_STATE_PREFIX_BYTES <? len then Err (ExceedsMemory len (zlen frame))
  else Ok len.

Definition canonical_state_payload (frame : bytes) (max_payload : Z)
    : result StateFrameError bytes :=
  if negb (zlen frame =? CANONICAL_STATE_MEMORY_BYTES)
  then Err (WrongSize (zlen frame) CANONICAL_STATE_MEMORY_BYTES) else
  let? len := state_frame_len frame max_payload in
  let end_ := Z.to_nat (CANONICAL_STATE_PREFIX_BYTES + len) in
  if existsb (fun b => negb (b =? 0)) (drop end_ frame) then Err NonZeroTail
  else Ok (take (Z.to_nat len) (drop 4 frame)).

(** [frame[start..start + b.len()].copy_from_slice(b)]. *)
Definition copy_at (start : nat) (b frame : bytes) : bytes :=
  take start frame ++ b ++ drop (start + length b) frame.

Definition write_state_frame (frame : bytes) (old_len : Z) (payload : bytes)
    : result StateFrameError bytes :=
  if zlen frame <? CANONICAL_STATE_PREFIX_BYTES then Err MissingPrefix else
  let capacity := zlen frame - CANONICAL_STATE_PREFIX_BYTES in
  let longest := Z.max (zlen payload) old_len in
  if capacity <? longest then Err (ExceedsMemory longest (zlen frame)) else
  if u32_max <? zlen payload then Err (ExceedsMemory (zlen payload) (zlen frame)) else
  let frame := if zlen payload <? old_len
               then copy_at (4 + length payload)
                      (replicate (Z.to_nat (old_len - zlen payload)) 0) frame
               else frame in
  let frame := copy_at 0 (le_bytes 4 (zlen payload)) frame in
  Ok (copy_at 4 payload frame).

(** The image [length || payload || zero_tail]; [canonical_state_image_frame]
    below shows it is what [write_state_frame] leaves in a zeroed memory. *)
Definition canonical_state_image (payload : bytes) : result StateBytesError bytes :=
  let max_payload := CANONICAL_STATE_MEMORY_BYTES - CANONICAL_STATE_PREFIX_BYTES in
  if max_payload <? zlen payload then Err (CanonicalTooLarge (zlen payload) max_payload) else
  Ok (le_bytes 4 (zlen payload) ++ payload
        ++ replicate (Z.to_nat (max_payload - zlen payload)) 0).

Section StateHash.
Context `{Crypto}.

(** [StateHash::of] and [StateHash::of_shared]. *)
Definition state_hash_of (snapshot : bytes) : StateHash := blake3 snapshot.
Definition of_shared {E} (snapshot : bytes) : result E StateHash :=
  let? image := expect_ok (canonical_state_image snapshot) in Ok (state_hash_of image).
End StateHash.

(** ** Lemmas: ensembles *)

Definition sorted_peers (l : list PeerId) : Prop := StronglySorted (key_lt id) l.

Lemma from_peers_Ok ps e :
  from_peers ps = Ok e <->
  peers e = dedup (sort_key id ps) /\ 2 <= zlen (peers e) <= MAX_PARTICIPANTS.
Proof.
  unfold from_peers. split.
  - intros H. inv_ok. simpl. split; [done|lia].
  - destruct e as [l]; simpl. intros [-> [H1 H2]].
    rewrite (proj2 (Z.ltb_ge _ _)) by lia. simpl.
    by rewrite (proj2 (Z.ltb_ge _ _)) by lia.
Qed.

Lemma from_peers_sorted ps e : from_peers ps = Ok e -> sorted_peers (peers e).
Proof.
  intros [-> _]%from_peers_Ok. apply dedup_sorted_strict, sort_key_sorted.
Qed.

Lemma from_peers_elem_of ps e x : from_peers ps = Ok e -> x ∈ peers e <-> x ∈ ps.
Proof.
  intros [-> _]%from_peers_Ok. rewrite dedup_elem_of. by rewrite (sort_key_Permutation id ps).
Qed.

Lemma strict_sorted_NoDup l : sorted_peers l -> NoDup l.
Proof.
  induction 1 as [|x l Hl IH Hx]; constructor; [|done].
  intros Hin. rewrite Forall_forall in Hx. specialize (Hx _ Hin). unfold key_lt in Hx. lia.
Qed.

(** Strictly sorted lists with the same members are equal. *)
Lemma sorted_peers_ext l1 l2 :
  sorted_peers l1 -> sorted_peers l2 -> (forall x, x ∈ l1 <-> x ∈ l2) -> l1 = l2.
Proof.
  intros H1 H2 Hext. apply (strict_sorted_unique id); [done|done|].
  apply NoDup_Permutation; auto using strict_sorted_NoDup.
Qed.

(** The committed order depends on the membership only. *)
Lemma from_peers_ext ps qs e :
  (forall x, x ∈ ps <-> x ∈ qs) -> from_peers ps = Ok e -> from_peers qs = Ok e.
Proof.
  intros Hext He. pose proof (from_peers_sorted _ _ He) as Hs.
  assert (dedup (sort_key id qs) = peers e) as Heq.
  { apply sorted_peers_ext; [apply dedup_sorted_strict, sort_key_sorted|done|].
    intros x. rewrite dedup_elem_of, (sort_key_Permutation id qs), <- Hext.
    symmetry. by apply from_peers_elem_of. }
  apply from_peers_Ok. rewrite Heq. apply from_peers_Ok in He as [_ Hlen]. auto.
Qed.

Lemma from_peers_canonical ps e : from_peers ps = Ok e -> from_peers (peers e) = Ok e.
Proof.
  intros He. apply (from_peers_ext ps); [|done].
  intros x. symmetry. by apply from_peers_elem_of.
Qed.

Lemma position_Some {A} (p : A -> bool) l i :
  position p l = Some i -> exists x, l !! i = Some x /\ p x = true.
Proof.
  revert i; induction l as [|y l IH]; intros i; simpl; [done|].
  destruct (p y) eqn:Hy; [intros [= <-]; eauto|].
  destruct (position p l) as [j|]; simpl; [|done]. intros [= <-]. simpl. eauto.
Qed.

Lemma position_lookup l i x :
  NoDup l -> l !! i = Some x -> position (Z.eqb x) l = Some i.
Proof.
  intros Hnd; revert i; induction Hnd as [|y l Hy Hnd IH]; intros i Hi; [done|].
  destruct i as [|i]; simpl in *.
  - simplify_eq. by rewrite Z.eqb_refl.
  - assert (x <> y) by (intros ->; apply Hy; by eapply list_elem_of_lookup_2).
    rewrite (proj2 (Z.eqb_neq _ _)) by done. by rewrite (IH i).
Qed.

(** ** Lemmas: state images *)

Lemma canonical_state_image_Ok p img :
  canonical_state_image p = Ok img <->
  zlen p <= CANONICAL_STATE_MEMORY_BYTES - 4 /\
  img = le_bytes 4 (zlen p) ++ p
    ++ replicate (Z.to_nat (CANONICAL_STATE_MEMORY_BYTES - 4 - zlen p)) 0.
Proof.
  unfold canonical_state_image, CANONICAL_STATE_PREFIX_BYTES.
  destruct (_ <? zlen p) eqn:Hl; [naive_solver lia|].
  split; [intros [= <-]; split; [lia|done]|]. by intros [_ ->].
Qed.

Lemma canonical_state_image_length p img :
  canonical_state_image p = Ok img -> zlen img = CANONICAL_STATE_MEMORY_BYTES.
Proof.
  intros [? ->]%canonical_state_image_Ok. autorewrite with zlen.
  unfold zlen at 1. rewrite length_le_bytes. unfold zlen in *. lia.
Qed.

(** What [write_state_frame] leaves in a zeroed memory of [cap] bytes. *)
Lemma write_state_frame_zeroed cap p :
  4 <= cap <= u32_max -> zlen p <= cap - 4 ->
  write_state_frame (replicate (Z.to_nat cap) 0) 0 p =
  Ok (le_bytes 4 (zlen p) ++ p ++ replicate (Z.to_nat (cap - 4 - zlen p)) 0).
Proof.
  intros Hcap Hp. unfold write_state_frame, CANONICAL_STATE_PREFIX_BYTES.
  rewrite !zlen_replicate, Z2Nat.id by lia. pose proof (zlen_nonneg p).
  rewrite Z.max_l, !(proj2 (Z.ltb_ge _ _)) by lia. f_equal.
  replace (Z.to_nat (cap - 4 - zlen p)) with (Z.to_nat cap - 4 - length p)%nat
    by (unfold zlen; lia).
  unfold copy_at. rewrite take_0, length_le_bytes, drop_replicate.
  change ([] ++ ?x) with x. change (0 + 4)%nat with 4%nat.
  rewrite take_app_length' by (by rewrite length_le_bytes).
  rewrite drop_app_ge by (rewrite length_le_bytes; lia).
  rewrite length_le_bytes, drop_replicate. do 3 f_equal. lia.
Qed.

(** The image is the frame [write_state_frame] writes into a zeroed memory of
    the canonical size. *)
Lemma canonical_state_image_frame p :
  zlen p <= CANONICAL_STATE_MEMORY_BYTES - 4 ->
  exists img,
    canonical_state_image p = Ok img /\
    write_state_frame (replicate (Z.to_nat CANONICAL_STATE_MEMORY_BYTES) 0) 0 p = Ok img.
Proof.
  intros Hp. eexists. split; [by apply canonical_state_image_Ok|].
  by apply write_state_frame_zeroed.
Qed.

(** Reading the payload back out of the image. *)
Lemma canonical_state_payload_image p img max :
  zlen p <= max -> canonical_state_image p = Ok img ->
  canonical_state_payload img max = Ok p.
Proof.
  intros Hmax Himg. pose proof (canonical_state_image_length _ _ Himg) as Hlen.
  apply canonical_state_image_Ok in Himg as [Hp Heq]. unfold canonical_state_payload.
  rewrite Hlen, Z.eqb_refl. cbn [negb]. unfold state_frame_len, CANONICAL_STATE_PREFIX_BYTES.
  rewrite Hlen, (proj2 (Z.ltb_ge CANONICAL_STATE_MEMORY_BYTES 4)) by done.
  pose proof (zlen_nonneg p) as Hp0.
  assert (le_val (take 4 img) = zlen p) as ->.
  { rewrite Heq, take_app_length' by (by rewrite length_le_bytes).
    apply le_val_bytes. change (256 ^ Z.of_nat 4) with (2 ^ 32).
    unfold CANONICAL_STATE_MEMORY_BYTES, CANONICAL_STATE_MEMORY_PAGES in Hp. lia. }
  rewrite (proj2 (Z.ltb_ge max (zlen p))) by done.
  rewrite (proj2 (Z.ltb_ge _ (zlen p))) by done. cbn [rbind].
  assert (drop 4 img = p ++ replicate (Z.to_nat (CANONICAL_STATE_MEMORY_BYTES - 4 - zlen p)) 0)
    as Hdrop.
  { by rewrite Heq, drop_app_length' by (by rewrite length_le_bytes). }
  replace (Z.to_nat (4 + zlen p)) with (4 + length p)%nat by (unfold zlen; lia).
  rewrite <- drop_drop, Hdrop, drop_app_length.
  replace (Z.to_nat (zlen p)) with (length p) by (unfold zlen; lia).
  rewrite take_app_length.
  destruct (existsb _ _) eqn:Hz; [|done]. exfalso.
  apply existsb_exists in Hz as (b & Hb & Hnz).
  apply list_elem_of_In, elem_of_replicate_inv in Hb. by subst.
Qed.

(** A payload within its bound hashes without a panic. *)
Lemma of_shared_noPanic `{Crypto} {E} p :
  zlen p <= MAX_SHARED_STATE_BYTES -> exists h, of_shared (E:=E) p = Ok h.
Proof.
  intros Hp. unfold of_shared, canonical_state_image.
  rewrite (proj2 (Z.ltb_ge _ (zlen p))); [simpl; eauto|].
  unfold MAX_SHARED_STATE_BYTES, CANONICAL_STATE_MEMORY_BYTES, CANONICAL_STATE_MEMORY_PAGES,
    CANONICAL_STATE_PREFIX_BYTES in *. lia.
Qed.
