(* ===== verification/Trace.v ===== *)
(** * Effects, events and the agreed trace
    (protocol/src/effect.rs, event.rs, timer.rs, blob.rs, trace/entry.rs,
    trace/commitment.rs)

    The values one dispatch consumes and produces, the portable trace entry, the
    commitment participants sign over it, and the signer bitmap of an aggregate
    agreement. *)

From S2P Require Import Prelude Borsh Crypto Session.

Unset Program Cases.

(** ** Guest-visible values *)

Record TimerPayload := MkTimer { type_name : bytes; timer_data : bytes }.
Record RangeAttachment := MkRange { range_hash : BlobHash; range_start : Z; range_end : Z }.

Inductive Effect :=
| SessionEnd (outcome : bytes)
| SessionAbort (reason : bytes)
| Broadcast (data : bytes)
| SetTimer (delay_ms : Z) (timer : TimerPayload)
| Fail (reason : bytes)
| SendDirect (to : PeerId) (msg : bytes) (range : option RangeAttachment).

Definition is_lifecycle (e : Effect) : bool :=
  match e with
  | SessionEnd _ | SessionAbort _ | Fail _ => true
  | _ => false
  end.

Inductive Event :=
| SessionStarted (ensemble : Ensemble)
| MessageReceived (from : PeerId) (msg : bytes)
| InputReceived (callout_index : Z) (data : bytes)
| TimerFired (timer : TimerPayload)
| DirectReceived (from : PeerId) (msg : bytes) (attachment : option Z).

(** ** Portable steps *)

Inductive StepEvent :=
| StepSessionStarted (ensemble : Ensemble)
| StepMessage (from : PeerId) (data : bytes).

Inductive StepTerminal :=
| TermEnd (outcome : bytes)
| TermAbort (reason : bytes)
| TermFail (reason : bytes).

#[global] Instance StepEvent_eq_dec : EqDecision StepEvent.
Proof. solve_decision. Defined.
#[global] Instance StepTerminal_eq_dec : EqDecision StepTerminal.
Proof. solve_decision. Defined.
#[global] Instance RangeAttachment_eq_dec : EqDecision RangeAttachment.
Proof. solve_decision. Defined.
#[global] Instance TimerPayload_eq_dec : EqDecision TimerPayload.
Proof. solve_decision. Defined.
#[global] Instance Effect_eq_dec : EqDecision Effect.
Proof. solve_decision. Defined.

(** [StepEvent::dispatch_event]. *)
Definition dispatch_event (e : StepEvent) : Event :=
  match e with
  | StepSessionStarted ensemble => SessionStarted ensemble
  | StepMessage from data => MessageReceived from data
  end.

(** [StepTerminal::from_effect]. *)
Definition from_effect (e : Effect) : option StepTerminal :=
  match e with
  | SessionEnd outcome => Some (TermEnd outcome)
  | SessionAbort reason => Some (TermAbort reason)
  | Fail reason => Some (TermFail reason)
  | Broadcast _ | SetTimer _ _ | SendDirect _ _ _ => None
  end.

Definition completed_outcome (t : StepTerminal) : option bytes :=
  match t with
  | TermEnd outcome => Some outcome
  | TermAbort _ | TermFail _ => None
  end.

Definition abort_reason (t : StepTerminal) : option bytes :=
  match t with
  | TermAbort reason | TermFail reason => Some reason
  | TermEnd _ => None
  end.

(** ** Signer bitmaps *)

(** [SignerSet(Vec<u8>)]. *)
Abbreviation SignerSet := (list Z) (only parsing).

Definition div_ceil8 (n : nat) : nat := ((n + 7) / 8)%nat.

Definition signers_empty : SignerSet := [].
Definition with_capacity (n : nat) : SignerSet := replicate (div_ceil8 n) 0.

Inductive SignerSetError :=
| CountExceedsMaximum (count : Z)
| ExtraBytes (got expected : Z)
| WrongByteLength (got expected : Z)
| UnusedHighBits (last : Z)
| IndexOutside (index count : Z).

(** [!((1u8 << used) - 1)]: the complement at width 8. *)
Definition unused_mask (used : nat) : Z := Z.land (Z.lnot (Z.shiftl 1 (Z.of_nat used) - 1)) 255.

Definition signers_validate (s : SignerSet) (count : nat) : result SignerSetError unit :=
  if MAX_PARTICIPANTS <? Z.of_nat count then Err (CountExceedsMaximum (Z.of_nat count)) else
  let expected := div_ceil8 count in
  if (expected <? length s)%nat then Err (ExtraBytes (zlen s) (Z.of_nat expected)) else
  if (length s <? expected)%nat then Err (WrongByteLength (zlen s) (Z.of_nat expected)) else
  let used := (count mod 8)%nat in
  if (used =? 0)%nat then Ok tt else
  let? last := expect (s !! (expected - 1)%nat) in
  if negb (Z.land last (unused_mask used) =? 0) then Err (UnusedHighBits last) else Ok tt.

Definition set_bit (byte : Z) (i : nat) : Z := Z.lor byte (Z.shiftl 1 (Z.of_nat (i mod 8))).

Definition from_indices (count : nat) (indices : list nat) : result SignerSetError SignerSet :=
  if MAX_PARTICIPANTS <? Z.of_nat count then Err (CountExceedsMaximum (Z.of_nat count)) else
  try_fold (fun s i =>
    if (count <=? i)%nat then Err (IndexOutside (Z.of_nat i) (Z.of_nat count)) else
    let? byte := expect (s !! (i / 8)%nat) in
    Ok (<[(i / 8)%nat := set_bit byte i]> s)) (with_capacity count) indices.

(** [SignerSet::full]. *)
Definition signers_full (count : nat) : result SignerSetError SignerSet :=
  if MAX_PARTICIPANTS <? Z.of_nat count then Err (CountExceedsMaximum (Z.of_nat count)) else
  let s := replicate (div_ceil8 count) 255 in
  let used := (count mod 8)%nat in
  match last s with
  | Some b => if (used =? 0)%nat then Ok s
              else Ok (<[(length s - 1)%nat := Z.land b (Z.shiftl 1 (Z.of_nat used) - 1)]> s)
  | None => Ok s
  end.

(** [SignerSet::set]: grows the bitmap when needed. *)
Definition signers_set (s : SignerSet) (i : nat) : SignerSet :=
  let byte := (i / 8)%nat in
  let s := if (length s <=? byte)%nat then s ++ replicate (byte + 1 - length s) 0 else s in
  match s !! byte with
  | Some b => <[byte := set_bit b i]> s
  | None => s
  end.

Definition signers_contains (s : SignerSet) (i : nat) : bool :=
  match s !! (i / 8)%nat with
  | Some b => negb (Z.land b (Z.shiftl 1 (Z.of_nat (i mod 8))) =? 0)
  | None => false
  end.

(** [u8::count_ones]. *)
Definition count_ones (b : Z) : nat :=
  length (filter (fun k => Z.testbit b (Z.of_nat k) = true) (seq 0 8)).
Definition signers_count (s : SignerSet) : nat := sum_list_with count_ones s.

Definition is_full (s : SignerSet) (n : nat) : bool :=
  forallb (signers_contains s) (seq 0 n).

(** ** Aggregate agreements *)

Record AggregateAttestation := MkAgreement { aggregate : Z; signers : SignerSet }.

#[global] Instance AggregateAttestation_eq_dec : EqDecision AggregateAttestation.
Proof. solve_decision. Defined.

Definition agreement_empty : AggregateAttestation := MkAgreement 0 signers_empty.

Inductive AttestationError :=
| InvalidSignerSet (step : Z) (reason : SignerSetError)
| NoSigners (step : Z)
| BadAggregate (step : Z)
| AttestationCrypto (error : CryptoError).

Definition selected_participants (a : AggregateAttestation) (participants : list Z) : list Z :=
  omap (fun '(i, k) => if signers_contains (signers a) i then Some k else None)
       (imap (fun i k => (i, k)) participants).

Section Agreement.
Context `{Crypto}.

(** [AggregateAttestation::from_signatures]. *)
Definition agreement_from_signatures (s : SignerSet) (signatures : list Z)
    : result CryptoError AggregateAttestation :=
  if (length signatures =? 0)%nat then Ok agreement_empty else
  let? agg := bls_aggregate signatures in Ok (MkAgreement agg s).

Definition verify_signatures (a : AggregateAttestation) (step : Z) (message : bytes)
    (participants : list Z) : result AttestationError unit :=
  map_err (InvalidSignerSet step) (signers_validate (signers a) (length participants)) ;;?
  let selected := selected_participants a participants in
  if (length selected =? 0)%nat then Err (NoSigners step) else
  let? ok := map_err AttestationCrypto (fast_aggregate_verify (aggregate a) message selected) in
  if ok then Ok tt else Err (BadAggregate step).
End Agreement.

(** ** Trace entries *)

Definition TRACE_FORMAT_VERSION : Z := 3.

Record TraceEntry := MkEntry {
  trace_version : Z;
  step : Z;
  event : StepEvent;
  pre_state : StateHash;
  post_state : StateHash;
  terminal : option StepTerminal;
  agreement : AggregateAttestation }.

#[global] Instance TraceEntry_eq_dec : EqDecision TraceEntry.
Proof. solve_decision. Defined.

Definition with_agreement (e : TraceEntry) (a : AggregateAttestation) : TraceEntry :=
  MkEntry (trace_version e) (step e) (event e) (pre_state e) (post_state e) (terminal e) a.

(** [TraceEntry::is_terminal]. *)
Definition entry_is_terminal (e : TraceEntry) : bool :=
  match terminal e with Some _ => true | None => false end.

(** [validate_version]. *)
Definition validate_version (version : Z) : bool := version =? TRACE_FORMAT_VERSION.

(** ** Commitments *)

Definition STEP_COMMIT_DOMAIN : bytes := domain24 "arena0/step-commit/v4".
Definition CHAIN_START : Z := 0.

Record StepSig := MkStepSig { sig_step : Z; sig : Z }.

Record StepCommitment := MkCommitment {
  c_domain : bytes;
  c_session_id : SessionHash;
  c_step : Z;
  c_entry_hash : Z;
  c_pre_state : StateHash;
  c_post_state : StateHash;
  c_link : Z }.

#[global] Instance StepSig_eq_dec : EqDecision StepSig.
Proof. solve_decision. Defined.
#[global] Instance StepCommitment_eq_dec : EqDecision StepCommitment.
Proof. solve_decision. Defined.

Definition has_step_domain (c : StepCommitment) : bool := bool_decide (c_domain c = STEP_COMMIT_DOMAIN).
Definition is_bound_to (c : StepCommitment) (session : SessionHash) : bool :=
  has_step_domain c && (c_session_id c =? session).

(** ** Borsh layouts *)

(** A variant: its [u8] tag, then its fields. *)
Definition variant {A} (tag : Z) (c : codec A) (a : A) : writer := write_uint 1 tag +++ enc c a.
Definition rd_map {A B} (f : A -> B) (r : result io_kind (A * bytes)) : result io_kind (B * bytes) :=
  let? (a, rest) := r in Ok (f a, rest).

Lemma variant_Ok {A} tag (c : codec A) a bs :
  variant tag c a = Ok bs <-> exists b, enc c a = Ok b /\ bs = le_bytes 1 tag ++ b.
Proof.
  unfold variant, write_uint. rewrite wcat_Ok. split.
  - intros (? & b & [= <-] & ? & ->). eauto.
  - intros (b & ? & ->). eauto.
Qed.

Lemma variant_total {A} tag (c : codec A) a : total_codec c -> exists bs, variant tag c a = Ok bs.
Proof.
  intros Hc. destruct (Hc a) as [b Hb]. eexists. apply variant_Ok. eauto.
Qed.

(** Discharges the round-trip law of a tagged union. *)
Ltac enum_law :=
  let a := fresh "a" in
  intros a ? ? ? ?; destruct a; cbv beta iota in *;
  (match goal with H : variant _ _ _ = Ok _ |- _ => apply variant_Ok in H as (? & ? & ->) end;
   rewrite <- app_assoc, read_uint_write by (simpl; lia); cbn [rbind]; unfold rd_map;
   match goal with He : enc ?c ?v = Ok ?b |- _ =>
     rewrite (dec_enc c v b); [reflexivity | first [assumption | exact I] | exact He]
   end).

Definition c_timer : codec TimerPayload :=
  c_iso (c_pair (c_string MAX_TERMINAL_REASON_BYTES) (c_bytes MAX_TIMER_PAYLOAD_BYTES))
    (fun t => (type_name t, timer_data t)) (fun p => MkTimer p.1 p.2)
    (fun t => match t with MkTimer _ _ => eq_refl end).

Definition c_range : codec RangeAttachment :=
  c_iso (c_pair c_id (c_pair c_u64 c_u64))
    (fun r => (range_hash r, (range_start r, range_end r)))
    (fun p => MkRange p.1 p.2.1 p.2.2)
    (fun r => match r with MkRange _ _ _ => eq_refl end).

Definition c_send_direct : codec (PeerId * (bytes * option RangeAttachment)) :=
  c_pair c_id (c_pair (c_bytes MAX_DIRECT_CONTROL_BYTES) (c_option c_range)).

Program Definition c_effect : codec Effect :=
  {| enc e := match e with
              | SessionEnd outcome => variant 0 (c_bytes MAX_TERMINAL_OUTCOME_BYTES) outcome
              | SessionAbort reason => variant 1 (c_string MAX_TERMINAL_REASON_BYTES) reason
              | Broadcast data => variant 2 (c_bytes MAX_EFFECT_PAYLOAD_BYTES) data
              | SetTimer delay timer => variant 3 (c_pair c_u64 c_timer) (delay, timer)
              | Fail reason => variant 4 (c_string MAX_TERMINAL_REASON_BYTES) reason
              | SendDirect to msg range => variant 5 c_send_direct (to, (msg, range))
              end;
     dec bs := let? (tag, rest) := read_uint 1 bs in
               match tag with
               | 0 => rd_map SessionEnd (dec (c_bytes MAX_TERMINAL_OUTCOME_BYTES) rest)
               | 1 => rd_map SessionAbort (dec (c_string MAX_TERMINAL_REASON_BYTES) rest)
               | 2 => rd_map Broadcast (dec (c_bytes MAX_EFFECT_PAYLOAD_BYTES) rest)
               | 3 => rd_map (fun p => SetTimer p.1 p.2) (dec (c_pair c_u64 c_timer) rest)
               | 4 => rd_map Fail (dec (c_string MAX_TERMINAL_REASON_BYTES) rest)
               | 5 => rd_map (fun p => SendDirect p.1 p.2.1 p.2.2) (dec c_send_direct rest)
               | _ => Err InvalidData
               end;
     cwf e := match e with
              | SessionEnd _ | Broadcast _ => True
              | SessionAbort reason | Fail reason => utf8_valid reason = true
              | SetTimer delay timer => cwf (c_pair c_u64 c_timer) (delay, timer)
              | SendDirect to msg range => cwf c_send_direct (to, (msg, range))
              end |}.
Next Obligation. enum_law. Qed.

Definition c_message : codec (PeerId * bytes) := c_pair c_id (c_bytes MAX_EFFECT_PAYLOAD_BYTES).

Program Definition c_step_event : codec StepEvent :=
  {| enc e := match e with
              | StepSessionStarted ensemble => variant 0 c_ensemble ensemble
              | StepMessage from data => variant 1 c_message (from, data)
              end;
     dec bs := let? (tag, rest) := read_uint 1 bs in
               match tag with
               | 0 => rd_map StepSessionStarted (dec c_ensemble rest)
               | 1 => rd_map (fun p => StepMessage p.1 p.2) (dec c_message rest)
               | _ => Err InvalidData
               end;
     cwf e := match e with
              | StepSessionStarted ensemble => cwf c_ensemble ensemble
              | StepMessage from data => cwf c_message (from, data)
              end |}.
Next Obligation. enum_law. Qed.

Program Definition c_step_terminal : codec StepTerminal :=
  {| enc t := match t with
              | TermEnd outcome => variant 0 (c_bytes MAX_TERMINAL_OUTCOME_BYTES) outcome
              | TermAbort reason => variant 1 (c_string MAX_TERMINAL_REASON_BYTES) reason
              | TermFail reason => variant 2 (c_string MAX_TERMINAL_REASON_BYTES) reason
              end;
     dec bs := let? (tag, rest) := read_uint 1 bs in
               match tag with
               | 0 => rd_map TermEnd (dec (c_bytes MAX_TERMINAL_OUTCOME_BYTES) rest)
               | 1 => rd_map TermAbort (dec (c_string MAX_TERMINAL_REASON_BYTES) rest)
               | 2 => rd_map TermFail (dec (c_string MAX_TERMINAL_REASON_BYTES) rest)
               | _ => Err InvalidData
               end;
     cwf t := match t with
              | TermEnd _ => True
              | TermAbort reason | TermFail reason => utf8_valid reason = true
              end |}.
Next Obligation. enum_law. Qed.

(** A derived [Vec<u8>]: bounded by its [u32] length only. *)
Definition c_signers : codec SignerSet := c_bytes u32_max.
Definition c_agreement : codec AggregateAttestation :=
  c_iso (c_pair (c_arr 48) c_signers)
    (fun a => (aggregate a, signers a)) (fun p => MkAgreement p.1 p.2)
    (fun a => match a with MkAgreement _ _ => eq_refl end).

(** [TraceEntry]: the derived writer; the reader rejects another version. *)
Definition c_entry : codec TraceEntry :=
  c_check (fun e => validate_version (trace_version e))
  (c_iso (c_pair c_u32 (c_pair c_u64 (c_pair c_step_event (c_pair c_id (c_pair c_id
           (c_pair (c_option c_step_terminal) c_agreement))))))
    (fun e => (trace_version e, (step e, (event e, (pre_state e, (post_state e,
                (terminal e, agreement e)))))))
    (fun p => MkEntry p.1 p.2.1 p.2.2.1 p.2.2.2.1 p.2.2.2.2.1 p.2.2.2.2.2.1 p.2.2.2.2.2.2)
    (fun e => match e with MkEntry _ _ _ _ _ _ _ => eq_refl end)).

Definition c_commitment : codec StepCommitment :=
  c_iso (c_pair (c_raw 24) (c_pair c_id (c_pair c_u64 (c_pair c_id (c_pair c_id
           (c_pair c_id c_id))))))
    (fun c => (c_domain c, (c_session_id c, (c_step c, (c_entry_hash c, (c_pre_state c,
                (c_post_state c, c_link c)))))))
    (fun p => MkCommitment p.1 p.2.1 p.2.2.1 p.2.2.2.1 p.2.2.2.2.1 p.2.2.2.2.2.1 p.2.2.2.2.2.2)
    (fun c => match c with MkCommitment _ _ _ _ _ _ _ => eq_refl end).

(** ** Hashes *)

(** [.expect("... is always serializable")] of a codec without a bound. *)
Definition total_bytes {A} (c : codec A) (a : A) : bytes :=
  match enc c a with Ok bs => bs | _ => [] end.

Section Hashes.
Context `{Crypto}.

(** [TraceEntry::entry_hash]: panics when the entry does not serialize. *)
Definition entry_hash {E} (e : TraceEntry) : result E Z :=
  let? bs := expect_ok (enc c_entry (with_agreement e agreement_empty)) in Ok (blake3 bs).

(** [StepCommitment::for_entry]. *)
Definition for_entry {E} (session : SessionHash) (e : TraceEntry) (link : Z)
    : result E StepCommitment :=
  let? h := entry_hash e in
  Ok (MkCommitment STEP_COMMIT_DOMAIN session (step e) h (pre_state e) (post_state e) link).

Definition signing_bytes (c : StepCommitment) : bytes := total_bytes c_commitment c.
Definition link_hash (c : StepCommitment) : Z := blake3 (signing_bytes c).
End Hashes.

(** ** Lemmas: signer bitmaps *)

Definition byte_ok (b : Z) : Prop := 0 <= b < 256.

Lemma bit_test b k : 0 <= k -> negb (Z.land b (Z.shiftl 1 k) =? 0) = Z.testbit b k.
Proof.
  intros Hk. rewrite Z.shiftl_1_l. destruct (Z.testbit b k) eqn:Hb.
  - apply negb_true_iff, Z.eqb_neq. intros H0.
    assert (Z.testbit (Z.land b (2 ^ k)) k = false) as H by (rewrite H0; apply Z.bits_0).
    rewrite Z.land_spec, Hb, Z.pow2_bits_true in H by done. done.
  - apply negb_false_iff, Z.eqb_eq, Z.bits_inj'. intros n Hn.
    rewrite Z.land_spec, Z.bits_0. destruct (decide (n = k)) as [->|].
    + by rewrite Hb.
    + rewrite Z.pow2_bits_false by lia. apply andb_false_r.
Qed.

Lemma signers_contains_testbit s i :
  signers_contains s i =
  match s !! (i / 8)%nat with Some b => Z.testbit b (Z.of_nat (i mod 8)) | None => false end.
Proof. unfold signers_contains. destruct (s !! _); [|done]. apply bit_test. lia. Qed.

Lemma byte_bits_ext a b :
  byte_ok a -> byte_ok b ->
  (forall k, (k < 8)%nat -> Z.testbit a (Z.of_nat k) = Z.testbit b (Z.of_nat k)) -> a = b.
Proof.
  intros Ha Hb Hk. apply Z.bits_inj'. intros n Hn.
  destruct (decide (n < 8)) as [Hlt|Hge].
  - specialize (Hk (Z.to_nat n) ltac:(lia)). by rewrite Z2Nat.id in Hk by lia.
  - unfold byte_ok in *. rewrite !Z.bits_above_log2; try lia; try done.
    + destruct (decide (b = 0)) as [->|]; [simpl; lia|].
      apply Z.log2_lt_pow2; [lia|]. apply Z.lt_le_trans with (2 ^ 8); [lia|].
      apply Z.pow_le_mono_r; lia.
    + destruct (decide (a = 0)) as [->|]; [simpl; lia|].
      apply Z.log2_lt_pow2; [lia|]. apply Z.lt_le_trans with (2 ^ 8); [lia|].
      apply Z.pow_le_mono_r; lia.
Qed.

(** A bitmap of a given length is determined by its members. *)
Lemma signers_ext s1 s2 :
  length s1 = length s2 -> Forall byte_ok s1 -> Forall byte_ok s2 ->
  (forall i, (i < 8 * length s1)%nat -> signers_contains s1 i = signers_contains s2 i) -> s1 = s2.
Proof.
  intros Hlen H1 H2 Hc. apply list_eq_same_length with (length s1); [done|done|].
  intros j b1 b2 Hj Hb1 Hb2. rewrite Forall_lookup in H1, H2.
  apply byte_bits_ext; eauto. intros k Hk.
  specialize (Hc (8 * j + k)%nat ltac:(lia)). rewrite !signers_contains_testbit in Hc.
  replace ((8 * j + k) / 8)%nat with j in Hc
    by (rewrite Nat.mul_comm, Nat.div_add_l, Nat.div_small by lia; lia).
  replace ((8 * j + k) mod 8)%nat with k in Hc
    by (rewrite Nat.add_comm, Nat.mul_comm, Nat.Div0.mod_add, Nat.mod_small by lia; lia).
  by rewrite Hb1, Hb2 in Hc.
Qed.

(** A bounded statement checked by evaluation. *)
Lemma forallb_below (f : nat -> bool) n i :
  forallb f (seq 0 n) = true -> (i < n)%nat -> f i = true.
Proof. rewrite forallb_forall. intros H Hi. apply H, in_seq. lia. Qed.

Lemma is_full_true s n : is_full s n = true <-> forall i, (i < n)%nat -> signers_contains s i = true.
Proof.
  unfold is_full. rewrite forallb_forall. split; intros H i Hi; apply H.
  - apply in_seq. lia.
  - apply in_seq in Hi. lia.
Qed.

Lemma unused_mask_bit used k :
  (used <= k < 8)%nat -> Z.testbit (unused_mask used) (Z.of_nat k) = true.
Proof.
  intros Hk.
  pose proof (forallb_below (fun u => forallb (fun k =>
    (k <? u)%nat || Z.testbit (unused_mask u) (Z.of_nat k)) (seq 0 8)) 8 used eq_refl
    ltac:(lia)) as H. cbv beta in H.
  pose proof (forallb_below _ 8 k H ltac:(lia)) as H'. cbv beta in H'.
  apply orb_true_iff in H' as [H'|H']; [|done]. apply Nat.ltb_lt in H'. lia.
Qed.

(** An accepted bitmap has no member outside the participants. *)
Lemma signers_validate_Ok s n :
  signers_validate s n = Ok tt ->
  (n <= 64)%nat /\ length s = div_ceil8 n /\
  forall i, (n <= i < 8 * length s)%nat -> signers_contains s i = false.
Proof.
  unfold signers_validate. destruct (MAX_PARTICIPANTS <? _) eqn:H0; [done|].
  destruct (_ <? length s)%nat eqn:H1; [done|]. destruct (length s <? _)%nat eqn:H2; [done|].
  apply Z.ltb_ge in H0. apply Nat.ltb_ge in H1, H2. unfold MAX_PARTICIPANTS in H0.
  intros H. split; [lia|]. split; [lia|]. intros i Hi.
  assert (length s = div_ceil8 n) as Hlen by lia. unfold div_ceil8 in Hlen.
  pose proof (Nat.div_mod_eq n 8) as Hn. pose proof (Nat.mod_upper_bound n 8 ltac:(lia)).
  pose proof (Nat.div_mod_eq i 8) as Hdi. pose proof (Nat.mod_upper_bound i 8 ltac:(lia)).
  destruct (n mod 8 =? 0)%nat eqn:Hu.
  { apply Nat.eqb_eq in Hu. exfalso.
    assert ((n + 7) / 8 = n / 8)%nat as Heq; [|lia].
    symmetry. apply Nat.div_unique with 7%nat; lia. }
  apply Nat.eqb_neq in Hu.
  assert ((n + 7) / 8 = n / 8 + 1)%nat as Hc.
  { symmetry. apply Nat.div_unique with (n mod 8 - 1)%nat; lia. }
  assert (i / 8 = n / 8)%nat as Hin by (apply Nat.le_antisymm; [|apply Nat.Div0.div_le_mono]; lia).
  unfold div_ceil8 in H. replace ((n + 7) / 8 - 1)%nat with (n / 8)%nat in H by lia.
  rewrite signers_contains_testbit, Hin.
  destruct (s !! (n / 8)%nat) as [b|]; [cbn [expect rbind] in H|done].
  destruct (Z.land b _ =? 0) eqn:Hz; [|done]. apply Z.eqb_eq in Hz.
  assert (Z.testbit (Z.land b (unused_mask (n mod 8))) (Z.of_nat (i mod 8)) = false) as Hb
    by (rewrite Hz; apply Z.bits_0).
  rewrite Z.land_spec, unused_mask_bit, andb_true_r in Hb by lia. done.
Qed.

Definition full_ok (n : nat) : bool :=
  match signers_full n with
  | Ok s => is_ok (signers_validate s n) && is_full s n
            && (signers_count s =? n)%nat && forallb (fun b => (0 <=? b) && (b <? 256)) s
  | _ => false
  end.

Lemma signers_full_spec n :
  (n <= 64)%nat ->
  exists s, signers_full n = Ok s /\ signers_validate s n = Ok tt /\ is_full s n = true /\
            signers_count s = n /\ Forall byte_ok s.
Proof.
  intros Hn. assert (full_ok n = true) as H.
  { apply (forallb_below full_ok 65); [by vm_compute|lia]. }
  unfold full_ok in H. destruct (signers_full n) as [s| |]; [|done..]. inv_ok.
  exists s. split_and!; [done| |done| |].
  - by apply is_ok_unit.
  - by apply Nat.eqb_eq.
  - apply Forall_forall. intros b Hb. rewrite forallb_forall in *.
    match goal with Hf : forall _, In _ s -> _ |- _ =>
      specialize (Hf b ltac:(by apply list_elem_of_In)) end.
    inv_ok. unfold byte_ok. lia.
Qed.

(** The bitmap with every participant set is unique: it is [SignerSet::full]. *)
Lemma signers_full_unique s n :
  Forall byte_ok s -> signers_validate s n = Ok tt -> is_full s n = true ->
  signers_full n = Ok s.
Proof.
  intros Hs Hv Hf. destruct (signers_validate_Ok _ _ Hv) as (Hn & Hlen & Hout).
  destruct (signers_full_spec n Hn) as (s' & -> & Hv' & Hf' & _ & Hs'). f_equal.
  destruct (signers_validate_Ok _ _ Hv') as (_ & Hlen' & Hout').
  apply signers_ext; [congruence|done|done|]. intros i Hi.
  rewrite is_full_true in Hf, Hf'. destruct (decide (i < n)%nat) as [Hlt|Hge].
  - by rewrite Hf, Hf'.
  - rewrite Hout, Hout' by lia. done.
Qed.
