(* ===== verification/Negotiation.v ===== *)
(** * Negotiation values and activations (protocol/src/negotiation.rs)

    Offers, tickets, counteroffers, activation signatures, the gossip envelope
    and the activation evidence an execution is bound to.  Every constructor and
    validator is translated; a decoder is the derived reader followed by the
    validating constructor.  [JsonBytes] is program/src/abi.rs. *)

From S2P Require Import Prelude Borsh Crypto Session Trace.

Unset Program Cases.

Abbreviation OfferHash := Z (only parsing).
Abbreviation TicketHash := Z (only parsing).
Abbreviation CounterofferHash := Z (only parsing).

Definition MAX_CLOCK_SKEW_MS : Z := 5000.
Definition MAX_TICKET_LIFETIME_MS : Z := 60000.
Definition PREPARE_WINDOW_MS : Z := 10000.
Definition MAX_NEGOTIATION_FACT_BYTES : Z := 4 * 1024.
Definition MAX_PARAMS_LEN : Z := 1024.
Definition MAX_FETCH_TICKETS : Z := 64.
Definition MAX_FETCH_RESPONSE_BYTES : Z := 32 * 1024.

Definition OFFER_DOMAIN : bytes := domain24 "arena0/offer/v1".
Definition OFFER_VERSION : Z := 1.
Definition TICKET_DOMAIN : bytes := domain24 "arena0/ticket/v2".
Definition TICKET_VERSION : Z := 2.
Definition ACTIVATION_DOMAIN : bytes := domain24 "arena0/activation/v1".
Definition ACTIVATION_VERSION : Z := 1.
Definition ACTIVATION_SIG_DOMAIN : bytes := domain24 "arena0/activation-sig/v1".
Definition ACTIVATION_SIG_VERSION : Z := 1.
Definition COUNTEROFFER_DOMAIN : bytes := domain24 "arena0/counteroffer/v1".
Definition COUNTEROFFER_VERSION : Z := 1.
Definition NEGOTIATION_GOSSIP_DOMAIN : bytes := domain24 "arena0/form-gossip/v1".
Definition NEGOTIATION_GOSSIP_VERSION : Z := 1.
Definition PREPARED_ACTIVATION_ENCODING_VERSION : Z := 1.
Definition ACTIVATION_ENCODING_VERSION : Z := 1.
Definition ACTIVATION_ANNOUNCEMENT_ENCODING_VERSION : Z := 1.

(** ** Data *)

Inductive JsonBytesError :=
| JsonTooLarge (actual max : Z)
| JsonInvalid (what : string).

Record OfferData := MkOfferData {
  o_domain : bytes;
  o_version : Z;
  o_negotiation_id : NegotiationId;
  offer_seq : Z;
  creator : PeerId;
  program_hash : ProgramHash;
  execution_profile : ExecutionProfileHash;
  params : bytes;
  target_size : Z;
  initial_state : StateHash;
  deadline_unix_ms : Z }.

Record Offer := MkOffer { offer_data : OfferData; offer_tickets : list TicketHash }.

Inductive TicketAction :=
| Active_ (execution_bls key_binding issued_at_unix_ms valid_for_ms : Z)
| Withdrawn.

Record TicketData := MkTicketData {
  t_domain : bytes;
  t_version : Z;
  t_negotiation_id : NegotiationId;
  t_offer_seq : Z;
  signer : PeerId;
  revision : Z;
  action : TicketAction }.

Record Ticket := MkTicket { ticket_data : TicketData; ticket_signature : Z }.

Record ActivationData := MkActivationData {
  a_domain : bytes;
  a_version : Z;
  a_offer_hash : OfferHash;
  a_tickets : list TicketHash }.

Record PreparedActivation := MkPrepared {
  p_offer : Offer;
  p_tickets : list Ticket;
  p_activation_data : ActivationData;
  p_session_hash : SessionHash }.

Record Activation := MkActivation { prepared : PreparedActivation; act_aggregate : Z }.

Record ActivationAnnouncement := MkAnnouncement { ann_offer : Offer; ann_aggregate : Z }.

Record ActivationSignature := MkActivationSig {
  as_domain : bytes;
  as_version : Z;
  as_session_hash : SessionHash;
  as_ticket_hash : TicketHash;
  as_signature : Z }.

Record CounterofferData := MkCounterofferData {
  co_domain : bytes;
  co_version : Z;
  co_negotiation_id : NegotiationId;
  co_signer : PeerId;
  co_params : bytes;
  co_issued_at_unix_ms : Z;
  co_valid_for_ms : Z }.

Record Counteroffer := MkCounteroffer { co_data : CounterofferData; co_signature : Z }.

Inductive NegotiationFact :=
| FactOffer (o : Offer)
| FactTicket (t : Ticket)
| FactActivationSignature (s : ActivationSignature)
| FactCounteroffer (c : Counteroffer)
| FactActivationAnnouncement (a : ActivationAnnouncement).

Record NegotiationGossip := MkGossip {
  g_domain : bytes;
  g_version : Z;
  g_program_id : ProgramHash;
  g_negotiation_id : NegotiationId;
  fact : NegotiationFact }.

Record ActivationTickets := MkActivationTickets {
  at_session_hash : SessionHash;
  at_tickets : list Ticket }.

#[global] Instance OfferData_eq_dec : EqDecision OfferData.
Proof. solve_decision. Defined.
#[global] Instance Offer_eq_dec : EqDecision Offer.
Proof. solve_decision. Defined.
#[global] Instance TicketAction_eq_dec : EqDecision TicketAction.
Proof. solve_decision. Defined.
#[global] Instance TicketData_eq_dec : EqDecision TicketData.
Proof. solve_decision. Defined.
#[global] Instance Ticket_eq_dec : EqDecision Ticket.
Proof. solve_decision. Defined.
#[global] Instance ActivationData_eq_dec : EqDecision ActivationData.
Proof. solve_decision. Defined.
#[global] Instance PreparedActivation_eq_dec : EqDecision PreparedActivation.
Proof. solve_decision. Defined.
#[global] Instance Activation_eq_dec : EqDecision Activation.
Proof. solve_decision. Defined.

(** ** Errors *)

Inductive NegotiationError :=
| WrongDomain (kind : string) (domain : bytes)
| WrongVersion (kind : string) (version : Z)
| InvalidTargetSize (target_size max : Z)
| ParamsTooLarge (max len : Z)
| ExecutionProfileMismatch (offered local : Z)
| FactTooLarge (max len : Z)
| TicketLifetimeTooLong (lifetime_ms max_lifetime_ms : Z)
| TicketCount (actual min max : Z)
| DuplicateTicketHash (h : TicketHash)
| FetchTooManyTickets (max len : Z)
| FetchResponseTooLarge (max len : Z)
| ScopeMismatch (kind : string)
| Decode (what : io_kind)
| DecodeActivation (what : ActivationError)
with TicketVerificationError :=
| Structural (e : NegotiationError)
| Identity (e : CryptoError)
| IdentityMismatch
| KeyBinding (e : CryptoError)
| KeyBindingMismatch
(** The text of [InvalidTicket]: the [to_string] of one of these errors. *)
with TicketReason :=
| ReasonInvalid (e : NegotiationError)
| ReasonUnverified (e : TicketVerificationError)
with ActivationError :=
| InvalidOffer (e : NegotiationError)
| TicketSetMismatch
| InvalidOrdering
| WithdrawnTicket (h : TicketHash)
| InvalidTicket (h : TicketHash) (reason : TicketReason)
| AnnouncementMismatch
| InvalidAttestations (e : option CryptoError).

(** ** Checks *)

Definition check_domain (kind : string) (actual expected : bytes) : result NegotiationError unit :=
  err_if (negb (bool_decide (actual = expected))) (WrongDomain kind actual).
Definition check_version (kind : string) (actual expected : Z) : result NegotiationError unit :=
  err_if (negb (actual =? expected)) (WrongVersion kind actual).
Definition check_target_size (n : Z) : result NegotiationError unit :=
  let max := MAX_PARTICIPANTS in
  err_if (negb ((2 <=? n) && (n <=? max))) (InvalidTargetSize n max).
Definition check_params_len (len : Z) : result NegotiationError unit :=
  err_if (MAX_PARAMS_LEN <? len) (ParamsTooLarge MAX_PARAMS_LEN len).
Definition check_fact_size (len : Z) : result NegotiationError unit :=
  err_if (MAX_NEGOTIATION_FACT_BYTES <? len) (FactTooLarge MAX_NEGOTIATION_FACT_BYTES len).

Definition decode_bounded {T} (c : codec T) (max_len : Z)
    (limit_error : Z -> Z -> NegotiationError) (validate : T -> result NegotiationError unit)
    (bs : bytes) : result NegotiationError T :=
  err_if (max_len <? zlen bs) (limit_error max_len (zlen bs)) ;;?
  let? frame := map_err Decode (from_slice c bs) in
  validate frame ;;?
  Ok frame.

(** [HashSet::insert] over a list of ticket hashes. *)
Definition check_distinct (l : list TicketHash) : result NegotiationError unit :=
  match first_dup [] l with
  | Some t => Err (DuplicateTicketHash t)
  | None => Ok tt
  end.

Section Negotiation.
Context `{Crypto}.

(** [JsonBytes::try_new]. *)
Definition json_try_new (b : bytes) : result JsonBytesError bytes :=
  err_if (MAX_CALL_PAYLOAD_BYTES <? zlen b) (JsonTooLarge (zlen b) MAX_CALL_PAYLOAD_BYTES) ;;?
  match serde_json_value b with
  | inl e => Err (JsonInvalid e)
  | inr _ => Ok b
  end.
Definition c_json : codec bytes := c_refine (c_bytes MAX_CALL_PAYLOAD_BYTES) id json_try_new.

(** ** Offers *)

Definition c_offer_data : codec OfferData :=
  c_iso (c_pair (c_raw 24) (c_pair c_u16 (c_pair c_id (c_pair c_u64 (c_pair c_id (c_pair c_id
           (c_pair c_id (c_pair c_json (c_pair c_u16 (c_pair c_id c_u64))))))))))
    (fun o => (o_domain o, (o_version o, (o_negotiation_id o, (offer_seq o, (creator o,
       (program_hash o, (execution_profile o, (params o, (target_size o, (initial_state o,
        deadline_unix_ms o)))))))))))
    (fun '(d, (v, (n, (s, (c, (h, (e, (p, (t, (i, l)))))))))) =>
       MkOfferData d v n s c h e p t i l)
    (fun o => match o with MkOfferData _ _ _ _ _ _ _ _ _ _ _ => eq_refl end).

(** [OfferData::validate]. *)
Definition offer_data_validate (o : OfferData) : result NegotiationError unit :=
  check_domain "offer" (o_domain o) OFFER_DOMAIN ;;?
  check_version "offer" (o_version o) OFFER_VERSION ;;?
  check_params_len (zlen (params o)) ;;?
  check_target_size (target_size o).

(** [OfferData::new]. *)
Definition offer_data_new (negotiation_id : NegotiationId) (seq : Z) (creator : PeerId)
    (program : ProgramHash) (profile : ExecutionProfileHash) (params : bytes)
    (target : Z) (initial : StateHash) (deadline : Z) : result NegotiationError OfferData :=
  let body := MkOfferData OFFER_DOMAIN OFFER_VERSION negotiation_id seq creator program profile
                params target initial deadline in
  offer_data_validate body ;;? Ok body.

Definition validate_for_profile (o : OfferData) (local : ExecutionProfileHash)
    : result NegotiationError unit :=
  offer_data_validate o ;;?
  err_if (negb (execution_profile o =? local)) (ExecutionProfileMismatch (execution_profile o) local).

(** [OfferHash::of]: the [expect] of [signing_bytes] is a panic. *)
Definition offer_hash_of {E} (o : OfferData) : result E OfferHash :=
  let? bs := expect_ok (to_vec c_offer_data o) in Ok (blake3 bs).

Definition is_complete (o : Offer) : bool := zlen (offer_tickets o) =? target_size (offer_data o).

(** The derived layout of [Offer], before the reader's validation. *)
Definition c_offer_raw : codec (OfferData * list TicketHash) :=
  c_pair c_offer_data (c_vec u32_max c_id).

Definition offer_validate (o : Offer) : result NegotiationError unit :=
  offer_data_validate (offer_data o) ;;?
  let max := target_size (offer_data o) in
  let len := zlen (offer_tickets o) in
  err_if (negb ((1 <=? len) && (len <=? max))) (TicketCount len 1 max) ;;?
  check_distinct (offer_tickets o) ;;?
  let? bs := expect_ok (enc c_offer_raw (offer_data o, offer_tickets o)) in
  check_fact_size (zlen bs).

(** [Offer::new] and the [BorshDeserialize] that goes through it. *)
Definition offer_new (d : OfferData) (ts : list TicketHash) : result NegotiationError Offer :=
  let o := MkOffer d ts in
  offer_validate o ;;? Ok o.
Definition c_offer : codec Offer :=
  c_refine c_offer_raw (fun o => (offer_data o, offer_tickets o)) (fun p => offer_new p.1 p.2).
Definition offer_decode : bytes -> result NegotiationError Offer :=
  decode_bounded c_offer MAX_NEGOTIATION_FACT_BYTES FactTooLarge offer_validate.

(** ** Tickets *)

Definition c_active : codec (Z * (Z * (Z * Z))) :=
  c_pair (c_arr 96) (c_pair (c_arr 48) (c_pair c_u64 c_u32)).

Program Definition c_action : codec TicketAction :=
  {| enc a := match a with
              | Active_ k b i v => variant 0 c_active (k, (b, (i, v)))
              | Withdrawn => variant 1 (c_raw 0) []
              end;
     dec bs := let? (tag, rest) := read_uint 1 bs in
               match tag with
               | 0 => rd_map (fun p => Active_ p.1 p.2.1 p.2.2.1 p.2.2.2) (dec c_active rest)
               | 1 => rd_map (fun _ => Withdrawn) (dec (c_raw 0) rest)
               | _ => Err InvalidData
               end;
     cwf a := match a with
              | Active_ k b i v => cwf c_active (k, (b, (i, v)))
              | Withdrawn => cwf (c_raw 0) []
              end |}.
Next Obligation. enum_law. Qed.

Definition c_ticket_data : codec TicketData :=
  c_iso (c_pair (c_raw 24) (c_pair c_u16 (c_pair c_id (c_pair c_u64 (c_pair c_id
           (c_pair c_u64 c_action))))))
    (fun t => (t_domain t, (t_version t, (t_negotiation_id t, (t_offer_seq t, (signer t,
                (revision t, action t)))))))
    (fun p => MkTicketData p.1 p.2.1 p.2.2.1 p.2.2.2.1 p.2.2.2.2.1 p.2.2.2.2.2.1 p.2.2.2.2.2.2)
    (fun t => match t with MkTicketData _ _ _ _ _ _ _ => eq_refl end).
Definition c_ticket : codec Ticket :=
  c_iso (c_pair c_ticket_data (c_arr 64))
    (fun t => (ticket_data t, ticket_signature t)) (fun p => MkTicket p.1 p.2)
    (fun t => match t with MkTicket _ _ => eq_refl end).

Definition ticket_data_validate (t : TicketData) : result NegotiationError unit :=
  check_domain "ticket" (t_domain t) TICKET_DOMAIN ;;?
  check_version "ticket" (t_version t) TICKET_VERSION ;;?
  match action t with
  | Active_ _ _ _ valid_for_ms =>
      err_if (MAX_TICKET_LIFETIME_MS <? valid_for_ms)
        (TicketLifetimeTooLong valid_for_ms MAX_TICKET_LIFETIME_MS)
  | Withdrawn => Ok tt
  end.

Definition ticket_data_new (negotiation_id : NegotiationId) (seq : Z) (signer : PeerId)
    (revision : Z) (action : TicketAction) : result NegotiationError TicketData :=
  let body := MkTicketData TICKET_DOMAIN TICKET_VERSION negotiation_id seq signer revision action in
  ticket_data_validate body ;;? Ok body.

Definition ticket_signing_bytes {E} (t : TicketData) : result E bytes :=
  expect_ok (to_vec c_ticket_data t).
Definition ticket_hash_of {E} (t : TicketData) : result E TicketHash :=
  let? bs := ticket_signing_bytes t in Ok (blake3 bs).

Definition ticket_validate (t : Ticket) : result NegotiationError unit :=
  ticket_data_validate (ticket_data t) ;;?
  let? bs := expect_ok (to_vec c_ticket t) in
  check_fact_size (zlen bs).

Definition verify_identity_signature (signer : PeerId) (message : bytes) (sig : Z)
    : result CryptoError bool := ed25519_verify signer message sig.
Definition verify_identity (t : Ticket) : result CryptoError bool :=
  let? bs := ticket_signing_bytes (ticket_data t) in
  verify_identity_signature (signer (ticket_data t)) bs (ticket_signature t).

Definition verify_for_offer (t : Ticket) (offer_hash : OfferHash)
    : result TicketVerificationError unit :=
  map_err Structural (ticket_validate t) ;;?
  let? ok := map_err Identity (verify_identity t) in
  err_if (negb ok) IdentityMismatch ;;?
  match action (ticket_data t) with
  | Active_ execution_bls key_binding _ _ =>
      let? ok := map_err KeyBinding
        (verify_key_binding offer_hash (signer (ticket_data t)) execution_bls key_binding) in
      err_if (negb ok) KeyBindingMismatch
  | Withdrawn => Ok tt
  end.

Definition ticket_decode : bytes -> result NegotiationError Ticket :=
  decode_bounded c_ticket MAX_NEGOTIATION_FACT_BYTES FactTooLarge ticket_validate.

(** ** Activation preimages *)

Definition c_activation_data : codec ActivationData :=
  c_iso (c_pair (c_raw 24) (c_pair c_u16 (c_pair c_id (c_vec u32_max c_id))))
    (fun a => (a_domain a, (a_version a, (a_offer_hash a, a_tickets a))))
    (fun p => MkActivationData p.1 p.2.1 p.2.2.1 p.2.2.2)
    (fun a => match a with MkActivationData _ _ _ _ => eq_refl end).

Definition activation_data_validate (a : ActivationData) : result NegotiationError unit :=
  check_domain "activation" (a_domain a) ACTIVATION_DOMAIN ;;?
  check_version "activation" (a_version a) ACTIVATION_VERSION ;;?
  let len := zlen (a_tickets a) in
  err_if (negb ((2 <=? len) && (len <=? MAX_PARTICIPANTS))) (TicketCount len 2 MAX_PARTICIPANTS) ;;?
  check_distinct (a_tickets a).

Definition activation_data_new (offer_hash : OfferHash) (ts : list TicketHash)
    : result NegotiationError ActivationData :=
  let d := MkActivationData ACTIVATION_DOMAIN ACTIVATION_VERSION offer_hash ts in
  activation_data_validate d ;;? Ok d.

Definition activation_signing_bytes {E} (a : ActivationData) : result E bytes :=
  expect_ok (to_vec c_activation_data a).

(** [SessionHash::of]. *)
Definition session_hash_of {E} (a : ActivationData) : result E SessionHash :=
  let? bs := activation_signing_bytes a in Ok (blake3 bs).

(** ** Prepared activations *)

(** The per-ticket checks of the first loop of [activation_data_for]. *)
Definition check_ticket_member (p : Ticket * TicketHash) : result ActivationError unit :=
  let '(t, h) := p in
  let? th := ticket_hash_of (ticket_data t) in
  err_if (negb (th =? h)) TicketSetMismatch ;;?
  map_err (fun e => InvalidTicket th (ReasonInvalid e)) (ticket_validate t) ;;?
  match action (ticket_data t) with
  | Active_ _ _ _ _ => Ok tt
  | Withdrawn => Err (WithdrawnTicket th)
  end.

(** The per-ticket checks of its last loop. *)
Definition check_ticket_proof (offer_hash : OfferHash) (t : Ticket) : result ActivationError unit :=
  let? th := ticket_hash_of (ticket_data t) in
  map_err (fun e => InvalidTicket th (ReasonUnverified e)) (verify_for_offer t offer_hash).

Definition ticket_signer (t : Ticket) : PeerId := signer (ticket_data t).

Definition activation_data_for (o : Offer) (ts : list Ticket) : result ActivationError ActivationData :=
  map_err InvalidOffer (offer_validate o) ;;?
  err_if (negb (is_complete o)) TicketSetMismatch ;;?
  err_if (negb (zlen ts =? zlen (offer_tickets o))
          || negb (zlen ts =? target_size (offer_data o))) TicketSetMismatch ;;?
  try_for_each check_ticket_member (zip ts (offer_tickets o)) ;;?
  err_if (negb (opt_eqb (ticket_signer <$> head ts) (Some (creator (offer_data o))))) InvalidOrdering ;;?
  match first_dup [] (map ticket_signer ts) with
  | Some _ => Err InvalidOrdering
  | None => Ok tt
  end ;;?
  err_if (existsb (fun p => ticket_signer p.2 <=? ticket_signer p.1) (windows2 (drop 1 ts)))
    InvalidOrdering ;;?
  let? offer_hash := offer_hash_of (offer_data o) in
  let? data := map_err InvalidOffer (activation_data_new offer_hash (offer_tickets o)) in
  try_for_each (check_ticket_proof offer_hash) ts ;;?
  Ok data.

Definition prepared_new (o : Offer) (ts : list Ticket) : result ActivationError PreparedActivation :=
  let? data := activation_data_for o ts in
  let? h := session_hash_of data in
  Ok (MkPrepared o ts data h).

(** [PreparedActivation::validate]. *)
Definition prepared_validate (p : PreparedActivation) : result ActivationError unit :=
  let? data := activation_data_for (p_offer p) (p_tickets p) in
  let? h := session_hash_of (p_activation_data p) in
  err_if (negb (bool_decide (data = p_activation_data p)) || negb (h =? p_session_hash p))
    TicketSetMismatch.

Definition signers_of (p : PreparedActivation) : list PeerId := map ticket_signer (p_tickets p).
Definition prepared_ensemble (p : PreparedActivation) : result EnsembleError Ensemble :=
  from_peers (signers_of p).

Definition c_prepared : codec PreparedActivation :=
  c_versioned PREPARED_ACTIVATION_ENCODING_VERSION
    (c_refine (c_pair c_offer (c_vec u32_max c_ticket))
       (fun p => (p_offer p, p_tickets p)) (fun q => prepared_new q.1 q.2)).

(** ** Activations *)

Definition act_tickets (a : Activation) : list Ticket := p_tickets (prepared a).
Definition act_offer_data (a : Activation) : OfferData := offer_data (p_offer (prepared a)).
Definition act_session_hash (a : Activation) : SessionHash := p_session_hash (prepared a).

(** [check_structure]. *)
Definition check_structure (p : PreparedActivation) : result ActivationError unit :=
  rmap (fun _ => tt) (activation_data_for (p_offer p) (p_tickets p)).

(** The key of one ticket; [unreachable!] on a withdrawn one. *)
Definition execution_key {E} (t : Ticket) : result E Z :=
  match action (ticket_data t) with
  | Active_ k _ _ _ => Ok k
  | Withdrawn => Panic
  end.
Definition execution_keys {E} (ts : list Ticket) : result E (list Z) :=
  try_fold (fun ks t => let? k := execution_key t in Ok (ks ++ [k])) [] ts.

Definition activation_validate (a : Activation) : result ActivationError unit :=
  check_structure (prepared a) ;;?
  let? keys := execution_keys (act_tickets a) in
  let? msg := activation_signing_bytes (p_activation_data (prepared a)) in
  let? ok := map_err (fun e => InvalidAttestations (Some e))
    (fast_aggregate_verify (act_aggregate a) msg keys) in
  err_if (negb ok) (InvalidAttestations None).

Definition activation_new (p : PreparedActivation) (agg : Z) : result ActivationError Activation :=
  let a := MkActivation p agg in
  activation_validate a ;;? Ok a.

Definition from_announcement (p : PreparedActivation) (ann : ActivationAnnouncement)
    : result ActivationError Activation :=
  err_if (negb (bool_decide (p_offer p = ann_offer ann))) AnnouncementMismatch ;;?
  activation_new p (ann_aggregate ann).

Definition prepared_matches (p : PreparedActivation) (a : Activation) : bool :=
  bool_decide (p = prepared a).

Definition c_activation : codec Activation :=
  c_versioned ACTIVATION_ENCODING_VERSION
    (c_refine (c_pair c_prepared (c_arr 48))
       (fun a => (prepared a, act_aggregate a)) (fun q => activation_new q.1 q.2)).

(** ** Announcements, activation signatures and counteroffers *)

Definition c_announcement_raw : codec (Offer * Z) :=
  c_versioned ACTIVATION_ANNOUNCEMENT_ENCODING_VERSION (c_pair c_offer (c_arr 48)).

Definition announcement_validate (a : ActivationAnnouncement) : result ActivationError unit :=
  map_err InvalidOffer (offer_validate (ann_offer a)) ;;?
  err_if (negb (is_complete (ann_offer a))) TicketSetMismatch ;;?
  let? bs := expect_ok (enc c_announcement_raw (ann_offer a, ann_aggregate a)) in
  map_err InvalidOffer (check_fact_size (zlen bs)).

Definition from_parts (o : Offer) (agg : Z) : result ActivationError ActivationAnnouncement :=
  let a := MkAnnouncement o agg in
  announcement_validate a ;;? Ok a.
Definition from_activation (a : Activation) : ActivationAnnouncement :=
  MkAnnouncement (p_offer (prepared a)) (act_aggregate a).
Definition c_announcement : codec ActivationAnnouncement :=
  c_refine c_announcement_raw (fun a => (ann_offer a, ann_aggregate a)) (fun p => from_parts p.1 p.2).
Definition announcement_decode : bytes -> result NegotiationError ActivationAnnouncement :=
  decode_bounded c_announcement MAX_NEGOTIATION_FACT_BYTES FactTooLarge
    (fun a => map_err DecodeActivation (announcement_validate a)).

Definition c_activation_sig : codec ActivationSignature :=
  c_iso (c_pair (c_raw 24) (c_pair c_u16 (c_pair c_id (c_pair c_id (c_arr 48)))))
    (fun a => (as_domain a, (as_version a, (as_session_hash a, (as_ticket_hash a, as_signature a)))))
    (fun p => MkActivationSig p.1 p.2.1 p.2.2.1 p.2.2.2.1 p.2.2.2.2)
    (fun a => match a with MkActivationSig _ _ _ _ _ => eq_refl end).

Definition activation_sig_validate (a : ActivationSignature) : result NegotiationError unit :=
  check_domain "activation signature" (as_domain a) ACTIVATION_SIG_DOMAIN ;;?
  check_version "activation signature" (as_version a) ACTIVATION_SIG_VERSION ;;?
  let? bs := expect_ok (to_vec c_activation_sig a) in
  check_fact_size (zlen bs).
Definition activation_sig_new (session : SessionHash) (ticket : TicketHash) (sig : Z)
    : result NegotiationError ActivationSignature :=
  let a := MkActivationSig ACTIVATION_SIG_DOMAIN ACTIVATION_SIG_VERSION session ticket sig in
  activation_sig_validate a ;;? Ok a.

Definition c_counteroffer_data : codec CounterofferData :=
  c_iso (c_pair (c_raw 24) (c_pair c_u16 (c_pair c_id (c_pair c_id (c_pair (c_bytes u32_max)
           (c_pair c_u64 c_u32))))))
    (fun c => (co_domain c, (co_version c, (co_negotiation_id c, (co_signer c, (co_params c,
                (co_issued_at_unix_ms c, co_valid_for_ms c)))))))
    (fun p => MkCounterofferData p.1 p.2.1 p.2.2.1 p.2.2.2.1 p.2.2.2.2.1 p.2.2.2.2.2.1 p.2.2.2.2.2.2)
    (fun c => match c with MkCounterofferData _ _ _ _ _ _ _ => eq_refl end).
Definition c_counteroffer : codec Counteroffer :=
  c_iso (c_pair c_counteroffer_data (c_arr 64))
    (fun c => (co_data c, co_signature c)) (fun p => MkCounteroffer p.1 p.2)
    (fun c => match c with MkCounteroffer _ _ => eq_refl end).

Definition counteroffer_data_validate (c : CounterofferData) : result NegotiationError unit :=
  check_domain "counteroffer" (co_domain c) COUNTEROFFER_DOMAIN ;;?
  check_version "counteroffer" (co_version c) COUNTEROFFER_VERSION ;;?
  check_params_len (zlen (co_params c)) ;;?
  err_if (MAX_TICKET_LIFETIME_MS <? co_valid_for_ms c)
    (TicketLifetimeTooLong (co_valid_for_ms c) MAX_TICKET_LIFETIME_MS).
Definition counteroffer_validate (c : Counteroffer) : result NegotiationError unit :=
  counteroffer_data_validate (co_data c) ;;?
  let? bs := expect_ok (to_vec c_counteroffer c) in
  check_fact_size (zlen bs).
Definition counteroffer_verify_identity (c : Counteroffer) : result CryptoError bool :=
  let? bs := expect_ok (to_vec c_counteroffer_data (co_data c)) in
  verify_identity_signature (co_signer (co_data c)) bs (co_signature c).

(** [ActivationTickets::validate], with the body length of fetch_frame.rs. *)
Definition response_body_len (lens : list Z) : Z :=
  let step total len := t ← total; t ← checked_add t 4; checked_add t len in
  default u64_max (foldl step (Some (1 + 32 + 4)) lens).
Definition activation_tickets_validate (a : ActivationTickets) : result NegotiationError unit :=
  err_if (MAX_FETCH_TICKETS <? zlen (at_tickets a))
    (FetchTooManyTickets MAX_FETCH_TICKETS (zlen (at_tickets a))) ;;?
  try_for_each ticket_validate (at_tickets a) ;;?
  let? lens := try_fold (fun acc t => let? n := expect_ok (object_length c_ticket t) in
                                      Ok (acc ++ [n])) [] (at_tickets a) in
  let len := response_body_len lens in
  err_if (MAX_FETCH_RESPONSE_BYTES <? len) (FetchResponseTooLarge MAX_FETCH_RESPONSE_BYTES len).

(** ** The gossip envelope *)

Program Definition c_fact : codec NegotiationFact :=
  {| enc f := match f with
              | FactOffer o => variant 0 c_offer o
              | FactTicket t => variant 1 c_ticket t
              | FactActivationSignature s => variant 2 c_activation_sig s
              | FactCounteroffer c => variant 3 c_counteroffer c
              | FactActivationAnnouncement a => variant 4 c_announcement a
              end;
     dec bs := let? (tag, rest) := read_uint 1 bs in
               match tag with
               | 0 => rd_map FactOffer (dec c_offer rest)
               | 1 => rd_map FactTicket (dec c_ticket rest)
               | 2 => rd_map FactActivationSignature (dec c_activation_sig rest)
               | 3 => rd_map FactCounteroffer (dec c_counteroffer rest)
               | 4 => rd_map FactActivationAnnouncement (dec c_announcement rest)
               | _ => Err InvalidData
               end;
     cwf f := match f with
              | FactOffer o => cwf c_offer o
              | FactTicket t => cwf c_ticket t
              | FactActivationSignature s => cwf c_activation_sig s
              | FactCounteroffer c => cwf c_counteroffer c
              | FactActivationAnnouncement a => cwf c_announcement a
              end |}.
Next Obligation. enum_law. Qed.

Definition c_gossip : codec NegotiationGossip :=
  c_iso (c_pair (c_raw 24) (c_pair c_u16 (c_pair c_id (c_pair c_id c_fact))))
    (fun g => (g_domain g, (g_version g, (g_program_id g, (g_negotiation_id g, fact g)))))
    (fun p => MkGossip p.1 p.2.1 p.2.2.1 p.2.2.2.1 p.2.2.2.2)
    (fun g => match g with MkGossip _ _ _ _ _ => eq_refl end).

Definition fact_negotiation_id (f : NegotiationFact) : option NegotiationId :=
  match f with
  | FactOffer o => Some (o_negotiation_id (offer_data o))
  | FactTicket t => Some (t_negotiation_id (ticket_data t))
  | FactCounteroffer c => Some (co_negotiation_id (co_data c))
  | FactActivationSignature _ => None
  | FactActivationAnnouncement a => Some (o_negotiation_id (offer_data (ann_offer a)))
  end.

Definition gossip_new (program : ProgramHash) (id : NegotiationId) (f : NegotiationFact)
    : NegotiationGossip :=
  MkGossip NEGOTIATION_GOSSIP_DOMAIN NEGOTIATION_GOSSIP_VERSION program id f.

Definition gossip_validate (g : NegotiationGossip) : result NegotiationError unit :=
  check_domain "negotiation gossip" (g_domain g) NEGOTIATION_GOSSIP_DOMAIN ;;?
  check_version "negotiation gossip" (g_version g) NEGOTIATION_GOSSIP_VERSION ;;?
  match fact g with
  | FactOffer o => offer_validate o
  | FactTicket t => ticket_validate t
  | FactActivationSignature s => activation_sig_validate s
  | FactActivationAnnouncement a => map_err DecodeActivation (announcement_validate a)
  | FactCounteroffer c => counteroffer_validate c
  end ;;?
  match fact_negotiation_id (fact g) with
  | Some id => err_if (negb (id =? g_negotiation_id g)) (ScopeMismatch "negotiation fact")
  | None => Ok tt
  end ;;?
  let? bs := expect_ok (to_vec c_gossip g) in
  check_fact_size (zlen bs).

Definition gossip_decode : bytes -> result NegotiationError NegotiationGossip :=
  decode_bounded c_gossip MAX_NEGOTIATION_FACT_BYTES FactTooLarge gossip_validate.

(** ** Lemmas *)

Lemma total_ticket_data : total_codec c_ticket_data.
Proof.
  apply total_iso. repeat (apply total_pair; auto with arena).
  intros [k b i v|]; apply variant_total; repeat (apply total_pair); auto with arena.
Qed.

Lemma total_ticket : total_codec c_ticket.
Proof. apply total_iso, total_pair; auto using total_ticket_data with arena. Qed.

Lemma ticket_hash_of_Ok {E} (t : TicketData) :
  exists bs, to_vec c_ticket_data t = Ok bs /\ ticket_hash_of (E:=E) t = Ok (blake3 bs).
Proof.
  destruct (total_ticket_data t) as [bs Hbs]. exists bs.
  unfold ticket_hash_of, ticket_signing_bytes, to_vec. by rewrite Hbs.
Qed.

Lemma execution_keys_snoc {E} ts t :
  execution_keys (E:=E) (ts ++ [t]) =
  let? ks := execution_keys ts in let? k := execution_key t in Ok (ks ++ [k]).
Proof.
  unfold execution_keys. rewrite try_fold_app. simpl.
  match goal with |- rbind ?r _ = _ => destruct r end; simpl; [|done..].
  by destruct (execution_key t).
Qed.

Definition ticket_active (t : Ticket) : bool :=
  match action (ticket_data t) with Active_ _ _ _ _ => true | Withdrawn => false end.

Lemma execution_keys_Ok {E} ts :
  Forall (fun t => ticket_active t = true) ts ->
  exists ks, execution_keys (E:=E) ts = Ok ks /\ length ks = length ts.
Proof.
  induction ts as [|t ts IH] using rev_ind; intros Hall.
  { exists []. split; reflexivity. }
  apply Forall_app in Hall as [Hts Ht]. rewrite Forall_singleton in Ht.
  destruct (IH Hts) as (ks & Hks & Hlen). rewrite execution_keys_snoc, Hks. simpl.
  unfold ticket_active in Ht. unfold execution_key.
  destruct (action (ticket_data t)); [simpl|discriminate Ht].
  eexists. split; [done|]. rewrite !length_app. simpl. lia.
Qed.

(** What the accepted evidence establishes, in the order the code checks it. *)
Record activation_facts (o : Offer) (ts : list Ticket) (d : ActivationData) : Prop := {
  af_offer : offer_validate o = Ok tt;
  af_count : zlen ts = target_size (offer_data o);
  af_hashes : Forall2 (fun t h => ticket_hash_of (E:=ActivationError) (ticket_data t) = Ok h)
                ts (offer_tickets o);
  af_active : Forall (fun t => ticket_active t = true) ts;
  af_creator : ticket_signer <$> head ts = Some (creator (offer_data o));
  af_distinct : NoDup (map ticket_signer ts);
  af_sorted : StronglySorted (key_lt ticket_signer) (drop 1 ts);
  af_data : exists oh, offer_hash_of (E:=ActivationError) (offer_data o) = Ok oh /\
      d = MkActivationData ACTIVATION_DOMAIN ACTIVATION_VERSION oh (offer_tickets o) /\
      activation_data_validate d = Ok tt /\
      Forall (fun t => verify_for_offer t oh = Ok tt) ts }.

Lemma check_ticket_member_Ok t h :
  check_ticket_member (t, h) = Ok tt ->
  ticket_hash_of (E:=ActivationError) (ticket_data t) = Ok h /\ ticket_active t = true.
Proof.
  unfold check_ticket_member, ticket_active. intros Hm. inv_ok.
  match goal with Hh : (_ =? _) = true |- _ => apply Z.eqb_eq in Hh as -> end.
  split; [done|]. by destruct (action _).
Qed.

Lemma check_ticket_proof_Ok oh t :
  check_ticket_proof oh t = Ok tt -> verify_for_offer t oh = Ok tt.
Proof. unfold check_ticket_proof. intros Hm. by inv_ok. Qed.

Lemma Forall_zip {A B} (P : A * B -> Prop) (Q : A -> B -> Prop) l k :
  (forall a b, P (a, b) -> Q a b) -> length l = length k -> Forall P (zip l k) -> Forall2 Q l k.
Proof.
  intros HPQ; revert k; induction l as [|a l IH]; intros [|b k] Hlen Hall; try discriminate; [constructor|].
  simpl in *. apply Forall_cons in Hall as [Ha Hall]. constructor; [by apply HPQ|]. apply IH; auto.
Qed.

Lemma activation_data_for_Ok o ts d :
  activation_data_for o ts = Ok d -> activation_facts o ts d.
Proof.
  unfold activation_data_for. intros Hok. inv_ok.
  repeat match goal with
  | H : (_ =? _) = true |- _ => apply Z.eqb_eq in H
  | H : opt_eqb _ _ = true |- _ => apply opt_eqb_true in H
  | u : unit |- _ => destruct u
  | H : try_for_each _ _ = Ok _ |- _ => apply try_for_each_Ok in H
  end.
  destruct (first_dup [] _) eqn:Hdup; [done|].
  match goal with H : activation_data_new _ _ = Ok _ |- _ => unfold activation_data_new in H end.
  inv_ok.
  assert (Forall2 (fun t h => ticket_hash_of (E:=ActivationError) (ticket_data t) = Ok h
            /\ ticket_active t = true) ts (offer_tickets o)) as Hmem.
  { eapply (Forall_zip (fun x => check_ticket_member x = Ok tt)); [apply check_ticket_member_Ok| |done]. unfold zlen in *. lia. }
  split; auto.
  - eapply Forall2_impl; [done|]. by intros ? ? [? _].
  - clear -Hmem. induction Hmem as [|? ? ? ? [_ ?] ? ?]; constructor; done.
  - by apply first_dup_NoDup.
  - by apply windows2_sorted.
  - eexists. split_and!; [done..| |].
    + by match goal with u : unit |- _ => destruct u end.
    + eapply Forall_impl; [done|]. intros; by apply check_ticket_proof_Ok.
Qed.
End Negotiation.
