(* ===== verification/Evidence.v ===== *)
(** * Execution evidence values
    (protocol/src/execution/: error.rs, cursor.rs, abort.rs, binding.rs,
    status.rs, outcome.rs, callout.rs, direct.rs, end.rs, exec.rs)

    The values the execution aggregate is made of and the checks each of them
    carries: the activation binding and its key order, the agreed cursor, signed
    abort occurrences, terminal outcomes, the durable status. *)

From S2P Require Import Prelude Borsh Crypto Session Trace Negotiation.

Unset Program Cases.

Inductive ExecLifecycle := LNegotiating | LActivating | LActive | LWaiting | LCompleted | LFailed | LAborted.

(** The text of [InvalidCertificate]: a literal, or the [to_string] of an error. *)
Inductive CertReason :=
| Msg (s : string)
| OfCrypto (e : CryptoError)
| OfAttestation (e : AttestationError)
| OfSigners (e : SignerSetError)
| OfEnsemble (e : EnsembleError).

Inductive ProtocolError :=
| DirectQueueFull (to : PeerId)
| DirectOutOfOrder (from : PeerId) (seq : Z)
| DirectFromAgreedEvent
| IllegalLifecycle (current : ExecLifecycle) (event : string)
| InvalidActivation (e : ActivationError)
| BindingMismatch
| UnknownParticipant (participant : PeerId)
| VersionExhausted
| AgreedStepExhausted
| StepCoordinateMismatch (expected actual : Z)
| AgreedPreStateMismatch (expected actual : StateHash)
| AgreedChainMismatch
| StateHashMismatch
| SharedProposalExists
| SharedProposalSigned
| SharedProposalMissing
| TraceVersionMismatch (actual expected : Z)
| MissingSessionStart
| SessionStartPosition
| SessionStartMismatch
| TraceEntryTooLarge (actual max : Z)
| CollectionTooLarge (kind : string) (actual max : Z)
| InvalidStepSignature (participant : PeerId) (step : Z)
| DuplicateStepSignature (participant : PeerId)
| ConflictingStepSignature (participant : PeerId)
| IncompleteProof (actual expected : Z)
| ReceiptBudgetExhausted (step : Z)
| InvalidCertificate (reason : CertReason)
| ReceiptBodyMismatch
| InvalidGuestSignData
| InvalidAbortOccurrence
| InvalidAbortSignature (e : CryptoError)
| InvalidAbortCoordinate
| UnauthenticatedAbort
| TerminalTraceMismatch
| InvalidOutcomeProjection (e : JsonBytesError)
| TerminalOutcomeRequired
| TerminalOutcomeMismatch
| OutcomeProjectionMismatch
| CalloutMismatch
| InvalidCalloutState
| TerminalAlreadyPublished
| InvalidTerminalStatus
| MultipleTerminalEffects
| AlreadyTerminal
| LocalSharedChange
| OutgoingQueueFull (actual max : Z)
| NotQueuedMessage
| PayloadTooLarge (kind : string) (actual max : Z)
| EncodedTooLarge (kind : string) (actual max : Z)
| Serialization (e : io_kind)
| Deserialization (e : io_kind).

Definition ensure_encoded (kind : string) (actual max : Z) : result ProtocolError unit :=
  err_if (max <? actual) (EncodedTooLarge kind actual max).
Definition ensure_payload (kind : string) (actual max : Z) : result ProtocolError unit :=
  err_if (max <? actual) (PayloadTooLarge kind actual max).
Definition ensure_reason (reason : bytes) : result ProtocolError unit :=
  ensure_payload "terminal reason" (zlen reason) MAX_TERMINAL_REASON_BYTES.

(** ** Cursors *)

Record StepCursor := MkCursor { next_step : Z; state_hash : StateHash; chain_hash : Z }.
#[global] Instance StepCursor_eq_dec : EqDecision StepCursor.
Proof. solve_decision. Defined.

Definition c_cursor : codec StepCursor :=
  c_iso (c_pair c_u64 (c_pair c_id c_id))
    (fun c => (next_step c, (state_hash c, chain_hash c))) (fun p => MkCursor p.1 p.2.1 p.2.2)
    (fun c => match c with MkCursor _ _ _ => eq_refl end).

(** [ExecutionVersion::next]. *)
Definition version_next (v : Z) : option Z := checked_add v 1.

Section Evidence.
Context `{Crypto}.

(** [StepCursor::genesis]. *)
Definition genesis {E} (shared : bytes) : result E StepCursor :=
  let? h := of_shared shared in Ok (MkCursor 0 h CHAIN_START).

Definition advance (c : StepCursor) (k : StepCommitment) : result ProtocolError StepCursor :=
  let? next := ok_or (checked_add (next_step c) 1) AgreedStepExhausted in
  err_if (negb (c_step k =? next_step c)) (StepCoordinateMismatch (next_step c) (c_step k)) ;;?
  err_if (negb (c_pre_state k =? state_hash c))
    (AgreedPreStateMismatch (state_hash c) (c_pre_state k)) ;;?
  err_if (negb (c_link k =? chain_hash c)) AgreedChainMismatch ;;?
  Ok (MkCursor next (c_post_state k) (link_hash k)).

(** ** The activation binding *)

Record ExecutionBinding := MkBinding { activation : Activation }.

Definition binding_new (a : Activation) : result ProtocolError ExecutionBinding :=
  map_err InvalidActivation (activation_validate a) ;;? Ok (MkBinding a).

Definition session_id (b : ExecutionBinding) : SessionHash := act_session_hash (activation b).
Definition binding_tickets (b : ExecutionBinding) : list Ticket := act_tickets (activation b).
Definition binding_initial (b : ExecutionBinding) : StateHash :=
  initial_state (act_offer_data (activation b)).

Definition ticket_key (t : Ticket) : option (PeerId * Z) :=
  match action (ticket_data t) with
  | Active_ k _ _ _ => Some (ticket_signer t, k)
  | Withdrawn => None
  end.

Definition participant_keys (b : ExecutionBinding) : result ProtocolError (list (PeerId * Z)) :=
  let keys := sort_key fst (omap ticket_key (binding_tickets b)) in
  err_if (negb (zlen keys =? zlen (binding_tickets b))) BindingMismatch ;;?
  Ok keys.

Definition participant_bls_keys (b : ExecutionBinding) : result ProtocolError (list Z) :=
  rmap (map snd) (participant_keys b).

Definition participant_key (b : ExecutionBinding) (p : PeerId) : result ProtocolError Z :=
  let? t := ok_or (find_by (fun t => ticket_signer t =? p) (binding_tickets b))
              (UnknownParticipant p) in
  match action (ticket_data t) with
  | Active_ k _ _ _ => Ok k
  | Withdrawn => Err BindingMismatch
  end.

Definition participants (b : ExecutionBinding) : list PeerId := signers_of (prepared (activation b)).
Definition is_participant (b : ExecutionBinding) (p : PeerId) : bool :=
  existsb (Z.eqb p) (participants b).
Definition binding_ensemble (b : ExecutionBinding) : result EnsembleError Ensemble :=
  from_peers (participants b).

(** ** Abort occurrences *)

Definition ABORT_OCCURRENCE_DOMAIN : bytes := domain24 "arena0/abort-occurrence".
Definition ABORT_OCCURRENCE_VERSION : Z := 1.

Inductive AbortKind := KAbort | KFail.

Record AbortOccurrence := MkAbort {
  ab_domain : bytes;
  ab_version : Z;
  ab_session_id : SessionHash;
  ab_sender : PeerId;
  ab_kind : AbortKind;
  ab_code : Z;
  ab_reason : bytes;
  ab_coordinate : StepCursor;
  ab_signature : Z }.

#[global] Instance AbortKind_eq_dec : EqDecision AbortKind.
Proof. solve_decision. Defined.
#[global] Instance AbortOccurrence_eq_dec : EqDecision AbortOccurrence.
Proof. solve_decision. Defined.

Definition abort_tag (k : AbortKind) : Z := match k with KAbort => 0 | KFail => 1 end.
Definition abort_from_tag (tag : Z) : result io_kind AbortKind :=
  if tag =? 0 then Ok KAbort else if tag =? 1 then Ok KFail else Err InvalidData.
Definition c_abort_kind : codec AbortKind := c_refine c_u8 abort_tag abort_from_tag.

Definition validate_shape (o : AbortOccurrence) : result ProtocolError unit :=
  err_if (negb (bool_decide (ab_domain o = ABORT_OCCURRENCE_DOMAIN))
          || negb (ab_version o =? ABORT_OCCURRENCE_VERSION)
          || (ab_session_id o =? 0) || (ab_sender o =? 0)) InvalidAbortOccurrence ;;?
  err_if ((next_step (ab_coordinate o) =? 0) && negb (chain_hash (ab_coordinate o) =? CHAIN_START))
    InvalidAbortCoordinate ;;?
  ensure_payload "terminal reason" (zlen (ab_reason o)) MAX_TERMINAL_REASON_BYTES.

Definition validate_for_session (o : AbortOccurrence) (session : SessionHash)
    : result ProtocolError unit :=
  validate_shape o ;;?
  err_if (negb (ab_session_id o =? session)) InvalidAbortCoordinate ;;?
  err_if ((next_step (ab_coordinate o) =? 0) && negb (chain_hash (ab_coordinate o) =? CHAIN_START))
    InvalidAbortCoordinate.

Definition abort_new (session : SessionHash) (sender : PeerId) (kind : AbortKind) (code : Z)
    (reason : bytes) (coordinate : StepCursor) (sig : Z) : result ProtocolError AbortOccurrence :=
  let o := MkAbort ABORT_OCCURRENCE_DOMAIN ABORT_OCCURRENCE_VERSION session sender kind code
             reason coordinate sig in
  validate_shape o ;;? Ok o.
Definition abort_unsigned (session : SessionHash) (sender : PeerId) (kind : AbortKind) (code : Z)
    (reason : bytes) (coordinate : StepCursor) : result ProtocolError AbortOccurrence :=
  abort_new session sender kind code reason coordinate 0.
Definition with_signature (o : AbortOccurrence) (sig : Z) : result ProtocolError AbortOccurrence :=
  let o := MkAbort (ab_domain o) (ab_version o) (ab_session_id o) (ab_sender o) (ab_kind o)
             (ab_code o) (ab_reason o) (ab_coordinate o) sig in
  validate_shape o ;;? Ok o.

(** The signed fields, in the order of [AbortSigningPayload]; [reason_codec] is
    the derived [str] codec there and the bounded one in the occurrence. *)
Definition abort_fields : Type :=
  (bytes * (Z * (Z * (Z * (AbortKind * (Z * (bytes * StepCursor)))))))%type.
Definition c_abort_fields (reason_codec : codec bytes) : codec abort_fields :=
  c_pair (c_raw 24) (c_pair c_u16 (c_pair c_id (c_pair c_id (c_pair c_abort_kind (c_pair c_u32
    (c_pair reason_codec c_cursor)))))).
Definition abort_payload (o : AbortOccurrence) : abort_fields :=
  (ab_domain o, (ab_version o, (ab_session_id o, (ab_sender o, (ab_kind o, (ab_code o,
    (ab_reason o, ab_coordinate o))))))).
Definition abort_mk (p : abort_fields * Z) : AbortOccurrence :=
  let '((d, (v, (s, (f, (k, (c, (r, n)))))), sig)) := p in MkAbort d v s f k c r n sig.

Definition c_abort_raw : codec AbortOccurrence :=
  c_iso (c_pair (c_abort_fields (c_string MAX_TERMINAL_REASON_BYTES)) (c_arr 64))
    (fun o => (abort_payload o, ab_signature o)) abort_mk
    (fun o => match o with MkAbort _ _ _ _ _ _ _ _ _ => eq_refl end).
(** The reader validates the shape of what it read. *)
Definition c_abort : codec AbortOccurrence :=
  c_refine c_abort_raw id (fun o => validate_shape o ;;? Ok o).

Definition abort_signing_bytes (o : AbortOccurrence) : result ProtocolError bytes :=
  map_err Serialization (to_vec (c_abort_fields (c_string u32_max)) (abort_payload o)).
Definition verify_signature (o : AbortOccurrence) : result ProtocolError bool :=
  let? bs := abort_signing_bytes o in
  map_err InvalidAbortSignature (ed25519_verify (ab_sender o) bs (ab_signature o)).

(** ** Terminal outcomes *)

Record TerminalOutcome := MkOutcome { borsh_bytes : bytes; json_bytes : bytes }.
#[global] Instance TerminalOutcome_eq_dec : EqDecision TerminalOutcome.
Proof. solve_decision. Defined.

Definition validate_borsh (b : bytes) : result ProtocolError unit :=
  err_if ((MAX_TERMINAL_OUTCOME_BYTES <? zlen b) || (MAX_CALL_PAYLOAD_BYTES <? zlen b))
    (PayloadTooLarge "Borsh outcome" (zlen b) (Z.min MAX_TERMINAL_OUTCOME_BYTES MAX_CALL_PAYLOAD_BYTES)).
Definition validate_json (b : bytes) : result ProtocolError unit :=
  err_if ((MAX_TERMINAL_OUTCOME_BYTES <? zlen b) || (MAX_CALL_PAYLOAD_BYTES <? zlen b))
    (PayloadTooLarge "JSON outcome" (zlen b) (Z.min MAX_TERMINAL_OUTCOME_BYTES MAX_CALL_PAYLOAD_BYTES)) ;;?
  rmap (fun _ => tt) (map_err InvalidOutcomeProjection (json_try_new b)).
Definition outcome_validate (o : TerminalOutcome) : result ProtocolError unit :=
  validate_borsh (borsh_bytes o) ;;? validate_json (json_bytes o).
Definition outcome_new (borsh json : bytes) : result ProtocolError TerminalOutcome :=
  validate_borsh borsh ;;? validate_json json ;;? Ok (MkOutcome borsh json).
Definition c_outcome : codec TerminalOutcome :=
  c_refine (c_pair (c_bytes MAX_TERMINAL_OUTCOME_BYTES) (c_bytes MAX_TERMINAL_OUTCOME_BYTES))
    (fun o => (borsh_bytes o, json_bytes o)) (fun p => outcome_new p.1 p.2).

(** ** Status *)

Inductive StopCause :=
| Authenticated (o : AbortOccurrence)
| SharedStop (kind : AbortKind) (commitment : StepCommitment) (reason : bytes).

Inductive ExecutionStatus :=
| Activating
| Active
| Certified (outcome : TerminalOutcome)
| Completed (outcome : TerminalOutcome) (receipt_id : ReceiptId)
| Stopped (cause : StopCause)
| StoppedPublished (cause : StopCause) (receipt_id : ReceiptId).

#[global] Instance StopCause_eq_dec : EqDecision StopCause.
Proof. solve_decision. Defined.
#[global] Instance ExecutionStatus_eq_dec : EqDecision ExecutionStatus.
Proof. solve_decision. Defined.

Definition cause_reason (c : StopCause) : bytes :=
  match c with Authenticated o => ab_reason o | SharedStop _ _ r => r end.
Definition cause_step (c : StopCause) : Z :=
  match c with Authenticated o => next_step (ab_coordinate o) | SharedStop _ k _ => c_step k end.
Definition cause_kind (c : StopCause) : AbortKind :=
  match c with Authenticated o => ab_kind o | SharedStop k _ _ => k end.

Definition cause_validate (c : StopCause) : result ProtocolError unit :=
  match c with
  | Authenticated o => validate_shape o
  | SharedStop _ k reason =>
      err_if (negb (has_step_domain k)) InvalidTerminalStatus ;;? ensure_reason reason
  end.

(** [StopCause::validate_binding]; the [||] chain stops at its first true. *)
Definition cause_validate_binding (c : StopCause) (b : ExecutionBinding) (agreed : StepCursor)
    : result ProtocolError unit :=
  match c with
  | Authenticated o =>
      if negb (ab_session_id o =? session_id b)
         || negb (bool_decide (ab_coordinate o = agreed))
         || negb (is_participant b (ab_sender o))
      then Err InvalidTerminalStatus else
      let? ok := map_err (fun _ => InvalidTerminalStatus) (verify_signature o) in
      err_if (negb ok) InvalidTerminalStatus
  | SharedStop _ k _ =>
      err_if (negb (is_bound_to k (session_id b))
              || negb (opt_eqb (checked_add (c_step k) 1) (Some (next_step agreed)))
              || negb (c_post_state k =? state_hash agreed)
              || negb (link_hash k =? chain_hash agreed)) InvalidTerminalStatus
  end.

Inductive ReceiptWork := NotTerminal | Assemble | Published.

Definition receipt_work (s : ExecutionStatus) : ReceiptWork :=
  match s with
  | Activating | Active => NotTerminal
  | Certified _ | Stopped _ => Assemble
  | Completed _ _ | StoppedPublished _ _ => Published
  end.

Definition status_lifecycle (s : ExecutionStatus) : ExecLifecycle :=
  match s with
  | Activating => LActivating
  | Active | Certified _ => LActive
  | Completed _ _ => LCompleted
  | Stopped c | StoppedPublished c _ =>
      match cause_kind c with KFail => LFailed | KAbort => LAborted end
  end.

Definition is_runnable (s : ExecutionStatus) : bool := match s with Active => true | _ => false end.
Definition is_terminal (s : ExecutionStatus) : bool :=
  match s with Activating | Active => false | _ => true end.
Definition terminal_cause (s : ExecutionStatus) : option StopCause :=
  match s with Stopped c | StoppedPublished c _ => Some c | _ => None end.

(** [ExecutionStatus::stopped]. *)
Definition stopped (o : AbortOccurrence) : result ProtocolError ExecutionStatus :=
  validate_shape o ;;? Ok (Stopped (Authenticated o)).

Definition from_shared_entry (e : TraceEntry) (k : StepCommitment)
    : result ProtocolError (option ExecutionStatus) :=
  match terminal e with
  | None => Ok None
  | Some t =>
      match abort_reason t with
      | None => Ok None
      | Some reason =>
          ensure_reason reason ;;?
          match t with
          | TermAbort _ => Ok (Some (Stopped (SharedStop KAbort k reason)))
          | TermFail _ => Ok (Some (Stopped (SharedStop KFail k reason)))
          | TermEnd _ => Ok None
          end
      end
  end.

(** [ExecutionStatus::validate_binding]. *)
Definition status_validate_binding (s : ExecutionStatus) (b : ExecutionBinding) (agreed : StepCursor)
    : result ProtocolError unit :=
  match s with
  | Activating | Active => Ok tt
  | Certified outcome =>
      outcome_validate outcome ;;?
      err_if (next_step agreed =? 0) InvalidTerminalStatus
  | Completed outcome receipt_id =>
      outcome_validate outcome ;;?
      err_if (next_step agreed =? 0) InvalidTerminalStatus ;;?
      err_if (receipt_id =? 0) InvalidTerminalStatus
  | Stopped cause =>
      cause_validate cause ;;? cause_validate_binding cause b agreed
  | StoppedPublished cause receipt_id =>
      cause_validate cause ;;? cause_validate_binding cause b agreed ;;?
      err_if (receipt_id =? 0) InvalidTerminalStatus
  end.

Definition from_proposal_entry (e : TraceEntry) (k : StepCommitment) (o : option TerminalOutcome)
    : result ProtocolError ExecutionStatus :=
  match terminal e with
  | Some (TermEnd effect_outcome) =>
      let? outcome := ok_or o TerminalOutcomeRequired in
      err_if (negb (bool_decide (borsh_bytes outcome = effect_outcome))) OutcomeProjectionMismatch ;;?
      Ok (Certified outcome)
  | Some (TermAbort _) | Some (TermFail _) =>
      err_if (bool_decide (is_Some o)) TerminalOutcomeMismatch ;;?
      let? s := from_shared_entry e k in
      ok_or s InvalidTerminalStatus
  | None =>
      err_if (bool_decide (is_Some o)) TerminalOutcomeMismatch ;;?
      Ok Active
  end.

(** ** Callouts, direct lanes, end phases *)

Record OpenCallout := MkCallout { callout_id_ : Z; callout_index : Z; context : bytes }.
Record CalloutRequest := MkRequest { req_index : Z; req_context : bytes }.

(** [callout_id]: the first eight digest bytes, little-endian. *)
Definition callout_id (execution_id : ExecId) (event_position : Z) : Z :=
  le_val (take 8 (be_bytes 32 (blake3 (bytes_of_string "arena0/pending/v3"
                                        ++ be_bytes 32 execution_id ++ le_bytes 8 event_position)))).

Record DirectEntry := MkDirectEntry { d_seq : Z; d_msg : bytes; d_range : option RangeAttachment }.
Record DirectLane := MkLane { last_queued : Z; queue : list DirectEntry; last_applied : Z }.
Definition lane_default : DirectLane := MkLane 0 [] 0.
Inductive DirectArrival := Duplicate | Next | Gap.

Inductive EndPhase :=
| Open
| Ending (unconfirmed : gset PeerId)
| Ended (unconfirmed : gset PeerId).
Inductive EndMatch := Same | Different | NotTerminalEvidence.

Definition unconfirmed_of (p : EndPhase) : option (gset PeerId) :=
  match p with Open => None | Ending u | Ended u => Some u end.

#[global] Instance OpenCallout_eq_dec : EqDecision OpenCallout.
Proof. solve_decision. Defined.

Record ParticipantStepSignature := MkPSig { participant : PeerId; signature : StepSig }.
#[global] Instance ParticipantStepSignature_eq_dec : EqDecision ParticipantStepSignature.
Proof. solve_decision. Defined.

(** ** Lemmas: the validated binding *)

Definition binding_ok (b : ExecutionBinding) : Prop := activation_validate (activation b) = Ok tt.

Lemma binding_new_Ok a b : binding_new a = Ok b -> activation b = a /\ binding_ok b.
Proof.
  unfold binding_new, binding_ok. intros Hb. inv_ok. simpl.
  by match goal with u : unit |- _ => destruct u end.
Qed.

Lemma binding_facts b :
  binding_ok b ->
  exists d, activation_facts (p_offer (prepared (activation b))) (binding_tickets b) d.
Proof.
  unfold binding_ok, activation_validate, check_structure, rmap. intros Hb. inv_ok.
  eexists. by apply activation_data_for_Ok.
Qed.

Lemma binding_size b : binding_ok b -> 2 <= zlen (binding_tickets b) <= MAX_PARTICIPANTS.
Proof.
  intros (d & Hf)%binding_facts. destruct Hf. rewrite af_count.
  unfold offer_validate, offer_data_validate, check_target_size in af_offer. inv_ok. lia.
Qed.

Lemma binding_active b :
  binding_ok b -> Forall (fun t => ticket_active t = true) (binding_tickets b).
Proof. intros (d & Hf)%binding_facts. apply Hf. Qed.

Lemma participants_NoDup b : binding_ok b -> NoDup (participants b).
Proof. intros (d & Hf)%binding_facts. apply Hf. Qed.

Lemma zlen_participants b : zlen (participants b) = zlen (binding_tickets b).
Proof. apply zlen_map. Qed.

Lemma is_participant_elem b p : is_participant b p = true <-> p ∈ participants b.
Proof. apply existsb_eqb. Qed.

Lemma ticket_key_fst ts :
  Forall (fun t => ticket_active t = true) ts -> fst <$> omap ticket_key ts = map ticket_signer ts.
Proof.
  induction 1 as [|t ts Ht Hts IH]; [done|].
  assert (exists k, ticket_key t = Some (ticket_signer t, k)) as [k Hk].
  { unfold ticket_active, ticket_key in *. destruct (action (ticket_data t)); [eauto|done]. }
  change (omap ticket_key (t :: ts)) with
    (match ticket_key t with Some y => y :: omap ticket_key ts | None => omap ticket_key ts end).
  rewrite Hk. rewrite fmap_cons, IH. done.
Qed.

Lemma ticket_key_Some t p k :
  ticket_key t = Some (p, k) <-> ticket_signer t = p /\ exists b i v, action (ticket_data t) = Active_ k b i v.
Proof.
  unfold ticket_key. destruct (action (ticket_data t)) as [k' b i v|]; split.
  - intros [= <- <-]. eauto.
  - by intros (<- & ? & ? & ? & [= <- <- <- <-]).
  - done.
  - by intros (_ & ? & ? & ? & ?).
Qed.

(** The participants' keys in participant order. *)
Lemma participant_keys_Ok b :
  binding_ok b ->
  exists ks, participant_keys b = Ok ks /\ StronglySorted (key_lt fst) ks /\
    fst <$> ks ≡ₚ participants b /\ zlen ks = zlen (binding_tickets b) /\
    forall p k, (p, k) ∈ ks <-> participant_key b p = Ok k.
Proof.
  intros Hb. pose proof (binding_active b Hb) as Hact.
  pose proof (ticket_key_fst _ Hact) as Hfst. pose proof (participants_NoDup b Hb) as Hnd.
  set (ks := sort_key fst (omap ticket_key (binding_tickets b))).
  assert (ks ≡ₚ omap ticket_key (binding_tickets b)) as Hp by apply sort_key_Permutation.
  assert (zlen ks = zlen (binding_tickets b)) as Hlen.
  { rewrite (zlen_Permutation _ _ Hp). rewrite <- (zlen_fmap fst), <- (zlen_participants b).
    by rewrite Hfst. }
  exists ks. split; [|split_and!].
  - unfold participant_keys. fold ks. by rewrite Hlen, Z.eqb_refl.
  - apply sort_key_strict. by rewrite Hfst.
  - by rewrite Hp, Hfst.
  - done.
  - intros p k. rewrite Hp, list_elem_of_omap. unfold participant_key. split.
    + intros (t & Ht & (<- & kb & i & v & Ha)%ticket_key_Some).
      assert (find_by (fun t' => ticket_signer t' =? ticket_signer t) (binding_tickets b) = Some t)
        as ->; [|by simpl; rewrite Ha].
      apply list_elem_of_split in Ht as (l1 & l2 & Heq).
      unfold participants, signers_of in Hnd. fold (act_tickets (activation b)) in Hnd.
      fold (binding_tickets b) in Hnd. rewrite Heq in Hnd |- *. clear -Hnd.
      unfold find_by. induction l1 as [|t' l1 IH]; simpl in *.
      * by rewrite Z.eqb_refl.
      * apply NoDup_cons in Hnd as [Hnin Hnd].
        destruct (Z.eqb_spec (ticket_signer t') (ticket_signer t)) as [He|]; [|by apply IH].
        exfalso. apply Hnin. rewrite He. apply list_elem_of_fmap_2. set_solver.
    + intros Hk. inv_ok. match goal with Hf : find_by _ _ = Some ?t |- _ =>
        apply find_some in Hf as [Hin He%Z.eqb_eq]; exists t end.
      split; [by apply list_elem_of_In|]. apply ticket_key_Some. split; [done|].
      destruct (action _); inv_ok. eauto.
Qed.

Lemma participant_key_member b p k : participant_key b p = Ok k -> is_participant b p = true.
Proof.
  unfold participant_key. intros Hk. inv_ok.
  match goal with Hf : find_by _ _ = Some ?t |- _ => apply find_some in Hf as [Hin <-%Z.eqb_eq] end.
  apply is_participant_elem. apply list_elem_of_fmap_2. by apply list_elem_of_In.
Qed.

Lemma participant_bls_keys_Ok b :
  binding_ok b ->
  exists ks, participant_keys b = Ok ks /\ participant_bls_keys b = Ok (map snd ks) /\
    zlen ks = zlen (binding_tickets b).
Proof.
  intros (ks & Hk & _ & _ & Hl & _)%participant_keys_Ok. exists ks.
  unfold participant_bls_keys. by rewrite Hk.
Qed.

(** A binding with an ensemble of its own. *)
Lemma binding_ensemble_Ok b : binding_ok b -> exists e, binding_ensemble b = Ok e.
Proof.
  intros Hb. pose proof (binding_size b Hb). pose proof (participants_NoDup b Hb) as Hnd.
  exists (MkEnsemble (dedup (sort_key id (participants b)))). apply from_peers_Ok. split; [done|].
  simpl. rewrite dedup_strict by (apply sort_key_strict; by rewrite list_fmap_id).
  rewrite (zlen_Permutation _ _ (sort_key_Permutation id (participants b))), zlen_participants. lia.
Qed.

(** ** Lemmas: cursors *)

Lemma advance_Ok c k c' :
  advance c k = Ok c' <->
  c_step k = next_step c /\ c_pre_state k = state_hash c /\ c_link k = chain_hash c /\
  next_step c + 1 <= u64_max /\
  c' = MkCursor (next_step c + 1) (c_post_state k) (link_hash k).
Proof.
  unfold advance. split.
  - intros Ha. inv_ok. repeat match goal with Hz : (_ =? _) = true |- _ => apply Z.eqb_eq in Hz end.
    split_and!; (done || lia).
  - intros (-> & -> & -> & Hle & ->). unfold checked_add.
    rewrite (proj2 (Z.leb_le _ _)) by done. cbn [ok_or rbind].
    by rewrite !Z.eqb_refl.
Qed.
End Evidence.
