(* ===== verification/Validation.v ===== *)
(** * Step validation and certificates
    (protocol/src/execution/: validation.rs, the [StepCertificate] part of
    certificate.rs, [SharedProposal] of state.rs)

    A staged proposal, the checks a proposal, a signature, an aggregate
    agreement and a certified trace must pass, and the construction of the
    N-of-N certificate. *)

From S2P Require Import Prelude Borsh Crypto Session Trace Negotiation Evidence.

Unset Program Cases.

Record SharedProposal := MkProposal {
  entry : TraceEntry;
  pr_shared_state : bytes;
  pr_local_state : bytes;
  pr_outgoing : list bytes;
  pr_effects : list (Z * Effect);
  pr_event_position : Z;
  pr_status : ExecutionStatus;
  pr_callout : option OpenCallout;
  signatures : list ParticipantStepSignature }.

Record StepCertificate := MkCertificate {
  commitment : StepCommitment;
  cert_agreement : AggregateAttestation }.

#[global] Instance StepCertificate_eq_dec : EqDecision StepCertificate.
Proof. solve_decision. Defined.

Definition set_signatures (p : SharedProposal) (s : list ParticipantStepSignature) : SharedProposal :=
  MkProposal (entry p) (pr_shared_state p) (pr_local_state p) (pr_outgoing p) (pr_effects p)
    (pr_event_position p) (pr_status p) (pr_callout p) s.
Definition set_entry (p : SharedProposal) (e : TraceEntry) : SharedProposal :=
  MkProposal e (pr_shared_state p) (pr_local_state p) (pr_outgoing p) (pr_effects p)
    (pr_event_position p) (pr_status p) (pr_callout p) (signatures p).

Definition is_active (s : ExecutionStatus) : bool := match s with Active => true | _ => false end.
Definition is_some {A} (o : option A) : bool := match o with Some _ => true | None => false end.

(** ** Outgoing queue and effects *)

Definition validate_outgoing (outgoing : list bytes) : result ProtocolError unit :=
  err_if (MAX_OUTGOING_MESSAGES <? zlen outgoing)
    (OutgoingQueueFull (zlen outgoing) MAX_OUTGOING_MESSAGES) ;;?
  try_for_each (fun m => ensure_payload "outgoing message" (zlen m) MAX_EFFECT_PAYLOAD_BYTES) outgoing.

Definition validate_effect_payload (e : Effect) : result ProtocolError unit :=
  match e with
  | SessionEnd outcome => ensure_payload "terminal outcome" (zlen outcome) MAX_TERMINAL_OUTCOME_BYTES
  | SessionAbort reason | Fail reason =>
      ensure_payload "terminal reason" (zlen reason) MAX_TERMINAL_REASON_BYTES
  | Broadcast data => ensure_payload "broadcast payload" (zlen data) MAX_EFFECT_PAYLOAD_BYTES
  | SetTimer _ timer =>
      ensure_payload "timer type name" (zlen (type_name timer)) MAX_TERMINAL_REASON_BYTES ;;?
      ensure_payload "timer data" (zlen (timer_data timer)) MAX_TIMER_PAYLOAD_BYTES
  | SendDirect _ msg range =>
      ensure_payload "direct message" (zlen msg) MAX_DIRECT_CONTROL_BYTES ;;?
      match range with
      | Some r =>
          err_if ((range_end r <=? range_start r)
                  || (MAX_DIRECT_RANGE_BYTES <? range_end r - range_start r))
            (InvalidCertificate (Msg "direct range is empty or over its bound"))
      | None => Ok tt
      end
  end.

Definition add_effect_len (total : Z) (e : Effect) : result ProtocolError Z :=
  let? len := map_err Serialization (object_length c_effect e) in
  ok_or (checked_add total len) (EncodedTooLarge "effects" u64_max MAX_EFFECT_BYTES).

(** One turn of the loop of [check_effect_budget]. *)
Definition budget_step (acc : Z * Z) (e : Effect) : result ProtocolError (Z * Z) :=
  let '(count, total) := acc in
  err_if (MAX_EFFECTS <? count + 1) (CollectionTooLarge "effects" (count + 1) MAX_EFFECTS) ;;?
  validate_effect_payload e ;;?
  let? total := add_effect_len total e in
  Ok (count + 1, total).

Definition check_effect_budget (effects : list Effect) : result ProtocolError unit :=
  let? (_, total) := try_fold budget_step (0, 4) effects in
  ensure_encoded "effects" total MAX_EFFECT_BYTES.

Definition validate_effects (effects : list (Z * Effect)) : result ProtocolError unit :=
  err_if (existsb (fun '(ordinal, _) => MAX_EFFECTS <=? ordinal) effects)
    (InvalidCertificate (Msg "effect ordinal is outside the dispatch range")) ;;?
  err_if (existsb (fun p => p.2.1 <=? p.1.1) (windows2 effects))
    (InvalidCertificate (Msg "effect ordinals are not strictly increasing")) ;;?
  check_effect_budget (map snd effects).

Definition single_lifecycle_effect (effects : list Effect) : result ProtocolError (option Effect) :=
  match filter (fun e => is_lifecycle e = true) effects with
  | [] => Ok None
  | [e] => Ok (Some e)
  | _ :: _ :: _ => Err MultipleTerminalEffects
  end.

(** ** Trace entries *)

Definition validate_terminal (t : StepTerminal) : result ProtocolError unit :=
  match t with
  | TermEnd outcome => ensure_payload "terminal outcome" (zlen outcome) MAX_TERMINAL_OUTCOME_BYTES
  | TermAbort reason | TermFail reason =>
      ensure_payload "terminal reason" (zlen reason) MAX_TERMINAL_REASON_BYTES
  end.

Definition validate_trace_entry (e : TraceEntry) : result ProtocolError unit :=
  err_if (negb (trace_version e =? TRACE_FORMAT_VERSION))
    (TraceVersionMismatch (trace_version e) TRACE_FORMAT_VERSION) ;;?
  let? encoded := map_err Serialization (to_vec c_entry e) in
  map_err (fun err => match err with
                      | EncodedTooLarge _ actual max => TraceEntryTooLarge actual max
                      | other => other
                      end) (ensure_encoded "trace entry" (zlen encoded) MAX_TRACE_ENTRY_BYTES) ;;?
  match event e with
  | StepSessionStarted _ => Ok tt
  | StepMessage _ data => ensure_payload "message payload" (zlen data) MAX_EFFECT_PAYLOAD_BYTES
  end ;;?
  match terminal e with
  | Some t => validate_terminal t
  | None => Ok tt
  end.

Definition terminal_effect_count (e : TraceEntry) : Z := if is_some (terminal e) then 1 else 0.

Section Validation.
Context `{Crypto}.

Definition validate_shared_entry (b : ExecutionBinding) (expected_step : Z) (e : TraceEntry)
    : result ProtocolError unit :=
  validate_trace_entry e ;;?
  err_if (negb (step e =? expected_step)) (StepCoordinateMismatch expected_step (step e)) ;;?
  match event e with
  | StepSessionStarted ensemble =>
      err_if (negb (expected_step =? 0)) SessionStartPosition ;;?
      let? expected := map_err (fun err => InvalidCertificate (OfEnsemble err)) (binding_ensemble b) in
      err_if (negb (bool_decide (ensemble = expected))) SessionStartMismatch
  | StepMessage from _ =>
      err_if (expected_step =? 0) MissingSessionStart ;;?
      rmap (fun _ => tt) (participant_key b from)
  end.

(** ** Signatures and agreements *)

Definition verify_step_signature (key : Z) (k : StepCommitment) (s : ParticipantStepSignature)
    : result ProtocolError unit :=
  let invalid := InvalidStepSignature (participant s) (c_step k) in
  err_if (negb (sig_step (signature s) =? c_step k)) invalid ;;?
  let? valid := map_err (fun e => InvalidCertificate (OfCrypto e))
                  (bls_verify key (signing_bytes k) (sig (signature s))) in
  err_if (negb valid) invalid.

Definition verify_full_agreement (a : AggregateAttestation) (k : StepCommitment) (keys : list Z)
    : result ProtocolError unit :=
  err_if (negb (signers_count (signers a) =? length keys)%nat || negb (is_full (signers a) (length keys)))
    (IncompleteProof (Z.of_nat (signers_count (signers a))) (zlen keys)) ;;?
  map_err (fun e => InvalidCertificate (OfAttestation e))
    (verify_signatures a (c_step k) (signing_bytes k) keys).

Definition validate_step_signature_order (sigs : list ParticipantStepSignature)
    : result ProtocolError unit :=
  try_for_each (fun '(p0, p1) =>
    if participant p1 <=? participant p0 then
      if participant p0 =? participant p1 then
        Err (if bool_decide (signature p0 = signature p1)
             then DuplicateStepSignature (participant p0)
             else ConflictingStepSignature (participant p0))
      else Err (InvalidCertificate (Msg "pending step signatures are not canonical"))
    else Ok tt) (windows2 sigs).

Definition validate_proposal_status (e : TraceEntry) (k : StepCommitment) (s : ExecutionStatus)
    : result ProtocolError unit :=
  match terminal e, s with
  | None, Active => Ok tt
  | None, _ => Err InvalidTerminalStatus
  | Some (TermAbort reason), Stopped (SharedStop KAbort k' reason') =>
      err_if (negb (bool_decide (k' = k) && bool_decide (reason' = reason))) InvalidTerminalStatus
  | Some (TermFail reason), Stopped (SharedStop KFail k' reason') =>
      err_if (negb (bool_decide (k' = k) && bool_decide (reason' = reason))) InvalidTerminalStatus
  | Some (TermEnd outcome), Certified actual =>
      outcome_validate actual ;;?
      err_if (negb (bool_decide (borsh_bytes actual = outcome))) TerminalOutcomeMismatch
  | Some (TermEnd _), _ => Err TerminalOutcomeRequired
  | Some (TermAbort _ | TermFail _), _ => Err InvalidTerminalStatus
  end.

(** One retained signature against the sorted key list. *)
Definition check_retained_signature (keys : list (PeerId * Z)) (k : StepCommitment)
    (s : ParticipantStepSignature) : result ProtocolError unit :=
  let? key := match binary_search_by_key fst keys (participant s) with
              | Some i => let? p := expect (keys !! i) in Ok (snd p)
              | None => Err (UnknownParticipant (participant s))
              end in
  verify_step_signature key k s.

(** [validate_proposal] up to its status checks: the staged result against the
    agreed cursor.  It yields the commitment the signatures must cover. *)
Definition validate_staged (b : ExecutionBinding) (agreed : StepCursor) (event_position : Z)
    (p : SharedProposal) : result ProtocolError StepCommitment :=
  validate_shared_entry b (next_step agreed) (entry p) ;;?
  err_if (negb (pr_event_position p =? event_position))
    (InvalidCertificate (Msg "pending proposal event position is not the expected event")) ;;?
  err_if (negb (bool_decide (agreement (entry p) = agreement_empty)))
    (InvalidCertificate (Msg "pending proposal carries an agreement")) ;;?
  err_if (negb (pre_state (entry p) =? state_hash agreed))
    (InvalidCertificate (Msg "pending proposal pre-state is not the agreed state")) ;;?
  let? expected := for_entry (session_id b) (entry p) (chain_hash agreed) in
  let? shared := of_shared (pr_shared_state p) in
  err_if (negb (c_post_state expected =? shared))
    (InvalidCertificate (Msg "pending proposal commitment is inconsistent")) ;;?
  let? advanced := advance agreed expected in
  let? lifecycle := single_lifecycle_effect (map snd (pr_effects p)) in
  err_if (negb (bool_decide (mbind from_effect lifecycle = terminal (entry p))))
    (InvalidCertificate (Msg "proposal effects and trace terminal do not match")) ;;?
  status_validate_binding (pr_status p) b advanced ;;?
  validate_proposal_status (entry p) expected (pr_status p) ;;?
  Ok expected.

(** ... and from there on: the signatures collected so far. *)
Definition validate_retained (b : ExecutionBinding) (expected : StepCommitment)
    (sigs : list ParticipantStepSignature) : result ProtocolError unit :=
  let? keys := participant_keys b in
  err_if (zlen keys <? zlen sigs)
    (CollectionTooLarge "step signatures" (zlen sigs) (zlen keys)) ;;?
  try_for_each (check_retained_signature keys expected) sigs ;;?
  validate_step_signature_order sigs.

Definition validate_proposal (b : ExecutionBinding) (agreed : StepCursor) (event_position : Z)
    (p : SharedProposal) : result ProtocolError unit :=
  let? expected := validate_staged b agreed event_position p in
  validate_retained b expected (signatures p).

(** ** Proposals *)

Definition proposal_new (e : TraceEntry) (shared local : bytes) (outgoing : list bytes)
    (effects : list (Z * Effect)) (event_position : Z) (status : ExecutionStatus)
    (callout : option OpenCallout) (sigs : list ParticipantStepSignature)
    : result ProtocolError SharedProposal :=
  err_if (MAX_EFFECTS <? zlen effects) (CollectionTooLarge "effects" (zlen effects) MAX_EFFECTS) ;;?
  validate_outgoing outgoing ;;?
  err_if (negb (is_active status) && is_some callout) InvalidCalloutState ;;?
  Ok (MkProposal e shared local outgoing effects event_position status callout sigs).

Definition add_signature (b : ExecutionBinding) (k : StepCommitment) (s : ParticipantStepSignature)
    (p : SharedProposal) : result ProtocolError SharedProposal :=
  match find_by (fun x => participant x =? participant s) (signatures p) with
  | Some existing =>
      if bool_decide (signature existing = signature s)
      then Err (DuplicateStepSignature (participant s))
      else Err (ConflictingStepSignature (participant s))
  | None =>
      let? key := participant_key b (participant s) in
      verify_step_signature key k s ;;?
      err_if (MAX_PROOF_SIGNATURES <=? zlen (signatures p))
        (CollectionTooLarge "step signatures" (zlen (signatures p) + 1) MAX_PROOF_SIGNATURES) ;;?
      Ok (set_signatures p (sort_key participant (signatures p ++ [s])))
  end.

(** ** Certificates *)

(** [StepCertificate::verify]. *)
Definition certificate_verify (c : StepCertificate) (b : ExecutionBinding) : result ProtocolError unit :=
  err_if (negb (is_bound_to (commitment c) (session_id b)))
    (InvalidCertificate (Msg "step certificate binding mismatch")) ;;?
  let? keys := participant_bls_keys b in
  verify_full_agreement (cert_agreement c) (commitment c) keys.

(** The loop of [from_signatures]: one verified signature per participant, in
    participant order, and the bit of its index. *)
Fixpoint collect_signatures (k : StepCommitment) (sigs : list ParticipantStepSignature)
    (expected : Z) (index : nat) (keys : list (PeerId * Z)) (acc : SignerSet * list Z)
    : result ProtocolError (SignerSet * list Z) :=
  match keys with
  | [] => Ok acc
  | (p, key) :: keys =>
      match find_by (fun s => participant s =? p) sigs with
      | None => Err (IncompleteProof (zlen sigs) expected)
      | Some s =>
          verify_step_signature key k s ;;?
          collect_signatures k sigs expected (S index) keys
            (signers_set acc.1 index, acc.2 ++ [sig (signature s)])
      end
  end.

Definition from_signatures (b : ExecutionBinding) (k : StepCommitment) (p : SharedProposal)
    : result ProtocolError StepCertificate :=
  let? keys := participant_keys b in
  err_if (negb (zlen (signatures p) =? zlen keys))
    (IncompleteProof (zlen (signatures p)) (zlen keys)) ;;?
  let? (signer_set, sigs) :=
    collect_signatures k (signatures p) (zlen keys) 0 keys (with_capacity (length keys), []) in
  let? a := map_err (fun e => InvalidCertificate (OfCrypto e))
              (agreement_from_signatures signer_set sigs) in
  verify_full_agreement a k (map snd keys) ;;?
  Ok (MkCertificate k a).

(** ** Certified traces *)

Fixpoint agreed_loop (b : ExecutionBinding) (keys : list Z) (cursor : StepCursor)
    (trace : list TraceEntry) : result ProtocolError StepCursor :=
  match trace with
  | [] => Ok cursor
  | e :: rest =>
      validate_shared_entry b (next_step cursor) e ;;?
      let? k := for_entry (session_id b) e (chain_hash cursor) in
      let? next := map_err (fun _ => ReceiptBodyMismatch) (advance cursor k) in
      verify_full_agreement (agreement e) k keys ;;?
      err_if ((0 <? zlen rest) && negb (terminal_effect_count e =? 0)) TerminalTraceMismatch ;;?
      agreed_loop b keys next rest
  end.

Definition validate_agreed_trace (b : ExecutionBinding) (trace : list TraceEntry)
    : result ProtocolError StepCursor :=
  let? keys := participant_bls_keys b in
  agreed_loop b keys (MkCursor 0 (binding_initial b) CHAIN_START) trace.
End Validation.

(** ** Lemmas: queues *)

Lemma ensure_payload_Ok kind actual max u :
  ensure_payload kind actual max = Ok u <-> actual <= max.
Proof. unfold ensure_payload. rewrite err_if_Ok. split; lia. Qed.

Lemma validate_outgoing_Ok out :
  validate_outgoing out = Ok tt <->
  zlen out <= MAX_OUTGOING_MESSAGES /\ Forall (fun m => zlen m <= MAX_EFFECT_PAYLOAD_BYTES) out.
Proof.
  unfold validate_outgoing. rewrite rbind_Ok. split.
  - intros ([] & Hn & Hf). inv_ok. apply try_for_each_Ok in Hf. split; [lia|].
    eapply Forall_impl; [done|]. intros m. apply ensure_payload_Ok.
  - intros [Hn Hf]. exists tt. rewrite err_if_Ok, try_for_each_Ok. split; [lia|].
    eapply Forall_impl; [done|]. intros m. apply ensure_payload_Ok.
Qed.

(** ** Lemmas: effect budgets *)

Lemma object_length_nonneg {A} (c : codec A) a n : object_length c a = Ok n -> 0 <= n.
Proof. unfold object_length. intros Hn. inv_ok. apply zlen_nonneg. Qed.

(** The canonical size of one effect, when it has one. *)
Definition effect_size (e : Effect) : Z :=
  match object_length c_effect e with Ok n => n | _ => 0 end.

Lemma effect_size_nonneg e : 0 <= effect_size e.
Proof.
  unfold effect_size. destruct (object_length c_effect e) eqn:He; [|lia..].
  by eapply object_length_nonneg.
Qed.

Fixpoint effects_size (l : list Effect) : Z :=
  match l with [] => 0 | e :: l => effect_size e + effects_size l end.

Definition effect_ok (e : Effect) : Prop :=
  validate_effect_payload e = Ok tt /\ object_length c_effect e = Ok (effect_size e).

Lemma effects_size_nonneg l : 0 <= effects_size l.
Proof. induction l; simpl; [lia|]. pose proof (effect_size_nonneg a). lia. Qed.

Lemma budget_step_Ok count total e acc :
  budget_step (count, total) e = Ok acc <->
  count + 1 <= MAX_EFFECTS /\ effect_ok e /\ total + effect_size e <= u64_max /\
  acc = (count + 1, total + effect_size e).
Proof.
  unfold budget_step, add_effect_len, effect_ok, effect_size. split.
  - intros Hs. inv_ok. repeat match goal with u : unit |- _ => destruct u end.
    match goal with Hl : object_length _ _ = Ok _ |- _ => rewrite Hl end.
    split_and!; try done; lia.
  - intros (Hc & [Hp Hl] & Ht & ->). rewrite (proj2 (Z.ltb_ge _ _)) by lia. cbn [err_if rbind].
    rewrite Hp, Hl. cbn [rbind map_err ok_or].
    unfold checked_add. by rewrite (proj2 (Z.leb_le _ _)) by lia.
Qed.

Lemma budget_fold_Ok l count total acc :
  0 <= count ->
  try_fold budget_step (count, total) l = Ok acc <->
  (l = [] \/ (count + zlen l <= MAX_EFFECTS /\ total + effects_size l <= u64_max)) /\
  Forall effect_ok l /\ acc = (count + zlen l, total + effects_size l).
Proof.
  revert count total; induction l as [|e l IH]; intros count total Hc; simpl.
  - rewrite zlen_nil, !Z.add_0_r. split.
    + intros [= <-]. auto.
    + by intros (_ & _ & ->).
  - rewrite rbind_Ok, zlen_cons, Forall_cons. pose proof (zlen_nonneg l).
    pose proof (effects_size_nonneg l). split.
    + intros (acc1 & (H1 & H2 & H3 & ->)%budget_step_Ok & Hr).
      apply IH in Hr as (Hr & Hf & ->); [|lia]. split_and!; auto.
      * right. destruct Hr as [->|]; [rewrite zlen_nil; simpl; lia|lia].
      * f_equal; lia.
    + intros ([Hn|[H1 H2]] & [He Hf] & ->); [done|].
      exists (count + 1, total + effect_size e). split.
      * apply budget_step_Ok. split_and!; try done; lia.
      * apply IH; [lia|]. split_and!; [right; lia|done|f_equal; lia].
Qed.

(** The budget of a dispatch: a count bound, payload bounds, an encoded size. *)
Lemma check_effect_budget_Ok l :
  check_effect_budget l = Ok tt <->
  zlen l <= MAX_EFFECTS /\ Forall effect_ok l /\ 4 + effects_size l <= MAX_EFFECT_BYTES.
Proof.
  assert (check_effect_budget l =
          let? (_, total) := try_fold budget_step (0, 4) l in
          ensure_encoded "effects" total MAX_EFFECT_BYTES) as -> by reflexivity.
  rewrite rbind_Ok. split.
  - intros ([c t] & (Hl & Hf & [= -> ->])%budget_fold_Ok & He); [|lia].
    unfold ensure_encoded in He. inv_ok. split_and!; [|done|lia].
    destruct Hl as [->|[? _]]; [rewrite zlen_nil; done|lia].
  - intros (Hn & Hf & Hs). exists (0 + zlen l, 4 + effects_size l). split.
    + apply budget_fold_Ok; [lia|]. split_and!; [|done|done]. right.
      unfold MAX_EFFECT_BYTES, u64_max in *. lia.
    + unfold ensure_encoded. by rewrite (proj2 (Z.ltb_ge _ _)) by lia.
Qed.

Lemma effects_size_sublist l k : l `sublist_of` k -> effects_size l <= effects_size k.
Proof.
  induction 1 as [|e l k _ IH|e l k _ IH]; simpl; [lia..|].
  pose proof (effect_size_nonneg e). lia.
Qed.

(** Dropping effects keeps a dispatch within its budget. *)
Lemma check_effect_budget_sublist l k :
  l `sublist_of` k -> check_effect_budget k = Ok tt -> check_effect_budget l = Ok tt.
Proof.
  intros Hs (Hn & Hf & Hz)%check_effect_budget_Ok. apply check_effect_budget_Ok.
  pose proof (sublist_length _ _ Hs). pose proof (effects_size_sublist _ _ Hs).
  split_and!; [unfold zlen in *; lia| |lia].
  rewrite Forall_forall in *. intros e He. apply Hf. by eapply elem_of_submseteq, sublist_submseteq.
Qed.

Lemma check_effect_budget_elem e l :
  e ∈ l -> check_effect_budget l = Ok tt -> check_effect_budget [e] = Ok tt.
Proof.
  intros He. apply check_effect_budget_sublist. apply list_elem_of_split in He as (l1 & l2 & ->).
  apply sublist_inserts_l, sublist_skip, sublist_nil_l.
Qed.

(** ** Lemmas: entries and commitments *)

Section ValidationFacts.
Context `{Crypto}.

Lemma for_entry_Ok {E} session e link k :
  for_entry (E:=E) session e link = Ok k <->
  exists h, entry_hash (E:=E) e = Ok h /\
    k = MkCommitment STEP_COMMIT_DOMAIN session (step e) h (pre_state e) (post_state e) link.
Proof.
  unfold for_entry. rewrite rbind_Ok. split.
  - intros (h & Hh & [= <-]). eauto.
  - intros (h & Hh & ->). eauto.
Qed.

(** The agreement is not part of the signed content. *)
Lemma entry_hash_with_agreement {E} e a :
  entry_hash (E:=E) (with_agreement e a) = entry_hash e.
Proof. done. Qed.
Lemma for_entry_with_agreement {E} session e a link :
  for_entry (E:=E) session (with_agreement e a) link = for_entry session e link.
Proof. done. Qed.

Lemma for_entry_bound {E} session e link k :
  for_entry (E:=E) session e link = Ok k ->
  is_bound_to k session = true /\ has_step_domain k = true /\ c_step k = step e /\
  c_pre_state k = pre_state e /\ c_post_state k = post_state e /\ c_link k = link.
Proof.
  intros (h & _ & ->)%for_entry_Ok. unfold is_bound_to, has_step_domain.
  cbn [c_domain c_session_id c_step c_pre_state c_post_state c_link].
  by rewrite bool_decide_eq_true_2, Z.eqb_refl by done.
Qed.

(** What an accepted staged result establishes. *)
Record staged_facts (b : ExecutionBinding) (c : StepCursor) (pos : Z) (p : SharedProposal)
    (k : StepCommitment) : Prop := {
  sf_entry : validate_shared_entry b (next_step c) (entry p) = Ok tt;
  sf_pos : pr_event_position p = pos;
  sf_agreement : agreement (entry p) = agreement_empty;
  sf_pre : pre_state (entry p) = state_hash c;
  sf_commit : for_entry (E:=ProtocolError) (session_id b) (entry p) (chain_hash c) = Ok k;
  sf_post : of_shared (E:=ProtocolError) (pr_shared_state p) = Ok (c_post_state k);
  sf_terminal : exists lc, single_lifecycle_effect (map snd (pr_effects p)) = Ok lc /\
                  mbind from_effect lc = terminal (entry p);
  sf_advance : exists c', advance c k = Ok c' /\ status_validate_binding (pr_status p) b c' = Ok tt;
  sf_status : validate_proposal_status (entry p) k (pr_status p) = Ok tt }.

Lemma validate_staged_Ok b c pos p k :
  validate_staged b c pos p = Ok k <-> staged_facts b c pos p k.
Proof.
  unfold validate_staged. split.
  - intros Hv. inv_ok. repeat match goal with
    | Hz : (_ =? _) = true |- _ => apply Z.eqb_eq in Hz
    | Hb : bool_decide _ = true |- _ => apply bool_decide_eq_true in Hb
    | u : unit |- _ => destruct u
    end. split; eauto; congruence.
  - intros [H1 <- H3 H4 H5 H6 (lc & H7 & H8) (c' & H9 & H10) H11].
    rewrite H1, Z.eqb_refl. cbn [rbind negb err_if].
    rewrite bool_decide_eq_true_2 by done. rewrite H4, Z.eqb_refl. cbn [rbind negb err_if].
    rewrite H5. cbn [rbind]. rewrite H6. cbn [rbind]. rewrite Z.eqb_refl. cbn [rbind negb err_if].
    rewrite H9. cbn [rbind]. rewrite H7. cbn [rbind]. rewrite bool_decide_eq_true_2 by done.
    cbn [rbind negb err_if]. rewrite H10. cbn [rbind]. by rewrite H11.
Qed.

(** ** Lemmas: retained signatures *)

Lemma validate_step_signature_order_Ok sigs :
  validate_step_signature_order sigs = Ok tt <-> StronglySorted (key_lt participant) sigs.
Proof.
  unfold validate_step_signature_order. rewrite try_for_each_Ok. split.
  - intros Hall. apply windows2_sorted. apply not_true_iff_false. intros Hex.
    apply existsb_exists in Hex as ([p0 p1] & Hin & Hle). rewrite Forall_forall in Hall.
    specialize (Hall (p0, p1)). simpl in *. rewrite list_elem_of_In, Hle in Hall.
    specialize (Hall Hin). by destruct (participant p0 =? participant p1).
  - intros Hs%sorted_windows2. apply Forall_forall. intros [p0 p1] Hin%list_elem_of_In.
    destruct (participant p1 <=? participant p0) eqn:Hle; [|done]. exfalso.
    apply not_true_iff_false in Hs. apply Hs, existsb_exists. by exists (p0, p1).
Qed.

(** A signature by a participant of the binding over commitment [k]. *)
Definition signed_by (b : ExecutionBinding) (k : StepCommitment) (s : ParticipantStepSignature) : Prop :=
  exists key, participant_key b (participant s) = Ok key /\ verify_step_signature key k s = Ok tt.

Lemma check_retained_signature_Ok b ks k s :
  binding_ok b -> participant_keys b = Ok ks ->
  check_retained_signature ks k s = Ok tt <-> signed_by b k s.
Proof.
  intros Hb Hks. destruct (participant_keys_Ok b Hb) as (ks' & Hks' & Hs & _ & _ & Hin).
  assert (ks' = ks) as -> by congruence. unfold check_retained_signature, signed_by. split.
  - intros Hc. destruct (binary_search_by_key _ _ _) as [i|] eqn:Hi; [|done].
    apply binary_search_Some in Hi as ([p key] & Hl & Hp); [|done]. simpl in Hp.
    rewrite Hl in Hc. simpl in Hc. exists key. split; [|done].
    apply Hin. rewrite <- Hp. by eapply list_elem_of_lookup_2.
  - intros (key & Hk & Hv). apply Hin in Hk. apply list_elem_of_lookup in Hk as [i Hi].
    assert (binary_search_by_key fst ks (participant s) = Some i) as ->
      by (apply binary_search_Some; eauto). rewrite Hi. done.
Qed.

Lemma validate_retained_Ok b k sigs :
  binding_ok b ->
  validate_retained b k sigs = Ok tt <->
  zlen sigs <= zlen (binding_tickets b) /\ Forall (signed_by b k) sigs /\
  StronglySorted (key_lt participant) sigs.
Proof.
  intros Hb. destruct (participant_keys_Ok b Hb) as (ks & Hks & _ & _ & Hl & _).
  unfold validate_retained. rewrite Hks. cbn [rbind]. rewrite Hl.
  rewrite <- (validate_step_signature_order_Ok sigs). split.
  - intros Hv. inv_ok. repeat match goal with
    | u : unit |- _ => destruct u | Hf : try_for_each _ _ = _ |- _ => apply try_for_each_Ok in Hf end.
    split_and!; [lia| |done]. eapply Forall_impl; [done|]. intros x Hx.
    by eapply check_retained_signature_Ok.
  - intros (Hn & Hf & Ho). rewrite (proj2 (Z.ltb_ge _ _)) by lia. cbn [err_if rbind].
    rewrite (proj2 (try_for_each_Ok _ _ tt)); [done|]. eapply Forall_impl; [done|].
    intros x Hx. by eapply check_retained_signature_Ok.
Qed.

(** Distinct signers are at most the participants. *)
Lemma signers_bounded b k sigs :
  binding_ok b -> Forall (signed_by b k) sigs -> StronglySorted (key_lt participant) sigs ->
  zlen sigs <= zlen (binding_tickets b).
Proof.
  intros Hb Hf Hs. rewrite <- zlen_participants.
  pose proof (strict_sorted_fmap_NoDup _ _ Hs) as Hnd.
  assert (length (participant <$> sigs) <= length (participants b))%nat as Hle.
  { apply submseteq_length. apply NoDup_submseteq; [done|]. intros x (s & -> & Hin)%list_elem_of_fmap.
    rewrite Forall_forall in Hf. destruct (Hf s Hin) as (key & Hk & _).
    apply is_participant_elem. by eapply participant_key_member. }
  rewrite length_fmap in Hle. unfold zlen. lia.
Qed.

Lemma add_signature_Ok b k s p p' :
  binding_ok b -> validate_retained b k (signatures p) = Ok tt ->
  add_signature b k s p = Ok p' ->
  p' = set_signatures p (sort_key participant (signatures p ++ [s])) /\
  validate_retained b k (signatures p') = Ok tt /\ signed_by b k s /\
  participant s ∉ participant <$> signatures p.
Proof.
  intros Hb (_ & Hf & Hs)%(validate_retained_Ok _ _ _ Hb) Ha. unfold add_signature in Ha.
  destruct (find_by _ _) as [x|] eqn:Hfind; [by case_bool_decide|]. inv_ok.
  repeat match goal with u : unit |- _ => destruct u end.
  assert (participant s ∉ participant <$> signatures p) as Hnin.
  { intros (y & Hy & Hin)%list_elem_of_fmap. apply list_elem_of_In in Hin.
    eapply find_none in Hfind; [|done]. simpl in Hfind. lia. }
  assert (signed_by b k s) as Hsg by (eexists; eauto). split; [done|].
  assert (Forall (signed_by b k) (sort_key participant (signatures p ++ [s]))) as Hf'.
  { rewrite sort_key_Permutation. apply Forall_app. by rewrite Forall_singleton. }
  assert (StronglySorted (key_lt participant) (sort_key participant (signatures p ++ [s]))) as Hs'.
  { apply sort_key_strict. rewrite fmap_app, NoDup_app. split_and!.
    - by apply strict_sorted_fmap_NoDup.
    - intros y Hy Hy'. simpl in Hy'. apply list_elem_of_singleton in Hy' as ->. done.
    - apply NoDup_singleton. }
  split_and!; [|done|done]. apply validate_retained_Ok; [done|]. simpl.
  split_and!; [by eapply signers_bounded|done|done].
Qed.
End ValidationFacts.
