(* ===== verification/Receipt.v ===== *)
(** * Receipts and stop reports
    (protocol/src/execution/certificate.rs, the receipt part of validation.rs,
    trace/header.rs)

    The portable artifact: its layout, the evidence checks its constructor and
    decoder run, its content identity and the size reserved for it while the
    execution is still running. *)

From S2P Require Import Prelude Borsh Crypto Session Trace Negotiation Evidence Validation.

Unset Program Cases.

Inductive ReceiptTermination :=
| TCompleted
| TStopped (cause : StopCause).

Record SessionHeader := MkHeader { h_activation : Activation; h_terminal : ReceiptTermination }.

Record ReceiptBody := MkBody {
  header : SessionHeader;
  outcome : bytes;
  body_params : bytes;
  trace : list TraceEntry }.

Inductive ReceiptArtifact :=
| Receipt (body : ReceiptBody) (id : ReceiptId)
| StopReport (body : ReceiptBody) (id : ReceiptId).

Inductive ReceiptKind := KReceipt | KStopReport.
Inductive ReceiptProvenance := Produced | Imported | Both.

Record ReceiptSummary := MkSummary {
  sm_receipt_id : ReceiptId;
  sm_program_id : ProgramHash;
  sm_session_id : SessionHash;
  sm_ensemble : list PeerId;
  sm_steps : Z;
  sm_terminal : ReceiptTermination;
  sm_outcome : option bytes }.

Definition termination (b : ReceiptBody) : ReceiptTermination := h_terminal (header b).

(** [ReceiptProvenance]: the projection of two independent facts. *)
Definition from_facts (imported produced : bool) : option ReceiptProvenance :=
  match imported, produced with
  | false, true => Some Produced
  | true, false => Some Imported
  | true, true => Some Both
  | false, false => None
  end.
Definition is_imported (p : ReceiptProvenance) : bool :=
  match p with Imported | Both => true | Produced => false end.
Definition is_produced (p : ReceiptProvenance) : bool :=
  match p with Produced | Both => true | Imported => false end.

Definition RECEIPT_BODY_VERSION : Z := 5.
Definition RECEIPT_VERSION : Z := 5.

Inductive ReceiptTraceTerminal :=
| RTCompleted (outcome : bytes)
| RTAuthenticated
| RTStopped (kind : AbortKind) (reason : bytes).

Section Receipt.
Context `{Crypto}.

(** ** Layout *)

Definition c_shared_stop : codec (AbortKind * (StepCommitment * bytes)) :=
  c_pair c_abort_kind (c_pair c_commitment (c_string MAX_TERMINAL_REASON_BYTES)).

Program Definition c_cause : codec StopCause :=
  {| enc c := match c with
              | Authenticated o => variant 0 c_abort o
              | SharedStop k m r => variant 1 c_shared_stop (k, (m, r))
              end;
     dec bs := let? (tag, rest) := read_uint 1 bs in
               match tag with
               | 0 => rd_map Authenticated (dec c_abort rest)
               | 1 => rd_map (fun p => SharedStop p.1 p.2.1 p.2.2) (dec c_shared_stop rest)
               | _ => Err InvalidData
               end;
     cwf c := match c with
              | Authenticated o => cwf c_abort o
              | SharedStop k m r => cwf c_shared_stop (k, (m, r))
              end |}.
Next Obligation. enum_law. Qed.

Program Definition c_termination : codec ReceiptTermination :=
  {| enc t := match t with
              | TCompleted => variant 0 (c_raw 0) []
              | TStopped c => variant 1 c_cause c
              end;
     dec bs := let? (tag, rest) := read_uint 1 bs in
               match tag with
               | 0 => rd_map (fun _ => TCompleted) (dec (c_raw 0) rest)
               | 1 => rd_map TStopped (dec c_cause rest)
               | _ => Err InvalidData
               end;
     cwf t := match t with TCompleted => cwf (c_raw 0) [] | TStopped c => cwf c_cause c end |}.
Next Obligation. enum_law. Qed.

Definition c_header : codec SessionHeader :=
  c_iso (c_pair c_activation c_termination)
    (fun h => (h_activation h, h_terminal h)) (fun p => MkHeader p.1 p.2)
    (fun h => match h with MkHeader _ _ => eq_refl end).

(** The written layout, before the reader's shape check. *)
Definition c_body_raw : codec ReceiptBody :=
  c_versioned RECEIPT_BODY_VERSION
  (c_iso (c_pair c_header (c_pair (c_bytes MAX_TERMINAL_OUTCOME_BYTES)
           (c_pair (c_bytes MAX_PARAMS_LEN) (c_vec MAX_RECEIPT_TRACE_ENTRIES c_entry))))
    (fun b => (header b, (outcome b, (body_params b, trace b))))
    (fun p => MkBody p.1 p.2.1 p.2.2.1 p.2.2.2)
    (fun b => match b with MkBody _ _ _ _ => eq_refl end)).

(** ** Shape *)

Definition validate_receipt_body_shape (b : ReceiptBody) : result ProtocolError unit :=
  let? encoded := map_err Serialization (to_vec c_body_raw b) in
  ensure_encoded "receipt body" (zlen encoded) MAX_RECEIPT_BYTES ;;?
  err_if (MAX_RECEIPT_TRACE_ENTRIES <? zlen (trace b))
    (CollectionTooLarge "receipt trace entries" (zlen (trace b)) MAX_RECEIPT_TRACE_ENTRIES) ;;?
  try_for_each validate_trace_entry (trace b) ;;?
  match termination b with
  | TCompleted => Ok tt
  | TStopped cause =>
      cause_validate cause ;;?
      err_if (negb (zlen (outcome b) =? 0)) OutcomeProjectionMismatch
  end.

Definition body_new (h : SessionHeader) (o p : bytes) (t : list TraceEntry)
    : result ProtocolError ReceiptBody :=
  ensure_payload "receipt outcome" (zlen o) MAX_TERMINAL_OUTCOME_BYTES ;;?
  ensure_payload "receipt params" (zlen p) MAX_PARAMS_LEN ;;?
  err_if (MAX_RECEIPT_TRACE_ENTRIES <? zlen t)
    (CollectionTooLarge "receipt trace entries" (zlen t) MAX_RECEIPT_TRACE_ENTRIES) ;;?
  let b := MkBody h o p t in
  validate_receipt_body_shape b ;;? Ok b.

Definition c_body : codec ReceiptBody :=
  c_refine c_body_raw id (fun b => validate_receipt_body_shape b ;;? Ok b).

(** ** Evidence *)

Definition validate_receipt_trace (b : ExecutionBinding) (t : list TraceEntry)
    (term : ReceiptTraceTerminal) : result ProtocolError StepCursor :=
  err_if (match term with RTCompleted _ | RTStopped _ _ => zlen t =? 0 | RTAuthenticated => false end)
    ReceiptBodyMismatch ;;?
  let? cursor := validate_agreed_trace b t in
  match term with
  | RTCompleted o =>
      let? e := ok_or (last t) ReceiptBodyMismatch in
      err_if (negb (bool_decide (mbind completed_outcome (terminal e) = Some o))) TerminalTraceMismatch
  | RTAuthenticated =>
      match last t with
      | Some e => err_if (negb (terminal_effect_count e =? 0)) TerminalTraceMismatch
      | None => Ok tt
      end
  | RTStopped kind reason =>
      let? e := ok_or (last t) ReceiptBodyMismatch in
      err_if (negb match kind, terminal e with
                   | KAbort, Some (TermAbort actual) | KFail, Some (TermFail actual) =>
                       bool_decide (actual = reason)
                   | _, _ => false
                   end) TerminalTraceMismatch
  end ;;?
  Ok cursor.

Definition validate_stopped_receipt (b : ExecutionBinding) (body : ReceiptBody) (cause : StopCause)
    : result ProtocolError unit :=
  cause_validate cause ;;?
  match cause with
  | Authenticated o =>
      validate_for_session o (session_id b) ;;?
      err_if (negb (is_participant b (ab_sender o))) UnauthenticatedAbort ;;?
      let? ok := verify_signature o in
      err_if (negb ok) UnauthenticatedAbort ;;?
      let? cursor := validate_receipt_trace b (trace body) RTAuthenticated in
      err_if (negb (bool_decide (ab_coordinate o = cursor))) InvalidAbortCoordinate
  | SharedStop kind k reason =>
      let? e := ok_or (last (trace body)) ReceiptBodyMismatch in
      err_if (negb (step e =? c_step k)) ReceiptBodyMismatch ;;?
      let? eh := entry_hash e in
      err_if (negb (eh =? c_entry_hash k)) ReceiptBodyMismatch ;;?
      let? cursor := validate_receipt_trace b (trace body) (RTStopped kind reason) in
      cause_validate_binding cause b cursor
  end.

Definition validate_receipt_body (b : ExecutionBinding) (body : ReceiptBody)
    : result ProtocolError unit :=
  validate_receipt_body_shape body ;;?
  let a := h_activation (header body) in
  map_err InvalidActivation (activation_validate a) ;;?
  err_if (negb (bool_decide (a = activation b))
          || negb (act_session_hash a =? session_id b)
          || negb (program_hash (act_offer_data a) =? program_hash (act_offer_data (activation b)))
          || negb (bool_decide (body_params body = params (act_offer_data (activation b)))))
    ReceiptBodyMismatch ;;?
  match termination body with
  | TCompleted => rmap (fun _ => tt) (validate_receipt_trace b (trace body) (RTCompleted (outcome body)))
  | TStopped cause => validate_stopped_receipt b body cause
  end.

(** ** Artifacts *)

Definition derive_body (b : ReceiptBody) : result ProtocolError ReceiptId :=
  let? bs := map_err Serialization (to_vec c_body_raw b) in
  ensure_payload "receipt body" (zlen bs) MAX_RECEIPT_BYTES ;;?
  Ok (blake3 (bytes_of_string "arena0/receipt/v5" ++ [RECEIPT_VERSION] ++ bs)).

Definition artifact_body (a : ReceiptArtifact) : ReceiptBody :=
  match a with Receipt b _ | StopReport b _ => b end.
Definition receipt_id (a : ReceiptArtifact) : ReceiptId :=
  match a with Receipt _ i | StopReport _ i => i end.
Definition artifact_kind (a : ReceiptArtifact) : ReceiptKind :=
  match a with Receipt _ _ => KReceipt | StopReport _ _ => KStopReport end.

(** The serializer writes the version and the body. *)
Definition artifact_bytes (a : ReceiptArtifact) : writer :=
  write_uint 1 RECEIPT_VERSION +++ enc c_body_raw (artifact_body a).
Definition artifact_encode (a : ReceiptArtifact) : result ProtocolError bytes :=
  let? bs := map_err Serialization (artifact_bytes a) in
  ensure_payload "receipt" (zlen bs) MAX_RECEIPT_BYTES ;;?
  Ok bs.

Definition artifact_new (b : ReceiptBody) : result ProtocolError ReceiptArtifact :=
  let? binding := binding_new (h_activation (header b)) in
  validate_receipt_body binding b ;;?
  let? id := derive_body b in
  let a := match termination b with
           | TStopped (Authenticated _) => StopReport b id
           | _ => Receipt b id
           end in
  artifact_encode a ;;?
  Ok a.

Definition c_artifact : codec ReceiptArtifact :=
  c_versioned RECEIPT_VERSION (c_refine c_body artifact_body artifact_new).
Definition artifact_decode (bs : bytes) : result ProtocolError ReceiptArtifact :=
  ensure_payload "receipt" (zlen bs) MAX_RECEIPT_BYTES ;;?
  map_err Deserialization (from_slice c_artifact bs).

(** [ReceiptArtifact::summary]. *)
Definition summary (a : ReceiptArtifact) : ReceiptSummary :=
  let b := artifact_body a in
  let act := h_activation (header b) in
  MkSummary (receipt_id a) (program_hash (act_offer_data act)) (act_session_hash act)
    (sort_key id (signers_of (prepared act))) (zlen (trace b)) (termination b)
    (match termination b with TCompleted => Some (outcome b) | TStopped _ => None end).

(** ** The reserved overhead *)

Definition empty_artifact (b : ExecutionBinding) (t : ReceiptTermination) (o : bytes) : ReceiptArtifact :=
  Receipt (MkBody (MkHeader (activation b) t) o (params (act_offer_data (activation b))) []) 0.

Definition reserved_overhead (b : ExecutionBinding) : result ProtocolError Z :=
  let initial := binding_initial b in
  let reason := replicate (Z.to_nat MAX_TERMINAL_REASON_BYTES) 120 in
  let? first := expect (binding_tickets b !! 0%nat) in
  let? occurrence := abort_unsigned (session_id b) (ticket_signer first) KFail 0 reason
                       (MkCursor 0 initial CHAIN_START) in
  let shared := SharedStop KFail
    (MkCommitment STEP_COMMIT_DOMAIN (session_id b) 0 0 initial initial CHAIN_START) reason in
  try_fold (fun largest '(t, o) =>
    let? size := map_err Serialization (rmap zlen (artifact_bytes (empty_artifact b t o))) in
    Ok (Z.max largest size)) 0
    [ (TCompleted, replicate (Z.to_nat MAX_TERMINAL_OUTCOME_BYTES) 0);
      (TStopped (Authenticated occurrence), []);
      (TStopped shared, []) ].
End Receipt.
