(* ===== verification/Frame.v ===== *)
(** * Execution frames (protocol/src/exec_frame.rs)

    The facts two participants exchange on an execution stream and their
    canonical encoding: a kind byte, then the fields, every variable-length
    field bounded before it is read. *)

From S2P Require Import Prelude Borsh Crypto Session Trace Negotiation Evidence Validation.

Unset Program Cases.

Inductive ExecFrame :=
| FMessage (commitment : StepCommitment) (data : bytes)
| FStepSignature (commitment : StepCommitment) (signature : Z)
| FAbort (occurrence : AbortOccurrence)
| FStepCertificate (certificate : StepCertificate)
| FDirect (seq : Z) (msg : bytes) (attachment : option bytes).

Definition STEP_COMMITMENT_BYTES : Z := 24 + 32 + 8 + 32 + 32 + 32 + 32.
Definition MAX_EXEC_SIGNER_BYTES : Z := Z.of_nat (div_ceil8 (Z.to_nat MAX_PARTICIPANTS)).
Definition MAX_EXEC_FRAME_BYTES : Z := 1 + STEP_COMMITMENT_BYTES + 4 + MAX_EFFECT_PAYLOAD_BYTES.
Definition MAX_DIRECT_FRAME_BYTES : Z :=
  1 + 8 + 4 + MAX_DIRECT_CONTROL_BYTES + 1 + 4 + MAX_DIRECT_RANGE_BYTES.

(** [write_commitment] and [read_commitment]. *)
Program Definition c_frame_commitment : codec StepCommitment :=
  {| enc k := if has_step_domain k then enc c_commitment k else Err InvalidInput;
     dec bs := let? (k, rest) := dec c_commitment bs in
               if has_step_domain k then Ok (k, rest) else Err InvalidData;
     cwf k := cwf c_commitment k |}.
Next Obligation.
  intros k bs rest Hwf He. cbv beta in *. destruct (has_step_domain k) eqn:Hd; [|done].
  rewrite (dec_enc c_commitment k) by done. cbn [rbind]. by rewrite Hd.
Qed.

Section Frame.
Context `{Crypto}.

Definition c_frame_message : codec (StepCommitment * bytes) :=
  c_pair c_frame_commitment (c_bytes MAX_EFFECT_PAYLOAD_BYTES).
Definition c_frame_signature : codec (StepCommitment * Z) := c_pair c_frame_commitment (c_arr 48).
(** The bitmap before the aggregate, unlike the trace layout. *)
Definition c_frame_certificate : codec (StepCommitment * (SignerSet * Z)) :=
  c_pair c_frame_commitment (c_pair (c_bytes MAX_EXEC_SIGNER_BYTES) (c_arr 48)).
Definition c_frame_direct : codec (Z * (bytes * option bytes)) :=
  c_pair c_u64 (c_pair (c_bytes MAX_DIRECT_CONTROL_BYTES) (c_option (c_bytes MAX_DIRECT_RANGE_BYTES))).

Program Definition c_frame : codec ExecFrame :=
  {| enc f := match f with
              | FMessage k data => variant 0 c_frame_message (k, data)
              | FStepSignature k s => variant 1 c_frame_signature (k, s)
              | FAbort o => variant 2 c_abort o
              | FStepCertificate c =>
                  variant 3 c_frame_certificate
                    (commitment c, (signers (cert_agreement c), aggregate (cert_agreement c)))
              | FDirect seq msg att => variant 4 c_frame_direct (seq, (msg, att))
              end;
     dec bs := let? (tag, rest) := read_uint 1 bs in
               match tag with
               | 0 => rd_map (fun p => FMessage p.1 p.2) (dec c_frame_message rest)
               | 1 => rd_map (fun p => FStepSignature p.1 p.2) (dec c_frame_signature rest)
               | 2 => rd_map FAbort (dec c_abort rest)
               | 3 => rd_map (fun p => FStepCertificate (MkCertificate p.1 (MkAgreement p.2.2 p.2.1)))
                        (dec c_frame_certificate rest)
               | 4 => rd_map (fun p => FDirect p.1 p.2.1 p.2.2) (dec c_frame_direct rest)
               | _ => Err InvalidData
               end;
     cwf f := match f with
              | FMessage k data => cwf c_frame_message (k, data)
              | FStepSignature k s => cwf c_frame_signature (k, s)
              | FAbort o => cwf c_abort o
              | FStepCertificate c =>
                  cwf c_frame_certificate
                    (commitment c, (signers (cert_agreement c), aggregate (cert_agreement c)))
              | FDirect seq msg att => cwf c_frame_direct (seq, (msg, att))
              end |}.
Next Obligation.
  intros f bs rest Hwf He; destruct f as [| | |[k [agg s]]|]; revert Hwf He;
    generalize rest; intros ? Hwf He; cbv beta iota in *;
    apply variant_Ok in He as (? & ? & ->);
    rewrite <- app_assoc, read_uint_write by (simpl; lia); cbn [rbind]; unfold rd_map;
    (match goal with He : enc ?c ?v = Ok ?b |- _ =>
       rewrite (dec_enc c v b); [reflexivity | assumption | exact He] end).
Qed.
End Frame.
