(* ===== verification/Execution.v ===== *)
(** * The execution aggregate (protocol/src/execution/state.rs, end.rs)

    [ExecutionState] is the one durable record of an execution on one host; the
    methods below are its transitions.  A [&mut self] method is a state-passing
    [M ExecutionState ProtocolError A]: where the code builds [next] from a
    clone and assigns it at the end, the model uses [on_clone]. *)

From S2P Require Import Prelude Borsh Crypto Session Trace Negotiation Evidence Validation Receipt.
From S2P Require Import Frame.

Unset Program Cases.

Record ExecutionState := MkState {
  execution_id : ExecId;
  binding : ExecutionBinding;
  producer : PeerId;
  status : ExecutionStatus;
  version : Z;
  event_position : Z;
  agreed_step : Z;
  trace_bytes : Z;
  receipt_overhead : Z;
  agreed_state : StateHash;
  agreed_link : Z;
  last_certificate : option StepCertificate;
  end_phase : EndPhase;
  direct : gmap PeerId DirectLane;
  outgoing : list bytes;
  shared_state : bytes;
  local_state : bytes;
  proposal : option SharedProposal;
  callout : option OpenCallout }.

Definition set_status (x : ExecutionStatus) (s : ExecutionState) : ExecutionState :=
  MkState (execution_id s) (binding s) (producer s) x (version s) (event_position s)
    (agreed_step s) (trace_bytes s) (receipt_overhead s) (agreed_state s) (agreed_link s)
    (last_certificate s) (end_phase s) (direct s) (outgoing s) (shared_state s) (local_state s)
    (proposal s) (callout s).
Definition set_version (x : Z) (s : ExecutionState) : ExecutionState :=
  MkState (execution_id s) (binding s) (producer s) (status s) x (event_position s)
    (agreed_step s) (trace_bytes s) (receipt_overhead s) (agreed_state s) (agreed_link s)
    (last_certificate s) (end_phase s) (direct s) (outgoing s) (shared_state s) (local_state s)
    (proposal s) (callout s).
Definition set_event_position (x : Z) (s : ExecutionState) : ExecutionState :=
  MkState (execution_id s) (binding s) (producer s) (status s) (version s) x (agreed_step s)
    (trace_bytes s) (receipt_overhead s) (agreed_state s) (agreed_link s) (last_certificate s)
    (end_phase s) (direct s) (outgoing s) (shared_state s) (local_state s) (proposal s)
    (callout s).
Definition set_agreed_step (x : Z) (s : ExecutionState) : ExecutionState :=
  MkState (execution_id s) (binding s) (producer s) (status s) (version s) (event_position s) x
    (trace_bytes s) (receipt_overhead s) (agreed_state s) (agreed_link s) (last_certificate s)
    (end_phase s) (direct s) (outgoing s) (shared_state s) (local_state s) (proposal s)
    (callout s).
Definition set_trace_bytes (x : Z) (s : ExecutionState) : ExecutionState :=
  MkState (execution_id s) (binding s) (producer s) (status s) (version s) (event_position s)
    (agreed_step s) x (receipt_overhead s) (agreed_state s) (agreed_link s) (last_certificate s)
    (end_phase s) (direct s) (outgoing s) (shared_state s) (local_state s) (proposal s)
    (callout s).
Definition set_agreed_state (x : StateHash) (s : ExecutionState) : ExecutionState :=
  MkState (execution_id s) (binding s) (producer s) (status s) (version s) (event_position s)
    (agreed_step s) (trace_bytes s) (receipt_overhead s) x (agreed_link s) (last_certificate s)
    (end_phase s) (direct s) (outgoing s) (shared_state s) (local_state s) (proposal s)
    (callout s).
Definition set_agreed_link (x : Z) (s : ExecutionState) : ExecutionState :=
  MkState (execution_id s) (binding s) (producer s) (status s) (version s) (event_position s)
    (agreed_step s) (trace_bytes s) (receipt_overhead s) (agreed_state s) x (last_certificate s)
    (end_phase s) (direct s) (outgoing s) (shared_state s) (local_state s) (proposal s)
    (callout s).
Definition set_last_certificate (x : option StepCertificate) (s : ExecutionState) : ExecutionState :=
  MkState (execution_id s) (binding s) (producer s) (status s) (version s) (event_position s)
    (agreed_step s) (trace_bytes s) (receipt_overhead s) (agreed_state s) (agreed_link s) x
    (end_phase s) (direct s) (outgoing s) (shared_state s) (local_state s) (proposal s)
    (callout s).
Definition set_end_phase (x : EndPhase) (s : ExecutionState) : ExecutionState :=
  MkState (execution_id s) (binding s) (producer s) (status s) (version s) (event_position s)
    (agreed_step s) (trace_bytes s) (receipt_overhead s) (agreed_state s) (agreed_link s)
    (last_certificate s) x (direct s) (outgoing s) (shared_state s) (local_state s) (proposal s)
    (callout s).
Definition set_direct (x : gmap PeerId DirectLane) (s : ExecutionState) : ExecutionState :=
  MkState (execution_id s) (binding s) (producer s) (status s) (version s) (event_position s)
    (agreed_step s) (trace_bytes s) (receipt_overhead s) (agreed_state s) (agreed_link s)
    (last_certificate s) (end_phase s) x (outgoing s) (shared_state s) (local_state s)
    (proposal s) (callout s).
Definition set_outgoing (x : list bytes) (s : ExecutionState) : ExecutionState :=
  MkState (execution_id s) (binding s) (producer s) (status s) (version s) (event_position s)
    (agreed_step s) (trace_bytes s) (receipt_overhead s) (agreed_state s) (agreed_link s)
    (last_certificate s) (end_phase s) (direct s) x (shared_state s) (local_state s)
    (proposal s) (callout s).
Definition set_shared_state (x : bytes) (s : ExecutionState) : ExecutionState :=
  MkState (execution_id s) (binding s) (producer s) (status s) (version s) (event_position s)
    (agreed_step s) (trace_bytes s) (receipt_overhead s) (agreed_state s) (agreed_link s)
    (last_certificate s) (end_phase s) (direct s) (outgoing s) x (local_state s) (proposal s)
    (callout s).
Definition set_local_state (x : bytes) (s : ExecutionState) : ExecutionState :=
  MkState (execution_id s) (binding s) (producer s) (status s) (version s) (event_position s)
    (agreed_step s) (trace_bytes s) (receipt_overhead s) (agreed_state s) (agreed_link s)
    (last_certificate s) (end_phase s) (direct s) (outgoing s) (shared_state s) x (proposal s)
    (callout s).
Definition set_proposal (x : option SharedProposal) (s : ExecutionState) : ExecutionState :=
  MkState (execution_id s) (binding s) (producer s) (status s) (version s) (event_position s)
    (agreed_step s) (trace_bytes s) (receipt_overhead s) (agreed_state s) (agreed_link s)
    (last_certificate s) (end_phase s) (direct s) (outgoing s) (shared_state s) (local_state s)
    x (callout s).
Definition set_callout (x : option OpenCallout) (s : ExecutionState) : ExecutionState :=
  MkState (execution_id s) (binding s) (producer s) (status s) (version s) (event_position s)
    (agreed_step s) (trace_bytes s) (receipt_overhead s) (agreed_state s) (agreed_link s)
    (last_certificate s) (end_phase s) (direct s) (outgoing s) (shared_state s) (local_state s)
    (proposal s) x.
Definition set_receipt_overhead (x : Z) (s : ExecutionState) : ExecutionState :=
  MkState (execution_id s) (binding s) (producer s) (status s) (version s) (event_position s)
    (agreed_step s) (trace_bytes s) x (agreed_state s) (agreed_link s) (last_certificate s)
    (end_phase s) (direct s) (outgoing s) (shared_state s) (local_state s) (proposal s)
    (callout s).

(** [StepCursor] view of the aggregate. *)
Definition step_cursor (s : ExecutionState) : StepCursor :=
  MkCursor (agreed_step s) (agreed_state s) (agreed_link s).

(** The public lifecycle: an open callout projects an active execution as waiting. *)
Definition lifecycle (s : ExecutionState) : ExecLifecycle :=
  if is_active (status s) && is_some (callout s) then LWaiting else status_lifecycle (status s).

Definition published_receipt_id (s : ExecutionState) : option ReceiptId :=
  match status s with
  | Completed _ r | StoppedPublished _ r => Some r
  | _ => None
  end.

Definition terminal_outcome (s : ExecutionState) : option TerminalOutcome :=
  match status s with Certified o | Completed o _ => Some o | _ => None end.

(** ** Versions *)

Definition next_version (s : ExecutionState) : result ProtocolError Z :=
  ok_or (version_next (version s)) VersionExhausted.
Definition bump_version : M ExecutionState ProtocolError unit :=
  let! v := sread next_version in smodify (set_version v).

(** ** Direct lanes *)

Definition direct_queue (s : ExecutionState) (peer : PeerId) : list DirectEntry :=
  match direct s !! peer with Some lane => queue lane | None => [] end.

(** BTreeMap iteration: ascending keys. *)
Definition lanes (s : ExecutionState) : list (PeerId * DirectLane) :=
  sort_key fst (map_to_list (direct s)).
Definition direct_queue_lens (s : ExecutionState) : list (PeerId * Z) :=
  map (fun '(p, l) => (p, zlen (queue l)))
    (filter (fun '(_, l) => queue l <> []) (lanes s)).

Definition direct_arrival (s : ExecutionState) (from : PeerId) (seq : Z) : DirectArrival :=
  let last := match direct s !! from with Some lane => last_applied lane | None => 0 end in
  if seq <=? last then Duplicate
  else if opt_eqb (checked_add last 1) (Some seq) then Next else Gap.

Definition remote_participant (s : ExecutionState) (peer : PeerId) : bool :=
  negb (peer =? producer s) && is_participant (binding s) peer.

Definition record_direct (from : PeerId) (seq : Z) : M ExecutionState ProtocolError unit :=
  (let! _ := sread (fun s => err_if (negb (remote_participant s from)) (UnknownParticipant from)) in
   let! _ := sread (fun s => match direct_arrival s from seq with
                             | Next => Ok tt
                             | _ => Err (DirectOutOfOrder from seq)
                             end) in
   let! v := sread next_version in
   smodify (fun s =>
     let lane := default lane_default (direct s !! from) in
     set_direct (<[from := MkLane (last_queued lane) (queue lane) seq]> (direct s)) s) ;;!
   smodify (set_version v)).

Definition ack_direct (to : PeerId) (seq : Z) : M ExecutionState ProtocolError bool :=
  (let! _ := sread (fun s => err_if (negb (remote_participant s to)) (UnknownParticipant to)) in
   let! pending := sread (fun s => Ok (existsb (fun e => d_seq e <=? seq) (direct_queue s to))) in
   if negb pending then sret false else
   let! v := sread next_version in
   let! lane := sread (fun s => expect (direct s !! to)) in
   smodify (fun s =>
     set_direct (<[to := MkLane (last_queued lane)
                          (filter (fun e => seq < d_seq e) (queue lane))
                          (last_applied lane)]> (direct s)) s) ;;!
   smodify (set_version v) ;;!
   sret true).

(** ** The end handshake *)

Definition clear_queue (l : DirectLane) : DirectLane := MkLane (last_queued l) [] (last_applied l).

Definition begin_end (s : ExecutionState) : ExecutionState :=
  if negb (is_terminal (status s)) then s else
  match end_phase s with
  | Open =>
      let unconfirmed : gset PeerId :=
        list_to_set (filter (fun p => p <> producer s) (participants (binding s))) in
      set_direct (clear_queue <$> direct s) (set_end_phase (Ending unconfirmed) s)
  | _ => s
  end.

Definition confirm_end (peer : PeerId) : M ExecutionState ProtocolError bool :=
  (let! _ := sread (fun s => err_if (negb (remote_participant s peer)) InvalidTerminalStatus) in
   on_clone (
     let! phase := sread (fun s => Ok (end_phase s)) in
     match phase with
     | Open => sread (fun _ => Err InvalidTerminalStatus)
     | Ending u | Ended u =>
         if negb (bool_decide (peer ∈ u)) then sret false else
         let u' := u ∖ {[peer]} in
         smodify (set_end_phase
           (if bool_decide (u' = ∅) then Ended ∅
            else match phase with Ending _ => Ending u' | _ => Ended u' end)) ;;!
         bump_version ;;!
         sret true
     end)).

Definition expire_end : M ExecutionState ProtocolError unit :=
  let! u := sread (fun s => match end_phase s with
                            | Ending u => Ok u
                            | _ => Err InvalidTerminalStatus
                            end) in
  on_clone (smodify (set_end_phase (Ended u)) ;;! bump_version).

Definition terminal_evidence (s : ExecutionState) : option ExecFrame :=
  if negb (is_terminal (status s)) then None else
  match terminal_cause (status s) with
  | Some (Authenticated o) => Some (FAbort o)
  | _ => FStepCertificate <$> last_certificate s
  end.

Definition end_conclusion_matches (s : ExecutionState) (frame : ExecFrame) : EndMatch :=
  match terminal_evidence s with
  | None => NotTerminalEvidence
  | Some ours =>
      let stale k :=
        c_step k <? match ours with
                    | FStepCertificate c => c_step (commitment c)
                    | _ => agreed_step s
                    end in
      match ours, frame with
      | FStepCertificate c, FStepCertificate c' =>
          if bool_decide (commitment c = commitment c') then Same
          else if stale (commitment c') then NotTerminalEvidence else Different
      | FAbort _, FAbort o =>
          if bool_decide (ab_coordinate o = step_cursor s) then Same else Different
      | _, FStepCertificate c' =>
          if stale (commitment c') then NotTerminalEvidence else Different
      | _, FAbort _ => Different
      | _, _ => NotTerminalEvidence
      end
  end.

Definition validate_end (s : ExecutionState) : result ProtocolError unit :=
  match end_phase s with
  | Open => err_if (is_terminal (status s)) InvalidTerminalStatus
  | Ending u | Ended u =>
      if negb (is_terminal (status s)) then Err InvalidTerminalStatus else
      err_if (match end_phase s with Ending _ => bool_decide (u = ∅) | _ => false end)
        InvalidTerminalStatus ;;?
      err_if (existsb (fun p => negb (remote_participant s p)) (elements u)) InvalidTerminalStatus
  end.

(** ** Dispatch helpers *)

Definition indexed_dispatch_effects (effects : list Effect) : result ProtocolError (list (Z * Effect)) :=
  try_fold (fun acc p =>
    err_if (u32_max <? p.1) (CollectionTooLarge "effects" (zlen effects) u32_max) ;;?
    Ok (acc ++ [p])) [] (imap (fun i e => (Z.of_nat i, e)) effects).

Definition append_broadcasts (outgoing : list bytes) (effects : list Effect)
    : result ProtocolError (list bytes) :=
  try_fold (fun out e =>
    match e with
    | Broadcast data =>
        err_if (MAX_OUTGOING_MESSAGES <=? zlen out)
          (OutgoingQueueFull (zlen out) MAX_OUTGOING_MESSAGES) ;;?
        Ok (out ++ [data])
    | _ => Ok out
    end) outgoing effects.

(** The lanes after queueing the direct messages of one local dispatch. *)
Definition queue_direct (s : ExecutionState) (lanes : gmap PeerId DirectLane) (effects : list Effect)
    : result ProtocolError (gmap PeerId DirectLane) :=
  try_fold (fun lanes e =>
    match e with
    | SendDirect to msg range =>
        err_if (negb (remote_participant s to)) (UnknownParticipant to) ;;?
        let lane := default lane_default (lanes !! to) in
        err_if (zlen (queue lane) =? MAX_DIRECT_QUEUE) (DirectQueueFull to) ;;?
        let? seq := ok_or (checked_add (last_queued lane) 1) VersionExhausted in
        Ok (<[to := MkLane seq (queue lane ++ [MkDirectEntry seq msg range]) (last_applied lane)]> lanes)
    | _ => Ok lanes
    end) lanes effects.

Definition is_set_timer (e : Effect) : bool := match e with SetTimer _ _ => true | _ => false end.
Definition is_send_direct (e : Effect) : bool := match e with SendDirect _ _ _ => true | _ => false end.
Definition is_broadcast (e : Effect) : bool := match e with Broadcast _ => true | _ => false end.
Definition is_answer (e : Event) : bool := match e with InputReceived _ _ => true | _ => false end.
Definition is_agreed_event (e : Event) : bool :=
  match e with SessionStarted _ | MessageReceived _ _ => true | _ => false end.

Definition validate_callout_dispatch (s : ExecutionState) (e : Event) (pending_id : option Z)
    : result ProtocolError unit :=
  match e with
  | InputReceived index _ =>
      let? answer_id := ok_or pending_id CalloutMismatch in
      let? open := ok_or (callout s) CalloutMismatch in
      err_if (negb (callout_id_ open =? answer_id)) CalloutMismatch ;;?
      err_if (negb (index =? callout_index open)) CalloutMismatch
  | _ => err_if (is_some pending_id) CalloutMismatch
  end.

Section Execution.
Context `{Crypto}.

Definition next_open_callout (s : ExecutionState) (e : Event) (event_position : Z)
    (st : ExecutionStatus) (request : option CalloutRequest) : option OpenCallout :=
  if negb (is_active st) then None else
  match request with
  | None => None
  | Some r =>
      let fresh := MkCallout (callout_id (execution_id s) event_position) (req_index r) (req_context r) in
      match callout s with
      | Some current =>
          if negb (is_answer e) && (callout_index current =? req_index r)
             && bool_decide (context current = req_context r)
          then Some current else Some fresh
      | None => Some fresh
      end
  end.

(** ** Receipt budget *)

(** The encoded size of an entry with its N-of-N signer bitmap in place. *)
Definition certified_size (s : ExecutionState) (e : TraceEntry) : result ProtocolError Z :=
  let? full := map_err (fun err => InvalidCertificate (OfSigners err))
                 (signers_full (length (binding_tickets (binding s)))) in
  map_err Serialization
    (object_length c_entry (with_agreement e (MkAgreement (aggregate (agreement e)) full))).

Definition check_receipt_entries (s : ExecutionState) (entries : list TraceEntry)
    : result ProtocolError Z :=
  let exhausted := ReceiptBudgetExhausted (agreed_step s) in
  let? bytes := try_fold (fun total e =>
      let? n := certified_size s e in
      ok_or (checked_add total n) exhausted) (trace_bytes s) entries in
  err_if (match checked_add (agreed_step s) (zlen entries) with
          | Some count => MAX_RECEIPT_TRACE_ENTRIES <? count
          | None => true
          end
          || match checked_add bytes (receipt_overhead s) with
             | Some total => MAX_RECEIPT_BYTES <? total
             | None => true
             end) exhausted ;;?
  Ok bytes.
Definition check_receipt_budget (s : ExecutionState) (e : TraceEntry) : result ProtocolError Z :=
  check_receipt_entries s [e].
Definition check_proposal_receipt_budget (s : ExecutionState) (p : SharedProposal)
    : result ProtocolError unit :=
  rmap (fun _ => tt) (check_receipt_budget s (entry p)).

(** ** Construction and activation *)

(** [ExecutionState::new]. *)
Definition state_new (id : ExecId) (a : Activation) (prod : PeerId) (shared local : bytes)
    : result ProtocolError ExecutionState :=
  let? b := binding_new a in
  let? overhead := reserved_overhead b in
  err_if (MAX_RECEIPT_BYTES <? overhead) (ReceiptBudgetExhausted 0) ;;?
  err_if (negb (is_participant b prod)) (UnknownParticipant prod) ;;?
  let? h := of_shared shared in
  err_if (negb (h =? binding_initial b)) StateHashMismatch ;;?
  let? c := genesis shared in
  Ok (MkState id b prod Activating 0 0 (next_step c) 0 overhead (state_hash c) (chain_hash c)
        None Open ∅ [] shared local None None).

Definition activate : M ExecutionState ProtocolError unit :=
  (let! _ := sread (fun s => err_if (negb (bool_decide (status s = Activating)))
                               (IllegalLifecycle (lifecycle s) "activate")) in
   let! _ := sread (fun s => err_if (is_some (proposal s))
       (InvalidCertificate (Msg "activating execution cannot retain a proposal"))) in
   on_clone (smodify (set_status Active) ;;! bump_version)).

(** ** Dispatch *)

Definition install_dispatch (pos : Z) (shared local : bytes) (post : StateHash)
    (out : list bytes) (st : ExecutionStatus) (co : option OpenCallout)
    : M ExecutionState ProtocolError unit :=
  (let! _ := sread (fun s => err_if (is_some (proposal s)) SharedProposalExists) in
   let! _ := sread (fun s => err_if (negb (is_active (status s)))
                               (IllegalLifecycle (lifecycle s) "dispatch")) in
   let! _ := sread (fun _ => err_if (negb (is_active st)) InvalidTerminalStatus) in
   let! _ := sread (fun s => err_if (negb (pos =? event_position s))
       (InvalidCertificate (Msg "dispatch event position is not the next event position"))) in
   let! _ := sread (fun s => err_if (negb (post =? agreed_state s)) StateHashMismatch) in
   let! _ := sread (fun _ => validate_outgoing out) in
   let! next := sread (fun _ => ok_or (checked_add pos 1) VersionExhausted) in
   on_clone (
     smodify (set_event_position next) ;;!
     smodify (set_shared_state shared) ;;!
     smodify (set_local_state local) ;;!
     smodify (set_outgoing out) ;;!
     smodify (set_status st) ;;!
     smodify (set_callout co) ;;!
     bump_version)).

Definition stage_proposal (p : SharedProposal) : M ExecutionState ProtocolError unit :=
  (let! _ := sread (fun s => err_if (is_some (proposal s)) SharedProposalExists) in
   let! _ := sread (fun s => err_if (negb (is_active (status s)))
                               (IllegalLifecycle (lifecycle s) "shared proposal")) in
   let! _ := sread (fun s => err_if (negb (pr_event_position p =? event_position s))
       (InvalidCertificate (Msg "proposal event position is not the next event position"))) in
   let! next := sread (fun s => ok_or (checked_add (event_position s) 1) VersionExhausted) in
   let! _ := sread (fun s => validate_proposal (binding s) (step_cursor s) (event_position s) p) in
   let! _ := sread (fun s => check_proposal_receipt_budget s p) in
   on_clone (
     smodify (set_event_position next) ;;!
     smodify (set_proposal (Some p)) ;;!
     bump_version)).

(** The shared event of an agreed dispatch. *)
Definition trace_event (e : Event) : result ProtocolError StepEvent :=
  match e with
  | SessionStarted ensemble => Ok (StepSessionStarted ensemble)
  | MessageReceived from msg => Ok (StepMessage from msg)
  | InputReceived _ _ | TimerFired _ | DirectReceived _ _ _ =>
      Err (InvalidCertificate (Msg "shared dispatch requires a portable event"))
  end.

(** The author's own message must be the queue head, which it consumes. *)
Definition take_own_message (s : ExecutionState) (e : Event)
    : result ProtocolError (option bytes * list bytes) :=
  match e with
  | MessageReceived from msg =>
      if from =? producer s then
        match outgoing s with
        | [] => Err NotQueuedMessage
        | head :: rest =>
            err_if (negb (bool_decide (head = msg))) NotQueuedMessage ;;? Ok (Some msg, rest)
        end
      else Ok (None, outgoing s)
  | _ => Ok (None, outgoing s)
  end.

(** The local branch of [apply_dispatch]. *)
Definition apply_local (e : Event) (pos : Z) (post : StateHash) (shared local : bytes)
    (effects : list Effect) (lifecycle_effect : option Effect) (outcome : option TerminalOutcome)
    (request : option CalloutRequest) : M ExecutionState ProtocolError (option ExecFrame) :=
  (let! _ := sread (fun _ => err_if (is_some lifecycle_effect) InvalidTerminalStatus) in
   let! _ := sread (fun s => err_if (negb (post =? agreed_state s)) LocalSharedChange) in
   let! _ := sread (fun _ => err_if (is_some outcome) TerminalOutcomeMismatch) in
   let! out := sread (fun s => append_broadcasts (outgoing s) effects) in
   let! lanes := sread (fun s => queue_direct s (direct s) effects) in
   let! co := sread (fun s => Ok (next_open_callout s e pos Active request)) in
   install_dispatch pos shared local post out Active co ;;!
   smodify (set_direct lanes) ;;!
   sret None).

(** The agreed branch: build the entry from shared coordinates and stage it. *)
Definition apply_agreed (e : Event) (pos : Z) (post : StateHash) (shared local : bytes)
    (effects : list Effect) (indexed : list (Z * Effect)) (lifecycle_effect : option Effect)
    (outcome : option TerminalOutcome) (request : option CalloutRequest)
    : M ExecutionState ProtocolError (option ExecFrame) :=
  (let! own := sread (fun s => take_own_message s e) in
   let! ev := sread (fun _ => trace_event e) in
   let! out := sread (fun _ => append_broadcasts own.2 effects) in
   let! s0 := sread (fun s => Ok s) in
   let kept := filter (fun p => is_broadcast p.2 = false) indexed in
   let ent := MkEntry TRACE_FORMAT_VERSION (agreed_step s0) ev (agreed_state s0) post
                (mbind from_effect lifecycle_effect) agreement_empty in
   let! k := sread (fun _ => for_entry (session_id (binding s0)) ent (agreed_link s0)) in
   let frame := (fun msg => FMessage k msg) <$> own.1 in
   let! st := sread (fun _ => from_proposal_entry ent k outcome) in
   let co := next_open_callout s0 e pos st request in
   let! p := sread (fun _ => proposal_new ent shared local out kept pos st co []) in
   stage_proposal p ;;!
   sret frame).

Definition apply_dispatch (e : Event) (shared local : bytes) (effects : list Effect)
    (outcome : option TerminalOutcome) (pending_id : option Z) (request : option CalloutRequest)
    : M ExecutionState ProtocolError (option ExecFrame) :=
  (let! _ := sread (fun s => err_if (is_some (proposal s)) SharedProposalExists) in
   let! pos := sread (fun s => Ok (event_position s)) in
   let! post := sread (fun _ => of_shared shared) in
   let! indexed := sread (fun _ => indexed_dispatch_effects effects) in
   let! lc := sread (fun _ => single_lifecycle_effect effects) in
   let! _ := sread (fun _ => err_if (is_some lc && existsb is_set_timer effects) InvalidTerminalStatus) in
   let! _ := sread (fun s => validate_callout_dispatch s e pending_id) in
   let! _ := sread (fun _ => check_effect_budget effects) in
   let! _ := sread (fun _ => err_if (is_agreed_event e && existsb is_send_direct effects)
                               DirectFromAgreedEvent) in
   if negb (is_agreed_event e)
   then apply_local e pos post shared local effects lc outcome request
   else apply_agreed e pos post shared local effects indexed lc outcome request).

Definition drop_outgoing_head : M ExecutionState ProtocolError unit :=
  (let! _ := sread (fun s => err_if (is_some (proposal s)) SharedProposalExists) in
   let! _ := sread (fun s => err_if (zlen (outgoing s) =? 0) NotQueuedMessage) in
   on_clone (smodify (fun s => set_outgoing (drop 1 (outgoing s)) s) ;;! bump_version)).

(** ** Certification *)

Definition commitment_for {E} (s : ExecutionState) (p : SharedProposal) : result E StepCommitment :=
  for_entry (session_id (binding s)) (entry p) (agreed_link s).
Definition proposal_commitment (s : ExecutionState) : result ProtocolError (option StepCommitment) :=
  match proposal s with
  | Some p => rmap Some (commitment_for s p)
  | None => Ok None
  end.

Definition install_certified (cert : StepCertificate) : M ExecutionState ProtocolError SharedProposal :=
  (let! p := sread (fun s => ok_or (proposal s) SharedProposalMissing) in
   let! _ := sread (fun s => validate_proposal (binding s) (step_cursor s) (pr_event_position p) p) in
   let! k := sread (fun s => commitment_for s p) in
   let! _ := sread (fun _ => err_if (negb (bool_decide (commitment cert = k)))
       (InvalidCertificate (Msg "step certificate does not match the staged proposal"))) in
   let! _ := sread (fun s => certificate_verify cert (binding s)) in
   let! next := sread (fun s => advance (step_cursor s) (commitment cert)) in
   let! bytes := sread (fun s => check_receipt_budget s (entry p)) in
   let! _ := sread (fun s => check_proposal_receipt_budget s p) in
   let committed := set_entry p (with_agreement (entry p) (cert_agreement cert)) in
   smodify (set_proposal None) ;;!
   smodify (set_agreed_step (next_step next)) ;;!
   smodify (set_trace_bytes bytes) ;;!
   smodify (set_agreed_state (state_hash next)) ;;!
   smodify (set_agreed_link (chain_hash next)) ;;!
   smodify (set_last_certificate (Some cert)) ;;!
   smodify (set_shared_state (pr_shared_state committed)) ;;!
   smodify (set_local_state (pr_local_state committed)) ;;!
   smodify (set_outgoing (pr_outgoing committed)) ;;!
   smodify (set_status (pr_status committed)) ;;!
   smodify begin_end ;;!
   smodify (set_callout (pr_callout committed)) ;;!
   smodify (set_proposal None) ;;!
   sret committed).

Definition certify_step (cert : StepCertificate) : M ExecutionState ProtocolError SharedProposal :=
  on_clone (
    let! committed := install_certified cert in
    bump_version ;;!
    sret committed).

Definition add_step_signature (s0 : ParticipantStepSignature)
    : M ExecutionState ProtocolError (option SharedProposal) :=
  (let! p0 := sread (fun s => ok_or (proposal s) SharedProposalMissing) in
   let! _ := sread (fun s => check_proposal_receipt_budget s p0) in
   on_clone (
     let! ko := sread proposal_commitment in
     let! k := sread (fun _ => ok_or ko SharedProposalMissing) in
     let! p := sread (fun s => ok_or (proposal s) SharedProposalMissing) in
     let! p' := sread (fun s => add_signature (binding s) k s0 p) in
     smodify (set_proposal (Some p')) ;;!
     let! b := sread (fun s => Ok (binding s)) in
     if zlen (signatures p') =? zlen (binding_tickets b) then
       let! cert := sread (fun _ => from_signatures b k p') in
       let! committed := install_certified cert in
       bump_version ;;!
       sret (Some committed)
     else
       bump_version ;;!
       sret None)).

(** ** Stop and publication *)

Definition stop (o : AbortOccurrence) : M ExecutionState ProtocolError unit :=
  (let! _ := sread (fun s => validate_for_session o (session_id (binding s))) in
   let! _ := sread (fun s => err_if (negb (is_participant (binding s) (ab_sender o))) UnauthenticatedAbort) in
   let! ok := sread (fun _ => verify_signature o) in
   let! _ := sread (fun _ => err_if (negb ok) UnauthenticatedAbort) in
   let! _ := sread (fun s => err_if (negb (bool_decide (ab_coordinate o = step_cursor s)))
                               InvalidAbortCoordinate) in
   let! _ := sread (fun s => err_if (is_terminal (status s)) AlreadyTerminal) in
   let! _ := sread (fun s => err_if (match proposal s with
                                     | Some p => existsb (fun x => participant x =? ab_sender o) (signatures p)
                                     | None => false
                                     end) SharedProposalSigned) in
   on_clone (
     smodify (set_proposal None) ;;!
     smodify (set_callout None) ;;!
     let! st := sread (fun _ => stopped o) in
     smodify (set_status st) ;;!
     smodify begin_end ;;!
     bump_version)).

(** The chain link before the last entry of a receipt trace. *)
Definition link_before_last {E} (session : SessionHash) (t : list TraceEntry) : result E Z :=
  try_fold (fun link e => let? k := for_entry session e link in Ok (link_hash k))
    CHAIN_START (take (length t - 1) t).

(** The status [publish_receipt] installs for a validated artifact. *)
Definition published_status (s : ExecutionState) (a : ReceiptArtifact)
    : result ProtocolError ExecutionStatus :=
  let body := artifact_body a in
  match status s, termination body with
  | Certified o, TCompleted =>
      let? e := ok_or (last (trace body)) ReceiptBodyMismatch in
      let? link := link_before_last (session_id (binding s)) (trace body) in
      let? k := for_entry (session_id (binding s)) e link in
      err_if (negb (bool_decide (outcome body = borsh_bytes o))
              || negb (opt_eqb (checked_add (step e) 1) (Some (agreed_step s)))
              || negb (post_state e =? agreed_state s)
              || negb (link_hash k =? agreed_link s)) ReceiptBodyMismatch ;;?
      Ok (Completed o (receipt_id a))
  | Stopped cause, TStopped body_cause =>
      if bool_decide (cause = body_cause) then Ok (StoppedPublished cause (receipt_id a))
      else Err ReceiptBodyMismatch
  | (Completed _ _ | StoppedPublished _ _), _ => Err TerminalAlreadyPublished
  | _, _ => Err ReceiptBodyMismatch
  end.

Definition publish_receipt (a : ReceiptArtifact) : M ExecutionState ProtocolError unit :=
  (let! _ := sread (fun s => validate_receipt_body (binding s) (artifact_body a)) in
   let! st := sread (fun s => published_status s a) in
   on_clone (smodify (set_status st) ;;! smodify (set_callout None) ;;! bump_version)).

(** ** Resend after restart *)

Definition current_frames {E} (s : ExecutionState) (me : PeerId) : result E (list ExecFrame) :=
  let certs := match last_certificate s with Some c => [FStepCertificate c] | None => [] end in
  let? staged :=
    match proposal s with
    | None => Ok []
    | Some p =>
        let? k := commitment_for s p in
        let msgs := match event (entry p) with
                    | StepMessage from data => if from =? me then [FMessage k data] else []
                    | StepSessionStarted _ => []
                    end in
        let sigs := match find_by (fun x => participant x =? me) (signatures p) with
                    | Some x => [FStepSignature k (sig (signature x))]
                    | None => []
                    end in
        Ok (msgs ++ sigs)
    end in
  let aborts := match terminal_cause (status s) with
                | Some (Authenticated o) => [FAbort o]
                | _ => []
                end in
  Ok (certs ++ staged ++ aborts).

(** ** Recovery *)

Definition check_lane_entry (peer : PeerId) (lane : DirectLane) (ie : nat * DirectEntry)
    : result ProtocolError unit :=
  let '(index, e) := ie in
  err_if ((d_seq e =? 0) || (last_queued lane <? d_seq e)
          || ((0 <? index)%nat
              && negb (opt_eqb (prev ← queue lane !! (index - 1)%nat; checked_add (d_seq prev) 1)
                               (Some (d_seq e))))
          || ((index + 1 =? length (queue lane))%nat && negb (d_seq e =? last_queued lane)))
    (DirectOutOfOrder peer (d_seq e)) ;;?
  check_effect_budget [SendDirect peer (d_msg e) (d_range e)].

Definition check_lane (s : ExecutionState) (pl : PeerId * DirectLane) : result ProtocolError unit :=
  let '(peer, lane) := pl in
  err_if (negb (remote_participant s peer)) (UnknownParticipant peer) ;;?
  err_if (MAX_DIRECT_QUEUE <? zlen (queue lane)) (DirectQueueFull peer) ;;?
  err_if (match end_phase s with Open => false | _ => negb (zlen (queue lane) =? 0) end)
    InvalidTerminalStatus ;;?
  try_for_each (check_lane_entry peer lane) (imap pair (queue lane)).

Definition check_last_certificate (s : ExecutionState) : result ProtocolError unit :=
  let mismatch := InvalidCertificate (Msg "last certificate does not match the agreed cursor") in
  match last_certificate s with
  | Some c =>
      if opt_eqb (checked_add (c_step (commitment c)) 1) (Some (agreed_step s))
         && (c_post_state (commitment c) =? agreed_state s)
         && (link_hash (commitment c) =? agreed_link s)
      then certificate_verify c (binding s) else Err mismatch
  | None => err_if (negb (agreed_step s =? 0)) mismatch
  end.

Definition check_pending (s : ExecutionState) (p : SharedProposal) : result ProtocolError unit :=
  let? expected := ok_or (checked_add (pr_event_position p) 1) VersionExhausted in
  err_if (negb (event_position s =? expected))
    (InvalidCertificate (Msg "pending proposal is not paired with the next event position")) ;;?
  validate_effects (pr_effects p) ;;?
  validate_proposal (binding s) (step_cursor s) (pr_event_position p) p ;;?
  validate_outgoing (pr_outgoing p) ;;?
  check_proposal_receipt_budget s p ;;?
  err_if (negb (is_active (pr_status p)) && is_some (pr_callout p)) InvalidCalloutState.

Definition validate_recovered (s : ExecutionState) : result ProtocolError unit :=
  err_if (negb (is_participant (binding s) (producer s))) (UnknownParticipant (producer s)) ;;?
  let? h := of_shared (shared_state s) in
  err_if (negb (h =? agreed_state s)) StateHashMismatch ;;?
  err_if ((agreed_step s =? 0) && negb (agreed_state s =? binding_initial (binding s)))
    StateHashMismatch ;;?
  err_if (negb (Bool.eqb (agreed_step s =? 0) (trace_bytes s =? 0))
          || (MAX_RECEIPT_TRACE_ENTRIES <? agreed_step s)
          || match checked_add (trace_bytes s) (receipt_overhead s) with
             | Some total => MAX_RECEIPT_BYTES <? total
             | None => true
             end) (ReceiptBudgetExhausted (agreed_step s)) ;;?
  validate_outgoing (outgoing s) ;;?
  err_if (MAX_PARTICIPANTS <? Z.of_nat (size (direct s)))
    (CollectionTooLarge "direct lanes" (Z.of_nat (size (direct s))) MAX_PARTICIPANTS) ;;?
  try_for_each (check_lane s) (lanes s) ;;?
  validate_end s ;;?
  check_last_certificate s ;;?
  status_validate_binding (status s) (binding s) (step_cursor s) ;;?
  err_if (negb (is_active (status s)) && is_some (callout s)) InvalidCalloutState ;;?
  err_if (is_terminal (status s) && is_some (proposal s))
    (InvalidCertificate (Msg "terminal execution cannot retain a shared proposal")) ;;?
  match proposal s with
  | Some p => check_pending s p
  | None => Ok tt
  end.

(** ** The operations of the aggregate as one alphabet *)

Inductive Op :=
| OpActivate
| OpDispatch (e : Event) (shared local : bytes) (effects : list Effect)
    (outcome : option TerminalOutcome) (pending_id : option Z) (request : option CalloutRequest)
| OpDropHead
| OpSign (sg : ParticipantStepSignature)
| OpCertify (cert : StepCertificate)
| OpStop (o : AbortOccurrence)
| OpPublish (a : ReceiptArtifact)
| OpRecordDirect (from : PeerId) (seq : Z)
| OpAckDirect (to : PeerId) (seq : Z)
| OpConfirmEnd (peer : PeerId)
| OpExpireEnd.

(** What an operation hands back to its caller. *)
Inductive Answer :=
| AUnit
| AFrame (frame : option ExecFrame)
| ACommitted (p : option SharedProposal)
| AChanged (b : bool).

Definition answer {A} (f : A -> Answer) (m : M ExecutionState ProtocolError A)
    : M ExecutionState ProtocolError Answer := let! a := m in sret (f a).

Definition run_op (op : Op) : M ExecutionState ProtocolError Answer :=
  match op with
  | OpActivate => answer (fun _ => AUnit) activate
  | OpDispatch e shared local effects o pid req =>
      answer AFrame (apply_dispatch e shared local effects o pid req)
  | OpDropHead => answer (fun _ => AUnit) drop_outgoing_head
  | OpSign sg => answer ACommitted (add_step_signature sg)
  | OpCertify cert => answer (fun p => ACommitted (Some p)) (certify_step cert)
  | OpStop o => answer (fun _ => AUnit) (stop o)
  | OpPublish a => answer (fun _ => AUnit) (publish_receipt a)
  | OpRecordDirect from seq => answer (fun _ => AUnit) (record_direct from seq)
  | OpAckDirect to seq => answer AChanged (ack_direct to seq)
  | OpConfirmEnd peer => answer AChanged (confirm_end peer)
  | OpExpireEnd => answer (fun _ => AUnit) expire_end
  end.
End Execution.
