(* ===== verification/Invariant.v ===== *)
(** * The aggregate invariant

    [validate_recovered] is the check a host runs when it reloads a persisted
    aggregate.  [wf] strengthens it with the facts the types and the decoder
    guarantee; every operation of [Execution] keeps it, so a state written after
    any accepted operation is a state recovery accepts. *)

From S2P Require Import Prelude Borsh Crypto Session Trace Negotiation Evidence Validation Receipt.
From S2P Require Import Frame Execution.

(** ** Lanes *)

Definition lane_typed (l : DirectLane) : Prop :=
  0 <= last_queued l <= u64_max /\ Forall (fun e => 0 <= d_seq e) (queue l).

(** The queue holds consecutive sequence numbers up to [last_queued]. *)
Definition lane_consecutive (p : PeerId) (l : DirectLane) : Prop :=
  forall i e, queue l !! i = Some e ->
    d_seq e = last_queued l - zlen (queue l) + 1 + Z.of_nat i /\ 1 <= d_seq e /\
    check_effect_budget [SendDirect p (d_msg e) (d_range e)] = Ok tt.

Lemma lane_typed_lookup l i e : lane_typed l -> queue l !! i = Some e -> 0 <= d_seq e.
Proof. intros [_ Hf] Hi. rewrite Forall_lookup in Hf. eauto. Qed.

Lemma check_lane_entry_Ok p l i e :
  check_lane_entry p l (i, e) = Ok tt <->
  d_seq e <> 0 /\ d_seq e <= last_queued l /\
  ((0 < i)%nat -> exists prev, queue l !! (i - 1)%nat = Some prev /\
                    d_seq prev + 1 <= u64_max /\ d_seq e = d_seq prev + 1) /\
  ((i + 1)%nat = length (queue l) -> d_seq e = last_queued l) /\
  check_effect_budget [SendDirect p (d_msg e) (d_range e)] = Ok tt.
Proof.
  unfold check_lane_entry. split.
  - intros Hc. inv_ok. match goal with u : unit |- _ => destruct u end.
    split_and!; [lia|lia| | |done].
    + intros Hi. match goal with Hp : ((0 <? i)%nat && negb ?b)%bool = false |- _ =>
        rewrite (proj2 (Nat.ltb_lt 0 i) Hi) in Hp; rename Hp into Hprev end.
      simpl in Hprev. inv_ok. apply opt_eqb_true in Hprev.
      destruct (queue l !! (i - 1)%nat) as [prev|]; [|done]. simpl in Hprev. inv_ok. eauto.
    + intros Hi. match goal with Hp : ((i + 1 =? _)%nat && negb ?b)%bool = false |- _ =>
        rewrite (proj2 (Nat.eqb_eq _ _) Hi) in Hp; rename Hp into Hlast end.
      simpl in Hlast. inv_ok. lia.
  - intros (H1 & H2 & H3 & H4 & ->). rewrite (proj2 (Z.eqb_neq _ _)) by done.
    rewrite (proj2 (Z.ltb_ge _ _)) by done. simpl.
    assert ((0 <? i)%nat && negb (opt_eqb (prev ← queue l !! (i - 1)%nat; checked_add (d_seq prev) 1)
              (Some (d_seq e))) = false) as ->.
    { destruct (0 <? i)%nat eqn:Hi; [|done]. apply Nat.ltb_lt in Hi.
      destruct (H3 Hi) as (prev & -> & Hle & ->). simpl. unfold checked_add.
      rewrite (proj2 (Z.leb_le _ _)) by done. simpl. by rewrite Z.eqb_refl. }
    assert ((i + 1 =? length (queue l))%nat && negb (d_seq e =? last_queued l) = false) as ->; [|done].
    destruct (i + 1 =? length (queue l))%nat eqn:Hi; [|done]. apply Nat.eqb_eq in Hi.
    rewrite H4 by done. by rewrite Z.eqb_refl.
Qed.

Lemma lane_entries_lookup p l :
  try_for_each (check_lane_entry p l) (imap pair (queue l)) = Ok tt <->
  forall i e, queue l !! i = Some e -> check_lane_entry p l (i, e) = Ok tt.
Proof.
  rewrite try_for_each_Ok, Forall_lookup. split.
  - intros Hall i e Hi. apply (Hall i). rewrite list_lookup_imap, Hi. done.
  - intros Hall i [j e] Hi. rewrite list_lookup_imap in Hi.
    destruct (queue l !! i) eqn:Hq; [|done]. simpl in Hi. simplify_eq. by apply Hall.
Qed.

Lemma lane_entries_consecutive p l :
  lane_typed l ->
  try_for_each (check_lane_entry p l) (imap pair (queue l)) = Ok tt <-> lane_consecutive p l.
Proof.
  intros Ht. rewrite lane_entries_lookup. split.
  - intros Hall.
    assert (forall n i e, (i + 1 + n)%nat = length (queue l) -> queue l !! i = Some e ->
              d_seq e = last_queued l - Z.of_nat n) as Hback.
    { induction n as [|n IH]; intros i e Hn Hi.
      - apply Hall, check_lane_entry_Ok in Hi as (_ & _ & _ & Hl & _). rewrite Hl by lia. lia.
      - destruct (lookup_lt_is_Some_2 (queue l) (i + 1)) as [e' He']; [lia|].
        pose proof (IH (i + 1)%nat e' ltac:(lia) He') as Hseq.
        apply Hall, check_lane_entry_Ok in He' as (_ & _ & Hp & _ & _).
        destruct (Hp ltac:(lia)) as (prev & Hprev & _ & Heq).
        replace (i + 1 - 1)%nat with i in Hprev by lia. simplify_eq. lia. }
    intros i e Hi. pose proof (lookup_lt_Some _ _ _ Hi). pose proof (lane_typed_lookup _ _ _ Ht Hi).
    rewrite (Hback (length (queue l) - 1 - i)%nat i e) by (done || lia).
    pose proof (Hback (length (queue l) - 1 - i)%nat i e ltac:(lia) Hi) as Hseq.
    apply Hall, check_lane_entry_Ok in Hi as (Hnz & _ & _ & _ & Hbud).
    unfold zlen. split_and!; [lia|lia|done].
  - intros Hall i e Hi. apply check_lane_entry_Ok. destruct (Hall i e Hi) as (Hs & H1 & Hbud).
    pose proof (lookup_lt_Some _ _ _ Hi). destruct Ht as [Hr _]. unfold zlen in *.
    split_and!; [lia|lia| |lia|done].
    intros Hi0. destruct (lookup_lt_is_Some_2 (queue l) (i - 1)) as [prev Hp]; [lia|].
    exists prev. split; [done|]. destruct (Hall _ _ Hp) as (Hs' & _ & _). unfold zlen in *. lia.
Qed.

Definition phase_open (s : ExecutionState) : bool :=
  match end_phase s with Open => true | _ => false end.

(** One lane of a well-formed aggregate. *)
Definition lane_ok (s : ExecutionState) (p : PeerId) (l : DirectLane) : Prop :=
  remote_participant s p = true /\ zlen (queue l) <= MAX_DIRECT_QUEUE /\
  (phase_open s = true \/ queue l = []) /\ lane_typed l /\ lane_consecutive p l.

Lemma check_lane_Ok s p l :
  lane_typed l -> check_lane s (p, l) = Ok tt <-> lane_ok s p l.
Proof.
  intros Ht. unfold check_lane, lane_ok, phase_open. split.
  - intros Hc. inv_ok. split_and!; [done|lia| |done|by apply lane_entries_consecutive].
    destruct (end_phase s); [by left|right..]; inv_ok; apply zlen_0; lia.
  - intros (-> & Hn & Hp & _ & Hc). rewrite (proj2 (Z.ltb_ge _ _)) by done. simpl.
    rewrite (proj2 (lane_entries_consecutive p l Ht)) by done.
    destruct Hp as [Hp|Hq]; destruct (end_phase s); try done; by rewrite Hq.
Qed.

(** Queueing one message. *)
Lemma lane_push s p l m r :
  lane_ok s p l -> phase_open s = true -> zlen (queue l) <> MAX_DIRECT_QUEUE ->
  last_queued l + 1 <= u64_max -> check_effect_budget [SendDirect p m r] = Ok tt ->
  lane_ok s p (MkLane (last_queued l + 1)
                 (queue l ++ [MkDirectEntry (last_queued l + 1) m r]) (last_applied l)).
Proof.
  intros (Hr & Hn & _ & [Hrange Hf] & Hc) Hopen Hne Hle Hbud.
  unfold lane_ok, lane_typed; simpl. split_and!; auto.
  - rewrite zlen_app. unfold MAX_DIRECT_QUEUE in *. simpl. rewrite zlen_cons, zlen_nil. lia.
  - lia.
  - apply Forall_app. split; [done|]. apply Forall_singleton. simpl. lia.
  - intros i e. cbn [queue last_queued]. rewrite zlen_app, zlen_cons, zlen_nil.
    intros [Hi|[Hge Hi]]%lookup_app_Some.
    + destruct (Hc i e Hi) as (Hs & ? & ?). split_and!; [lia|done|done].
    + apply list_lookup_singleton_Some in Hi as [Hi <-]. cbn [d_seq d_msg d_range].
      unfold zlen. split_and!; [lia|lia|done].
Qed.

(** [Vec::retain] of the later entries keeps a suffix. *)
Lemma filter_suffix (q : list DirectEntry) (n : Z) :
  StronglySorted (key_lt d_seq) q -> exists k, filter (fun e => n < d_seq e) q = drop k q.
Proof.
  induction 1 as [|e q Hq [k IH] He]; [by exists 0%nat|].
  destruct (decide (n < d_seq e)) as [Hlt|Hge].
  - exists 0%nat. rewrite filter_cons_True by done. simpl. f_equal.
    apply filter_all. eapply Forall_impl; [done|]. unfold key_lt. simpl. intros; lia.
  - exists (S k). rewrite filter_cons_False by done. done.
Qed.

Lemma consecutive_sorted p l : lane_consecutive p l -> StronglySorted (key_lt d_seq) (queue l).
Proof.
  unfold lane_consecutive. generalize (last_queued l - zlen (queue l) + 1). generalize (queue l).
  induction l0 as [|e q IH]; intros z Hc; constructor.
  - apply (IH (z + 1)). intros i x Hi. destruct (Hc (S i) x Hi) as (H1 & ? & ?). split_and!; [lia|done..].
  - apply Forall_lookup. intros i x Hi. destruct (Hc (S i) x Hi) as (H1 & _ & _).
    destruct (Hc 0%nat e eq_refl) as (H2 & _ & _). unfold key_lt. lia.
Qed.

Lemma lane_ack s p l n :
  lane_ok s p l ->
  lane_ok s p (MkLane (last_queued l) (filter (fun e => n < d_seq e) (queue l)) (last_applied l)).
Proof.
  intros (Hr & Hn & Hp & [Hrange Hf] & Hc).
  destruct (filter_suffix (queue l) n (consecutive_sorted _ _ Hc)) as [k ->].
  unfold lane_ok, lane_typed; simpl. split_and!; auto; try lia.
  - unfold zlen in *. rewrite length_drop. lia.
  - destruct Hp as [|Hq]; [by left|right]. by rewrite Hq, drop_nil.
  - by apply Forall_drop.
  - intros i e. cbn [queue last_queued]. rewrite lookup_drop. intros Hi.
    pose proof (lookup_lt_Some _ _ _ Hi). destruct (Hc _ _ Hi) as (Hs & ? & ?).
    unfold zlen in *. rewrite length_drop. split_and!; [lia|done|done].
Qed.

Section Invariant.
Context `{Crypto}.

(** ** The recovery check, field by field *)

Definition pending_ok (s : ExecutionState) : Prop :=
  forall p, proposal s = Some p -> is_terminal (status s) = false /\ check_pending s p = Ok tt.

Record recovered_facts (s : ExecutionState) : Prop := {
  rf_producer : is_participant (binding s) (producer s) = true;
  rf_shared : of_shared (E:=ProtocolError) (shared_state s) = Ok (agreed_state s);
  rf_initial : agreed_step s = 0 -> agreed_state s = binding_initial (binding s);
  rf_zero : agreed_step s = 0 <-> trace_bytes s = 0;
  rf_steps : agreed_step s <= MAX_RECEIPT_TRACE_ENTRIES;
  rf_bytes : trace_bytes s + receipt_overhead s <= MAX_RECEIPT_BYTES;
  rf_outgoing : validate_outgoing (outgoing s) = Ok tt;
  rf_count : Z.of_nat (size (direct s)) <= MAX_PARTICIPANTS;
  rf_lanes : map_Forall (fun p l => check_lane s (p, l) = Ok tt) (direct s);
  rf_end : validate_end s = Ok tt;
  rf_cert : check_last_certificate s = Ok tt;
  rf_status : status_validate_binding (status s) (binding s) (step_cursor s) = Ok tt;
  rf_callout : is_active (status s) = true \/ callout s = None;
  rf_pending : pending_ok s }.

Lemma lanes_Forall s (f : PeerId * DirectLane -> result ProtocolError unit) :
  try_for_each f (lanes s) = Ok tt <-> map_Forall (fun p l => f (p, l) = Ok tt) (direct s).
Proof.
  rewrite try_for_each_Ok. unfold lanes. rewrite sort_key_Permutation, map_Forall_to_list.
  split; intros Hf; (eapply Forall_impl; [exact Hf|]); by intros [].
Qed.

Lemma budget_Ok x y :
  match checked_add x y with Some t => MAX_RECEIPT_BYTES <? t | None => true end = false <->
  x + y <= MAX_RECEIPT_BYTES.
Proof.
  unfold checked_add, MAX_RECEIPT_BYTES, u64_max. destruct (x + y <=? _) eqn:Hu; lia.
Qed.

Lemma eqb_zero_iff x y : Bool.eqb (x =? 0) (y =? 0) = true <-> (x = 0 <-> y = 0).
Proof. rewrite Bool.eqb_true_iff. destruct (Z.eqb_spec x 0), (Z.eqb_spec y 0); split; intros; (done || lia || tauto). Qed.

Lemma validate_recovered_Ok s : validate_recovered s = Ok tt <-> recovered_facts s.
Proof.
  unfold validate_recovered. split.
  - intros Hv. inv_ok. repeat match goal with
    | Hz : (_ =? _) = true |- _ => apply Z.eqb_eq in Hz
    | u : unit |- _ => destruct u
    | Hf : try_for_each _ _ = Ok _ |- _ => apply lanes_Forall in Hf
    | Hb : match checked_add _ _ with _ => _ end = false |- _ => apply budget_Ok in Hb
    | Hb : Bool.eqb _ _ = true |- _ => apply eqb_zero_iff in Hb
    | Hb : (_ && _)%bool = false |- _ => apply andb_false_iff in Hb
    end.
    split; try done; try congruence; try lia.
    + destruct (is_active (status s)); [by left|right].
      match goal with Hor : _ \/ is_some (callout s) = false |- _ => destruct Hor as [Hor|Hor] end; [done|].
      by destruct (callout s).
    + intros p Hp. rewrite Hp in *. split; [|done].
      match goal with Hor : is_terminal _ = false \/ _ |- _ => by destruct Hor end.
  - intros [H1 H2 H3 H4 H5 H6 H7 H8 H9 H10 H11 H12 H13 H14].
    rewrite H1. simpl. rewrite H2. cbn [rbind]. rewrite Z.eqb_refl. simpl.
    replace ((agreed_step s =? 0) && negb (agreed_state s =? binding_initial (binding s))) with false.
    2:{ symmetry. apply andb_false_iff. destruct (Z.eqb_spec (agreed_step s) 0); [right|by left].
        rewrite H3 by done. by rewrite Z.eqb_refl. }
    simpl. rewrite (proj2 (eqb_zero_iff _ _)) by done. simpl.
    rewrite (proj2 (Z.ltb_ge _ (agreed_step s))) by done. simpl.
    rewrite (proj2 (budget_Ok _ _)) by done. cbn [err_if rbind].
    rewrite H7. cbn [rbind]. rewrite (proj2 (Z.ltb_ge _ (Z.of_nat _))) by done. cbn [err_if rbind].
    rewrite (proj2 (lanes_Forall s _)) by done. cbn [rbind].
    rewrite H10. cbn [rbind]. rewrite H11. cbn [rbind]. rewrite H12. cbn [rbind].
    replace (negb (is_active (status s)) && is_some (callout s)) with false
      by (destruct H13 as [->| ->]; [done|]; by rewrite andb_false_r).
    simpl. destruct (proposal s) as [p|] eqn:Hp.
    + destruct (H14 p Hp) as [-> ->]. done.
    + by rewrite andb_false_r.
Qed.

(** ** The invariant *)

Record wf (s : ExecutionState) : Prop := {
  wf_binding : binding_ok (binding s);
  wf_overhead : reserved_overhead (binding s) = Ok (receipt_overhead s);
  wf_step : 0 <= agreed_step s;
  wf_bytes : 0 <= trace_bytes s;
  wf_lanes : map_Forall (lane_ok s) (direct s);
  wf_recovered : recovered_facts s }.

Lemma wf_validate s : wf s -> validate_recovered s = Ok tt.
Proof. intros Hw. apply validate_recovered_Ok, Hw. Qed.

(** The lanes of a state with remote-participant keys are few. *)
Lemma lanes_count (b : ExecutionBinding) (m : gmap PeerId DirectLane) :
  binding_ok b -> map_Forall (fun p _ => is_participant b p = true) m ->
  Z.of_nat (size m) <= MAX_PARTICIPANTS.
Proof.
  intros Hb Hm. pose proof (binding_size b Hb) as Hsz. rewrite <- zlen_participants in Hsz.
  assert (size m <= length (participants b))%nat; [|unfold zlen in *; lia].
  rewrite <- (size_dom m). transitivity (size (list_to_set (participants b) : gset Z)).
  - apply subseteq_size. intros p (l & Hl)%elem_of_dom. apply elem_of_list_to_set.
    apply is_participant_elem. by eapply Hm.
  - by rewrite size_list_to_set by (by apply participants_NoDup).
Qed.

Lemma lane_ok_check s (m : gmap PeerId DirectLane) :
  map_Forall (lane_ok s) m -> map_Forall (fun p l => check_lane s (p, l) = Ok tt) m.
Proof. intros Hm p l Hl. specialize (Hm p l Hl). apply check_lane_Ok; [apply Hm|done]. Qed.

Lemma lane_ok_count s (m : gmap PeerId DirectLane) :
  binding_ok (binding s) -> map_Forall (lane_ok s) m -> Z.of_nat (size m) <= MAX_PARTICIPANTS.
Proof.
  intros Hb Hm. apply (lanes_count (binding s)); [done|]. intros p l Hl.
  destruct (Hm p l Hl) as [Hr _]. unfold remote_participant in Hr. by inv_ok.
Qed.

Lemma lane_ok_default s p : remote_participant s p = true -> lane_ok s p lane_default.
Proof.
  intros Hr. split_and!; [done|done|by right| |].
  - split; [done|constructor].
  - intros i e Hi. done.
Qed.

Lemma lane_ok_lookup s p :
  map_Forall (lane_ok s) (direct s) -> remote_participant s p = true ->
  lane_ok s p (default lane_default (direct s !! p)).
Proof.
  intros Hm Hr. destruct (direct s !! p) as [l|] eqn:Hl; simpl; [by eapply Hm|].
  by apply lane_ok_default.
Qed.

Lemma phase_open_active s : recovered_facts s -> is_terminal (status s) = false -> phase_open s = true.
Proof.
  intros Hr Ht. pose proof (rf_end s Hr) as He. unfold validate_end in He. unfold phase_open.
  destruct (end_phase s); [done|..]; by rewrite Ht in He.
Qed.

(** ** Preservation, operation by operation *)

(** A step that changes only fields no check reads keeps everything else. *)
Lemma bump_version_Ok s u s' :
  bump_version s = (Ok u, s') <-> version s + 1 <= u64_max /\ s' = set_version (version s + 1) s.
Proof.
  unfold bump_version, next_version, version_next. split.
  - intros Hb. inv_ok. done.
  - intros [Hle ->]. unfold sbind, sread, checked_add. rewrite (proj2 (Z.leb_le _ _)) by done.
    by destruct u.
Qed.

Lemma wf_set_version s v : wf s -> wf (set_version v s).
Proof. intros [Wb Wo Ws Wt Wl [? ? ? ? ? ? ? ? ? ? ? ? ? ?]]. split; try done; by split. Qed.

Lemma wf_set_direct s m :
  wf s -> map_Forall (lane_ok s) m -> wf (set_direct m s).
Proof.
  intros [Wb Wo Ws Wt Wl [? ? ? ? ? ? ? ? ? ? ? ? ? ?]] Hm. split; try done. split; try done.
  - by apply (lane_ok_count s).
  - by apply (lane_ok_check s).
Qed.

Lemma wf_set_outgoing s out :
  wf s -> validate_outgoing out = Ok tt -> wf (set_outgoing out s).
Proof. intros [Wb Wo Ws Wt Wl [? ? ? ? ? ? ? ? ? ? ? ? ? ?]] Ho. split; try done; by split. Qed.

Lemma record_direct_wf s from seq u s' :
  wf s -> record_direct from seq s = (Ok u, s') -> wf s'.
Proof.
  intros Hw Ho. unfold record_direct in Ho. inv_ok. apply wf_set_version, wf_set_direct; [done|].
  apply map_Forall_insert_2; [|apply Hw].
  pose proof (lane_ok_lookup s from (wf_lanes s Hw) ltac:(done)) as (? & ? & ? & ? & ?).
  by split_and!.
Qed.

Lemma ack_direct_wf s to seq u s' :
  wf s -> ack_direct to seq s = (Ok u, s') -> wf s'.
Proof.
  intros Hw Ho. unfold ack_direct in Ho. inv_ok.
  destruct (negb _); inv_ok; [done|]. apply wf_set_version, wf_set_direct; [done|].
  apply map_Forall_insert_2; [|apply Hw]. apply lane_ack. by apply (wf_lanes s Hw).
Qed.

Lemma drop_outgoing_head_wf s u s' :
  wf s -> drop_outgoing_head s = (Ok u, s') -> wf s'.
Proof.
  intros Hw Ho. unfold drop_outgoing_head in Ho. inv_ok.
  match goal with Hb : bump_version _ = _ |- _ => apply bump_version_Ok in Hb as [_ ->] end.
  apply wf_set_version, wf_set_outgoing; [done|]. pose proof (rf_outgoing s (wf_recovered s Hw)) as Hr.
  apply validate_outgoing_Ok in Hr as [Hn Hf]. apply validate_outgoing_Ok. split.
  - unfold zlen in *. rewrite length_drop. lia.
  - by apply Forall_drop.
Qed.

Lemma activate_wf s u s' : wf s -> activate s = (Ok u, s') -> wf s'.
Proof.
  intros Hw Ho. unfold activate in Ho. inv_ok.
  match goal with Hb : bump_version _ = _ |- _ => apply bump_version_Ok in Hb as [_ ->] end.
  match goal with Hb : bool_decide _ = true |- _ => apply bool_decide_eq_true in Hb as Hst end.
  apply wf_set_version. destruct Hw as [Wb Wo Ws Wt Wl [? ? ? ? ? ? ? ? ? ? ? ? ? Hp]].
  split; try done. split; try done.
  - unfold validate_end in *. simpl. by rewrite Hst in *.
  - by left.
  - intros p Hs. destruct (Hp p Hs) as [_ Hc]. done.
Qed.

(** ** The end handshake *)

Lemma validate_end_Ok s :
  validate_end s = Ok tt <->
  match end_phase s with
  | Open => is_terminal (status s) = false
  | Ending u => is_terminal (status s) = true /\ u <> ∅ /\
                forall p, p ∈ u -> remote_participant s p = true
  | Ended u => is_terminal (status s) = true /\ forall p, p ∈ u -> remote_participant s p = true
  end.
Proof.
  assert (forall u : gset PeerId, existsb (fun p => negb (remote_participant s p)) (elements u) = false
            <-> forall p, p ∈ u -> remote_participant s p = true) as Hex.
  { intros u. rewrite <- not_true_iff_false, existsb_exists. split.
    - intros Hn p Hp. destruct (remote_participant s p) eqn:Hr; [done|]. exfalso. apply Hn.
      exists p. rewrite Hr. split; [|done]. by apply list_elem_of_In, elem_of_elements.
    - intros Hall (p & Hp%list_elem_of_In%elem_of_elements & Hr). by rewrite Hall in Hr. }
  unfold validate_end. destruct (end_phase s) as [|u|u]; [by rewrite err_if_Ok|..];
    (destruct (is_terminal (status s)); simpl; [|naive_solver]); rewrite <- Hex.
  - rewrite rbind_Ok. case_bool_decide; simpl; split.
    + by intros (? & ? & _).
    + by intros (_ & ? & _).
    + intros ([] & _ & Hr). inv_ok. done.
    + intros (_ & _ & ->). by exists tt.
  - rewrite err_if_Ok. naive_solver.
Qed.

Lemma lane_clear s s' p l :
  remote_participant s' p = remote_participant s p -> lane_ok s p l -> lane_ok s' p (clear_queue l).
Proof.
  intros Hr (H1 & _ & _ & [H2 _] & _). split_and!; [congruence|done|by right| |].
  - split; [done|constructor].
  - intros i e Hi. done.
Qed.

(** Every other participant has to confirm, and there is at least one. *)
Lemma unconfirmed_ok b prod (u : gset PeerId) :
  binding_ok b -> is_participant b prod = true ->
  u = list_to_set (filter (fun p => p <> prod) (participants b)) ->
  u <> ∅ /\ forall p, p ∈ u <-> p <> prod /\ is_participant b p = true.
Proof.
  intros Hb Hp ->.
  assert (forall p, p ∈ (list_to_set (filter (fun p => p <> prod) (participants b)) : gset Z)
            <-> p <> prod /\ is_participant b p = true) as Hu.
  { intros p. rewrite elem_of_list_to_set, list_elem_of_filter, is_participant_elem. done. }
  split; [|done]. intros He.
  pose proof (binding_size b Hb) as Hsz. rewrite <- zlen_participants in Hsz.
  pose proof (participants_NoDup b Hb) as Hnd.
  destruct (participants b) as [|x [|y l]] eqn:Hps; [unfold zlen in Hsz; simpl in Hsz; lia..|].
  apply NoDup_cons in Hnd as [Hxy _]. apply not_elem_of_cons in Hxy as [Hxy _].
  assert (forall z, z ∈ participants b -> z = prod) as Hall.
  { intros z Hz. destruct (decide (z = prod)); [done|]. exfalso.
    eapply (not_elem_of_empty (C:=gset Z) z). rewrite <- He, <- Hps.
    apply elem_of_list_to_set, list_elem_of_filter. done. }
  rewrite Hps in Hall. rewrite (Hall x) in Hxy by left. rewrite (Hall y) in Hxy by (right; left). done.
Qed.

Lemma wf_set_end_phase s ph :
  wf s -> phase_open s = false -> validate_end (set_end_phase ph s) = Ok tt ->
  wf (set_end_phase ph s).
Proof.
  intros [Wb Wo Ws Wt Wl [? ? ? ? ? ? ? ? ? ? ? ? ? ?]] Hopen Hv.
  assert (map_Forall (lane_ok (set_end_phase ph s)) (direct s)) as Hl.
  { intros p l Hp. destruct (Wl p l Hp) as (? & ? & [Hop|?] & ? & ?); [congruence|].
    split_and!; try done. by right. }
  split; try done. split; try done. by apply lane_ok_check.
Qed.

Lemma confirm_end_wf s peer u s' : wf s -> confirm_end peer s = (Ok u, s') -> wf s'.
Proof.
  intros Hw Ho. unfold confirm_end in Ho. inv_ok.
  pose proof (proj1 (validate_end_Ok s) (rf_end s (wf_recovered s Hw))) as He.
  destruct (end_phase s) as [|v|v] eqn:Hph; [by inv_ok|..];
    (destruct (negb _) eqn:Hin; inv_ok; [done|]);
    (match goal with Hb : bump_version _ = _ |- _ => apply bump_version_Ok in Hb as [_ ->] end);
    apply wf_set_version, wf_set_end_phase; try done;
    try (unfold phase_open; by rewrite Hph); apply validate_end_Ok; simpl;
    apply bool_decide_eq_true in Hin; case_bool_decide as Hemp; repeat split; try done;
    try apply He; (set_solver || (intros p Hp; apply He; set_solver)).
Qed.

Lemma expire_end_wf s u s' : wf s -> expire_end s = (Ok u, s') -> wf s'.
Proof.
  intros Hw Ho. unfold expire_end in Ho. inv_ok.
  pose proof (proj1 (validate_end_Ok s) (rf_end s (wf_recovered s Hw))) as He.
  destruct (end_phase s) as [|v|v] eqn:Hph; inv_ok.
  match goal with Hb : bump_version _ = _ |- _ => apply bump_version_Ok in Hb as [_ ->] end.
  apply wf_set_version, wf_set_end_phase; [done|unfold phase_open; by rewrite Hph|].
  apply validate_end_Ok. simpl. by destruct He as (? & _ & ?).
Qed.

(** ** Dispatch *)

Lemma queue_direct_ok s effects m m' :
  phase_open s = true -> check_effect_budget effects = Ok tt ->
  map_Forall (lane_ok s) m -> queue_direct s m effects = Ok m' -> map_Forall (lane_ok s) m'.
Proof.
  intros Hopen Hbud. unfold queue_direct. apply try_fold_inv_elem.
  intros b e b' Hin Hb He. destruct e; inv_ok; try done.
  apply map_Forall_insert_2; [|done]. apply lane_push; try done.
  - destruct (b !! to) as [l|] eqn:Hl; simpl; [by apply Hb|]. by apply lane_ok_default.
  - by apply Z.eqb_neq.
  - by eapply check_effect_budget_elem.
Qed.

Lemma install_dispatch_wf s pos shared local post out st co u s' :
  wf s -> of_shared (E:=ProtocolError) shared = Ok post ->
  install_dispatch pos shared local post out st co s = (Ok u, s') ->
  wf s' /\ is_active (status s) = true /\
  s' = set_version (version s + 1) (set_callout co (set_status Active (set_outgoing out
         (set_local_state local (set_shared_state shared (set_event_position (event_position s + 1) s)))))).
Proof.
  intros Hw Hsh Ho. unfold install_dispatch in Ho. inv_ok.
  match goal with Hb : bump_version _ = _ |- _ => apply bump_version_Ok in Hb as [_ ->] end.
  repeat match goal with
  | Hz : (_ =? _) = true |- _ => apply Z.eqb_eq in Hz
  | Hz : is_some (proposal s) = false |- _ => destruct (proposal s) eqn:Hprop; [done|]; clear Hz
  | u : unit |- _ => destruct u
  end. subst.
  assert (st = Active) as -> by (by destruct st). split_and!; [|done|done].
  apply wf_set_version. destruct Hw as [Wb Wo Ws Wt Wl [? ? ? ? ? ? ? ? ? He ? ? ? ?]].
  assert (is_terminal (status s) = false) as Ht by (by destruct (status s)).
  split; try done. split; try done.
  - rewrite validate_end_Ok in *. cbn. destruct (end_phase s); [done|..]; destruct He as [He _]; congruence.
  - by left.
  - intros p Hp. cbn in Hp. congruence.
Qed.

Lemma indexed_dispatch_effects_Ok effects l :
  indexed_dispatch_effects effects = Ok l -> l = imap (fun i e => (Z.of_nat i, e)) effects.
Proof.
  unfold indexed_dispatch_effects.
  set (f := fun acc p => _). intros Hf.
  enough (forall l0 acc, try_fold f acc l0 = Ok l -> l = acc ++ l0) as Hgen by (by apply Hgen in Hf).
  clear Hf. induction l0 as [|p l0 IH]; intros acc Hf; simpl in Hf.
  - inv_ok. by rewrite app_nil_r.
  - apply rbind_Ok in Hf as (acc' & Ha & Hr). unfold f in Ha. inv_ok. apply IH in Hr as ->.
    by rewrite <- app_assoc.
Qed.

(** Effects kept with their ordinals pass the recovery check on effects. *)
Lemma kept_effects_valid effects :
  check_effect_budget effects = Ok tt ->
  validate_effects (filter (fun p => is_broadcast p.2 = false)
                      (imap (fun i e => (Z.of_nat i, e)) effects)) = Ok tt.
Proof.
  intros Hbud. set (idx := imap _ effects). unfold validate_effects.
  assert (map snd idx = effects) as Hsnd.
  { unfold idx. clear. generalize effects. intros l. change (map snd ?x) with (snd <$> x).
    rewrite fmap_imap. apply list_eq. intros i. rewrite list_lookup_imap. by destruct (l !! i). }
  assert (existsb (fun '(ordinal, _) => MAX_EFFECTS <=? ordinal)
            (filter (fun p => is_broadcast p.2 = false) idx) = false) as ->.
  { apply not_true_iff_false. intros ([o e] & Hin%list_elem_of_In & Hge)%existsb_exists.
    apply list_elem_of_filter in Hin as [_ (i & Hi)%list_elem_of_lookup].
    unfold idx in Hi. rewrite list_lookup_imap in Hi. destruct (effects !! i) eqn:Hl; [|done].
    simpl in Hi. simplify_eq. apply lookup_lt_Some in Hl.
    apply check_effect_budget_Ok in Hbud as (Hn & _ & _). unfold zlen in Hn. lia. }
  simpl. rewrite (sorted_windows2 fst) by
    (apply sorted_filter; exact (enumerate_sorted effects 0)).
  simpl. apply (check_effect_budget_sublist _ (map snd idx)); [apply map_filter_sublist|].
  by rewrite Hsnd.
Qed.

Lemma stage_proposal_wf s p u s' :
  wf s -> validate_effects (pr_effects p) = Ok tt -> validate_outgoing (pr_outgoing p) = Ok tt ->
  (is_active (pr_status p) = true \/ pr_callout p = None) ->
  stage_proposal p s = (Ok u, s') ->
  wf s' /\ is_active (status s) = true /\ proposal s = None /\
  s' = set_version (version s + 1) (set_proposal (Some p) (set_event_position (event_position s + 1) s)).
Proof.
  intros Hw Heff Hout Hco Ho. unfold stage_proposal in Ho. inv_ok.
  match goal with Hb : bump_version _ = _ |- _ => apply bump_version_Ok in Hb as [_ ->] end.
  repeat match goal with
  | Hz : (_ =? _) = true |- _ => apply Z.eqb_eq in Hz
  | u : unit |- _ => destruct u
  end.
  split_and!; [|done|by destruct (proposal s)|done].
  apply wf_set_version. destruct Hw as [Wb Wo Ws Wt Wl [? ? ? ? ? ? ? ? ? He ? ? ? ?]].
  split; try done. split; try done.
  intros q [= <-]. split; [by cbn; destruct (status s)|].
  unfold check_pending. cbn [event_position set_proposal set_event_position].
  match goal with Hpos : pr_event_position p = event_position s |- _ => rewrite Hpos end.
  unfold checked_add. rewrite (proj2 (Z.leb_le _ _)) by done. cbn [ok_or rbind].
  rewrite Z.eqb_refl. cbn [negb err_if rbind]. rewrite Heff. cbn [rbind].
  match goal with Hv : validate_proposal (binding s) _ _ p = _ |- _ =>
    change (step_cursor (set_proposal _ _)) with (step_cursor s); cbn [binding set_proposal set_event_position];
    rewrite Hv end.
  cbn [rbind]. rewrite Hout. cbn [rbind].
  match goal with Hv : check_proposal_receipt_budget s p = _ |- _ =>
    change (check_proposal_receipt_budget (set_proposal _ _) p) with (check_proposal_receipt_budget s p);
    rewrite Hv end.
  cbn [rbind]. destruct Hco as [->| ->]; [done|]. by rewrite andb_false_r.
Qed.

Lemma apply_local_wf s e pos post shared local effects lc o req r s' :
  wf s -> of_shared (E:=ProtocolError) shared = Ok post -> check_effect_budget effects = Ok tt ->
  apply_local e pos post shared local effects lc o req s = (Ok r, s') -> wf s'.
Proof.
  intros Hw Hsh Hbud Ho. unfold apply_local in Ho. inv_ok.
  match goal with Hi : install_dispatch _ _ _ _ _ _ _ _ = _ |- _ =>
    apply install_dispatch_wf in Hi as (Hw' & Hact & ->); [|done|done] end.
  apply wf_set_direct; [done|].
  assert (phase_open s = true) as Hopen
    by (apply phase_open_active; [apply Hw|by destruct (status s)]).
  match goal with Hq : queue_direct s _ _ = Ok _ |- _ =>
    exact (queue_direct_ok s _ _ _ Hopen Hbud (wf_lanes s Hw) Hq) end.
Qed.

(** A successful [proposal_new] bounds what it stores. *)
Lemma proposal_new_Ok e shared local out eff pos st co sg p :
  proposal_new e shared local out eff pos st co sg = Ok p ->
  p = MkProposal e shared local out eff pos st co sg /\ validate_outgoing out = Ok tt /\
  (is_active st = true \/ co = None).
Proof.
  unfold proposal_new. intros Hp. inv_ok. repeat match goal with u : unit |- _ => destruct u end.
  split_and!; [done|done|]. destruct (is_active st); [by left|right]. by destruct co.
Qed.

Lemma apply_agreed_wf s e pos post shared local effects lc o req r s' :
  wf s -> check_effect_budget effects = Ok tt ->
  apply_agreed e pos post shared local effects (imap (fun i e => (Z.of_nat i, e)) effects) lc o req s
    = (Ok r, s') -> wf s'.
Proof.
  intros Hw Hbud Ho. unfold apply_agreed in Ho. inv_ok.
  match goal with Hp : proposal_new _ _ _ _ _ _ _ _ _ = Ok _ |- _ =>
    apply proposal_new_Ok in Hp as (-> & Hout & Hco) end.
  match goal with Hs : stage_proposal _ _ = _ |- _ =>
    apply stage_proposal_wf in Hs as [Hw' _]; [done|done|by apply kept_effects_valid|done|done] end.
Qed.

Lemma apply_dispatch_wf s e shared local effects o pid req r s' :
  wf s -> apply_dispatch e shared local effects o pid req s = (Ok r, s') -> wf s'.
Proof.
  intros Hw Ho. unfold apply_dispatch in Ho. inv_ok.
  match goal with Hi : indexed_dispatch_effects _ = Ok _ |- _ =>
    apply indexed_dispatch_effects_Ok in Hi as -> end.
  repeat match goal with u : unit |- _ => destruct u end.
  destruct (negb (is_agreed_event e)).
  - by eapply apply_local_wf.
  - by eapply apply_agreed_wf.
Qed.

(** ** Certification *)

Lemma check_pending_Ok s p :
  check_pending s p = Ok tt <->
  pr_event_position p + 1 <= u64_max /\ event_position s = pr_event_position p + 1 /\
  validate_effects (pr_effects p) = Ok tt /\
  validate_proposal (binding s) (step_cursor s) (pr_event_position p) p = Ok tt /\
  validate_outgoing (pr_outgoing p) = Ok tt /\ check_proposal_receipt_budget s p = Ok tt /\
  (is_active (pr_status p) = true \/ pr_callout p = None).
Proof.
  unfold check_pending. split.
  - intros Hc. inv_ok. repeat match goal with
    | Hz : (_ =? _) = true |- _ => apply Z.eqb_eq in Hz | u : unit |- _ => destruct u end.
    split_and!; try done. destruct (is_active (pr_status p)); [by left|right].
    by destruct (pr_callout p).
  - intros (H1 & H2 & -> & -> & -> & -> & H3). unfold checked_add.
    rewrite (proj2 (Z.leb_le _ _)) by done. cbn [ok_or rbind]. rewrite H2, Z.eqb_refl.
    cbn [negb err_if rbind]. destruct H3 as [->| ->]; [done|]. by rewrite andb_false_r.
Qed.

Lemma wf_pending s p : wf s -> proposal s = Some p ->
  is_terminal (status s) = false /\ check_pending s p = Ok tt.
Proof. intros Hw. apply (rf_pending s (wf_recovered s Hw)). Qed.

(** Replacing the pending proposal by one that passes the same checks. *)
Lemma wf_set_proposal s p p' :
  wf s -> proposal s = Some p -> check_pending s p' = Ok tt -> wf (set_proposal (Some p') s).
Proof.
  intros Hw Hp Hc. destruct (wf_pending s p Hw Hp) as [Ht _].
  destruct Hw as [Wb Wo Ws Wt Wl [? ? ? ? ? ? ? ? ? ? ? ? ? ?]].
  split; try done. split; try done. intros q [= <-]. done.
Qed.

Lemma add_signature_pending s p k sg p' :
  wf s -> proposal s = Some p -> commitment_for (E:=ProtocolError) s p = Ok k ->
  add_signature (binding s) k sg p = Ok p' ->
  check_pending s p' = Ok tt /\ signed_by (binding s) k sg /\
  p' = set_signatures p (sort_key participant (signatures p ++ [sg])).
Proof.
  intros Hw Hp Hk Ha. destruct (wf_pending s p Hw Hp) as [_ Hc].
  apply check_pending_Ok in Hc as (H1 & H2 & H3 & H4 & H5 & H6 & H7).
  unfold validate_proposal in H4. apply rbind_Ok in H4 as (k' & Hst & Hret).
  assert (k' = k) as ->.
  { apply validate_staged_Ok in Hst. pose proof (sf_commit _ _ _ _ _ Hst) as Hk'.
    unfold commitment_for in Hk. simpl in Hk'. congruence. }
  apply add_signature_Ok in Ha as (-> & Hret' & Hsg & _); [|apply Hw|done].
  split_and!; [|done|done]. apply check_pending_Ok. split_and!; try done.
  unfold validate_proposal. apply rbind_Ok. exists k. done.
Qed.

(** The aggregate after certification, before the version moves. *)
Definition certified_state (s : ExecutionState) (p : SharedProposal) (cert : StepCertificate)
    (next : StepCursor) (bytes : Z) : ExecutionState :=
  set_proposal None (set_callout (pr_callout p) (begin_end (set_status (pr_status p)
    (set_outgoing (pr_outgoing p) (set_local_state (pr_local_state p) (set_shared_state (pr_shared_state p)
      (set_last_certificate (Some cert) (set_agreed_link (chain_hash next) (set_agreed_state (state_hash next)
        (set_trace_bytes bytes (set_agreed_step (next_step next) (set_proposal None s)))))))))))).

Lemma install_certified_Ok s cert c s' :
  install_certified cert s = (Ok c, s') ->
  exists p k next bytes,
    proposal s = Some p /\
    validate_proposal (binding s) (step_cursor s) (pr_event_position p) p = Ok tt /\
    commitment_for (E:=ProtocolError) s p = Ok k /\ commitment cert = k /\
    certificate_verify cert (binding s) = Ok tt /\ advance (step_cursor s) k = Ok next /\
    check_receipt_budget s (entry p) = Ok bytes /\
    c = set_entry p (with_agreement (entry p) (cert_agreement cert)) /\
    s' = certified_state s p cert next bytes.
Proof.
  unfold install_certified. intros Ho. inv_ok.
  match goal with Hb : bool_decide _ = true |- _ => apply bool_decide_eq_true in Hb as Hk end.
  repeat match goal with u : unit |- _ => destruct u end.
  do 4 eexists. split_and!; try done. by rewrite Hk in *.
Qed.

Lemma c_entry_positive e n : object_length c_entry e = Ok n -> 0 < n.
Proof.
  unfold object_length. intros Hn. inv_ok. unfold c_entry in *. simpl in *.
  match goal with He : (write_uint 4 _ +++ _) = Ok _ |- _ =>
    apply wcat_Ok in He as (b1 & b2 & Hb1 & _ & ->) end.
  unfold write_uint in Hb1. inv_ok. rewrite zlen_app. pose proof (zlen_nonneg b2).
  unfold zlen at 1. rewrite length_le_bytes. lia.
Qed.

(** The budget check, spelled out. *)
Lemma check_receipt_budget_Ok s e n :
  check_receipt_budget s e = Ok n <->
  exists size, certified_size s e = Ok size /\ n = trace_bytes s + size /\
    agreed_step s + 1 <= MAX_RECEIPT_TRACE_ENTRIES /\ n + receipt_overhead s <= MAX_RECEIPT_BYTES /\
    n <= u64_max.
Proof.
  unfold check_receipt_budget, check_receipt_entries. cbn [try_fold]. rewrite zlen_cons, zlen_nil.
  replace (1 + 0) with 1 by lia. split.
  - intros Hc. inv_ok.
    match goal with Hb : match checked_add _ (receipt_overhead s) with _ => _ end = false |- _ =>
      apply budget_Ok in Hb end.
    eexists. split_and!; try done.
    unfold checked_add in *. destruct (agreed_step s + 1 <=? u64_max); [lia|done].
  - intros (size & -> & -> & H1 & H2 & H3). cbn [rbind]. unfold checked_add at 1.
    rewrite (proj2 (Z.leb_le _ _)) by done. cbn [ok_or rbind].
    rewrite (proj2 (budget_Ok _ _)) by done.
    unfold checked_add. rewrite (proj2 (Z.leb_le _ _)) by (unfold MAX_RECEIPT_TRACE_ENTRIES, u64_max in *; lia).
    by rewrite (proj2 (Z.ltb_ge _ _)) by done.
Qed.

Lemma certified_size_positive s e n : certified_size s e = Ok n -> 0 < n.
Proof. unfold certified_size. intros Hn. inv_ok. by eapply c_entry_positive. Qed.

(** A staged status is the running one or a terminal one. *)
Lemma staged_status b c pos p k :
  staged_facts b c pos p k -> pr_status p = Active \/ is_terminal (pr_status p) = true.
Proof.
  intros Hs. pose proof (sf_status _ _ _ _ _ Hs) as Hv. unfold validate_proposal_status in Hv.
  destruct (terminal (entry p)) as [[]|]; destruct (pr_status p); (by left) || (by right) || done.
Qed.

Lemma begin_end_cases s :
  begin_end s = s \/
  (is_terminal (status s) = true /\ end_phase s = Open /\
   begin_end s = set_direct (clear_queue <$> direct s) (set_end_phase
     (Ending (list_to_set (filter (fun p => p <> producer s) (participants (binding s))))) s)).
Proof.
  unfold begin_end. destruct (is_terminal (status s)); [|by left]. simpl.
  destruct (end_phase s); [right|left..]; done.
Qed.

Lemma begin_end_terminal s :
  is_terminal (status s) = true -> end_phase s = Open ->
  begin_end s = set_direct (clear_queue <$> direct s) (set_end_phase
     (Ending (list_to_set (filter (fun p => p <> producer s) (participants (binding s))))) s).
Proof. intros Ht Ho. unfold begin_end. by rewrite Ht, Ho. Qed.

(** The lanes and the phase after entering the end handshake. *)
Lemma begin_end_ok s s0 :
  wf s0 -> is_terminal (status s0) = false -> is_terminal (status s) = true ->
  end_phase s = end_phase s0 -> direct s = direct s0 -> binding s = binding s0 ->
  producer s = producer s0 ->
  exists u, end_phase (begin_end s) = Ending u /\ u <> ∅ /\
    (forall p, p ∈ u -> remote_participant s0 p = true) /\
    map_Forall (lane_ok (begin_end s)) (direct (begin_end s)).
Proof.
  intros Hw Hn Ht Hph Hd Hb Hp.
  assert (end_phase s0 = Open) as Ho.
  { pose proof (phase_open_active s0 (wf_recovered s0 Hw) Hn) as Hop. unfold phase_open in Hop.
    by destruct (end_phase s0). }
  rewrite begin_end_terminal by congruence.
  destruct (unconfirmed_ok (binding s0) (producer s0) _ (wf_binding s0 Hw)
              (rf_producer s0 (wf_recovered s0 Hw)) eq_refl) as [Hne Hu].
  eexists. cbn [end_phase set_direct set_end_phase]. rewrite Hb, Hp. split_and!; [done|done| |].
  - intros p [Hpp Hpart]%Hu. unfold remote_participant. rewrite (proj2 (Z.eqb_neq _ _)) by done. done.
  - cbn [direct set_direct]. intros p l (l0 & <- & Hl)%lookup_fmap_Some.
    apply (lane_clear s0); [unfold remote_participant; cbn; by rewrite Hb, Hp|].
    apply (wf_lanes s0 Hw). congruence.
Qed.

(** The conditions under which [install_certified] installs. *)
Record certifiable (s : ExecutionState) (p : SharedProposal) (cert : StepCertificate)
    (next : StepCursor) (bytes : Z) : Prop := {
  ce_proposal : proposal s = Some p;
  ce_staged : staged_facts (binding s) (step_cursor s) (pr_event_position p) p (commitment cert);
  ce_verify : certificate_verify cert (binding s) = Ok tt;
  ce_advance : advance (step_cursor s) (commitment cert) = Ok next;
  ce_budget : check_receipt_budget s (entry p) = Ok bytes }.

Lemma install_certifiable s cert c s' :
  install_certified cert s = (Ok c, s') ->
  exists p next bytes, certifiable s p cert next bytes /\
    c = set_entry p (with_agreement (entry p) (cert_agreement cert)) /\
    s' = certified_state s p cert next bytes.
Proof.
  intros (p & k & next & bytes & Hp & Hv & Hk & <- & Hcv & Hadv & Hb & -> & ->)%install_certified_Ok.
  exists p, next, bytes. split_and!; [|done|done]. split; try done.
  unfold validate_proposal in Hv. apply rbind_Ok in Hv as (k & Hst & _).
  apply validate_staged_Ok in Hst. pose proof (sf_commit _ _ _ _ _ Hst) as Hk'.
  assert (k = commitment cert) as -> by (unfold commitment_for in Hk; simpl in Hk'; congruence). done.
Qed.

(** What certification leaves in the aggregate, whatever the end phase does. *)
Record certified_fields (s s' : ExecutionState) (p : SharedProposal) (cert : StepCertificate)
    (next : StepCursor) (bytes : Z) : Prop := {
  cf_binding : binding s' = binding s;
  cf_producer : producer s' = producer s;
  cf_overhead : receipt_overhead s' = receipt_overhead s;
  cf_cursor : step_cursor s' = next;
  cf_bytes : trace_bytes s' = bytes;
  cf_cert : last_certificate s' = Some cert;
  cf_outgoing : outgoing s' = pr_outgoing p;
  cf_shared : shared_state s' = pr_shared_state p;
  cf_status : status s' = pr_status p;
  cf_callout : callout s' = pr_callout p;
  cf_proposal : proposal s' = None }.

Lemma certified_state_fields s p cert next bytes :
  certified_fields s (certified_state s p cert next bytes) p cert next bytes.
Proof.
  unfold certified_state.
  match goal with |- context [begin_end ?s1] => destruct (begin_end_cases s1) as [->|(_ & _ & ->)] end;
    split; by destruct next.
Qed.

Lemma certified_fields_wf s s' p cert next bytes :
  wf s -> certifiable s p cert next bytes -> certified_fields s s' p cert next bytes ->
  map_Forall (lane_ok s') (direct s') -> validate_end s' = Ok tt -> wf s'.
Proof.
  intros Hw Hc [F1 F2 F3 F4 F5 F6 F7 F8 F9 F10 F11] Hl Hend. destruct Hc as [Hp Hsf Hcv Hadv Hbud].
  destruct (wf_pending s p Hw Hp) as [Hn Hpend].
  apply check_pending_Ok in Hpend as (_ & _ & _ & _ & Hout & _ & Hco).
  apply check_receipt_budget_Ok in Hbud as (sz & Hsz & -> & Hcount & Htot & _).
  apply certified_size_positive in Hsz.
  destruct (sf_advance _ _ _ _ _ Hsf) as (c' & Hadv' & Hsv). assert (c' = next) as -> by congruence.
  pose proof (proj1 (advance_Ok _ _ _) Hadv) as (Hstep & _ & _ & Hu & Hnext).
  destruct Hw as [Wb Wo Ws Wt Wl [R1 R2 R3 R4 R5 R6 R7 R8 R9 R10 R11 R12 R13 R14]].
  assert (agreed_step s' = agreed_step s + 1 /\ agreed_state s' = c_post_state (commitment cert) /\
          agreed_link s' = link_hash (commitment cert)) as (E1 & E2 & E3).
  { rewrite Hnext in F4. by injection F4. }
  split; rewrite ?F1, ?F3, ?F5, ?E1; try done; try lia. split; rewrite ?F1, ?F2, ?F3, ?F5, ?F7, ?F8, ?E1, ?E2;
    try done; try lia.
  - apply (sf_post _ _ _ _ _ Hsf).
  - apply (lane_ok_count s'); [by rewrite F1|done].
  - by apply lane_ok_check.
  - unfold check_last_certificate. rewrite F6, F1, E1, E2, E3, Hstep. cbn [next_step step_cursor] in *.
    unfold checked_add. rewrite (proj2 (Z.leb_le _ _)) by done. cbn. by rewrite !Z.eqb_refl.
  - by rewrite F9, F4.
  - by rewrite F9, F10.
  - intros q Hq. congruence.
Qed.

Lemma certified_state_wf s p cert next bytes :
  wf s -> certifiable s p cert next bytes -> wf (certified_state s p cert next bytes).
Proof.
  intros Hw Hc. destruct (wf_pending s p Hw (ce_proposal _ _ _ _ _ Hc)) as [Hn _].
  pose proof (phase_open_active s (wf_recovered s Hw) Hn) as Hop.
  assert (end_phase s = Open) as Hopen by (unfold phase_open in Hop; by destruct (end_phase s)).
  eapply certified_fields_wf; [done|done|apply certified_state_fields|..]; unfold certified_state;
    destruct (staged_status _ _ _ _ _ (ce_staged _ _ _ _ _ Hc)) as [Hact|Hterm];
    match goal with |- context [begin_end ?s1] => set (s2 := s1) end.
  - assert (begin_end s2 = s2) as -> by (unfold begin_end, s2; cbn; by rewrite Hact). apply Hw.
  - destruct (begin_end_ok s2 s Hw Hn Hterm eq_refl eq_refl eq_refl eq_refl) as (u & _ & _ & _ & Hl).
    exact Hl.
  - assert (begin_end s2 = s2) as -> by (unfold begin_end, s2; cbn; by rewrite Hact).
    apply validate_end_Ok. cbn. by rewrite Hopen, Hact.
  - destruct (begin_end_ok s2 s Hw Hn Hterm eq_refl eq_refl eq_refl eq_refl) as (u & Hph & Hne & Hu & _).
    apply validate_end_Ok. cbn [end_phase set_proposal set_callout status]. rewrite Hph.
    rewrite (begin_end_terminal s2 Hterm Hopen). done.
Qed.

Lemma certify_step_Ok s cert c s' :
  certify_step cert s = (Ok c, s') ->
  exists p next bytes, certifiable s p cert next bytes /\
    c = set_entry p (with_agreement (entry p) (cert_agreement cert)) /\
    version s + 1 <= u64_max /\
    s' = set_version (version s + 1) (certified_state s p cert next bytes).
Proof.
  unfold certify_step. intros Ho. inv_ok.
  match goal with Hb : bump_version _ = _ |- _ => apply bump_version_Ok in Hb as [Hle ->] end.
  match goal with Hi : install_certified _ _ = _ |- _ =>
    apply install_certifiable in Hi as (p & next & bytes & Hc & -> & ->) end.
  assert (version (certified_state s p cert next bytes) = version s) as Hver.
  { unfold certified_state. match goal with |- context [begin_end ?s1] =>
      destruct (begin_end_cases s1) as [->|(_ & _ & ->)] end; done. }
  rewrite Hver in *. by exists p, next, bytes.
Qed.

Lemma certify_step_wf s cert c s' : wf s -> certify_step cert s = (Ok c, s') -> wf s'.
Proof.
  intros Hw (p & next & bytes & Hc & _ & _ & ->)%certify_step_Ok.
  by apply wf_set_version, certified_state_wf.
Qed.

(** Adding a signature either grows the pending list or certifies. *)
Lemma add_step_signature_Ok s sg r s' :
  wf s -> add_step_signature sg s = (Ok r, s') ->
  exists p k, proposal s = Some p /\ commitment_for (E:=ProtocolError) s p = Ok k /\
    signed_by (binding s) k sg /\
    let p' := set_signatures p (sort_key participant (signatures p ++ [sg])) in
    let s1 := set_proposal (Some p') s in
    wf s1 /\
    ((r = None /\ zlen (signatures p') <> zlen (binding_tickets (binding s)) /\
      version s + 1 <= u64_max /\ s' = set_version (version s + 1) s1) \/
     (exists cert c, r = Some c /\ from_signatures (binding s) k p' = Ok cert /\
        zlen (signatures p') = zlen (binding_tickets (binding s)) /\
        certify_step cert s1 = (Ok c, s'))).
Proof.
  intros Hw Ho. unfold add_step_signature in Ho. inv_ok.
  match goal with Hp : proposal s = Some _, Hp' : proposal s = Some _ |- _ => rewrite Hp in Hp'; simplify_eq end.
  match goal with Hk : proposal_commitment s = Ok _, Hp : proposal s = Some ?q |- _ =>
    unfold proposal_commitment in Hk; rewrite Hp in Hk; exists q end.
  inv_ok. simplify_eq.
  match goal with Ha : add_signature _ ?k _ ?q = Ok _ |- _ =>
    exists k; destruct (add_signature_pending s q k sg _ Hw ltac:(done) ltac:(done) Ha) as (Hpend & Hsg & ->) end.
  split_and!; [done|done|done|]. cbv zeta.
  split; [by eapply wf_set_proposal|].
  destruct (zlen _ =? zlen _) eqn:Hlen; [right|left]; inv_ok.
  - do 2 eexists. split_and!; [done|done|by apply Z.eqb_eq|]. unfold certify_step. apply on_clone_Ok.
    apply sbind_Ok. do 2 eexists. split; [done|]. apply sbind_Ok. do 2 eexists. split; [done|]. done.
  - match goal with Hb : bump_version _ = _ |- _ => apply bump_version_Ok in Hb as [? ->] end.
    apply Z.eqb_neq in Hlen. done.
Qed.

Lemma add_step_signature_wf s sg r s' : wf s -> add_step_signature sg s = (Ok r, s') -> wf s'.
Proof.
  intros Hw Ho. destruct (add_step_signature_Ok s sg r s' Hw Ho)
    as (p & k & _ & _ & _ & Hw1 & [(_ & _ & _ & ->)|(cert & c & _ & _ & _ & Hc)]).
  - by apply wf_set_version.
  - by eapply certify_step_wf.
Qed.

(** ** Stop and publication *)

Lemma stop_wf s o u s' : wf s -> stop o s = (Ok u, s') -> wf s'.
Proof.
  intros Hw Ho. unfold stop in Ho. inv_ok.
  match goal with Hb : bump_version _ = _ |- _ => apply bump_version_Ok in Hb as [_ ->] end.
  match goal with Hs : stopped o = Ok _ |- _ => unfold stopped in Hs end. inv_ok.
  match goal with Hb : bool_decide _ = true |- _ => apply bool_decide_eq_true in Hb as Hcoord end.
  match goal with Ht : is_terminal (status s) = false |- _ => rename Ht into Hn end.
  repeat match goal with u : unit |- _ => destruct u | b : bool |- _ => destruct b; [|done] end.
  apply wf_set_version.
  set (s1 := set_status (Stopped (Authenticated o)) (set_callout None (set_proposal None s))).
  destruct (begin_end_ok s1 s Hw Hn eq_refl eq_refl eq_refl eq_refl eq_refl) as (ph & Hph & Hne & Hu & Hl).
  pose proof (phase_open_active s (wf_recovered s Hw) Hn) as Hop.
  assert (end_phase s = Open) as Hopen by (unfold phase_open in Hop; by destruct (end_phase s)).
  assert (validate_end (begin_end s1) = Ok tt) as Hve.
  { apply validate_end_Ok. rewrite Hph. by rewrite (begin_end_terminal s1 eq_refl Hopen). }
  revert Hl Hve. rewrite (begin_end_terminal s1 eq_refl Hopen). intros Hl Hve.
  destruct Hw as [Wb Wo Ws Wt Wl [R1 R2 R3 R4 R5 R6 R7 R8 R9 R10 R11 R12 R13 R14]].
  match type of Hl with map_Forall (lane_ok ?s2) _ => pose proof (lane_ok_count s2 _ Wb Hl);
    pose proof (lane_ok_check s2 _ Hl) end.
  split; try done. split; try done.
  - unfold validate_for_session in *. inv_ok. cbn. repeat match goal with u : unit |- _ => destruct u end.
    match goal with Hs : validate_shape o = _ |- _ => rewrite Hs end. cbn [rbind].
    unfold cause_validate_binding. match goal with Hs : (_ =? _) = true |- _ => rewrite Hs end.
    rewrite bool_decide_eq_true_2 by done.
    match goal with Hs : is_participant _ _ = true |- _ => rewrite Hs end. cbn.
    match goal with Hs : verify_signature o = _ |- _ => rewrite Hs end. done.
  - by right.
Qed.

Lemma published_status_Ok s a st :
  status_validate_binding (status s) (binding s) (step_cursor s) = Ok tt ->
  published_status s a = Ok st ->
  is_terminal (status s) = true /\ is_terminal st = true /\
  (receipt_id a <> 0 -> status_validate_binding st (binding s) (step_cursor s) = Ok tt).
Proof.
  intros Hv Hps. unfold published_status in Hps.
  destruct (status s) as [| |o| |c|] eqn:Hst; try done.
  - destruct (termination _); [|done]. inv_ok. split_and!; [done|done|]. intros Hid.
    cbn [status_validate_binding] in *. inv_ok.
    match goal with Ho : outcome_validate o = Ok ?u |- _ => destruct u; rewrite Ho end. cbn [rbind].
    match goal with Ho : (next_step _ =? 0) = false |- _ => rewrite Ho end.
    by rewrite (proj2 (Z.eqb_neq _ _)).
  - destruct (termination _); [done|]. case_bool_decide; [|done]. inv_ok.
    split_and!; [done|done|]. intros Hid. cbn [status_validate_binding] in *. inv_ok.
    repeat match goal with u : unit |- _ => destruct u end.
    match goal with Ho : cause_validate _ = Ok _ |- _ => rewrite Ho end. cbn [rbind].
    rewrite Hv. by rewrite (proj2 (Z.eqb_neq _ _)).
Qed.

Lemma publish_receipt_wf s a u s' :
  wf s -> receipt_id a <> 0 -> publish_receipt a s = (Ok u, s') -> wf s'.
Proof.
  intros Hw Hid Ho. unfold publish_receipt in Ho. inv_ok.
  match goal with Hb : bump_version _ = _ |- _ => apply bump_version_Ok in Hb as [_ ->] end.
  apply wf_set_version. destruct Hw as [Wb Wo Ws Wt Wl [R1 R2 R3 R4 R5 R6 R7 R8 R9 R10 R11 R12 R13 R14]].
  match goal with Hp : published_status s a = Ok _ |- _ =>
    apply published_status_Ok in Hp as (Ht & Ht' & Hsv); [|done] end.
  split; try done. split; try done; try (by apply Hsv).
  - apply validate_end_Ok. cbn. rewrite validate_end_Ok in R10. destruct (end_phase s); [congruence|..];
      split_and?; try done; apply R10.
  - by right.
  - intros p Hp. destruct (R14 p Hp) as [Hf _]. congruence.
Qed.

(** ** Construction *)

Lemma state_new_wf id a prod shared local s : state_new id a prod shared local = Ok s -> wf s.
Proof.
  unfold state_new, genesis. intros Hn. inv_ok.
  match goal with Hb : binding_new a = Ok _ |- _ => apply binding_new_Ok in Hb as [_ Hb] end.
  repeat match goal with
  | Hz : (_ =? _) = true |- _ => apply Z.eqb_eq in Hz
  | Ha : ?x = Ok _, Hb : ?x = Ok _ |- _ => rewrite Ha in Hb; simplify_eq
  end.
  split; try done; cbn; try lia. split; cbn; try done; try lia. by right.
Qed.

(** ** Every operation *)

Lemma answer_Ok {A} (f : A -> Answer) (m : M ExecutionState ProtocolError A) s r s' :
  answer f m s = (Ok r, s') <-> exists a, m s = (Ok a, s') /\ r = f a.
Proof.
  unfold answer. rewrite sbind_Ok. split.
  - intros (a & s1 & Hm & Hr). inv_ok. eauto.
  - intros (a & Hm & ->). eauto.
Qed.

(** The receipt identity an artifact is published under is a digest; the
    recovery check rejects the all-zero one. *)
Definition op_ok (op : Op) : Prop :=
  match op with OpPublish a => receipt_id a <> 0 | _ => True end.

Lemma run_op_wf op s r s' : wf s -> op_ok op -> run_op op s = (Ok r, s') -> wf s'.
Proof.
  intros Hw Hop Hr. destruct op; apply answer_Ok in Hr as (a' & Hr & _).
  - by eapply activate_wf.
  - by eapply apply_dispatch_wf.
  - by eapply drop_outgoing_head_wf.
  - by eapply add_step_signature_wf.
  - by eapply certify_step_wf.
  - by eapply stop_wf.
  - by eapply publish_receipt_wf.
  - by eapply record_direct_wf.
  - by eapply ack_direct_wf.
  - by eapply confirm_end_wf.
  - by eapply expire_end_wf.
Qed.

(** ** Atomicity *)

Lemma atomic_answer {A} (f : A -> Answer) (m : M ExecutionState ProtocolError A) :
  atomic m -> atomic (answer f m).
Proof. intros Hm. apply atomic_sbind_total; [done|]. intros a s. by do 2 eexists. Qed.

Lemma atomic_then_ret {A B} (m : M ExecutionState ProtocolError A) (b : B) :
  atomic m -> atomic (m ;;! sret b).
Proof. intros Hm. apply atomic_sbind_total; [done|]. intros a s. by do 2 eexists. Qed.

Ltac atomic_guards :=
  repeat first
    [ apply atomic_on_clone
    | apply atomic_sbind; [apply read_only_sread|intros ?]
    | apply atomic_sbind; [solve [auto with arena]|intros ?] ].

Lemma run_op_atomic op : atomic (run_op op).
Proof.
  destruct op; apply atomic_answer.
  - unfold activate. by atomic_guards.
  - unfold apply_dispatch. atomic_guards. destruct (negb _).
    + unfold apply_local. atomic_guards.
      apply atomic_sbind_total; [unfold install_dispatch; by atomic_guards|].
      intros ? s. by do 2 eexists.
    + unfold apply_agreed. atomic_guards. apply atomic_then_ret.
      unfold stage_proposal. by atomic_guards.
  - unfold drop_outgoing_head. by atomic_guards.
  - unfold add_step_signature. by atomic_guards.
  - unfold certify_step. by atomic_guards.
  - unfold stop. by atomic_guards.
  - unfold publish_receipt. by atomic_guards.
  - unfold record_direct. atomic_guards.
    apply atomic_sbind_total; [apply atomic_smodify|]. intros ? s. by do 2 eexists.
  - unfold ack_direct. atomic_guards. destruct (negb _); [apply atomic_read_only, read_only_sret|].
    atomic_guards. apply atomic_sbind_total; [apply atomic_smodify|]. intros ? s. by do 2 eexists.
  - unfold confirm_end. by atomic_guards.
  - unfold expire_end. by atomic_guards.
Qed.
End Invariant.
