(* ===== verification/History.v ===== *)
(** * Histories: the certified trace of a reachable execution

    [reach] runs the aggregate through its operations and logs the entries the
    operations certify, the way the store appends them.  The logged trace is
    the one the receipt verifier accepts, it ends at the aggregate's cursor, its
    encoded size is the one the aggregate accounts for, and it carries a
    terminal exactly when the execution ended by a shared step.  From that, a
    terminal execution can always publish its artifact. *)

From S2P Require Import Prelude Borsh Crypto Session Trace Negotiation Evidence Validation Receipt.
From S2P Require Import Frame Execution Invariant.

(** ** Sizes of trace entries *)

Lemma ol_variant {A} tag (c : codec A) a n :
  rmap zlen (variant tag c a) = Ok n <-> exists m, object_length c a = Ok m /\ n = 1 + m.
Proof. apply (ol_versioned tag c a n). Qed.

Lemma ol_id z : object_length c_id z = Ok 32.
Proof. apply (ol_arr 32). Qed.

Lemma ol_ids l : items_length c_id l = Ok (32 * zlen l).
Proof.
  induction l as [|x l IH]; [done|]. apply items_length_cons. exists 32, (32 * zlen l).
  split_and!; [apply ol_id|done|]. rewrite zlen_cons. lia.
Qed.

Lemma ol_event e n :
  object_length c_step_event e = Ok n -> 0 <= n <= 1 + 32 + 4 + MAX_EFFECT_PAYLOAD_BYTES.
Proof.
  unfold MAX_EFFECT_PAYLOAD_BYTES.
  destruct e as [[l]|from data]; intros (m & Hm & ->)%ol_variant.
  - change (object_length c_ensemble (MkEnsemble l)) with (object_length (c_vec MAX_PARTICIPANTS c_id) l) in Hm.
    apply ol_vec in Hm as (Hl & _ & k & Hk & ->). rewrite ol_ids in Hk. injection Hk as <-.
    unfold MAX_PARTICIPANTS in Hl. pose proof (zlen_nonneg l). lia.
  - apply ol_pair in Hm as (n1 & n2 & H1 & H2 & ->). simpl in H1, H2.
    rewrite ol_id in H1. injection H1 as <-. apply ol_bytes in H2 as (Hd & _ & ->).
    unfold MAX_EFFECT_PAYLOAD_BYTES in Hd. pose proof (zlen_nonneg data). lia.
Qed.

Lemma ol_terminal t n :
  object_length (c_option c_step_terminal) t = Ok n -> 0 <= n <= 1 + 1 + 4 + MAX_TERMINAL_OUTCOME_BYTES.
Proof.
  unfold MAX_TERMINAL_OUTCOME_BYTES. destruct t as [t|]; [|rewrite ol_none; intros [= <-]; lia].
  intros (m & Hm & ->)%ol_some.
  destruct t as [b|b|b]; apply ol_variant in Hm as (k & Hk & ->);
    (apply ol_bytes in Hk || apply ol_string in Hk); destruct Hk as (Hb & _ & ->);
    unfold MAX_TERMINAL_OUTCOME_BYTES, MAX_TERMINAL_REASON_BYTES in Hb; pose proof (zlen_nonneg b); lia.
Qed.

Lemma ol_entry e n :
  object_length c_entry e = Ok n <->
  exists ne nt, object_length c_step_event (event e) = Ok ne /\
    object_length (c_option c_step_terminal) (terminal e) = Ok nt /\
    zlen (signers (agreement e)) <= u32_max /\
    n = 4 + 8 + ne + 32 + 32 + nt + 48 + 4 + zlen (signers (agreement e)).
Proof.
  unfold c_entry. rewrite ol_check, ol_iso. split.
  - intros (n1 & m1 & E1 & (n2 & m2 & E2 & (n3 & m3 & E3 & (n4 & m4 & E4 & (n5 & m5 & E5 & (n6 & m6 & E6
      & E7 & ->)%ol_pair & ->)%ol_pair & ->)%ol_pair & ->)%ol_pair & ->)%ol_pair & ->)%ol_pair.
    simpl in *. rewrite (ol_uint 4) in E1. rewrite (ol_uint 8) in E2. rewrite ol_id in E4, E5. unfold c_agreement in E7. rewrite ol_iso in E7.
    apply ol_pair in E7 as (k1 & k2 & E8 & (Hl & _ & ->)%ol_bytes & ->). simpl in *.
    rewrite (ol_arr 48) in E8. simplify_eq. exists n3, n6. split_and!; try done. lia.
  - intros (ne & nt & E1 & E2 & Hl & ->).
    apply ol_pair. exists 4, (8 + ne + 32 + 32 + nt + 48 + 4 + zlen (signers (agreement e))).
    split_and!; [done| |lia].
    apply ol_pair. exists 8, (ne + 32 + 32 + nt + 48 + 4 + zlen (signers (agreement e))).
    split_and!; [done| |lia].
    apply ol_pair. exists ne, (32 + 32 + nt + 48 + 4 + zlen (signers (agreement e))).
    split_and!; [done| |lia].
    apply ol_pair. exists 32, (32 + nt + 48 + 4 + zlen (signers (agreement e))).
    split_and!; [apply ol_id| |lia].
    apply ol_pair. exists 32, (nt + 48 + 4 + zlen (signers (agreement e))).
    split_and!; [apply ol_id| |lia].
    apply ol_pair. exists nt, (48 + 4 + zlen (signers (agreement e))). split_and!; [done| |lia].
    unfold c_agreement. rewrite ol_iso. apply ol_pair. exists 48, (4 + zlen (signers (agreement e))).
    split_and!; [apply (ol_arr 48)|by apply ol_bytes|lia].
Qed.

(** An entry that serializes, with a bitmap of protocol size, is far below the
    entry bound: the agreement never pushes a staged entry over it. *)
Lemma entry_fits e n :
  object_length c_entry e = Ok n -> zlen (signers (agreement e)) <= 8 -> n <= MAX_TRACE_ENTRY_BYTES.
Proof.
  intros (ne & nt & E1%ol_event & E2%ol_terminal & _ & ->)%ol_entry Hs.
  unfold MAX_EFFECT_PAYLOAD_BYTES, MAX_TERMINAL_OUTCOME_BYTES, MAX_TRACE_ENTRY_BYTES in *. lia.
Qed.

Lemma validate_trace_entry_Ok e :
  validate_trace_entry e = Ok tt <->
  trace_version e = TRACE_FORMAT_VERSION /\
  (exists n, object_length c_entry e = Ok n /\ n <= MAX_TRACE_ENTRY_BYTES).
Proof.
  unfold validate_trace_entry, to_vec, ensure_encoded. split.
  - intros Hv. inv_ok. split; [by apply Z.eqb_eq|].
    eexists. split; [apply object_length_Ok; eauto|]. lia.
  - intros (Hver & n & Hn & Hle). rewrite Hver, Z.eqb_refl. cbn [negb err_if rbind].
    pose proof Hn as (ne & nt & E1 & E2 & _ & _)%ol_entry.
    apply object_length_Ok in Hn as (bs & -> & <-). cbn [map_err rbind].
    rewrite (proj2 (Z.ltb_ge _ _)) by done. cbn [err_if map_err rbind].
    assert (match event e with StepSessionStarted _ => Ok tt | StepMessage _ data =>
              ensure_payload "message payload" (zlen data) MAX_EFFECT_PAYLOAD_BYTES end = Ok tt) as ->.
    { destruct (event e) as [|from data]; [done|]. apply ol_variant in E1 as (m & E1 & _).
      apply ol_pair in E1 as (? & ? & _ & (Hd & _)%ol_bytes & _). by apply ensure_payload_Ok. }
    cbn [rbind]. destruct (terminal e) as [t|]; [|done]. apply ol_some in E2 as (m & E2 & _).
    destruct t; apply ol_variant in E2 as (k & Hk & _);
      (apply ol_bytes in Hk || apply ol_string in Hk); destruct Hk as (Hb & _ & _);
      by apply ensure_payload_Ok.
Qed.

Section History.
Context `{Crypto}.

(** ** Extending a certified trace *)

Definition nonterminal (e : TraceEntry) : Prop := terminal e = None.

Lemma nonterminal_count e : nonterminal e <-> terminal_effect_count e = 0.
Proof. unfold nonterminal, terminal_effect_count. by destruct (terminal e). Qed.

Lemma agreed_loop_snoc b keys c tr e c1 k c2 :
  agreed_loop b keys c tr = Ok c1 -> Forall nonterminal tr ->
  validate_shared_entry b (next_step c1) e = Ok tt ->
  for_entry (E:=ProtocolError) (session_id b) e (chain_hash c1) = Ok k -> advance c1 k = Ok c2 ->
  verify_full_agreement (agreement e) k keys = Ok tt ->
  agreed_loop b keys c (tr ++ [e]) = Ok c2.
Proof.
  intros Hl Hn Hv Hk Ha Hf. revert c Hl; induction Hn as [|x tr Hx Hn IH]; intros c Hl.
  - simpl in *. inv_ok. rewrite Hv. cbn [rbind]. rewrite Hk. cbn [rbind]. rewrite Ha. cbn [rbind map_err].
    by rewrite Hf.
  - cbn [agreed_loop app] in *. inv_ok. repeat match goal with u : unit |- _ => destruct u end.
    match goal with Hq : validate_shared_entry _ _ x = _ |- _ => rewrite Hq end. cbn [rbind].
    match goal with Hq : for_entry _ x _ = _ |- _ => rewrite Hq end. cbn [rbind].
    match goal with Hq : advance c _ = _ |- _ => rewrite Hq end. cbn [rbind map_err].
    match goal with Hq : verify_full_agreement _ _ _ = _ |- _ => rewrite Hq end. cbn [rbind].
    rewrite (proj1 (nonterminal_count x)) by done. rewrite Z.eqb_refl, andb_false_r. cbn [rbind err_if].
    by apply IH.
Qed.

(** A verified certificate carries a bitmap of the participants' size. *)
Lemma certificate_bitmap cert b :
  binding_ok b -> certificate_verify cert b = Ok tt ->
  exists ks, participant_bls_keys b = Ok ks /\
    verify_full_agreement (cert_agreement cert) (commitment cert) ks = Ok tt /\
    length (signers (cert_agreement cert)) = div_ceil8 (length (binding_tickets b)) /\
    is_bound_to (commitment cert) (session_id b) = true.
Proof.
  intros Hb Hv. unfold certificate_verify in Hv. inv_ok.
  destruct (participant_bls_keys_Ok b Hb) as (ks & _ & Hk & Hl). rewrite Hk in *. simplify_eq.
  eexists. split_and!; [done|done| |done].
  unfold verify_full_agreement, verify_signatures in Hv. inv_ok.
  repeat match goal with u : unit |- _ => destruct u end.
  match goal with Hs : signers_validate _ _ = Ok _ |- _ => apply signers_validate_Ok in Hs as (_ & Hsl & _) end.
  rewrite Hsl, length_map. unfold zlen in Hl. f_equal. lia.
Qed.

Lemma signers_full_length n s : signers_full n = Ok s -> length s = div_ceil8 n.
Proof.
  intros Hf. assert (n <= 64)%nat as Hn.
  { unfold signers_full, MAX_PARTICIPANTS in Hf. destruct (64 <? Z.of_nat n) eqn:He; [done|]. lia. }
  destruct (signers_full_spec n Hn) as (s' & Hs' & Hv & _). rewrite Hs' in Hf. simplify_eq.
  by apply signers_validate_Ok in Hv as (_ & Hl & _).
Qed.

Lemma bitmap_small b : binding_ok b -> (div_ceil8 (length (binding_tickets b)) <= 8)%nat.
Proof.
  intros Hb. pose proof (binding_size b Hb) as Hs. unfold MAX_PARTICIPANTS, zlen in Hs.
  unfold div_ceil8. apply Nat.lt_succ_r, Nat.Div0.div_lt_upper_bound. lia.
Qed.

(** The reserved size of an entry is its size under any verified agreement. *)
Lemma certified_entry_length s e cert n :
  binding_ok (binding s) -> certificate_verify cert (binding s) = Ok tt ->
  certified_size s e = Ok n ->
  object_length c_entry (with_agreement e (cert_agreement cert)) = Ok n.
Proof.
  intros Hb Hv Hc. destruct (certificate_bitmap cert (binding s) Hb Hv) as (ks & _ & _ & Hl & _).
  pose proof (bitmap_small (binding s) Hb) as Hsm.
  unfold certified_size in Hc. inv_ok.
  match goal with Hf : signers_full _ = Ok _ |- _ => apply signers_full_length in Hf as Hfl end.
  match goal with Ho : object_length c_entry _ = Ok _ |- _ =>
    apply ol_entry in Ho as (ne & nt & E1 & E2 & Hu & ->) end.
  apply ol_entry. exists ne, nt. simpl in *. unfold zlen, u32_max in *. split_and!; try done; lia.
Qed.

Lemma validate_shared_with_agreement b i e a n :
  validate_shared_entry b i e = Ok tt -> object_length c_entry (with_agreement e a) = Ok n ->
  zlen (signers a) <= 8 -> validate_shared_entry b i (with_agreement e a) = Ok tt.
Proof.
  unfold validate_shared_entry. intros Hv Hn Hs. apply rbind_Ok in Hv as ([] & Ht & Hrest).
  apply validate_trace_entry_Ok in Ht as (Hver & _).
  rewrite (proj2 (validate_trace_entry_Ok (with_agreement e a))); [done|].
  split; [done|]. exists n. split; [done|]. by eapply entry_fits.
Qed.

(** ** Logged traces *)

Definition logged (r : Answer) : list TraceEntry :=
  match r with ACommitted (Some p) => [entry p] | _ => [] end.

(** States reachable through the aggregate's operations, with the entries they
    certified.  A failing operation changes nothing ([run_op_atomic]). *)
Inductive reach : ExecutionState -> list TraceEntry -> Prop :=
| reach_new id a prod shared local s : state_new id a prod shared local = Ok s -> reach s []
| reach_op s tr op r s' :
    reach s tr -> op_ok op -> run_op op s = (Ok r, s') -> reach s' (tr ++ logged r).

(** How the logged trace ends. *)
Definition stop_matches (b : ExecutionBinding) (c : StopCause) (tr : list TraceEntry) : Prop :=
  match c with
  | Authenticated _ => Forall nonterminal tr
  | SharedStop kind k reason =>
      exists e, last tr = Some e /\
        terminal e = Some (match kind with KAbort => TermAbort reason | KFail => TermFail reason end) /\
        step e = c_step k /\ entry_hash (E:=ProtocolError) e = Ok (c_entry_hash k)
  end.
Definition ending_matches (s : ExecutionState) (tr : list TraceEntry) : Prop :=
  match status s with
  | Activating | Active => Forall nonterminal tr
  | Certified o | Completed o _ =>
      exists e, last tr = Some e /\ terminal e = Some (TermEnd (borsh_bytes o))
  | Stopped c | StoppedPublished c _ => stop_matches (binding s) c tr
  end.

Record traced (s : ExecutionState) (tr : list TraceEntry) : Prop := {
  tr_wf : wf s;
  tr_cursor : validate_agreed_trace (binding s) tr = Ok (step_cursor s);
  tr_length : zlen tr = agreed_step s;
  tr_bytes : items_length c_entry tr = Ok (trace_bytes s);
  tr_ending : ending_matches s tr }.

(** Operations that certify nothing keep the log, if they keep the agreed part
    of the state. *)
Lemma traced_same s s' tr :
  traced s tr -> wf s' -> binding s' = binding s -> step_cursor s' = step_cursor s ->
  trace_bytes s' = trace_bytes s -> ending_matches s' tr -> traced s' tr.
Proof.
  intros [T1 T2 T3 T4 T5] Hw Hb Hc Ht He. split; [done|by rewrite Hb, Hc| |by rewrite Ht|done].
  rewrite T3. by injection Hc.
Qed.

Lemma traced_new id a prod shared local s :
  state_new id a prod shared local = Ok s -> traced s [].
Proof.
  intros Hn. pose proof (state_new_wf _ _ _ _ _ _ Hn) as Hw.
  unfold state_new, genesis in Hn. inv_ok. split; try done.
  - unfold validate_agreed_trace. destruct (participant_bls_keys_Ok _ (wf_binding _ Hw)) as (ks & _ & Hk & _).
    simpl in Hk. simpl. rewrite Hk. cbn [rbind agreed_loop]. unfold step_cursor. simpl. do 2 f_equal.
    match goal with Hz : (_ =? _) = true |- _ => apply Z.eqb_eq in Hz end. congruence.
  - constructor.
Qed.

(** What the committed entry's terminal says about the installed status. *)
Lemma certified_ending b c pos p k tr a :
  staged_facts b c pos p k -> Forall nonterminal tr ->
  forall s', binding s' = b -> status s' = pr_status p ->
  ending_matches s' (tr ++ [with_agreement (entry p) a]).
Proof.
  intros Hs Hn s' Hb Hst. unfold ending_matches. rewrite Hst.
  pose proof (sf_status _ _ _ _ _ Hs) as Hv. unfold validate_proposal_status in Hv.
  pose proof (sf_commit _ _ _ _ _ Hs) as Hk. apply for_entry_Ok in Hk as (h & Hh & Hk).
  assert (last (tr ++ [with_agreement (entry p) a]) = Some (with_agreement (entry p) a)) as Hl
    by apply last_snoc.
  destruct (terminal (entry p)) as [[o|r|r]|] eqn:Ht; destruct (pr_status p) as [| |o'| |[|[] k' r']|]; try done.
  - inv_ok. match goal with Hb : bool_decide _ = true |- _ => apply bool_decide_eq_true in Hb as <- end.
    by exists (with_agreement (entry p) a).
  - inv_ok. repeat match goal with Hb : bool_decide _ = true |- _ => apply bool_decide_eq_true in Hb as -> end.
    exists (with_agreement (entry p) a). split_and!; try done; by rewrite Hk.
  - inv_ok. repeat match goal with Hb : bool_decide _ = true |- _ => apply bool_decide_eq_true in Hb as -> end.
    exists (with_agreement (entry p) a). split_and!; try done; by rewrite Hk.
  - apply Forall_app. split; [done|]. by apply Forall_singleton.
Qed.

Lemma ending_running s tr :
  is_terminal (status s) = false -> ending_matches s tr -> Forall nonterminal tr.
Proof. unfold ending_matches. by destruct (status s). Qed.

Lemma traced_certify s tr cert c s' :
  traced s tr -> certify_step cert s = (Ok c, s') -> traced s' (tr ++ [entry c]).
Proof.
  intros [Hw Hcur Hlen Hby Hend] Ho. pose proof (certify_step_wf _ _ _ _ Hw Ho) as Hw'.
  apply certify_step_Ok in Ho as (p & next & bytes & Hc & -> & _ & ->).
  destruct Hc as [Hp Hsf Hcv Hadv Hbud].
  destruct (wf_pending s p Hw Hp) as [Hn _]. pose proof (ending_running s tr Hn Hend) as Hnt.
  destruct (certificate_bitmap cert _ (wf_binding s Hw) Hcv) as (ks & Hks & Hfull & Hl & _).
  apply check_receipt_budget_Ok in Hbud as (n & Hsz & -> & _).
  pose proof (certified_entry_length s (entry p) cert n (wf_binding s Hw) Hcv Hsz) as Hel.
  pose proof (bitmap_small _ (wf_binding s Hw)) as Hsm.
  destruct (certified_state_fields s p cert next (trace_bytes s + n))
    as [F1 F2 F3 F4 F5 F6 F7 F8 F9 F10 F11].
  pose proof (proj1 (advance_Ok _ _ _) Hadv) as (_ & _ & _ & _ & Hnext).
  split; cbn [set_entry entry].
  - done.
  - refine (eq_trans (f_equal (fun b => validate_agreed_trace b _) F1) _).
    refine (eq_trans _ (f_equal Ok (eq_sym F4))).
    unfold validate_agreed_trace in *. rewrite Hks in *. cbn [rbind] in *.
    eapply (agreed_loop_snoc _ _ _ _ _ _ (commitment cert)); [exact Hcur|done| | |done|done].
    + eapply validate_shared_with_agreement; [apply (sf_entry _ _ _ _ _ Hsf)|done|]. unfold zlen. lia.
    + apply (sf_commit _ _ _ _ _ Hsf).
  - rewrite zlen_app, zlen_cons, zlen_nil, Hlen.
    refine (eq_trans _ (eq_sym (f_equal next_step F4))).
    assert (next_step next = agreed_step s + 1) as -> by (by rewrite Hnext). lia.
  - etransitivity; [|symmetry; exact (f_equal Ok F5)]. apply items_length_app; [done|]. apply items_length_cons. exists n, 0. split_and!; [done|done|lia].
  - exact (certified_ending _ _ _ _ _ tr _ Hsf Hnt _ F1 F9).
Qed.

(** The agreed part of the state, which only certification moves. *)
Record same_agreed (s s' : ExecutionState) : Prop := {
  sa_binding : binding s' = binding s;
  sa_cursor : step_cursor s' = step_cursor s;
  sa_bytes : trace_bytes s' = trace_bytes s }.

Lemma apply_dispatch_same s e shared local effects o pid req r s' :
  wf s -> apply_dispatch e shared local effects o pid req s = (Ok r, s') ->
  same_agreed s s' /\ status s' = status s /\ is_active (status s) = true /\ version s' = version s + 1.
Proof.
  intros Hw Ho. unfold apply_dispatch in Ho. inv_ok.
  match goal with Hi : indexed_dispatch_effects _ = Ok _ |- _ =>
    apply indexed_dispatch_effects_Ok in Hi as -> end.
  repeat match goal with u : unit |- _ => destruct u end.
  destruct (negb (is_agreed_event e)).
  - unfold apply_local in Ho. inv_ok.
    match goal with Hi : install_dispatch _ _ _ _ _ _ _ _ = _ |- _ =>
      apply install_dispatch_wf in Hi as (_ & Hact & ->); [|done|done] end.
    destruct (status s) eqn:Hst; done.
  - unfold apply_agreed in Ho. inv_ok.
    match goal with Hp : proposal_new _ _ _ _ _ _ _ _ _ = Ok _ |- _ =>
      apply proposal_new_Ok in Hp as (-> & Hout & Hco) end.
    match goal with Hs : stage_proposal _ _ = _ |- _ => apply stage_proposal_wf in Hs
      as (_ & Hact & _ & ->); [|done|by apply kept_effects_valid|done|done] end.
    split_and!; [by split|done..].
Qed.

Lemma activate_same s u s' :
  activate s = (Ok u, s') ->
  same_agreed s s' /\ status s = Activating /\ status s' = Active /\ version s' = version s + 1.
Proof.
  unfold activate. intros Ho. inv_ok.
  match goal with Hb : bump_version _ = _ |- _ => apply bump_version_Ok in Hb as [_ ->] end.
  match goal with Hb : bool_decide _ = true |- _ => apply bool_decide_eq_true in Hb end.
  split_and!; [by split|done..].
Qed.

Lemma begin_end_same s :
  same_agreed s (begin_end s) /\ status (begin_end s) = status s /\ version (begin_end s) = version s.
Proof. destruct (begin_end_cases s) as [->|(_ & _ & ->)]; split_and!; by try split. Qed.

Lemma stop_same s o u s' :
  stop o s = (Ok u, s') ->
  same_agreed s s' /\ is_terminal (status s) = false /\ status s' = Stopped (Authenticated o) /\
  version s' = version s + 1.
Proof.
  unfold stop, stopped. intros Ho. inv_ok.
  match goal with Hb : bump_version _ = _ |- _ => apply bump_version_Ok in Hb as [_ ->] end.
  set (s1 := set_status (Stopped (Authenticated o)) (set_callout None (set_proposal None s))).
  destruct (begin_end_same s1) as ([B1 B2 B3] & B4 & B5).
  split_and!; [|done|exact B4|exact (f_equal (fun v => v + 1) B5)].
  split; [exact B1|exact B2|exact B3].
Qed.

Lemma publish_same s a u s' :
  publish_receipt a s = (Ok u, s') ->
  same_agreed s s' /\ version s' = version s + 1 /\ callout s' = None /\
  ((exists o, status s = Certified o /\ status s' = Completed o (receipt_id a)) \/
   (exists c, status s = Stopped c /\ status s' = StoppedPublished c (receipt_id a))).
Proof.
  unfold publish_receipt. intros Ho. inv_ok.
  match goal with Hb : bump_version _ = _ |- _ => apply bump_version_Ok in Hb as [_ ->] end.
  split_and!; [by split|done|done|].
  match goal with Hp : published_status s a = Ok _ |- _ => unfold published_status in Hp; rename Hp into Hps end.
  destruct (status s) as [| |o| |c|]; try done.
  - left. destruct (termination _); [|done]. inv_ok. eauto.
  - right. destruct (termination _); [done|]. case_bool_decide; [|done]. inv_ok. eauto.
Qed.

(** Direct traffic and the end handshake leave the agreed part and the status. *)
Lemma side_ops_same op s r s' :
  match op with
  | OpDropHead | OpRecordDirect _ _ | OpAckDirect _ _ | OpConfirmEnd _ | OpExpireEnd => True
  | _ => False
  end ->
  run_op op s = (Ok r, s') -> same_agreed s s' /\ status s' = status s /\ logged r = [].
Proof.
  intros Hop Hr. destruct op; try done; apply answer_Ok in Hr as (a & Hr & ->).
  - unfold drop_outgoing_head in Hr. inv_ok.
    match goal with Hb : bump_version _ = _ |- _ => apply bump_version_Ok in Hb as [_ ->] end.
    split_and!; [by split|done..].
  - unfold record_direct in Hr. inv_ok. split_and!; [by split|done..].
  - unfold ack_direct in Hr. inv_ok. destruct (negb _); inv_ok; split_and!; (by split) || done.
  - unfold confirm_end in Hr. inv_ok. destruct (end_phase s); [by inv_ok|..];
      (destruct (negb _); inv_ok; [split_and!; (by split) || done|]);
      match goal with Hb : bump_version _ = _ |- _ => apply bump_version_Ok in Hb as [_ ->] end;
      split_and!; (by split) || done.
  - unfold expire_end in Hr. inv_ok.
    match goal with Hb : bump_version _ = _ |- _ => apply bump_version_Ok in Hb as [_ ->] end.
    split_and!; [by split|done..].
Qed.

Lemma traced_keep s s' tr :
  traced s tr -> wf s' -> same_agreed s s' -> ending_matches s' tr -> traced s' (tr ++ []).
Proof. intros Ht Hw [S1 S2 S3] He. rewrite app_nil_r. by apply (traced_same s). Qed.

Lemma ending_status s s' tr :
  binding s' = binding s -> status s' = status s -> ending_matches s tr -> ending_matches s' tr.
Proof. unfold ending_matches. by intros -> ->. Qed.

Lemma run_op_traced op s tr r s' :
  traced s tr -> op_ok op -> run_op op s = (Ok r, s') -> traced s' (tr ++ logged r).
Proof.
  intros Ht Hop Hr. pose proof (run_op_wf op s r s' (tr_wf s tr Ht) Hop Hr) as Hw'.
  pose proof (tr_ending s tr Ht) as He.
  destruct op as [|e sh lo ef ou pid rq| |sg|cert|o|a|from seq|to seq|peer|];
    try (pose proof (fun Hi => side_ops_same _ s r s' Hi Hr) as Hside;
      destruct (Hside I) as (Hs & Hst & ->);
      eapply traced_keep; [done|done|done|]; (apply (ending_status s); [apply Hs|done|done]));
    pose proof Hr as Hr0; apply answer_Ok in Hr as (a' & Hr & ->); cbn [logged].
  - apply activate_same in Hr as (Hs & H1 & H2 & _). eapply traced_keep; [done|done|done|].
    unfold ending_matches in *. by rewrite H2, H1 in *.
  - apply apply_dispatch_same in Hr as (Hs & H1 & _); [|apply Ht]. eapply traced_keep; [done|done|done|].
    (apply (ending_status s); [apply Hs|done|done]).
  - destruct (add_step_signature_Ok s sg a' s' (tr_wf s tr Ht) Hr)
      as (p & k & Hp & _ & _ & Hw1 & [(-> & _ & _ & ->)|(cert & c & -> & _ & _ & Hc)]).
    + eapply traced_keep; [done|done|by split|done].
    + eapply traced_certify; [|done]. apply (traced_same s); done.
  - by eapply traced_certify.
  - apply stop_same in Hr as (Hs & H1 & H2 & _). eapply traced_keep; [done|done|done|].
    pose proof (ending_running s tr H1 He). unfold ending_matches. by rewrite H2.
  - apply publish_same in Hr as (Hs & _ & _ & [(o & H1 & H2)|(c & H1 & H2)]);
      (eapply traced_keep; [done|done|done|]); unfold ending_matches in *; rewrite H1 in He; rewrite H2;
      [done|]. by rewrite (sa_binding _ _ Hs).
Qed.

Lemma reach_traced s tr : reach s tr -> traced s tr.
Proof.
  induction 1; [by eapply traced_new|by eapply run_op_traced].
Qed.
End History.
