(* ===== verification/Publish.v ===== *)
(** * Publication (store/src/database/execution.rs, [assemble_terminal_artifact])

    The store assembles a terminal execution's artifact from its committed
    activation, status and trace rows.  The budget kept while the execution ran
    makes this total: a reachable terminal execution always has an artifact, and
    publishing it succeeds. *)

From S2P Require Import Prelude Borsh Crypto Session Trace Negotiation Evidence Validation Receipt.
From S2P Require Import Frame Execution Invariant History.

Section Publish.
Context `{Crypto}.

(** [activation] and [tr] are the rows the store loaded. *)
Definition assemble_terminal_artifact (s : ExecutionState) (act : Activation) (tr : list TraceEntry)
    : result ProtocolError ReceiptArtifact :=
  let? term := match terminal_cause (status s) with
               | Some cause => Ok (TStopped cause)
               | None => match status s with
                         | Certified _ | Completed _ _ => Ok TCompleted
                         | _ => Err InvalidTerminalStatus
                         end
               end in
  let out := match terminal_outcome s with Some o => borsh_bytes o | None => [] end in
  let? body := body_new (MkHeader act term) out (params (act_offer_data act)) tr in
  artifact_new body.

(** ** Sizes *)

(** The length of a receipt body over its parts. *)
Lemma ol_body b n :
  object_length c_body_raw b = Ok n <->
  exists na nt nr, object_length c_activation (h_activation (header b)) = Ok na /\
    object_length c_termination (termination b) = Ok nt /\
    zlen (outcome b) <= MAX_TERMINAL_OUTCOME_BYTES /\ zlen (body_params b) <= MAX_PARAMS_LEN /\
    zlen (trace b) <= MAX_RECEIPT_TRACE_ENTRIES /\ items_length c_entry (trace b) = Ok nr /\
    n = 1 + na + nt + (4 + zlen (outcome b)) + (4 + zlen (body_params b)) + (4 + nr).
Proof.
  unfold c_body_raw, termination. rewrite ol_versioned. split.
  - intros (m & Hm & ->). rewrite ol_iso in Hm.
    apply ol_pair in Hm as (n1 & n2 & E1 & (n3 & n4 & E3 & (n5 & n6 & E5 & E6 & ->)%ol_pair & ->)%ol_pair & ->).
    simpl in *. unfold c_header in E1. rewrite ol_iso in E1. apply ol_pair in E1 as (na & nt & E1 & E2 & ->).
    apply ol_bytes in E3 as (Ho & _ & ->). apply ol_bytes in E5 as (Hp & _ & ->).
    apply ol_vec in E6 as (Ht & _ & nr & Hr & ->). exists na, nt, nr. split_and!; try done. lia.
  - intros (na & nt & nr & E1 & E2 & Ho & Hp & Ht & Hr & ->).
    exists (na + nt + (4 + zlen (outcome b)) + (4 + zlen (body_params b)) + (4 + nr)). split; [|lia].
    rewrite ol_iso. apply ol_pair. exists (na + nt), ((4 + zlen (outcome b)) + (4 + zlen (body_params b)) + (4 + nr)).
    split_and!; [unfold c_header; rewrite ol_iso; apply ol_pair; by exists na, nt| |lia].
    unfold MAX_TERMINAL_OUTCOME_BYTES, MAX_PARAMS_LEN, MAX_RECEIPT_TRACE_ENTRIES, u32_max in *.
    apply ol_pair. exists (4 + zlen (outcome b)), ((4 + zlen (body_params b)) + (4 + nr)).
    split_and!; [apply ol_bytes; unfold MAX_TERMINAL_OUTCOME_BYTES, u32_max; simpl; lia| |lia].
    apply ol_pair. exists (4 + zlen (body_params b)), (4 + nr).
    split_and!; [apply ol_bytes; unfold MAX_PARAMS_LEN, u32_max; simpl; lia| |lia].
    apply ol_vec. unfold MAX_RECEIPT_TRACE_ENTRIES, u32_max. simpl. split_and!; [lia|lia|by exists nr].
Qed.

Definition cursor_bytes : Z := 8 + 32 + 32.
Definition abort_bytes (reason : Z) : Z := 24 + 2 + 32 + 32 + 1 + 4 + (4 + reason) + cursor_bytes + 64.
Definition shared_bytes (reason : Z) : Z := 1 + (24 + 32 + 8 + 32 + 32 + 32 + 32) + (4 + reason).

Lemma ol_cursor c : object_length c_cursor c = Ok cursor_bytes.
Proof.
  unfold c_cursor. rewrite ol_iso. apply ol_pair. exists 8, 64. split_and!; [done| |done].
  apply ol_pair. exists 32, 32. split_and!; [apply ol_id|apply ol_id|done].
Qed.

Lemma ol_abort o :
  zlen (ab_domain o) = 24 -> zlen (ab_reason o) <= MAX_TERMINAL_REASON_BYTES ->
  object_length c_abort o = Ok (abort_bytes (zlen (ab_reason o))).
Proof.
  intros Hd Hr. unfold c_abort. rewrite ol_refine. unfold c_abort_raw. rewrite ol_iso.
  unfold abort_bytes. set (r := zlen (ab_reason o)) in *. apply ol_pair.
  exists (24 + 2 + 32 + 32 + 1 + 4 + (4 + r) + cursor_bytes), 64. split_and!; [|apply (ol_arr 64)|lia].
  unfold c_abort_fields, abort_payload. simpl fst.
  apply ol_pair. exists 24, (2 + 32 + 32 + 1 + 4 + (4 + r) + cursor_bytes). split_and!; [| |lia].
  { simpl fst. unfold id. rewrite ol_raw. by rewrite Hd. }
  apply ol_pair. exists 2, (32 + 32 + 1 + 4 + (4 + r) + cursor_bytes). split_and!; [done| |lia].
  apply ol_pair. exists 32, (32 + 1 + 4 + (4 + r) + cursor_bytes). split_and!; [apply ol_id| |lia].
  apply ol_pair. exists 32, (1 + 4 + (4 + r) + cursor_bytes). split_and!; [apply ol_id| |lia].
  apply ol_pair. exists 1, (4 + (4 + r) + cursor_bytes). split_and!; [done| |lia].
  apply ol_pair. exists 4, ((4 + r) + cursor_bytes). split_and!; [done| |lia].
  apply ol_pair. exists (4 + r), cursor_bytes. split_and!; [|apply ol_cursor|lia].
  apply ol_string. unfold r, MAX_TERMINAL_REASON_BYTES, u32_max in *. simpl. unfold id in *. lia.
Qed.

Lemma ol_commitment k :
  zlen (c_domain k) = 24 -> object_length c_commitment k = Ok (24 + 32 + 8 + 32 + 32 + 32 + 32).
Proof.
  intros Hd. unfold c_commitment. rewrite ol_iso.
  apply ol_pair. exists 24, (32 + 8 + 32 + 32 + 32 + 32). split_and!; [simpl fst; by rewrite ol_raw, Hd| |lia].
  apply ol_pair. exists 32, (8 + 32 + 32 + 32 + 32). split_and!; [apply ol_id| |lia].
  apply ol_pair. exists 8, (32 + 32 + 32 + 32). split_and!; [done| |lia].
  apply ol_pair. exists 32, (32 + 32 + 32). split_and!; [apply ol_id| |lia].
  apply ol_pair. exists 32, (32 + 32). split_and!; [apply ol_id| |lia].
  apply ol_pair. exists 32, 32. split_and!; [apply ol_id|apply ol_id|lia].
Qed.

Lemma ol_shared kind k reason :
  zlen (c_domain k) = 24 -> zlen reason <= MAX_TERMINAL_REASON_BYTES ->
  object_length c_shared_stop (kind, (k, reason)) = Ok (shared_bytes (zlen reason)).
Proof.
  intros Hd Hr. unfold c_shared_stop, shared_bytes.
  apply ol_pair. exists 1, ((24 + 32 + 8 + 32 + 32 + 32 + 32) + (4 + zlen reason)). split_and!; [done| |lia].
  apply ol_pair. exists (24 + 32 + 8 + 32 + 32 + 32 + 32), (4 + zlen reason).
  split_and!; [by apply ol_commitment| |lia].
  apply ol_string. unfold MAX_TERMINAL_REASON_BYTES, u32_max in *. simpl. lia.
Qed.

(** The size of a valid stop cause. *)
Definition cause_bytes (c : StopCause) : Z :=
  match c with
  | Authenticated o => abort_bytes (zlen (ab_reason o))
  | SharedStop _ _ r => shared_bytes (zlen r)
  end.

Lemma ol_cause c :
  cause_validate c = Ok tt -> object_length c_cause c = Ok (1 + cause_bytes c) /\
  zlen (cause_reason c) <= MAX_TERMINAL_REASON_BYTES.
Proof.
  destruct c as [o|kind k r]; simpl cause_validate; intros Hv.
  - unfold validate_shape in Hv. inv_ok. apply ensure_payload_Ok in Hv.
    match goal with Hd : bool_decide _ = true |- _ => apply bool_decide_eq_true in Hd end.
    split; [|done]. apply ol_variant. eexists. split; [|done]. apply ol_abort; [|done].
    by match goal with Hd : ab_domain o = _ |- _ => rewrite Hd end.
  - inv_ok. unfold ensure_reason in Hv. apply ensure_payload_Ok in Hv. unfold has_step_domain in *.
    match goal with Hd : bool_decide _ = true |- _ => apply bool_decide_eq_true in Hd end.
    split; [|done]. apply ol_variant. eexists. split; [|done]. apply ol_shared; [|done].
    by match goal with Hd : c_domain k = _ |- _ => rewrite Hd end.
Qed.

Definition termination_bytes (t : ReceiptTermination) : Z :=
  match t with TCompleted => 1 | TStopped c => 2 + cause_bytes c end.

Lemma ol_termination t :
  match t with TCompleted => True | TStopped c => cause_validate c = Ok tt end ->
  object_length c_termination t = Ok (termination_bytes t).
Proof.
  destruct t as [|c]; [done|]. intros [Hc _]%ol_cause. apply ol_variant. eexists. split; [done|].
  simpl. lia.
Qed.

(** The part of an artifact that does not depend on its termination. *)
Definition artifact_base (b : ExecutionBinding) (na : Z) : Z :=
  1 + 1 + na + 4 + (4 + zlen (params (act_offer_data (activation b)))) + 4.

Lemma artifact_bytes_length a n :
  rmap zlen (artifact_bytes a) = Ok n <->
  exists m, object_length c_body_raw (artifact_body a) = Ok m /\ n = 1 + m.
Proof. apply (ol_versioned RECEIPT_VERSION c_body_raw (artifact_body a) n). Qed.

Lemma empty_artifact_length b t o bs :
  match t with TCompleted => True | TStopped c => cause_validate c = Ok tt end ->
  artifact_bytes (empty_artifact b t o) = Ok bs ->
  exists na, object_length c_activation (activation b) = Ok na /\
    zlen (params (act_offer_data (activation b))) <= MAX_PARAMS_LEN /\
    zlen bs = artifact_base b na + termination_bytes t + zlen o.
Proof.
  intros Ht Hbs. assert (rmap zlen (artifact_bytes (empty_artifact b t o)) = Ok (zlen bs)) as Hn
    by (by rewrite Hbs).
  revert Hn. intros (m & (na & nt & nr & E1 & E2 & _ & Hp & _ & Hr & ->)%ol_body & Hm)%artifact_bytes_length.
  cbn [artifact_body empty_artifact header outcome body_params trace termination h_activation h_terminal] in *.
  unfold termination in E2. cbn [header h_terminal] in E2. rewrite (ol_termination _ Ht) in E2.
  rewrite items_length_nil in Hr. simplify_eq. exists na. split_and!; [done|done|].
  rewrite Hm. unfold artifact_base. lia.
Qed.

(** The overhead covers every terminal shape with an empty trace. *)
Lemma reserved_overhead_Ok b n :
  reserved_overhead b = Ok n ->
  exists na, object_length c_activation (activation b) = Ok na /\
    zlen (params (act_offer_data (activation b))) <= MAX_PARAMS_LEN /\
    artifact_base b na + 1 + MAX_TERMINAL_OUTCOME_BYTES <= n /\
    artifact_base b na + (2 + abort_bytes MAX_TERMINAL_REASON_BYTES) <= n /\
    artifact_base b na + (2 + shared_bytes MAX_TERMINAL_REASON_BYTES) <= n.
Proof.
  unfold reserved_overhead. set (reason := replicate _ 120). set (zeros := replicate _ 0).
  assert (zlen reason = MAX_TERMINAL_REASON_BYTES) as Hreason by (unfold reason; rewrite zlen_replicate; by apply Z2Nat.id).
  assert (zlen zeros = MAX_TERMINAL_OUTCOME_BYTES) as Hzeros by (unfold zeros; rewrite zlen_replicate; by apply Z2Nat.id).
  clearbody reason zeros. cbn [try_fold]. intros Hn. inv_ok.
  match goal with Ho : abort_unsigned _ _ _ _ _ _ = Ok _ |- _ =>
    unfold abort_unsigned, abort_new in Ho; apply rbind_Ok in Ho as ([] & Hshape & Ho); injection Ho as <- end.
  match goal with H1 : artifact_bytes (empty_artifact b TCompleted zeros) = Ok _ |- _ =>
    apply empty_artifact_length in H1 as (na & E1 & Hp & L1); [|done] end.
  match goal with H1 : artifact_bytes (empty_artifact b (TStopped (Authenticated _)) []) = Ok _ |- _ =>
    apply empty_artifact_length in H1 as (na2 & E2 & _ & L2); [|exact Hshape] end.
  match goal with H1 : artifact_bytes (empty_artifact b (TStopped (SharedStop _ _ _)) []) = Ok _ |- _ =>
    apply empty_artifact_length in H1 as (na3 & E3 & _ & L3) end.
  2:{ cbn [cause_validate has_step_domain c_domain]. unfold has_step_domain. cbn [c_domain].
      rewrite bool_decide_eq_true_2 by done. apply ensure_payload_Ok. by rewrite Hreason. }
  assert (na2 = na) as -> by congruence. assert (na3 = na) as -> by congruence.
  exists na. cbn [termination_bytes cause_bytes ab_reason] in *.
  rewrite ?Hreason, ?Hzeros, ?zlen_nil in *.
  split_and!; try done; lia.
Qed.

(** ** The assembled body *)

Lemma agreed_loop_entries b keys c tr c' :
  agreed_loop b keys c tr = Ok c' -> Forall (fun e => validate_trace_entry e = Ok tt) tr.
Proof.
  revert c; induction tr as [|e tr IH]; intros c Hl; [constructor|]. cbn [agreed_loop] in Hl. inv_ok.
  constructor; [|by eapply IH]. unfold validate_shared_entry in *. inv_ok.
  by repeat match goal with u : unit |- _ => destruct u end.
Qed.

(** The terminal a status publishes. *)
Definition status_termination (st : ExecutionStatus) : ReceiptTermination :=
  match terminal_cause st with Some c => TStopped c | None => TCompleted end.
Definition status_outcome (s : ExecutionState) : bytes :=
  match terminal_outcome s with Some o => borsh_bytes o | None => [] end.
Definition assembled_body (s : ExecutionState) (tr : list TraceEntry) : ReceiptBody :=
  MkBody (MkHeader (activation (binding s)) (status_termination (status s))) (status_outcome s)
    (params (act_offer_data (activation (binding s)))) tr.

Lemma assembled_size s tr :
  traced s tr -> is_terminal (status s) = true ->
  exists n, object_length c_body_raw (assembled_body s tr) = Ok n /\ 1 + n <= MAX_RECEIPT_BYTES /\
    zlen (status_outcome s) <= MAX_TERMINAL_OUTCOME_BYTES /\
    zlen (params (act_offer_data (activation (binding s)))) <= MAX_PARAMS_LEN /\
    match status_termination (status s) with
    | TCompleted => True
    | TStopped c => cause_validate c = Ok tt /\ status_outcome s = []
    end.
Proof.
  intros Ht Hterm. pose proof (tr_wf s tr Ht) as Hw.
  destruct (reserved_overhead_Ok _ _ (wf_overhead s Hw)) as (na & E1 & Hp & O1 & O2 & O3).
  pose proof (rf_bytes s (wf_recovered s Hw)) as Hb. pose proof (rf_steps s (wf_recovered s Hw)) as Hs.
  pose proof (rf_status s (wf_recovered s Hw)) as Hst.
  assert (match status_termination (status s) with
          | TCompleted => zlen (status_outcome s) <= MAX_TERMINAL_OUTCOME_BYTES
          | TStopped c => cause_validate c = Ok tt /\ status_outcome s = []
          end) as Hshape.
  { unfold status_outcome, terminal_outcome, status_termination in *.
    destruct (status s) as [| |o|o i|c|c i]; try done; cbn [terminal_cause status_validate_binding] in *; inv_ok;
      unfold outcome_validate, validate_borsh in *; inv_ok; repeat match goal with u : unit |- _ => destruct u end;
      try done; lia. }
  assert (object_length c_termination (status_termination (status s))
            = Ok (termination_bytes (status_termination (status s)))) as E2.
  { apply ol_termination. destruct (status_termination (status s)); [done|]. apply Hshape. }
  assert (zlen (status_outcome s) <= MAX_TERMINAL_OUTCOME_BYTES /\
          termination_bytes (status_termination (status s)) + zlen (status_outcome s)
            + artifact_base (binding s) na <= receipt_overhead s) as [Ho Hsz].
  { destruct (status_termination (status s)) as [|[o|kind k r]]; cbn [termination_bytes cause_bytes].
    - unfold MAX_TERMINAL_OUTCOME_BYTES in *. lia.
    - destruct Hshape as [Hc ->]. pose proof (proj2 (ol_cause _ Hc)) as Hr. cbn [cause_reason] in Hr.
      rewrite zlen_nil. unfold abort_bytes, MAX_TERMINAL_OUTCOME_BYTES in *. lia.
    - destruct Hshape as [Hc ->]. pose proof (proj2 (ol_cause _ Hc)) as Hr. cbn [cause_reason] in Hr.
      rewrite zlen_nil. unfold shared_bytes, MAX_TERMINAL_OUTCOME_BYTES in *. lia. }
  eexists. split_and!; [apply ol_body; exists na, (termination_bytes (status_termination (status s))), (trace_bytes s);
    cbn [assembled_body header outcome body_params trace h_activation]; split_and!; try done| | | |].
  - rewrite (tr_length s tr Ht). done.
  - apply Ht.
  - unfold artifact_base in Hsz. lia.
  - done.
  - done.
  - destruct (status_termination (status s)); done.
Qed.

Lemma assembled_shape s tr :
  traced s tr -> is_terminal (status s) = true ->
  validate_receipt_body_shape (assembled_body s tr) = Ok tt.
Proof.
  intros Ht Hterm. destruct (assembled_size s tr Ht Hterm) as (n & Hn & Hmax & _ & _ & Hshape).
  apply object_length_Ok in Hn as (bs & Hbs & <-). unfold validate_receipt_body_shape, to_vec.
  rewrite Hbs. cbn [map_err rbind]. unfold ensure_encoded. rewrite (proj2 (Z.ltb_ge _ _)) by lia.
  cbn [err_if rbind trace assembled_body]. rewrite (tr_length s tr Ht).
  rewrite (proj2 (Z.ltb_ge _ _)) by apply (rf_steps s (wf_recovered s (tr_wf s tr Ht))). cbn [err_if rbind].
  pose proof (tr_cursor s tr Ht) as Hc. unfold validate_agreed_trace in Hc. apply rbind_Ok in Hc as (ks & _ & Hc).
  rewrite (proj2 (try_for_each_Ok _ _ tt)) by (by eapply agreed_loop_entries). cbn [rbind].
  unfold termination. cbn [assembled_body header h_terminal outcome].
  destruct (status_termination (status s)) as [|c]; [done|]. destruct Hshape as [-> ->]. done.
Qed.

Lemma assembled_trace_completed s tr o :
  traced s tr -> (status s = Certified o \/ exists i, status s = Completed o i) ->
  validate_receipt_trace (binding s) tr (RTCompleted (borsh_bytes o)) = Ok (step_cursor s).
Proof.
  intros Ht Hst. pose proof (tr_ending s tr Ht) as He. unfold ending_matches in He.
  assert (exists e, last tr = Some e /\ terminal e = Some (TermEnd (borsh_bytes o))) as (e & Hl & Hte).
  { destruct Hst as [Hst|[i Hst]]; by rewrite Hst in He. }
  unfold validate_receipt_trace.
  assert ((zlen tr =? 0) = false) as ->.
  { apply Z.eqb_neq. intros Hz%zlen_0. by rewrite Hz in Hl. }
  cbn [err_if rbind]. rewrite (tr_cursor s tr Ht). cbn [rbind]. rewrite Hl. cbn [ok_or rbind].
  rewrite Hte. cbn [mbind option_bind completed_outcome]. by rewrite bool_decide_eq_true_2 by done.
Qed.

Lemma assembled_trace_stopped s tr c :
  traced s tr -> stop_matches (binding s) c tr ->
  match c with
  | Authenticated _ => validate_receipt_trace (binding s) tr RTAuthenticated = Ok (step_cursor s)
  | SharedStop kind k reason =>
      validate_receipt_trace (binding s) tr (RTStopped kind reason) = Ok (step_cursor s) /\
      exists e, last tr = Some e /\ step e = c_step k /\ entry_hash (E:=ProtocolError) e = Ok (c_entry_hash k)
  end.
Proof.
  intros Ht Hm. unfold validate_receipt_trace. rewrite (tr_cursor s tr Ht).
  destruct c as [o|kind k reason]; cbn [stop_matches] in Hm.
  - cbn [err_if rbind]. destruct (last tr) as [e|] eqn:Hl; [|done].
    rewrite Forall_forall in Hm. rewrite (proj1 (nonterminal_count e)); [done|].
    apply Hm. by apply last_Some_elem_of.
  - destruct Hm as (e & Hl & Hte & Hs & Hh). split; [|by exists e].
    assert ((zlen tr =? 0) = false) as -> by (apply Z.eqb_neq; intros Hz%zlen_0; by rewrite Hz in Hl).
    cbn [err_if rbind]. rewrite Hl. cbn [ok_or rbind]. rewrite Hte.
    destruct kind; by rewrite bool_decide_eq_true_2 by done.
Qed.

Lemma binding_activation_valid b : binding_ok b -> activation_validate (activation b) = Ok tt.
Proof. done. Qed.

(** A status' stop cause is authentic at the cursor. *)
Lemma status_cause s c :
  wf s -> terminal_cause (status s) = Some c ->
  cause_validate c = Ok tt /\ cause_validate_binding c (binding s) (step_cursor s) = Ok tt.
Proof.
  intros Hw Hc. pose proof (rf_status s (wf_recovered s Hw)) as Hv.
  destruct (status s); try done; cbn [terminal_cause status_validate_binding] in *; simplify_eq; inv_ok;
    repeat match goal with u : unit |- _ => destruct u end; done.
Qed.

(** A cursor at step zero still carries the starting link. *)
Lemma traced_start s tr :
  traced s tr ->
  (next_step (step_cursor s) =? 0) && negb (chain_hash (step_cursor s) =? CHAIN_START) = false.
Proof.
  intros Ht. destruct (Z.eqb_spec (next_step (step_cursor s)) 0) as [Hz|]; [|done].
  assert (zlen tr = 0) as ->%zlen_0 by (rewrite (tr_length s tr Ht); exact Hz).
  pose proof (tr_cursor s [] Ht) as Hc. unfold validate_agreed_trace in Hc.
  apply rbind_Ok in Hc as (ks & _ & Hc). cbn [agreed_loop] in Hc. injection Hc as _ _ Hl.
  simpl. by rewrite <-Hl, Z.eqb_refl.
Qed.

Lemma stopped_receipt_valid s tr c :
  traced s tr -> terminal_cause (status s) = Some c -> stop_matches (binding s) c tr ->
  validate_stopped_receipt (binding s) (assembled_body s tr) c = Ok tt.
Proof.
  intros Ht Hc Hm. destruct (status_cause s c (tr_wf s tr Ht) Hc) as [Hv Hb].
  pose proof (assembled_trace_stopped s tr c Ht Hm) as Htr.
  unfold validate_stopped_receipt. rewrite Hv. cbn [rbind trace assembled_body].
  destruct c as [o|kind k reason].
  - cbn [cause_validate cause_validate_binding] in *. unfold validate_for_session. rewrite Hv. cbn [rbind].
    destruct (ab_session_id o =? session_id (binding s)); [|done]. cbn [negb orb err_if rbind] in *.
    case_bool_decide as Hco; [|done]. cbn [negb orb] in Hb.
    destruct (is_participant (binding s) (ab_sender o)); [|done]. cbn [negb orb err_if rbind] in *.
    destruct (verify_signature o) as [[]| |]; cbn [map_err rbind negb err_if] in *; try done.
    rewrite Hco, (traced_start s tr Ht). cbn [err_if rbind]. rewrite Htr. cbn [rbind].
    by rewrite bool_decide_eq_true_2 by done.
  - destruct Htr as [Htr (e & Hl & Hs & He)]. rewrite Hl. cbn [ok_or rbind].
    rewrite Hs, Z.eqb_refl. cbn [negb err_if rbind]. rewrite He. cbn [rbind].
    rewrite Z.eqb_refl. cbn [negb err_if rbind]. rewrite Htr. done.
Qed.

Lemma assembled_valid s tr :
  traced s tr -> is_terminal (status s) = true ->
  validate_receipt_body (binding s) (assembled_body s tr) = Ok tt.
Proof.
  intros Ht Hterm. unfold validate_receipt_body. rewrite (assembled_shape s tr Ht Hterm).
  cbn [rbind header assembled_body h_activation body_params].
  rewrite (wf_binding s (tr_wf s tr Ht)). cbn [map_err rbind].
  rewrite !bool_decide_eq_true_2 by done. unfold session_id. rewrite !Z.eqb_refl.
  cbn [negb orb err_if rbind]. unfold termination. cbn [header assembled_body h_terminal trace outcome].
  pose proof (tr_ending s tr Ht) as He. unfold status_termination, ending_matches in *.
  destruct (terminal_cause (status s)) as [c|] eqn:Hc.
  - apply stopped_receipt_valid; [done|done|]. destruct (status s); try done; by simplify_eq/=.
  - destruct (status s) as [| |o|o i| |] eqn:Hst; try done;
      unfold status_outcome, terminal_outcome; rewrite Hst;
      rewrite (assembled_trace_completed s tr o Ht) by eauto; done.
Qed.

Lemma assembled_encodes s tr :
  traced s tr -> is_terminal (status s) = true ->
  exists bs, to_vec c_body_raw (assembled_body s tr) = Ok bs /\ 1 + zlen bs <= MAX_RECEIPT_BYTES.
Proof.
  intros Ht Hterm. destruct (assembled_size s tr Ht Hterm) as (n & Hn & Hmax & _).
  apply object_length_Ok in Hn as (bs & Hbs & <-). by exists bs.
Qed.

Definition artifact_kind_of (t : ReceiptTermination) : ReceiptKind :=
  match t with TStopped (Authenticated _) => KStopReport | _ => KReceipt end.

(** The store's assembly succeeds on every terminal execution with its log. *)
Lemma assemble_Ok s tr :
  traced s tr -> is_terminal (status s) = true ->
  exists a, assemble_terminal_artifact s (activation (binding s)) tr = Ok a /\
    artifact_body a = assembled_body s tr /\
    artifact_kind a = artifact_kind_of (status_termination (status s)).
Proof.
  intros Ht Hterm. destruct (assembled_encodes s tr Ht Hterm) as (bs & Hbs & Hmax).
  destruct (assembled_size s tr Ht Hterm) as (n & _ & _ & Ho & Hp & _).
  unfold assemble_terminal_artifact.
  assert (forall A (k : ReceiptTermination -> result ProtocolError A),
    (let? term := match terminal_cause (status s) with
               | Some cause => Ok (TStopped cause)
               | None => match status s with
                         | Certified _ | Completed _ _ => Ok TCompleted
                         | _ => Err InvalidTerminalStatus
                         end
               end in k term) = k (status_termination (status s))) as ->.
  { intros A k. unfold status_termination. by destruct (status s). }
  unfold body_new, ensure_payload. fold (status_outcome s).
  rewrite !(proj2 (Z.ltb_ge _ _)) by first [done|rewrite (tr_length s tr Ht); apply (rf_steps s (wf_recovered s (tr_wf s tr Ht)))].
  cbn [err_if rbind].
  change (MkBody (MkHeader (activation (binding s)) (status_termination (status s))) (status_outcome s)
    (params (act_offer_data (activation (binding s)))) tr) with (assembled_body s tr).
  rewrite (assembled_shape s tr Ht Hterm). cbn [rbind]. unfold artifact_new, binding_new.
  cbn [header assembled_body h_activation].
  rewrite (wf_binding s (tr_wf s tr Ht)). cbn [map_err rbind].
  change (MkBody (MkHeader (activation (binding s)) (status_termination (status s))) (status_outcome s)
    (params (act_offer_data (activation (binding s)))) tr) with (assembled_body s tr).
  assert (MkBinding (activation (binding s)) = binding s) as -> by (by destruct (binding s)).
  rewrite (assembled_valid s tr Ht Hterm). cbn [rbind]. unfold derive_body, artifact_encode. rewrite Hbs.
  cbn [map_err rbind]. unfold ensure_payload. rewrite (proj2 (Z.ltb_ge _ _)) by lia. cbn [err_if rbind].
  set (a := match termination (assembled_body s tr) with TStopped (Authenticated _) => _ | _ => _ end).
  assert (artifact_body a = assembled_body s tr) as Ha by (unfold a; by destruct (termination _) as [|[]]).
  assert (artifact_bytes a = Ok ([RECEIPT_VERSION] ++ bs)) as ->.
  { unfold artifact_bytes. rewrite Ha. apply wcat_Ok. by exists [RECEIPT_VERSION], bs. }
  cbn [map_err rbind]. rewrite zlen_app, (proj2 (Z.ltb_ge _ _)) by (rewrite zlen_cons, zlen_nil; lia).
  exists a. split_and!; [done|done|]. unfold a, termination. cbn [header assembled_body h_terminal].
  by destruct (status_termination (status s)) as [|[]].
Qed.
(** ** Publishing *)

(** What the last entry of an agreed trace contributed. *)
Lemma agreed_loop_last b keys c tr e c2 :
  agreed_loop b keys c (tr ++ [e]) = Ok c2 ->
  exists c1 k, try_fold (fun link e => let? k := for_entry (E:=ProtocolError) (session_id b) e link in
                                       Ok (link_hash k)) (chain_hash c) tr = Ok (chain_hash c1) /\
    for_entry (E:=ProtocolError) (session_id b) e (chain_hash c1) = Ok k /\ advance c1 k = Ok c2.
Proof.
  revert c. induction tr as [|x tr IH]; intros c Hl; cbn [app agreed_loop try_fold] in *; inv_ok.
  - by eauto.
  - match goal with Hk : for_entry _ x _ = _ |- _ => rewrite Hk end. cbn [rbind].
    match goal with Hadv : advance _ _ = _ |- _ => apply advance_Ok in Hadv as (_ & _ & _ & _ & Hn) end.
    subst. by apply IH in Hl.
Qed.

Lemma assembled_publishes s tr a :
  traced s tr -> (exists o, status s = Certified o) \/ (exists c, status s = Stopped c) ->
  artifact_body a = assembled_body s tr ->
  exists st, published_status s a = Ok st /\
    st = match status s with
         | Certified o => Completed o (receipt_id a)
         | Stopped c => StoppedPublished c (receipt_id a)
         | other => other
         end.
Proof.
  intros Ht Hst Ha. unfold published_status, termination. rewrite Ha.
  cbn [assembled_body header h_terminal trace outcome].
  destruct Hst as [[o Hst]|[c Hst]]; unfold status_termination; rewrite Hst; cbn [terminal_cause];
    [|rewrite bool_decide_eq_true_2 by done; by eexists].
  pose proof (tr_ending s tr Ht) as He. unfold ending_matches in He. rewrite Hst in He.
  destruct He as (e & Hl & Hte). apply last_Some in Hl as [tr0 ->].
  pose proof (tr_cursor _ _ Ht) as Hc. unfold validate_agreed_trace in Hc. apply rbind_Ok in Hc as (ks & _ & Hc).
  apply agreed_loop_last in Hc as (c1 & k & Hlink & Hk & Hadv).
  rewrite last_snoc. cbn [ok_or rbind]. unfold link_before_last.
  rewrite length_app. cbn [length]. rewrite Nat.add_sub, take_app_length. cbn [chain_hash] in Hlink.
  rewrite Hlink. cbn [rbind]. rewrite Hk. cbn [rbind].
  apply advance_Ok in Hadv as (A1 & _ & _ & A4 & A5). apply for_entry_Ok in Hk as (h & _ & Hk).
  pose proof (f_equal next_step A5) as N1. pose proof (f_equal state_hash A5) as N2.
  pose proof (f_equal chain_hash A5) as N3. cbn [next_step state_hash chain_hash step_cursor] in N1, N2, N3.
  assert (c_step k = step e) as K1 by (by rewrite Hk). assert (c_post_state k = post_state e) as K2 by (by rewrite Hk).
  unfold status_outcome, terminal_outcome. rewrite Hst, bool_decide_eq_true_2 by done.
  rewrite N2, N3, <-K2, !Z.eqb_refl, <-K1, A1, N1. unfold checked_add. rewrite (proj2 (Z.leb_le _ _)) by done.
  cbn [opt_eqb]. rewrite ?Z.eqb_refl. by eexists.
Qed.

Lemma publish_assembled s tr :
  traced s tr -> (exists o, status s = Certified o) \/ (exists c, status s = Stopped c) ->
  version s + 1 <= u64_max ->
  exists a s', assemble_terminal_artifact s (activation (binding s)) tr = Ok a /\
    publish_receipt a s = (Ok tt, s') /\
    status s' = match status s with
         | Certified o => Completed o (receipt_id a)
         | Stopped c => StoppedPublished c (receipt_id a)
         | other => other
         end.
Proof.
  intros Ht Hst Hv. assert (is_terminal (status s) = true) as Hterm by (by destruct Hst as [[? ->]|[? ->]]).
  destruct (assemble_Ok s tr Ht Hterm) as (a & Ha & Hb & _).
  destruct (assembled_publishes s tr a Ht Hst Hb) as (st & Hp & Hs).
  exists a, (set_version (version s + 1) (set_callout None (set_status st s))).
  split_and!; [done| |by subst].
  unfold publish_receipt, sbind, sread. rewrite Hb, (assembled_valid s tr Ht Hterm), Hp.
  unfold on_clone, smodify. cbn [fst snd].
  by rewrite (proj2 (bump_version_Ok (set_callout None (set_status st s)) tt _)) by done.
Qed.
End Publish.
