(* ===== verification/Fixture.v ===== *)
(** * A worked execution

    A concrete instance of the cryptographic interface and one two-party
    execution over it: negotiation, activation, two agreed steps, publication,
    and a stopped variant.  The examples of the other files evaluate their
    theorems here.  The digest folds a bounded prefix of its input and a
    signature is the key plus the digest, so everything computes; an aggregate
    verifies for the messages signed in this execution only. *)

From S2P Require Import Prelude Borsh Crypto Session Trace Negotiation Evidence Validation Receipt.
From S2P Require Import Frame Execution Invariant History Publish.

Definition toy_hash (bs : bytes) : Z := 1 + foldl (fun h b => (h * 31 + b) mod 65521) 7 (take 200 bs).

(** Signatures over any message: used to compute the messages of the run. *)
Definition toy_base : Crypto := {|
  blake3 := toy_hash;
  dalek_verify k d s := inr (s =? k + toy_hash d);
  blst_verify _ k d s := inr (s =? k + toy_hash d);
  blst_aggregate l := inr (foldr Z.add 0 l mod 256 ^ 48);
  blst_fast_aggregate_verify s d ks := inr (s =? foldr (fun k acc => k + toy_hash d + acc) 0 ks);
  serde_json_value _ := inr tt |}.

Definition unwrap {E A} (d : A) (r : result E A) : A := match r with Ok a => a | _ => d end.

Section Base.
#[local] Existing Instance toy_base.

(** ** Negotiation *)

Definition alice : PeerId := 11.
Definition bob : PeerId := 22.
Definition alice_bls : Z := 101.
Definition bob_bls : Z := 202.

Definition shared0 : bytes := [1; 2; 3].
Definition shared1 : bytes := [1; 2; 4].
Definition shared2 : bytes := [9].
Definition initial0 : StateHash := Eval lazy in unwrap 0 (of_shared (E:=ProtocolError) shared0).

Definition offer_data0 : OfferData :=
  Eval lazy in MkOfferData OFFER_DOMAIN OFFER_VERSION 5 0 alice 77 88 [123; 125] 2 initial0 1000000.
Definition offer_hash0 : OfferHash := Eval lazy in unwrap 0 (offer_hash_of (E:=ProtocolError) offer_data0).

Definition ticket_data_of (peer key : Z) : TicketData :=
  MkTicketData TICKET_DOMAIN TICKET_VERSION 5 0 peer 0
    (Active_ key (key + toy_hash (key_binding_message offer_hash0 peer key)) 100 5000).
Definition ticket_of (peer key : Z) : Ticket :=
  let d := ticket_data_of peer key in
  MkTicket d (peer + toy_hash (unwrap [] (ticket_signing_bytes (E:=ProtocolError) d))).
Definition alice_ticket : Ticket := Eval lazy in ticket_of alice alice_bls.
Definition bob_ticket : Ticket := Eval lazy in ticket_of bob bob_bls.
Definition hash_of_ticket (t : Ticket) : TicketHash :=
  unwrap 0 (ticket_hash_of (E:=ProtocolError) (ticket_data t)).
Definition offer0 : Offer :=
  Eval lazy in MkOffer offer_data0 [hash_of_ticket alice_ticket; hash_of_ticket bob_ticket].
Definition prepared0 : PreparedActivation :=
  Eval lazy in unwrap (MkPrepared offer0 [] (MkActivationData [] 0 0 []) 0)
                 (prepared_new offer0 [alice_ticket; bob_ticket]).
Definition aggregate_of (msg : bytes) : Z := alice_bls + toy_hash msg + (bob_bls + toy_hash msg).
Definition activation0 : Activation :=
  Eval lazy in MkActivation prepared0
    (aggregate_of (unwrap [] (activation_signing_bytes (E:=ProtocolError) (p_activation_data prepared0)))).
Definition ensemble0 : Ensemble := MkEnsemble [alice; bob].


(** The two certified steps of the run. *)
Definition entry1 : TraceEntry :=
  Eval lazy in MkEntry TRACE_FORMAT_VERSION 0 (StepSessionStarted ensemble0) initial0
    (unwrap 0 (of_shared (E:=ProtocolError) shared1)) None agreement_empty.
Definition commitment1 : StepCommitment :=
  Eval lazy in unwrap (MkCommitment [] 0 0 0 0 0 0)
    (for_entry (E:=ProtocolError) (act_session_hash activation0) entry1 CHAIN_START).
Definition entry2 : TraceEntry :=
  Eval lazy in MkEntry TRACE_FORMAT_VERSION 1 (StepMessage alice [7; 7]) (post_state entry1)
    (unwrap 0 (of_shared (E:=ProtocolError) shared2)) (Some (TermEnd [42])) agreement_empty.
Definition commitment2 : StepCommitment :=
  Eval lazy in unwrap (MkCommitment [] 0 0 0 0 0 0)
    (for_entry (E:=ProtocolError) (act_session_hash activation0) entry2 (link_hash commitment1)).
Definition signed_messages : list bytes :=
  Eval lazy in [unwrap [] (activation_signing_bytes (E:=ProtocolError) (p_activation_data prepared0));
                signing_bytes commitment1; signing_bytes commitment2].
End Base.

(** The interface of the run. *)
#[export] Instance toy : Crypto := {
  blake3 := toy_hash;
  dalek_verify k d s := inr (s =? k + toy_hash d);
  blst_verify _ k d s := inr (s =? k + toy_hash d);
  blst_aggregate l := inr (foldr Z.add 0 l mod 256 ^ 48);
  blst_fast_aggregate_verify s d ks :=
    inr (bool_decide (d ∈ signed_messages) && (s =? foldr (fun k acc => k + toy_hash d + acc) 0 ks));
  serde_json_value _ := inr tt }.

(** ** The agreed run *)

Definition sign_as (peer key : Z) (s : ExecutionState) : ParticipantStepSignature :=
  let k := unwrap None (proposal_commitment s) in
  MkPSig peer (MkStepSig (agreed_step s)
    (key + toy_hash match k with Some k => signing_bytes k | None => [] end)).
Definition after (op : Op) (s : ExecutionState) : ExecutionState := (run_op op s).2.

Definition st_new : ExecutionState :=
  Eval lazy in unwrap (MkState 0 (MkBinding activation0) 0 Activating 0 0 0 0 0 0 0 None Open ∅ [] [] [] None None)
                 (state_new 9 activation0 alice shared0 [4]).
Definition st_active : ExecutionState := Eval lazy in after OpActivate st_new.

Definition op_start : Op :=
  OpDispatch (SessionStarted ensemble0) shared1 [5] [Broadcast [7; 7]] None None None.
Definition st_staged : ExecutionState := Eval lazy in after op_start st_active.
Definition sig_a1 := Eval lazy in sign_as alice alice_bls st_staged.
Definition sig_b1 := Eval lazy in sign_as bob bob_bls st_staged.
Definition st_signed : ExecutionState := Eval lazy in after (OpSign sig_a1) st_staged.
Definition st_step1 : ExecutionState := Eval lazy in after (OpSign sig_b1) st_signed.

Definition outcome0 : TerminalOutcome := MkOutcome [42] [52; 50].
Definition op_end : Op :=
  OpDispatch (MessageReceived alice [7; 7]) shared2 [5] [SessionEnd [42]] (Some outcome0) None None.
Definition st_ending : ExecutionState := Eval lazy in after op_end st_step1.
Definition sig_b2 := Eval lazy in sign_as bob bob_bls st_ending.
Definition sig_a2 := Eval lazy in sign_as alice alice_bls st_ending.
Definition st_ending_signed : ExecutionState := Eval lazy in after (OpSign sig_b2) st_ending.
Definition st_certified : ExecutionState := after (OpSign sig_a2) st_ending_signed.

(** The entry an operation committed. *)
Definition logged_by (op : Op) (s : ExecutionState) : list TraceEntry :=
  match (run_op op s).1 with Ok r => logged r | _ => [] end.
Definition trace0 : list TraceEntry :=
  Eval lazy in logged_by (OpSign sig_b1) st_signed ++ logged_by (OpSign sig_a2) st_ending_signed.

(** ** A stopped run *)

Definition abort0 : AbortOccurrence :=
  Eval lazy in
    let o := MkAbort ABORT_OCCURRENCE_DOMAIN ABORT_OCCURRENCE_VERSION (act_session_hash activation0) bob
               KAbort 3 [120] (step_cursor st_step1) 0 in
    MkAbort (ab_domain o) (ab_version o) (ab_session_id o) (ab_sender o) (ab_kind o) (ab_code o)
      (ab_reason o) (ab_coordinate o) (bob + toy_hash (unwrap [] (abort_signing_bytes o))).
Definition st_stopped : ExecutionState := after (OpStop abort0) st_step1.

(** ** The run succeeds *)

Definition answer_of (op : Op) (s : ExecutionState) : Answer := unwrap AUnit (run_op op s).1.
Definition succeeds (op : Op) (s : ExecutionState) : Prop := is_ok (run_op op s).1 = true.

Lemma succeeds_run op s : succeeds op s -> run_op op s = (Ok (answer_of op s), after op s).
Proof.
  unfold succeeds, answer_of, after. destruct (run_op op s) as [[r| |] s']; cbn [fst snd is_ok unwrap]; done.
Qed.

Lemma reach_after op s tr :
  reach s tr -> op_ok op -> succeeds op s -> reach (after op s) (tr ++ logged (answer_of op s)).
Proof. intros Hr Ho Hs. eapply reach_op; [done|done|]. by apply succeeds_run. Qed.

Lemma activation0_valid : activation_validate activation0 = Ok tt.
Proof. lazy. reflexivity. Qed.
Lemma st_new_ok : state_new 9 activation0 alice shared0 [4] = Ok st_new.
Proof. lazy. reflexivity. Qed.
Lemma st_active_ok : succeeds OpActivate st_new.
Proof. lazy. reflexivity. Qed.
Lemma st_staged_ok : succeeds op_start st_active.
Proof. lazy. reflexivity. Qed.
Lemma st_signed_ok : succeeds (OpSign sig_a1) st_staged.
Proof. lazy. reflexivity. Qed.
Lemma st_step1_ok : succeeds (OpSign sig_b1) st_signed.
Proof. lazy. reflexivity. Qed.
Lemma st_ending_ok : succeeds op_end st_step1.
Proof. lazy. reflexivity. Qed.
Lemma st_ending_signed_ok : succeeds (OpSign sig_b2) st_ending.
Proof. lazy. reflexivity. Qed.
Lemma st_certified_ok : succeeds (OpSign sig_a2) st_ending_signed.
Proof. lazy. reflexivity. Qed.
Lemma st_stopped_ok : succeeds (OpStop abort0) st_step1.
Proof. lazy. reflexivity. Qed.

Lemma reach_signed : reach st_signed [].
Proof.
  pose proof (reach_new _ _ _ _ _ _ st_new_ok) as H0.
  pose proof (reach_after OpActivate _ _ H0 I st_active_ok) as H1.
  pose proof (reach_after op_start _ _ H1 I st_staged_ok) as H2.
  exact (reach_after (OpSign sig_a1) _ _ H2 I st_signed_ok).
Qed.
Lemma reach_step1 : reach st_step1 (take 1 trace0).
Proof. exact (reach_after (OpSign sig_b1) _ _ reach_signed I st_step1_ok). Qed.
Lemma reach_certified : reach st_certified trace0.
Proof.
  pose proof (reach_after op_end _ _ reach_step1 I st_ending_ok) as H1.
  pose proof (reach_after (OpSign sig_b2) _ _ H1 I st_ending_signed_ok) as H2.
  exact (reach_after (OpSign sig_a2) _ _ H2 I st_certified_ok).
Qed.
Lemma reach_stopped : reach st_stopped (take 1 trace0).
Proof. exact (reach_after (OpStop abort0) _ _ reach_step1 I st_stopped_ok). Qed.
