(* ===== verification/Guarantees.v ===== *)
(** * Guarantees of an execution

    What the operations of [execution/state.rs] promise over whole histories:
    recovery, atomicity, unanimity, finality, verifiable logs and publication.
    A history is a [reach] derivation: [ExecutionState::new] followed by
    successful operations; the second index is the log of certified entries the
    caller stored. *)

From S2P Require Import Prelude Borsh Crypto Session Trace Negotiation Evidence Validation Receipt.
From S2P Require Import Frame Execution Invariant History Publish Fixture.

Section Guarantees.
Context `{Crypto}.

(** ** Unanimity *)

(** A full set of retained signatures has one from every participant. *)
Lemma retained_full b k sigs :
  binding_ok b -> validate_retained b k sigs = Ok tt -> zlen sigs = zlen (binding_tickets b) ->
  forall peer, peer ∈ participants b -> exists x, x ∈ sigs /\ participant x = peer /\ signed_by b k x.
Proof.
  intros Hb (_ & Hf & Hs)%(validate_retained_Ok _ _ _ Hb) Hlen peer Hp.
  pose proof (strict_sorted_fmap_NoDup _ _ Hs) as Hnd.
  assert ((participant <$> sigs) ⊆ participants b) as Hsub.
  { intros q (x & -> & Hx)%list_elem_of_fmap. rewrite Forall_forall in Hf.
    destruct (Hf x Hx) as (key & Hk & _). apply is_participant_elem. by eapply participant_key_member. }
  assert (participants b ≡ₚ participant <$> sigs) as Hperm.
  { symmetry. apply submseteq_length_Permutation; [by apply NoDup_submseteq|].
    rewrite <- zlen_participants in Hlen. unfold zlen in Hlen. rewrite length_fmap. lia. }
  rewrite Hperm in Hp. apply list_elem_of_fmap in Hp as (x & -> & Hx). exists x.
  rewrite Forall_forall in Hf. split_and!; [done|done|by apply Hf].
Qed.

(** The pending signatures of a well-formed state. *)
Lemma wf_retained s p k :
  wf s -> proposal s = Some p -> commitment_for (E:=ProtocolError) s p = Ok k ->
  validate_retained (binding s) k (signatures p) = Ok tt.
Proof.
  intros Hw Hp Hk. destruct (wf_pending s p Hw Hp) as [_ Hc].
  apply check_pending_Ok in Hc as (_ & _ & _ & Hv & _). unfold validate_proposal in Hv.
  apply rbind_Ok in Hv as (k' & Hst & Hret). apply validate_staged_Ok in Hst.
  pose proof (sf_commit _ _ _ _ _ Hst) as Hk'. unfold commitment_for in Hk. simpl in Hk'. congruence.
Qed.

Lemma sign_unanimous s sg c s' :
  wf s -> add_step_signature sg s = (Ok (Some c), s') ->
  exists p k, proposal s = Some p /\ commitment_for (E:=ProtocolError) s p = Ok k /\
    (forall peer, peer ∈ participants (binding s) ->
      exists x, x ∈ signatures p ++ [sg] /\ participant x = peer /\ signed_by (binding s) k x) /\
    step_cursor s' = MkCursor (agreed_step s + 1) (post_state (entry c)) (link_hash k).
Proof.
  intros Hw Ho. destruct (add_step_signature_Ok s sg (Some c) s' Hw Ho)
    as (p & k & Hp & Hk & _ & Hw1 & [(? & _)|(cert & c' & [= <-] & Hf & Hlen & Hc)]); [done|].
  exists p, k. split_and!; [done|done| |].
  - intros peer Hpeer.
    pose proof (wf_retained _ _ k Hw1 eq_refl Hk) as Hret.
    destruct (retained_full (binding s) k _ (wf_binding s Hw) Hret Hlen peer Hpeer) as (x & Hx & Hpx).
    exists x. split; [|done]. cbn [signatures set_signatures] in Hx. by rewrite sort_key_Permutation in Hx.
  - apply certify_step_Ok in Hc as (q & next & bytes & [Hq Hsf Hcv Hadv Hb] & -> & _ & ->).
    cbn [proposal set_proposal] in Hq. injection Hq as <-.
    pose proof (sf_commit _ _ _ _ _ Hsf) as Hk'. unfold commitment_for in Hk.
    assert (k = commitment cert) as -> by (simpl in Hk'; congruence).
    apply for_entry_Ok in Hk as (h & _ & Hkeq).
    apply advance_Ok in Hadv as (_ & _ & _ & _ & ->).
    destruct (certified_state_fields (set_proposal
      (Some (set_signatures p (sort_key participant (signatures p ++ [sg])))) s)
      (set_signatures p (sort_key participant (signatures p ++ [sg]))) cert
      (MkCursor (agreed_step s + 1) (c_post_state (commitment cert)) (link_hash (commitment cert))) bytes)
      as [_ _ _ F4 _ _ _ _ _ _ _].
    refine (eq_trans F4 _). cbn [entry set_entry with_agreement post_state set_signatures].
    by rewrite Hkeq.
Qed.

(** ** Finality *)

(** A successful operation, and any number of them. *)
Definition op_step (s s' : ExecutionState) : Prop :=
  exists op r, op_ok op /\ run_op op s = (Ok r, s').

Lemma reach_steps s tr s' : reach s tr -> rtc op_step s s' -> exists tr', reach s' (tr ++ tr').
Proof.
  intros Hr Hs. revert tr Hr. induction Hs as [s|s s1 s2 (op & r & Hop & Ho) _ IH]; intros tr Hr.
  - exists []. by rewrite app_nil_r.
  - destruct (IH (tr ++ logged r)) as [tr' Ht]; [by eapply reach_op|].
    exists (logged r ++ tr'). by rewrite app_assoc.
Qed.

(** The conclusion of an execution. *)
Definition conclusion (s : ExecutionState) : StepCursor * option TerminalOutcome * option StopCause :=
  (step_cursor s, terminal_outcome s, terminal_cause (status s)).

Lemma terminal_step s s' op r :
  wf s -> is_terminal (status s) = true -> run_op op s = (Ok r, s') ->
  is_terminal (status s') = true /\ conclusion s' = conclusion s /\ logged r = [].
Proof.
  intros Hw Ht Hr.
  assert (proposal s = None) as Hnp.
  { destruct (proposal s) as [p|] eqn:Hp; [|done].
    destruct (wf_pending s p Hw Hp) as [Hn _]. congruence. }
  destruct op as [|e sh lo ef ou pid rq| |sg|cert|o|a|from seq|to seq|peer|];
    try (pose proof (fun Hi => side_ops_same _ s r s' Hi Hr) as Hside;
      destruct (Hside I) as ([Hs1 Hs2 Hs3] & Hst & ->);
      unfold conclusion, terminal_outcome; rewrite Hs2, Hst; split_and!; done);
    apply answer_Ok in Hr as (a' & Hr & ->).
  - apply activate_same in Hr as (_ & Hst & _). by rewrite Hst in Ht.
  - apply apply_dispatch_same in Hr as (_ & _ & Ha & _); [|done].
    by destruct (status s).
  - destruct (add_step_signature_Ok s sg a' s' Hw Hr) as (p & k & Hp & _). congruence.
  - apply certify_step_Ok in Hr as (p & next & bytes & [Hp _ _ _ _] & _). congruence.
  - apply stop_same in Hr as (_ & Hn & _). congruence.
  - apply publish_same in Hr as ([Hs1 Hs2 Hs3] & _ & _ & [(o & H1 & H2)|(c & H1 & H2)]);
      unfold conclusion, terminal_outcome; rewrite Hs2, H1, H2; done.
Qed.

Lemma terminal_steps s tr s' :
  reach s tr -> is_terminal (status s) = true -> rtc op_step s s' ->
  reach s' tr /\ is_terminal (status s') = true /\ conclusion s' = conclusion s.
Proof.
  intros Hr Ht Hs. revert Hr Ht. induction Hs as [s|s s1 s2 (op & r & Hop & Ho) _ IH]; intros Hr Ht; [done|].
  destruct (terminal_step s s1 op r (tr_wf _ _ (reach_traced _ _ Hr)) Ht Ho) as (Ht1 & Hc & Hl).
  destruct IH as (Hr2 & Ht2 & Hc2); [|done|].
  - rewrite <- (app_nil_r tr), <- Hl. by eapply reach_op.
  - split_and!; [done|done|congruence].
Qed.

(** ** Versions *)

(** Every successful change moves the version by one; the version never wraps. *)
Definition moved (s s' : ExecutionState) : Prop :=
  version s' = version s + 1 /\ version s + 1 <= u64_max.

Lemma bump_moved s u s' : bump_version s = (Ok u, s') -> moved s s'.
Proof. intros [Hle ->]%bump_version_Ok. done. Qed.

Lemma install_dispatch_moved s pos shared local post out st co u s' :
  install_dispatch pos shared local post out st co s = (Ok u, s') -> moved s s'.
Proof.
  unfold install_dispatch. intros Ho. inv_ok.
  match goal with Hb : bump_version _ = _ |- _ => apply bump_moved in Hb end. done.
Qed.

Lemma stage_proposal_moved s p u s' : stage_proposal p s = (Ok u, s') -> moved s s'.
Proof.
  unfold stage_proposal. intros Ho. inv_ok.
  match goal with Hb : bump_version _ = _ |- _ => apply bump_moved in Hb end. done.
Qed.

Lemma apply_dispatch_moved s e shared local effects o pid req r s' :
  apply_dispatch e shared local effects o pid req s = (Ok r, s') -> moved s s'.
Proof.
  unfold apply_dispatch. intros Ho. inv_ok. destruct (negb (is_agreed_event e)).
  - unfold apply_local in Ho. inv_ok.
    match goal with Hi : install_dispatch _ _ _ _ _ _ _ _ = _ |- _ => apply install_dispatch_moved in Hi end. done.
  - unfold apply_agreed in Ho. inv_ok.
    match goal with Hi : stage_proposal _ _ = _ |- _ => apply stage_proposal_moved in Hi end. done.
Qed.

Lemma certify_moved s cert c s' : certify_step cert s = (Ok c, s') -> moved s s'.
Proof. intros (p & next & bytes & _ & _ & Hv & ->)%certify_step_Ok. done. Qed.

Lemma end_op_moved s peer b s' : confirm_end peer s = (Ok b, s') -> moved s s' \/ (b = false /\ s' = s).
Proof.
  unfold confirm_end. intros Ho. inv_ok. destruct (end_phase s); [by inv_ok|..];
    (destruct (negb _); inv_ok; [by right|left]);
    match goal with Hb : bump_version _ = _ |- _ => apply bump_moved in Hb end; done.
Qed.

Lemma stop_moved s o u s' : stop o s = (Ok u, s') -> moved s s'.
Proof.
  intros Ho. pose proof (stop_same _ _ _ _ Ho) as (_ & _ & _ & Hv). split; [done|].
  unfold stop in Ho. inv_ok.
  match goal with Hb : bump_version _ = _ |- _ => apply bump_version_Ok in Hb as [Hle _] end.
  by match type of Hle with version (begin_end ?s1) + 1 <= _ =>
    destruct (begin_end_same s1) as (_ & _ & Hb); rewrite Hb in Hle end.
Qed.

Lemma run_op_version op s r s' :
  wf s -> run_op op s = (Ok r, s') -> moved s s' \/ (r = AChanged false /\ s' = s).
Proof.
  intros Hw Hr. destruct op as [|e sh lo ef ou pid rq| |sg|cert|o|a|from seq|to seq|peer|];
    apply answer_Ok in Hr as (a' & Hr & ->).
  - left. unfold activate in Hr. inv_ok. by eapply bump_moved in Hr.
  - left. by eapply apply_dispatch_moved.
  - left. unfold drop_outgoing_head in Hr. inv_ok. by eapply bump_moved in Hr.
  - left. destruct (add_step_signature_Ok s sg a' s' Hw Hr)
      as (p & k & _ & _ & _ & _ & [(-> & _ & Hv & ->)|(cert & c & -> & _ & _ & Hc)]); [done|].
    by apply certify_moved in Hc.
  - left. by eapply certify_moved.
  - left. by eapply stop_moved.
  - left. unfold publish_receipt in Hr. inv_ok. by eapply bump_moved in Hr.
  - left. unfold record_direct, next_version, version_next in Hr. inv_ok. done.
  - unfold ack_direct, next_version, version_next in Hr. inv_ok. destruct (negb _); inv_ok; [by right|by left].
  - apply end_op_moved in Hr as [?|[-> ->]]; [by left|by right].
  - left. unfold expire_end in Hr. inv_ok. by eapply bump_moved in Hr.
Qed.

(** ** The guarantees *)

(** C1: every state an execution can reach, after any sequence of successful
    operations, passes the checks of recovery: a crash between any two
    operations loses nothing. *)
Theorem reachable_recovers s tr : reach s tr -> validate_recovered s = Ok tt.
Proof. intros Hr. apply wf_validate, (tr_wf s tr), reach_traced, Hr. Qed.

(** C3: a certified or stopped execution can always be published: the receipt
    budget enforced at every step leaves room, the store's assembly succeeds,
    and publishing installs the published status. *)
Theorem terminal_execution_publishes s tr :
  reach s tr -> (exists o, status s = Certified o) \/ (exists c, status s = Stopped c) ->
  version s + 1 <= u64_max ->
  exists a s', assemble_terminal_artifact s (activation (binding s)) tr = Ok a /\
    run_op (OpPublish a) s = (Ok AUnit, s') /\
    published_receipt_id s' = Some (receipt_id a).
Proof.
  intros Hr Hst Hv. destruct (publish_assembled s tr (reach_traced s tr Hr) Hst Hv) as (a & s' & Ha & Hp & Hs).
  exists a, s'. split_and!; [done| |].
  - apply answer_Ok. by exists tt.
  - unfold published_receipt_id. rewrite Hs. by destruct Hst as [[o ->]|[c ->]].
Qed.

(** C17: the log of certified entries verifies independently: replaying it from
    the activation reaches exactly the cursor the state holds, and its length and
    encoded size are the counters the receipt budget is kept on. *)
Theorem log_verifies s tr :
  reach s tr ->
  validate_agreed_trace (binding s) tr = Ok (step_cursor s) /\ zlen tr = agreed_step s /\
  items_length c_entry tr = Ok (trace_bytes s) /\
  trace_bytes s + receipt_overhead s <= MAX_RECEIPT_BYTES.
Proof.
  intros [Hw Hc Hl Hb _]%reach_traced. split_and!; [done|done|done|]. apply (rf_bytes s (wf_recovered s Hw)).
Qed.

(** C20: an operation that fails, by any error path, leaves the state untouched. *)
Theorem failed_operation_changes_nothing op s e s' : run_op op s = (Err e, s') -> s' = s.
Proof. intros Hr. pose proof (run_op_atomic op s) as Ha. by rewrite Hr in Ha. Qed.

(** C4: a step is certified by signatures only when every participant signed
    the staged commitment: one verified signature each, over one commitment, and
    the cursor then moves to that commitment. *)
Theorem certification_is_unanimous s tr sg c s' :
  reach s tr -> run_op (OpSign sg) s = (Ok (ACommitted (Some c)), s') ->
  exists p k, proposal s = Some p /\ commitment_for (E:=ProtocolError) s p = Ok k /\
    (forall peer, peer ∈ participants (binding s) ->
      exists x, x ∈ signatures p ++ [sg] /\ participant x = peer /\ signed_by (binding s) k x) /\
    step_cursor s' = MkCursor (agreed_step s + 1) (post_state (entry c)) (link_hash k).
Proof.
  intros Hr (a & Ho & [= <-])%answer_Ok. by apply sign_unanimous; [apply (tr_wf s tr), reach_traced|].
Qed.

(** C19: a conclusion is final: once an execution is certified or stopped, no
    sequence of operations moves its cursor, changes its outcome or its cause, or
    adds to its log. *)
Theorem conclusion_is_final s tr s' :
  reach s tr -> is_terminal (status s) = true -> rtc op_step s s' ->
  reach s' tr /\ conclusion s' = conclusion s.
Proof. intros Hr Ht Hs. by destruct (terminal_steps s tr s' Hr Ht Hs) as (? & _ & ?). Qed.

(** An authenticated stop is accepted only from a participant that has not
    signed the staged step, at the current cursor; it gives the step up and
    concludes the execution there. *)
Theorem stop_excludes_signed_step s o r s' :
  run_op (OpStop o) s = (Ok r, s') ->
  is_participant (binding s) (ab_sender o) = true /\ verify_signature o = Ok true /\
  ab_coordinate o = step_cursor s /\
  (forall p, proposal s = Some p -> ab_sender o ∉ participant <$> signatures p) /\
  proposal s' = None /\ status s' = Stopped (Authenticated o) /\ step_cursor s' = step_cursor s.
Proof.
  intros (u & Ho & _)%answer_Ok. destruct (stop_same s o u s' Ho) as ([_ Hc _] & _ & Hst & _).
  unfold stop in Ho. inv_ok.
  repeat match goal with Hb : bool_decide _ = true |- _ => apply bool_decide_eq_true in Hb end.
  split_and!; try done.
  - by match goal with v : bool |- _ => destruct v end.
  - intros p Hp (y & Hy & Hin)%list_elem_of_fmap. rewrite Hp in *.
    match goal with Hf : existsb _ _ = false |- _ => rewrite <- not_true_iff_false, existsb_exists in Hf; apply Hf end.
    exists y. rewrite <- list_elem_of_In, Z.eqb_eq. done.
  - match goal with Hb : bump_version _ = _ |- _ => apply bump_version_Ok in Hb as [_ ->] end.
    by match goal with |- context [begin_end ?s1] => destruct (begin_end_cases s1) as [->|(_ & _ & ->)] end.
Qed.

(** Every successful change moves the version by exactly one and never past
    [u64::MAX]; the only successful calls that keep it are the duplicate
    acknowledgements that change nothing. *)
Theorem version_moves_by_one s tr op r s' :
  reach s tr -> run_op op s = (Ok r, s') ->
  (version s' = version s + 1 /\ version s + 1 <= u64_max) \/ (r = AChanged false /\ s' = s).
Proof. intros Hr. apply run_op_version, (tr_wf s tr), reach_traced, Hr. Qed.
End Guarantees.

(** ** Examples *)

Lemma reachable_recovers_witness : validate_recovered st_certified = Ok tt.
Proof. exact (reachable_recovers st_certified trace0 reach_certified). Defined.

Lemma terminal_execution_publishes_witness :
  exists a s', assemble_terminal_artifact st_certified (activation (binding st_certified)) trace0 = Ok a /\
    run_op (OpPublish a) st_certified = (Ok AUnit, s') /\
    published_receipt_id s' = Some (receipt_id a).
Proof.
  apply (terminal_execution_publishes st_certified trace0 reach_certified).
  - left. exists outcome0. lazy. reflexivity.
  - apply Z.leb_le. reflexivity.
Defined.

Lemma log_verifies_witness :
  validate_agreed_trace (binding st_certified) trace0 = Ok (step_cursor st_certified) /\
  zlen trace0 = agreed_step st_certified /\
  items_length c_entry trace0 = Ok (trace_bytes st_certified) /\
  trace_bytes st_certified + receipt_overhead st_certified <= MAX_RECEIPT_BYTES.
Proof. exact (log_verifies st_certified trace0 reach_certified). Defined.

(** Bob's second signature of one step is refused. *)
Lemma failed_operation_changes_nothing_witness :
  (run_op (OpSign sig_a1) st_signed).2 = st_signed.
Proof.
  apply (failed_operation_changes_nothing (OpSign sig_a1) st_signed (DuplicateStepSignature alice)).
  lazy. reflexivity.
Defined.

Lemma certification_is_unanimous_witness :
  exists p k, proposal st_signed = Some p /\ commitment_for (E:=ProtocolError) st_signed p = Ok k /\
    (forall peer, peer ∈ participants (binding st_signed) ->
      exists x, x ∈ signatures p ++ [sig_b1] /\ participant x = peer /\ signed_by (binding st_signed) k x) /\
    agreed_step (after (OpSign sig_b1) st_signed) = 1.
Proof.
  destruct (certification_is_unanimous st_signed [] sig_b1
    (match answer_of (OpSign sig_b1) st_signed with
     | ACommitted (Some c) => c
     | _ => MkProposal entry1 [] [] [] [] 0 Active None []
     end) (after (OpSign sig_b1) st_signed) reach_signed) as (p & k & Hp & Hk & Hall & _).
  - refine (eq_trans (succeeds_run _ _ st_step1_ok) _). lazy. reflexivity.
  - exists p, k. done.
Defined.

Lemma conclusion_is_final_witness :
  reach (after OpExpireEnd st_certified) trace0 /\
  conclusion (after OpExpireEnd st_certified) = conclusion st_certified.
Proof.
  apply (conclusion_is_final st_certified trace0 _ reach_certified).
  - lazy. reflexivity.
  - apply rtc_once. exists OpExpireEnd, AUnit. split; [done|].
    refine (eq_trans (succeeds_run OpExpireEnd st_certified _) _); lazy; reflexivity.
Defined.

Lemma stop_excludes_signed_step_witness :
  is_participant (binding st_step1) (ab_sender abort0) = true /\ status st_stopped = Stopped (Authenticated abort0).
Proof.
  destruct (stop_excludes_signed_step st_step1 abort0 (answer_of (OpStop abort0) st_step1) st_stopped
    (succeeds_run _ _ st_stopped_ok)) as (Hp & _ & _ & _ & _ & Hs & _).
  exact (conj Hp Hs).
Defined.

Lemma version_moves_by_one_witness :
  (version st_stopped = version st_step1 + 1 /\ version st_step1 + 1 <= u64_max) \/
  (answer_of (OpStop abort0) st_step1 = AChanged false /\ st_stopped = st_step1).
Proof.
  exact (version_moves_by_one st_step1 (take 1 trace0) (OpStop abort0) (answer_of (OpStop abort0) st_step1)
    st_stopped reach_step1 (succeeds_run _ _ st_stopped_ok)).
Defined.
