(* ===== verification/Consistency.v ===== *)
(** * Consistency of certified histories

    Why the unanimous step protocol cannot fork: the link hash of a certified
    trace determines its contents, an honest participant's durable state stages
    one step at a coordinate, and an aggregate over all keys includes the honest
    key.  The cryptographic assumptions are the [Context] of each section; a
    digest collision is exhibited, never assumed away. *)

From S2P Require Import Prelude Borsh Crypto Session Trace Negotiation Evidence Validation Receipt.
From S2P Require Import Frame Execution Invariant History Publish Fixture Guarantees.

Section Consistency.
Context `{Crypto}.

(** ** Full agreements *)

Lemma selected_full a ks : is_full (signers a) (length ks) = true -> selected_participants a ks = ks.
Proof.
  rewrite is_full_true. unfold selected_participants. intros Hf.
  assert (forall n, (forall i, (i < length ks)%nat -> signers_contains (signers a) (n + i) = true) ->
    omap (fun '(i, k) => if signers_contains (signers a) i then Some k else None)
      (imap (fun i k => ((n + i)%nat, k)) ks) = ks) as Hg; [|by apply (Hg 0%nat)].
  clear Hf. induction ks as [|k ks IH]; intros n Hf; [done|]. cbn [imap omap list_omap].
  rewrite (Hf 0%nat) by (cbn [length]; lia). f_equal.
  rewrite (imap_ext _ (fun i k => ((S n + i)%nat, k))).
  - apply IH. intros i Hi. replace (S n + i)%nat with (n + S i)%nat by lia. apply Hf. cbn [length]. lia.
  - intros i x _. unfold compose. f_equal. lia.
Qed.

(** A full agreement verifies over every key. *)
Lemma full_agreement_verifies a k ks :
  verify_full_agreement a k ks = Ok tt -> fast_aggregate_verify (aggregate a) (signing_bytes k) ks = Ok true.
Proof.
  unfold verify_full_agreement, verify_signatures. intros Hv. inv_ok.
  rewrite (selected_full a ks) in Hv by done. destruct (length ks =? 0)%nat; [done|]. inv_ok.
  by match goal with b : bool |- _ => destruct b end.
Qed.

(** ** Prefixes of certified traces *)

Definition genesis_cursor (b : ExecutionBinding) : StepCursor := MkCursor 0 (binding_initial b) CHAIN_START.

Lemma agreed_loop_app b ks c l1 l2 c2 :
  agreed_loop b ks c (l1 ++ l2) = Ok c2 ->
  exists c1, agreed_loop b ks c l1 = Ok c1 /\ agreed_loop b ks c1 l2 = Ok c2.
Proof.
  revert c. induction l1 as [|e l1 IH]; intros c Hl; [by exists c|].
  cbn [app agreed_loop] in Hl. inv_ok. apply IH in Hl as (c1 & E1 & E2).
  exists c1. split; [|done]. cbn [agreed_loop]. repeat match goal with u : unit |- _ => destruct u end.
  repeat (match goal with Hq : ?x = Ok _ |- context [?x] => rewrite Hq end; cbn [rbind map_err]).
  match goal with Hb : (0 <? zlen (l1 ++ l2)) && ?b2 = false |- _ =>
    assert ((0 <? zlen l1) && b2 = false) as ->; [|by cbn [err_if rbind]];
    apply andb_false_iff in Hb as [Hb|Hb]; [|by rewrite Hb, andb_false_r]; rewrite zlen_app in Hb;
    apply Z.ltb_ge in Hb end.
  apply andb_false_iff. left. apply Z.ltb_ge. unfold zlen in *. lia.
Qed.

(** The certified step at a position of an accepted trace. *)
Lemma agreed_loop_lookup b ks c tr c2 n e :
  agreed_loop b ks c tr = Ok c2 -> tr !! n = Some e ->
  exists c1 k c1', agreed_loop b ks c (take n tr) = Ok c1 /\
    for_entry (E:=ProtocolError) (session_id b) e (chain_hash c1) = Ok k /\ advance c1 k = Ok c1' /\
    verify_full_agreement (agreement e) k ks = Ok tt /\ agreed_loop b ks c (take (S n) tr) = Ok c1'.
Proof.
  intros Hl He. rewrite <- (take_drop (S n) tr) in Hl. apply agreed_loop_app in Hl as (c1' & Hl & _).
  pose proof Hl as Hl'. rewrite (take_S_r _ _ _ He) in Hl'. apply agreed_loop_app in Hl' as (c1 & E1 & E2).
  cbn [agreed_loop] in E2. inv_ok. repeat match goal with u : unit |- _ => destruct u end. eauto 10.
Qed.

(** ** The link hash determines the trace *)

(** Everything of an entry but the agreement over it. *)
Definition content (e : TraceEntry) : TraceEntry := with_agreement e agreement_empty.
(** Two entries whose contents hash alike. *)
Definition entry_collision (e1 e2 : TraceEntry) : Prop := encoded_collision c_entry (content e1) (content e2).

Lemma entry_cwf_content e : cwf c_entry e -> cwf c_entry (content e).
Proof. destruct e. intros [(? & ? & ? & ? & ? & ? & ?) ?]. split_and!; done. Qed.

Lemma signing_bytes_enc k : enc c_commitment k = Ok (signing_bytes k).
Proof.
  assert (total_codec c_commitment) as Ht by (unfold c_commitment, c_id; auto 20 with arena).
  unfold signing_bytes, total_bytes. destruct (Ht k) as [bs ->]. done.
Qed.

Lemma signing_bytes_inj k1 k2 :
  cwf c_commitment k1 -> cwf c_commitment k2 -> signing_bytes k1 = signing_bytes k2 -> k1 = k2.
Proof.
  intros W1 W2 He. eapply (enc_inj c_commitment); [done|done|apply signing_bytes_enc|].
  rewrite He. apply signing_bytes_enc.
Qed.

Lemma entry_hash_binds e1 e2 h :
  cwf c_entry e1 -> cwf c_entry e2 ->
  entry_hash (E:=ProtocolError) e1 = Ok h -> entry_hash (E:=ProtocolError) e2 = Ok h ->
  content e1 = content e2 \/ entry_collision e1 e2.
Proof.
  unfold entry_hash, entry_collision, content. intros W1 W2 E1 E2. inv_ok. unfold expect_ok in *.
  destruct (enc c_entry (with_agreement e1 agreement_empty)) as [b1| |] eqn:B1; [|done|done].
  destruct (enc c_entry (with_agreement e2 agreement_empty)) as [b2| |] eqn:B2; [|done|done].
  simplify_eq. eapply (encoding_binds c_entry); [by apply entry_cwf_content|by apply entry_cwf_content|done|done|done].
Qed.

(** Digests are 32 bytes. *)
Context (digest_range : forall bs, 0 <= blake3 bs < 256 ^ 32).

Lemma commitment_cwf session e link k :
  for_entry (E:=ProtocolError) session e link = Ok k -> cwf c_entry e ->
  0 <= session < 256 ^ 32 -> 0 <= link < 256 ^ 32 -> cwf c_commitment k.
Proof.
  intros (h & Hh & ->)%for_entry_Ok [(_ & Hs & _ & Hp & Hq & _) _] Hsn Hl.
  unfold entry_hash in Hh. inv_ok.
  split; [done|]. split; [exact Hsn|]. split; [exact Hs|]. split; [exact (digest_range _)|].
  split; [exact Hp|]. split; [exact Hq|exact Hl].
Qed.

Lemma agreed_loop_link b ks c tr c' :
  0 <= chain_hash c < 256 ^ 32 -> agreed_loop b ks c tr = Ok c' -> 0 <= chain_hash c' < 256 ^ 32.
Proof.
  revert c. induction tr as [|e tr IH]; intros c Hc Hl; cbn [agreed_loop] in Hl; inv_ok; [done|].
  eapply IH; [|done]. match goal with Ha : advance _ _ = _ |- _ => apply advance_Ok in Ha as (_ & _ & _ & _ & ->) end.
  apply digest_range.
Qed.

Lemma link_hash_binds session e1 e2 l1 l2 k1 k2 :
  0 <= session < 256 ^ 32 -> 0 <= l1 < 256 ^ 32 -> 0 <= l2 < 256 ^ 32 ->
  cwf c_entry e1 -> cwf c_entry e2 ->
  for_entry (E:=ProtocolError) session e1 l1 = Ok k1 -> for_entry (E:=ProtocolError) session e2 l2 = Ok k2 ->
  link_hash k1 = link_hash k2 -> (content e1 = content e2 /\ l1 = l2) \/
    entry_collision e1 e2 \/ collision (signing_bytes k1) (signing_bytes k2).
Proof.
  intros Hs R1 R2 W1 W2 K1 K2 Hh. unfold link_hash in Hh.
  apply blake3_cases in Hh as [Hb|Hc]; [|by right; right].
  apply signing_bytes_inj in Hb as <-; [|by eapply commitment_cwf..].
  apply for_entry_Ok in K1 as (h1 & Hh1 & ->), K2 as (h2 & Hh2 & Heq).
  injection Heq as _ Hh _ _ Hl. subst. destruct (entry_hash_binds e1 e2 h2 W1 W2) as [He|Hc]; auto.
Qed.

(** The entries of two traces at one position, or their commitments there, hash alike. *)
Definition trace_collision (b : ExecutionBinding) (ks : list Z) (tr1 tr2 : list TraceEntry) : Prop :=
  exists n e1 e2, tr1 !! n = Some e1 /\ tr2 !! n = Some e2 /\
    (entry_collision e1 e2 \/ exists d1 d2 k1 k2,
       agreed_loop b ks (genesis_cursor b) (take n tr1) = Ok d1 /\ agreed_loop b ks (genesis_cursor b) (take n tr2) = Ok d2 /\
       for_entry (E:=ProtocolError) (session_id b) e1 (chain_hash d1) = Ok k1 /\
       for_entry (E:=ProtocolError) (session_id b) e2 (chain_hash d2) = Ok k2 /\
       collision (signing_bytes k1) (signing_bytes k2)).

Lemma trace_collision_app b ks tr1 tr2 l1 l2 : trace_collision b ks tr1 tr2 -> trace_collision b ks (tr1 ++ l1) (tr2 ++ l2).
Proof.
  intros (n & e1 & e2 & E1 & E2 & Hc). pose proof (lookup_lt_Some _ _ _ E1). pose proof (lookup_lt_Some _ _ _ E2).
  exists n, e1, e2. rewrite !take_app_le by lia. split_and!; [by apply lookup_app_l_Some|by apply lookup_app_l_Some|done].
Qed.

Lemma link_binds_trace b ks tr1 tr2 c1 c2 :
  0 <= session_id b < 256 ^ 32 -> Forall (cwf c_entry) tr1 -> Forall (cwf c_entry) tr2 ->
  agreed_loop b ks (genesis_cursor b) tr1 = Ok c1 -> agreed_loop b ks (genesis_cursor b) tr2 = Ok c2 ->
  length tr1 = length tr2 -> chain_hash c1 = chain_hash c2 ->
  content <$> tr1 = content <$> tr2 \/ trace_collision b ks tr1 tr2.
Proof.
  intros Hsn. revert tr2 c1 c2. induction tr1 as [|e1 tr1 IH] using rev_ind; intros tr2 c1 c2 W1 W2 L1 L2 Hlen Hh.
  { left. by destruct tr2. }
  destruct tr2 as [|e2 tr2 _] using rev_ind; [rewrite length_app in Hlen; cbn in Hlen; lia|].
  rewrite !length_app in Hlen. apply Forall_app in W1 as [W1 F1], W2 as [W2 F2].
  rewrite Forall_singleton in F1, F2.
  apply agreed_loop_app in L1 as (d1 & L1 & S1), L2 as (d2 & L2 & S2).
  cbn [agreed_loop] in S1, S2. inv_ok.
  repeat match goal with Ha : advance _ _ = Ok _ |- _ => apply advance_Ok in Ha as (_ & _ & _ & _ & ->) end.
  cbn [chain_hash] in Hh. assert (0 <= chain_hash (genesis_cursor b) < 256 ^ 32) as Hg by done.
  pose proof (agreed_loop_link _ _ _ _ _ Hg L1) as Lk1. pose proof (agreed_loop_link _ _ _ _ _ Hg L2) as Lk2.
  destruct (link_hash_binds (session_id b) e1 e2 (chain_hash d1) (chain_hash d2) _ _ Hsn Lk1 Lk2 F1 F2
    ltac:(eassumption) ltac:(eassumption) Hh) as [[He Hl]|Hc].
  2: { right. cbn in Hlen. exists (length tr1), e1, e2. rewrite lookup_app_r, Nat.sub_diag by lia.
       rewrite lookup_app_r by lia. replace (length tr1 - length tr2)%nat with 0%nat by lia.
       split_and!; [done|done|]. destruct Hc as [Hc|Hc]; [by left|right]. eexists d1, d2, _, _.
       rewrite take_app_length, (take_app_length' tr2) by lia. split_and!; [done..|exact Hc]. }
  destruct (IH tr2 d1 d2) as [Ht|Hc]; try done; [cbn in Hlen; lia| |right; by apply trace_collision_app].
  left. rewrite !fmap_app, Ht. cbn. by rewrite He.
Qed.

(** ** One staged step per coordinate *)

Lemma side_ops_proposal op s r s' :
  match op with
  | OpRecordDirect _ _ | OpAckDirect _ _ | OpConfirmEnd _ | OpExpireEnd => True
  | _ => False
  end ->
  run_op op s = (Ok r, s') -> proposal s' = proposal s.
Proof.
  intros Hop Hr. destruct op; try done; apply answer_Ok in Hr as (a & Hr & ->).
  - unfold record_direct in Hr. by inv_ok.
  - unfold ack_direct in Hr. inv_ok. by destruct (negb _); inv_ok.
  - unfold confirm_end in Hr. inv_ok. destruct (end_phase s); [by inv_ok|..];
      (destruct (negb _); inv_ok; [done|]);
      by match goal with Hb : bump_version _ = _ |- _ => apply bump_version_Ok in Hb as [_ ->] end.
  - unfold expire_end in Hr. inv_ok.
    by match goal with Hb : bump_version _ = _ |- _ => apply bump_version_Ok in Hb as [_ ->] end.
Qed.

Lemma certify_step_advances s cert c s' :
  certify_step cert s = (Ok c, s') -> agreed_step s' = agreed_step s + 1 /\ binding s' = binding s.
Proof.
  intros (p & next & bytes & [_ _ _ Hadv _] & _ & _ & ->)%certify_step_Ok.
  destruct (certified_state_fields s p cert next bytes) as [F1 _ _ F4 _ _ _ _ _ _ _].
  apply advance_Ok in Hadv as (_ & _ & _ & _ & ->). split; [exact (f_equal next_step F4)|exact F1].
Qed.

(** What a successful operation does to a staged step: keep it, certify it, or
    give it up for good. *)
Lemma staged_step s p op r s' :
  wf s -> proposal s = Some p -> run_op op s = (Ok r, s') ->
  binding s' = binding s /\
  ((exists p', proposal s' = Some p' /\ entry p' = entry p /\ step_cursor s' = step_cursor s) \/
   agreed_step s' = agreed_step s + 1 \/ is_terminal (status s') = true).
Proof.
  intros Hw Hp Hr. destruct (wf_pending s p Hw Hp) as [Hnt _].
  destruct op as [|e sh lo ef ou pid rq| |sg|cert|o|a|from seq|to seq|peer|];
    try (pose proof (fun Hi => side_ops_same _ s r s' Hi Hr) as Hside;
      pose proof (fun Hi => side_ops_proposal _ s r s' Hi Hr) as Hprop;
      destruct (Hside I) as ([Hs1 Hs2 Hs3] & Hst & _); specialize (Hprop I);
      split; [done|left; exists p; by rewrite Hprop]);
    apply answer_Ok in Hr as (a' & Hr & ->).
  - unfold activate in Hr. inv_ok. by rewrite Hp in *.
  - unfold apply_dispatch in Hr. inv_ok. by rewrite Hp in *.
  - unfold drop_outgoing_head in Hr. inv_ok. by rewrite Hp in *.
  - destruct (add_step_signature_Ok s sg a' s' Hw Hr)
      as (q & k & Hq & _ & _ & _ & [(-> & _ & _ & ->)|(cert & c & -> & _ & _ & Hc)]).
    + split; [done|]. left. assert (q = p) as -> by congruence. by eexists.
    + apply certify_step_advances in Hc as [Ha Hb]. auto.
  - apply certify_step_advances in Hr as [Ha Hb]. auto.
  - apply stop_same in Hr as ([Hb _ _] & _ & Hst & _). rewrite Hst. auto.
  - apply publish_same in Hr as (_ & _ & _ & [(o & H1 & _)|(c & H1 & _)]); by rewrite H1 in Hnt.
Qed.

(** The agreed step never goes back, and the binding never changes. *)
Lemma op_monotone op s r s' :
  wf s -> run_op op s = (Ok r, s') -> binding s' = binding s /\ agreed_step s <= agreed_step s'.
Proof.
  intros Hw Hr.
  assert (same_agreed s s' \/ (binding s' = binding s /\ agreed_step s' = agreed_step s + 1)) as [[Hb Hc _]|[Hb ->]];
    [|split; [done|injection Hc; lia]|split; [done|lia]].
  destruct op as [|e sh lo ef ou pid rq| |sg|cert|o|a|from seq|to seq|peer|];
    try (pose proof (fun Hi => side_ops_same _ s r s' Hi Hr) as Hside; left; by apply Hside);
    apply answer_Ok in Hr as (a' & Hr & ->).
  - left. by eapply activate_same.
  - left. by eapply apply_dispatch_same.
  - destruct (add_step_signature_Ok s sg a' s' Hw Hr)
      as (q & k & Hq & _ & _ & _ & [(-> & _ & _ & ->)|(cert & c & -> & _ & _ & Hc)]); [by left|right].
    by apply certify_step_advances in Hc as [Ha Hb].
  - right. by apply certify_step_advances in Hr as [Ha Hb].
  - left. by eapply stop_same.
  - left. by eapply publish_same.
Qed.

Lemma steps_monotone s tr s' :
  reach s tr -> rtc op_step s s' -> binding s' = binding s /\ agreed_step s <= agreed_step s'.
Proof.
  intros Hr Hs. revert tr Hr. induction Hs as [s|s s1 s2 (op & r & Hop & Ho) _ IH]; intros tr Hr; [done|].
  destruct (op_monotone op s r s1 (tr_wf _ _ (reach_traced _ _ Hr)) Ho) as [B1 M1].
  destruct (IH (tr ++ logged r)) as [B2 M2]; [by eapply reach_op|]. split; [congruence|lia].
Qed.

Lemma staged_once s tr s' p p' :
  reach s tr -> rtc op_step s s' -> proposal s = Some p -> proposal s' = Some p' ->
  agreed_step s' = agreed_step s ->
  commitment_for (E:=ProtocolError) s' p' = commitment_for s p.
Proof.
  intros Hr Hs. revert tr p Hr. induction Hs as [s|s s1 s2 (op & r & Hop & Ho) Hs IH]; intros tr p Hr Hp Hp' Hst.
  { congruence. }
  pose proof (tr_wf _ _ (reach_traced _ _ Hr)) as Hw.
  assert (reach s1 (tr ++ logged r)) as Hr1 by (by eapply reach_op).
  destruct (steps_monotone s1 _ s2 Hr1 Hs) as [_ M2].
  destruct (staged_step s p op r s1 Hw Hp Ho) as [Hb [(p1 & Hp1 & He & Hc)|[Ha|Ht]]].
  - injection Hc as Hc1 Hc2 Hc3. rewrite (IH (tr ++ logged r) p1); [|done|done|done|lia].
    unfold commitment_for. congruence.
  - lia.
  - destruct (terminal_steps s1 _ s2 Hr1 Ht Hs) as (Hr2 & Ht2 & _).
    destruct (wf_pending s2 p' (tr_wf _ _ (reach_traced _ _ Hr2)) Hp') as [Hn _]. congruence.
Qed.

(** ** The history of one durable state, newest first *)

Inductive history : list ExecutionState -> Prop :=
| history_new s tr : reach s tr -> history [s]
| history_op s s' l : history (s :: l) -> op_step s s' -> history (s' :: s :: l).

Lemma history_order s l x : history (s :: l) -> x ∈ s :: l -> rtc op_step x s /\ exists tr, reach x tr.
Proof.
  intros Hh. remember (s :: l) as h eqn:Heq. revert s l x Heq.
  induction Hh as [s0 tr Hr|s0 s1 l0 Hh IH Ho]; intros s l x [= <- <-].
  - intros ->%list_elem_of_singleton. split; [done|by eexists].
  - intros [->|Hx]%elem_of_cons.
    + split; [done|]. destruct (IH s0 l0 s0 eq_refl) as [_ [tr Hr]]; [by left|].
      destruct Ho as (op & r & Hop & Ho). exists (tr ++ logged r). by eapply reach_op.
    + destruct (IH s0 l0 x eq_refl Hx) as [Hs Hr]. split; [|done]. by eapply rtc_r.
Qed.

Lemma history_comparable h x y :
  history h -> x ∈ h -> y ∈ h -> rtc op_step x y \/ rtc op_step y x.
Proof.
  induction 1 as [s0 tr Hr|s0 s1 l0 Hh IH Ho]; intros Hx Hy.
  - apply list_elem_of_singleton in Hx, Hy. subst. by left.
  - assert (history (s1 :: s0 :: l0)) as Hh1 by (by constructor).
    apply elem_of_cons in Hx as Hx', Hy as Hy'.
    destruct Hx' as [->|Hx']; [right; by eapply history_order|].
    destruct Hy' as [->|Hy']; [left; by eapply history_order|]. by apply IH.
Qed.

Lemma history_staged_once h x y p q :
  history h -> x ∈ h -> y ∈ h -> proposal x = Some p -> proposal y = Some q ->
  agreed_step x = agreed_step y ->
  commitment_for (E:=ProtocolError) x p = commitment_for y q.
Proof.
  intros Hh Hx Hy Hp Hq Hs. destruct h as [|s l]; [by inversion Hh|].
  destruct (history_order _ _ _ Hh Hx) as [_ [tx Hrx]], (history_order _ _ _ Hh Hy) as [_ [ty Hry]].
  destruct (history_comparable _ _ _ Hh Hx Hy) as [Hxy|Hyx].
  - symmetry. by eapply staged_once.
  - by eapply staged_once.
Qed.
End Consistency.

(** ** No fork with one honest signer *)

Section NoFork.
Context `{Crypto}.
Context (digest_range : forall bs, 0 <= blake3 bs < 256 ^ 32).

(** The honest participant's durable history, and its execution key. *)
Context (b : ExecutionBinding) (honest : list ExecutionState) (key : Z) (ks : list Z).
Context (honest_history : history honest).
Context (session_keys : participant_bls_keys b = Ok ks) (honest_key : key ∈ ks).
Context (session_range : 0 <= session_id b < 256 ^ 32).

(** An aggregate that verifies over keys with the honest one covers a message
    the honest node signed, and it signs the commitments it staged. *)
Context (unforgeable : forall agg k keys,
  key ∈ keys -> cwf c_commitment k -> fast_aggregate_verify agg (signing_bytes k) keys = Ok true ->
  exists s p, s ∈ honest /\ proposal s = Some p /\ commitment_for (E:=ProtocolError) s p = Ok k).

Lemma staged_coordinate s p k :
  wf s -> proposal s = Some p -> commitment_for (E:=ProtocolError) s p = Ok k -> c_step k = agreed_step s.
Proof.
  intros Hw Hp Hk. destruct (wf_pending s p Hw Hp) as [_ Hc].
  apply check_pending_Ok in Hc as (_ & _ & _ & Hv & _). unfold validate_proposal in Hv.
  apply rbind_Ok in Hv as (k' & Hst & _). apply validate_staged_Ok in Hst.
  pose proof (sf_entry _ _ _ _ _ Hst) as He. unfold validate_shared_entry in He. inv_ok.
  apply for_entry_Ok in Hk as (h & _ & ->). cbn [c_step].
  match goal with Hz : (step (entry p) =? _) = true |- _ => by apply Z.eqb_eq in Hz end.
Qed.

Lemma honest_once k1 k2 agg1 agg2 :
  cwf c_commitment k1 -> cwf c_commitment k2 -> c_step k1 = c_step k2 ->
  fast_aggregate_verify agg1 (signing_bytes k1) ks = Ok true ->
  fast_aggregate_verify agg2 (signing_bytes k2) ks = Ok true -> k1 = k2.
Proof.
  intros W1 W2 Hs (x & p & Hx & Hp & Hk1)%unforgeable (y & q & Hy & Hq & Hk2)%unforgeable; [|done..].
  destruct honest as [|h l] eqn:Hh; [by apply not_elem_of_nil in Hx|].
  destruct (history_order _ _ _ honest_history Hx) as [_ [tx Hrx]].
  destruct (history_order _ _ _ honest_history Hy) as [_ [ty Hry]].
  pose proof (staged_coordinate x p k1 (tr_wf _ _ (reach_traced _ _ Hrx)) Hp Hk1) as S1.
  pose proof (staged_coordinate y q k2 (tr_wf _ _ (reach_traced _ _ Hry)) Hq Hk2) as S2.
  pose proof (history_staged_once _ x y p q honest_history Hx Hy Hp Hq ltac:(congruence)) as He.
  congruence.
Qed.

(** From one cursor, two certified steps of the session are the same step. *)
Lemma next_step_unique c e1 e2 k1 k2 d1 d2 :
  0 <= chain_hash c < 256 ^ 32 -> cwf c_entry e1 -> cwf c_entry e2 ->
  for_entry (E:=ProtocolError) (session_id b) e1 (chain_hash c) = Ok k1 ->
  for_entry (E:=ProtocolError) (session_id b) e2 (chain_hash c) = Ok k2 ->
  advance c k1 = Ok d1 -> advance c k2 = Ok d2 ->
  verify_full_agreement (agreement e1) k1 ks = Ok tt -> verify_full_agreement (agreement e2) k2 ks = Ok tt ->
  k1 = k2 /\ d1 = d2.
Proof.
  intros Hc W1 W2 K1 K2 A1 A2 V1%full_agreement_verifies V2%full_agreement_verifies.
  pose proof (commitment_cwf digest_range _ _ _ _ K1 W1 session_range Hc) as C1.
  pose proof (commitment_cwf digest_range _ _ _ _ K2 W2 session_range Hc) as C2.
  assert (k1 = k2) as ->; [|split; congruence].
  apply advance_Ok in A1 as (S1 & _), A2 as (S2 & _).
  by apply (honest_once k1 k2 _ _ C1 C2 ltac:(congruence) V1 V2).
Qed.

(** Two certified traces of the session pass the same cursors, and give every
    common position one commitment. *)
Lemma traces_same_cursors tr1 tr2 c1 c2 n :
  agreed_loop b ks (genesis_cursor b) tr1 = Ok c1 -> agreed_loop b ks (genesis_cursor b) tr2 = Ok c2 ->
  Forall (cwf c_entry) tr1 -> Forall (cwf c_entry) tr2 -> (n <= length tr1)%nat -> (n <= length tr2)%nat ->
  exists c, agreed_loop b ks (genesis_cursor b) (take n tr1) = Ok c /\
    agreed_loop b ks (genesis_cursor b) (take n tr2) = Ok c.
Proof.
  intros L1 L2 W1 W2. induction n as [|n IH]; intros N1 N2; [by eexists|].
  destruct IH as (c & P1 & P2); [lia|lia|].
  destruct (lookup_lt_is_Some_2 tr1 n) as [e1 E1]; [lia|]. destruct (lookup_lt_is_Some_2 tr2 n) as [e2 E2]; [lia|].
  destruct (agreed_loop_lookup _ _ _ _ _ _ _ L1 E1) as (x1 & k1 & d1 & Q1 & K1 & A1 & V1 & R1).
  destruct (agreed_loop_lookup _ _ _ _ _ _ _ L2 E2) as (x2 & k2 & d2 & Q2 & K2 & A2 & V2 & R2).
  assert (x1 = c) as -> by congruence. assert (x2 = c) as -> by congruence.
  rewrite Forall_lookup in W1, W2.
  pose proof (agreed_loop_link digest_range b ks (genesis_cursor b) _ c ltac:(done) P1) as Hc.
  destruct (next_step_unique c e1 e2 k1 k2 d1 d2 Hc (W1 _ _ E1) (W2 _ _ E2) K1 K2 A1 A2 V1 V2) as [_ ->].
  by exists d2.
Qed.

Lemma traces_same_entries tr1 tr2 c1 c2 n e1 e2 :
  agreed_loop b ks (genesis_cursor b) tr1 = Ok c1 -> agreed_loop b ks (genesis_cursor b) tr2 = Ok c2 ->
  Forall (cwf c_entry) tr1 -> Forall (cwf c_entry) tr2 -> tr1 !! n = Some e1 -> tr2 !! n = Some e2 ->
  content e1 = content e2 \/ entry_collision e1 e2.
Proof.
  intros L1 L2 W1 W2 E1 E2. pose proof (lookup_lt_Some _ _ _ E1). pose proof (lookup_lt_Some _ _ _ E2).
  destruct (traces_same_cursors _ _ _ _ n L1 L2 W1 W2 ltac:(lia) ltac:(lia)) as (c & P1 & P2).
  destruct (agreed_loop_lookup _ _ _ _ _ _ _ L1 E1) as (x1 & k1 & d1 & Q1 & K1 & A1 & V1 & R1).
  destruct (agreed_loop_lookup _ _ _ _ _ _ _ L2 E2) as (x2 & k2 & d2 & Q2 & K2 & A2 & V2 & R2).
  assert (x1 = c) as -> by congruence. assert (x2 = c) as -> by congruence.
  rewrite Forall_lookup in W1, W2.
  pose proof (agreed_loop_link digest_range b ks (genesis_cursor b) _ c ltac:(done) P1) as Hc.
  destruct (next_step_unique c e1 e2 k1 k2 d1 d2 Hc (W1 _ _ E1) (W2 _ _ E2) K1 K2 A1 A2 V1 V2) as [-> _].
  apply for_entry_Ok in K1 as (h1 & G1 & ->), K2 as (h2 & G2 & [= ? ? ? ?]). subst.
  eapply entry_hash_binds; eauto.
Qed.
End NoFork.

(** ** The guarantees *)

(** C2: with one honest participant, certified histories of a session do not
    fork: any two traces that verify pass the same cursors and carry the same
    entries at every common position, unless the two entries there have encodings
    with one digest. *)
Theorem certified_histories_agree `{Crypto} b honest key ks
    (digest_range : forall bs, 0 <= blake3 bs < 256 ^ 32)
    (honest_history : history honest)
    (session_keys : participant_bls_keys b = Ok ks) (honest_key : key ∈ ks)
    (session_range : 0 <= session_id b < 256 ^ 32)
    (unforgeable : forall agg k keys,
      key ∈ keys -> cwf c_commitment k -> fast_aggregate_verify agg (signing_bytes k) keys = Ok true ->
      exists s p, s ∈ honest /\ proposal s = Some p /\ commitment_for (E:=ProtocolError) s p = Ok k)
    tr1 tr2 c1 c2 :
  validate_agreed_trace b tr1 = Ok c1 -> validate_agreed_trace b tr2 = Ok c2 ->
  Forall (cwf c_entry) tr1 -> Forall (cwf c_entry) tr2 ->
  (forall n, (n <= length tr1)%nat -> (n <= length tr2)%nat ->
    validate_agreed_trace b (take n tr1) = validate_agreed_trace b (take n tr2)) /\
  (forall n e1 e2, tr1 !! n = Some e1 -> tr2 !! n = Some e2 ->
    content e1 = content e2 \/ entry_collision e1 e2).
Proof.
  unfold validate_agreed_trace. rewrite session_keys. cbn [rbind]. intros L1 L2 W1 W2. split.
  - intros n N1 N2.
    destruct (traces_same_cursors digest_range b honest key ks honest_history honest_key session_range
      unforgeable tr1 tr2 c1 c2 n L1 L2 W1 W2 N1 N2) as (c & E1 & E2). unfold genesis_cursor in *. congruence.
  - intros n e1 e2. by apply (traces_same_entries digest_range b honest key ks honest_history honest_key
      session_range unforgeable tr1 tr2 c1 c2 n e1 e2 L1 L2).
Qed.

(** The link hash of the cursor is a commitment to the whole log: two
    certified traces of a session with the same length and link have the same
    contents, entry by entry, unless their entries or their commitments at some
    position have encodings with one digest. *)
Theorem link_hash_commits_to_log `{Crypto} b tr1 tr2 c1 c2
    (digest_range : forall bs, 0 <= blake3 bs < 256 ^ 32) :
  0 <= session_id b < 256 ^ 32 -> Forall (cwf c_entry) tr1 -> Forall (cwf c_entry) tr2 ->
  validate_agreed_trace b tr1 = Ok c1 -> validate_agreed_trace b tr2 = Ok c2 ->
  length tr1 = length tr2 -> chain_hash c1 = chain_hash c2 ->
  content <$> tr1 = content <$> tr2 \/ exists ks, participant_bls_keys b = Ok ks /\ trace_collision b ks tr1 tr2.
Proof.
  unfold validate_agreed_trace. intros Hs W1 W2 V1 V2 Hl Hh. inv_ok.
  match goal with K1 : participant_bls_keys b = Ok ?k1, K2 : participant_bls_keys b = Ok ?k2 |- _ =>
    assert (k1 = k2) as -> by congruence end.
  destruct (link_binds_trace digest_range b x tr1 tr2 c1 c2 Hs W1 W2) as [?|?]; try done; [by left|right; eauto].
Qed.

(** C18: a durable state stages at most one step at a coordinate, over its whole
    history, whatever operations, stops and recoveries intervene; so a signer
    that signs what it staged never signs two steps of one coordinate. *)
Theorem one_staged_step_per_coordinate `{Crypto} h x y p q :
  history h -> x ∈ h -> y ∈ h -> proposal x = Some p -> proposal y = Some q ->
  agreed_step x = agreed_step y ->
  commitment_for (E:=ProtocolError) x p = commitment_for y q.
Proof. apply history_staged_once. Qed.

(** ** Examples *)

Lemma toy_digest_positive bs : 0 < toy_hash bs < 256 ^ 32.
Proof.
  unfold toy_hash. induction (take 200 bs) as [|x l IH] using rev_ind; [done|].
  rewrite foldl_snoc. pose proof (Z.mod_pos_bound (foldl (fun h b => (h * 31 + b) mod 65521) 7 l * 31 + x) 65521).
  assert (65522 <= 256 ^ 32) by done. lia.
Qed.
Lemma toy_digest_range bs : 0 <= toy_hash bs < 256 ^ 32.
Proof. pose proof (toy_digest_positive bs). lia. Qed.

Lemma history_after op s l : history (s :: l) -> op_ok op -> succeeds op s -> history (after op s :: s :: l).
Proof.
  intros Hh Ho Hs. apply history_op; [done|]. exists op, (answer_of op s). split; [done|]. by apply succeeds_run.
Qed.

Definition alice_history : list ExecutionState :=
  [st_ending; st_step1; st_signed; st_staged; st_active; st_new].
Lemma alice_history_ok : history alice_history.
Proof.
  assert (history [st_new]) as H0 by (by eapply history_new, reach_new, st_new_ok).
  pose proof (history_after OpActivate _ _ H0 I st_active_ok) as H1.
  pose proof (history_after op_start _ _ H1 I st_staged_ok) as H2.
  pose proof (history_after (OpSign sig_a1) _ _ H2 I st_signed_ok) as H3.
  pose proof (history_after (OpSign sig_b1) _ _ H3 I st_step1_ok) as H4.
  exact (history_after op_end _ _ H4 I st_ending_ok).
Qed.

Lemma trace0_typed : Forall (cwf c_entry) trace0.
Proof.
  apply Forall_cons_2; [|apply Forall_cons_2; [|apply Forall_nil_2]]; cbn; split_and!; try done.
  apply Forall_cons_2; [done|]. apply Forall_cons_2; done.
Qed.

Lemma commitments_typed : cwf c_commitment commitment1 /\ cwf c_commitment commitment2.
Proof. cbn. split_and!; done. Qed.

Lemma zlen_signing_bytes k : cwf c_commitment k -> zlen (signing_bytes k) = 192.
Proof.
  intros [Hd _]. assert (zlen (c_domain k) = 24) as Hz by (unfold zlen; simpl in Hd; by rewrite Hd).
  apply ol_commitment, object_length_Ok in Hz as (bs & Hbs & Hl). rewrite signing_bytes_enc in Hbs.
  by simplify_eq.
Qed.

Lemma commitments_staged agg k keys :
  alice_bls ∈ keys -> cwf c_commitment k -> fast_aggregate_verify agg (signing_bytes k) keys = Ok true ->
  exists s p, s ∈ alice_history /\ proposal s = Some p /\ commitment_for (E:=ProtocolError) s p = Ok k.
Proof.
  intros _ Hk. unfold fast_aggregate_verify. destruct (length keys =? 0)%nat; [done|].
  cbn [blst_fast_aggregate_verify toy blst_err]. intros [= Hv]. apply andb_true_iff in Hv as [Hm _].
  apply bool_decide_eq_true in Hm. unfold signed_messages in Hm.
  apply elem_of_cons in Hm as [Hm|Hm].
  { apply (f_equal zlen) in Hm. rewrite (zlen_signing_bytes k Hk) in Hm. done. }
  apply elem_of_cons in Hm as [Hm|Hm%list_elem_of_singleton].
  - assert (k = commitment1) as ->
      by (apply signing_bytes_inj; [done|apply commitments_typed|exact Hm]).
    exists st_staged. eexists. split_and!; [by do 3 right; left|reflexivity|lazy; reflexivity].
  - assert (k = commitment2) as ->
      by (apply signing_bytes_inj; [done|apply commitments_typed|exact Hm]).
    exists st_ending. eexists. split_and!; [by left|reflexivity|lazy; reflexivity].
Qed.

Lemma certified_histories_agree_witness :
  validate_agreed_trace (binding st_certified) (take 1 trace0) = Ok (step_cursor st_step1) /\
  forall n e1 e2, trace0 !! n = Some e1 -> take 1 trace0 !! n = Some e2 ->
    content e1 = content e2 \/ entry_collision e1 e2.
Proof.
  pose proof (tr_cursor _ _ (reach_traced _ _ reach_certified)) as V1.
  pose proof (tr_cursor _ _ (reach_traced _ _ reach_step1)) as V2.
  destruct (@certified_histories_agree toy (MkBinding activation0) alice_history alice_bls [alice_bls; bob_bls]
    toy_digest_range alice_history_ok ltac:(reflexivity) ltac:(by left) ltac:(split; [by apply Z.leb_le|by apply Z.ltb_lt])
    commitments_staged trace0 (take 1 trace0) (step_cursor st_certified) (step_cursor st_step1) V1 V2
    trace0_typed (Forall_take _ 1 _ trace0_typed)) as [_ He].
  split; [exact V2|exact He].
Defined.

Lemma link_hash_commits_to_log_witness :
  content <$> trace0 = content <$> trace0 \/
  exists ks, participant_bls_keys (MkBinding activation0) = Ok ks /\ trace_collision (MkBinding activation0) ks trace0 trace0.
Proof.
  pose proof (tr_cursor _ _ (reach_traced _ _ reach_certified)) as V1.
  apply (@link_hash_commits_to_log toy (MkBinding activation0) trace0 trace0 (step_cursor st_certified)
    (step_cursor st_certified) toy_digest_range); [|exact trace0_typed|exact trace0_typed|exact V1|exact V1|done|done].
  split; [by apply Z.leb_le|by apply Z.ltb_lt].
Defined.

Lemma one_staged_step_per_coordinate_witness :
  exists p q, proposal st_staged = Some p /\ proposal st_signed = Some q /\
    commitment_for (E:=ProtocolError) st_staged p = commitment_for st_signed q.
Proof.
  do 2 eexists. split; [reflexivity|]. split; [reflexivity|].
  apply (@one_staged_step_per_coordinate toy alice_history st_staged st_signed _ _ alice_history_ok);
    [by do 3 right; left|by do 2 right; left|reflexivity|reflexivity|reflexivity].
Defined.
