(* ===== verification/Canonical.v ===== *)
(** * Canonical encodings

    A decoder is canonical when it accepts only the bytes its encoder writes:
    together with the round-trip law of [codec] this makes decoding and encoding
    mutually inverse, so an accepted message has one encoding.  The class
    [Canonical] states it for one codec; instances follow the structure of the
    layouts.  [c_ensemble] is the one reader that normalises instead. *)

From S2P Require Import Prelude Borsh Crypto Session Trace Negotiation Evidence Validation.
From S2P Require Import Receipt Frame Fixture.

(** Bytes are below 256. *)
Definition octets (bs : bytes) : Prop := Forall (fun b => 0 <= b < 256) bs.

Lemma octets_app b1 b2 : octets (b1 ++ b2) <-> octets b1 /\ octets b2.
Proof. apply Forall_app. Qed.
Lemma octets_take n b : octets b -> octets (take n b).
Proof. apply Forall_take. Qed.
Lemma octets_drop n b : octets b -> octets (drop n b).
Proof. apply Forall_drop. Qed.

Class Canonical {A} (c : codec A) : Prop :=
  enc_dec bs a rest : octets bs -> dec c bs = Ok (a, rest) ->
    cwf c a /\ exists b, enc c a = Ok b /\ bs = b ++ rest.

(** ** Numbers *)

Lemma le_val_range bs : octets bs -> 0 <= le_val bs < 256 ^ zlen bs.
Proof.
  induction 1 as [|b bs Hb _ IH]; [done|]. cbn [le_val]. rewrite zlen_cons.
  rewrite Z.pow_add_r, Z.pow_1_r by (auto using zlen_nonneg; lia). lia.
Qed.

Lemma le_bytes_val bs : octets bs -> le_bytes (length bs) (le_val bs) = bs.
Proof.
  induction 1 as [|b bs Hb _ IH]; [done|].
  change (le_bytes (length (b :: bs)) (le_val (b :: bs)))
    with ((b + 256 * le_val bs) mod 256 :: le_bytes (length bs) ((b + 256 * le_val bs) / 256)).
  rewrite (Z.mul_comm 256), Z.mod_add, Z.div_add, (Z.mod_small b), (Z.div_small b) by lia.
  by rewrite Z.add_0_l, IH.
Qed.

Lemma read_exact_Ok n bs b rest : read_exact n bs = Ok (b, rest) <-> bs = b ++ rest /\ length b = n.
Proof.
  unfold read_exact. split.
  - destruct (length bs <? n)%nat eqn:Hl; [done|]. intros [= <- <-]. apply Nat.ltb_ge in Hl.
    by rewrite take_drop, length_take_le.
  - intros [-> <-]. by apply read_exact_app.
Qed.

Lemma read_uint_Ok n bs z rest :
  octets bs -> read_uint n bs = Ok (z, rest) ->
  bs = le_bytes n z ++ rest /\ 0 <= z < 256 ^ Z.of_nat n /\ octets rest.
Proof.
  unfold read_uint. intros Ho Hr. apply rbind_Ok in Hr as ([b r] & (-> & Hl)%read_exact_Ok & [= <- <-]).
  apply octets_app in Ho as [Hb Hr]. pose proof (le_val_range b Hb) as Hz. unfold zlen in Hz.
  subst n. by rewrite le_bytes_val.
Qed.

#[export] Instance can_uint n : Canonical (c_uint n).
Proof. intros bs z rest Ho Hd. apply read_uint_Ok in Hd as (-> & Hz & _); [|done]. split; [done|]. by eexists. Qed.

#[export] Instance can_arr n : Canonical (c_arr n).
Proof.
  intros bs z rest Ho Hd. cbn [dec c_arr] in Hd. unfold read_arr in Hd.
  apply rbind_Ok in Hd as ([b r] & (-> & Hl)%read_exact_Ok & [= <- <-]).
  apply octets_app in Ho as [Hb _]. assert (octets (reverse b)) as Hrb by (by apply Forall_reverse).
  unfold be_val. split.
  - pose proof (le_val_range _ Hrb) as Hz. unfold zlen in Hz. rewrite length_reverse, Hl in Hz. exact Hz.
  - exists b. split; [|done]. cbn [enc c_arr]. unfold be_bytes.
    rewrite <- Hl, <- (length_reverse b), le_bytes_val by done. by rewrite reverse_involutive.
Qed.

#[export] Instance can_raw n : Canonical (c_raw n).
Proof. intros bs a rest _ (-> & Hl)%read_exact_Ok. split; [done|]. by exists a. Qed.

(** ** Sequences *)

Lemma read_len_Ok max bs len rest :
  octets bs -> read_len max bs = Ok (len, rest) ->
  write_len max len = Ok (le_bytes 4 len) /\ bs = le_bytes 4 len ++ rest /\ 0 <= len /\ octets rest.
Proof.
  unfold read_len. intros Ho Hr. apply rbind_Ok in Hr as ([l r] & (-> & Hl & Hr')%read_uint_Ok & Hr); [|done].
  destruct (max <? l) eqn:Hm; [done|]. injection Hr as <- <-. apply Z.ltb_ge in Hm.
  change (256 ^ Z.of_nat 4) with (2 ^ 32) in Hl. split_and!; [|done|lia|done].
  apply write_len_Ok. unfold u32_max. split_and!; [done|lia|done].
Qed.

Lemma read_bytes_Ok max bs a rest :
  octets bs -> read_bytes max bs = Ok (a, rest) -> exists b, write_bytes max a = Ok b /\ bs = b ++ rest.
Proof.
  unfold read_bytes. intros Ho Hr.
  apply rbind_Ok in Hr as ([l r] & (Hw & -> & Hl & Hr')%read_len_Ok & Hr); [|done].
  apply read_exact_Ok in Hr as (-> & Hlen).
  assert (zlen a = l) as <- by (unfold zlen; lia).
  exists (le_bytes 4 (zlen a) ++ a). split; [|by rewrite app_assoc]. apply wcat_Ok. eauto.
Qed.

#[export] Instance can_bytes max : Canonical (c_bytes max).
Proof. intros bs a rest Ho Hd. split; [done|]. by apply read_bytes_Ok. Qed.

#[export] Instance can_string max : Canonical (c_string max).
Proof.
  intros bs a rest Ho Hd. cbn [dec c_string] in Hd. unfold read_string in Hd.
  apply rbind_Ok in Hd as ([s r] & Hr & Hd). destruct (utf8_valid s) eqn:Hu; [|done]. injection Hd as <- <-.
  split; [done|]. by apply read_bytes_Ok.
Qed.

Lemma read_items_Ok {A} (c : codec A) `{!Canonical c} n bs l rest :
  octets bs -> read_items (dec c) n bs = Ok (l, rest) ->
  length l = n /\ Forall (cwf c) l /\ exists b, write_items (enc c) l = Ok b /\ bs = b ++ rest.
Proof.
  revert bs l. induction n as [|n IH]; intros bs l Ho Hr; cbn [read_items] in Hr.
  { injection Hr as <- <-. split_and!; [done|by constructor|]. by exists []. }
  apply rbind_Ok in Hr as ([x r1] & Hx & Hr). apply rbind_Ok in Hr as ([l' r2] & Hl & [= <- <-]).
  destruct (enc_dec bs x r1 Ho Hx) as (Hc & b1 & E1 & ->). apply octets_app in Ho as [_ Ho].
  destruct (IH r1 l' Ho Hl) as (Hlen & Hf & b2 & E2 & ->).
  split_and!; [cbn; lia|by constructor|]. exists (b1 ++ b2). split; [|by rewrite app_assoc].
  apply wcat_Ok. eauto.
Qed.

#[export] Instance can_vec {A} max (c : codec A) `{!Canonical c} : Canonical (c_vec max c).
Proof.
  intros bs l rest Ho Hd. cbn [dec c_vec] in Hd. unfold read_vec in Hd.
  apply rbind_Ok in Hd as ([n r] & (Hw & -> & Hn & Hr')%read_len_Ok & Hr); [|done].
  apply read_items_Ok in Hr as (Hlen & Hf & b & E & ->); [|done|done].
  assert (zlen l = n) as <- by (unfold zlen; lia). split; [done|].
  exists (le_bytes 4 (zlen l) ++ b). split; [|by rewrite app_assoc]. apply wcat_Ok. eauto.
Qed.

(** ** Structure *)

#[export] Instance can_pair {A B} (c1 : codec A) (c2 : codec B) `{!Canonical c1, !Canonical c2} :
  Canonical (c_pair c1 c2).
Proof.
  intros bs [a b] rest Ho Hd. cbn [dec c_pair] in Hd.
  apply rbind_Ok in Hd as ([x r1] & Hx & Hd). apply rbind_Ok in Hd as ([y r2] & Hy & [= <- <- <-]).
  destruct (enc_dec bs x r1 Ho Hx) as (W1 & b1 & E1 & ->). apply octets_app in Ho as [_ Ho].
  destruct (enc_dec r1 y r2 Ho Hy) as (W2 & b2 & E2 & ->).
  split; [done|]. exists (b1 ++ b2). split; [|by rewrite app_assoc]. apply wcat_Ok. eauto.
Qed.

#[export] Instance can_option {A} (c : codec A) `{!Canonical c} : Canonical (c_option c).
Proof.
  intros bs o rest Ho Hd. cbn [dec c_option] in Hd.
  apply rbind_Ok in Hd as ([t r] & (-> & Ht & Hr)%read_uint_Ok & Hd); [|done].
  destruct (Z.eqb_spec t 0) as [->|]; [injection Hd as <- <-; split; [done|]; by eexists|].
  destruct (Z.eqb_spec t 1) as [->|]; [|done].
  apply rbind_Ok in Hd as ([a r'] & Ha & [= <- <-]).
  destruct (enc_dec r a r' Hr Ha) as (W & b & E & ->). split; [done|].
  exists (le_bytes 1 1 ++ b). split; [|by rewrite app_assoc]. apply wcat_Ok. eauto.
Qed.

Lemma can_iso {A B} (c : codec A) (to : B -> A) back H :
  Canonical c -> (forall a, to (back a) = a) -> Canonical (c_iso c to back H).
Proof.
  intros Hc Hto bs b rest Ho Hd. cbn [dec c_iso] in Hd. apply rbind_Ok in Hd as ([a r] & Ha & [= <- <-]).
  destruct (Hc bs a r Ho Ha) as (W & b & E & ->). cbn [cwf enc c_iso]. rewrite Hto. eauto.
Qed.

#[export] Instance can_check {A} p (c : codec A) `{!Canonical c} : Canonical (c_check p c).
Proof.
  intros bs a rest Ho Hd. cbn [dec c_check] in Hd. apply rbind_Ok in Hd as ([x r] & Hx & Hd).
  destruct (p x) eqn:Hp; [|done]. injection Hd as <- <-.
  destruct (enc_dec bs x r Ho Hx) as (W & Hb). split; [by split|done].
Qed.

Lemma can_refine {A B E} (c : codec A) (to : B -> A) (mk : A -> result E B) :
  Canonical c -> (forall a b, mk a = Ok b -> to b = a) -> Canonical (c_refine c to mk).
Proof.
  intros Hc Hto bs b rest Ho Hd. cbn [dec c_refine] in Hd. apply rbind_Ok in Hd as ([a r] & Ha & Hd).
  apply rbind_Ok in Hd as (b' & Hb & [= <- <-]). apply map_err_Ok in Hb.
  destruct (Hc bs a r Ho Ha) as (W & b & E' & ->). cbn [cwf enc c_refine]. rewrite (Hto a b') by done. eauto.
Qed.

#[export] Instance can_versioned {A} v (c : codec A) `{!Canonical c} : Canonical (c_versioned v c).
Proof.
  intros bs a rest Ho Hd. cbn [dec c_versioned] in Hd.
  apply rbind_Ok in Hd as ([t r] & (-> & Ht & Hr)%read_uint_Ok & Hd); [|done].
  destruct (Z.eqb_spec t v) as [->|]; [|done]. destruct (enc_dec r a rest Hr Hd) as (W & b & E & ->).
  split; [by split|]. exists (le_bytes 1 v ++ b). split; [|by rewrite app_assoc]. apply wcat_Ok. eauto.
Qed.

(** A record layout: the projections invert the constructor. *)
#[export] Hint Extern 2 (Canonical (c_iso _ _ _ _)) =>
  apply can_iso; [apply _|intros; by repeat match goal with p : (_ * _)%type |- _ => destruct p end]
  : typeclass_instances.

(** One branch of a tagged union. *)
Lemma can_variant {A B} (c : codec A) `{!Canonical c} (f : A -> B) t r b rest :
  octets r -> rd_map f (dec c r) = Ok (b, rest) ->
  exists a x, b = f a /\ cwf c a /\ variant t c a = Ok (le_bytes 1 t ++ x) /\ r = x ++ rest.
Proof.
  intros Ho Hd. unfold rd_map in Hd. apply rbind_Ok in Hd as ([a r'] & Ha & [= <- <-]).
  destruct (enc_dec r a r' Ho Ha) as (W & x & E & ->). exists a, x. split_and!; try done.
  apply variant_Ok. eauto.
Qed.

Ltac can_enum :=
  let bs := fresh "bs" in let v := fresh "v" in let rest := fresh "rest" in let Ho := fresh "Ho" in
  let Hd := fresh "Hd" in let r := fresh "r" in let t := fresh "t" in
  intros bs v rest Ho Hd; cbn [dec] in Hd;
  (apply rbind_Ok in Hd as ([t r] & (-> & ? & ?)%read_uint_Ok & Hd); [|done]);
  repeat match type of Hd with
  | match ?t with _ => _ end = _ => destruct t; try done
  end;
  (match type of Ho with octets (le_bytes 1 ?tag ++ _) =>
     apply (can_variant _ _ tag) in Hd as (? & ? & -> & ? & ? & ->); [|done] end);
  try (match goal with W : cwf (c_raw 0) ?x |- _ =>
     change (length x = 0%nat) in W; apply nil_length_inv in W; subst x end);
  (split; [done|eexists; split; [done|by rewrite app_assoc]]).

#[export] Instance can_step_terminal : Canonical c_step_terminal.
Proof. can_enum. Qed.
#[export] Instance can_id : Canonical c_id.
Proof. apply _. Qed.
#[export] Instance can_timer : Canonical c_timer.
Proof. unfold c_timer. apply _. Qed.
#[export] Instance can_range : Canonical c_range.
Proof. unfold c_range. apply _. Qed.
#[export] Instance can_send_direct : Canonical c_send_direct.
Proof. unfold c_send_direct. apply _. Qed.
#[export] Instance can_effect : Canonical c_effect.
Proof. can_enum. Qed.
#[export] Instance can_agreement : Canonical c_agreement.
Proof. unfold c_agreement, c_signers. apply _. Qed.
#[export] Instance can_commitment : Canonical c_commitment.
Proof. unfold c_commitment. apply _. Qed.
#[export] Instance can_cursor : Canonical c_cursor.
Proof. unfold c_cursor. apply _. Qed.

Section Protocol.
Context `{Crypto}.

(** ** Frames *)

#[export] Instance can_abort_kind : Canonical c_abort_kind.
Proof.
  apply can_refine; [apply _|]. intros a b Hb. unfold abort_from_tag in Hb.
  destruct (Z.eqb_spec a 0) as [->|]; [by simplify_eq|].
  destruct (Z.eqb_spec a 1) as [->|]; by simplify_eq.
Qed.
#[export] Instance can_abort : Canonical c_abort.
Proof.
  apply can_refine.
  - unfold c_abort_raw, c_abort_fields. apply can_iso; [apply _|].
    by intros [(d & v & s & f & k & c & r & n) sg].
  - intros a b Hb. by inv_ok.
Qed.
#[export] Instance can_frame_commitment : Canonical c_frame_commitment.
Proof.
  intros bs k rest Ho Hd. cbn [dec c_frame_commitment] in Hd. apply rbind_Ok in Hd as ([x r] & Hx & Hd).
  destruct (has_step_domain x) eqn:Hs; [|done]. injection Hd as <- <-.
  destruct (enc_dec bs x r Ho Hx) as (W & b & E & ->). split; [done|]. exists b. split; [|done].
  cbn [enc c_frame_commitment]. by rewrite Hs.
Qed.
#[export] Instance can_frame : Canonical c_frame.
Proof.
  unfold c_frame_message, c_frame_signature, c_frame_certificate, c_frame_direct. can_enum.
Qed.

(** ** Negotiation facts *)

#[export] Instance can_json : Canonical c_json.
Proof.
  apply can_refine; [apply _|]. intros a b Hb. unfold json_try_new in Hb. inv_ok.
  by destruct (serde_json_value a); simplify_eq.
Qed.
#[export] Instance can_offer_data : Canonical c_offer_data.
Proof. unfold c_offer_data. apply _. Qed.
#[export] Instance can_offer : Canonical c_offer.
Proof.
  apply can_refine; [unfold c_offer_raw; apply _|]. intros [d ts] o Ho. unfold offer_new in Ho. by inv_ok.
Qed.
#[export] Instance can_action : Canonical c_action.
Proof. unfold c_active. can_enum. Qed.
#[export] Instance can_ticket : Canonical c_ticket.
Proof. unfold c_ticket, c_ticket_data. apply _. Qed.
#[export] Instance can_prepared : Canonical c_prepared.
Proof.
  apply can_versioned. apply can_refine; [apply _|]. intros [o ts] q Hq. unfold prepared_new in Hq. by inv_ok.
Qed.
#[export] Instance can_activation : Canonical c_activation.
Proof.
  apply can_versioned. apply can_refine; [apply _|]. intros [q agg] a Ha. unfold activation_new in Ha. by inv_ok.
Qed.
#[export] Instance can_announcement : Canonical c_announcement.
Proof.
  apply can_refine; [unfold c_announcement_raw; apply _|]. intros [o agg] a Ha. unfold from_parts in Ha. by inv_ok.
Qed.
#[export] Instance can_activation_sig : Canonical c_activation_sig.
Proof. unfold c_activation_sig. apply _. Qed.
#[export] Instance can_counteroffer : Canonical c_counteroffer.
Proof. unfold c_counteroffer, c_counteroffer_data. apply _. Qed.
#[export] Instance can_fact : Canonical c_fact.
Proof. can_enum. Qed.
#[export] Instance can_gossip : Canonical c_gossip.
Proof. unfold c_gossip. apply _. Qed.

(** ** Decoding and encoding are inverse *)

Lemma from_slice_iff {A} (c : codec A) `{!Canonical c} bs a :
  octets bs -> from_slice c bs = Ok a <-> cwf c a /\ to_vec c a = Ok bs.
Proof.
  intros Ho. split.
  - unfold from_slice. intros Hd. apply rbind_Ok in Hd as ([x rest] & Hx & Hd).
    destruct rest; [|done]. injection Hd as <-. destruct (enc_dec bs x [] Ho Hx) as (W & b & E & ->).
    by rewrite app_nil_r.
  - intros [W E]. by apply from_slice_to_vec.
Qed.

Lemma decode_bounded_iff {A} (c : codec A) `{!Canonical c} max err validate bs a :
  octets bs ->
  decode_bounded c max err validate bs = Ok a <->
  cwf c a /\ to_vec c a = Ok bs /\ zlen bs <= max /\ validate a = Ok tt.
Proof.
  intros Ho. unfold decode_bounded. split.
  - intros Hd. inv_ok.
    match goal with Hf : from_slice _ _ = Ok _ |- _ => apply from_slice_iff in Hf as [W E]; [|done|done] end.
    repeat match goal with u : unit |- _ => destruct u end. split_and!; (done || lia).
  - intros (W & E & Hz & Hv). rewrite (proj2 (Z.ltb_ge _ _)) by done. cbn [err_if rbind].
    rewrite (proj2 (from_slice_iff c bs a Ho)) by done. cbn [map_err rbind]. by rewrite Hv.
Qed.

(** Execution frames have one encoding: on octets, decoding accepts exactly
    the bytes encoding writes, with no trailing byte, and the two are inverse. *)
Theorem frame_encoding_unique bs f :
  octets bs -> from_slice c_frame bs = Ok f <-> cwf c_frame f /\ to_vec c_frame f = Ok bs.
Proof. apply (from_slice_iff c_frame). Qed.

(** A gossip message is accepted exactly when it is the encoding of a
    well-formed envelope that validates and fits the fact bound; so relays that
    re-encode what they decoded forward the same bytes. *)
Theorem gossip_encoding_unique bs g :
  octets bs ->
  gossip_decode bs = Ok g <->
  cwf c_gossip g /\ to_vec c_gossip g = Ok bs /\ zlen bs <= MAX_NEGOTIATION_FACT_BYTES /\
  gossip_validate g = Ok tt.
Proof.
  intros Ho. exact (decode_bounded_iff c_gossip MAX_NEGOTIATION_FACT_BYTES FactTooLarge gossip_validate bs g Ho).
Qed.
End Protocol.

(** ** Examples *)

Definition frame0 : ExecFrame := FMessage commitment1 [7; 7].
Definition frame0_bytes : bytes := Eval lazy in unwrap [] (to_vec c_frame frame0).

Lemma octets_decide bs : forallb (fun b => (0 <=? b) && (b <? 256)) bs = true -> octets bs.
Proof.
  rewrite forallb_forall. intros Hb. apply Forall_forall. intros x Hx. apply list_elem_of_In in Hx.
  specialize (Hb x Hx). lia.
Qed.

Lemma commitment1_typed : cwf c_commitment commitment1.
Proof. cbn. split_and!; done. Qed.

Lemma frame_encoding_unique_witness : from_slice c_frame frame0_bytes = Ok frame0.
Proof.
  refine (proj2 (frame_encoding_unique frame0_bytes frame0 _) (conj _ _)).
  - apply octets_decide. reflexivity.
  - exact (conj commitment1_typed I).
  - lazy. reflexivity.
Defined.

Definition gossip0 : NegotiationGossip := gossip_new 77 5 (FactOffer offer0).
Definition gossip0_bytes : bytes := Eval lazy in unwrap [] (to_vec c_gossip gossip0).

Lemma gossip_encoding_unique_witness : to_vec c_gossip gossip0 = Ok gossip0_bytes.
Proof.
  refine (proj1 (proj2 (proj1 (gossip_encoding_unique gossip0_bytes gossip0 _) _))).
  - apply octets_decide. reflexivity.
  - lazy. reflexivity.
Defined.
