(* ===== verification/Artifacts.v ===== *)
(** * Receipt artifacts

    An artifact is self-contained evidence: decoding one runs the whole
    verification, its identity is a digest of its body, and encoding then
    decoding returns it. *)

From S2P Require Import Prelude Borsh Crypto Session Trace Negotiation Evidence Validation.
From S2P Require Import Receipt Frame Execution Invariant History Publish Fixture Guarantees Consistency.

Section Artifacts.
Context `{Crypto}.

(** What [ReceiptArtifact::new] establishes. *)
Lemma artifact_new_Ok body a :
  artifact_new body = Ok a ->
  artifact_body a = body /\ activation_validate (h_activation (header body)) = Ok tt /\
  validate_receipt_body (MkBinding (h_activation (header body))) body = Ok tt /\
  derive_body body = Ok (receipt_id a) /\ artifact_kind a = artifact_kind_of (termination body) /\
  exists bs, artifact_encode a = Ok bs.
Proof.
  unfold artifact_new. intros Ha. apply rbind_Ok in Ha as (b & Hb & Ha). unfold binding_new in Hb.
  apply rbind_Ok in Hb as ([] & Hv & [= <-]). apply map_err_Ok in Hv.
  apply rbind_Ok in Ha as ([] & Hr & Ha). apply rbind_Ok in Ha as (i & Hi & Ha).
  apply rbind_Ok in Ha as (bs & Hbs & [= <-]).
  destruct (termination body) as [|[]]; split_and!; eauto.
Qed.

(** The evidence a receipt carries, by its termination. *)
Definition evidence (b : ExecutionBinding) (body : ReceiptBody) : Prop :=
  exists c, validate_agreed_trace b (trace body) = Ok c /\
  match termination body with
  | TCompleted => exists e, last (trace body) = Some e /\ terminal e = Some (TermEnd (outcome body))
  | TStopped (Authenticated o) =>
      is_participant b (ab_sender o) = true /\ verify_signature o = Ok true /\
      ab_session_id o = session_id b /\ ab_coordinate o = c /\ outcome body = []
  | TStopped (SharedStop kind k reason) =>
      exists e, last (trace body) = Some e /\ step e = c_step k /\
        terminal e = Some (match kind with KAbort => TermAbort reason | KFail => TermFail reason end) /\
        outcome body = []
  end.

Lemma receipt_trace_Ok b t term c :
  validate_receipt_trace b t term = Ok c ->
  validate_agreed_trace b t = Ok c /\
  match term with
  | RTCompleted o => exists e, last t = Some e /\ terminal e = Some (TermEnd o)
  | RTAuthenticated => True
  | RTStopped kind reason => exists e, last t = Some e /\
      terminal e = Some (match kind with KAbort => TermAbort reason | KFail => TermFail reason end)
  end.
Proof.
  unfold validate_receipt_trace. intros Hv.
  apply rbind_Ok in Hv as ([] & _ & Hv). apply rbind_Ok in Hv as (c' & Hc & Hv).
  apply rbind_Ok in Hv as ([] & Ht & [= <-]). split; [done|].
  destruct term as [o| |kind reason]; [|done|]; inv_ok;
    match goal with Hl : last t = Some ?e |- _ => exists e; split; [done|] end.
  - match goal with Hb : bool_decide _ = true |- _ => apply bool_decide_eq_true in Hb end.
    destruct (terminal _) as [[o'|r|r]|]; try done. by simplify_eq/=.
  - destruct kind, (terminal _) as [[o'|r|r]|]; try done;
      match goal with Hb : bool_decide _ = true |- _ => by apply bool_decide_eq_true in Hb as -> end.
Qed.

Lemma receipt_body_evidence b body :
  validate_receipt_body b body = Ok tt -> h_activation (header body) = activation b /\ evidence b body.
Proof.
  unfold validate_receipt_body. intros Hv. apply rbind_Ok in Hv as ([] & Hs & Hv).
  apply rbind_Ok in Hv as ([] & _ & Hv). apply rbind_Ok in Hv as ([] & Hm & Hv).
  assert (h_activation (header body) = activation b) as Ha.
  { apply err_if_Ok in Hm. case_bool_decide; [done|]. by cbn in Hm. }
  split; [done|]. unfold evidence.
  assert (match termination body with TCompleted => True | TStopped _ => outcome body = [] end) as Ho.
  { unfold validate_receipt_body_shape in Hs. inv_ok. destruct (termination body); [done|]. inv_ok.
    match goal with Hz : (zlen _ =? 0) = true |- _ => by apply Z.eqb_eq, zlen_0 in Hz end. }
  destruct (termination body) as [|[o|kind k reason]].
  - unfold rmap in Hv. apply rbind_Ok in Hv as (c & Hc & _). apply receipt_trace_Ok in Hc as [Hc He]. eauto.
  - unfold validate_stopped_receipt, validate_for_session in Hv. inv_ok.
    repeat match goal with
    | Hb : bool_decide _ = true |- _ => apply bool_decide_eq_true in Hb
    | Hz : (ab_session_id _ =? _) = true |- _ => apply Z.eqb_eq in Hz
    | Hc : validate_receipt_trace _ _ _ = Ok _ |- _ => apply receipt_trace_Ok in Hc as [Hc _]
    | v : bool |- _ => destruct v end; try done. eauto 10.
  - unfold validate_stopped_receipt in Hv. inv_ok.
    match goal with Hc : validate_receipt_trace _ _ _ = Ok _ |- _ =>
      apply receipt_trace_Ok in Hc as [Hc (e & Hl & He)] end.
    match goal with Hz : (step _ =? _) = true |- _ => apply Z.eqb_eq in Hz end.
    eexists. split; [done|]. exists e. split_and!; [done| |done|done]. simplify_eq. congruence.
Qed.

Lemma decode_new bs a : artifact_decode bs = Ok a -> artifact_new (artifact_body a) = Ok a.
Proof.
  unfold artifact_decode, from_slice, c_artifact. cbn [dec c_versioned]. intros Hd. inv_ok.
  repeat match goal with
  | p : _ * _ |- _ => destruct p
  | Hq : (if ?t then _ else _) = Ok _ |- _ => destruct t; [|done]
  | Hq : match ?l with [] => _ | _ => _ end = Ok _ |- _ => destruct l; [|done]
  | _ => progress simplify_eq
  end.
  match goal with Hx : dec (c_refine _ _ _) _ = _ |- _ => cbn [dec c_refine] in Hx; rename Hx into Hr end.
  apply rbind_Ok in Hr as ([q r] & _ & Hr). apply rbind_Ok in Hr as (a' & Hq & [= -> _]).
  apply map_err_Ok in Hq. by destruct (artifact_new_Ok _ _ Hq) as [-> _].
Qed.

(** An artifact with a typed body survives the wire. *)
Lemma encode_decode body a :
  artifact_new body = Ok a -> cwf c_body_raw body ->
  exists bs, artifact_encode a = Ok bs /\ artifact_decode bs = Ok a.
Proof.
  intros Ha Hw. destruct (artifact_new_Ok body a Ha) as (Hb & _ & Hv & _ & _ & bs & He).
  exists bs. split; [done|]. unfold artifact_encode in He. apply rbind_Ok in He as (bs' & Hbs & He).
  apply rbind_Ok in He as ([] & Hp & [= <-]). apply map_err_Ok in Hbs.
  unfold artifact_decode. rewrite Hp. cbn [rbind].
  rewrite (from_slice_to_vec c_artifact a bs'); [done| |exact Hbs].
  assert (validate_receipt_body_shape body = Ok tt) as Hs.
  { unfold validate_receipt_body in Hv. by apply rbind_Ok in Hv as ([] & Hs & _). }
  split; [done|]. cbn [cwf c_refine c_body]. rewrite Hb. split_and!; [done| |done]. unfold id. by rewrite Hs.
Qed.

(** Two bodies whose domain-separated encodings hash alike. *)
Definition body_collision (b1 b2 : ReceiptBody) : Prop := exists x y,
  to_vec c_body_raw b1 = Ok x /\ to_vec c_body_raw b2 = Ok y /\
  collision (bytes_of_string "arena0/receipt/v5" ++ [RECEIPT_VERSION] ++ x) (bytes_of_string "arena0/receipt/v5" ++ [RECEIPT_VERSION] ++ y).

(** The identity is a digest of the body. *)
Lemma identity_binds b1 b2 i :
  cwf c_body_raw b1 -> cwf c_body_raw b2 -> derive_body b1 = Ok i -> derive_body b2 = Ok i ->
  b1 = b2 \/ body_collision b1 b2.
Proof.
  unfold derive_body. intros W1 W2 D1 D2. inv_ok. simplify_eq.
  match goal with Hx : blake3 _ = blake3 _ |- _ => apply blake3_cases in Hx as [He|Hc]; [left|right; by eexists _, _] end.
  injection He as ->.
  by eapply (enc_inj c_body_raw).
Qed.

(** C26: verifying a receipt is decoding it: whatever [ReceiptArtifact::decode]
    accepts is valid evidence for the session of the activation it carries, its
    identity is the digest of its body, and it is a stop report exactly when one
    participant stopped it. *)
Theorem decoded_artifact_is_evidence bs a :
  artifact_decode bs = Ok a ->
  let body := artifact_body a in
  let b := MkBinding (h_activation (header body)) in
  activation_validate (activation b) = Ok tt /\ evidence b body /\ derive_body body = Ok (receipt_id a) /\
  (artifact_kind a = KStopReport <-> exists o, termination body = TStopped (Authenticated o)).
Proof.
  intros (_ & Hv & Hr & Hi & Hk & _)%decode_new%artifact_new_Ok.
  apply receipt_body_evidence in Hr as [_ He]. split_and!; [done|done|done|]. rewrite Hk.
  destruct (termination (artifact_body a)) as [|[]]; split; try done; try (by intros [? ?]); by eexists.
Qed.

(** C27: encoding then decoding an artifact returns it, for every body with
    in-range fields. *)
Theorem artifact_roundtrip body a :
  artifact_new body = Ok a -> cwf c_body_raw body ->
  exists bs, artifact_encode a = Ok bs /\ artifact_decode bs = Ok a.
Proof. apply encode_decode. Qed.

(** A receipt identity commits to the whole receipt: two artifacts with one
    identity have one body, unless their encodings have one digest. *)
Theorem receipt_id_binds_body b1 b2 a1 a2 :
  artifact_new b1 = Ok a1 -> artifact_new b2 = Ok a2 -> cwf c_body_raw b1 -> cwf c_body_raw b2 ->
  receipt_id a1 = receipt_id a2 -> artifact_body a1 = artifact_body a2 \/ body_collision (artifact_body a1) (artifact_body a2).
Proof.
  intros (-> & _ & _ & D1 & _)%artifact_new_Ok (-> & _ & _ & D2 & _)%artifact_new_Ok W1 W2 Hi.
  rewrite Hi in D1. by eapply identity_binds.
Qed.
End Artifacts.

(** ** Examples *)

Definition body0 : ReceiptBody :=
  MkBody (MkHeader activation0 TCompleted) (borsh_bytes outcome0) (params offer_data0) trace0.
Definition artifact0 : ReceiptArtifact := unwrap (Receipt body0 0) (artifact_new body0).

Lemma artifact0_new : artifact_new body0 = Ok artifact0.
Proof. lazy. reflexivity. Qed.

Lemma offer_data0_cwf : cwf c_offer_data offer_data0.
Proof. split_and!; try done; reflexivity. Qed.
Lemma offer0_cwf : cwf c_offer offer0.
Proof.
  split; [split; [exact offer_data0_cwf|]|lazy; reflexivity].
  apply Forall_cons_2; [done|]. apply Forall_cons_2; done.
Qed.
Lemma tickets0_cwf : Forall (cwf c_ticket) [alice_ticket; bob_ticket].
Proof. apply Forall_cons_2; [|apply Forall_cons_2; [|done]]; repeat split; done. Qed.
Lemma prepared0_cwf : cwf c_prepared prepared0.
Proof. split; [done|]. split; [exact (conj offer0_cwf tickets0_cwf)|lazy; reflexivity]. Qed.
Lemma activation0_cwf : cwf c_activation activation0.
Proof. split; [done|]. split; [split; [exact prepared0_cwf|done]|lazy; reflexivity]. Qed.
Lemma body0_cwf : cwf c_body_raw body0.
Proof.
  split; [done|]. split; [split; [exact activation0_cwf|done]|].
  split; [done|]. split; [done|exact trace0_typed].
Qed.

Lemma artifact_roundtrip_witness :
  exists bs, artifact_encode artifact0 = Ok bs /\ artifact_decode bs = Ok artifact0.
Proof. exact (artifact_roundtrip body0 artifact0 artifact0_new body0_cwf). Defined.

Lemma receipt_id_binds_body_witness :
  artifact_body artifact0 = artifact_body artifact0 \/ body_collision (artifact_body artifact0) (artifact_body artifact0).
Proof.
  exact (receipt_id_binds_body body0 body0 artifact0 artifact0 artifact0_new artifact0_new
    body0_cwf body0_cwf eq_refl).
Defined.

Lemma decoded_artifact_is_evidence_witness :
  exists bs, artifact_decode bs = Ok artifact0 /\
    evidence (MkBinding (h_activation (header (artifact_body artifact0)))) (artifact_body artifact0).
Proof.
  destruct (encode_decode body0 artifact0 artifact0_new body0_cwf) as (bs & _ & Hd).
  exists bs. split; [exact Hd|]. exact (proj1 (proj2 (decoded_artifact_is_evidence bs artifact0 Hd))).
Defined.
