(* ===== verification/NoPanic.v ===== *)
(** * No operation panics

    [expect], [unwrap], [unreachable!] and slice indexing are the [Panic] outcome
    of the model.  On a reachable state, every operation of the aggregate whose
    arguments respect the bounds of their Rust types returns a value or an error,
    never a panic. *)

From S2P Require Import Prelude Borsh Crypto Session Trace Negotiation Evidence Validation.
From S2P Require Import Receipt Frame Execution Invariant History Publish Fixture Guarantees.

Create HintDb nopanic.

Ltac np := repeat match goal with
  | |- rbind _ _ <> Panic => apply rbind_noPanic; [|intros ? ?; cbv beta]
  | |- map_err _ _ <> Panic => apply map_err_noPanic
  | |- err_if _ _ <> Panic => apply err_if_noPanic
  | |- ok_or _ _ <> Panic => apply ok_or_noPanic
  | |- blst_err _ <> Panic => apply blst_err_noPanic
  | |- rmap _ _ <> Panic => unfold rmap
  | |- (let _ := _ in _) <> Panic => cbv zeta
  | |- Ok _ <> Panic => discriminate
  | |- Err _ <> Panic => discriminate
  | |- _ => solve [eauto with nopanic typeclass_instances]
  | |- (if ?b then _ else _) <> Panic => destruct b eqn:?
  | |- match ?x with _ => _ end <> Panic => destruct x eqn:?
  end.

(** ** Writers *)

(** A codec whose writer reports over-bound values as errors. *)
Class Quiet {A} (c : codec A) : Prop := quiet a : enc c a <> Panic.

Lemma variant_quiet {A} t (c : codec A) `{!Quiet c} a : variant t c a <> Panic.
Proof. apply wcat_noPanic; [done|apply quiet]. Qed.
#[export] Hint Resolve variant_quiet quiet : nopanic.

Lemma write_len_quiet max len : write_len max len <> Panic.
Proof. unfold write_len. np. Qed.
Lemma write_items_quiet {A} (c : codec A) `{!Quiet c} l : write_items (enc c) l <> Panic.
Proof. induction l; [done|]. apply wcat_noPanic; [apply quiet|done]. Qed.

#[export] Instance quiet_uint n : Quiet (c_uint n).
Proof. done. Qed.
#[export] Instance quiet_arr n : Quiet (c_arr n).
Proof. done. Qed.
#[export] Instance quiet_raw n : Quiet (c_raw n).
Proof. done. Qed.
#[export] Instance quiet_bytes max : Quiet (c_bytes max).
Proof. intros a. apply wcat_noPanic; [apply write_len_quiet|done]. Qed.
#[export] Instance quiet_string max : Quiet (c_string max).
Proof. intros a. apply wcat_noPanic; [apply write_len_quiet|done]. Qed.
#[export] Instance quiet_vec {A} max (c : codec A) `{!Quiet c} : Quiet (c_vec max c).
Proof. intros a. apply wcat_noPanic; [apply write_len_quiet|by apply write_items_quiet]. Qed.
#[export] Instance quiet_option {A} (c : codec A) `{!Quiet c} : Quiet (c_option c).
Proof. intros [a|]; [|done]. apply wcat_noPanic; [done|apply quiet]. Qed.
#[export] Instance quiet_pair {A B} (c1 : codec A) (c2 : codec B) `{!Quiet c1, !Quiet c2} : Quiet (c_pair c1 c2).
Proof. intros a. apply wcat_noPanic; apply quiet. Qed.
#[export] Instance quiet_iso {A B} (c : codec A) (to : B -> A) back H `{!Quiet c} : Quiet (c_iso c to back H).
Proof. intros a. apply (quiet (to a)). Qed.
#[export] Instance quiet_check {A} p (c : codec A) `{!Quiet c} : Quiet (c_check p c).
Proof. intros a. apply (quiet (c:=c) a). Qed.
#[export] Instance quiet_refine {A B E} (c : codec A) (to : B -> A) (mk : A -> result E B) `{!Quiet c} :
  Quiet (c_refine c to mk).
Proof. intros a. apply (quiet (c:=c) (to a)). Qed.
#[export] Instance quiet_versioned {A} v (c : codec A) `{!Quiet c} : Quiet (c_versioned v c).
Proof. intros a. apply wcat_noPanic; [done|apply quiet]. Qed.
#[export] Instance quiet_ensemble : Quiet c_ensemble.
Proof. intros e. apply (quiet (c:=c_vec MAX_PARTICIPANTS c_id) (peers e)). Qed.
#[export] Instance quiet_effect : Quiet c_effect.
Proof. unfold c_send_direct, c_timer, c_range, c_id. intros []; apply variant_quiet; apply _. Qed.
#[export] Instance quiet_step_event : Quiet c_step_event.
Proof. unfold c_message, c_id. intros []; apply variant_quiet; apply _. Qed.
#[export] Instance quiet_step_terminal : Quiet c_step_terminal.
Proof. intros []; apply variant_quiet; apply _. Qed.
#[export] Instance quiet_entry : Quiet c_entry.
Proof. unfold c_entry, c_agreement, c_signers, c_id. apply _. Qed.
#[export] Instance quiet_commitment : Quiet c_commitment.
Proof. unfold c_commitment, c_id. apply _. Qed.

Lemma object_length_quiet {A} (c : codec A) `{!Quiet c} a : object_length c a <> Panic.
Proof. unfold object_length. np. Qed.
#[export] Hint Resolve object_length_quiet : nopanic.

(** ** Loops *)

Lemma try_fold_noPanic {E A B} (f : B -> A -> result E B) l b :
  (forall b x, x ∈ l -> f b x <> Panic) -> try_fold f b l <> Panic.
Proof.
  revert b. induction l as [|x l IH]; intros b Hf; [done|]. cbn [try_fold]. apply rbind_noPanic.
  - apply Hf. by left.
  - intros b' _. apply IH. intros b0 y Hy. apply Hf. by right.
Qed.

Lemma try_for_each_safe {E A} (f : A -> result E unit) l : (forall x, f x <> Panic) -> try_for_each f l <> Panic.
Proof. intros Hf. apply try_for_each_noPanic, Forall_forall. auto. Qed.

(** ** Validation *)

Lemma ensure_payload_safe k a m : ensure_payload k a m <> Panic.
Proof. unfold ensure_payload. np. Qed.
Lemma ensure_encoded_safe k a m : ensure_encoded k a m <> Panic.
Proof. unfold ensure_encoded. np. Qed.
#[export] Hint Resolve ensure_payload_safe ensure_encoded_safe : nopanic.

Lemma validate_outgoing_safe out : validate_outgoing out <> Panic.
Proof. unfold validate_outgoing. np. apply try_for_each_safe. intros x. np. Qed.
Lemma validate_effect_payload_safe e : validate_effect_payload e <> Panic.
Proof. unfold validate_effect_payload. np. Qed.
#[export] Hint Resolve validate_outgoing_safe validate_effect_payload_safe : nopanic.

Lemma check_effect_budget_safe l : check_effect_budget l <> Panic.
Proof.
  unfold check_effect_budget. np.
  apply try_fold_noPanic. intros [n t] e _. unfold budget_step, add_effect_len. np.
Qed.
#[export] Hint Resolve check_effect_budget_safe : nopanic.
Lemma validate_effects_safe l : validate_effects l <> Panic.
Proof. unfold validate_effects. np. Qed.
Lemma single_lifecycle_safe l : single_lifecycle_effect l <> Panic.
Proof. unfold single_lifecycle_effect. np. Qed.
Lemma validate_trace_entry_safe e : validate_trace_entry e <> Panic.
Proof. unfold validate_trace_entry, validate_terminal, to_vec. np. Qed.
#[export] Hint Resolve validate_effects_safe single_lifecycle_safe validate_trace_entry_safe : nopanic.

Lemma signers_validate_safe s n : signers_validate s n <> Panic.
Proof.
  unfold signers_validate. np.
  destruct (s !! (div_ceil8 n - 1)%nat) eqn:Hs; [done|]. apply lookup_ge_None in Hs.
  repeat match goal with Hb : (_ <? _)%nat = false |- _ => apply Nat.ltb_ge in Hb end.
  match goal with Hb : (n mod 8 =? 0)%nat = false |- _ => apply Nat.eqb_neq in Hb end.
  destruct n as [|n]; [done|].
  assert (1 <= div_ceil8 (S n))%nat by (unfold div_ceil8; apply Nat.div_le_lower_bound; lia). lia.
Qed.
#[export] Hint Resolve signers_validate_safe : nopanic.

Lemma validate_retained_order_safe l : validate_step_signature_order l <> Panic.
Proof. unfold validate_step_signature_order. apply try_for_each_safe. intros [a b]. np. Qed.
#[export] Hint Resolve validate_retained_order_safe : nopanic.

Section NoPanic.
Context `{Crypto}.

Lemma fast_aggregate_safe s m ks : fast_aggregate_verify s m ks <> Panic.
Proof. unfold fast_aggregate_verify. np. Qed.
Lemma ed25519_safe k d s : ed25519_verify k d s <> Panic.
Proof. unfold ed25519_verify. np. Qed.
Hint Resolve fast_aggregate_safe ed25519_safe : nopanic.

Lemma verify_full_agreement_safe a k ks : verify_full_agreement a k ks <> Panic.
Proof. unfold verify_full_agreement, verify_signatures. np. Qed.
Lemma verify_step_signature_safe key k s : verify_step_signature key k s <> Panic.
Proof. unfold verify_step_signature, bls_verify. np. Qed.
Lemma participant_key_safe b p : participant_key b p <> Panic.
Proof. unfold participant_key. np. Qed.
Lemma participant_keys_safe b : participant_keys b <> Panic.
Proof. unfold participant_keys. np. Qed.
Hint Resolve verify_full_agreement_safe verify_step_signature_safe participant_key_safe
  participant_keys_safe : nopanic.
Lemma participant_bls_keys_safe b : participant_bls_keys b <> Panic.
Proof. unfold participant_bls_keys. np. Qed.
Lemma binding_ensemble_safe b : binding_ensemble b <> Panic.
Proof. unfold binding_ensemble, from_peers. np. Qed.
Hint Resolve participant_bls_keys_safe binding_ensemble_safe : nopanic.
Lemma validate_shared_entry_safe b i e : validate_shared_entry b i e <> Panic.
Proof. unfold validate_shared_entry. np. Qed.
Lemma certificate_verify_safe c b : certificate_verify c b <> Panic.
Proof. unfold certificate_verify. np. Qed.
Hint Resolve validate_shared_entry_safe certificate_verify_safe : nopanic.

(** ** Entries *)

(** An entry that encodes also encodes without its agreement. *)
Lemma entry_hash_fits {E} e n : object_length c_entry e = Ok n -> entry_hash (E:=E) e <> Panic.
Proof.
  intros (ne & nt & E1 & E2 & _ & _)%ol_entry. unfold entry_hash. np.
  assert (object_length c_entry (with_agreement e agreement_empty) = Ok (4 + 8 + ne + 32 + 32 + nt + 48 + 4 + 0)) as Hl.
  { apply ol_entry. by exists ne, nt. }
  by apply object_length_Ok in Hl as (bs & -> & _).
Qed.

Lemma entry_hash_safe {E} e : validate_trace_entry e = Ok tt -> entry_hash (E:=E) e <> Panic.
Proof. intros (_ & n & Hn & _)%validate_trace_entry_Ok. by eapply entry_hash_fits. Qed.
Lemma for_entry_safe {E} sn e l : validate_trace_entry e = Ok tt -> for_entry (E:=E) sn e l <> Panic.
Proof. intros He. unfold for_entry. np. by apply entry_hash_safe. Qed.

Lemma shared_entry_valid b i e u : validate_shared_entry b i e = Ok u -> validate_trace_entry e = Ok tt.
Proof. unfold validate_shared_entry. intros Hv. by apply rbind_Ok in Hv as ([] & Hv & _). Qed.

Lemma agreed_loop_safe b ks c tr : agreed_loop b ks c tr <> Panic.
Proof.
  revert c. induction tr as [|e tr IH]; intros c; [done|]. cbn [agreed_loop]. np; [|unfold advance; np].
  eapply for_entry_safe, shared_entry_valid. eassumption.
Qed.
Lemma validate_agreed_trace_safe b tr : validate_agreed_trace b tr <> Panic.
Proof. unfold validate_agreed_trace. np. apply agreed_loop_safe. Qed.
Hint Resolve validate_agreed_trace_safe : nopanic.

(** ** Statuses and proposals *)

Lemma advance_safe c k : advance c k <> Panic.
Proof. unfold advance. np. Qed.
Lemma quiet_abort_fields c `{!Quiet c} : Quiet (c_abort_fields c).
Proof. unfold c_abort_fields, c_abort_kind, c_cursor, c_id. apply _. Qed.
Lemma verify_signature_safe o : verify_signature o <> Panic.
Proof.
  unfold verify_signature, abort_signing_bytes, to_vec. np. apply quiet_abort_fields, _.
Qed.
Lemma validate_shape_safe o : validate_shape o <> Panic.
Proof. unfold validate_shape. np. Qed.
Hint Resolve advance_safe verify_signature_safe validate_shape_safe : nopanic.
Lemma cause_validate_safe c : cause_validate c <> Panic.
Proof. unfold cause_validate, ensure_reason. np. Qed.
Lemma cause_binding_safe c b a : cause_validate_binding c b a <> Panic.
Proof. unfold cause_validate_binding. np. Qed.
Lemma outcome_validate_safe o : outcome_validate o <> Panic.
Proof. unfold outcome_validate, validate_borsh, validate_json, json_try_new. np. Qed.
Hint Resolve cause_validate_safe cause_binding_safe outcome_validate_safe : nopanic.
Lemma status_binding_safe st b a : status_validate_binding st b a <> Panic.
Proof. unfold status_validate_binding. np. Qed.
Hint Resolve status_binding_safe : nopanic.
Lemma proposal_status_safe e k st : validate_trace_entry e = Ok tt -> validate_proposal_status e k st <> Panic.
Proof. intros He. unfold validate_proposal_status. np. Qed.
Hint Resolve proposal_status_safe : nopanic.

Lemma of_shared_safe {E} p : zlen p <= MAX_SHARED_STATE_BYTES -> of_shared (E:=E) p <> Panic.
Proof. intros [h ->]%(of_shared_noPanic (E:=E)). done. Qed.
Lemma validate_staged_safe b c pos p :
  of_shared (E:=ProtocolError) (pr_shared_state p) <> Panic -> validate_staged b c pos p <> Panic.
Proof.
  intros Hs. unfold validate_staged. np.
  - eapply for_entry_safe, shared_entry_valid. eassumption.
  - eapply proposal_status_safe, shared_entry_valid. eassumption.
Qed.

Lemma binary_search_in {A} (key : A -> Z) l k i : binary_search_by_key key l k = Some i -> is_Some (l !! i).
Proof.
  unfold binary_search_by_key. destruct (length l =? 0)%nat; [done|].
  destruct (l !! _) eqn:Hx; [|done]. destruct (key _ =? k); [|done]. intros [= <-]. eauto.
Qed.
Lemma check_retained_signature_safe ks k s : check_retained_signature ks k s <> Panic.
Proof.
  unfold check_retained_signature. np.
  destruct (binary_search_in _ _ _ _ Heqo) as [x ->]. done.
Qed.
Lemma validate_retained_safe b k sigs : validate_retained b k sigs <> Panic.
Proof.
  unfold validate_retained. np. apply try_for_each_safe. intros s. apply check_retained_signature_safe.
Qed.
Hint Resolve validate_retained_safe : nopanic.
Lemma validate_proposal_safe b c pos p :
  of_shared (E:=ProtocolError) (pr_shared_state p) <> Panic -> validate_proposal b c pos p <> Panic.
Proof. intros Hs. unfold validate_proposal. np. by apply validate_staged_safe. Qed.

Lemma signers_full_safe n : signers_full n <> Panic.
Proof. unfold signers_full. np. Qed.
Hint Resolve signers_full_safe : nopanic.
Lemma certified_size_safe s e : certified_size s e <> Panic.
Proof. unfold certified_size. np. Qed.
Lemma check_receipt_entries_safe s l : check_receipt_entries s l <> Panic.
Proof.
  unfold check_receipt_entries. np.
  apply try_fold_noPanic. intros b e _. pose proof (certified_size_safe s e). np.
Qed.
Lemma receipt_budget_safe s e : check_receipt_budget s e <> Panic.
Proof. apply check_receipt_entries_safe. Qed.
Hint Resolve receipt_budget_safe : nopanic.
Lemma proposal_budget_safe s p : check_proposal_receipt_budget s p <> Panic.
Proof. unfold check_proposal_receipt_budget. np. Qed.
Hint Resolve proposal_budget_safe : nopanic.

(** ** Certificates *)

Lemma collect_signatures_safe k sigs n i ks acc : collect_signatures k sigs n i ks acc <> Panic.
Proof. revert i acc. induction ks as [|[p key] ks IH]; intros i acc; [done|]. cbn [collect_signatures]. np. Qed.
Hint Resolve collect_signatures_safe : nopanic.
Lemma from_signatures_safe b k p : from_signatures b k p <> Panic.
Proof. unfold from_signatures, agreement_from_signatures, bls_aggregate. np. Qed.
Lemma add_signature_safe b k sg p : add_signature b k sg p <> Panic.
Proof. unfold add_signature. np. Qed.
Hint Resolve from_signatures_safe add_signature_safe : nopanic.

(** ** Methods *)

(** A method that does not panic when called on [s]. *)
Definition safe {A} (m : M ExecutionState ProtocolError A) (s : ExecutionState) : Prop := (m s).1 <> Panic.

Lemma safe_bind {A B} (m : M ExecutionState ProtocolError A) (f : A -> M ExecutionState ProtocolError B) s :
  safe m s -> (forall a s', m s = (Ok a, s') -> safe (f a) s') -> safe (sbind m f) s.
Proof. unfold safe, sbind. intros Hm Hf. destruct (m s) as [[a|e|] s']; simpl in *; try done. by apply Hf. Qed.
Lemma safe_read {A B} (g : ExecutionState -> result ProtocolError A) (f : A -> M ExecutionState ProtocolError B) s :
  g s <> Panic -> (forall a, g s = Ok a -> safe (f a) s) -> safe (sbind (sread g) f) s.
Proof. intros Hg Hf. apply safe_bind; [done|]. intros a s' [= Ha <-]. auto. Qed.
Lemma safe_modify {A} g (f : unit -> M ExecutionState ProtocolError A) s :
  safe (f tt) (g s) -> safe (sbind (smodify g) f) s.
Proof. done. Qed.
Lemma safe_clone {A} (m : M ExecutionState ProtocolError A) s : safe m s -> safe (on_clone m) s.
Proof. unfold safe, on_clone. by destruct (m s) as [[a|e|] s']. Qed.
Lemma safe_answer {A} (g : A -> Answer) m s : safe m s -> safe (answer g m) s.
Proof. intros Hm. by apply safe_bind. Qed.
Lemma bump_safe s : safe bump_version s.
Proof. apply safe_read; [unfold next_version; np|]. done. Qed.
Hint Resolve bump_safe : nopanic.

Ltac ms := repeat match goal with
  | |- safe (sbind (sread _) _) _ => apply safe_read; [try solve [np]|intros ? ?; cbv beta]
  | |- safe (sbind (smodify _) _) _ => apply safe_modify
  | |- safe (sbind _ _) _ => apply safe_bind; [|intros ? ? ?; cbv beta]
  | |- safe (let _ := _ in _) _ => cbv zeta
  | |- safe (on_clone _) _ => apply safe_clone
  | |- safe (if ?b then _ else _) _ => destruct b eqn:?
  | |- safe (match ?x with _ => _ end) _ => destruct x
  | |- safe (sret _) _ => discriminate
  | |- safe (smodify _) _ => discriminate
  | |- safe (sread _) _ => unfold safe, sread; cbn [fst]; solve [np]
  | |- safe _ _ => solve [eauto with nopanic]
  end.

Lemma activate_safe s : safe activate s.
Proof. unfold activate. ms. Qed.
Lemma drop_outgoing_head_safe s : safe drop_outgoing_head s.
Proof. unfold drop_outgoing_head. ms. Qed.
Lemma record_direct_safe from seq s : safe (record_direct from seq) s.
Proof. unfold record_direct, next_version. ms. Qed.
(** A queued message has a lane. *)
Lemma ack_direct_safe to seq s : safe (ack_direct to seq) s.
Proof.
  unfold ack_direct, next_version. ms. simplify_eq. unfold direct_queue in *. by destruct (direct s !! to).
Qed.
Lemma confirm_end_safe peer s : safe (confirm_end peer) s.
Proof. unfold confirm_end. ms. Qed.
Lemma expire_end_safe s : safe expire_end s.
Proof. unfold expire_end. ms. Qed.
Lemma stop_safe o s : safe (stop o) s.
Proof. unfold stop, validate_for_session, stopped. ms. Qed.

(** *** Certification *)

(** The pending proposal, if any, hashes and commits. *)
Definition pending_safe (s : ExecutionState) : Prop :=
  forall p, proposal s = Some p ->
    validate_trace_entry (entry p) = Ok tt /\ of_shared (E:=ProtocolError) (pr_shared_state p) <> Panic.

Lemma wf_pending_safe s : wf s -> pending_safe s.
Proof.
  intros Hw p Hp. destruct (wf_pending s p Hw Hp) as [_ (_ & _ & _ & Hv & _)%check_pending_Ok].
  unfold validate_proposal in Hv. apply rbind_Ok in Hv as (k & [He _ _ _ _ Hs _ _ _]%validate_staged_Ok & _).
  split; [by eapply shared_entry_valid|by rewrite Hs].
Qed.

Lemma install_certified_safe cert s : pending_safe s -> safe (install_certified cert) s.
Proof.
  intros Hp. unfold install_certified. ms; simplify_eq.
  - destruct (proposal s) as [p|] eqn:E; simplify_eq/=. by apply validate_proposal_safe, Hp.
  - destruct (proposal s) as [p|] eqn:E; simplify_eq/=. by apply for_entry_safe, Hp.
Qed.
Lemma certify_step_safe cert s : wf s -> safe (certify_step cert) s.
Proof.
  intros Hw. unfold certify_step. apply safe_clone, safe_bind; [|intros; ms].
  by apply install_certified_safe, wf_pending_safe.
Qed.

Lemma proposal_commitment_safe s : pending_safe s -> proposal_commitment s <> Panic.
Proof.
  intros Hp. unfold proposal_commitment, commitment_for. destruct (proposal s) eqn:E; [|done].
  np. by apply for_entry_safe, Hp.
Qed.

Lemma add_signature_keeps b k sg p p' :
  add_signature b k sg p = Ok p' -> entry p' = entry p /\ pr_shared_state p' = pr_shared_state p.
Proof. unfold add_signature. destruct (find_by _ _); [by case_bool_decide|]. intros Ha. by inv_ok. Qed.

Lemma add_step_signature_safe sg s : wf s -> safe (add_step_signature sg) s.
Proof.
  intros Hw%wf_pending_safe. unfold add_step_signature. ms; simplify_eq.
  - by apply proposal_commitment_safe.
  - match goal with Ha : add_signature _ _ _ _ = Ok _ |- _ => apply add_signature_keeps in Ha as [E1 E2] end.
    apply install_certified_safe. intros q [= <-]. rewrite E1, E2.
    destruct (proposal s) as [p|] eqn:E; simplify_eq/=. by apply Hw.
Qed.

(** *** Publication *)

(** A value of the artifact type: its constructor accepted its body. *)
Definition artifact_typed (a : ReceiptArtifact) : Prop := artifact_new (artifact_body a) = Ok a.

Lemma last_valid t e : try_for_each validate_trace_entry t = Ok tt -> last t = Some e -> validate_trace_entry e = Ok tt.
Proof. rewrite try_for_each_Ok, Forall_forall. intros Ht He. apply Ht. by apply last_Some_elem_of. Qed.

Lemma validate_receipt_trace_safe b t term : validate_receipt_trace b t term <> Panic.
Proof. unfold validate_receipt_trace. np. Qed.
Hint Resolve validate_receipt_trace_safe : nopanic.
Lemma validate_stopped_receipt_safe b body c :
  try_for_each validate_trace_entry (trace body) = Ok tt -> validate_stopped_receipt b body c <> Panic.
Proof.
  intros Ht. unfold validate_stopped_receipt, validate_for_session. np. eapply entry_hash_safe, last_valid; [done|].
  by destruct (last (trace body)); simplify_eq/=.
Qed.

Lemma link_before_last_safe sn t :
  try_for_each validate_trace_entry t = Ok tt -> link_before_last (E:=ProtocolError) sn t <> Panic.
Proof.
  rewrite try_for_each_Ok, Forall_forall. intros Ht. apply try_fold_noPanic. intros l e He. np.
  apply for_entry_safe, Ht. apply elem_of_take in He as (i & Hi & _). by eapply list_elem_of_lookup_2.
Qed.

(** The checks of the constructor that do not depend on the binding. *)
Lemma typed_artifact_facts a : artifact_typed a ->
  validate_receipt_body_shape (artifact_body a) = Ok tt /\
  activation_validate (h_activation (header (artifact_body a))) = Ok tt.
Proof.
  unfold artifact_typed, artifact_new. intros Ha.
  apply rbind_Ok in Ha as (b & _ & Ha). apply rbind_Ok in Ha as ([] & Hv & _).
  unfold validate_receipt_body in Hv. apply rbind_Ok in Hv as ([] & Hs & Hv).
  apply rbind_Ok in Hv as ([] & Hv & _). split; [done|]. by inv_ok.
Qed.
Lemma shape_trace b : validate_receipt_body_shape b = Ok tt -> try_for_each validate_trace_entry (trace b) = Ok tt.
Proof. unfold validate_receipt_body_shape. intros Hv. inv_ok. by repeat match goal with u : unit |- _ => destruct u end. Qed.

Lemma validate_receipt_body_safe b a : artifact_typed a -> validate_receipt_body b (artifact_body a) <> Panic.
Proof.
  intros [Hs Ha]%typed_artifact_facts. unfold validate_receipt_body. rewrite Hs, Ha. np.
  by apply validate_stopped_receipt_safe, shape_trace.
Qed.
Lemma published_status_safe s a : artifact_typed a -> published_status s a <> Panic.
Proof.
  intros [Hs%shape_trace _]%typed_artifact_facts. unfold published_status. np.
  - by apply link_before_last_safe.
  - eapply for_entry_safe, last_valid; [done|]. by destruct (last _); simplify_eq/=.
Qed.
Lemma publish_receipt_safe a s : artifact_typed a -> safe (publish_receipt a) s.
Proof.
  intros Ha. unfold publish_receipt. ms.
  - by apply validate_receipt_body_safe.
  - by apply published_status_safe.
Qed.

(** *** Dispatch *)

(** The bounds an event comes with: the [Ensemble] type has at most
    [MAX_PARTICIPANTS] members, and the frame decoder and the outgoing queue bound
    the payload of every message that is dispatched. *)
Definition event_typed (e : Event) : Prop :=
  match e with
  | SessionStarted en => zlen (peers en) <= MAX_PARTICIPANTS
  | MessageReceived _ m => zlen m <= MAX_EFFECT_PAYLOAD_BYTES
  | _ => True
  end.

Lemma event_fits e ev : event_typed e -> trace_event e = Ok ev -> exists n, object_length c_step_event ev = Ok n.
Proof.
  destruct e as [[l]| | | |]; intros He [= <-]; simpl in He; eexists; apply ol_variant; eexists; (split; [|done]).
  - change (object_length c_ensemble (MkEnsemble l)) with (object_length (c_vec MAX_PARTICIPANTS c_id) l).
    apply ol_vec. split_and!; [done|unfold MAX_PARTICIPANTS, u32_max in *; lia|]. eexists. split; [apply ol_ids|done].
  - apply ol_pair. eexists _, _. split_and!; [apply ol_id| |done]. apply ol_bytes.
    cbn [snd]. unfold MAX_EFFECT_PAYLOAD_BYTES, u32_max in *. split_and!; [done|lia|done].
Qed.

Lemma terminal_fits effects lc :
  check_effect_budget effects = Ok tt -> single_lifecycle_effect effects = Ok lc ->
  exists n, object_length (c_option c_step_terminal) (mbind from_effect lc) = Ok n.
Proof.
  intros (_ & Hf & _)%check_effect_budget_Ok Hl. destruct lc as [e|]; [|eexists; apply ol_none].
  assert (e ∈ effects) as He.
  { unfold single_lifecycle_effect in Hl. destruct (filter _ effects) as [|x [|]] eqn:Hx; simplify_eq.
    assert (e ∈ filter (fun e => is_lifecycle e = true) effects) as Hin by (rewrite Hx; by left).
    by apply list_elem_of_filter in Hin as [_ ?]. }
  rewrite Forall_forall in Hf. destruct (Hf e He) as [Hp _].
  destruct e; simpl in *; try (eexists; apply ol_none); apply ensure_payload_Ok in Hp;
    unfold MAX_TERMINAL_OUTCOME_BYTES, MAX_TERMINAL_REASON_BYTES in Hp;
    (eexists; apply ol_some; eexists; split; [|reflexivity]); apply ol_variant;
    (eexists; split; [|reflexivity]); (apply ol_bytes || apply ol_string);
    unfold MAX_TERMINAL_OUTCOME_BYTES, MAX_TERMINAL_REASON_BYTES, u32_max; (split_and!; [lia|lia|done]).
Qed.

Lemma unsigned_entry_fits e ne nt :
  object_length c_step_event (event e) = Ok ne -> object_length (c_option c_step_terminal) (terminal e) = Ok nt ->
  agreement e = agreement_empty -> exists n, object_length c_entry e = Ok n.
Proof.
  intros He Ht Ha. eexists. apply ol_entry. exists ne, nt. rewrite Ha.
  split_and!; [done|done|by vm_compute|reflexivity].
Qed.

Lemma indexed_safe l : indexed_dispatch_effects l <> Panic.
Proof. apply try_fold_noPanic. intros acc p _. np. Qed.
Lemma callout_dispatch_safe s e pid : validate_callout_dispatch s e pid <> Panic.
Proof. unfold validate_callout_dispatch. np. Qed.
Lemma append_broadcasts_safe out l : append_broadcasts out l <> Panic.
Proof. apply try_fold_noPanic. intros acc p _. np. Qed.
Lemma queue_direct_safe s lanes l : queue_direct s lanes l <> Panic.
Proof. apply try_fold_noPanic. intros acc p _. np. Qed.
Lemma take_own_safe s e : take_own_message s e <> Panic.
Proof. unfold take_own_message. np. Qed.
Lemma trace_event_safe e : trace_event e <> Panic.
Proof. unfold trace_event. np. Qed.
Lemma from_proposal_safe e k o : from_proposal_entry e k o <> Panic.
Proof. unfold from_proposal_entry, from_shared_entry. np. Qed.
Lemma proposal_new_safe e sh lo out eff pos st co sg : proposal_new e sh lo out eff pos st co sg <> Panic.
Proof. unfold proposal_new. np. Qed.
Hint Resolve indexed_safe callout_dispatch_safe append_broadcasts_safe queue_direct_safe take_own_safe
  trace_event_safe from_proposal_safe proposal_new_safe : nopanic.

Lemma install_dispatch_safe pos sh lo post out st co s : safe (install_dispatch pos sh lo post out st co) s.
Proof. unfold install_dispatch. ms. Qed.
Lemma stage_proposal_safe p s :
  of_shared (E:=ProtocolError) (pr_shared_state p) <> Panic -> safe (stage_proposal p) s.
Proof. intros Hp. unfold stage_proposal. ms. by apply validate_proposal_safe. Qed.
Hint Resolve install_dispatch_safe : nopanic.

Lemma apply_local_safe e pos post sh lo eff lc o req s : safe (apply_local e pos post sh lo eff lc o req) s.
Proof. unfold apply_local. ms. Qed.

Lemma apply_agreed_safe e pos post sh lo eff idx lc o req s :
  event_typed e -> zlen sh <= MAX_SHARED_STATE_BYTES -> check_effect_budget eff = Ok tt ->
  single_lifecycle_effect eff = Ok lc -> safe (apply_agreed e pos post sh lo eff idx lc o req) s.
Proof.
  intros He Hs Hb Hl. unfold apply_agreed. ms; simplify_eq.
  - destruct (event_fits e a0 He) as [ne Hne]; [done|]. destruct (terminal_fits eff lc Hb Hl) as [nt Hnt].
    unfold for_entry. np. edestruct unsigned_entry_fits as [n Hn]; [..|by eapply entry_hash_fits]; done.
  - apply stage_proposal_safe. unfold proposal_new in *. inv_ok. by apply of_shared_safe.
Qed.

Lemma apply_dispatch_safe e sh lo eff o pid req s :
  event_typed e -> zlen sh <= MAX_SHARED_STATE_BYTES -> safe (apply_dispatch e sh lo eff o pid req) s.
Proof.
  intros He Hs. unfold apply_dispatch. ms; simplify_eq.
  - by apply of_shared_safe.
  - apply apply_local_safe.
  - apply apply_agreed_safe; try done. by repeat match goal with u : unit |- _ => destruct u end.
Qed.

(** ** Operations *)

(** The bounds an operation's arguments come with: those of the event, the
    length bound of the [SharedStateBytes] type, and for a receipt that it was
    built by its constructor. *)
Definition op_typed (op : Op) : Prop :=
  match op with
  | OpDispatch e shared _ _ _ _ _ => event_typed e /\ zlen shared <= MAX_SHARED_STATE_BYTES
  | OpPublish a => artifact_typed a
  | _ => True
  end.

Lemma run_op_safe op s : wf s -> op_typed op -> safe (run_op op) s.
Proof.
  intros Hw Ht. destruct op; apply safe_answer.
  - apply activate_safe.
  - by apply apply_dispatch_safe; apply Ht.
  - apply drop_outgoing_head_safe.
  - by apply add_step_signature_safe.
  - by apply certify_step_safe.
  - apply stop_safe.
  - by apply publish_receipt_safe.
  - apply record_direct_safe.
  - apply ack_direct_safe.
  - apply confirm_end_safe.
  - apply expire_end_safe.
Qed.

Lemma current_frames_safe me s : wf s -> current_frames (E:=ProtocolError) s me <> Panic.
Proof.
  intros Hw%wf_pending_safe. unfold current_frames, commitment_for. np. by apply for_entry_safe, Hw.
Qed.

(** C21: the [expect]s, [unwrap]s and indexings the aggregate runs through are
    never hit: on every reachable state, every operation whose arguments respect
    the bounds they come with returns a value or an error, and so does the
    recomputation of the frames to resend after a restart. *)
Theorem operations_never_panic s tr op me :
  reach s tr -> op_typed op ->
  (run_op op s).1 <> Panic /\ current_frames (E:=ProtocolError) s me <> Panic.
Proof.
  intros [Hw _ _ _ _]%reach_traced Ht. split; [by apply run_op_safe|by apply current_frames_safe].
Qed.
End NoPanic.

Lemma operations_never_panic_witness :
  (run_op (OpSign sig_b1) st_signed).1 <> Panic /\ (run_op op_end st_step1).1 <> Panic.
Proof.
  refine (conj (proj1 (@operations_never_panic toy st_signed _ (OpSign sig_b1) alice reach_signed I))
            (proj1 (@operations_never_panic toy st_step1 _ op_end alice reach_step1 _))).
  split; vm_compute; discriminate.
Defined.
