(* ===== verification/StateCodec.v ===== *)
(** * The durable encoding of the aggregate (protocol/src/execution/state.rs)

    [ExecutionState::encode] and [decode]: the derived borsh layout of the
    aggregate and of what it holds (lanes, end phase, staged proposal, status,
    certificate, callout), the total bound, the field that is derived again on
    read, and the recovery check.  A [BTreeMap] or [BTreeSet] is written in
    ascending key order and collected on read, where a later duplicate wins. *)

From S2P Require Import Prelude Borsh Crypto Session Trace Negotiation Evidence Validation Receipt.
From S2P Require Import Frame Execution Invariant History Publish Fixture Consistency Canonical NoPanic.

Unset Program Cases.

(** ** Layout *)

(** [SharedStateBytes] and [LocalStateBytes]: the writer is the derived one, the
    reader bounds the length. *)
Program Definition c_capped (max : Z) : codec bytes :=
  {| enc := write_bytes u32_max; dec := read_bytes max; cwf b := zlen b <= max |}.
Next Obligation.
  intros max. codec_law. match goal with Hw : write_bytes _ _ = _ |- _ =>
    apply write_bytes_Ok in Hw as (? & ? & ->) end.
  apply (read_bytes_write max). apply write_bytes_Ok. done.
Qed.

Definition c_direct_entry : codec DirectEntry :=
  c_iso (c_pair c_u64 (c_pair (c_bytes MAX_DIRECT_CONTROL_BYTES) (c_option c_range)))
    (fun e => (d_seq e, (d_msg e, d_range e))) (fun p => MkDirectEntry p.1 p.2.1 p.2.2)
    (fun e => match e with MkDirectEntry _ _ _ => eq_refl end).

Definition c_lane : codec DirectLane :=
  c_iso (c_pair c_u64 (c_pair (c_vec MAX_DIRECT_QUEUE c_direct_entry) c_u64))
    (fun l => (last_queued l, (queue l, last_applied l))) (fun p => MkLane p.1 p.2.1 p.2.2)
    (fun l => match l with MkLane _ _ _ => eq_refl end).

(** [BTreeMap<PeerId, V>]. *)
Definition map_rows {V} (m : gmap PeerId V) : list (PeerId * V) := sort_key fst (map_to_list m).
Definition rows_map {V} (l : list (PeerId * V)) : gmap PeerId V := list_to_map (reverse l).

Lemma rows_map_rows {V} (m : gmap PeerId V) : rows_map (map_rows m) = m.
Proof.
  unfold rows_map, map_rows. rewrite <- (list_to_map_to_list m) at 2. apply list_to_map_proper.
  - rewrite reverse_Permutation, sort_key_Permutation. apply NoDup_fst_map_to_list.
  - by rewrite reverse_Permutation, sort_key_Permutation.
Qed.

Definition c_map {V} (c : codec V) : codec (gmap PeerId V) :=
  c_iso (c_vec u32_max (c_pair c_id c)) map_rows rows_map rows_map_rows.

(** [BTreeSet<PeerId>]. *)
Definition set_rows (s : gset PeerId) : list PeerId := sort_key id (elements s).

Lemma rows_set_rows (s : gset PeerId) : list_to_set (set_rows s) = s.
Proof. unfold set_rows. rewrite sort_key_Permutation. apply list_to_set_elements_L. Qed.

Definition c_set : codec (gset PeerId) := c_iso (c_vec u32_max c_id) set_rows list_to_set rows_set_rows.

Program Definition c_end_phase : codec EndPhase :=
  {| enc p := match p with
              | Open => variant 0 (c_raw 0) []
              | Ending u => variant 1 c_set u
              | Ended u => variant 2 c_set u
              end;
     dec bs := let? (tag, rest) := read_uint 1 bs in
               match tag with
               | 0 => rd_map (fun _ => Open) (dec (c_raw 0) rest)
               | 1 => rd_map Ending (dec c_set rest)
               | 2 => rd_map Ended (dec c_set rest)
               | _ => Err InvalidData
               end;
     cwf p := match p with Open => cwf (c_raw 0) [] | Ending u | Ended u => cwf c_set u end |}.
Next Obligation. enum_law. Qed.

Definition c_step_sig : codec StepSig :=
  c_iso (c_pair c_u64 (c_arr 48)) (fun s => (sig_step s, sig s)) (fun p => MkStepSig p.1 p.2)
    (fun s => match s with MkStepSig _ _ => eq_refl end).
Definition c_participant_sig : codec ParticipantStepSignature :=
  c_iso (c_pair c_id c_step_sig) (fun s => (participant s, signature s)) (fun p => MkPSig p.1 p.2)
    (fun s => match s with MkPSig _ _ => eq_refl end).

Definition c_callout : codec OpenCallout :=
  c_iso (c_pair c_u64 (c_pair c_u32 (c_bytes MAX_CALLOUT_CONTEXT_BYTES)))
    (fun c => (callout_id_ c, (callout_index c, context c))) (fun p => MkCallout p.1 p.2.1 p.2.2)
    (fun c => match c with MkCallout _ _ _ => eq_refl end).

Definition c_certificate : codec StepCertificate :=
  c_iso (c_pair c_commitment c_agreement) (fun c => (commitment c, cert_agreement c))
    (fun p => MkCertificate p.1 p.2) (fun c => match c with MkCertificate _ _ => eq_refl end).

Definition c_outgoing : codec (list bytes) := c_vec u32_max (c_bytes u32_max).

Section StateCodec.
Context `{Crypto}.

Definition c_binding : codec ExecutionBinding :=
  c_iso c_activation activation MkBinding (fun b => match b with MkBinding _ => eq_refl end).

Program Definition c_status : codec ExecutionStatus :=
  {| enc s := match s with
              | Activating => variant 0 (c_raw 0) []
              | Active => variant 1 (c_raw 0) []
              | Certified o => variant 2 c_outcome o
              | Completed o r => variant 3 (c_pair c_outcome c_id) (o, r)
              | Stopped c => variant 4 c_cause c
              | StoppedPublished c r => variant 5 (c_pair c_cause c_id) (c, r)
              end;
     dec bs := let? (tag, rest) := read_uint 1 bs in
               match tag with
               | 0 => rd_map (fun _ => Activating) (dec (c_raw 0) rest)
               | 1 => rd_map (fun _ => Active) (dec (c_raw 0) rest)
               | 2 => rd_map Certified (dec c_outcome rest)
               | 3 => rd_map (fun p => Completed p.1 p.2) (dec (c_pair c_outcome c_id) rest)
               | 4 => rd_map Stopped (dec c_cause rest)
               | 5 => rd_map (fun p => StoppedPublished p.1 p.2) (dec (c_pair c_cause c_id) rest)
               | _ => Err InvalidData
               end;
     cwf s := match s with
              | Activating | Active => cwf (c_raw 0) []
              | Certified o => cwf c_outcome o
              | Completed o r => cwf (c_pair c_outcome c_id) (o, r)
              | Stopped c => cwf c_cause c
              | StoppedPublished c r => cwf (c_pair c_cause c_id) (c, r)
              end |}.
Next Obligation. enum_law. Qed.

Definition c_proposal : codec SharedProposal :=
  c_iso (c_pair c_entry (c_pair (c_capped MAX_SHARED_STATE_BYTES) (c_pair (c_capped MAX_LOCAL_STATE_BYTES)
           (c_pair c_outgoing (c_pair (c_vec u32_max (c_pair c_u32 c_effect)) (c_pair c_u64
           (c_pair c_status (c_pair (c_option c_callout) (c_vec u32_max c_participant_sig)))))))))
    (fun p => (entry p, (pr_shared_state p, (pr_local_state p, (pr_outgoing p, (pr_effects p,
                (pr_event_position p, (pr_status p, (pr_callout p, signatures p)))))))))
    (fun q => MkProposal q.1 q.2.1 q.2.2.1 q.2.2.2.1 q.2.2.2.2.1 q.2.2.2.2.2.1 q.2.2.2.2.2.2.1
                q.2.2.2.2.2.2.2.1 q.2.2.2.2.2.2.2.2)
    (fun p => match p with MkProposal _ _ _ _ _ _ _ _ _ => eq_refl end).

(** The persisted fields in declaration order; [receipt_overhead] is skipped. *)
Definition state_fields : Type :=
  (ExecId * (ExecutionBinding * (PeerId * (ExecutionStatus * (Z * (Z * (Z * (Z * (StateHash * (Z *
   (option StepCertificate * (EndPhase * (gmap PeerId DirectLane * (list bytes * (bytes * (bytes *
   (option SharedProposal * option OpenCallout)))))))))))))))))%type.
Definition c_state_fields : codec state_fields :=
  c_pair c_id (c_pair c_binding (c_pair c_id (c_pair c_status (c_pair c_u64 (c_pair c_u64 (c_pair c_u64
   (c_pair c_u64 (c_pair c_id (c_pair c_id (c_pair (c_option c_certificate) (c_pair c_end_phase
   (c_pair (c_map c_lane) (c_pair c_outgoing (c_pair (c_capped MAX_SHARED_STATE_BYTES)
   (c_pair (c_capped MAX_LOCAL_STATE_BYTES) (c_pair (c_option c_proposal) (c_option c_callout))))))))))))))))).
Definition fields_of (s : ExecutionState) : state_fields :=
  (execution_id s, (binding s, (producer s, (status s, (version s, (event_position s, (agreed_step s,
   (trace_bytes s, (agreed_state s, (agreed_link s, (last_certificate s, (end_phase s, (direct s,
   (outgoing s, (shared_state s, (local_state s, (proposal s, callout s))))))))))))))))).
(** [#[borsh(skip)]] reads the default, 0. *)
Definition of_fields (p : state_fields) : ExecutionState :=
  let '(id, (b, (pr, (st, (v, (pos, (step, (tb, (ags, (agl, (lc, (ep, (d, (out, (sh, (lo, (pp, co)))))))))))))))))
    := p in MkState id b pr st v pos step tb 0 ags agl lc ep d out sh lo pp co.

(** ** [encode] and [decode] *)

Definition encode (s : ExecutionState) : result ProtocolError bytes :=
  let? bs := map_err Serialization (to_vec c_state_fields (fields_of s)) in
  ensure_encoded "execution state" (zlen bs) MAX_EXECUTION_STATE_BYTES ;;?
  Ok bs.

Definition decode (bs : bytes) : result ProtocolError ExecutionState :=
  ensure_encoded "execution state" (zlen bs) MAX_EXECUTION_STATE_BYTES ;;?
  let? p := map_err Deserialization (from_slice c_state_fields bs) in
  let s := of_fields p in
  let? overhead := reserved_overhead (binding s) in
  let s := set_receipt_overhead overhead s in
  validate_recovered s ;;?
  Ok s.
End StateCodec.

(** ** Encoded sizes *)

(** [a] has an encoding of at most [n] bytes. *)
Definition sized {A} (c : codec A) (a : A) (n : Z) : Prop :=
  exists m, object_length c a = Ok m /\ m <= n.

Lemma sized_le {A} (c : codec A) a m n : sized c a m -> m <= n -> sized c a n.
Proof. intros (k & Hk & ?) ?. exists k. split; [done|lia]. Qed.
Lemma sized_uint n z : sized (c_uint n) z (Z.of_nat n).
Proof. exists (Z.of_nat n). split; [apply ol_uint|lia]. Qed.
Lemma sized_id z : sized c_id z 32.
Proof. exists 32. split; [apply ol_id|lia]. Qed.
Lemma sized_pair {A B} (c1 : codec A) (c2 : codec B) p n1 n2 :
  sized c1 p.1 n1 -> sized c2 p.2 n2 -> sized (c_pair c1 c2) p (n1 + n2).
Proof. intros (m1 & H1 & ?) (m2 & H2 & ?). exists (m1 + m2). split; [apply ol_pair; eauto|lia]. Qed.
Lemma sized_iso {A B} (c : codec A) (to : B -> A) back Hb b n :
  sized c (to b) n -> sized (c_iso c to back Hb) b n.
Proof. done. Qed.
Lemma sized_bytes max b n : zlen b <= max -> zlen b <= n -> n <= u32_max -> sized (c_bytes max) b (4 + n).
Proof. intros ???. exists (4 + zlen b). split; [apply ol_bytes; split_and!; [done|lia|done]|lia]. Qed.
Lemma sized_capped max b n : zlen b <= n -> n <= u32_max -> sized (c_capped max) b (4 + n).
Proof. intros ??. exact (sized_bytes u32_max b n ltac:(lia) ltac:(done) ltac:(done)). Qed.
Lemma sized_option {A} (c : codec A) o n :
  0 <= n -> (forall a, o = Some a -> sized c a n) -> sized (c_option c) o (1 + n).
Proof.
  destruct o as [a|]; intros Hn Ha; [|exists 1; split; [done|lia]].
  destruct (Ha a eq_refl) as (m & Hm & ?). exists (1 + m). split; [apply ol_some; eauto|lia].
Qed.
Lemma sized_vec {A} max (c : codec A) l n k :
  Forall (fun a => sized c a n) l -> zlen l <= k -> k <= max -> k <= u32_max -> 0 <= n ->
  sized (c_vec max c) l (4 + k * n).
Proof.
  intros Hf Hk ???. enough (exists m, items_length c l = Ok m /\ m <= zlen l * n) as (m & Hm & ?).
  { exists (4 + m). split; [apply ol_vec; split_and!; [lia|lia|eauto]|nia]. }
  clear Hk. induction Hf as [|a l (m1 & E1 & ?) Hf (m2 & E2 & ?)]; [by exists 0|].
  exists (m1 + m2). split; [apply items_length_cons; eauto|]. rewrite zlen_cons. lia.
Qed.
Lemma sized_variant {A} tag (c : codec A) a n :
  sized c a n -> exists m, rmap zlen (variant tag c a) = Ok m /\ m <= 1 + n.
Proof. intros (m & Hm & ?). exists (1 + m). split; [apply ol_variant; eauto|lia]. Qed.

Create HintDb sized.
#[export] Hint Resolve sized_uint sized_id : sized.

Section Durable.
Context `{Crypto}.

(** ** What the types of the fields guarantee *)

Definition callout_fits (o : option OpenCallout) : Prop :=
  cwf (c_option c_callout) o /\ forall c, o = Some c -> zlen (context c) <= MAX_CALLOUT_CONTEXT_BYTES.

Record proposal_ranged (p : SharedProposal) : Prop := {
  pg_entry : cwf c_entry (entry p);
  pg_shared : zlen (pr_shared_state p) <= MAX_SHARED_STATE_BYTES;
  pg_local : zlen (pr_local_state p) <= MAX_LOCAL_STATE_BYTES;
  pg_effects : Forall (cwf (c_pair c_u32 c_effect)) (pr_effects p);
  pg_position : cwf c_u64 (pr_event_position p);
  pg_status : cwf c_status (pr_status p);
  pg_callout : callout_fits (pr_callout p);
  pg_signatures : Forall (cwf c_participant_sig) (signatures p) }.

Record ranged (s : ExecutionState) : Prop := {
  rg_id : cwf c_id (execution_id s);
  rg_binding : cwf c_activation (activation (binding s));
  rg_producer : cwf c_id (producer s);
  rg_status : cwf c_status (status s);
  rg_version : cwf c_u64 (version s);
  rg_position : cwf c_u64 (event_position s);
  rg_step : cwf c_u64 (agreed_step s);
  rg_bytes : cwf c_u64 (trace_bytes s);
  rg_state : cwf c_id (agreed_state s);
  rg_link : cwf c_id (agreed_link s);
  rg_cert : cwf (c_option c_certificate) (last_certificate s);
  rg_end : cwf c_end_phase (end_phase s);
  rg_direct : map_Forall (fun p l => cwf c_id p /\ cwf c_lane l) (direct s);
  rg_shared : zlen (shared_state s) <= MAX_SHARED_STATE_BYTES;
  rg_local : zlen (local_state s) <= MAX_LOCAL_STATE_BYTES;
  rg_proposal : forall p, proposal s = Some p -> proposal_ranged p;
  rg_callout : callout_fits (callout s) }.

Lemma cwf_map_rows {V} (c : codec V) (m : gmap PeerId V) :
  cwf (c_map c) m <-> map_Forall (fun p v => cwf c_id p /\ cwf c v) m.
Proof.
  change (Forall (fun x => cwf c_id x.1 /\ cwf c x.2) (map_rows m) <->
          map_Forall (fun p v => cwf c_id p /\ cwf c v) m).
  unfold map_rows. rewrite sort_key_Permutation, map_Forall_to_list.
  split; intros Hf; (eapply Forall_impl; [exact Hf|]); by intros [].
Qed.

Lemma cwf_set_rows (u : gset PeerId) : cwf c_set u <-> forall p, p ∈ u -> cwf c_id p.
Proof.
  change (Forall (cwf c_id) (set_rows u) <-> forall p, p ∈ u -> cwf c_id p).
  unfold set_rows. rewrite sort_key_Permutation, Forall_forall. by setoid_rewrite elem_of_elements.
Qed.

Lemma outgoing_cwf (l : list bytes) : cwf c_outgoing l.
Proof. apply Forall_true. done. Qed.

Lemma proposal_cwf p : proposal_ranged p -> cwf c_proposal p.
Proof.
  intros [P1 P2 P3 P4 P5 P6 [P7 _] P8].
  exact (conj P1 (conj P2 (conj P3 (conj (outgoing_cwf _) (conj P4 (conj P5 (conj P6 (conj P7 P8)))))))).
Qed.

Lemma state_cwf s : ranged s -> cwf c_state_fields (fields_of s).
Proof.
  intros [R1 R2 R3 R4 R5 R6 R7 R8 R9 R10 R11 R12 Hd R14 R15 Hp [R17 _]].
  apply (cwf_map_rows c_lane) in Hd.
  assert (cwf (c_option c_proposal) (proposal s)) as Hp'.
  { destruct (proposal s) as [p|]; [|exact I]. exact (proposal_cwf p (Hp p eq_refl)). }
  exact (conj R1 (conj R2 (conj R3 (conj R4 (conj R5 (conj R6 (conj R7 (conj R8 (conj R9 (conj R10 (conj R11
    (conj R12 (conj Hd (conj (outgoing_cwf _) (conj R14 (conj R15 (conj Hp' R17))))))))))))))))).
Qed.

(** Reading back what was written returns the aggregate. *)
Lemma decode_encode s bs : wf s -> ranged s -> encode s = Ok bs -> decode bs = Ok s.
Proof.
  intros Hw Hr He. unfold encode in He. apply rbind_Ok in He as (b & Hb & He).
  apply rbind_Ok in He as ([] & Hn & [= <-]). apply map_err_Ok in Hb.
  unfold decode. rewrite Hn. cbn [rbind].
  rewrite (from_slice_to_vec _ _ _ (state_cwf s Hr) Hb). cbn [map_err rbind].
  cbn [of_fields fields_of binding]. rewrite (wf_overhead s Hw). cbn [rbind].
  match goal with |- context [validate_recovered ?s1] => assert (s1 = s) as -> by (by destruct s) end.
  by rewrite (wf_validate s Hw).
Qed.

(** ** The total bound is enough *)

Lemma outgoing_sized out :
  validate_outgoing out = Ok tt -> sized c_outgoing out (4 + 16 * (4 + 65536)).
Proof.
  intros [Hn Hf]%validate_outgoing_Ok. unfold MAX_OUTGOING_MESSAGES, MAX_EFFECT_PAYLOAD_BYTES, u32_max in *.
  apply sized_vec; try (unfold u32_max; lia). eapply Forall_impl; [exact Hf|]. intros m Hm.
  cbv beta in Hm. apply sized_bytes; unfold u32_max; lia.
Qed.

Lemma callout_sized o : callout_fits o -> sized (c_option c_callout) o (1 + (8 + (4 + (4 + 65536)))).
Proof.
  intros [_ Hc]. apply sized_option; [lia|]. intros c Ho. specialize (Hc c Ho).
  unfold MAX_CALLOUT_CONTEXT_BYTES in Hc. apply sized_pair; [apply (sized_uint 8)|].
  apply sized_pair; [apply (sized_uint 4)|]. apply sized_bytes; unfold MAX_CALLOUT_CONTEXT_BYTES, u32_max; simpl; lia.
Qed.

Lemma commitment_sized k : cwf c_commitment k -> sized c_commitment k 192.
Proof.
  intros (Hd & _). exists 192. split; [|lia]. apply ol_commitment. unfold zlen. cbn in Hd. lia.
Qed.

(** Both statuses of an aggregate passed [validate_binding]. *)
Lemma status_sized st b c :
  cwf c_status st -> status_validate_binding st b c = Ok tt -> sized c_status st 131200.
Proof.
  assert (forall o, cwf c_outcome o -> sized c_outcome o (4 + 65536 + (4 + 65536))) as Ho.
  { intros o [_ Hm]. unfold outcome_new, validate_borsh, validate_json in Hm. inv_ok.
    unfold MAX_TERMINAL_OUTCOME_BYTES in *.
    apply (sized_pair (c_bytes MAX_TERMINAL_OUTCOME_BYTES) (c_bytes MAX_TERMINAL_OUTCOME_BYTES)
      (borsh_bytes o, json_bytes o)); apply sized_bytes;
      unfold MAX_TERMINAL_OUTCOME_BYTES, u32_max; simpl in *; lia. }
  assert (forall x, cause_validate x = Ok tt -> sized c_cause x 5000) as Hx.
  { intros x [Hl Hr]%ol_cause. eexists. split; [exact Hl|]. unfold MAX_TERMINAL_REASON_BYTES in Hr.
    destruct x; simpl in *; unfold abort_bytes, shared_bytes, cursor_bytes; lia. }
  intros Hc Hv.
  assert (forall A (c : codec A) tag a n, sized c a n -> 1 + n <= 131200 ->
            exists m, rmap zlen (variant tag c a) = Ok m /\ m <= 131200) as Hvar.
  { intros A ca tag a n Hs Hn. destruct (sized_variant tag ca a n Hs) as (m & Hm & ?). exists m. split; [done|lia]. }
  destruct st as [| |o|o r|x|x r]; unfold sized; cbn [cwf c_status status_validate_binding] in *.
  - by eapply (Hvar _ (c_raw 0) _ _ 0); [exists 0|].
  - by eapply (Hvar _ (c_raw 0) _ _ 0); [exists 0|].
  - eapply Hvar; [by apply Ho|lia].
  - destruct Hc. eapply Hvar; [apply sized_pair; [by apply Ho|apply sized_id]|lia].
  - inv_ok. match goal with u : unit |- _ => destruct u end. eapply Hvar; [by apply Hx|lia].
  - inv_ok. repeat match goal with u : unit |- _ => destruct u end.
    eapply Hvar; [apply sized_pair; [by apply Hx|apply sized_id]|lia].
Qed.

Lemma certificate_sized s cert :
  wf s -> ranged s -> last_certificate s = Some cert -> sized c_certificate cert (192 + (48 + (4 + 8))).
Proof.
  intros Hw Hr Hc. pose proof (rf_cert s (wf_recovered s Hw)) as Hv. unfold check_last_certificate in Hv.
  rewrite Hc in Hv. destruct (_ && _); [|done].
  destruct (certificate_bitmap cert _ (wf_binding s Hw) Hv) as (_ & _ & _ & Hl & _).
  pose proof (bitmap_small _ (wf_binding s Hw)). pose proof (rg_cert s Hr) as Hg. rewrite Hc in Hg. destruct Hg as [Hk _].
  apply sized_pair; [by apply commitment_sized|].
  apply sized_pair; [exists 48; split; [apply (ol_arr 48)|lia]|].
  apply sized_bytes; unfold zlen, u32_max; simpl; lia.
Qed.

Lemma peer_set_sized s (u : gset PeerId) :
  wf s -> (forall p, p ∈ u -> remote_participant s p = true) -> sized c_set u (4 + 64 * 32).
Proof.
  intros Hw Hu. apply (sized_iso (c_vec u32_max c_id)). apply sized_vec; try (unfold u32_max; lia).
  - apply Forall_true. intros x. apply sized_id.
  - unfold set_rows, zlen. rewrite sort_key_Permutation.
    change (length (elements u)) with (size u).
    pose proof (binding_size _ (wf_binding s Hw)) as Hsz. rewrite <- zlen_participants in Hsz.
    unfold zlen, MAX_PARTICIPANTS in Hsz.
    assert (size u <= length (participants (binding s)))%nat; [|lia].
    transitivity (size (list_to_set (participants (binding s)) : gset Z)).
    + apply subseteq_size. intros p Hp. apply elem_of_list_to_set, is_participant_elem.
      specialize (Hu p Hp). unfold remote_participant in Hu. by inv_ok.
    + by rewrite size_list_to_set by (apply participants_NoDup, Hw).
Qed.

Lemma end_sized s : wf s -> sized c_end_phase (end_phase s) (1 + (4 + 64 * 32)).
Proof.
  intros Hw. pose proof (proj1 (validate_end_Ok s) (rf_end s (wf_recovered s Hw))) as He.
  unfold sized. destruct (end_phase s) as [|u|u].
  - exists 1. split; [done|lia].
  - destruct He as (_ & _ & He). apply sized_variant. by apply (peer_set_sized s).
  - destruct He as (_ & He). apply sized_variant. by apply (peer_set_sized s).
Qed.

Lemma lanes_sized s :
  wf s -> sized (c_map c_lane) (direct s) (4 + 64 * (32 + (8 + ((4 + 8 * (8 + ((4 + 2048) + (1 + 48)))) + 8)))).
Proof.
  intros Hw. apply (sized_iso (c_vec u32_max (c_pair c_id c_lane))).
  pose proof (rf_count s (wf_recovered s Hw)) as Hn. unfold MAX_PARTICIPANTS in Hn.
  apply sized_vec; try (unfold u32_max; lia).
  2:{ unfold map_rows, zlen. rewrite sort_key_Permutation, length_map_to_list. lia. }
  unfold map_rows. rewrite sort_key_Permutation. apply Forall_forall. intros [p l] Hl%elem_of_map_to_list.
  destruct (wf_lanes s Hw p l Hl) as (_ & Hq & _ & _ & Hc). unfold MAX_DIRECT_QUEUE in Hq.
  apply sized_pair; [apply sized_id|]. apply sized_pair; [apply (sized_uint 8)|].
  apply sized_pair; [|apply (sized_uint 8)]. apply sized_vec; try (unfold MAX_DIRECT_QUEUE, u32_max; simpl; lia).
  apply Forall_lookup. intros i e He. destruct (Hc i e He) as (_ & _ & (_ & Hf & _)%check_effect_budget_Ok).
  apply Forall_singleton in Hf as [Hp _]. cbn [validate_effect_payload] in Hp. inv_ok.
  match goal with Hm : ensure_payload _ _ _ = Ok _ |- _ => apply ensure_payload_Ok in Hm end.
  unfold MAX_DIRECT_CONTROL_BYTES in *.
  apply sized_pair; [apply (sized_uint 8)|]. apply sized_pair.
  - apply sized_bytes; unfold MAX_DIRECT_CONTROL_BYTES, u32_max; simpl; lia.
  - apply sized_option; [lia|]. intros r _.
    apply (sized_le _ _ (32 + (8 + 8))); [|lia]. apply (sized_iso (c_pair c_id (c_pair c_u64 c_u64))).
    apply sized_pair; [apply sized_id|]. apply sized_pair; apply (sized_uint 8).
Qed.

Lemma effects_sized (l : list (Z * Effect)) :
  validate_effects l = Ok tt -> sized (c_vec u32_max (c_pair c_u32 c_effect)) l (4 * 1024 * 1024 + 128 * 4).
Proof.
  intros Hv. unfold validate_effects in Hv. inv_ok. apply check_effect_budget_Ok in Hv as (Hn & Hf & Hs).
  unfold MAX_EFFECTS, MAX_EFFECT_BYTES in *. unfold zlen in Hn. rewrite length_map in Hn.
  exists (4 + (effects_size (map snd l) + 4 * zlen l)). split; [|unfold zlen; lia].
  apply ol_vec. split_and!; [unfold zlen, u32_max; lia|unfold zlen, u32_max; lia|]. eexists. split; [|done].
  clear -Hf. induction l as [|[i e] l IH]; [done|]. cbn [map snd] in Hf. apply Forall_cons in Hf as [[_ He] Hf].
  apply items_length_cons. exists (4 + effect_size e), (effects_size (map snd l) + 4 * zlen l).
  split_and!; [|by apply IH|rewrite zlen_cons; simpl; lia].
  apply ol_pair. exists 4, (effect_size e). split_and!; [apply (ol_uint 4)|exact He|done].
Qed.

Definition IMAGES : Z := (4 + 4 * 1024 * 1024) + (4 + 4 * 1024 * 1024).

Lemma images_sized sh lo :
  zlen sh <= MAX_SHARED_STATE_BYTES -> zlen lo <= MAX_LOCAL_STATE_BYTES ->
  sized (c_capped MAX_SHARED_STATE_BYTES) sh (4 + 4 * 1024 * 1024) /\
  sized (c_capped MAX_LOCAL_STATE_BYTES) lo (4 + 4 * 1024 * 1024).
Proof.
  unfold MAX_SHARED_STATE_BYTES, MAX_LOCAL_STATE_BYTES.
  split; apply sized_capped; unfold u32_max; lia.
Qed.

Lemma proposal_sized s p :
  wf s -> ranged s -> proposal s = Some p -> sized c_proposal p (IMAGES + 6000000).
Proof.
  intros Hw Hr Hp. destruct (wf_pending s p Hw Hp) as [_ Hc].
  apply check_pending_Ok in Hc as (_ & _ & Heff & Hv & Hout & _ & _).
  unfold validate_proposal in Hv. apply rbind_Ok in Hv as (k & Hst & Hret).
  apply validate_staged_Ok in Hst. apply validate_retained_Ok in Hret as (Hsig & _ & _); [|apply Hw].
  pose proof (binding_size _ (wf_binding s Hw)) as Hsz. unfold MAX_PARTICIPANTS in Hsz.
  destruct (sf_advance _ _ _ _ _ Hst) as (c' & _ & Hsv).
  pose proof (sf_entry _ _ _ _ _ Hst) as He. unfold validate_shared_entry in He.
  apply rbind_Ok in He as ([] & (_ & n & Hn & Hle)%validate_trace_entry_Ok & _).
  unfold MAX_TRACE_ENTRY_BYTES in Hle.
  destruct (rg_proposal s Hr p Hp) as [P1 P2 P3 P4 P5 P6 P7 P8].
  destruct (images_sized _ _ P2 P3) as [Hsh Hlo].
  eapply sized_le; [apply sized_iso; apply sized_pair; [exists n; split; [exact Hn|exact Hle]|];
    apply sized_pair; [exact Hsh|]; apply sized_pair; [exact Hlo|];
    apply sized_pair; [apply outgoing_sized, Hout|]; apply sized_pair; [apply effects_sized, Heff|];
    apply sized_pair; [apply (sized_uint 8)|]; apply sized_pair; [eapply status_sized; [exact P6|exact Hsv]|];
    apply sized_pair; [apply callout_sized, P7|];
    apply (sized_vec u32_max c_participant_sig _ (32 + (8 + 48)) 64)|unfold IMAGES; lia].
  - apply Forall_true. intros sg. apply sized_pair; [apply sized_id|]. apply sized_pair; [apply (sized_uint 8)|].
    exists 48. split; [apply (ol_arr 48)|lia].
  - simpl. lia.
  - unfold u32_max. lia.
  - unfold u32_max. lia.
  - lia.
Qed.

Lemma state_sized s : wf s -> ranged s -> sized c_state_fields (fields_of s) MAX_EXECUTION_STATE_BYTES.
Proof.
  intros Hw Hr. destruct (reserved_overhead_Ok _ _ (wf_overhead s Hw)) as (na & Hna & _ & Hov & _ & _).
  pose proof (rf_bytes s (wf_recovered s Hw)) as Hb. pose proof (wf_bytes s Hw).
  unfold artifact_base, MAX_RECEIPT_BYTES, MAX_TERMINAL_OUTCOME_BYTES in *.
  match type of Hov with context [zlen ?l] => pose proof (zlen_nonneg l) end.
  destruct (images_sized _ _ (rg_shared s Hr) (rg_local s Hr)) as [Hsh Hlo].
  unfold MAX_EXECUTION_STATE_BYTES.
  eapply sized_le; [
    apply sized_pair; [apply sized_id|]; apply sized_pair; [exists na; split; [exact Hna|reflexivity]|];
    apply sized_pair; [apply sized_id|];
    apply sized_pair; [eapply status_sized; [apply (rg_status s Hr)|apply (rf_status s (wf_recovered s Hw))]|];
    do 4 (apply sized_pair; [apply (sized_uint 8)|]); do 2 (apply sized_pair; [apply sized_id|]);
    apply sized_pair; [apply sized_option; [|intros cert Hc; by eapply certificate_sized]|];
    [|apply sized_pair; [by apply end_sized|]; apply sized_pair; [by apply lanes_sized|];
      apply sized_pair; [apply outgoing_sized, (rf_outgoing s (wf_recovered s Hw))|];
      apply sized_pair; [exact Hsh|]; apply sized_pair; [exact Hlo|];
      apply sized_pair; [apply sized_option; [|intros p Hp; by eapply proposal_sized]|
                         apply callout_sized, (rg_callout s Hr)]]|];
  unfold IMAGES; try lia.
Qed.

Lemma encode_total s : wf s -> ranged s -> exists bs, encode s = Ok bs.
Proof.
  intros Hw Hr. destruct (state_sized s Hw Hr) as (n & Hn & Hle).
  apply object_length_Ok in Hn as (bs & Hbs & <-). exists bs. unfold encode, to_vec. rewrite Hbs.
  cbn [map_err rbind]. unfold ensure_encoded. by rewrite (proj2 (Z.ltb_ge _ _)).
Qed.
End Durable.
