(* ===== verification/Ranges.v ===== *)
(** * Field ranges (protocol/src/execution/state.rs)

    The Rust types bound every field of the aggregate: integers have a width, a
    digest has 32 bytes, a state image at most 4 MiB.  [ranged] says so of a model
    state; here it is an invariant of the operations, given arguments that come
    with their types' bounds ([op_ranged]).  With it, the durable encoding of
    every live aggregate exists, fits its bound and reads back unchanged. *)

From S2P Require Import Prelude Borsh Crypto Session Trace Negotiation Evidence Validation Receipt.
From S2P Require Import Frame Execution Invariant History Publish Fixture Consistency Canonical Artifacts NoPanic StateCodec.

Section Ranges.
Context `{Crypto}.
(** Digests are 32 bytes and aggregated signatures 48. *)
Context (digest_range : forall bs, 0 <= blake3 bs < 256 ^ 32).
Context (aggregate_range : forall l z, blst_aggregate l = inr z -> 0 <= z < 256 ^ 48).

(** ** Arguments *)

Definition request_ranged (r : CalloutRequest) : Prop :=
  cwf c_u32 (req_index r) /\ zlen (req_context r) <= MAX_CALLOUT_CONTEXT_BYTES.

Definition op_ranged (op : Op) : Prop :=
  match op with
  | OpDispatch e shared local effects o _ req =>
      (forall ev, trace_event e = Ok ev -> cwf c_step_event ev) /\
      zlen shared <= MAX_SHARED_STATE_BYTES /\ zlen local <= MAX_LOCAL_STATE_BYTES /\
      Forall (cwf c_effect) effects /\ (forall x, o = Some x -> cwf c_outcome x) /\
      (forall r, req = Some r -> request_ranged r)
  | OpSign sg => cwf c_participant_sig sg
  | OpCertify cert => cwf c_certificate cert
  | OpStop o => cwf c_abort o
  | OpPublish a => cwf c_id (receipt_id a)
  | OpRecordDirect from seq => cwf c_id from /\ cwf c_u64 seq
  | _ => True
  end.

(** Aggregates of a host whose inputs come with their bounds, and their logs. *)
Inductive live : ExecutionState -> list TraceEntry -> Prop :=
| live_new id a prod shared local s :
    cwf c_id id -> cwf c_activation a -> cwf c_id prod ->
    zlen shared <= MAX_SHARED_STATE_BYTES -> zlen local <= MAX_LOCAL_STATE_BYTES ->
    state_new id a prod shared local = Ok s -> live s []
| live_op s tr op r s' :
    live s tr -> op_ok op -> op_ranged op -> run_op op s = (Ok r, s') -> live s' (tr ++ logged r).

Lemma live_reach s tr : live s tr -> reach s tr.
Proof. induction 1; [by eapply reach_new|by eapply reach_op]. Qed.

(** ** Small facts *)

Lemma u64_ranged z : 0 <= z <= u64_max -> cwf c_u64 z.
Proof. unfold u64_max. change (cwf c_u64 z) with (0 <= z < 256 ^ 8). change (256 ^ 8) with (2 ^ 64). lia. Qed.
Lemma u64_range z : cwf c_u64 z -> 0 <= z <= u64_max.
Proof. unfold u64_max. change (cwf c_u64 z) with (0 <= z < 256 ^ 8). change (256 ^ 8) with (2 ^ 64). lia. Qed.
Lemma u64_next z : cwf c_u64 z -> z + 1 <= u64_max -> cwf c_u64 (z + 1).
Proof. intros Hz%u64_range ?. apply u64_ranged. lia. Qed.
Lemma digest_ranged bs : cwf c_id (blake3 bs).
Proof. apply digest_range. Qed.
Lemma start_ranged : cwf c_id CHAIN_START.
Proof. done. Qed.

Lemma octets_le_bytes n z : octets (le_bytes n z).
Proof.
  revert z. induction n as [|n IH]; intros z; [constructor|]. constructor; [|apply IH].
  pose proof (Z.mod_pos_bound z 256). lia.
Qed.

Lemma callout_id_ranged id pos : cwf c_u64 (callout_id id pos).
Proof.
  unfold callout_id. set (b := be_bytes 32 _).
  assert (octets b) as Ho by (unfold b, be_bytes; apply Forall_reverse, octets_le_bytes).
  assert (zlen (take 8 b) = 8) as Hl.
  { unfold zlen. rewrite length_take_le; [done|]. unfold b. rewrite length_be_bytes. lia. }
  pose proof (le_val_range (take 8 b) (Forall_take _ _ _ Ho)) as Hr. rewrite Hl in Hr. exact Hr.
Qed.

Lemma of_shared_ranged {E} sh h : of_shared (E:=E) sh = Ok h -> cwf c_id h.
Proof. unfold of_shared. intros Hh. inv_ok. apply digest_ranged. Qed.

Lemma participants_ranged a p :
  cwf c_activation a -> p ∈ signers_of (prepared a) -> cwf c_id p.
Proof.
  intros (_ & (Hp & _) & _) Hin. destruct Hp as (_ & (_ & Ht) & _).
  unfold signers_of in Hin. apply list_elem_of_fmap in Hin as (t & -> & Hin).
  destruct (proj1 (Forall_forall _ _) Ht t Hin) as [(_ & _ & _ & _ & Hs & _) _]. exact Hs.
Qed.

Lemma session_ranged a : cwf c_activation a -> cwf c_id (act_session_hash a).
Proof.
  intros (_ & (Hp & _) & _). destruct Hp as (_ & _ & Hp). cbn [fst snd] in Hp.
  unfold prepared_new, session_hash_of in Hp. inv_ok. unfold act_session_hash.
  match goal with Hx : _ = prepared a |- _ => rewrite <- Hx end. apply digest_ranged.
Qed.

(** ** Small steps *)

(** Keeps every field but the one the last hypothesis is about. *)
Ltac keep_fields Hr :=
  split;
  [ exact (rg_id _ Hr) | exact (rg_binding _ Hr) | exact (rg_producer _ Hr)
  | first [exact (rg_status _ Hr)|idtac] | first [exact (rg_version _ Hr)|idtac]
  | first [exact (rg_position _ Hr)|idtac] | first [exact (rg_step _ Hr)|idtac]
  | first [exact (rg_bytes _ Hr)|idtac] | first [exact (rg_state _ Hr)|idtac]
  | first [exact (rg_link _ Hr)|idtac] | first [exact (rg_cert _ Hr)|idtac]
  | first [exact (rg_end _ Hr)|idtac] | first [exact (rg_direct _ Hr)|idtac]
  | first [exact (rg_shared _ Hr)|idtac] | first [exact (rg_local _ Hr)|idtac]
  | first [exact (rg_proposal _ Hr)|idtac] | first [exact (rg_callout _ Hr)|idtac] ].

Lemma ranged_version s v : ranged s -> cwf c_u64 v -> ranged (set_version v s).
Proof. intros Hr Hv. keep_fields Hr. exact Hv. Qed.

Lemma ranged_bump s u s' : ranged s -> bump_version s = (Ok u, s') -> ranged s'.
Proof.
  intros Hr [Hle ->]%bump_version_Ok. apply ranged_version; [done|]. by apply u64_next; [apply Hr|].
Qed.

Lemma ranged_direct s m :
  ranged s -> map_Forall (fun p l => cwf c_id p /\ cwf c_lane l) m -> ranged (set_direct m s).
Proof. intros Hr Hm. keep_fields Hr. exact Hm. Qed.
Lemma ranged_outgoing s out : ranged s -> ranged (set_outgoing out s).
Proof. intros Hr. keep_fields Hr. Qed.
Lemma ranged_status s st : ranged s -> cwf c_status st -> ranged (set_status st s).
Proof. intros Hr Hst. keep_fields Hr. exact Hst. Qed.
Lemma ranged_end s ph : ranged s -> cwf c_end_phase ph -> ranged (set_end_phase ph s).
Proof. intros Hr He. keep_fields Hr. exact He. Qed.
Lemma ranged_callout s co : ranged s -> callout_fits co -> ranged (set_callout co s).
Proof. intros Hr Hc. keep_fields Hr. exact Hc. Qed.
Lemma ranged_position s z : ranged s -> cwf c_u64 z -> ranged (set_event_position z s).
Proof. intros Hr Hz. keep_fields Hr. exact Hz. Qed.
Lemma ranged_proposal s p :
  ranged s -> (forall q, p = Some q -> proposal_ranged q) -> ranged (set_proposal p s).
Proof. intros Hr Hp. keep_fields Hr. exact Hp. Qed.
Lemma ranged_images s sh lo :
  ranged s -> zlen sh <= MAX_SHARED_STATE_BYTES -> zlen lo <= MAX_LOCAL_STATE_BYTES ->
  ranged (set_local_state lo (set_shared_state sh s)).
Proof. intros Hr Hs Hl. keep_fields Hr; [exact Hs|exact Hl]. Qed.

Lemma no_callout : callout_fits None.
Proof. by split. Qed.

Lemma lane_ranged s p : ranged s -> cwf c_lane (default lane_default (direct s !! p)).
Proof.
  intros Hr. destruct (direct s !! p) as [l|] eqn:Hl; [exact (proj2 (rg_direct s Hr p l Hl))|].
  split; [done|]. split; [constructor|done].
Qed.

Lemma begin_end_ranged s : ranged s -> ranged (begin_end s).
Proof.
  intros Hr. destruct (begin_end_cases s) as [->|(_ & _ & ->)]; [done|].
  apply ranged_direct; [apply ranged_end; [done|]|].
  - apply cwf_set_rows. intros p Hp%elem_of_list_to_set%list_elem_of_filter.
    exact (participants_ranged _ p (rg_binding s Hr) (proj2 Hp)).
  - intros p l (l0 & <- & Hl)%lookup_fmap_Some. destruct (rg_direct s Hr p l0 Hl) as [Hp (H1 & _ & H3)].
    split; [exact Hp|]. split; [exact H1|]. split; [constructor|exact H3].
Qed.

(** ** Side operations *)

Lemma record_direct_ranged s from seq u s' :
  ranged s -> cwf c_id from -> cwf c_u64 seq -> record_direct from seq s = (Ok u, s') -> ranged s'.
Proof.
  intros Hr Hf Hs Ho. unfold record_direct, next_version, version_next in Ho. inv_ok.
  apply ranged_version; [|by apply u64_next; [apply Hr|]]. apply ranged_direct; [done|].
  apply map_Forall_insert_2; [|exact (rg_direct s Hr)]. split; [exact Hf|].
  destruct (lane_ranged s from Hr) as (L1 & L2 & _). exact (conj L1 (conj L2 Hs)).
Qed.

Lemma ack_direct_ranged s to seq u s' : ranged s -> ack_direct to seq s = (Ok u, s') -> ranged s'.
Proof.
  intros Hr Ho. unfold ack_direct, next_version, version_next in Ho. inv_ok.
  destruct (negb _); inv_ok; [done|].
  apply ranged_version; [|by apply u64_next; [apply Hr|]]. apply ranged_direct; [done|].
  apply map_Forall_insert_2; [|exact (rg_direct s Hr)].
  match goal with Hl : direct s !! to = Some ?l |- _ => destruct (rg_direct s Hr to l Hl) as [Ht (L1 & L2 & L3)] end.
  split; [exact Ht|]. split; [exact L1|]. split; [|exact L3].
  apply Forall_forall. intros y [_ Hx]%list_elem_of_filter. exact (proj1 (Forall_forall _ _) L2 y Hx).
Qed.

Lemma confirm_end_ranged s peer u s' : ranged s -> confirm_end peer s = (Ok u, s') -> ranged s'.
Proof.
  intros Hr Ho. unfold confirm_end in Ho. inv_ok. pose proof (rg_end s Hr) as He.
  destruct (end_phase s) as [|v|v] eqn:Hph; [by inv_ok|..]; (destruct (negb _); inv_ok; [done|]);
    (eapply ranged_bump; [|eassumption]); (apply ranged_end; [done|]);
    assert (cwf c_set (v ∖ {[peer]})) by (apply cwf_set_rows; intros p Hp; apply (proj1 (cwf_set_rows v) He); set_solver);
    case_bool_decide; try assumption; apply cwf_set_rows; set_solver.
Qed.

Lemma expire_end_ranged s u s' : ranged s -> expire_end s = (Ok u, s') -> ranged s'.
Proof.
  intros Hr Ho. unfold expire_end in Ho. inv_ok. pose proof (rg_end s Hr) as He.
  destruct (end_phase s) as [|v|v] eqn:Hph; inv_ok.
  eapply ranged_bump; [|eassumption]. by apply ranged_end.
Qed.

Lemma activate_ranged s u s' : ranged s -> activate s = (Ok u, s') -> ranged s'.
Proof.
  intros Hr Ho. unfold activate in Ho. inv_ok. eapply ranged_bump; [|eassumption]. by apply ranged_status.
Qed.

Lemma drop_head_ranged s u s' : ranged s -> drop_outgoing_head s = (Ok u, s') -> ranged s'.
Proof.
  intros Hr Ho. unfold drop_outgoing_head in Ho. inv_ok. eapply ranged_bump; [|eassumption].
  by apply ranged_outgoing.
Qed.

Lemma stop_ranged s o u s' : ranged s -> cwf c_abort o -> stop o s = (Ok u, s') -> ranged s'.
Proof.
  intros Hr Ho Hs. unfold stop in Hs. inv_ok. eapply ranged_bump; [|eassumption].
  match goal with Hst : stopped o = Ok _ |- _ => unfold stopped in Hst end. inv_ok.
  apply begin_end_ranged, ranged_status; [|exact Ho]. apply ranged_callout; [|exact no_callout].
  by apply ranged_proposal.
Qed.

Lemma publish_ranged s a u s' :
  ranged s -> cwf c_id (receipt_id a) -> publish_receipt a s = (Ok u, s') -> ranged s'.
Proof.
  intros Hr Ha Hp. unfold publish_receipt in Hp. inv_ok. eapply ranged_bump; [|eassumption].
  apply ranged_callout; [|exact no_callout]. apply ranged_status; [done|].
  match goal with Hs : published_status s a = Ok _ |- _ => unfold published_status in Hs end.
  pose proof (rg_status s Hr) as Hst.
  destruct (status s) as [| |o| |c|]; try done.
  - destruct (termination _); [|done]. inv_ok. exact (conj Hst Ha).
  - destruct (termination _); [done|]. case_bool_decide; [|done]. inv_ok. exact (conj Hst Ha).
Qed.

(** ** Dispatch *)

Lemma queue_direct_ranged s effects m m' :
  Forall (cwf c_effect) effects -> map_Forall (fun p l => cwf c_id p /\ cwf c_lane l) m ->
  queue_direct s m effects = Ok m' -> map_Forall (fun p l => cwf c_id p /\ cwf c_lane l) m'.
Proof.
  intros Hf. unfold queue_direct. apply try_fold_inv_elem. intros b e b' Hin Hb He.
  destruct e; inv_ok; try done. destruct (proj1 (Forall_forall _ _) Hf _ Hin) as (Hto & _ & Hrange).
  apply map_Forall_insert_2; [|exact Hb]. split; [exact Hto|].
  assert (cwf c_lane (default lane_default (b !! to))) as (L1 & L2 & L3).
  { destruct (b !! to) as [l|] eqn:Hl; [exact (proj2 (Hb to l Hl))|]. split; [done|]. split; [constructor|done]. }
  assert (cwf c_u64 (last_queued (default lane_default (b !! to)) + 1)) as L4 by (by apply u64_next).
  split; [exact L4|]. split; [|exact L3]. apply Forall_app. split; [exact L2|].
  apply Forall_singleton. exact (conj L4 (conj I Hrange)).
Qed.

Lemma next_callout_fits s e pos st req :
  ranged s -> (forall r, req = Some r -> request_ranged r) -> callout_fits (next_open_callout s e pos st req).
Proof.
  intros Hr Hq. unfold next_open_callout. destruct (negb _); [exact no_callout|].
  destruct req as [r|]; [|exact no_callout]. destruct (Hq r eq_refl) as [Hi Hc].
  assert (callout_fits (Some (MkCallout (callout_id (execution_id s) pos) (req_index r) (req_context r)))) as Hnew.
  { split; [exact (conj (callout_id_ranged _ _) (conj Hi I))|]. by intros c [= <-]. }
  destruct (callout s) as [c|] eqn:Hco; [|exact Hnew].
  destruct (_ && _); [|exact Hnew]. rewrite <- Hco. exact (rg_callout s Hr).
Qed.

Lemma apply_local_ranged s e pos post shared local effects lc o req r s' :
  ranged s -> Forall (cwf c_effect) effects -> zlen shared <= MAX_SHARED_STATE_BYTES ->
  zlen local <= MAX_LOCAL_STATE_BYTES -> (forall x, req = Some x -> request_ranged x) ->
  apply_local e pos post shared local effects lc o req s = (Ok r, s') -> ranged s'.
Proof.
  intros Hr Hf Hs Hl Hq Ho. unfold apply_local, install_dispatch in Ho. inv_ok.
  match goal with Hp : (pos =? _) = true |- _ => apply Z.eqb_eq in Hp as -> end.
  match goal with Hd : queue_direct _ _ _ = Ok _ |- _ =>
    pose proof (queue_direct_ranged _ _ _ _ Hf (rg_direct s Hr) Hd) as Hm end.
  apply ranged_direct; [|exact Hm]. eapply ranged_bump; [|eassumption].
  apply ranged_callout; [|by apply next_callout_fits]. apply ranged_status; [|done].
  apply ranged_outgoing, ranged_images; [|exact Hs|exact Hl]. apply ranged_position; [done|].
  by apply u64_next; [apply Hr|].
Qed.

Lemma kept_ranged effects :
  check_effect_budget effects = Ok tt -> Forall (cwf c_effect) effects ->
  Forall (cwf (c_pair c_u32 c_effect))
    (filter (fun p => is_broadcast p.2 = false) (imap (fun i e => (Z.of_nat i, e)) effects)).
Proof.
  intros (Hn & _ & _)%check_effect_budget_Ok Hf. unfold MAX_EFFECTS, zlen in Hn.
  apply Forall_forall. intros [i e] [_ (j & Hj)%list_elem_of_lookup]%list_elem_of_filter.
  rewrite list_lookup_imap in Hj. destruct (effects !! j) as [e'|] eqn:He; [|done]. simpl in Hj. simplify_eq.
  pose proof (lookup_lt_Some _ _ _ He). split; [|exact (Forall_lookup_1 _ _ _ _ Hf He)].
  change (0 <= Z.of_nat j < 2 ^ 32). lia.
Qed.

Lemma lifecycle_ranged effects lc :
  Forall (cwf c_effect) effects -> single_lifecycle_effect effects = Ok lc ->
  cwf (c_option c_step_terminal) (mbind from_effect lc).
Proof.
  intros Hf. unfold single_lifecycle_effect.
  destruct (filter _ effects) as [|e [|]] eqn:Hl; intros [= <-]; [done|].
  assert (e ∈ effects) as Hin.
  { apply (proj2 (proj1 (list_elem_of_filter (fun e => is_lifecycle e = true) effects e) ltac:(rewrite Hl; left))). }
  pose proof (proj1 (Forall_forall _ _) Hf e Hin) as He. destruct e; done.
Qed.

Lemma proposal_status_ranged b ent link k o st :
  cwf c_activation (activation b) -> cwf c_entry ent -> cwf c_id link ->
  (forall x, o = Some x -> cwf c_outcome x) ->
  for_entry (E:=ProtocolError) (session_id b) ent link = Ok k ->
  from_proposal_entry ent k o = Ok st -> cwf c_status st /\ cwf c_commitment k.
Proof.
  intros Ha He Hl Ho Hk Hst.
  assert (cwf c_commitment k) as Hkw
    by (exact (commitment_cwf digest_range _ _ _ _ Hk He (session_ranged _ Ha) Hl)).
  split; [|exact Hkw]. destruct He as [(_ & _ & _ & _ & _ & Ht & _) _].
  unfold from_proposal_entry, from_shared_entry in Hst. cbn [fst snd] in Ht.
  destruct (terminal ent) as [[out|rs|rs]|]; inv_ok.
  - by apply Ho.
  - cbn [abort_reason] in *. inv_ok. simplify_eq. split; [split; done|exact (conj Hkw Ht)].
  - cbn [abort_reason] in *. inv_ok. simplify_eq. split; [split; done|exact (conj Hkw Ht)].
  - done.
Qed.

Lemma apply_agreed_ranged s e pos post shared local effects lc o req r s' :
  ranged s -> pos = event_position s -> of_shared (E:=ProtocolError) shared = Ok post ->
  check_effect_budget effects = Ok tt -> single_lifecycle_effect effects = Ok lc ->
  op_ranged (OpDispatch e shared local effects o None req) ->
  apply_agreed e pos post shared local effects (imap (fun i e => (Z.of_nat i, e)) effects) lc o req s
    = (Ok r, s') -> ranged s'.
Proof.
  intros Hr -> Hpost Hbud Hlc (Hev & Hs & Hl & Hf & Hout & Hq) Ho. unfold apply_agreed, stage_proposal in Ho. inv_ok.
  match goal with Hp : proposal_new _ _ _ _ _ _ _ _ _ = Ok _ |- _ => apply proposal_new_Ok in Hp as (-> & _ & _) end.
  match goal with Ht : trace_event e = Ok ?ev |- _ => pose proof (Hev ev Ht) as He end.
  match goal with Hk : for_entry _ ?en _ = Ok ?k, Hst : from_proposal_entry _ _ _ = Ok ?st |- _ =>
    set (ent := en) in *; rename Hst into Hstat; rename Hk into Hkk end.
  assert (cwf c_entry ent) as Hent.
  { split; [|done]. split; [done|]. split; [exact (rg_step s Hr)|]. split; [exact He|].
    split; [exact (rg_state s Hr)|]. split; [exact (of_shared_ranged _ _ Hpost)|].
    split; [exact (lifecycle_ranged _ _ Hf Hlc)|done]. }
  destruct (proposal_status_ranged (binding s) ent _ _ _ _ (rg_binding s Hr) Hent (rg_link s Hr) Hout Hkk Hstat) as [Hst _].
  eapply ranged_bump; [|eassumption]. apply ranged_proposal.
  - apply ranged_position; [done|]. by apply u64_next; [apply Hr|].
  - intros q [= <-]. split; cbn [entry pr_shared_state pr_local_state pr_effects pr_event_position pr_status
      pr_callout signatures].
    + exact Hent.
    + exact Hs.
    + exact Hl.
    + exact (kept_ranged _ Hbud Hf).
    + exact (rg_position s Hr).
    + exact Hst.
    + by apply next_callout_fits.
    + constructor.
Qed.

Lemma apply_dispatch_ranged s e shared local effects o pid req r s' :
  ranged s -> op_ranged (OpDispatch e shared local effects o pid req) ->
  apply_dispatch e shared local effects o pid req s = (Ok r, s') -> ranged s'.
Proof.
  intros Hr Ha Ho. unfold apply_dispatch in Ho. inv_ok.
  match goal with Hi : indexed_dispatch_effects _ = Ok _ |- _ => apply indexed_dispatch_effects_Ok in Hi as -> end.
  repeat match goal with u : unit |- _ => destruct u end.
  destruct (negb (is_agreed_event e)).
  - destruct Ha as (_ & Hs & Hl & Hf & _ & Hq). exact (apply_local_ranged _ _ _ _ _ _ _ _ _ _ _ _ Hr Hf Hs Hl Hq Ho).
  - eapply apply_agreed_ranged; eauto.
Qed.

(** ** Certification *)

Lemma certified_ranged s p cert next bytes :
  wf s -> ranged s -> certifiable s p cert next bytes -> cwf c_certificate cert ->
  ranged (certified_state s p cert next bytes).
Proof.
  intros Hw Hr Hc Hcert. destruct (rg_proposal s Hr p (ce_proposal _ _ _ _ _ Hc)) as [P1 P2 P3 P4 P5 P6 P7 P8].
  pose proof (proj1 (advance_Ok _ _ _) (ce_advance _ _ _ _ _ Hc)) as (_ & _ & _ & Hu & Hnext).
  destruct (proj1 (check_receipt_budget_Ok _ _ _) (ce_budget _ _ _ _ _ Hc)) as (sz & Hsz & -> & _ & _ & Hle).
  apply certified_size_positive in Hsz. pose proof (wf_bytes s Hw).
  destruct Hcert as [Hk Ha]. pose proof Hk as (_ & _ & _ & _ & _ & Hpost & _).
  unfold certified_state. apply ranged_proposal; [|done]. apply ranged_callout; [|exact P7].
  apply begin_end_ranged, ranged_status; [|exact P6]. apply ranged_outgoing, ranged_images; [|exact P2|exact P3].
  rewrite Hnext. cbn [next_step state_hash chain_hash].
  assert (cwf c_u64 (agreed_step s + 1)) as N1 by (by apply u64_next; [apply Hr|]).
  assert (cwf c_u64 (trace_bytes s + sz)) as N2 by (apply u64_ranged; lia).
  keep_fields Hr; [exact N1|exact N2|exact Hpost|apply digest_ranged|exact (conj Hk Ha)|done].
Qed.

Lemma certify_ranged s cert c s' :
  wf s -> ranged s -> cwf c_certificate cert -> certify_step cert s = (Ok c, s') -> ranged s'.
Proof.
  intros Hw Hr Hcert (p & next & bytes & Hc & _ & Hle & ->)%certify_step_Ok.
  apply ranged_version; [by apply certified_ranged|]. by apply u64_next; [apply Hr|].
Qed.

Lemma from_signatures_ranged b k p cert :
  cwf c_commitment k -> from_signatures b k p = Ok cert -> cwf c_certificate cert.
Proof.
  intros Hk Hf. unfold from_signatures, agreement_from_signatures, bls_aggregate in Hf. inv_ok.
  match goal with x : SignerSet * list Z |- _ => destruct x as [ss sigs] end. inv_ok.
  split; [exact Hk|]. split; [|exact I]. cbn [cert_agreement fst snd].
  destruct (length sigs =? 0)%nat; inv_ok; [done|]. unfold blst_err in *.
  destruct (blst_aggregate sigs) eqn:Hb; [done|]. inv_ok. simplify_eq. exact (aggregate_range _ _ Hb).
Qed.

(** The aggregate with one more signature on its proposal. *)
Lemma signed_ranged s p sg :
  ranged s -> proposal s = Some p -> cwf c_participant_sig sg ->
  ranged (set_proposal (Some (set_signatures p (sort_key participant (signatures p ++ [sg])))) s).
Proof.
  intros Hr Hp Hsg. destruct (rg_proposal s Hr p Hp) as [P1 P2 P3 P4 P5 P6 P7 P8].
  apply ranged_proposal; [done|]. intros q [= <-].
  split; cbn; [exact P1|exact P2|exact P3|exact P4|exact P5|exact P6|exact P7|].
  rewrite sort_key_Permutation. apply Forall_app. split; [exact P8|by apply Forall_singleton].
Qed.

(** A signature that certifies does so through a certificate in range. *)
Lemma sign_certifies s sg c s' :
  wf s -> ranged s -> cwf c_participant_sig sg -> add_step_signature sg s = (Ok (Some c), s') ->
  exists s1 cert, wf s1 /\ ranged s1 /\ cwf c_certificate cert /\ certify_step cert s1 = (Ok c, s') /\
    agreed_step s1 = agreed_step s.
Proof.
  intros Hw Hr Hsg Ho. destruct (add_step_signature_Ok s sg _ s' Hw Ho)
    as (p & k & Hp & Hk & _ & Hw1 & [(? & _)|(cert & c' & [= <-] & Hf & _ & Hc)]); [done|]. cbv zeta in *.
  pose proof (rg_proposal s Hr p Hp) as Hpr. do 2 eexists. split_and!; [exact Hw1| | |exact Hc|done].
  - by apply signed_ranged.
  - eapply from_signatures_ranged; [|exact Hf]. unfold commitment_for in Hk.
    exact (commitment_cwf digest_range _ _ _ _ Hk (pg_entry p Hpr) (session_ranged _ (rg_binding s Hr)) (rg_link s Hr)).
Qed.

Lemma sign_ranged s sg r s' :
  wf s -> ranged s -> cwf c_participant_sig sg -> add_step_signature sg s = (Ok r, s') -> ranged s'.
Proof.
  intros Hw Hr Hsg Ho. destruct r as [c|].
  - destruct (sign_certifies s sg c s' Hw Hr Hsg Ho) as (s1 & cert & Hw1 & Hr1 & Hcert & Hc & _).
    by eapply certify_ranged.
  - destruct (add_step_signature_Ok s sg _ s' Hw Ho)
      as (p & k & Hp & Hk & _ & _ & [(_ & _ & Hle & ->)|(? & ? & ? & _)]); [|done].
    apply ranged_version; [by apply signed_ranged|]. by apply u64_next; [apply Hr|].
Qed.

(** ** Every operation *)

Lemma run_op_ranged op s r s' :
  wf s -> ranged s -> op_ranged op -> run_op op s = (Ok r, s') -> ranged s'.
Proof.
  intros Hw Hr Hop Ho. destruct op; apply answer_Ok in Ho as (x & Ho & _).
  - by eapply activate_ranged.
  - by eapply apply_dispatch_ranged.
  - by eapply drop_head_ranged.
  - by eapply sign_ranged.
  - by eapply certify_ranged.
  - by eapply stop_ranged.
  - by eapply publish_ranged.
  - destruct Hop. by eapply record_direct_ranged.
  - by eapply ack_direct_ranged.
  - by eapply confirm_end_ranged.
  - by eapply expire_end_ranged.
Qed.

Lemma state_new_ranged id a prod shared local s :
  cwf c_id id -> cwf c_activation a -> cwf c_id prod ->
  zlen shared <= MAX_SHARED_STATE_BYTES -> zlen local <= MAX_LOCAL_STATE_BYTES ->
  state_new id a prod shared local = Ok s -> ranged s.
Proof.
  intros Hid Ha Hp Hsh Hlo Hn. unfold state_new, genesis in Hn. inv_ok.
  match goal with Hb : binding_new a = Ok _ |- _ => apply binding_new_Ok in Hb as [Hb _]; rewrite <- Hb in Ha end.
  match goal with Hx : of_shared shared = Ok ?z |- _ => pose proof (of_shared_ranged _ _ Hx) as Hh end.
  split; cbn; try done; try assumption; exact no_callout.
Qed.

Lemma live_ranged s tr : live s tr -> ranged s.
Proof.
  induction 1 as [id a prod shared local s ? ? ? ? ? Hn|s tr op r s' Hl IH ? Hop Ho].
  - exact (state_new_ranged id a prod shared local s ltac:(eassumption) ltac:(eassumption) ltac:(eassumption)
      ltac:(eassumption) ltac:(eassumption) Hn).
  - eapply run_op_ranged; [exact (tr_wf _ _ (reach_traced _ _ (live_reach _ _ Hl)))|exact IH|exact Hop|exact Ho].
Qed.

Lemma live_wf s tr : live s tr -> wf s.
Proof. intros Hl. exact (tr_wf _ _ (reach_traced _ _ (live_reach _ _ Hl))). Qed.

Lemma live_encodes s tr : live s tr -> exists bs, encode s = Ok bs /\ decode bs = Ok s.
Proof.
  intros Hl. destruct (encode_total s (live_wf _ _ Hl) (live_ranged _ _ Hl)) as [bs Hbs].
  exists bs. split; [exact Hbs|]. exact (decode_encode s bs (live_wf _ _ Hl) (live_ranged _ _ Hl) Hbs).
Qed.
End Ranges.

(** C31: an aggregate is always durable: the encoding of every aggregate a host
    reaches exists within [MAX_EXECUTION_STATE_BYTES], and recovery decodes it to
    the same aggregate. *)
Theorem durable_state_roundtrip `{Crypto} s tr :
  (forall bs, 0 <= blake3 bs < 256 ^ 32) -> (forall l z, blst_aggregate l = inr z -> 0 <= z < 256 ^ 48) ->
  live s tr -> exists bs, encode s = Ok bs /\ decode bs = Ok s.
Proof. intros Hd Ha. exact (live_encodes Hd Ha s tr). Qed.

(** ** Example *)

Lemma toy_aggregate_range (l : list Z) z : blst_aggregate (Crypto:=toy) l = inr z -> 0 <= z < 256 ^ 48.
Proof. intros [= <-]. by apply Z.mod_pos_bound. Qed.

Lemma live_after op s tr :
  live s tr -> op_ok op -> op_ranged op -> succeeds op s -> live (after op s) (tr ++ logged (answer_of op s)).
Proof. intros Hr Ho Hg Hs. eapply live_op; [done|done|done|]. by apply succeeds_run. Qed.

Lemma op_start_ranged : op_ranged op_start.
Proof.
  split_and!.
  - intros ev [= <-]. split; [|reflexivity]. apply Forall_cons_2; [done|]. apply Forall_cons_2; done.
  - by apply Z.leb_le.
  - by apply Z.leb_le.
  - apply Forall_cons_2; done.
  - done.
  - done.
Qed.

Lemma live_active : live st_active [].
Proof.
  assert (live st_new []) as L0.
  { eapply (live_new 9 activation0 alice shared0 [4]); [done|exact activation0_cwf|done|..|exact st_new_ok];
      by apply Z.leb_le. }
  exact (live_after OpActivate _ _ L0 I I st_active_ok).
Qed.
Lemma live_staged : live st_staged [].
Proof. exact (live_after op_start _ _ live_active I op_start_ranged st_staged_ok). Qed.
Lemma live_signed : live st_signed [].
Proof. exact (live_after (OpSign sig_a1) _ _ live_staged I ltac:(done) st_signed_ok). Qed.
Lemma live_step1 : live st_step1 (take 1 trace0).
Proof. exact (live_after (OpSign sig_b1) _ _ live_signed I ltac:(done) st_step1_ok). Qed.

Lemma durable_state_roundtrip_witness : exists bs, encode st_signed = Ok bs /\ decode bs = Ok st_signed.
Proof. exact (durable_state_roundtrip st_signed [] toy_digest_range toy_aggregate_range live_signed). Defined.
