(* ===== verification/Envelope.v ===== *)
(** * Durable envelopes and column codecs (store/src/codec.rs)

    Every blob the store writes is sealed: magic, kind, version, payload and a
    digest over the domain, kind, version and payload.  The scalar columns are
    SQLite [INTEGER]s, signed 64-bit. *)

From S2P Require Import Prelude Borsh Crypto Session Trace Negotiation Evidence Validation Receipt.
From S2P Require Import Frame Execution Invariant History Publish Fixture Consistency Canonical StateCodec.

Unset Program Cases.

(** ** Errors *)

Inductive StoreError :=
| Corruption (what : string)
| Sqlite
| Protocol (e : ProtocolError)
| StorePayloadTooLarge (required capacity : Z)
| InvalidConfiguration (what : string)
| IdentityMismatch (database requested : PeerId)
| ExecutionNotFound (id : ExecId)
| ActivationNotFound (id : ExecId)
| ActivationNotCommitted (id : ExecId)
| ExecutionRequestNotFound (id : ExecId)
| ExecutionLifecycleStarted (id : ExecId)
| InvalidAdmission (what : string)
| BlobNotFound (hash : Z)
| StoreIo
| Closed.

Definition corrupt {A} (what : string) : result StoreError A := Err (Corruption what).

(** ** Columns *)

Definition i64_max : Z := 2 ^ 63 - 1.

Definition sqlite_u64 (value : Z) : result StoreError Z :=
  if i64_max <? value then corrupt "u64 value cannot be represented in SQLite INTEGER" else Ok value.
Definition sqlite_i64 (value : Z) : result StoreError Z :=
  if value <? 0 then corrupt "negative SQLite INTEGER where u64 was required" else Ok value.

(** [i64::from_le_bytes(x.to_le_bytes())]: the same 64 bits, signed. *)
Definition bits_i64 (x : Z) : Z := if x <? 2 ^ 63 then x else x - 2 ^ 64.

Definition lifecycle_tag (l : ExecLifecycle) : Z :=
  match l with
  | LNegotiating => 0
  | LActivating => 1
  | LWaiting => 2
  | LActive => 3
  | LCompleted => 4
  | LAborted => 5
  | LFailed => 7
  end.

Definition lifecycle_from_tag (tag : Z) : result StoreError ExecLifecycle :=
  match tag with
  | 0 => Ok LNegotiating
  | 1 => Ok LActivating
  | 2 => Ok LWaiting
  | 3 => Ok LActive
  | 4 => Ok LCompleted
  | 5 => Ok LAborted
  | 7 => Ok LFailed
  | _ => corrupt "unknown lifecycle tag"
  end.

Definition MAX_ERROR_BYTES : Z := 4 * 1024.
Definition bounded_reason (reason : bytes) : result StoreError bytes :=
  if MAX_ERROR_BYTES <? zlen reason then Err (StorePayloadTooLarge (zlen reason) MAX_ERROR_BYTES) else Ok reason.

(** [end_columns] and [decode_end]. *)
Definition end_columns (e : EndPhase) : result StoreError (Z * bytes) :=
  let (tag, peers) := match e with Open => (0, ∅) | Ending u => (1, u) | Ended u => (2, u) end in
  let? bs := map_err (fun _ => Corruption "end peers") (to_vec c_set peers) in
  Ok (tag, bs).

Definition decode_end (tag : Z) (bs : bytes) : result StoreError EndPhase :=
  if 4 + MAX_PARTICIPANTS * 32 <? zlen bs then corrupt "end peer set exceeds participant bound" else
  let? u := map_err (fun _ => Corruption "end peers") (from_slice c_set bs) in
  match tag with
  | 0 => if bool_decide (u = ∅) then Ok Open else corrupt "invalid end phase projection"
  | 1 => if bool_decide (u = ∅) then corrupt "invalid end phase projection" else Ok (Ending u)
  | 2 => Ok (Ended u)
  | _ => corrupt "invalid end phase projection"
  end.

Definition encode_borsh {A} (c : codec A) (a : A) (field : string) : result StoreError bytes :=
  map_err (fun _ => Corruption field) (to_vec c a).
Definition decode_borsh {A} (c : codec A) (bs : bytes) (field : string) : result StoreError A :=
  map_err (fun _ => Corruption field) (from_slice c bs).

(** ** Envelopes *)

Inductive EnvelopeKind :=
| KindActivation | KindPreparedActivation | KindExecutionState | KindEventRecord | KindAgreedStep
| KindEffects | KindReceipt | KindTimer | KindExecutionSalt | KindProgram | KindExecutionAdmission
| KindStepState.

Definition kind_tag (k : EnvelopeKind) : Z :=
  match k with
  | KindActivation => 1
  | KindPreparedActivation => 2
  | KindExecutionState => 3
  | KindEventRecord => 4
  | KindAgreedStep => 5
  | KindEffects => 6
  | KindReceipt => 8
  | KindTimer => 10
  | KindExecutionSalt => 11
  | KindProgram => 12
  | KindExecutionAdmission => 13
  | KindStepState => 14
  end.

Definition ENVELOPE_VERSION : Z := 2.
Definition ENVELOPE_MAGIC : bytes := bytes_of_string "AR0STOR1".
Definition ENVELOPE_DOMAIN : bytes := bytes_of_string "arena0/store-envelope/v2".
Definition MAX_ENVELOPE_OVERHEAD : Z := 8 + 2 + 2 + 4 + 32.

Record DurableEnvelope := MkEnvelope {
  magic : bytes;
  env_kind : Z;
  env_version : Z;
  payload : bytes;
  checksum : Z }.

Definition c_envelope : codec DurableEnvelope :=
  c_iso (c_pair (c_raw 8) (c_pair c_u16 (c_pair c_u16 (c_pair (c_bytes u32_max) c_id))))
    (fun e => (magic e, (env_kind e, (env_version e, (payload e, checksum e)))))
    (fun p => MkEnvelope p.1 p.2.1 p.2.2.1 p.2.2.2.1 p.2.2.2.2)
    (fun e => match e with MkEnvelope _ _ _ _ _ => eq_refl end).

Section Envelope.
Context `{Crypto}.

Definition checksum_of (k : EnvelopeKind) (payload : bytes) : Z :=
  blake3 (ENVELOPE_DOMAIN ++ le_bytes 2 (kind_tag k) ++ le_bytes 2 ENVELOPE_VERSION ++ payload).

Definition seal (k : EnvelopeKind) (payload : bytes) : result StoreError bytes :=
  map_err (fun _ => Corruption "durable envelope encode")
    (to_vec c_envelope (MkEnvelope ENVELOPE_MAGIC (kind_tag k) ENVELOPE_VERSION payload (checksum_of k payload))).

Definition open (k : EnvelopeKind) (encoded : bytes) (max_payload : Z) : result StoreError bytes :=
  let? max_encoded := ok_or (checked_add max_payload MAX_ENVELOPE_OVERHEAD)
                        (Corruption "durable envelope size bound overflow") in
  if max_encoded <? zlen encoded then corrupt "durable envelope exceeds bound" else
  let? e := map_err (fun _ => Corruption "durable envelope decode") (from_slice c_envelope encoded) in
  if negb (bool_decide (magic e = ENVELOPE_MAGIC)) || negb (env_kind e =? kind_tag k)
     || negb (env_version e =? ENVELOPE_VERSION)
  then corrupt "durable envelope header is invalid" else
  if max_payload <? zlen (payload e) then corrupt "durable envelope payload exceeds bound" else
  if negb (checksum e =? checksum_of k (payload e)) then corrupt "durable envelope checksum mismatch" else
  Ok (payload e).

(** ** Sealing and opening *)

Context (digest_range : forall bs, 0 <= blake3 bs < 256 ^ 32).

Lemma kind_tag_inj k1 k2 : kind_tag k1 = kind_tag k2 -> k1 = k2.
Proof. by destruct k1, k2. Qed.

Lemma kind_tag_u16 k : cwf c_u16 (kind_tag k).
Proof. by destruct k. Qed.

Lemma envelope_cwf k p : cwf c_envelope (MkEnvelope ENVELOPE_MAGIC (kind_tag k) ENVELOPE_VERSION p (checksum_of k p)).
Proof.
  split; [done|]. split; [apply kind_tag_u16|]. split; [done|]. split; [done|]. exact (digest_range _).
Qed.

Lemma envelope_length k p n :
  object_length c_envelope (MkEnvelope ENVELOPE_MAGIC (kind_tag k) ENVELOPE_VERSION p (checksum_of k p)) = Ok n ->
  n = zlen p + MAX_ENVELOPE_OVERHEAD.
Proof.
  unfold c_envelope. rewrite ol_iso.
  intros (n1 & m1 & E1 & (n2 & m2 & E2 & (n3 & m3 & E3 & (n4 & m4 & E4 & E5 & ->)%ol_pair & ->)%ol_pair & ->)%ol_pair & ->)%ol_pair.
  cbn [fst snd] in *. apply ol_bytes in E4 as (_ & _ & ->). rewrite ol_raw in E1. rewrite ol_uint in E2, E3.
  unfold c_id in E5. rewrite ol_arr in E5. simplify_eq. unfold MAX_ENVELOPE_OVERHEAD. simpl.
  change (zlen ENVELOPE_MAGIC) with 8. lia.
Qed.

(** A sealed payload opens to itself under its kind and any bound that admits it. *)
Lemma open_seal k p bs max :
  seal k p = Ok bs -> zlen p <= max -> max + MAX_ENVELOPE_OVERHEAD <= u64_max -> open k bs max = Ok p.
Proof.
  unfold seal. intros Hs Hp Hm. apply map_err_Ok in Hs. unfold open, checked_add.
  rewrite (proj2 (Z.leb_le _ _)) by done. cbn [ok_or rbind].
  assert (zlen bs = zlen p + MAX_ENVELOPE_OVERHEAD) as Hl.
  { apply (envelope_length k p). apply object_length_Ok. by exists bs. }
  rewrite (proj2 (Z.ltb_ge _ _)) by lia.
  rewrite (from_slice_to_vec c_envelope _ _ (envelope_cwf k p) Hs). cbn [map_err rbind magic env_kind env_version payload checksum].
  rewrite bool_decide_eq_true_2 by done. rewrite !Z.eqb_refl. cbn [negb orb].
  by rewrite (proj2 (Z.ltb_ge _ _)) by lia.
Qed.

Lemma seal_total k p : zlen p <= u32_max -> exists bs, seal k p = Ok bs.
Proof.
  intros Hp.
  assert (sized c_envelope (MkEnvelope ENVELOPE_MAGIC (kind_tag k) ENVELOPE_VERSION p (checksum_of k p))
            (8 + (2 + (2 + ((4 + zlen p) + 32))))) as (n & (bs & Hbs & _)%object_length_Ok & _).
  { apply (sized_pair (c_raw 8)); [exists 8; by rewrite ol_raw|]. do 2 (apply sized_pair; [apply (sized_uint 2)|]).
    apply sized_pair; [by apply sized_bytes|apply sized_id]. }
  exists bs. unfold seal, to_vec. by rewrite Hbs.
Qed.

#[local] Instance can_envelope : Canonical c_envelope.
Proof. apply can_iso; [|by intros (?&?&?&?&?)]. apply _. Qed.

(** What opens was sealed: nothing but the exact seal of the payload is read. *)
Lemma open_inv k bs max p :
  octets bs -> open k bs max = Ok p -> seal k p = Ok bs /\ zlen p <= max.
Proof.
  intros Ho. unfold open. intros Hp. inv_ok. destruct (_ <? zlen bs); [done|]. inv_ok.
  match goal with Hf : from_slice _ _ = Ok ?e |- _ => apply (from_slice_iff c_envelope) in Hf as [_ Hf]; [|done];
    destruct e as [mg kd vs pl cs] end.
  cbn [magic env_kind env_version payload checksum] in *.
  destruct (negb _ || _ || _) eqn:Hh; [done|]. destruct (max <? zlen pl) eqn:Hm; [done|].
  destruct (negb (cs =? _)) eqn:Hc; [done|]. inv_ok.
  repeat match goal with Hz : (_ =? _) = true |- _ => apply Z.eqb_eq in Hz
  | Hz : bool_decide _ = true |- _ => apply bool_decide_eq_true in Hz end.
  subst. unfold seal. split; [|lia]. by match goal with Hv : to_vec _ _ = Ok _ |- _ => rewrite Hv end.
Qed.

(** An envelope opens under one kind. *)
Lemma open_kind k1 k2 bs m1 m2 p1 p2 :
  octets bs -> open k1 bs m1 = Ok p1 -> open k2 bs m2 = Ok p2 -> k1 = k2 /\ p1 = p2.
Proof.
  intros Ho [S1 _]%open_inv [S2 _]%open_inv; [|done..]. unfold seal in S1, S2.
  apply map_err_Ok in S1, S2.
  pose proof (enc_inj c_envelope _ _ _ (envelope_cwf k1 p1) (envelope_cwf k2 p2) S1 S2) as He.
  injection He as Hk Hp _. split; [by apply kind_tag_inj|done].
Qed.
End Envelope.

(** A durable envelope is exact: opening bytes under a kind returns a payload
    exactly when the bytes are that payload's seal and it is within the bound, and
    no bytes open under two kinds. *)
Theorem envelope_exact `{Crypto} k bs max p :
  (forall x, 0 <= blake3 x < 256 ^ 32) -> octets bs -> max + MAX_ENVELOPE_OVERHEAD <= u64_max ->
  (open k bs max = Ok p <-> seal k p = Ok bs /\ zlen p <= max) /\
  forall k' max' p', open k bs max = Ok p -> open k' bs max' = Ok p' -> k' = k /\ p' = p.
Proof.
  intros Hd Ho Hm. split; [split|].
  - by apply open_inv.
  - intros [Hs Hp]. by apply (open_seal Hd).
  - intros k' max' p' E1 E2. by destruct (open_kind Hd k' k bs max' max p' p Ho E2 E1).
Qed.

(** ** Example *)

Definition sealed0 : bytes := Eval vm_compute in unwrap [] (seal (H:=toy) KindTimer [1; 2; 3]).

Lemma envelope_exact_witness : seal KindTimer [1; 2; 3] = Ok sealed0 /\ zlen [1; 2; 3] <= 16.
Proof.
  refine (proj1 (proj1 (envelope_exact KindTimer sealed0 16 [1; 2; 3] toy_digest_range _ _)) _).
  - by apply octets_decide.
  - by apply Z.leb_le.
  - vm_compute. reflexivity.
Defined.
