(* ===== verification/ChangeLog.v ===== *)
(** * The change log (store/src/changes.rs)

    The in-memory ring of recent changes a store publishes at commit, and what a
    reader that stopped at some sequence number is told to fetch. *)

From S2P Require Import Prelude Borsh Crypto Session.

Inductive ChangeKey :=
| ChExec (id : ExecId)
| ChStep (id : ExecId) (step : Z)
| ChReceipt (id : ReceiptId)
| ChProgram (h : ProgramHash)
| ChBlob (h : BlobHash).
#[global] Instance ChangeKey_eq_dec : EqDecision ChangeKey.
Proof. solve_decision. Defined.

Inductive Catchup :=
| CatchKeys (head : Z) (keys : list ChangeKey)
| CatchSnapshot (head : Z).

Definition CHANGE_RING : Z := 8192.

Record ChangeLog := MkLog { ring : list (Z * ChangeKey); head : Z }.

(** [ChangeLog::new]. *)
Definition log_new : ChangeLog := MkLog [] 0.

(** One turn of the loop of [publish]; [last += 1] is [u64] arithmetic. *)
Definition push_key {E} (log : ChangeLog) (key : ChangeKey) : result E ChangeLog :=
  if u64_max <? head log + 1 then Panic else
  let last := head log + 1 in
  let ring := ring log ++ [(last, key)] in
  Ok (MkLog (if CHANGE_RING <? zlen ring then drop 1 ring else ring) last).

Definition publish {E} (keys : list ChangeKey) (log : ChangeLog) : result E ChangeLog :=
  try_fold push_key log keys.

(** The fold over [seen] of [since]: each key once, in first-seen order. *)
Fixpoint first_seen (seen : list ChangeKey) (l : list ChangeKey) : list ChangeKey :=
  match l with
  | [] => []
  | k :: l => if bool_decide (k ∈ seen) then first_seen seen l else k :: first_seen (k :: seen) l
  end.

Definition since (log : ChangeLog) (seq : Z) : Catchup :=
  if seq =? head log then CatchKeys (head log) [] else
  if (head log <? seq) || match ring log with [] => true | (first, _) :: _ => seq + 1 <? first end
  then CatchSnapshot (head log) else
  CatchKeys (head log) (first_seen [] (map snd (filter (fun p => seq < p.1) (ring log)))).

(** ** The ring is the tail of the history *)

(** The changes of [hist] numbered from [n + 1]. *)
Fixpoint numbered (n : Z) (hist : list ChangeKey) : list (Z * ChangeKey) :=
  match hist with [] => [] | k :: l => (n + 1, k) :: numbered (n + 1) l end.

Lemma numbered_app n l1 l2 : numbered n (l1 ++ l2) = numbered n l1 ++ numbered (n + zlen l1) l2.
Proof.
  revert n. induction l1 as [|k l1 IH]; intros n; simpl; [by rewrite zlen_nil, Z.add_0_r|].
  rewrite IH, zlen_cons. do 3 f_equal. lia.
Qed.

Lemma numbered_length n l : length (numbered n l) = length l.
Proof. revert n. induction l; intros n; simpl; auto. Qed.

Lemma numbered_snd n l : map snd (numbered n l) = l.
Proof. revert n. induction l as [|k l IH]; intros n; simpl; [done|]. by rewrite IH. Qed.

Lemma numbered_drop n k l : drop k (numbered n l) = numbered (n + Z.of_nat k) (drop k l).
Proof.
  revert n l. induction k as [|k IH]; intros n l; [by rewrite !drop_0, Z.add_0_r|].
  destruct l as [|x l]; [done|]. simpl drop. rewrite IH. f_equal. lia.
Qed.

Lemma numbered_above n seq l : seq <= n -> Forall (fun p => seq < p.1) (numbered n l).
Proof.
  revert n. induction l as [|k l IH]; intros n Hn; simpl; constructor; [simpl; lia|]. apply IH. lia.
Qed.

Lemma numbered_below n seq l : n + zlen l <= seq -> Forall (fun p => ~ seq < p.1) (numbered n l).
Proof.
  revert n. induction l as [|k l IH]; intros n Hn; simpl; constructor; rewrite zlen_cons in Hn;
    pose proof (zlen_nonneg l); [simpl; lia|]. apply IH. lia.
Qed.

(** The ring after the changes of [hist]. *)
Definition tail_of (hist : list ChangeKey) : ChangeLog :=
  let skip := (length hist - Z.to_nat CHANGE_RING)%nat in
  MkLog (numbered (Z.of_nat skip) (drop skip hist)) (zlen hist).

Lemma push_tail {E} hist k :
  zlen hist + 1 <= u64_max -> push_key (E:=E) (tail_of hist) k = Ok (tail_of (hist ++ [k])).
Proof.
  intros Hu. unfold push_key, tail_of. cbn [head ring]. rewrite (proj2 (Z.ltb_ge _ _)) by done.
  set (skip := (length hist - Z.to_nat CHANGE_RING)%nat).
  assert (numbered (Z.of_nat skip) (drop skip hist) ++ [(zlen hist + 1, k)]
            = numbered (Z.of_nat skip) (drop skip (hist ++ [k]))) as Hring.
  { rewrite drop_app_le by (unfold skip; lia). rewrite numbered_app. simpl. do 3 f_equal.
    unfold zlen. rewrite length_drop. unfold skip. lia. }
  rewrite Hring. do 2 f_equal; [|rewrite zlen_app, zlen_cons, zlen_nil; lia].
  unfold zlen. rewrite numbered_length, length_drop, length_app. simpl length.
  assert (0 < CHANGE_RING) by done.
  destruct (Z.ltb_spec CHANGE_RING (Z.of_nat (length hist + 1 - skip))) as [Hl|Hl].
  - replace (length hist + 1 - Z.to_nat CHANGE_RING)%nat with (skip + 1)%nat by (unfold skip in *; lia).
    rewrite numbered_drop, drop_drop. f_equal. lia.
  - by replace (length hist + 1 - Z.to_nat CHANGE_RING)%nat with skip by (unfold skip in *; lia).
Qed.

Lemma publish_tail {E} hist keys :
  zlen hist + zlen keys <= u64_max -> publish (E:=E) keys (tail_of hist) = Ok (tail_of (hist ++ keys)).
Proof.
  unfold publish. revert hist. induction keys as [|k keys IH]; intros hist Hu; simpl; [by rewrite app_nil_r|].
  rewrite zlen_cons in Hu. pose proof (zlen_nonneg keys). rewrite push_tail by lia. cbn [rbind].
  rewrite IH; [by rewrite <- app_assoc|]. rewrite zlen_app, zlen_cons, zlen_nil. lia.
Qed.

(** ** What a reader must be told *)

(** The position of the first change of [k]. *)
Definition first_at (l : list ChangeKey) (k : ChangeKey) (n : nat) : Prop :=
  l !! n = Some k /\ forall m, (m < n)%nat -> l !! m <> Some k.

(** The rows changed in [l], each once, in the order of their first change. *)
Record each_once (l keys : list ChangeKey) : Prop := {
  eo_once : NoDup keys;
  eo_rows : forall k, k ∈ keys <-> k ∈ l;
  eo_order : forall i j a b m n, (i < j)%nat -> keys !! i = Some a -> keys !! j = Some b ->
    first_at l a m -> first_at l b n -> (m < n)%nat }.

Lemma first_seen_elem seen l k : k ∈ first_seen seen l <-> k ∈ l /\ k ∉ seen.
Proof.
  revert seen. induction l as [|x l IH]; intros seen; cbn [first_seen]; [set_solver|].
  case_bool_decide as Hx; [rewrite IH; set_solver|]. rewrite elem_of_cons, IH. destruct (decide (k = x)); set_solver.
Qed.
Lemma first_seen_NoDup seen l : NoDup (first_seen seen l).
Proof.
  revert seen. induction l as [|x l IH]; intros seen; cbn [first_seen]; [apply NoDup_nil_2|].
  case_bool_decide; [apply IH|]. apply NoDup_cons. split; [|apply IH]. rewrite first_seen_elem. set_solver.
Qed.

Lemma first_at_later x l k n : k <> x -> first_at (x :: l) k n -> exists m, n = S m /\ first_at l k m.
Proof.
  intros Hne [Hn Hf]. destruct n as [|n]; [simpl in Hn; congruence|]. exists n. split; [done|]. split; [done|].
  intros m Hm. apply (Hf (S m)). lia.
Qed.
Lemma first_seen_order seen l i j a b m n :
  (i < j)%nat -> first_seen seen l !! i = Some a -> first_seen seen l !! j = Some b ->
  first_at l a m -> first_at l b n -> (m < n)%nat.
Proof.
  revert seen i j m n. induction l as [|x l IH]; intros seen i j m n Hij Ha Hb Hm Hn; [done|].
  pose proof (list_elem_of_lookup_2 _ _ _ Ha) as Ea. pose proof (list_elem_of_lookup_2 _ _ _ Hb) as Eb.
  cbn [first_seen] in *. case_bool_decide as Hx.
  - apply first_seen_elem in Ea, Eb.
    apply first_at_later in Hm as (m' & -> & Hm); [|set_solver]. apply first_at_later in Hn as (n' & -> & Hn); [|set_solver].
    specialize (IH _ _ _ _ _ Hij Ha Hb Hm Hn). lia.
  - destruct j as [|j]; [lia|]. simpl in Hb. pose proof (list_elem_of_lookup_2 _ _ _ Hb) as Eb'. apply first_seen_elem in Eb'.
    apply first_at_later in Hn as (n' & -> & Hn); [|set_solver]. destruct i as [|i].
    + simpl in Ha. injection Ha as <-. destruct m as [|m]; [lia|]. destruct Hm as [_ Hm]. by destruct (Hm 0%nat); [lia|].
    + simpl in Ha. pose proof (list_elem_of_lookup_2 _ _ _ Ha) as Ea'. apply first_seen_elem in Ea'.
      apply first_at_later in Hm as (m' & -> & Hm); [|set_solver].
      assert (i < j)%nat as Hij' by lia. specialize (IH _ _ _ _ _ Hij' Ha Hb Hm Hn). lia.
Qed.
Lemma first_seen_once l : each_once l (first_seen [] l).
Proof.
  split; [apply first_seen_NoDup|intros k; rewrite first_seen_elem; set_solver|]. intros i j a b m n. apply first_seen_order.
Qed.

Lemma filter_below seq n l :
  n + zlen l <= seq -> filter (fun p => seq < p.1) (numbered n l) = [].
Proof.
  intros Hn. pose proof (numbered_below n seq l Hn) as Hb.
  induction Hb as [|p l' Hp _ IH]; [done|]. by rewrite filter_cons, decide_False by done.
Qed.

(** The oldest change still in the ring tells whether [seq] is out of reach. *)
Lemma ring_reach hist seq :
  0 <= seq < zlen hist ->
  match ring (tail_of hist) with [] => true | (first, _) :: _ => seq + 1 <? first end
    = negb (zlen hist - seq <=? CHANGE_RING).
Proof.
  intros Hs. unfold tail_of, zlen in *. cbn [ring]. assert (0 < CHANGE_RING) by done.
  set (skip := (length hist - Z.to_nat CHANGE_RING)%nat).
  destruct (drop skip hist) as [|k l] eqn:Hd.
  - apply (f_equal length) in Hd. rewrite length_drop in Hd. simpl in Hd. unfold skip in Hd. lia.
  - cbn [numbered]. unfold skip.
    destruct (Z.leb_spec (Z.of_nat (length hist) - seq) CHANGE_RING), (Z.ltb_spec (seq + 1)
      (Z.of_nat (length hist - Z.to_nat CHANGE_RING) + 1)); try done; lia.
Qed.

(** The changes after [seq] that are still in the ring. *)
Lemma ring_after hist seq :
  0 <= seq <= zlen hist -> zlen hist - seq <= CHANGE_RING ->
  map snd (filter (fun p => seq < p.1) (ring (tail_of hist))) = drop (Z.to_nat seq) hist.
Proof.
  intros Hs Hin. unfold tail_of. cbn [ring]. assert (0 < CHANGE_RING) by done.
  set (skip := (length hist - Z.to_nat CHANGE_RING)%nat).
  assert (skip <= Z.to_nat seq)%nat as Hskip by (unfold skip, zlen in *; lia).
  assert (drop skip hist = take (Z.to_nat seq - skip) (drop skip hist) ++ drop (Z.to_nat seq) hist) as ->.
  { rewrite <- (take_drop (Z.to_nat seq - skip) (drop skip hist)) at 1. f_equal. rewrite drop_drop. f_equal. lia. }
  rewrite numbered_app, filter_app.
  assert (zlen (take (Z.to_nat seq - skip) (drop skip hist)) = seq - Z.of_nat skip) as Hl.
  { unfold zlen in *. rewrite length_take_le; [lia|]. rewrite length_drop. lia. }
  rewrite filter_below, filter_all by (try (apply numbered_above); lia). simpl. apply numbered_snd.
Qed.

Lemma since_tail hist seq : 0 <= seq ->
  since (tail_of hist) seq =
    if (seq <=? zlen hist) && (zlen hist - seq <=? CHANGE_RING)
    then CatchKeys (zlen hist) (first_seen [] (drop (Z.to_nat seq) hist)) else CatchSnapshot (zlen hist).
Proof.
  intros Hs. unfold since. change (head (tail_of hist)) with (zlen hist). assert (0 < CHANGE_RING) by done.
  destruct (Z.eqb_spec seq (zlen hist)) as [->|Hne].
  { rewrite Z.leb_refl, Z.sub_diag. simpl. unfold zlen. rewrite Nat2Z.id, drop_all. done. }
  destruct (Z.ltb_spec (zlen hist) seq) as [Hgt|Hle]; [by rewrite (proj2 (Z.leb_gt _ _)) by lia|].
  rewrite (proj2 (Z.leb_le seq _)) by lia. cbn [orb andb]. rewrite ring_reach by lia.
  destruct (Z.leb_spec (zlen hist - seq) CHANGE_RING) as [Hin|Hout]; [|done].
  cbn [negb]. by rewrite ring_after by lia.
Qed.

Lemma push_head {E} log k log' : push_key (E:=E) log k = Ok log' -> head log' = head log + 1 /\ head log + 1 <= u64_max.
Proof. unfold push_key. destruct (Z.ltb_spec u64_max (head log + 1)); intros [= <-]; simpl; lia. Qed.

Lemma publish_bound {E} keys log log' :
  publish (E:=E) keys log = Ok log' -> head log <= u64_max -> head log + zlen keys <= u64_max.
Proof.
  unfold publish. revert log. induction keys as [|k keys IH]; intros log; [rewrite zlen_nil; lia|].
  simpl. destruct (push_key log k) as [log1| |] eqn:Hp; try done. cbn [rbind]. intros Hr _.
  apply push_head in Hp as [Hh Hb]. apply IH in Hr; rewrite ?zlen_cons; lia.
Qed.

(** C32: catching up is exact: after any commits, a reader at [seq] is told every row
    changed after [seq], each once and in the order of its first change there; or to take
    a snapshot, exactly when a change after [seq] has left the ring or [seq] is ahead of
    the log. *)
Theorem catchup_exact (hist : list ChangeKey) seq log :
  publish (E:=unit) hist log_new = Ok log -> 0 <= seq ->
  match since log seq with
  | CatchKeys head keys => head = zlen hist /\ seq <= zlen hist /\ zlen hist - seq <= CHANGE_RING /\
      each_once (drop (Z.to_nat seq) hist) keys
  | CatchSnapshot head => head = zlen hist /\ (zlen hist < seq \/ CHANGE_RING < zlen hist - seq)
  end.
Proof.
  intros Hp Hs. pose proof (publish_bound _ _ _ Hp) as Hb. change log_new with (tail_of []) in Hp.
  rewrite publish_tail in Hp by (apply Hb; done). simpl in Hp. simplify_eq. rewrite since_tail by done.
  destruct (Z.leb_spec seq (zlen hist)); [|split; [done|lia]]. cbn [andb].
  destruct (Z.leb_spec (zlen hist - seq) CHANGE_RING); [|split; [done|lia]]. split_and!; try done. apply first_seen_once.
Qed.

Lemma catchup_exact_witness :
  since (MkLog [(1, ChExec 5); (2, ChBlob 6); (3, ChExec 5)] 3) 0 = CatchKeys 3 [ChExec 5; ChBlob 6] /\
  each_once [ChExec 5; ChBlob 6; ChExec 5] [ChExec 5; ChBlob 6].
Proof.
  split; [reflexivity|].
  pose proof (catchup_exact [ChExec 5; ChBlob 6; ChExec 5] 0 (MkLog [(1, ChExec 5); (2, ChBlob 6); (3, ChExec 5)] 3) eq_refl
    (Z.le_refl 0)) as (_ & _ & _ & Hk). exact Hk.
Defined.
