(* ===== verification/Database.v ===== *)
(** * The database (store/schema.sql, store/src/database.rs, database/integrity.rs)

    The tables the store keeps an execution in, the constraints the schema puts on
    them, and the transaction bracket every write runs in.  A table keyed by an
    execution and a coordinate is a map per execution.  [view] is what the open
    connection sees, [disk] the last commit; a failed rollback leaves the view
    uncommitted and poisons the connection.  Files are outside the transaction. *)

From S2P Require Import Prelude Borsh Crypto Session Trace Negotiation Evidence Validation Receipt.
From S2P Require Import Frame Execution Canonical StateCodec Envelope ChangeLog.

Unset Program Cases.

Abbreviation TimerId := Z (only parsing).

(** ** Rows *)

(** Identity and digest columns are 32 bytes by the schema's [CHECK]s. *)
Record ExecRow := MkExecRow {
  x_host : PeerId;
  x_producer : PeerId;
  x_session : SessionHash;
  x_state : bytes;
  x_end_phase : Z;
  x_end_unconfirmed : bytes;
  x_participant_ids : bytes;
  x_participants : Z;
  x_callout_id : option Z;
  x_callout_index : option Z;
  x_callout_opened : option Z;
  x_terminal_reason : option bytes;
  x_outcome_json : option bytes;
  x_last_step : option Z;
  x_version : Z;
  x_lifecycle : Z;
  x_agreed_step : Z;
  x_event_position : Z;
  x_created : Z;
  x_updated : Z }.

Record EventRow := MkEventRow { ev_event : bytes; ev_effects : bytes; ev_digest : Z }.

Record StepRow := MkStepRow {
  st_origin : Z;
  st_version : Z;
  st_artifact : bytes;
  st_entry_hash : Z;
  st_certified_at : Z;
  st_post_state : StateHash }.

Record TimerRow := MkTimerRow { tm_deadline : Z; tm_payload : bytes; tm_armed : Z }.

(** [kind] is ['receipt'] or ['stop_report']. *)
Record ReceiptRow := MkReceiptRow {
  rc_session : SessionHash;
  rc_kind : ReceiptKind;
  rc_artifact : bytes;
  rc_program : ProgramHash;
  rc_completed : bool;
  rc_stored_at : Z }.

Inductive ActivationRecordStatus := StPrepared | StCommitted.
#[global] Instance ActivationRecordStatus_eq_dec : EqDecision ActivationRecordStatus.
Proof. solve_decision. Defined.

Record ActivationRow := MkActivationRow {
  ar_session : SessionHash;
  ar_status : ActivationRecordStatus;
  ar_prepared : bytes;
  ar_committed : option bytes;
  ar_facts : bytes;
  ar_created : Z;
  ar_updated : Z }.

Record BlobRow := MkBlobRow { bl_length : Z; bl_path : bytes; bl_linked : bool }.
Record PartialRow := MkPartialRow { pt_length : Z; pt_written : Z; pt_committed : bool }.

(** [removed_at_ms] of a program is [NULL] while it is registered. *)
Record ProgramRow := MkProgramRow { pg_wasm : bytes; pg_imported : Z; pg_removed : option Z }.

Record RequestRow := MkRequestRow {
  rq_order : Z;
  rq_program : ProgramHash;
  rq_params : option bytes;
  rq_admission : bytes;
  rq_negotiation : option NegotiationId;
  rq_grants : bytes;
  rq_created : Z;
  rq_failure : option bytes }.

Inductive ActivationConflictKind := ConflictPrepared | ConflictCommitted.
#[global] Instance ActivationConflictKind_eq_dec : EqDecision ActivationConflictKind.
Proof. solve_decision. Defined.

Record ConflictRow := MkConflictRow {
  cf_execution : ExecId;
  cf_kind : ActivationConflictKind;
  cf_existing : bytes;
  cf_incoming : bytes;
  cf_observed : Z }.

Record SaltRow := MkSaltRow { sl_salt : bytes; sl_created : Z }.

(** [request_sequence] is the last [created_order] SQLite handed out. *)
Record Tables := MkTables {
  executions : gmap ExecId ExecRow;
  event_records : gmap ExecId (gmap Z EventRow);
  agreed_steps : gmap ExecId (gmap Z StepRow);
  step_states : gmap ExecId (gmap Z bytes);
  active_timers : gmap ExecId (gmap TimerId TimerRow);
  receipts : gmap ReceiptId ReceiptRow;
  receipt_imports : gmap ReceiptId Z;
  receipt_productions : gmap ReceiptId ExecId;
  activation_records : gmap ExecId ActivationRow;
  blobs : gmap BlobHash BlobRow;
  blob_grants : gmap ExecId (gset BlobHash);
  blob_partials : gmap ExecId (gmap BlobHash PartialRow);
  programs : gmap ProgramHash ProgramRow;
  exec_requests : gmap ExecId RequestRow;
  request_sequence : Z;
  activation_conflicts : list ConflictRow;
  execution_salts : gmap ExecId SaltRow }.

Record Database := MkDb {
  view : Tables;
  disk : Tables;
  host_id : PeerId;
  poisoned : bool;
  pending : list ChangeKey;
  changes : ChangeLog;
  blob_dir : bytes;
  files : gmap bytes bytes }.

Definition set_executions (x : gmap ExecId ExecRow) (t : Tables) : Tables :=
  MkTables x (event_records t) (agreed_steps t) (step_states t) (active_timers t) (receipts t) (receipt_imports t) (receipt_productions t) (activation_records t) (blobs t) (blob_grants t) (blob_partials t) (programs t) (exec_requests t) (request_sequence t) (activation_conflicts t) (execution_salts t).
Definition set_event_records (x : gmap ExecId (gmap Z EventRow)) (t : Tables) : Tables :=
  MkTables (executions t) x (agreed_steps t) (step_states t) (active_timers t) (receipts t) (receipt_imports t) (receipt_productions t) (activation_records t) (blobs t) (blob_grants t) (blob_partials t) (programs t) (exec_requests t) (request_sequence t) (activation_conflicts t) (execution_salts t).
Definition set_agreed_steps (x : gmap ExecId (gmap Z StepRow)) (t : Tables) : Tables :=
  MkTables (executions t) (event_records t) x (step_states t) (active_timers t) (receipts t) (receipt_imports t) (receipt_productions t) (activation_records t) (blobs t) (blob_grants t) (blob_partials t) (programs t) (exec_requests t) (request_sequence t) (activation_conflicts t) (execution_salts t).
Definition set_step_states (x : gmap ExecId (gmap Z bytes)) (t : Tables) : Tables :=
  MkTables (executions t) (event_records t) (agreed_steps t) x (active_timers t) (receipts t) (receipt_imports t) (receipt_productions t) (activation_records t) (blobs t) (blob_grants t) (blob_partials t) (programs t) (exec_requests t) (request_sequence t) (activation_conflicts t) (execution_salts t).
Definition set_active_timers (x : gmap ExecId (gmap TimerId TimerRow)) (t : Tables) : Tables :=
  MkTables (executions t) (event_records t) (agreed_steps t) (step_states t) x (receipts t) (receipt_imports t) (receipt_productions t) (activation_records t) (blobs t) (blob_grants t) (blob_partials t) (programs t) (exec_requests t) (request_sequence t) (activation_conflicts t) (execution_salts t).
Definition set_receipts (x : gmap ReceiptId ReceiptRow) (t : Tables) : Tables :=
  MkTables (executions t) (event_records t) (agreed_steps t) (step_states t) (active_timers t) x (receipt_imports t) (receipt_productions t) (activation_records t) (blobs t) (blob_grants t) (blob_partials t) (programs t) (exec_requests t) (request_sequence t) (activation_conflicts t) (execution_salts t).
Definition set_receipt_imports (x : gmap ReceiptId Z) (t : Tables) : Tables :=
  MkTables (executions t) (event_records t) (agreed_steps t) (step_states t) (active_timers t) (receipts t) x (receipt_productions t) (activation_records t) (blobs t) (blob_grants t) (blob_partials t) (programs t) (exec_requests t) (request_sequence t) (activation_conflicts t) (execution_salts t).
Definition set_receipt_productions (x : gmap ReceiptId ExecId) (t : Tables) : Tables :=
  MkTables (executions t) (event_records t) (agreed_steps t) (step_states t) (active_timers t) (receipts t) (receipt_imports t) x (activation_records t) (blobs t) (blob_grants t) (blob_partials t) (programs t) (exec_requests t) (request_sequence t) (activation_conflicts t) (execution_salts t).
Definition set_activation_records (x : gmap ExecId ActivationRow) (t : Tables) : Tables :=
  MkTables (executions t) (event_records t) (agreed_steps t) (step_states t) (active_timers t) (receipts t) (receipt_imports t) (receipt_productions t) x (blobs t) (blob_grants t) (blob_partials t) (programs t) (exec_requests t) (request_sequence t) (activation_conflicts t) (execution_salts t).
Definition set_blobs (x : gmap BlobHash BlobRow) (t : Tables) : Tables :=
  MkTables (executions t) (event_records t) (agreed_steps t) (step_states t) (active_timers t) (receipts t) (receipt_imports t) (receipt_productions t) (activation_records t) x (blob_grants t) (blob_partials t) (programs t) (exec_requests t) (request_sequence t) (activation_conflicts t) (execution_salts t).
Definition set_blob_grants (x : gmap ExecId (gset BlobHash)) (t : Tables) : Tables :=
  MkTables (executions t) (event_records t) (agreed_steps t) (step_states t) (active_timers t) (receipts t) (receipt_imports t) (receipt_productions t) (activation_records t) (blobs t) x (blob_partials t) (programs t) (exec_requests t) (request_sequence t) (activation_conflicts t) (execution_salts t).
Definition set_blob_partials (x : gmap ExecId (gmap BlobHash PartialRow)) (t : Tables) : Tables :=
  MkTables (executions t) (event_records t) (agreed_steps t) (step_states t) (active_timers t) (receipts t) (receipt_imports t) (receipt_productions t) (activation_records t) (blobs t) (blob_grants t) x (programs t) (exec_requests t) (request_sequence t) (activation_conflicts t) (execution_salts t).
Definition set_programs (x : gmap ProgramHash ProgramRow) (t : Tables) : Tables :=
  MkTables (executions t) (event_records t) (agreed_steps t) (step_states t) (active_timers t) (receipts t) (receipt_imports t) (receipt_productions t) (activation_records t) (blobs t) (blob_grants t) (blob_partials t) x (exec_requests t) (request_sequence t) (activation_conflicts t) (execution_salts t).
Definition set_exec_requests (x : gmap ExecId RequestRow) (t : Tables) : Tables :=
  MkTables (executions t) (event_records t) (agreed_steps t) (step_states t) (active_timers t) (receipts t) (receipt_imports t) (receipt_productions t) (activation_records t) (blobs t) (blob_grants t) (blob_partials t) (programs t) x (request_sequence t) (activation_conflicts t) (execution_salts t).
Definition set_request_sequence (x : Z) (t : Tables) : Tables :=
  MkTables (executions t) (event_records t) (agreed_steps t) (step_states t) (active_timers t) (receipts t) (receipt_imports t) (receipt_productions t) (activation_records t) (blobs t) (blob_grants t) (blob_partials t) (programs t) (exec_requests t) x (activation_conflicts t) (execution_salts t).
Definition set_activation_conflicts (x : list ConflictRow) (t : Tables) : Tables :=
  MkTables (executions t) (event_records t) (agreed_steps t) (step_states t) (active_timers t) (receipts t) (receipt_imports t) (receipt_productions t) (activation_records t) (blobs t) (blob_grants t) (blob_partials t) (programs t) (exec_requests t) (request_sequence t) x (execution_salts t).
Definition set_execution_salts (x : gmap ExecId SaltRow) (t : Tables) : Tables :=
  MkTables (executions t) (event_records t) (agreed_steps t) (step_states t) (active_timers t) (receipts t) (receipt_imports t) (receipt_productions t) (activation_records t) (blobs t) (blob_grants t) (blob_partials t) (programs t) (exec_requests t) (request_sequence t) (activation_conflicts t) x.

Definition set_view (x : Tables) (db : Database) : Database :=
  MkDb x (disk db) (host_id db) (poisoned db) (pending db) (changes db) (blob_dir db) (files db).
Definition set_disk (x : Tables) (db : Database) : Database :=
  MkDb (view db) x (host_id db) (poisoned db) (pending db) (changes db) (blob_dir db) (files db).
Definition set_poisoned (x : bool) (db : Database) : Database :=
  MkDb (view db) (disk db) (host_id db) x (pending db) (changes db) (blob_dir db) (files db).
Definition set_pending (x : list ChangeKey) (db : Database) : Database :=
  MkDb (view db) (disk db) (host_id db) (poisoned db) x (changes db) (blob_dir db) (files db).
Definition set_changes (x : ChangeLog) (db : Database) : Database :=
  MkDb (view db) (disk db) (host_id db) (poisoned db) (pending db) x (blob_dir db) (files db).
Definition set_files (x : gmap bytes bytes) (db : Database) : Database :=
  MkDb (view db) (disk db) (host_id db) (poisoned db) (pending db) (changes db) (blob_dir db) x.

(** ** Statements *)

Abbreviation db_op A := (M Database StoreError A) (only parsing).

(** A read of the connection's view. *)
Definition select {A} (f : Tables -> result StoreError A) : db_op A := sread (fun db => f (view db)).
Definition update (f : Tables -> Tables) : db_op unit := smodify (fun db => set_view (f (view db)) db).

(** A constraint: a statement that violates it is rejected by SQLite. *)
Definition constraint (b : bool) : db_op unit := sread (fun _ => err_if (negb b) Sqlite).

(** The rows of one execution, in key order. *)
Definition rows {V} (m : gmap ExecId (gmap Z V)) (id : ExecId) : gmap Z V := default ∅ (m !! id).
Definition row {V} (m : gmap ExecId (gmap Z V)) (id : ExecId) (k : Z) : option V := rows m id !! k.
Definition ordered {V} (m : gmap Z V) : list (Z * V) := sort_key fst (map_to_list m).
Definition put {V} (m : gmap ExecId (gmap Z V)) (id : ExecId) (k : Z) (v : V) : gmap ExecId (gmap Z V) :=
  <[id := <[k := v]> (rows m id)]> m.
Definition remove {V} (m : gmap ExecId (gmap Z V)) (id : ExecId) (k : Z) : gmap ExecId (gmap Z V) :=
  <[id := delete k (rows m id)]> m.

Definition has {K V} `{Countable K} (m : gmap K V) (k : K) : bool := is_some (m !! k).

(** [sqlite_u64] on an optional value. *)
Definition sqlite_opt (o : option Z) : result StoreError (option Z) :=
  match o with Some x => rmap Some (sqlite_u64 x) | None => Ok None end.

(** The [CHECK]s of [executions]. *)
Definition opt_all (p : Z -> bool) (o : option Z) : bool := match o with Some x => p x | None => true end.
Definition check_exec_row (r : ExecRow) : bool :=
  ((x_end_phase r =? 0) || (x_end_phase r =? 1) || (x_end_phase r =? 2))
  && (0 <? x_participants r)
  && opt_all (fun i => (0 <=? i) && (i <=? u32_max)) (x_callout_index r)
  && opt_all (Z.leb 0) (x_callout_opened r)
  && match x_terminal_reason r with Some b => zlen b <=? 4096 | None => true end
  && match x_outcome_json r with Some b => zlen b <=? 65536 | None => true end
  && opt_all (Z.leb 0) (x_last_step r)
  && (0 <=? x_version r) && (0 <=? x_lifecycle r) && (0 <=? x_agreed_step r) && (0 <=? x_event_position r)
  && (0 <=? x_created r) && (0 <=? x_updated r)
  && Bool.eqb (is_some (x_callout_id r)) (is_some (x_callout_index r))
  && Bool.eqb (is_some (x_callout_id r)) (is_some (x_callout_opened r)).

(** ** Transactions *)

(** [record_change]: duplicate keys within one transaction publish once. *)
Definition record_change (k : ChangeKey) : db_op unit :=
  smodify (fun db => if bool_decide (k ∈ pending db) then db else set_pending (pending db ++ [k]) db).

(** Which statements of the bracket SQLite fails. *)
Record Faults := MkFaults { f_begin : bool; f_commit : bool; f_rollback : bool }.
Definition no_faults : Faults := MkFaults false false false.

Definition begin_tx (f : Faults) : db_op unit :=
  (let! _ := sread (fun db => err_if (poisoned db) (Corruption "store transaction state is poisoned")) in
   sread (fun _ => err_if (f_begin f) Sqlite)).

(** [ROLLBACK], or the poison a failed one leaves. *)
Definition rollback {A} (f : Faults) (e poison : StoreError) : db_op A :=
  if f_rollback f
  then smodify (set_poisoned true) ;;! sread (fun _ => Err poison)
  else smodify (fun db => set_view (disk db) db) ;;! sread (fun _ => Err e).

Definition commit_result {A} (f : Faults) (a : A) : db_op A :=
  if f_commit f
  then smodify (set_pending []) ;;! rollback f Sqlite (Corruption "commit failed")
  else
    smodify (fun db => set_disk (view db) db) ;;!
    let! log := sread (fun db => publish (pending db) (changes db)) in
    smodify (set_changes log) ;;!
    smodify (set_pending []) ;;!
    sret a.

Definition rollback_result {A} (f : Faults) (e : StoreError) : db_op A :=
  smodify (set_pending []) ;;! rollback f e (Corruption "operation failed").

Definition transaction {A} (f : Faults) (operation : db_op A) : db_op A :=
  begin_tx f ;;!
  (fun db => match operation db with
             | (Ok a, db') => commit_result f a db'
             | (Err e, db') => rollback_result f e db'
             | (Panic, db') => (Panic, db')
             end).

(** [Database::open] on what the last process left: the connection sees the last
    commit, the change log starts empty. *)
Definition reopen (db : Database) : Database :=
  MkDb (disk db) (disk db) (host_id db) false [] log_new (blob_dir db) (files db).

(** ** Events (protocol/src/event.rs) *)

Definition c_message_event : codec (PeerId * bytes) := c_pair c_id (c_bytes u32_max).
Definition c_input_event : codec (Z * bytes) := c_pair c_u32 (c_bytes MAX_EFFECT_PAYLOAD_BYTES).
Definition c_direct_event : codec (PeerId * (bytes * option Z)) :=
  c_pair c_id (c_pair (c_bytes MAX_DIRECT_CONTROL_BYTES) (c_option c_u32)).

Program Definition c_event : codec Event :=
  {| enc e := match e with
              | SessionStarted ensemble => variant 0 c_ensemble ensemble
              | MessageReceived from msg => variant 1 c_message_event (from, msg)
              | InputReceived i data => variant 2 c_input_event (i, data)
              | TimerFired timer => variant 3 c_timer timer
              | DirectReceived from msg att => variant 4 c_direct_event (from, (msg, att))
              end;
     dec bs := let? (tag, rest) := read_uint 1 bs in
               match tag with
               | 0 => rd_map SessionStarted (dec c_ensemble rest)
               | 1 => rd_map (fun p => MessageReceived p.1 p.2) (dec c_message_event rest)
               | 2 => rd_map (fun p => InputReceived p.1 p.2) (dec c_input_event rest)
               | 3 => rd_map TimerFired (dec c_timer rest)
               | 4 => rd_map (fun p => DirectReceived p.1 p.2.1 p.2.2) (dec c_direct_event rest)
               | _ => Err InvalidData
               end;
     cwf e := match e with
              | SessionStarted ensemble => cwf c_ensemble ensemble
              | MessageReceived from msg => cwf c_message_event (from, msg)
              | InputReceived i data => cwf c_input_event (i, data)
              | TimerFired timer => cwf c_timer timer
              | DirectReceived from msg att => cwf c_direct_event (from, (msg, att))
              end |}.
Next Obligation. enum_law. Qed.

(** ** Rows numbered from 0 *)

Definition enumerate {V} (l : list V) : list (Z * V) := imap (fun i x => (Z.of_nat i, x)) l.

(** A table that holds the rows of [l] in order, numbered from 0. *)
Definition numbered_table {V} (l : list V) : gmap Z V := map_seqZ 0 l.

Lemma numbered_lookup {V} (l : list V) k :
  numbered_table l !! k = if 0 <=? k then l !! Z.to_nat k else None.
Proof.
  unfold numbered_table. rewrite lookup_map_seqZ. case_guard as Hk; simpl.
  - rewrite (proj2 (Z.leb_le _ _)) by lia. by rewrite Z.sub_0_r.
  - by rewrite (proj2 (Z.leb_gt _ _)) by lia.
Qed.

Lemma numbered_inj {V} (l l' : list V) : numbered_table l = numbered_table l' -> l = l'.
Proof.
  intros Heq. apply list_eq. intros i. assert (numbered_table l !! Z.of_nat i = numbered_table l' !! Z.of_nat i) as Hi by congruence.
  rewrite !numbered_lookup, (proj2 (Z.leb_le _ _)), Nat2Z.id in Hi by lia. done.
Qed.

Lemma numbered_next {V} (l : list V) : numbered_table l !! zlen l = None.
Proof.
  rewrite numbered_lookup. destruct (0 <=? zlen l); [|done]. unfold zlen.
  rewrite Nat2Z.id. by apply lookup_ge_None.
Qed.

Lemma numbered_snoc {V} (l : list V) v : <[zlen l := v]> (numbered_table l) = numbered_table (l ++ [v]).
Proof. unfold numbered_table. by rewrite map_seqZ_snoc, Z.add_0_l. Qed.

Lemma enumerate_lookup {V} (l : list V) k v :
  (k, v) ∈ enumerate l <-> 0 <= k /\ l !! Z.to_nat k = Some v.
Proof.
  unfold enumerate. rewrite list_elem_of_lookup. split.
  - intros (i & Hi). rewrite list_lookup_imap in Hi. destruct (l !! i) eqn:E; [|done]. simpl in Hi. simplify_eq.
    rewrite Nat2Z.id. split; [lia|done].
  - intros [Hk Hl]. exists (Z.to_nat k). rewrite list_lookup_imap, Hl. simpl. by rewrite Z2Nat.id.
Qed.

Lemma enumerate_twice {V} (l : list V) : imap pair (enumerate l) = imap (fun i r => ((0 + i)%nat, (Z.of_nat (0 + i), r))) l.
Proof.
  apply list_eq. intros i. unfold enumerate. rewrite !list_lookup_imap. by destruct (l !! i).
Qed.

Lemma enumerate_strict {V} (l : list V) : StronglySorted (key_lt fst) (enumerate l).
Proof.
  unfold enumerate. rewrite (imap_ext _ (fun i x => (Z.of_nat (0 + i), x))) by done. apply enumerate_sorted.
Qed.

Lemma ordered_strict {V} (m : gmap Z V) : StronglySorted (key_lt fst) (ordered m).
Proof. apply sort_key_strict, NoDup_fst_map_to_list. Qed.

Lemma ordered_elem {V} (m : gmap Z V) k v : (k, v) ∈ ordered m <-> m !! k = Some v.
Proof. unfold ordered. by rewrite sort_key_Permutation, elem_of_map_to_list. Qed.

Lemma ordered_numbered {V} (l : list V) : ordered (numbered_table l) = enumerate l.
Proof.
  apply (strict_sorted_unique fst); [apply ordered_strict|apply enumerate_strict|].
  apply NoDup_Permutation.
  - apply (NoDup_fmap_1 fst), strict_sorted_fmap_NoDup, ordered_strict.
  - apply (NoDup_fmap_1 fst), strict_sorted_fmap_NoDup, enumerate_strict.
  - intros [k v]. rewrite ordered_elem, enumerate_lookup, numbered_lookup.
    destruct (Z.leb_spec 0 k); naive_solver lia.
Qed.

Lemma length_ordered {V} (m : gmap Z V) : length (ordered m) = size m.
Proof. unfold ordered. by rewrite sort_key_Permutation, length_map_to_list. Qed.

Lemma size_numbered {V} (l : list V) : size (numbered_table l) = length l.
Proof. rewrite <- length_ordered, ordered_numbered. unfold enumerate. by rewrite length_imap. Qed.

(** ** The frame of [put] *)

Lemma rows_put {V} (m : gmap ExecId (gmap Z V)) id k v : rows (put m id k v) id = <[k := v]> (rows m id).
Proof. unfold rows at 1, put. by rewrite lookup_insert_eq. Qed.

Lemma rows_put_ne {V} (m : gmap ExecId (gmap Z V)) id id' k v : id <> id' -> rows (put m id k v) id' = rows m id'.
Proof. intros Hne. unfold rows, put. by rewrite lookup_insert_ne. Qed.

Lemma rows_remove {V} (m : gmap ExecId (gmap Z V)) id k : rows (remove m id k) id = delete k (rows m id).
Proof. unfold rows at 1, remove. by rewrite lookup_insert_eq. Qed.

Lemma rows_remove_ne {V} (m : gmap ExecId (gmap Z V)) id id' k : id <> id' -> rows (remove m id k) id' = rows m id'.
Proof. intros Hne. unfold rows, remove. by rewrite lookup_insert_ne. Qed.

(** ** What a transaction leaves *)

(** Outside a transaction an unpoisoned connection sees the last commit and has
    nothing to publish. *)
Definition settled (db : Database) : Prop := poisoned db = false -> view db = disk db /\ pending db = [].

(** The operations only touch the view, the pending changes and files. *)
Definition in_view (db db' : Database) : Prop :=
  disk db' = disk db /\ host_id db' = host_id db /\ poisoned db' = poisoned db /\ changes db' = changes db
  /\ blob_dir db' = blob_dir db.

Lemma in_view_refl db : in_view db db.
Proof. done. Qed.

Lemma in_view_trans db1 db2 db3 : in_view db1 db2 -> in_view db2 db3 -> in_view db1 db3.
Proof. intros (?&?&?&?&?) (?&?&?&?&?). unfold in_view. split_and!; congruence. Qed.

Definition scoped {A} (m : db_op A) : Prop := forall db, in_view db (m db).2.

Lemma scoped_bind {A B} (m : db_op A) (f : A -> db_op B) :
  scoped m -> (forall a, scoped (f a)) -> scoped (sbind m f).
Proof.
  intros Hm Hf db. specialize (Hm db). unfold sbind. destruct (m db) as [[a|e|] db1]; simpl in *; try done.
  eapply in_view_trans; [done|apply Hf].
Qed.
Lemma scoped_read {A} (f : Database -> result StoreError A) : scoped (sread f).
Proof. done. Qed.
Lemma scoped_select {A} (f : Tables -> result StoreError A) : scoped (select f).
Proof. done. Qed.
Lemma scoped_ret {A} (a : A) : scoped (sret a).
Proof. done. Qed.
Lemma scoped_update f : scoped (update f).
Proof. done. Qed.
Lemma scoped_constraint b : scoped (constraint b).
Proof. done. Qed.
Lemma scoped_record k : scoped (record_change k).
Proof. intros db. unfold record_change, smodify. simpl. by case_bool_decide. Qed.
#[export] Hint Resolve scoped_read scoped_select scoped_ret scoped_update scoped_constraint scoped_record : arena.

Lemma publish_noErr {E} keys log (e : E) : publish keys log <> Err e.
Proof.
  unfold publish. revert log. induction keys as [|k l IH]; intros log; [done|]. simpl. unfold push_key at 1.
  destruct (_ <? _); [done|]. cbn [rbind]. apply IH.
Qed.

Lemma commit_ends {A} f (a : A) db db1 r db' :
  in_view db db1 -> poisoned db = false -> commit_result f a db1 = (r, db') ->
  host_id db' = host_id db /\ blob_dir db' = blob_dir db /\
  match r with
  | Ok a' => a' = a /\ settled db' /\ poisoned db' = false /\ disk db' = view db1 /\ files db' = files db1
              /\ publish (E:=StoreError) (pending db1) (changes db) = Ok (changes db')
  | Err e => settled db' /\ disk db' = disk db /\ changes db' = changes db /\ files db' = files db1
  | Panic => True
  end.
Proof.
  intros (Hd & Hh & Hpo & Hc & Hb) Hp Ht. unfold commit_result, rollback, sbind, smodify, sread, sret in Ht. destruct (f_commit f).
  - destruct (f_rollback f); cbn in Ht; simplify_eq; simpl; unfold settled; simpl; split_and!; auto; try (intros ?; discriminate); congruence.
  - cbn [view disk pending changes set_disk] in Ht.
    destruct (publish (E:=StoreError) (pending db1) (changes db1)) as [log|e|] eqn:Hl; simplify_eq; simpl.
    + unfold settled. simpl. split_and!; auto; try (intros ?; discriminate); congruence.
    + by apply publish_noErr in Hl.
    + done.
Qed.

(** Every way a transaction can end: committed, or the disk as it was. *)
Lemma transaction_ends {A} f (m : db_op A) db r db' :
  settled db -> scoped m -> transaction f m db = (r, db') ->
  host_id db' = host_id db /\ blob_dir db' = blob_dir db /\
  match r with
  | Ok a => exists db1, m db = (Ok a, db1) /\ view db = disk db /\ settled db' /\ poisoned db' = false
              /\ disk db' = view db1 /\ files db' = files db1
              /\ publish (E:=StoreError) (pending db1) (changes db) = Ok (changes db')
  | Err e => settled db' /\ disk db' = disk db /\ changes db' = changes db
              /\ (files db' = files db \/ files db' = files (m db).2)
  | Panic => True
  end.
Proof.
  intros Hs Hm Ht. unfold transaction, begin_tx in Ht. unfold sbind, sread in Ht.
  destruct (poisoned db) eqn:Hp; cbn in Ht; [simplify_eq; split_and!; auto|].
  destruct (f_begin f); cbn in Ht; [simplify_eq; split_and!; auto|].
  specialize (Hm db). destruct (m db) as [[a|e|] db1]; cbn [snd] in *.
  - apply (commit_ends _ _ db) in Ht as (? & ? & Hr); [|done..]. split_and!; try done.
    destruct r as [a'|e|]; [|naive_solver|done]. destruct Hr as (-> & ?). destruct (Hs Hp) as [Hv _]. by exists db1.
  - destruct Hm as (Hd & Hh & Hpo & Hc & Hb). unfold rollback_result, rollback, sbind, smodify, sread in Ht.
    destruct (f_rollback f); cbn in Ht; simplify_eq; simpl; unfold settled; simpl; split_and!; auto; try (intros ?; discriminate); congruence.
  - simplify_eq. destruct Hm as (Hd & Hh & Hpo & Hc & Hb). done.
Qed.

(** A panic inside the operation leaves the disk; one while publishing the change
    keys comes after the commit. *)
Lemma transaction_panics {A} f (m : db_op A) db db' :
  settled db -> scoped m -> transaction f m db = (Panic, db') ->
  disk db' = disk db \/ exists a db1, m db = (Ok a, db1) /\ view db = disk db /\ disk db' = view db1.
Proof.
  intros Hs Hm Ht. unfold transaction, begin_tx, sbind, sread in Ht.
  destruct (poisoned db) eqn:Hp; cbn in Ht; [done|]. destruct (f_begin f); cbn in Ht; [done|].
  specialize (Hm db). destruct (m db) as [[a|e|] db1]; cbn [snd] in *.
  - right. exists a, db1. destruct (Hs Hp) as [Hv _]. split_and!; try done.
    unfold commit_result, rollback, sbind, smodify, sread, sret in Ht.
    destruct (f_commit f); [by destruct (f_rollback f)|]. cbn [view disk pending changes set_disk] in Ht.
    by destruct (publish (E:=StoreError) (pending db1) (changes db1)); simplify_eq.
  - unfold rollback_result, rollback, sbind, smodify, sread in Ht. by destruct (f_rollback f).
  - simplify_eq. left. apply Hm.
Qed.
