(* ===== verification/Persist.v ===== *)
(** * Writing executions (store/src/database/execution.rs, timers.rs, blobs.rs)

    [create_execution] and [persist]: the aggregate's row with its index columns,
    the event record of a dispatch, the agreed step with its post-state, the timers
    its effects arm, the blob changes, and the publication of a terminal receipt
    (database/receipt.rs), all inside one transaction. *)

From S2P Require Import Prelude Borsh Crypto Session Trace Negotiation Evidence Validation Receipt.
From S2P Require Import Frame Execution Canonical StateCodec Envelope ChangeLog Database.

(** ** Changes *)

(** protocol/src/execution/blob.rs. *)
Inductive BlobChange :=
| BlobAppend (hash : BlobHash) (length offset : Z) (data : bytes)
| BlobCommit (hash : BlobHash).

Inductive Change :=
| ChState
| ChDispatch (event : Event) (effects : list Effect) (timer : option TimerId) (blobs : list BlobChange)
| ChStepSignature (certified : option SharedProposal)
| ChPublish (artifact : ReceiptArtifact).

Record TransitionRecord := MkTransition {
  expected : Z;
  next : ExecutionState;
  change : Change;
  now_ms : Z }.

Record StateColumns := MkColumns {
  col_participant_ids : bytes;
  col_participants : Z;
  col_callout_id : option Z;
  col_callout_index : option Z;
  col_terminal_reason : option bytes;
  col_outcome_json : option bytes }.

Definition MAX_ACTIVE_TIMERS : Z := 64.
Definition MAX_TIMER_RECORD_BYTES : Z := MAX_TIMER_PAYLOAD_BYTES + MAX_TERMINAL_REASON_BYTES + 16.

(** [FileExt::write_all_at]: a gap before the offset reads as zeros. *)
Definition write_at (content : bytes) (offset : nat) (data : bytes) : bytes :=
  take offset (content ++ replicate (offset - length content) 0) ++ data ++ drop (offset + length data) content.

(** [blake3::Hash::to_hex]: two lower-case digits per byte, from the first byte. *)
Definition hex_digit (d : Z) : Z := if d <? 10 then 48 + d else 87 + d.
Definition to_hex (h : Z) : bytes :=
  flat_map (fun b => [hex_digit (b / 16); hex_digit (b mod 16)]) (reverse (le_bytes 32 h)).

Section Persist.
Context `{Crypto}.

(** ** The aggregate's row *)

Definition state_bytes (s : ExecutionState) : result StoreError bytes := map_err Protocol (encode s).

Definition columns_of (s : ExecutionState) : result StoreError StateColumns :=
  let? ids := encode_borsh (c_vec u32_max c_id) (participants (binding s)) "participant index" in
  let? count := expect (let n := zlen (binding_tickets (binding s)) in
                        if i64_max <? n then None else Some n) in
  let? reason := match lifecycle s with
                 | LAborted | LFailed =>
                     match terminal_cause (status s) with
                     | Some cause => rmap Some (bounded_reason (cause_reason cause))
                     | None => Ok None
                     end
                 | _ => Ok None
                 end in
  let json := match lifecycle s with LCompleted => json_bytes <$> terminal_outcome s | _ => None end in
  Ok (MkColumns ids count (bits_i64 ∘ callout_id_ <$> callout s) (callout_index <$> callout s) reason json).

Definition insert_execution (s : ExecutionState) (now : Z) : db_op unit :=
  (let! bs := sread (fun _ => state_bytes s) in
   let! c := sread (fun _ => columns_of s) in
   let! r := sread (fun db =>
     let? sealed := seal KindExecutionState bs in
     let? v := sqlite_u64 (version s) in
     let? step := sqlite_u64 (agreed_step s) in
     let? pos := sqlite_u64 (event_position s) in
     let? now := sqlite_u64 now in
     let? e := end_columns (end_phase s) in
     let? opened := sqlite_opt ((fun _ => now) <$> callout s) in
     Ok (MkExecRow (host_id db) (producer s) (session_id (binding s)) sealed e.1 e.2
           (col_participant_ids c) (col_participants c) (col_callout_id c) (col_callout_index c) opened
           (col_terminal_reason c) (col_outcome_json c) None v (lifecycle_tag (lifecycle s)) step pos now now)) in
   constraint (check_exec_row r) ;;!
   let! t := select (fun t => Ok t) in
   constraint (negb (has (executions t) (execution_id s))) ;;!
   constraint (has (activation_records t) (execution_id s)) ;;!
   update (fun t => set_executions (<[execution_id s := r]> (executions t)) t) ;;!
   record_change (ChExec (execution_id s))).

(** The [SET] clause of [persist_state]. *)
Definition updated_row (r : ExecRow) (s : ExecutionState) (c : StateColumns) (sealed : bytes)
    (v step pos now : Z) (e : Z * bytes) : ExecRow :=
  let opened := match col_callout_id c with
                | None => None
                | Some id => if opt_eqb (x_callout_id r) (Some id) then x_callout_opened r else Some now
                end in
  MkExecRow (x_host r) (x_producer r) (x_session r) sealed e.1 e.2
    (col_participant_ids c) (col_participants c) (col_callout_id c) (col_callout_index c) opened
    (col_terminal_reason c) (col_outcome_json c) (x_last_step r)
    v (lifecycle_tag (lifecycle s)) step pos (x_created r) now.

Definition persist_state (expected : Z) (s : ExecutionState) (now : Z) : db_op unit :=
  (let! bs := sread (fun _ => state_bytes s) in
   let! c := sread (fun _ => columns_of s) in
   let! sealed := sread (fun _ => seal KindExecutionState bs) in
   let! v := sread (fun _ => sqlite_u64 (version s)) in
   let! step := sread (fun _ => sqlite_u64 (agreed_step s)) in
   let! pos := sread (fun _ => sqlite_u64 (event_position s)) in
   let! now := sread (fun _ => sqlite_u64 now) in
   let! expected := sread (fun _ => sqlite_u64 expected) in
   let! e := sread (fun _ => end_columns (end_phase s)) in
   let! old := select (fun t => Ok (executions t !! execution_id s)) in
   match old with
   | Some r =>
       if x_version r =? expected then
         let r' := updated_row r s c sealed v step pos now e in
         constraint (check_exec_row r') ;;!
         update (fun t => set_executions (<[execution_id s := r']> (executions t)) t) ;;!
         record_change (ChExec (execution_id s))
       else sread (fun _ => corrupt "execution version moved")
   | None => sread (fun _ => corrupt "execution version moved")
   end).

(** ** Events and agreed steps *)

Definition dispatch_digest (event effects : bytes) : Z :=
  blake3 (bytes_of_string "arena0/store/event/v2" ++ event ++ effects).

Definition insert_event_record (id : ExecId) (position : Z) (event effects : bytes) : db_op unit :=
  (let! pos := sread (fun _ => sqlite_u64 position) in
   let! sealed_event := sread (fun _ => seal KindEventRecord event) in
   let! sealed_effects := sread (fun _ => seal KindEffects effects) in
   let! t := select (fun t => Ok t) in
   constraint (0 <=? pos) ;;!
   constraint (negb (is_some (row (event_records t) id pos))) ;;!
   constraint (has (executions t) id) ;;!
   update (fun t => set_event_records
     (put (event_records t) id pos (MkEventRow sealed_event sealed_effects (dispatch_digest event effects))) t)).

(** [UPDATE executions SET last_step_at_ms = ?]. *)
Definition with_last_step (at_ms : Z) (r : ExecRow) : ExecRow :=
  MkExecRow (x_host r) (x_producer r) (x_session r) (x_state r) (x_end_phase r) (x_end_unconfirmed r)
    (x_participant_ids r) (x_participants r) (x_callout_id r) (x_callout_index r) (x_callout_opened r)
    (x_terminal_reason r) (x_outcome_json r) (Some at_ms) (x_version r) (x_lifecycle r) (x_agreed_step r)
    (x_event_position r) (x_created r) (x_updated r).

Definition insert_agreed_step (id : ExecId) (origin version : Z) (e : TraceEntry) (shared : bytes) (now : Z)
    : db_op unit :=
  (let! bs := sread (fun _ => encode_borsh c_entry e "agreed entry") in
   let! n := sread (fun _ => sqlite_u64 (step e)) in
   let! origin := sread (fun _ => sqlite_u64 origin) in
   let! v := sread (fun _ => sqlite_u64 version) in
   let! artifact := sread (fun _ => seal KindAgreedStep bs) in
   let! h := sread (fun _ => entry_hash e) in
   let! at_ms := sread (fun _ => sqlite_u64 now) in
   let! t := select (fun t => Ok t) in
   constraint ((0 <=? n) && (0 <=? origin) && (0 <=? v) && (0 <=? at_ms)) ;;!
   constraint (negb (is_some (row (agreed_steps t) id n))) ;;!
   constraint (has (executions t) id) ;;!
   update (fun t => set_agreed_steps
     (put (agreed_steps t) id n (MkStepRow origin v artifact h at_ms (post_state e))) t) ;;!
   let! image := sread (fun _ => seal KindStepState shared) in
   let! t := select (fun t => Ok t) in
   constraint (negb (is_some (row (step_states t) id n))) ;;!
   constraint (is_some (row (agreed_steps t) id n)) ;;!
   update (fun t => set_step_states (put (step_states t) id n image) t) ;;!
   update (fun t => match executions t !! id with
                    | Some r => set_executions (<[id := with_last_step at_ms r]> (executions t)) t
                    | None => t
                    end) ;;!
   record_change (ChStep id (step e)) ;;!
   record_change (ChExec id)).

(** ** Timers *)

Definition TIMER_DOMAIN : bytes := bytes_of_string "arena0/timer/v2".
Definition timer_derive (label : bytes) : TimerId := blake3 (TIMER_DOMAIN ++ label).
Definition c_timer_label : codec (ExecId * (Z * Z)) := c_pair c_id (c_pair c_u64 c_u32).

Definition persist_timer (id : ExecId) (position version ordinal delay : Z) (timer : TimerPayload) (now : Z)
    : db_op unit :=
  (let! label := sread (fun _ => encode_borsh c_timer_label (id, (position, ordinal)) "timer id") in
   let timer_id := timer_derive label in
   let! deadline := sread (fun _ => ok_or (checked_add now delay) (Corruption "timer deadline overflows u64")) in
   let! bs := sread (fun _ => encode_borsh c_timer timer "timer payload") in
   let! _ := sread (fun _ => err_if (MAX_TIMER_RECORD_BYTES <? zlen bs)
                               (Corruption "timer payload exceeds store bound")) in
   let! sealed := sread (fun _ => seal KindTimer bs) in
   let! t := select (fun t => Ok t) in
   match row (active_timers t) id timer_id with
   | Some old =>
       let! d := sread (fun _ => sqlite_i64 (tm_deadline old)) in
       let! v := sread (fun _ => if negb (d =? deadline) || negb (bool_decide (tm_payload old = sealed))
                                 then Ok None else rmap Some (sqlite_i64 (tm_armed old))) in
       sread (fun _ => err_if (negb (opt_eqb v (Some version)))
                         (Corruption "timer identity was reused with different evidence"))
   | None =>
       let count := Z.of_nat (size (rows (active_timers t) id)) in
       let! _ := sread (fun _ => err_if (MAX_ACTIVE_TIMERS <=? count)
         (Protocol (CollectionTooLarge "active timers" (count + 1) MAX_ACTIVE_TIMERS))) in
       let! deadline := sread (fun _ => sqlite_u64 deadline) in
       let! v := sread (fun _ => sqlite_u64 version) in
       constraint ((0 <=? deadline) && (0 <=? v)) ;;!
       constraint (has (executions t) id) ;;!
       update (fun t => set_active_timers
         (put (active_timers t) id timer_id (MkTimerRow deadline sealed v)) t)
   end).

(** A loop over a method. *)
Fixpoint for_each {A} (f : A -> db_op unit) (l : list A) : db_op unit :=
  match l with
  | [] => sret tt
  | x :: l => f x ;;! for_each f l
  end.

(** Other effects have no side rows. *)
Definition persist_effects (id : ExecId) (position version : Z) (effects : list (Z * Effect)) (now : Z)
    : db_op unit :=
  for_each (fun p => match p.2 with
                     | SetTimer delay timer => persist_timer id position version p.1 delay timer now
                     | _ => sret tt
                     end) effects.

Definition consume_timer (id : ExecId) (timer : TimerId) : db_op unit :=
  (let! t := select (fun t => Ok t) in
   if is_some (row (active_timers t) id timer)
   then update (fun t => set_active_timers (remove (active_timers t) id timer) t)
   else sread (fun _ => corrupt "timer consume compare-and-set failed")).

Definition indexed_effects (effects : list Effect) : result StoreError (list (Z * Effect)) :=
  let l := imap (fun i e => (Z.of_nat i, e)) effects in
  try_for_each (fun p => err_if (u32_max <? p.1) (StorePayloadTooLarge p.1 u32_max)) l ;;? Ok l.

Definition commit_staged_event (id : ExecId) (p : SharedProposal) (version now : Z) : db_op unit :=
  (let! t := select (fun t => Ok t) in
   let! pos := sread (fun _ => sqlite_u64 (pr_event_position p)) in
   let! _ := sread (fun _ => err_if (negb (is_some (row (event_records t) id pos)))
                               (Corruption "step signature did not find its event record")) in
   insert_agreed_step id (pr_event_position p) version (entry p) (pr_shared_state p) now ;;!
   persist_effects id (pr_event_position p) version (pr_effects p) now).

(** ** Blobs *)

(** [received_path]: [<blob_dir>/recv-<execution>-<hash>]. *)
Definition received_path (dir : bytes) (id : ExecId) (hash : BlobHash) : bytes :=
  dir ++ bytes_of_string "/recv-" ++ to_hex id ++ bytes_of_string "-" ++ to_hex hash.

Definition blob_partial (t : Tables) (id : ExecId) (hash : BlobHash) : result StoreError (option PartialRow) :=
  match row (blob_partials t) id hash with
  | Some p =>
      let? l := sqlite_i64 (pt_length p) in
      let? w := sqlite_i64 (pt_written p) in
      Ok (Some (MkPartialRow l w (pt_committed p)))
  | None => Ok None
  end.

Definition write_file (path content : bytes) : db_op unit :=
  smodify (fun db => set_files (<[path := content]> (files db)) db).

(** Opening, writing and syncing the file succeed, except that an existing partial's file
    may be missing. *)
Definition apply_blob_append (id : ExecId) (hash : BlobHash) (length offset : Z) (data : bytes) : db_op unit :=
  (let! partial := select (fun t => blob_partial t id hash) in
   let stale := match partial with
                | None => negb (offset =? 0)
                | Some r => pt_committed r || negb (pt_length r =? length) || negb (pt_written r =? offset)
                end in
   let! _ := sread (fun _ => err_if stale (Corruption "blob append does not continue the partial")) in
   let! path := sread (fun db => Ok (received_path (blob_dir db) id hash)) in
   let! written := sread (fun _ => expect (checked_add offset (zlen data))) in
   match partial with
   | None =>
       write_file path data ;;!
       let! l := sread (fun _ => sqlite_u64 length) in
       let! w := sread (fun _ => sqlite_u64 written) in
       update (fun t => set_blob_partials (put (blob_partials t) id hash (MkPartialRow l w false)) t)
   | Some r =>
       let! content := sread (fun db => ok_or (files db !! path) StoreIo) in
       write_file path (write_at content (Z.to_nat offset) data) ;;!
       let! w := sread (fun _ => sqlite_u64 written) in
       update (fun t => set_blob_partials (put (blob_partials t) id hash
                          (MkPartialRow (pt_length r) w (pt_committed r))) t)
   end).

Definition apply_blob_commit (id : ExecId) (hash : BlobHash) : db_op unit :=
  (let! partial := select (fun t => blob_partial t id hash) in
   let incomplete := sread (fun _ => corrupt "committing an incomplete blob partial") in
   match partial with
   | None => incomplete
   | Some r =>
       if pt_committed r || negb (pt_written r =? pt_length r) then incomplete else
       let! path := sread (fun db => Ok (received_path (blob_dir db) id hash)) in
       let! _ := sread (fun _ => err_if (negb (utf8_valid path)) StoreIo) in
       let! l := sread (fun _ => sqlite_u64 (pt_length r)) in
       let! t := select (fun t => Ok t) in
       let keep := match blobs t !! hash with Some b => negb (bl_linked b) | None => false end in
       (if keep then sret tt else
          update (fun t => set_blobs (<[hash := MkBlobRow l path false]> (blobs t)) t) ;;!
          record_change (ChBlob hash)) ;;!
       update (fun t => set_blob_grants
         (<[id := {[ hash ]} ∪ default ∅ (blob_grants t !! id)]> (blob_grants t)) t) ;;!
       update (fun t => set_blob_partials (put (blob_partials t) id hash
                          (MkPartialRow (pt_length r) (pt_written r) true)) t)
   end).

Definition apply_blob_changes (id : ExecId) (l : list BlobChange) : db_op unit :=
  for_each (fun c => match c with
                     | BlobAppend hash length offset data => apply_blob_append id hash length offset data
                     | BlobCommit hash => apply_blob_commit id hash
                     end) l.
End Persist.
