(* ===== verification/Store.v ===== *)
(** * The store's calls (store/src/database/execution.rs, receipt.rs, activation.rs,
      step_state.rs, database.rs)

    [create_execution], [persist], [import_receipt]; what [load_execution],
    [load_receipt_by_id], [step_state] and [read_agreed_steps] return; and the
    evidence [validate_database] checks when a store is opened. *)

From S2P Require Import Prelude Borsh Crypto Session Trace Negotiation Evidence Validation Receipt.
From S2P Require Import Frame Execution Publish Canonical StateCodec Envelope ChangeLog Database Persist.

#[global] Instance ReceiptKind_eq_dec : EqDecision ReceiptKind.
Proof. solve_decision. Defined.
#[global] Instance ReceiptTermination_eq_dec : EqDecision ReceiptTermination.
Proof. solve_decision. Defined.
#[global] Instance SessionHeader_eq_dec : EqDecision SessionHeader.
Proof. solve_decision. Defined.
#[global] Instance ReceiptBody_eq_dec : EqDecision ReceiptBody.
Proof. solve_decision. Defined.
#[global] Instance ReceiptArtifact_eq_dec : EqDecision ReceiptArtifact.
Proof. solve_decision. Defined.
#[global] Instance EndPhase_eq_dec : EqDecision EndPhase.
Proof. solve_decision. Defined.
#[global] Instance DirectEntry_eq_dec : EqDecision DirectEntry.
Proof. solve_decision. Defined.
#[global] Instance DirectLane_eq_dec : EqDecision DirectLane.
Proof. solve_decision. Defined.
#[global] Instance ExecutionBinding_eq_dec : EqDecision ExecutionBinding.
Proof. solve_decision. Defined.
#[global] Instance SharedProposal_eq_dec : EqDecision SharedProposal.
Proof. solve_decision. Defined.
#[global] Instance ExecutionState_eq_dec : EqDecision ExecutionState.
Proof. solve_decision. Defined.

Inductive ReceiptImportOutcome := WasImported | AlreadyImported | AlreadyProduced.
Inductive CreateExecutionOutcome := Created (s : ExecutionState) | AlreadyExists (s : ExecutionState).

Record StoredReceipt := MkStored { sr_id : ReceiptId; sr_provenance : ReceiptProvenance; sr_receipt : ReceiptArtifact }.
Record AgreedStepRecord := MkAgreedStep { ag_certified_at : Z; ag_entry : TraceEntry }.

(** summary.rs. *)
Record ActivationFacts := MkFacts {
  fa_negotiation : NegotiationId;
  fa_offer : OfferHash;
  fa_creator : PeerId;
  fa_target : Z;
  fa_initial : StateHash;
  fa_participants : list (PeerId * TicketHash);
  fa_params : bytes }.
#[global] Instance ActivationFacts_eq_dec : EqDecision ActivationFacts.
Proof. solve_decision. Defined.

Definition c_facts : codec ActivationFacts :=
  c_iso (c_pair c_id (c_pair c_id (c_pair c_id (c_pair c_u16 (c_pair c_id
           (c_pair (c_vec u32_max (c_pair c_id c_id)) (c_bytes u32_max)))))))
    (fun f => (fa_negotiation f, (fa_offer f, (fa_creator f, (fa_target f, (fa_initial f,
                (fa_participants f, fa_params f)))))))
    (fun p => MkFacts p.1 p.2.1 p.2.2.1 p.2.2.2.1 p.2.2.2.2.1 p.2.2.2.2.2.1 p.2.2.2.2.2.2)
    (fun f => match f with MkFacts _ _ _ _ _ _ _ => eq_refl end).

(** [ActivationRecord]: [committed] is the certificate, when there is one. *)
Record ActivationRecord := MkActivationRecord {
  rec_id : ExecId;
  rec_prepared : PreparedActivation;
  rec_committed : option Activation;
  rec_updated : Z }.

Definition MAX_ACTIVATION_BYTES : Z := 16 * 1024 * 1024.
Definition DATABASE_VALIDATION_PAGE_SIZE : nat := 64.

Section Store.
Context `{Crypto}.

(** ** Activation records *)

Definition facts_of {E} (p : PreparedActivation) : result E ActivationFacts :=
  let o := offer_data (p_offer p) in
  let? h := offer_hash_of o in
  let? ps := try_fold (fun acc t => let? th := ticket_hash_of (ticket_data t) in
                                    Ok (acc ++ [(ticket_signer t, th)])) [] (p_tickets p) in
  Ok (MkFacts (o_negotiation_id o) h (creator o) (target_size o) (initial_state o) ps (params o)).

(** [RawActivationRow::decode]. *)
Definition decode_activation_row (id : ExecId) (r : ActivationRow) : result StoreError ActivationRecord :=
  let? bs := open KindPreparedActivation (ar_prepared r) MAX_ACTIVATION_BYTES in
  let? p := decode_borsh c_prepared bs "prepared activation" in
  map_err (fun _ => Corruption "prepared activation") (prepared_validate p) ;;?
  let? facts := decode_borsh c_facts (ar_facts r) "activation facts" in
  let? expected := facts_of p in
  err_if (negb (bool_decide (facts = expected))) (Corruption "activation facts do not match decoded activation") ;;?
  err_if (p_session_hash p =? 0) (Corruption "activation has zero session identity") ;;?
  err_if (negb (p_session_hash p =? ar_session r))
    (Corruption "activation session index does not match prepared evidence") ;;?
  let? committed := match ar_committed r with
                    | Some bs =>
                        let? bs := open KindActivation bs MAX_ACTIVATION_BYTES in
                        let? a := decode_borsh c_activation bs "activation" in
                        map_err (fun _ => Corruption "activation") (activation_validate a) ;;?
                        err_if (negb (prepared_matches p a))
                          (Corruption "committed activation does not match prepared evidence") ;;?
                        Ok (Some a)
                    | None => Ok None
                    end in
  err_if (negb (Bool.eqb (bool_decide (ar_status r = StPrepared)) (negb (is_some committed))))
    (Corruption "activation status and committed evidence disagree") ;;?
  let? at_ms := sqlite_i64 (ar_updated r) in
  Ok (MkActivationRecord id p committed at_ms).

Definition load_activation (t : Tables) (id : ExecId) : result StoreError (option ActivationRecord) :=
  match activation_records t !! id with
  | Some r => rmap Some (decode_activation_row id r)
  | None => Ok None
  end.

(** ** Receipts *)

(** [decode_stored_receipt]. *)
Definition decode_stored_receipt (host : PeerId) (t : Tables) (rid : ReceiptId) (r : ReceiptRow)
    : result StoreError (StoredReceipt * option ExecId) :=
  let? bs := open KindReceipt (rc_artifact r) MAX_RECEIPT_BYTES in
  let? a := map_err (fun _ => Corruption "receipt decode") (artifact_decode bs) in
  let act := h_activation (header (artifact_body a)) in
  err_if (negb (receipt_id a =? rid) || negb (act_session_hash act =? rc_session r)
          || negb (bool_decide (artifact_kind a = rc_kind r))
          || negb (program_hash (act_offer_data act) =? rc_program r)
          || negb (Bool.eqb (match termination (artifact_body a) with TCompleted => true | _ => false end)
                     (rc_completed r)))
    (Corruption "receipt indexes do not match its artifact") ;;?
  let imported := has (receipt_imports t) rid in
  let produced := receipt_productions t !! rid in
  match produced with
  | Some id =>
      err_if (negb match executions t !! id with
                   | Some x => (x_session x =? rc_session r) && (x_producer x =? host) && negb (x_end_phase x =? 0)
                   | None => false
                   end) (Corruption "produced receipt is not bound to its Host execution")
  | None => Ok tt
  end ;;?
  let? prov := ok_or (from_facts imported (is_some produced)) (Corruption "receipt artifact has no provenance fact") in
  Ok (MkStored rid prov a, produced).

Definition load_receipt_by_id (host : PeerId) (t : Tables) (rid : ReceiptId) : result StoreError (option StoredReceipt) :=
  match receipts t !! rid with
  | Some r => rmap (fun p => Some p.1) (decode_stored_receipt host t rid r)
  | None => Ok None
  end.

Definition insert_artifact (a : ReceiptArtifact) (now : Z) : db_op unit :=
  (let! bs := sread (fun _ => map_err Protocol (artifact_encode a)) in
   let! a' := sread (fun _ => map_err Protocol (artifact_decode bs)) in
   let! _ := sread (fun _ => err_if (negb (bool_decide (a' = a))) (Corruption "receipt codec changed the artifact content")) in
   let rid := receipt_id a in
   let act := h_activation (header (artifact_body a)) in
   let session := act_session_hash act in
   let! t := select (fun t => Ok t) in
   match receipts t !! rid with
   | Some r =>
       let! payload := sread (fun _ => open KindReceipt (rc_artifact r) MAX_RECEIPT_BYTES) in
       sread (fun _ => err_if (negb (bool_decide (payload = bs)) || negb (rc_session r =? session)
                               || negb (bool_decide (rc_kind r = artifact_kind a)))
         (Corruption "receipt identity is already bound to different content"))
   | None =>
       let canonical p := match p with
                          | (_, r) => (rc_session r =? session) && bool_decide (rc_kind r = KReceipt)
                          end in
       let! _ := sread (fun _ => err_if (bool_decide (artifact_kind a = KReceipt)
                                         && existsb canonical (map_to_list (receipts t)))
         (Corruption "session already has a different canonical receipt")) in
       let! sealed := sread (fun _ => seal KindReceipt bs) in
       let! at_ms := sread (fun _ => sqlite_u64 now) in
       constraint (0 <=? at_ms) ;;!
       update (fun t => set_receipts (<[rid :=
         MkReceiptRow session (artifact_kind a) sealed (program_hash (act_offer_data act))
           (match termination (artifact_body a) with TCompleted => true | _ => false end) at_ms]> (receipts t)) t) ;;!
       record_change (ChReceipt rid)
   end).

(** The receipt an execution produced: [receipt_productions.execution_id] is unique. *)
Definition production_of (t : Tables) (id : ExecId) : option ReceiptId :=
  fst <$> List.find (fun p => p.2 =? id) (map_to_list (receipt_productions t)).

Definition persist_terminal_publication (id : ExecId) (a : ReceiptArtifact) (now : Z) : db_op unit :=
  (insert_artifact a now ;;!
   let! t := select (fun t => Ok t) in
   match production_of t id with
   | Some published =>
       sread (fun _ => err_if (negb (published =? receipt_id a))
         (Corruption "terminal publication identity was reused with different evidence"))
   | None =>
       let! _ := sread (fun _ => err_if (has (receipt_productions t) (receipt_id a))
         (Corruption "receipt is already produced by another execution")) in
       constraint (has (receipts t) (receipt_id a) && has (executions t) id) ;;!
       update (fun t => set_receipt_productions (<[receipt_id a := id]> (receipt_productions t)) t) ;;!
       record_change (ChReceipt (receipt_id a)) ;;!
       for_each (fun p => record_change (ChExec p.1))
         (filter (fun p => x_session p.2 = act_session_hash (h_activation (header (artifact_body a))))
            (ordered (executions t)))
   end).

Definition import_receipt_in_transaction (a : ReceiptArtifact) (now : Z) : db_op ReceiptImportOutcome :=
  (let! stored := sread (fun db => load_receipt_by_id (host_id db) (view db) (receipt_id a)) in
   let! _ := sread (fun _ => err_if match stored with
                                    | Some r => negb (bool_decide (sr_receipt r = a))
                                    | None => false
                                    end (Corruption "receipt identity is already bound to different content")) in
   insert_artifact a now ;;!
   let! t := select (fun t => Ok t) in
   if has (receipt_imports t) (receipt_id a) then sret AlreadyImported else
   let! at_ms := sread (fun _ => sqlite_u64 now) in
   constraint ((0 <=? at_ms) && has (receipts t) (receipt_id a)) ;;!
   update (fun t => set_receipt_imports (<[receipt_id a := at_ms]> (receipt_imports t)) t) ;;!
   record_change (ChReceipt (receipt_id a)) ;;!
   sret (if is_some stored then AlreadyProduced else WasImported)).

Definition import_receipt (f : Faults) (a : ReceiptArtifact) (now : Z) : db_op ReceiptImportOutcome :=
  transaction f (import_receipt_in_transaction a now).

(** ** [persist] *)

(** The side rows of a change: the [match change] of [persist_in_transaction]. *)
Definition persist_change (id : ExecId) (s : ExecutionState) (c : Change) (now : Z) : db_op unit :=
  match c with
  | ChState => sret tt
  | ChDispatch event effects timer blobs =>
      (apply_blob_changes id blobs ;;!
       let! pos := sread (fun _ => if event_position s =? 0 then corrupt "dispatch event position is zero"
                                   else Ok (event_position s - 1)) in
       let! ev := sread (fun _ => encode_borsh c_event event "event") in
       let! ef := sread (fun _ => encode_borsh (c_vec u32_max c_effect) effects "effects") in
       insert_event_record id pos ev ef ;;!
       (if is_some (proposal s) then sret tt else
          let! l := sread (fun _ => indexed_effects effects) in
          persist_effects id pos (version s) l now) ;;!
       match timer with Some tid => consume_timer id tid | None => sret tt end)
  | ChStepSignature (Some p) => commit_staged_event id p (version s) now
  | ChStepSignature None => sret tt
  | ChPublish a => persist_terminal_publication id a now
  end.

Definition persist_in_transaction (id : ExecId) (r : TransitionRecord) : db_op unit :=
  (let s := next r in
   let! _ := sread (fun db => err_if (negb (execution_id s =? id) || negb (producer s =? host_id db))
                                (Corruption "transition execution binding mismatch")) in
   let! old := select (fun t => ok_or (executions t !! id) (ExecutionNotFound id)) in
   let! v := sread (fun _ => sqlite_i64 (x_version old)) in
   let! _ := sread (fun _ => err_if (negb (v =? expected r)) (Corruption "execution version moved")) in
   persist_state (expected r) s (now_ms r) ;;!
   persist_change id s (change r) (now_ms r)).

Definition persist (f : Faults) (id : ExecId) (r : TransitionRecord) : db_op unit :=
  transaction f (persist_in_transaction id r).

(** ** Reads *)

Definition validate_terminal_relation (t : Tables) (s : ExecutionState) : result StoreError unit :=
  let id := execution_id s in
  let produced := filter (fun p => p.2 = id) (map_to_list (receipt_productions t)) in
  err_if (negb (zlen produced =? if is_some (published_receipt_id s) then 1 else 0))
    (Corruption "terminal publication rows do not match execution status") ;;?
  match published_receipt_id s with
  | None => Ok tt
  | Some rid =>
      err_if (negb (match receipts t !! rid with
                    | Some r => (rc_session r =? session_id (binding s)) && opt_eqb (receipt_productions t !! rid) (Some id)
                    | None => false
                    end)) (Corruption "published receipt relation does not match execution state")
  end.

(** [validate_state_indexes]; [r] is the execution's row. *)
Definition validate_state_indexes (t : Tables) (s : ExecutionState) (r : ExecRow) : result StoreError unit :=
  let? e := decode_end (x_end_phase r) (x_end_unconfirmed r) in
  err_if (negb (bool_decide (e = end_phase s))) (Corruption "end phase index does not match state") ;;?
  let mismatch := Corruption "execution scheduling index does not match state" in
  let? v := sqlite_i64 (x_version r) in
  err_if (negb (v =? version s) || negb (x_lifecycle r =? lifecycle_tag (lifecycle s))) mismatch ;;?
  let? step := sqlite_i64 (x_agreed_step r) in
  err_if (negb (step =? agreed_step s)) mismatch ;;?
  let? pos := sqlite_i64 (x_event_position r) in
  err_if (negb (pos =? event_position s)) mismatch ;;?
  let? c := columns_of s in
  let? latest := if agreed_step s =? 0 then Ok None else
                 let? last := sqlite_u64 (agreed_step s - 1) in
                 match row (agreed_steps t) (execution_id s) last with
                 | Some st => Ok (Some (st_certified_at st))
                 | None => corrupt "latest agreed step is missing"
                 end in
  err_if (negb (bool_decide (x_participant_ids r = col_participant_ids c))
          || negb (x_participants r =? col_participants c)
          || negb (opt_eqb (x_callout_id r) (col_callout_id c))
          || negb (opt_eqb (x_callout_index r) (col_callout_index c))
          || negb (Bool.eqb (is_some (x_callout_opened r)) (is_some (x_callout_id r)))
          || negb (bool_decide (x_terminal_reason r = col_terminal_reason c))
          || negb (bool_decide (x_outcome_json r = col_outcome_json c))
          || negb (opt_eqb (x_last_step r) latest))
    (Corruption "execution summary indexes do not match state").

Definition decode_state_row (t : Tables) (id : ExecId) (r : ExecRow) : result StoreError ExecutionState :=
  let? bs := open KindExecutionState (x_state r) MAX_EXECUTION_STATE_BYTES in
  let? s := map_err Protocol (decode bs) in
  err_if (negb (execution_id s =? id) || negb (producer s =? x_producer r)
          || negb (session_id (binding s) =? x_session r))
    (Corruption "execution index does not match decoded state") ;;?
  validate_state_indexes t s r ;;?
  Ok s.

(** [ExecLifecycle::is_terminal]. *)
Definition lifecycle_terminal (l : ExecLifecycle) : bool :=
  match l with LCompleted | LFailed | LAborted => true | _ => false end.

Definition load_execution (host : PeerId) (t : Tables) (id : ExecId) : result StoreError (option ExecutionState) :=
  match executions t !! id with
  | None => Ok None
  | Some r =>
      err_if (negb (x_host r =? host)) (IdentityMismatch (x_host r) host) ;;?
      let? s := decode_state_row t id r in
      (if lifecycle_terminal (lifecycle s) then validate_terminal_relation t s else Ok tt) ;;?
      Ok (Some s)
  end.

(** One turn of [load_agreed_steps_in_transaction]; the accumulator is the trace
    and its size. *)
Definition load_step (t : Tables) (s : ExecutionState) (acc : list AgreedStepRecord * Z) (p : nat * (Z * StepRow))
    : result StoreError (list AgreedStepRecord * Z) :=
  let '(i, (n, r)) := p in
  let? n := sqlite_i64 n in
  err_if (negb (n =? Z.of_nat i)) (Corruption "agreed steps are not gapless") ;;?
  let? origin := sqlite_i64 (st_origin r) in
  let? origin' := sqlite_u64 origin in
  err_if (negb (is_some (row (event_records t) (execution_id s) origin')))
    (Corruption "agreed step origin has no event record") ;;?
  let? v := sqlite_i64 (st_version r) in
  err_if ((v =? 0) || (version s <? v)) (Corruption "agreed step version is invalid") ;;?
  let? bs := open KindAgreedStep (st_artifact r) MAX_TRACE_ENTRY_BYTES in
  let? e := decode_borsh c_entry bs "agreed trace entry" in
  err_if (negb (step e =? n)) (Corruption "agreed step index does not match entry") ;;?
  let? h := entry_hash e in
  err_if (negb (h =? st_entry_hash r) || negb (post_state e =? st_post_state r))
    (Corruption "agreed step index does not match entry") ;;?
  let? size := map_err (fun _ => Corruption "trace size") (object_length c_entry e) in
  let? total := expect (checked_add acc.2 size) in
  let? at_ms := sqlite_i64 (st_certified_at r) in
  Ok (acc.1 ++ [MkAgreedStep at_ms e], total).

Definition load_agreed_steps (t : Tables) (s : ExecutionState) : result StoreError (list AgreedStepRecord) :=
  let? p := try_fold (load_step t s) ([], 0)
              (imap pair (ordered (rows (agreed_steps t) (execution_id s)))) in
  err_if (negb (zlen p.1 =? agreed_step s) || negb (p.2 =? trace_bytes s))
    (Corruption "agreed trace does not match execution cursor") ;;?
  Ok p.1.

Definition load_agreed_trace (t : Tables) (s : ExecutionState) : result StoreError (list TraceEntry) :=
  rmap (map ag_entry) (load_agreed_steps t s).

Definition read_agreed_steps (host : PeerId) (t : Tables) (id : ExecId) (from to : Z)
    : result StoreError (list AgreedStepRecord) :=
  if to <=? from then Ok [] else
  let? o := load_execution host t id in
  let? s := ok_or o (ExecutionNotFound id) in
  let? steps := load_agreed_steps t s in
  let stop := Z.min to (zlen steps) in
  let start := Z.min from stop in
  Ok (take (Z.to_nat stop - Z.to_nat start) (drop (Z.to_nat start) steps)).

(** [ReadDb::step_state]. *)
Definition step_state (t : Tables) (id : ExecId) (step : Z) : result StoreError bytes :=
  let? n := sqlite_u64 step in
  match row (step_states t) id n, row (agreed_steps t) id n with
  | Some sealed, Some st =>
      let? bs := open KindStepState sealed MAX_SHARED_STATE_BYTES in
      let? image := map_err (fun _ => Corruption "step state") (shared_try_new bs) in
      let? h := of_shared image in
      err_if (negb (h =? st_post_state st)) (Corruption "stored step state does not match its post-state") ;;?
      Ok image
  | _, _ => corrupt "agreed step has no stored state"
  end.

(** ** Startup validation *)

Definition validate_event_row (acc : Z) (p : Z * EventRow) : result StoreError Z :=
  let? pos := sqlite_i64 p.1 in
  err_if (negb (pos =? acc)) (Corruption "event positions are not gapless") ;;?
  let? count := ok_or (checked_add acc 1) (Corruption "event count overflow") in
  let? ev := open KindEventRecord (ev_event p.2) MAX_EXECUTION_STATE_BYTES in
  let? ef := open KindEffects (ev_effects p.2) MAX_RECEIPT_BYTES in
  let? _ := decode_borsh c_event ev "event record event" in
  let? effects := decode_borsh (c_vec u32_max c_effect) ef "event record effects" in
  map_err Protocol (check_effect_budget effects) ;;?
  err_if (negb (dispatch_digest ev ef =? ev_digest p.2)) (Corruption "event digest mismatch") ;;?
  Ok count.

Definition validate_event_rows (t : Tables) (s : ExecutionState) : result StoreError unit :=
  let? count := try_fold validate_event_row 0 (ordered (rows (event_records t) (execution_id s))) in
  err_if (negb (count =? event_position s)) (Corruption "event records do not match execution position") ;;?
  match proposal s with
  | None => Ok tt
  | Some p =>
      err_if (count =? 0) (Corruption "pending proposal has no originating event record") ;;?
      err_if (negb (pr_event_position p =? count - 1))
        (Corruption "pending proposal is not paired with the last event record")
  end.

Definition validate_agreed_rows (t : Tables) (s : ExecutionState) : result StoreError (list TraceEntry) :=
  let? tr := load_agreed_trace t s in
  err_if (negb (Z.of_nat (size (rows (step_states t) (execution_id s))) =? zlen tr))
    (Corruption "step states do not match agreed trace") ;;?
  let? c := map_err (fun _ => Corruption "agreed trace") (validate_agreed_trace (binding s) tr) in
  err_if (negb (state_hash c =? agreed_state s) || negb (chain_hash c =? agreed_link s))
    (Corruption "agreed trace does not match execution cursor") ;;?
  Ok tr.

Definition validate_timer_row (s : ExecutionState) (p : TimerId * TimerRow) : result StoreError unit :=
  let? _ := sqlite_i64 (tm_deadline p.2) in
  let? bs := open KindTimer (tm_payload p.2) MAX_TIMER_RECORD_BYTES in
  let? timer := decode_borsh c_timer bs "timer payload" in
  err_if ((MAX_TERMINAL_REASON_BYTES <? zlen (type_name timer)) || (MAX_TIMER_PAYLOAD_BYTES <? zlen (timer_data timer)))
    (Corruption "timer payload exceeds bounds") ;;?
  let? armed := sqlite_i64 (tm_armed p.2) in
  err_if ((armed =? 0) || (version s <? armed)) (Corruption "timer version is invalid").

Definition validate_timer_rows (t : Tables) (s : ExecutionState) : result StoreError unit :=
  try_for_each (validate_timer_row s) (ordered (rows (active_timers t) (execution_id s))).

Definition validate_terminal_rows (host : PeerId) (t : Tables) (s : ExecutionState) (tr : list TraceEntry)
    : result StoreError unit :=
  validate_terminal_relation t s ;;?
  match published_receipt_id s with
  | None => Ok tt
  | Some rid =>
      let? r := ok_or (receipts t !! rid) (Corruption "published receipt row is missing") in
      let? p := decode_stored_receipt host t rid r in
      let body := artifact_body (sr_receipt p.1) in
      err_if (negb (opt_eqb p.2 (Some (execution_id s)))
              || negb (bool_decide (h_activation (header body) = activation (binding s)))
              || negb (producer s =? host))
        (Corruption "terminal record does not match published execution state") ;;?
      err_if (negb (bool_decide (trace body = tr))) (Corruption "receipt trace does not match durable public commits") ;;?
      match termination body with
      | TCompleted =>
          let? o := ok_or (terminal_outcome s) (Corruption "completed receipt has no execution outcome") in
          err_if (negb (bool_decide (outcome body = borsh_bytes o)))
            (Corruption "receipt completion does not match execution evidence")
      | TStopped cause =>
          err_if (negb (bool_decide (terminal_cause (status s) = Some cause)))
            (Corruption "stop artifact does not match execution cause")
      end
  end.

Definition validate_projection_rows (host : PeerId) (t : Tables) (s : ExecutionState) : result StoreError unit :=
  validate_event_rows t s ;;?
  let? tr := validate_agreed_rows t s in
  validate_timer_rows t s ;;?
  validate_terminal_rows host t s tr.

(** The paged loop over the unfinished executions: [fuel] bounds the pages. *)
Definition past (after : option Z) (k : Z) : bool := match after with Some a => a <? k | None => true end.
Definition archived_tag (tag : Z) : bool :=
  (tag =? lifecycle_tag LCompleted) || (tag =? lifecycle_tag LAborted) || (tag =? lifecycle_tag LFailed).
Definition unfinished_page (t : Tables) (after : option ExecId) : list ExecId :=
  take DATABASE_VALIDATION_PAGE_SIZE
    (map fst (filter (fun p => past after p.1 && negb (archived_tag (x_lifecycle p.2)) = true) (ordered (executions t)))).
Definition validate_execution (host : PeerId) (t : Tables) (id : ExecId) : result StoreError unit :=
  let? o := load_execution host t id in
  let? s := ok_or o (Corruption "execution disappeared during validation") in
  validate_projection_rows host t s.
Fixpoint validate_pages (fuel : nat) (host : PeerId) (t : Tables) (after : option ExecId) : result StoreError unit :=
  match fuel with
  | O => Ok tt
  | S fuel =>
      let page := unfinished_page t after in
      match last page with
      | None => Ok tt
      | Some l => try_for_each (validate_execution host t) page ;;? validate_pages fuel host t (Some l)
      end
  end.
Definition validate_executions (host : PeerId) (t : Tables) : result StoreError unit :=
  validate_pages (S (size (executions t))) host t None.

(** [validate_receipts]: produced artifacts are validated when they are read. *)
Definition validate_receipt (host : PeerId) (t : Tables) (rid : ReceiptId) : result StoreError unit :=
  if has (receipt_productions t) rid then Ok tt else
  let? r := ok_or (receipts t !! rid) (Corruption "receipt disappeared while validating") in
  rmap (fun _ => tt) (decode_stored_receipt host t rid r).
Definition receipt_page (t : Tables) (after : option ReceiptId) : list ReceiptId :=
  take DATABASE_VALIDATION_PAGE_SIZE (map fst (filter (fun p => past after p.1 = true) (ordered (receipts t)))).
Fixpoint validate_receipt_pages (fuel : nat) (host : PeerId) (t : Tables) (after : option ReceiptId)
    : result StoreError unit :=
  match fuel with
  | O => Ok tt
  | S fuel =>
      let page := receipt_page t after in
      match last page with
      | None => Ok tt
      | Some l =>
          try_for_each (validate_receipt host t) page ;;?
          if (length page =? DATABASE_VALIDATION_PAGE_SIZE)%nat
          then validate_receipt_pages fuel host t (Some l) else Ok tt
      end
  end.
Definition validate_receipts (host : PeerId) (t : Tables) : result StoreError unit :=
  validate_receipt_pages (S (size (receipts t))) host t None.

(** ** [create_execution] *)

Definition create_execution_in_transaction (s : ExecutionState) (now : Z) : db_op CreateExecutionOutcome :=
  (let id := execution_id s in
   let! o := select (fun t => load_activation t id) in
   let! rec := sread (fun _ => ok_or o (ActivationNotFound id)) in
   let! a := sread (fun _ => ok_or (rec_committed rec) (ActivationNotCommitted id)) in
   let! _ := sread (fun _ => err_if (negb (bool_decide (a = activation (binding s)))
                                     || negb (p_session_hash (rec_prepared rec) =? session_id (binding s)))
     (Corruption "execution binding does not match committed activation")) in
   let! existing := sread (fun db => load_execution (host_id db) (view db) id) in
   match existing with
   | Some e =>
       if bool_decide (e = s) then sret (AlreadyExists e)
       else sread (fun _ => corrupt "execution identity is already bound to a different state")
   | None => insert_execution s now ;;! sret (Created s)
   end).

Definition create_execution (f : Faults) (id : ExecId) (a : Activation) (prod : PeerId) (shared local : bytes) (now : Z)
    : db_op CreateExecutionOutcome :=
  (let! s := sread (fun _ => map_err Protocol (state_new id a prod shared local)) in
   let! _ := sread (fun db => err_if (negb (producer s =? host_id db)) (IdentityMismatch (host_id db) (producer s))) in
   transaction f (create_execution_in_transaction s now)).

(** [assemble_receipt]. *)
Definition assemble_receipt (t : Tables) (id : ExecId) (s : ExecutionState) : result StoreError ReceiptArtifact :=
  let? r := ok_or (executions t !! id) (ExecutionNotFound id) in
  let? v := sqlite_i64 (x_version r) in
  err_if (negb (execution_id s =? id) || negb (v =? version s))
    (Corruption "receipt assembly requires the committed execution version") ;;?
  let? o := load_activation t (execution_id s) in
  let? rec := ok_or o (ActivationNotFound (execution_id s)) in
  let? a := ok_or (rec_committed rec) (ActivationNotCommitted (execution_id s)) in
  let? tr := load_agreed_trace t s in
  map_err Protocol (assemble_terminal_artifact s a tr).
End Store.
