(* ===== verification/Registry.v ===== *)
(** * Requests, activations, programs and salts (store/src/database/request.rs,
      activation.rs, registry.rs, blobs.rs; protocol/src/admission.rs)

    The registries an execution starts from: the admission a caller persists before
    negotiating, the activation that negotiation prepares and commits under it, the
    registered programs, the per-execution salts; the calls that write them, the
    evidence [Database::open] checks in them, and [Database::open] itself. *)

From S2P Require Import Prelude Borsh Crypto Session Trace Negotiation Evidence Validation Receipt.
From S2P Require Import Frame Execution Publish Canonical StateCodec Envelope ChangeLog Database Persist Store.

Unset Program Cases.

(** ** Admissions *)

Definition ADMISSION_VERSION : Z := 1.
Definition MAX_ADMISSION_BYTES : Z := 4 * 1024.
Definition MAX_ERROR_BYTES : Z := 4 * 1024.
Definition PROGRAM_MAX_LEN : Z := 64 * 1024 * 1024.

Record NegotiationTarget := MkTarget { tg_creator : PeerId; tg_negotiation : NegotiationId }.
#[global] Instance NegotiationTarget_eq_dec : EqDecision NegotiationTarget.
Proof. solve_decision. Defined.

Inductive ExecutionAdmission :=
| Create (negotiation : NegotiationId) (participant_count : Z)
| Join (target : option NegotiationTarget).
#[global] Instance ExecutionAdmission_eq_dec : EqDecision ExecutionAdmission.
Proof. solve_decision. Defined.

(** [ExecutionAdmission::create]. *)
Definition admission_create (n : NegotiationId) (count : Z) : result EnsembleError ExecutionAdmission :=
  err_if (count <? 2) (TooFewParticipants count) ;;?
  err_if (MAX_PARTICIPANTS <? count) (TooManyParticipants count) ;;?
  Ok (Create n count).

(** [ExecutionAdmission::negotiation_id]. *)
Definition admission_negotiation (a : ExecutionAdmission) : option NegotiationId :=
  match a with
  | Create n _ => Some n
  | Join (Some t) => Some (tg_negotiation t)
  | Join None => None
  end.

Definition c_created : codec (NegotiationId * Z) :=
  c_refine (c_pair c_id c_u16) (fun p => p) (fun p => rmap (fun _ => p) (admission_create p.1 p.2)).
Definition c_target : codec NegotiationTarget :=
  c_iso (c_pair c_id c_id) (fun t => (tg_creator t, tg_negotiation t)) (fun p => MkTarget p.1 p.2)
    (fun t => match t with MkTarget _ _ => eq_refl end).

Program Definition c_admission_body : codec ExecutionAdmission :=
  {| enc a := match a with
              | Create n count => variant 2 c_created (n, count)
              | Join (Some t) => variant 1 c_target t
              | Join None => write_uint 1 3
              end;
     dec bs := let? (tag, rest) := read_uint 1 bs in
               match tag with
               | 1 => rd_map (fun t => Join (Some t)) (dec c_target rest)
               | 2 => rd_map (fun p => Create p.1 p.2) (dec c_created rest)
               | 3 => Ok (Join None, rest)
               | _ => Err InvalidData
               end;
     cwf a := match a with
              | Create n count => cwf c_created (n, count)
              | Join (Some t) => cwf c_target t
              | Join None => True
              end |}.
Next Obligation.
  intros [n count|[t|]] bs rest Hw He; cbv beta iota in *.
  - apply variant_Ok in He as (b & Hb & ->). rewrite <- app_assoc, read_uint_write by (simpl; lia). cbn [rbind].
    unfold rd_map. by rewrite (dec_enc c_created (n, count) b).
  - apply variant_Ok in He as (b & Hb & ->). rewrite <- app_assoc, read_uint_write by (simpl; lia). cbn [rbind].
    unfold rd_map. by rewrite (dec_enc c_target t b).
  - unfold write_uint in He. inv_ok. by rewrite read_uint_write by (simpl; lia).
Qed.

Definition c_admission : codec ExecutionAdmission := c_versioned ADMISSION_VERSION c_admission_body.

(** ** Outcomes *)

Record ExecutionRequest := MkRequest {
  er_id : ExecId;
  er_program : ProgramHash;
  er_params : option bytes;
  er_admission : ExecutionAdmission;
  er_order : Z;
  er_created : Z;
  er_failure : option bytes }.

Inductive ExecutionRequestOutcome := ReqCreated | ReqAlreadyExists | ReqConflict.
Inductive AdmissionBindingOutcome := Bound | AlreadyBound | BindConflict.
Inductive ExecutionRequestFailureOutcome := FailRecorded | FailAlreadyRecorded | FailConflict.
Inductive PrepareActivationOutcome :=
| PrepPrepared (r : ActivationRecord) | PrepAlreadyPrepared (r : ActivationRecord)
| PrepAlreadyCommitted (r : ActivationRecord) | PrepConflict (existing incoming : ActivationRecord).
Inductive CommitActivationOutcome :=
| CommCommitted (r : ActivationRecord) | CommAlreadyCommitted (r : ActivationRecord)
| CommConflict (existing incoming : ActivationRecord).
Inductive ProgramStoreOutcome := ProgStored | ProgAlreadyStored | ProgReactivated | ProgConflict.
Inductive ProgramRemoveOutcome := ProgRemoved | ProgAlreadyRemoved.

Section Registry.
Context `{Crypto}.

(** [ProgramHash::of]. *)
Definition program_hash_of (wasm : bytes) : ProgramHash := blake3 wasm.

(** ** Requests *)

Definition validate_negotiation_index (a : ExecutionAdmission) (column : option NegotiationId) : result StoreError unit :=
  err_if (negb (opt_eqb column (admission_negotiation a)))
    (Corruption "request negotiation index does not match admission").

Definition validate_local_admission (host : PeerId) (a : ExecutionAdmission) : result StoreError unit :=
  match a with
  | Create n count => map_err (fun _ => InvalidAdmission "participants") (rmap (fun _ => tt) (admission_create n count))
  | Join (Some t) => err_if (tg_creator t =? host) (InvalidAdmission "a Host cannot join its own negotiation")
  | Join None => Ok tt
  end.

Definition validate_request_params (a : ExecutionAdmission) (params_present : bool) : result StoreError unit :=
  match a with
  | Create _ _ => err_if (negb params_present) (InvalidAdmission "creator admission requires params")
  | Join _ => Ok tt
  end.

Definition ensure_admission_authority (host : PeerId) (a : ExecutionAdmission) (p : PreparedActivation)
    : result StoreError unit :=
  let offer := offer_data (p_offer p) in
  match a with
  | Create _ count =>
      err_if (negb (creator offer =? host) || negb (target_size offer =? count))
        (InvalidAdmission "prepared activation changes the creator participant count")
  | Join (Some t) =>
      err_if (negb (creator offer =? tg_creator t) || negb (o_negotiation_id offer =? tg_negotiation t))
        (InvalidAdmission "prepared activation came from a different creator")
  | Join None => Err (InvalidAdmission "prepared activation has no selected Join target")
  end.

(** The [row.map] of [load_execution_request_in_transaction]. *)
Definition decode_request (id : ExecId) (r : RequestRow) : result StoreError ExecutionRequest :=
  let? bs := open KindExecutionAdmission (rq_admission r) MAX_ADMISSION_BYTES in
  let? a := decode_borsh c_admission bs "execution admission" in
  validate_negotiation_index a (rq_negotiation r) ;;?
  let? ps := match rq_params r with
             | Some b => rmap Some (map_err (fun _ => Corruption "request params") (json_try_new b))
             | None => Ok None
             end in
  map_err (fun _ => Corruption "invalid request params") (validate_request_params a (is_some ps)) ;;?
  let? order := sqlite_i64 (rq_order r) in
  let? created := sqlite_i64 (rq_created r) in
  Ok (MkRequest id (rq_program r) ps a order created (rq_failure r)).

Definition load_execution_request (t : Tables) (id : ExecId) : result StoreError (option ExecutionRequest) :=
  match exec_requests t !! id with
  | Some r => rmap Some (decode_request id r)
  | None => Ok None
  end.

Definition ensure_program_registered (t : Tables) (h : ProgramHash) : result StoreError unit :=
  match programs t !! h with
  | Some r => err_if (is_some (pg_removed r))
                (Corruption "activation references a program that is not currently registered")
  | None => corrupt "activation references a program that is not currently registered"
  end.

(** [grants.sort_unstable(); grants.dedup()]. *)
Definition sorted_grants (grants : list BlobHash) : list BlobHash :=
  sort_key (fun h => h) (elements (list_to_set grants : gset BlobHash)).

Definition admission_bytes (a : ExecutionAdmission) : result StoreError bytes :=
  let? bs := map_err (fun _ => InvalidAdmission "admission encoding failed") (to_vec c_admission a) in
  err_if (MAX_ADMISSION_BYTES <? zlen bs) (StorePayloadTooLarge (zlen bs) MAX_ADMISSION_BYTES) ;;?
  Ok bs.

Definition grant_blob (id : ExecId) (h : BlobHash) : db_op unit :=
  (let! t := select (fun t => Ok t) in
   let held : gset BlobHash := default ∅ (blob_grants t !! id) in
   constraint (negb (bool_decide (h ∈ held)) && has (blobs t) h) ;;!
   update (fun t => set_blob_grants (<[id := {[h]} ∪ held]> (blob_grants t)) t)).

Definition insert_request (id : ExecId) (program : ProgramHash) (ps : option bytes) (a : ExecutionAdmission)
    (grants : bytes) (now : Z) : db_op unit :=
  (let! bs := sread (fun _ => admission_bytes a) in
   let! sealed := sread (fun _ => seal KindExecutionAdmission bs) in
   let! at_ms := sread (fun _ => sqlite_u64 now) in
   let! t := select (fun t => Ok t) in
   constraint (negb (has (exec_requests t) id) && has (programs t) program && (request_sequence t <? i64_max)
               && (0 <=? at_ms) && match ps with Some b => zlen b <=? MAX_PARAMS_LEN | None => true end) ;;!
   update (fun t => set_request_sequence (request_sequence t + 1)
     (set_exec_requests (<[id := MkRequestRow (request_sequence t + 1) program ps sealed (admission_negotiation a)
                                   grants at_ms None]> (exec_requests t)) t))).

Definition create_request_in_transaction (id : ExecId) (program : ProgramHash) (ps : option bytes)
    (a : ExecutionAdmission) (grants : list BlobHash) (grants_bytes : bytes) (now : Z) : db_op ExecutionRequestOutcome :=
  (let! existing := select (fun t => load_execution_request t id) in
   let! t := select (fun t => Ok t) in
   match existing, exec_requests t !! id with
   | Some e, Some r =>
       sret (if (er_program e =? program) && bool_decide (er_params e = ps) && bool_decide (er_admission e = a)
                && bool_decide (rq_grants r = grants_bytes)
             then ReqAlreadyExists else ReqConflict)
   | _, _ =>
       let! _ := select (fun t => ensure_program_registered t program) in
       let! _ := select (fun t => try_for_each (fun h => err_if (negb (has (blobs t) h)) (BlobNotFound h)) grants) in
       let! _ := sread (fun db => validate_local_admission (host_id db) a) in
       insert_request id program ps a grants_bytes now ;;!
       for_each (grant_blob id) grants ;;!
       record_change (ChExec id) ;;!
       sret ReqCreated
   end).

Definition create_execution_request (f : Faults) (id : ExecId) (program : ProgramHash) (ps : option bytes)
    (a : ExecutionAdmission) (grants : list BlobHash) (now : Z) : db_op ExecutionRequestOutcome :=
  (let grants := sorted_grants grants in
   let! grants_bytes := sread (fun _ => map_err (fun _ => StoreIo) (to_vec (c_vec u32_max c_id) grants)) in
   let len := match ps with Some b => zlen b | None => 0 end in
   let! _ := sread (fun _ => err_if (MAX_PARAMS_LEN <? len) (StorePayloadTooLarge len MAX_PARAMS_LEN)) in
   let! _ := sread (fun _ => validate_request_params a (is_some ps)) in
   transaction f (create_request_in_transaction id program ps a grants grants_bytes now)).

Definition bind_in_transaction (id : ExecId) (target : NegotiationTarget) : db_op AdmissionBindingOutcome :=
  (let! o := select (fun t => load_execution_request t id) in
   let! e := sread (fun _ => ok_or o (ExecutionRequestNotFound id)) in
   let! _ := sread (fun _ => err_if (is_some (er_failure e)) (ExecutionLifecycleStarted id)) in
   let! act := select (fun t => load_activation t id) in
   let! _ := sread (fun _ => err_if (is_some act) (ExecutionLifecycleStarted id)) in
   match er_admission e with
   | Join None =>
       let a := Join (Some target) in
       let! bs := sread (fun _ => admission_bytes a) in
       let! sealed := sread (fun _ => seal KindExecutionAdmission bs) in
       update (fun t => set_exec_requests (alter (fun r =>
         if is_some (rq_failure r) then r
         else MkRequestRow (rq_order r) (rq_program r) (rq_params r) sealed (admission_negotiation a) (rq_grants r)
                (rq_created r) (rq_failure r)) id (exec_requests t)) t) ;;!
       record_change (ChExec id) ;;!
       sret Bound
   | Join (Some existing) => sret (if bool_decide (existing = target) then AlreadyBound else BindConflict)
   | Create _ _ => sread (fun _ => Err (InvalidAdmission "execution admission is not an open Join"))
   end).

Definition bind_join_target (f : Faults) (id : ExecId) (target : NegotiationTarget) : db_op AdmissionBindingOutcome :=
  (let! _ := sread (fun db => err_if (tg_creator target =? host_id db)
                                (InvalidAdmission "a Host cannot join its own negotiation")) in
   transaction f (bind_in_transaction id target)).

(** [length] of a TEXT column counts characters: the bytes that do not continue one. *)
Definition sqlite_chars (b : bytes) : Z := zlen (List.filter (fun x => negb ((128 <=? x) && (x <? 192))) b).

Definition record_failure_in_transaction (id : ExecId) (reason : bytes) : db_op ExecutionRequestFailureOutcome :=
  (let! o := select (fun t => load_execution_request t id) in
   let! e := sread (fun _ => ok_or o (ExecutionRequestNotFound id)) in
   let! act := select (fun t => load_activation t id) in
   let! _ := sread (fun _ => err_if (is_some act) (ExecutionLifecycleStarted id)) in
   match er_failure e with
   | Some existing => sret (if bool_decide (existing = reason) then FailAlreadyRecorded else FailConflict)
   | None =>
       constraint (sqlite_chars reason <=? 4096) ;;!
       update (fun t => set_exec_requests (alter (fun r =>
         if is_some (rq_failure r) then r
         else MkRequestRow (rq_order r) (rq_program r) (rq_params r) (rq_admission r) (rq_negotiation r) (rq_grants r)
                (rq_created r) (Some reason)) id (exec_requests t)) t) ;;!
       record_change (ChExec id) ;;!
       sret FailRecorded
   end).

(** The handle's [record_execution_request_failure], [bounded_reason] included. *)
Definition record_execution_request_failure (f : Faults) (id : ExecId) (reason : bytes)
    : db_op ExecutionRequestFailureOutcome :=
  (let! _ := sread (fun _ => err_if (MAX_ERROR_BYTES <? zlen reason) (StorePayloadTooLarge (zlen reason) MAX_ERROR_BYTES)) in
   transaction f (record_failure_in_transaction id reason)).

Definition ensure_execution_request_matches (host : PeerId) (t : Tables) (id : ExecId) (p : PreparedActivation)
    : result StoreError unit :=
  let? o := load_execution_request t id in
  let? e := ok_or o (ExecutionRequestNotFound id) in
  let offer := offer_data (p_offer p) in
  err_if (is_some (er_failure e) || negb (er_program e =? program_hash offer)
          || match er_params e with Some b => negb (bool_decide (b = params offer)) | None => false end
          || negb (opt_eqb (admission_negotiation (er_admission e)) (Some (o_negotiation_id offer))))
    (Corruption "prepared activation does not match its execution request") ;;?
  ensure_admission_authority host (er_admission e) p.

(** ** Activations *)

Definition record_activation_conflict (existing incoming : ActivationRecord) (kind : ActivationConflictKind) (now : Z)
    : db_op unit :=
  (let! p := sread (fun _ =>
     match kind with
     | ConflictPrepared =>
         let? a := encode_borsh c_prepared (rec_prepared existing) "prepared activation" in
         let? b := encode_borsh c_prepared (rec_prepared incoming) "prepared activation" in
         Ok (KindPreparedActivation, a, b)
     | ConflictCommitted =>
         let? ea := ok_or (rec_committed existing) (Corruption "committed activation conflict has no existing certificate") in
         let? ia := ok_or (rec_committed incoming) (Corruption "committed activation conflict has no incoming certificate") in
         let? a := encode_borsh c_activation ea "activation" in
         let? b := encode_borsh c_activation ia "activation" in
         Ok (KindActivation, a, b)
     end) in
   let '(k, a, b) := p in
   let! sa := sread (fun _ => seal k a) in
   let! sb := sread (fun _ => seal k b) in
   let! at_ms := sread (fun _ => sqlite_u64 now) in
   let! t := select (fun t => Ok t) in
   constraint ((0 <=? at_ms) && has (activation_records t) (rec_id existing)) ;;!
   update (fun t => set_activation_conflicts (activation_conflicts t ++ [MkConflictRow (rec_id existing) kind sa sb at_ms]) t)).

Definition session_taken (t : Tables) (h : SessionHash) : bool :=
  existsb (fun p : ExecId * ActivationRow => ar_session p.2 =? h) (map_to_list (activation_records t)).

Definition insert_activation (id : ExecId) (p : PreparedActivation) (encoded : bytes) (now : Z) : db_op unit :=
  (let! facts := sread (fun _ => facts_of p) in
   let! sealed := sread (fun _ => seal KindPreparedActivation encoded) in
   let! at_ms := sread (fun _ => sqlite_u64 now) in
   let! fb := sread (fun _ => encode_borsh c_facts facts "activation facts") in
   let! t := select (fun t => Ok t) in
   constraint (negb (has (activation_records t) id) && negb (session_taken t (p_session_hash p))
               && has (exec_requests t) id && (0 <=? at_ms)) ;;!
   update (fun t => set_activation_records (<[id :=
     MkActivationRow (p_session_hash p) StPrepared sealed None fb at_ms at_ms]> (activation_records t)) t)).

Definition prepare_in_transaction (id : ExecId) (p : PreparedActivation) (now : Z) : db_op PrepareActivationOutcome :=
  (let incoming := MkActivationRecord id p None now in
   let! encoded := sread (fun _ => encode_borsh c_prepared p "prepared activation") in
   let! _ := select (fun t => ensure_program_registered t (program_hash (offer_data (p_offer p)))) in
   let! existing := select (fun t => load_activation t id) in
   match existing with
   | None =>
       let! _ := sread (fun db => ensure_execution_request_matches (host_id db) (view db) id p) in
       insert_activation id p encoded now ;;!
       record_change (ChExec id) ;;!
       sret (PrepPrepared incoming)
   | Some e =>
       if bool_decide (rec_prepared e = p)
       then sret (if is_some (rec_committed e) then PrepAlreadyCommitted e else PrepAlreadyPrepared e)
       else record_activation_conflict e incoming ConflictPrepared now ;;! sret (PrepConflict e incoming)
   end).

Definition prepare_activation (f : Faults) (id : ExecId) (p : PreparedActivation) (now : Z)
    : db_op PrepareActivationOutcome :=
  (let! _ := sread (fun _ => map_err (fun _ => Corruption "activation validation failed") (prepared_validate p)) in
   transaction f (prepare_in_transaction id p now)).

Definition update_committed (id : ExecId) (a : Activation) (now : Z) : db_op unit :=
  (let! encoded := sread (fun _ => encode_borsh c_activation a "activation") in
   let! facts := sread (fun _ => facts_of (prepared a)) in
   let! at_ms := sread (fun _ => sqlite_u64 now) in
   let! sealed := sread (fun _ => seal KindActivation encoded) in
   let! fb := sread (fun _ => encode_borsh c_facts facts "activation facts") in
   let! t := select (fun t => Ok t) in
   match activation_records t !! id with
   | Some r =>
       if bool_decide (ar_status r = StPrepared)
       then constraint (0 <=? at_ms) ;;!
            update (fun t => set_activation_records (<[id :=
              MkActivationRow (ar_session r) StCommitted (ar_prepared r) (Some sealed) fb (ar_created r) at_ms]>
              (activation_records t)) t)
       else sread (fun _ => corrupt "activation commit compare-and-set changed no row")
   | None => sread (fun _ => corrupt "activation commit compare-and-set changed no row")
   end).

Definition commit_in_transaction (id : ExecId) (a : Activation) (now : Z) : db_op CommitActivationOutcome :=
  (let incoming := MkActivationRecord id (prepared a) (Some a) now in
   let! o := select (fun t => load_activation t id) in
   let! e := sread (fun _ => ok_or o (ActivationNotFound id)) in
   if negb (prepared_matches (rec_prepared e) a)
   then record_activation_conflict e incoming ConflictPrepared now ;;! sret (CommConflict e incoming)
   else
   match rec_committed e with
   | Some a' =>
       if bool_decide (a' = a) then sret (CommAlreadyCommitted e)
       else record_activation_conflict e incoming ConflictCommitted now ;;! sret (CommConflict e incoming)
   | None =>
       update_committed id a now ;;!
       record_change (ChExec id) ;;!
       sret (CommCommitted incoming)
   end).

Definition commit_activation (f : Faults) (id : ExecId) (a : Activation) (now : Z) : db_op CommitActivationOutcome :=
  (let! _ := sread (fun _ => map_err (fun _ => Corruption "activation validation failed") (activation_validate a)) in
   transaction f (commit_in_transaction id a now)).

(** ** Programs *)

(** The three transactions of [register_program] and [remove_program]. *)
Definition reactivate_program (h : ProgramHash) : db_op unit :=
  (update (fun t => set_programs (alter (fun r => MkProgramRow (pg_wasm r) (pg_imported r) None) h (programs t)) t) ;;!
   record_change (ChProgram h)).

Definition insert_program (h : ProgramHash) (wasm : bytes) (now : Z) : db_op unit :=
  (let! sealed := sread (fun _ => seal KindProgram wasm) in
   let! at_ms := sread (fun _ => sqlite_u64 now) in
   let! t := select (fun t => Ok t) in
   constraint (negb (has (programs t) h) && (0 <=? at_ms) && (zlen sealed <=? 67108912)) ;;!
   update (fun t => set_programs (<[h := MkProgramRow sealed at_ms None]> (programs t)) t) ;;!
   record_change (ChProgram h)).

Definition retire_program (h : ProgramHash) (now : Z) : db_op unit :=
  (let! at_ms := sread (fun _ => sqlite_u64 now) in
   constraint (0 <=? at_ms) ;;!
   update (fun t => set_programs (alter (fun r =>
     if is_some (pg_removed r) then r else MkProgramRow (pg_wasm r) (pg_imported r) (Some at_ms)) h (programs t)) t) ;;!
   record_change (ChProgram h)).

Definition register_program (f : Faults) (h : ProgramHash) (wasm : bytes) (now : Z) : db_op ProgramStoreOutcome :=
  (let! _ := sread (fun _ => err_if ((zlen wasm =? 0) || (PROGRAM_MAX_LEN <? zlen wasm) || negb (program_hash_of wasm =? h))
     (Corruption "program bytes do not match their content address or bound")) in
   let! existing := select (fun t => Ok (programs t !! h)) in
   match existing with
   | Some r =>
       let! payload := sread (fun _ => open KindProgram (pg_wasm r) PROGRAM_MAX_LEN) in
       let! _ := sread (fun _ => err_if (negb (program_hash_of payload =? h))
                                   (Corruption "program hash does not match its envelope")) in
       if negb (bool_decide (payload = wasm)) then sret ProgConflict else
       if is_some (pg_removed r)
       then transaction f (reactivate_program h) ;;! sret ProgReactivated
       else sret ProgAlreadyStored
   | None => transaction f (insert_program h wasm now) ;;! sret ProgStored
   end).

Definition remove_program (f : Faults) (h : ProgramHash) (now : Z) : db_op ProgramRemoveOutcome :=
  (let! existing := select (fun t => Ok (programs t !! h)) in
   match existing with
   | None => sread (fun _ => corrupt "cannot unregister an unknown program hash")
   | Some r =>
       if is_some (pg_removed r) then sret ProgAlreadyRemoved
       else transaction f (retire_program h now) ;;! sret ProgRemoved
   end).

Definition load_program (t : Tables) (h : ProgramHash) : result StoreError (option bytes) :=
  match programs t !! h with
  | Some r =>
      let? wasm := open KindProgram (pg_wasm r) PROGRAM_MAX_LEN in
      err_if (negb (program_hash_of wasm =? h)) (Corruption "program registry indexes do not match Wasm content") ;;?
      Ok (Some wasm)
  | None => Ok None
  end.

(** ** Salts *)

(** [ExecutionSalt::try_from_bytes] on 32 bytes. *)
Definition salt_try_from (b : bytes) : option bytes := if forallb (Z.eqb 0) b then None else Some b.

Definition decode_execution_salt (encoded : bytes) : result StoreError bytes :=
  let? payload := open KindExecutionSalt encoded 32 in
  err_if (negb (zlen payload =? 32)) (Corruption "execution salt must contain exactly 32 bytes") ;;?
  ok_or (salt_try_from payload) (Corruption "execution salt validation failed").

(** [draws] are the values [rand::random] returns, in order; a run that only draws
    zero has not left the loop. *)
Fixpoint draw_salt (draws : list bytes) : result StoreError bytes :=
  match draws with
  | [] => Panic
  | b :: draws => match salt_try_from b with Some salt => Ok salt | None => draw_salt draws end
  end.

Definition salt_in_transaction (id : ExecId) (draws : list bytes) (now : Z) : db_op bytes :=
  (let! t := select (fun t => Ok t) in
   let! _ := sread (fun _ => err_if (negb (has (exec_requests t) id)) (ExecutionRequestNotFound id)) in
   match execution_salts t !! id with
   | Some r => sread (fun _ => decode_execution_salt (sl_salt r))
   | None =>
       let! salt := sread (fun _ => draw_salt draws) in
       let! sealed := sread (fun _ => seal KindExecutionSalt salt) in
       let! at_ms := sread (fun _ => sqlite_u64 now) in
       constraint (0 <=? at_ms) ;;!
       update (fun t => set_execution_salts (<[id := MkSaltRow sealed at_ms]> (execution_salts t)) t) ;;!
       sret salt
   end).

Definition load_or_create_execution_salt (f : Faults) (id : ExecId) (draws : list bytes) (now : Z) : db_op bytes :=
  transaction f (salt_in_transaction id draws now).

(** ** Startup validation *)

Definition execution_is_archived (t : Tables) (id : ExecId) : bool :=
  match executions t !! id with
  | Some r => archived_tag (x_lifecycle r)
  | None => match exec_requests t !! id with Some r => is_some (rq_failure r) | None => false end
  end.

Definition validate_request (host : PeerId) (t : Tables) (id : ExecId) (r : RequestRow) : result StoreError unit :=
  if execution_is_archived t id then Ok tt else
  let? order := sqlite_i64 (rq_order r) in
  err_if ((order =? 0)
          || match rq_params r with Some b => MAX_PARAMS_LEN <? zlen b | None => false end
          || (MAX_ADMISSION_BYTES + MAX_ENVELOPE_OVERHEAD <? zlen (rq_admission r))
          || match rq_failure r with Some b => MAX_ERROR_BYTES <? zlen b | None => false end)
    (Corruption "execution request row exceeds its bounds") ;;?
  let? _ := sqlite_i64 (rq_created r) in
  let? bs := open KindExecutionAdmission (rq_admission r) MAX_ADMISSION_BYTES in
  let? a := decode_borsh c_admission bs "execution admission" in
  validate_negotiation_index a (rq_negotiation r) ;;?
  map_err (fun _ => Corruption "invalid durable execution admission") (validate_local_admission host a) ;;?
  let? ps := match rq_params r with
             | Some b => rmap Some (map_err (fun _ => Corruption "invalid durable request params") (json_try_new b))
             | None => Ok None
             end in
  map_err (fun _ => Corruption "invalid durable request params") (validate_request_params a (is_some ps)) ;;?
  let? act := load_activation t id in
  err_if (is_some (rq_failure r) && is_some act) (Corruption "failed execution request has an activation record") ;;?
  match programs t !! rq_program r, act with
  | Some _, Some e =>
      let offer := offer_data (p_offer (rec_prepared e)) in
      err_if (negb (program_hash offer =? rq_program r)
              || match ps with Some b => negb (bool_decide (params offer = b)) | None => false end
              || negb (opt_eqb (admission_negotiation a) (Some (o_negotiation_id offer))))
        (Corruption "activation does not match its execution request") ;;?
      map_err (fun _ => Corruption "activation exceeds durable admission authority")
        (ensure_admission_authority host a (rec_prepared e))
  | _, _ => Ok tt
  end.

(** Rows in creation order. *)
Definition requests_in_order (t : Tables) : list (ExecId * RequestRow) :=
  sort_key (fun p => rq_order p.2) (map_to_list (exec_requests t)).
Definition validate_execution_requests (host : PeerId) (t : Tables) : result StoreError unit :=
  try_for_each (fun p => validate_request host t p.1 p.2) (requests_in_order t).

Definition validate_conflict (t : Tables) (c : ConflictRow) : result StoreError unit :=
  if execution_is_archived t (cf_execution c) then Ok tt else
  let? o := load_activation t (cf_execution c) in
  let? e := ok_or o (Corruption "activation conflict has no owning activation") in
  match cf_kind c with
  | ConflictPrepared =>
      let? ea := open KindPreparedActivation (cf_existing c) MAX_ACTIVATION_BYTES in
      let? ia := open KindPreparedActivation (cf_incoming c) MAX_ACTIVATION_BYTES in
      let? ea := decode_borsh c_prepared ea "prepared activation conflict" in
      let? ia := decode_borsh c_prepared ia "prepared activation conflict" in
      map_err (fun _ => Corruption "prepared conflict evidence") (prepared_validate ea) ;;?
      map_err (fun _ => Corruption "prepared conflict evidence") (prepared_validate ia) ;;?
      err_if (negb (bool_decide (rec_prepared e = ea)))
        (Corruption "prepared conflict existing evidence does not match activation")
  | ConflictCommitted =>
      let? ea := open KindActivation (cf_existing c) MAX_ACTIVATION_BYTES in
      let? ia := open KindActivation (cf_incoming c) MAX_ACTIVATION_BYTES in
      let? ea := decode_borsh c_activation ea "activation conflict" in
      let? ia := decode_borsh c_activation ia "activation conflict" in
      map_err (fun _ => Corruption "committed conflict evidence") (activation_validate ea) ;;?
      map_err (fun _ => Corruption "committed conflict evidence") (activation_validate ia) ;;?
      err_if (negb (bool_decide (rec_committed e = Some ea)))
        (Corruption "committed conflict existing evidence does not match activation")
  end.
Definition validate_activation_conflicts (t : Tables) : result StoreError unit :=
  try_for_each (validate_conflict t) (activation_conflicts t).

Definition validate_execution_salts (t : Tables) : result StoreError unit :=
  try_for_each (fun p => if execution_is_archived t p.1 then Ok tt
                         else rmap (fun _ => tt) (decode_execution_salt (sl_salt p.2))) (ordered (execution_salts t)).

Definition validate_program (p : ProgramHash * ProgramRow) : result StoreError unit :=
  let? wasm := open KindProgram (pg_wasm p.2) PROGRAM_MAX_LEN in
  err_if ((zlen wasm =? 0) || (PROGRAM_MAX_LEN <? zlen wasm) || negb (program_hash_of wasm =? p.1))
    (Corruption "program registry row failed content validation").
Definition validate_programs (t : Tables) : result StoreError unit := try_for_each validate_program (ordered (programs t)).

Definition validate_database (host : PeerId) (t : Tables) : result StoreError unit :=
  validate_executions host t ;;?
  validate_execution_requests host t ;;?
  validate_activation_conflicts t ;;?
  validate_execution_salts t ;;?
  validate_programs t ;;?
  validate_receipts host t.
End Registry.
