(* ===== verification/Durable.v ===== *)
(** * What the store keeps (store/src/database/execution.rs against the aggregate)

    The rows that hold an execution and its certified log, as a relation between a
    database and the pair the aggregate defines; and what a write computed from the
    aggregate by one of its operations does to them. *)

From S2P Require Import Prelude Borsh Crypto Session Trace Negotiation Evidence Validation Receipt.
From S2P Require Import Frame Execution Invariant History Publish Fixture Guarantees Consistency Canonical Artifacts NoPanic.
From S2P Require Import StateCodec Ranges Envelope ChangeLog Database Persist Store.

Section Durable.
Context `{Crypto}.
Context (digest_range : forall bs, 0 <= blake3 bs < 256 ^ 32).
Context (aggregate_range : forall l z, blst_aggregate l = inr z -> 0 <= z < 256 ^ 48).

(** ** The identity, position and publication of a successor *)

Definition dispatches (op : Op) : Z := match op with OpDispatch _ _ _ _ _ _ _ => 1 | _ => 0 end.
Definition publishes (op : Op) (s : ExecutionState) : option ReceiptId :=
  match op with OpPublish a => Some (receipt_id a) | _ => published_receipt_id s end.

Record successor (s s' : ExecutionState) (moved : Z) (published : option ReceiptId) : Prop := {
  su_id : execution_id s' = execution_id s;
  su_producer : producer s' = producer s;
  su_binding : binding s' = binding s;
  su_position : event_position s' = event_position s + moved;
  su_published : published_receipt_id s' = published }.

Lemma bump_successor s0 s u s' n p :
  successor s0 s n p -> bump_version s = (Ok u, s') -> successor s0 s' n p.
Proof. intros [] [_ ->]%bump_version_Ok. by split. Qed.

Lemma dispatch_successor s e sh lo ef o pid rq r s' :
  apply_dispatch e sh lo ef o pid rq s = (Ok r, s') -> successor s s' 1 (published_receipt_id s).
Proof.
  unfold apply_dispatch. intros Ho. inv_ok. destruct (negb (is_agreed_event e)).
  - unfold apply_local, install_dispatch in Ho. inv_ok.
    match goal with Hb : bump_version _ = _ |- _ => apply bump_version_Ok in Hb as [_ ->] end.
    split; simpl; try done. unfold published_receipt_id. simpl. by destruct (status s).
  - unfold apply_agreed, stage_proposal in Ho. inv_ok.
    match goal with Hb : bump_version _ = _ |- _ => apply bump_version_Ok in Hb as [_ ->] end. by split.
Qed.

Lemma running_unpublished s : is_terminal (status s) = false -> published_receipt_id s = None.
Proof. unfold published_receipt_id. by destruct (status s). Qed.

Lemma staged_unpublished b c pos p k s :
  staged_facts b c pos p k -> status s = pr_status p -> published_receipt_id s = None.
Proof.
  intros Hs Hst. pose proof (sf_status _ _ _ _ _ Hs) as Hv. unfold validate_proposal_status in Hv.
  unfold published_receipt_id. rewrite Hst. destruct (terminal (entry p)) as [[]|]; by destruct (pr_status p).
Qed.

Lemma certify_successor s cert c s' :
  wf s -> certify_step cert s = (Ok c, s') -> successor s s' 0 (published_receipt_id s).
Proof.
  intros Hw (p & next & bytes & Hc & _ & _ & ->)%certify_step_Ok.
  pose proof (certified_state_fields s p cert next bytes) as F.
  destruct (wf_pending s p Hw (ce_proposal _ _ _ _ _ Hc)) as [Hn _].
  split; simpl; try apply F.
  - unfold certified_state. by match goal with |- context [begin_end ?s1] =>
      destruct (begin_end_cases s1) as [->|(_ & _ & ->)] end.
  - unfold certified_state. rewrite Z.add_0_r. by match goal with |- context [begin_end ?s1] =>
      destruct (begin_end_cases s1) as [->|(_ & _ & ->)] end.
  - rewrite (running_unpublished s Hn). eapply staged_unpublished; [apply (ce_staged _ _ _ _ _ Hc)|]. apply F.
Qed.

Lemma run_op_successor op s r s' :
  wf s -> run_op op s = (Ok r, s') -> successor s s' (dispatches op) (publishes op s).
Proof.
  intros Hw Hr. destruct op as [|e sh lo ef ou pid rq| |sg|cert|o|a|from seq|to seq|peer|];
    apply answer_Ok in Hr as (a' & Hr & ->); cbn [dispatches publishes].
  - unfold activate in Hr. inv_ok. eapply bump_successor; [|done]. split; simpl; try done; [lia|].
    unfold published_receipt_id. simpl. by destruct (status s).
  - by eapply dispatch_successor.
  - unfold drop_outgoing_head in Hr. inv_ok. eapply bump_successor; [|done]. split; simpl; done || lia.
  - destruct (add_step_signature_Ok s sg a' s' Hw Hr)
      as (p & k & _ & _ & _ & Hw1 & [(-> & _ & Hv & ->)|(cert & c & -> & _ & _ & Hc)]).
    + split; simpl; done || lia.
    + apply certify_successor in Hc as []; [by split|done].
  - by eapply certify_successor.
  - unfold stop in Hr. inv_ok. match goal with Hs : stopped o = Ok _ |- _ => unfold stopped in Hs end. inv_ok.
    eapply bump_successor; [|done].
    match goal with Ht : is_terminal (status s) = false |- _ => rewrite (running_unpublished s Ht) end.
    match goal with |- context [begin_end ?s1] => destruct (begin_end_cases s1) as [->|(_ & _ & ->)] end;
      split; simpl; done || lia.
  - unfold publish_receipt in Hr. inv_ok. eapply bump_successor; [|done]. split; simpl; try done; [lia|].
    unfold published_receipt_id. simpl.
    match goal with Hp : published_status s a = Ok _ |- _ => unfold published_status in Hp;
      destruct (status s); try done; destruct (termination _); try done end; [by inv_ok|].
    case_bool_decide; by inv_ok.
  - unfold record_direct, next_version in Hr. inv_ok. split; simpl; done || lia.
  - unfold ack_direct, next_version in Hr. inv_ok. destruct (negb _); inv_ok; split; simpl; done || lia.
  - unfold confirm_end in Hr. inv_ok. destruct (end_phase s); [by inv_ok|..];
      (destruct (negb _); inv_ok; [split; done || lia|]); (eapply bump_successor; [|done]); split; simpl; done || lia.
  - unfold expire_end in Hr. inv_ok. eapply bump_successor; [|done]. split; simpl; done || lia.
Qed.

(** ** Transitions an actor hands to [persist] *)

Definition state_only (op : Op) : bool :=
  match op with
  | OpActivate | OpDropHead | OpStop _ | OpRecordDirect _ _ | OpAckDirect _ _ | OpConfirmEnd _ | OpExpireEnd => true
  | _ => false
  end.

Definition permitted (op : Op) : Prop := op_ok op /\ op_ranged op.

(** [computed s s' c log]: the aggregate's operations take [s] to [s'], certifying
    [log]; [c] describes that transition. *)
Inductive computed (s : ExecutionState) : ExecutionState -> Change -> list TraceEntry -> Prop :=
| comp_state op r s' :
    state_only op = true -> permitted op -> run_op op s = (Ok r, s') -> computed s s' ChState []
| comp_dispatch e sh lo effects o pid rq r s' timer changes :
    permitted (OpDispatch e sh lo effects o pid rq) -> cwf c_event e ->
    run_op (OpDispatch e sh lo effects o pid rq) s = (Ok r, s') ->
    computed s s' (ChDispatch e effects timer changes) []
| comp_direct e sh lo effects o pid rq r s1 from seq r' s' timer changes :
    permitted (OpDispatch e sh lo effects o pid rq) -> cwf c_event e ->
    run_op (OpDispatch e sh lo effects o pid rq) s = (Ok r, s1) ->
    permitted (OpRecordDirect from seq) -> run_op (OpRecordDirect from seq) s1 = (Ok r', s') ->
    computed s s' (ChDispatch e effects timer changes) []
| comp_sign sg p s' :
    permitted (OpSign sg) -> run_op (OpSign sg) s = (Ok (ACommitted p), s') ->
    computed s s' (ChStepSignature p) (logged (ACommitted p))
| comp_certify cert p s' :
    permitted (OpCertify cert) -> run_op (OpCertify cert) s = (Ok (ACommitted p), s') ->
    computed s s' (ChStepSignature p) (logged (ACommitted p))
| comp_publish a r s' :
    permitted (OpPublish a) -> run_op (OpPublish a) s = (Ok r, s') -> computed s s' (ChPublish a) [].

Definition change_moves (c : Change) : Z := match c with ChDispatch _ _ _ _ => 1 | _ => 0 end.
Definition change_publishes (c : Change) (s : ExecutionState) : option ReceiptId :=
  match c with ChPublish a => Some (receipt_id a) | _ => published_receipt_id s end.

(** Only a signature logs an entry. *)
Lemma quiet_op op s r s' :
  run_op op s = (Ok r, s') -> match op with OpSign _ | OpCertify _ => True | _ => logged r = [] end.
Proof. intros Hr. destruct op; try done; apply answer_Ok in Hr as (a' & _ & ->); done. Qed.

Lemma live_step s tr op r s' :
  live s tr -> permitted op -> run_op op s = (Ok r, s') -> live s' (tr ++ logged r).
Proof. intros Hl [Ho Hr] Hs. by eapply live_op. Qed.

Lemma live_quiet s tr op r s' :
  live s tr -> permitted op -> run_op op s = (Ok r, s') ->
  match op with OpSign _ | OpCertify _ => False | _ => True end -> live s' tr.
Proof.
  intros Hl Hp Hs Hq. pose proof (quiet_op _ _ _ _ Hs) as Hlog. rewrite <- (app_nil_r tr).
  replace [] with (logged r) by (by destruct op). by eapply live_step.
Qed.

Lemma computed_live s tr s' c log : live s tr -> computed s s' c log -> live s' (tr ++ log).
Proof.
  intros Hl [op r ? Hso Hp Hr|e sh lo ef o pid rq r ? tm bl Hp _ Hr|e sh lo ef o pid rq r s1 from seq r' ? tm bl Hp _ Hr Hp' Hr'
    |sg p ? Hp Hr|cert p ? Hp Hr|a r ? Hp Hr]; rewrite ?app_nil_r.
  - eapply live_quiet; try done. by destruct op.
  - by eapply live_quiet.
  - exact (live_quiet _ _ _ _ _ (live_quiet _ _ _ _ _ Hl Hp Hr I) Hp' Hr' I).
  - by eapply live_step.
  - by eapply live_step.
  - by eapply live_quiet.
Qed.

Lemma computed_successor s tr s' c log :
  live s tr -> computed s s' c log -> successor s s' (change_moves c) (change_publishes c s).
Proof.
  intros Hl Hc. pose proof (live_wf _ _ Hl) as Hw.
  destruct Hc as [op r ? Hso Hp Hr|e sh lo ef o pid rq r ? tm bl Hp _ Hr|e sh lo ef o pid rq r s1 from seq r' ? tm bl Hp _ Hr Hp' Hr'
    |sg p ? Hp Hr|cert p ? Hp Hr|a r ? Hp Hr].
  1: { pose proof (run_op_successor _ _ _ _ Hw Hr) as Hs. by destruct op. }
  2: { pose proof (run_op_successor _ _ _ _ Hw Hr) as [A1 A2 A3 A4 A5].
       pose proof (live_wf _ _ (live_quiet _ _ _ _ _ Hl Hp Hr I)) as Hw1.
       pose proof (run_op_successor _ _ _ _ Hw1 Hr') as [B1 B2 B3 B4 B5]. simpl in *.
       split; try congruence. lia. }
  all: exact (run_op_successor _ _ _ _ Hw Hr).
Qed.

Lemma computed_version s tr s' c log :
  live s tr -> computed s s' c log ->
  version s <= version s' /\ (c <> ChState -> version s < version s').
Proof.
  intros Hl Hc. pose proof (live_wf _ _ Hl) as Hw.
  assert (forall op r s', run_op op s = (Ok r, s') -> version s <= version s' /\
            (version s < version s' \/ r = AChanged false)) as Hv.
  { intros op r s1 Hr. destruct (run_op_version _ _ _ _ Hw Hr) as [[-> ?]|[-> ->]]; lia || auto with lia. }
  destruct Hc as [op r ? Hso Hp Hr|e sh lo ef o pid rq r ? tm bl Hp _ Hr|e sh lo ef o pid rq r s1 from seq r' ? tm bl Hp _ Hr Hp' Hr'
    |sg p ? Hp Hr|cert p ? Hp Hr|a r ? Hp Hr]; pose proof (Hv _ _ _ Hr) as [Hle Hlt].
  - split; [done|]. by intros [].
  - split; [done|]. intros _. destruct Hlt as [?| ->]; [done|]. by apply answer_Ok in Hr as (? & _ & ?).
  - pose proof (live_wf _ _ (live_quiet _ _ _ _ _ Hl Hp Hr I)) as Hw1.
    destruct (run_op_version _ _ _ _ Hw1 Hr') as [[-> ?]|[-> ->]]; [split; [|intros _]; lia|].
    by apply answer_Ok in Hr' as (? & _ & ?).
  - split; [done|]. intros _. by destruct Hlt.
  - split; [done|]. intros _. by destruct Hlt.
  - split; [done|]. intros _. destruct Hlt as [?| ->]; [done|]. by apply answer_Ok in Hr as (? & _ & ?).
Qed.

(** ** The rows of one execution *)

Definition event_row_ok (r : EventRow) : Prop :=
  exists ev ef e effects,
    open KindEventRecord (ev_event r) MAX_EXECUTION_STATE_BYTES = Ok ev /\
    open KindEffects (ev_effects r) MAX_RECEIPT_BYTES = Ok ef /\
    from_slice c_event ev = Ok e /\ from_slice (c_vec u32_max c_effect) ef = Ok effects /\
    check_effect_budget effects = Ok tt /\ ev_digest r = dispatch_digest ev ef.

(** [v] and [pos] are the version and event position of the aggregate. *)
Record step_row_ok (v pos : Z) (r : StepRow) (e : TraceEntry) : Prop := {
  sr_origin : 0 <= st_origin r < pos;
  sr_origin_i64 : st_origin r <= i64_max;
  sr_version : 0 < st_version r <= v;
  sr_artifact : exists bs, open KindAgreedStep (st_artifact r) MAX_TRACE_ENTRY_BYTES = Ok bs /\
                           from_slice c_entry bs = Ok e;
  sr_hash : entry_hash (E:=StoreError) e = Ok (st_entry_hash r);
  sr_post : st_post_state r = post_state e;
  sr_time : 0 <= st_certified_at r }.

Definition image_ok (image : bytes) (e : TraceEntry) : Prop :=
  exists sh, open KindStepState image MAX_SHARED_STATE_BYTES = Ok sh /\ zlen sh <= MAX_SHARED_STATE_BYTES /\
    of_shared (E:=StoreError) sh = Ok (post_state e).

Record timer_row_ok (v : Z) (r : TimerRow) : Prop := {
  ti_deadline : 0 <= tm_deadline r;
  ti_payload : exists bs timer, open KindTimer (tm_payload r) MAX_TIMER_RECORD_BYTES = Ok bs /\
                 from_slice c_timer bs = Ok timer /\ zlen (type_name timer) <= MAX_TERMINAL_REASON_BYTES /\
                 zlen (timer_data timer) <= MAX_TIMER_PAYLOAD_BYTES;
  ti_armed : 0 < tm_armed r <= v }.

Record exec_row_ok (host : PeerId) (s : ExecutionState) (last_step : option Z) (r : ExecRow) : Prop := {
  xr_host : x_host r = host;
  xr_producer : x_producer r = producer s;
  xr_session : x_session r = session_id (binding s);
  xr_state : exists bs, open KindExecutionState (x_state r) MAX_EXECUTION_STATE_BYTES = Ok bs /\ decode bs = Ok s;
  xr_end : decode_end (x_end_phase r) (x_end_unconfirmed r) = Ok (end_phase s);
  xr_columns : columns_of s = Ok (MkColumns (x_participant_ids r) (x_participants r) (x_callout_id r)
                                    (x_callout_index r) (x_terminal_reason r) (x_outcome_json r));
  xr_opened : is_some (x_callout_opened r) = is_some (x_callout_id r);
  xr_last : x_last_step r = last_step;
  xr_version : x_version r = version s;
  xr_lifecycle : x_lifecycle r = lifecycle_tag (lifecycle s);
  xr_step : x_agreed_step r = agreed_step s;
  xr_position : x_event_position r = event_position s }.

(** The publication of [id]: no artifact it produced, or the one it names. *)
Definition publication_ok (t : Tables) (s : ExecutionState) : Prop :=
  forall rid, receipt_productions t !! rid = Some (execution_id s) <-> published_receipt_id s = Some rid.
(** A receipt row holds the artifact [a]. *)
Definition receipt_row_ok (rid : ReceiptId) (r : ReceiptRow) (a : ReceiptArtifact) : Prop :=
  exists bs, open KindReceipt (rc_artifact r) MAX_RECEIPT_BYTES = Ok bs /\ artifact_decode bs = Ok a /\
    receipt_id a = rid /\ rc_session r = act_session_hash (h_activation (header (artifact_body a))) /\
    rc_kind r = artifact_kind a /\
    rc_program r = program_hash (act_offer_data (h_activation (header (artifact_body a)))) /\
    rc_completed r = match termination (artifact_body a) with TCompleted => true | _ => false end.
Definition receipt_ok (t : Tables) (s : ExecutionState) : Prop :=
  forall rid, published_receipt_id s = Some rid ->
    exists r a, receipts t !! rid = Some r /\ receipt_row_ok rid r a /\
      h_activation (header (artifact_body a)) = activation (binding s).

(** The store holds [s] with the certified log [tr] under [id]. *)
Record stored (host : PeerId) (t : Tables) (id : ExecId) (s : ExecutionState) (tr : list TraceEntry) : Prop := {
  so_live : live s tr;
  so_id : execution_id s = id;
  so_host : producer s = host;
  so_rows : exists r events steps images,
    executions t !! id = Some r /\ exec_row_ok host s (st_certified_at <$> last steps) r /\
    rows (event_records t) id = numbered_table events /\ zlen events = event_position s /\
    Forall event_row_ok events /\
    rows (agreed_steps t) id = numbered_table steps /\
    Forall2 (step_row_ok (version s) (event_position s)) steps tr /\
    rows (step_states t) id = numbered_table images /\ Forall2 image_ok images tr;
  so_timers : map_Forall (fun _ => timer_row_ok (version s)) (rows (active_timers t) id);
  so_publication : publication_ok t s;
  so_receipt : receipt_ok t s }.

(** Two databases that agree on an execution's rows. *)
Record same_execution (id : ExecId) (t t' : Tables) : Prop := {
  se_row : executions t' !! id = executions t !! id;
  se_events : rows (event_records t') id = rows (event_records t) id;
  se_steps : rows (agreed_steps t') id = rows (agreed_steps t) id;
  se_images : rows (step_states t') id = rows (step_states t) id;
  se_timers : rows (active_timers t') id = rows (active_timers t) id;
  se_productions : forall rid, receipt_productions t' !! rid = Some id <-> receipt_productions t !! rid = Some id;
  se_receipts : receipts t ⊆ receipts t' }.

Lemma stored_frame host t t' id s tr : same_execution id t t' -> stored host t id s tr -> stored host t' id s tr.
Proof.
  intros [E1 E2 E3 E4 E5 E6 E7] [S1 S2 S3 S4 S5 S6 S7]. split; try done.
  - by rewrite E1, E2, E3, E4.
  - by rewrite E5.
  - intros rid. rewrite S2, E6, <- S2. apply S6.
  - intros rid Hr. destruct (S7 rid Hr) as (r & a & Hl & Hrest). exists r, a. split; [|done].
    by eapply lookup_weaken.
Qed.

Lemma same_execution_refl id t : same_execution id t t.
Proof. by split. Qed.

Lemma same_execution_trans id t1 t2 t3 : same_execution id t1 t2 -> same_execution id t2 t3 -> same_execution id t1 t3.
Proof.
  intros [A1 A2 A3 A4 A5 A6 A7] [B1 B2 B3 B4 B5 B6 B7]. split; try congruence.
  - intros rid. by rewrite B6.
  - by transitivity (receipts t2).
Qed.

(** ** Reading a stored execution *)

Lemma sqlite_i64_Ok z : 0 <= z -> sqlite_i64 z = Ok z.
Proof. intros Hz. unfold sqlite_i64. by rewrite (proj2 (Z.ltb_ge _ _)). Qed.

Lemma sqlite_u64_Ok z : z <= i64_max -> sqlite_u64 z = Ok z.
Proof. intros Hz. unfold sqlite_u64. by rewrite (proj2 (Z.ltb_ge _ _)). Qed.

Lemma sqlite_u64_inv z y : sqlite_u64 z = Ok y -> y = z /\ z <= i64_max.
Proof. unfold sqlite_u64. destruct (Z.ltb_spec i64_max z); [done|]. intros [= <-]. split; [done|lia]. Qed.

Lemma opt_eqb_refl o : opt_eqb o o = true.
Proof. destruct o; [apply Z.eqb_refl|done]. Qed.

Lemma live_bounds s tr :
  live s tr -> 0 <= version s /\ 0 <= event_position s /\ 0 <= agreed_step s <= MAX_RECEIPT_TRACE_ENTRIES.
Proof.
  intros Hl. pose proof (live_ranged digest_range aggregate_range _ _ Hl) as Hr. pose proof (live_wf _ _ Hl) as Hw.
  pose proof (u64_range _ (rg_version s Hr)). pose proof (u64_range _ (rg_position s Hr)).
  pose proof (wf_step s Hw). pose proof (rf_steps s (wf_recovered s Hw)). lia.
Qed.

Lemma live_trace s tr : live s tr -> traced s tr.
Proof. intros Hl. apply reach_traced, live_reach, Hl. Qed.

Lemma indexes_stored host t id s tr r :
  stored host t id s tr -> executions t !! id = Some r -> validate_state_indexes t s r = Ok tt.
Proof.
  intros [Hl Hid Hh (r' & evs & sts & ims & Hr & Hx & _ & _ & _ & Hst & Hf & _) _ _ _] Hr'.
  rewrite Hr in Hr'. injection Hr' as ->. destruct Hx as [_ _ _ _ X5 X6 X7 X8 X9 X10 X11 X12].
  destruct (live_bounds s tr Hl) as (Hv & Hp & Hs). pose proof (tr_length s tr (live_trace s tr Hl)) as Hlen.
  unfold validate_state_indexes. rewrite X5. cbn [rbind]. rewrite bool_decide_eq_true_2 by done. cbn [negb err_if rbind].
  rewrite X9, (sqlite_i64_Ok (version s)) by done. cbn [rbind]. rewrite X10, !Z.eqb_refl. cbn [negb orb err_if rbind].
  rewrite X11, (sqlite_i64_Ok (agreed_step s)) by lia. cbn [rbind]. rewrite Z.eqb_refl. cbn [negb err_if rbind].
  rewrite X12, (sqlite_i64_Ok (event_position s)) by done. cbn [rbind]. rewrite Z.eqb_refl. cbn [negb err_if rbind].
  rewrite X6. cbn [rbind col_participant_ids col_participants col_callout_id col_callout_index col_terminal_reason col_outcome_json].
  assert ((if agreed_step s =? 0 then Ok None else
           let? l := sqlite_u64 (agreed_step s - 1) in
           match row (agreed_steps t) (execution_id s) l with
           | Some st => Ok (Some (st_certified_at st)) | None => corrupt "latest agreed step is missing" end)
          = Ok (x_last_step r)) as ->.
  { apply Forall2_length in Hf. unfold zlen in Hlen. rewrite X8. destruct (Z.eqb_spec (agreed_step s) 0) as [H0|H0].
    - destruct sts; [done|]. simpl in Hf. lia.
    - unfold MAX_RECEIPT_TRACE_ENTRIES in Hs. rewrite sqlite_u64_Ok by (unfold i64_max; lia). cbn [rbind].
      unfold row. rewrite Hid, Hst, numbered_lookup, (proj2 (Z.leb_le _ _)) by lia. rewrite last_lookup.
      replace (Z.to_nat (agreed_step s - 1)) with (pred (length sts)) by lia.
      destruct (sts !! pred (length sts)) eqn:E; [done|]. apply lookup_ge_None in E. lia. }
  cbn [rbind]. rewrite !bool_decide_eq_true_2 by done. rewrite Z.eqb_refl, !opt_eqb_refl, X7, eqb_reflx. done.
Qed.

Lemma relation_stored host t id s tr : stored host t id s tr -> validate_terminal_relation t s = Ok tt.
Proof.
  intros [Hl Hid Hh _ _ Hp Hr]. unfold validate_terminal_relation.
  assert (zlen (filter (fun p => p.2 = execution_id s) (map_to_list (receipt_productions t)))
            = if is_some (published_receipt_id s) then 1 else 0) as ->.
  { destruct (published_receipt_id s) as [rid|] eqn:Hpub; cbn [is_some].
    - assert (filter (fun p => p.2 = execution_id s) (map_to_list (receipt_productions t)) ≡ₚ [(rid, execution_id s)])
        as Hperm; [|unfold zlen; by rewrite Hperm].
      apply NoDup_Permutation; [apply NoDup_filter, NoDup_map_to_list|apply NoDup_singleton|].
      intros [rid' id']. rewrite list_elem_of_filter, elem_of_map_to_list, list_elem_of_singleton. simpl.
      split.
      + intros [-> Hprod]. apply Hp in Hprod. congruence.
      + intros [= -> ->]. split; [done|]. by apply Hp.
    - destruct (filter _ _) as [|[rid id'] l] eqn:Hfl; [done|]. exfalso.
      assert ((rid, id') ∈ (rid, id') :: l) as Hin by left. rewrite <- Hfl in Hin.
      apply list_elem_of_filter in Hin as [Heq Hin]. apply elem_of_map_to_list in Hin. simpl in Heq. subst id'.
      apply Hp in Hin. congruence. }
  rewrite Z.eqb_refl. cbn [negb err_if rbind]. destruct (published_receipt_id s) as [rid|] eqn:Hpub; [|done].
  destruct (Hr rid Hpub) as (row & a & -> & (bs & _ & _ & _ & -> & _) & Ha).
  unfold session_id. rewrite Ha, Z.eqb_refl.
  assert (receipt_productions t !! rid = Some (execution_id s)) as -> by (by apply Hp). simpl. by rewrite Z.eqb_refl.
Qed.

(** A stored execution loads as it was written. *)
Lemma load_stored host t id s tr : stored host t id s tr -> load_execution host t id = Ok (Some s).
Proof.
  intros Hst. pose proof Hst as [Hl Hid Hh (r & evs & sts & ims & Hr & Hx & _) _ _ _].
  unfold load_execution. rewrite Hr. pose proof Hx as [X1 X2 X3 (bs & X4 & X4') _ _ _ _ _ _ _ _].
  rewrite X1, Z.eqb_refl. cbn [negb err_if rbind]. unfold decode_state_row. rewrite X4. cbn [rbind].
  rewrite X4'. cbn [map_err rbind]. rewrite X2, X3, Hid, !Z.eqb_refl. cbn [negb orb err_if rbind].
  rewrite (indexes_stored _ _ _ _ _ _ Hst Hr). cbn [rbind].
  rewrite (relation_stored _ _ _ _ _ Hst). by destruct (lifecycle_terminal _).
Qed.

(** ** The certified log *)

Lemma agreed_loop_steps b keys c tr c' i e :
  agreed_loop b keys c tr = Ok c' -> tr !! i = Some e -> step e = next_step c + Z.of_nat i.
Proof.
  revert c i; induction tr as [|e0 tr IH]; intros c i Hl Hi; [done|]. cbn [agreed_loop] in Hl. inv_ok.
  destruct i as [|i].
  - injection Hi as ->. unfold validate_shared_entry in *. inv_ok. lia.
  - match goal with Ha : advance _ _ = Ok _ |- _ => apply advance_Ok in Ha as (_ & _ & _ & _ & ->) end.
    rewrite (IH _ _ Hl Hi). simpl. lia.
Qed.

Lemma live_steps s tr i e : live s tr -> tr !! i = Some e -> step e = Z.of_nat i.
Proof.
  intros Hl Hi. pose proof (tr_cursor s tr (live_trace s tr Hl)) as Hv. unfold validate_agreed_trace in Hv. inv_ok.
  by rewrite (agreed_loop_steps _ _ _ _ _ _ _ Hv Hi).
Qed.

(** The agreed rows read in order: [k] rows and [n] bytes are already read. *)
Lemma load_steps_from t s k acc n steps tr m :
  Forall2 (step_row_ok (version s) (event_position s)) steps tr ->
  (forall i e, tr !! i = Some e -> step e = Z.of_nat (k + i)) ->
  (forall o, 0 <= o < event_position s -> is_some (row (event_records t) (execution_id s) o) = true) ->
  items_length c_entry tr = Ok m -> n + m <= u64_max ->
  try_fold (load_step t s) (acc, n) (imap (fun i r => ((k + i)%nat, (Z.of_nat (k + i), r))) steps)
    = Ok (acc ++ zip_with (fun r e => MkAgreedStep (st_certified_at r) e) steps tr, n + m).
Proof.
  intros Hf. revert k acc n m. induction Hf as [|r e steps tr Hr Hf IH]; intros k acc n m Hsteps Hev Hm Hu.
  - rewrite items_length_nil in Hm. injection Hm as <-. simpl. by rewrite app_nil_r, Z.add_0_r.
  - apply items_length_cons in Hm as (n1 & n2 & E1 & E2 & ->).
    assert (0 < n1) as Hn1 by (by eapply c_entry_positive).
    assert (0 <= n2) as Hn2 by (unfold items_length, rmap in E2; inv_ok; apply zlen_nonneg).
    destruct Hr as [R1 R2 R3 (bs & R4 & R4') R5 R6 R7]. rewrite imap_cons. cbn [try_fold].
    rewrite Nat.add_0_r. unfold load_step at 1.
    rewrite (sqlite_i64_Ok (Z.of_nat k)) by lia. cbn [rbind]. rewrite Z.eqb_refl. cbn [negb err_if rbind].
    rewrite (sqlite_i64_Ok (st_origin r)) by lia. cbn [rbind]. rewrite (sqlite_u64_Ok (st_origin r)) by done. cbn [rbind].
    rewrite Hev by done. cbn [negb err_if rbind]. rewrite (sqlite_i64_Ok (st_version r)) by lia. cbn [rbind].
    rewrite (proj2 (Z.eqb_neq _ _)), (proj2 (Z.ltb_ge _ _)) by lia. cbn [orb err_if rbind]. rewrite R4. cbn [rbind].
    unfold decode_borsh. rewrite R4'. cbn [map_err rbind].
    rewrite (Hsteps 0%nat e eq_refl), Nat.add_0_r, Z.eqb_refl. cbn [negb err_if rbind]. rewrite R5. cbn [rbind].
    rewrite R6, !Z.eqb_refl. cbn [negb orb err_if rbind]. rewrite E1. cbn [map_err rbind snd fst].
    unfold checked_add at 1. rewrite (proj2 (Z.leb_le _ _)) by lia. cbn [expect rbind].
    rewrite sqlite_i64_Ok by done. cbn [rbind].
    rewrite (imap_ext _ (fun i r => ((S k + i)%nat, (Z.of_nat (S k + i), r)))) by
      (intros i x _; simpl; by rewrite Nat.add_succ_r).
    rewrite (IH (S k) _ _ n2); [|..]; [|intros i x Hi; rewrite (Hsteps (S i) x Hi); lia|done|done|lia].
    rewrite <- app_assoc. simpl. do 2 f_equal. lia.
Qed.

Lemma load_steps_stored host t id s tr :
  stored host t id s tr -> exists l, load_agreed_steps t s = Ok l /\ map ag_entry l = tr.
Proof.
  intros [Hl Hid Hh (r & evs & sts & ims & _ & _ & Hev & Hn & _ & Hst & Hf & _) _ _ _].
  pose proof (live_trace s tr Hl) as Ht.
  exists (zip_with (fun r e => MkAgreedStep (st_certified_at r) e) sts tr). split.
  - unfold load_agreed_steps. rewrite Hid, Hst, ordered_numbered, enumerate_twice.
    rewrite (load_steps_from t s 0 [] 0 sts tr (trace_bytes s)); cbn [app].
    + cbn [rbind fst snd]. assert (zlen (zip_with (fun r e => MkAgreedStep (st_certified_at r) e) sts tr) = agreed_step s) as ->.
      { rewrite <- (tr_length s tr Ht). unfold zlen. apply Forall2_length in Hf. rewrite length_zip_with. lia. }
      by rewrite Z.add_0_l, !Z.eqb_refl.
    + done.
    + intros i e Hi. by apply (live_steps s tr).
    + intros o Ho. unfold row. rewrite Hid, Hev, numbered_lookup, (proj2 (Z.leb_le _ _)) by lia.
      destruct (evs !! Z.to_nat o) eqn:E; [done|]. apply lookup_ge_None in E. unfold zlen in Hn. lia.
    + apply (tr_bytes s tr Ht).
    + pose proof (u64_range _ (rg_bytes s (live_ranged digest_range aggregate_range _ _ Hl))). lia.
  - clear -Hf. induction Hf; [done|]. simpl. by f_equal.
Qed.

(** A stored execution's log loads as it was certified. *)
Lemma trace_stored host t id s tr : stored host t id s tr -> load_agreed_trace t s = Ok tr.
Proof.
  intros Hs. destruct (load_steps_stored _ _ _ _ _ Hs) as (l & Hl & <-). unfold load_agreed_trace, rmap. by rewrite Hl.
Qed.

(** The post-state of every agreed step reads back, and hashes to its entry. *)
Lemma step_state_stored host t id s tr i e :
  stored host t id s tr -> tr !! i = Some e ->
  exists sh, step_state t id (Z.of_nat i) = Ok sh /\ of_shared (E:=StoreError) sh = Ok (post_state e).
Proof.
  intros [Hl Hid Hh (r & evs & sts & ims & _ & _ & _ & _ & _ & Hst & Hf & Him & Hfi) _ _ _] Hi.
  destruct (Forall2_lookup_r _ _ _ _ _ Hf Hi) as (st & Hsti & Hok).
  destruct (Forall2_lookup_r _ _ _ _ _ Hfi Hi) as (im & Himi & (sh & Ho & Hlen & Hsh)).
  pose proof (live_bounds s tr Hl) as (_ & _ & Hb). pose proof (tr_length s tr (live_trace s tr Hl)) as Htl.
  apply lookup_lt_Some in Hi as Hlt. unfold zlen, MAX_RECEIPT_TRACE_ENTRIES in *.
  exists sh. split; [|done]. unfold step_state. rewrite sqlite_u64_Ok by (unfold i64_max; lia). cbn [rbind].
  unfold row. rewrite Hst, Him, !numbered_lookup, (proj2 (Z.leb_le _ _)) by lia. rewrite Nat2Z.id, Himi, Hsti.
  rewrite Ho. cbn [rbind]. unfold shared_try_new. rewrite (proj2 (Z.ltb_ge _ _)) by done. cbn [map_err rbind].
  rewrite Hsh. cbn [rbind]. by rewrite (sr_post _ _ _ _ Hok), Z.eqb_refl.
Qed.

(** ** Startup validation *)

Lemma event_rows_from k events :
  Forall event_row_ok events -> Z.of_nat k + zlen events <= u64_max ->
  try_fold validate_event_row (Z.of_nat k) (imap (fun i r => (Z.of_nat (k + i), r)) events)
    = Ok (Z.of_nat k + zlen events).
Proof.
  intros Hf. revert k. induction Hf as [|r events (ev & ef & e & effects & E1 & E2 & E3 & E4 & E5 & E6) Hf IH]; intros k Hu.
  - simpl. rewrite zlen_nil. f_equal. lia.
  - rewrite zlen_cons in *. pose proof (zlen_nonneg events). rewrite imap_cons. cbn [try_fold]. unfold validate_event_row at 1.
    cbn [fst snd]. rewrite Nat.add_0_r, sqlite_i64_Ok by lia. cbn [rbind]. rewrite Z.eqb_refl. cbn [negb err_if rbind].
    unfold checked_add. rewrite (proj2 (Z.leb_le _ _)) by lia. cbn [ok_or rbind]. rewrite E1, E2. cbn [rbind].
    unfold decode_borsh. rewrite E3, E4. cbn [map_err rbind]. rewrite E5. cbn [map_err rbind].
    rewrite E6, Z.eqb_refl. cbn [negb err_if rbind].
    rewrite (imap_ext _ (fun i r => (Z.of_nat (S k + i), r))) by (intros i x _; simpl; by rewrite Nat.add_succ_r).
    replace (Z.of_nat k + 1) with (Z.of_nat (S k)) by lia. rewrite IH by lia. f_equal. lia.
Qed.

Lemma event_rows_stored host t id s tr : stored host t id s tr -> validate_event_rows t s = Ok tt.
Proof.
  intros [Hl Hid Hh (r & evs & sts & ims & _ & _ & Hev & Hn & Hf & _) _ _ _]. unfold validate_event_rows.
  pose proof (u64_range _ (rg_position s (live_ranged digest_range aggregate_range _ _ Hl))) as Hr.
  rewrite Hid, Hev, ordered_numbered. 
  pose proof (event_rows_from 0 evs Hf ltac:(lia)) as Hrows. change (try_fold validate_event_row 0 (enumerate evs)
    = Ok (0 + zlen evs)) in Hrows. rewrite Hrows. cbn [rbind]. rewrite Z.add_0_l, Hn, Z.eqb_refl. cbn [negb err_if rbind].
  destruct (proposal s) as [p|] eqn:Hp; [|done].
  destruct (wf_pending s p (live_wf _ _ Hl) Hp) as [_ Hpend]. unfold check_pending in Hpend. inv_ok.
  match goal with He : (event_position s =? _) = true |- _ => apply Z.eqb_eq in He end.
  pose proof (u64_range _ (pg_position p (rg_proposal s (live_ranged digest_range aggregate_range _ _ Hl) p Hp))).
  rewrite (proj2 (Z.eqb_neq _ _)), (proj2 (Z.eqb_eq _ _)) by lia. done.
Qed.

Lemma agreed_rows_stored host t id s tr : stored host t id s tr -> validate_agreed_rows t s = Ok tr.
Proof.
  intros Hs. unfold validate_agreed_rows. rewrite (trace_stored _ _ _ _ _ Hs). cbn [rbind].
  destruct Hs as [Hl Hid Hh (r & evs & sts & ims & _ & _ & _ & _ & _ & _ & _ & Him & Hf) _ _ _].
  rewrite Hid, Him, size_numbered. apply Forall2_length in Hf. unfold zlen. rewrite Hf, Z.eqb_refl. cbn [negb err_if rbind].
  rewrite (tr_cursor s tr (live_trace s tr Hl)). cbn [map_err rbind state_hash chain_hash step_cursor].
  by rewrite !Z.eqb_refl.
Qed.

Lemma timer_rows_stored host t id s tr : stored host t id s tr -> validate_timer_rows t s = Ok tt.
Proof.
  intros [Hl Hid Hh _ Ht _ _]. unfold validate_timer_rows. rewrite try_for_each_Ok, Forall_forall.
  intros [tid r] Hin%ordered_elem. rewrite Hid in Hin.
  destruct (Ht _ _ Hin) as [T1 (bs & timer & T2 & T3 & T4 & T5) T6].
  unfold validate_timer_row. cbn [snd]. rewrite sqlite_i64_Ok by done. cbn [rbind]. rewrite T2. cbn [rbind].
  unfold decode_borsh. rewrite T3. cbn [map_err rbind]. rewrite !(proj2 (Z.ltb_ge _ _)) by done. cbn [orb err_if rbind].
  rewrite sqlite_i64_Ok by lia. cbn [rbind]. by rewrite (proj2 (Z.eqb_neq _ _)), (proj2 (Z.ltb_ge _ _)) by lia.
Qed.

Lemma projection_stored host t id s tr :
  stored host t id s tr -> lifecycle_terminal (lifecycle s) = false -> validate_projection_rows host t s = Ok tt.
Proof.
  intros Hs Hlc. unfold validate_projection_rows. rewrite (event_rows_stored _ _ _ _ _ Hs). cbn [rbind].
  rewrite (agreed_rows_stored _ _ _ _ _ Hs). cbn [rbind]. rewrite (timer_rows_stored _ _ _ _ _ Hs). cbn [rbind].
  unfold validate_terminal_rows. rewrite (relation_stored _ _ _ _ _ Hs). cbn [rbind].
  assert (published_receipt_id s = None) as ->; [|done].
  unfold lifecycle, published_receipt_id in *. destruct (status s) as [| | | | |c rid]; try done.
  simpl in Hlc. by destruct (cause_kind c).
Qed.
End Durable.
