(* ===== verification/Writes.v ===== *)
(** * What a write does to the rows (store/src/database/execution.rs, timers.rs,
      blobs.rs, receipt.rs)

    The effect of each statement group of [persist] on the view of the connection,
    when it succeeds: the aggregate's row describes the new aggregate, each table
    gains the row it should, and nothing else moves. *)

From S2P Require Import Prelude Borsh Crypto Session Trace Negotiation Evidence Validation Receipt.
From S2P Require Import Frame Execution Invariant History Publish Fixture Guarantees Consistency Canonical Artifacts NoPanic.
From S2P Require Import StateCodec Ranges Envelope ChangeLog Database Persist Store Durable.

(** Reduces the scope of an operation to that of its parts. *)
Ltac scope :=
  repeat first [apply scoped_bind; [|intros ?] | apply scoped_read | apply scoped_select | apply scoped_ret
    | apply scoped_update | apply scoped_constraint | apply scoped_record | progress cbv zeta
    | match goal with |- scoped (match ?x with _ => _ end) => destruct x end
    | match goal with |- scoped (if ?x then _ else _) => destruct x end ].

(** Inverts a successful run of database statements. *)
Ltac db_ok := unfold select, update, constraint, record_change in *; inv_ok.

(** Equal registries: requests, activations, conflicts, programs and salts. *)
Record registry_same (t t' : Tables) : Prop := {
  sm_requests : exec_requests t' = exec_requests t;
  sm_sequence : request_sequence t' = request_sequence t;
  sm_activations : activation_records t' = activation_records t;
  sm_conflicts : activation_conflicts t' = activation_conflicts t;
  sm_programs : programs t' = programs t;
  sm_salts : execution_salts t' = execution_salts t }.

Lemma registry_same_refl t : registry_same t t.
Proof. by split. Qed.
Lemma registry_same_trans t1 t2 t3 : registry_same t1 t2 -> registry_same t2 t3 -> registry_same t1 t3.
Proof. intros [] []. split; congruence. Qed.

(** Equal outside the tables of blobs. *)
Record blobs_only (t t' : Tables) : Prop := {
  bo_executions : executions t' = executions t;
  bo_events : event_records t' = event_records t;
  bo_steps : agreed_steps t' = agreed_steps t;
  bo_images : step_states t' = step_states t;
  bo_timers : active_timers t' = active_timers t;
  bo_receipts : receipts t' = receipts t;
  bo_imports : receipt_imports t' = receipt_imports t;
  bo_productions : receipt_productions t' = receipt_productions t;
  bo_registry : registry_same t t' }.

Section Writes.
Context `{Crypto}.
Context (digest_range : forall bs, 0 <= blake3 bs < 256 ^ 32).
Context (aggregate_range : forall l z, blst_aggregate l = inr z -> 0 <= z < 256 ^ 48).

(** ** Scope: every statement stays in the view *)

Lemma scoped_for_each {A} (f : A -> db_op unit) l : (forall a, scoped (f a)) -> scoped (for_each f l).
Proof. intros Hf. induction l as [|a l IH]; simpl; [apply scoped_ret|]. apply scoped_bind; [apply Hf|by intros _]. Qed.

Lemma scoped_write_file path content : scoped (write_file path content).
Proof. done. Qed.

Lemma scoped_persist_state exp s now : scoped (persist_state exp s now).
Proof. unfold persist_state. scope. Qed.
Lemma scoped_insert_execution s now : scoped (insert_execution s now).
Proof. unfold insert_execution. scope. Qed.
Lemma scoped_insert_event id pos ev ef : scoped (insert_event_record id pos ev ef).
Proof. unfold insert_event_record. scope. Qed.
Lemma scoped_insert_step id o v e sh now : scoped (insert_agreed_step id o v e sh now).
Proof. unfold insert_agreed_step. scope. Qed.
Lemma scoped_effects id pos v l now : scoped (persist_effects id pos v l now).
Proof.
  apply scoped_for_each. intros [i e]. simpl. destruct e; try apply scoped_ret. unfold persist_timer. scope.
Qed.
Lemma scoped_blobs id l : scoped (apply_blob_changes id l).
Proof.
  apply scoped_for_each. intros [h n o d|h]; unfold apply_blob_append, apply_blob_commit, write_file; scope; done.
Qed.
Lemma scoped_artifact a now : scoped (insert_artifact a now).
Proof. unfold insert_artifact. scope. Qed.
Lemma scoped_publication id a now : scoped (persist_terminal_publication id a now).
Proof.
  unfold persist_terminal_publication. apply scoped_bind; [apply scoped_artifact|]. intros _. scope.
  apply scoped_for_each. intros ?. apply scoped_record.
Qed.
Lemma scoped_change id s c now : scoped (persist_change id s c now).
Proof.
  destruct c as [|ev ef tm bl|[p|]|a]; cbn [persist_change]; try apply scoped_ret; [| |apply scoped_publication].
  - scope; try apply scoped_blobs; try apply scoped_insert_event; try apply scoped_effects; unfold consume_timer; scope.
  - unfold commit_staged_event. scope; try apply scoped_insert_step; try apply scoped_effects.
Qed.
Lemma scoped_persist id r : scoped (persist_in_transaction id r).
Proof. unfold persist_in_transaction. scope; try apply scoped_persist_state; try apply scoped_change. Qed.
Lemma scoped_import a now : scoped (import_receipt_in_transaction a now).
Proof. unfold import_receipt_in_transaction. scope; apply scoped_artifact. Qed.
Lemma scoped_create s now : scoped (create_execution_in_transaction s now).
Proof. unfold create_execution_in_transaction. scope; apply scoped_insert_execution. Qed.

(** ** The aggregate's row *)

Lemma record_view k db u db' :
  record_change k db = (Ok u, db') -> view db' = view db /\ files db' = files db.
Proof. unfold record_change. intros Hr. inv_ok. by case_bool_decide. Qed.

Lemma persist_state_Ok exp s now db u db' :
  persist_state exp s now db = (Ok u, db') ->
  exists r bs c sealed e,
    executions (view db) !! execution_id s = Some r /\ state_bytes s = Ok bs /\
    columns_of s = Ok c /\ seal KindExecutionState bs = Ok sealed /\ end_columns (end_phase s) = Ok e /\
    version s <= i64_max /\ event_position s <= i64_max /\ files db' = files db /\
    view db' = set_executions (<[execution_id s :=
      updated_row r s c sealed (version s) (agreed_step s) (event_position s) now e]> (executions (view db))) (view db).
Proof.
  unfold persist_state. intros Ho. db_ok.
  match goal with Hm : match ?x with Some _ => _ | None => _ end _ = _ |- _ => destruct x as [r|] eqn:Hx; [|by inv_ok] end.
  destruct (_ =? _); [|by db_ok].
  repeat match goal with Hs : sqlite_u64 _ = Ok _ |- _ => apply sqlite_u64_inv in Hs as [-> ?] end.
  db_ok. do 5 eexists. split_and!; try done; by case_bool_decide.
Qed.

Lemma set_rows_empty : set_rows ∅ = [].
Proof. done. Qed.

(** The end columns read back as the end phase. *)
Lemma end_columns_read s e :
  wf s -> ranged s -> end_columns (end_phase s) = Ok e -> decode_end e.1 e.2 = Ok (end_phase s).
Proof.
  intros Hw Hr He. pose proof (proj1 (validate_end_Ok s) (rf_end s (wf_recovered s Hw))) as Hv.
  pose proof (rg_end s Hr) as Hc. unfold end_columns in He.
  assert (forall (u : gset PeerId) bs, cwf c_set u -> (forall p, p ∈ u -> remote_participant s p = true) ->
            to_vec c_set u = Ok bs -> zlen bs <= 4 + 64 * 32 /\ from_slice c_set bs = Ok u) as Hread.
  { intros u bs Hcw Hu Hb. split; [|by apply from_slice_to_vec].
    destruct (peer_set_sized s u Hw Hu) as (n & Hn & Hle). apply object_length_Ok in Hn as (bs' & Hb' & <-).
    unfold to_vec in Hb. congruence. }
  destruct (end_phase s) as [|u|u]; cbn [fst snd] in *; inv_ok; unfold decode_end; cbn [fst snd].
  - match goal with Hb : to_vec c_set ∅ = Ok _ |- _ => apply Hread in Hb as [Hlen ->] end.
    + unfold MAX_PARTICIPANTS. rewrite (proj2 (Z.ltb_ge _ _)) by lia. cbn [map_err rbind]. by rewrite bool_decide_eq_true_2.
    + apply cwf_set_rows. set_solver.
    + set_solver.
  - destruct Hv as (_ & Hne & Hu).
    match goal with Hb : to_vec c_set u = Ok _ |- _ => apply Hread in Hb as [Hlen ->] end; [|done|done].
    unfold MAX_PARTICIPANTS. rewrite (proj2 (Z.ltb_ge _ _)) by lia. cbn [map_err rbind]. by rewrite bool_decide_eq_false_2.
  - destruct Hv as (_ & Hu).
    match goal with Hb : to_vec c_set u = Ok _ |- _ => apply Hread in Hb as [Hlen ->] end; [|done|done].
    unfold MAX_PARTICIPANTS. by rewrite (proj2 (Z.ltb_ge _ _)) by lia.
Qed.

(** The written state reads back. *)
Lemma state_read s bs sealed :
  wf s -> ranged s -> state_bytes s = Ok bs -> seal KindExecutionState bs = Ok sealed ->
  exists bs, open KindExecutionState sealed MAX_EXECUTION_STATE_BYTES = Ok bs /\ decode bs = Ok s.
Proof.
  intros Hw Hr Hb Hs. unfold state_bytes in Hb. apply map_err_Ok in Hb. exists bs.
  split; [|by apply decode_encode]. apply (open_seal digest_range _ _ _ _ Hs); [|done].
  unfold encode in Hb. inv_ok. unfold ensure_encoded in *. inv_ok. lia.
Qed.

(** A row that describes [s] after the update describes its successor. *)
Lemma updated_row_ok host s s' lst r bs c sealed now e :
  wf s' -> ranged s' -> exec_row_ok host s lst r -> producer s' = producer s -> binding s' = binding s ->
  state_bytes s' = Ok bs -> columns_of s' = Ok c -> seal KindExecutionState bs = Ok sealed ->
  end_columns (end_phase s') = Ok e ->
  exec_row_ok host s' lst (updated_row r s' c sealed (version s') (agreed_step s') (event_position s') now e).
Proof.
  intros Hw Hr [X1 X2 X3 _ _ X6 X7 X8 _ _ _ _] Hp Hb Hbs Hc Hse He.
  split; cbn [updated_row x_host x_producer x_session x_state x_end_phase x_end_unconfirmed x_participant_ids
    x_participants x_callout_id x_callout_index x_callout_opened x_terminal_reason x_outcome_json x_last_step
    x_version x_lifecycle x_agreed_step x_event_position]; try done; try congruence.
  - by eapply state_read.
  - by eapply end_columns_read.
  - by destruct c.
  - destruct (col_callout_id c) as [i|]; [|done]. destruct (opt_eqb (x_callout_id r) (Some i)) eqn:Hq; [|done].
    rewrite X7. by destruct (x_callout_id r).
Qed.

(** ** Event records *)

Lemma dispatch_message_size s from msg sh lo ef o pid rq r s' :
  apply_dispatch (MessageReceived from msg) sh lo ef o pid rq s = (Ok r, s') -> zlen msg <= MAX_EFFECT_PAYLOAD_BYTES.
Proof.
  unfold apply_dispatch. intros Ho. inv_ok. cbn [is_agreed_event negb] in Ho. unfold apply_agreed, trace_event in Ho. inv_ok.
  match goal with Hf : for_entry _ _ _ = Ok _ |- _ => unfold for_entry, entry_hash in Hf end. inv_ok.
  match goal with He : enc c_entry ?e = Ok ?bs |- _ =>
    assert (object_length c_entry e = Ok (zlen bs)) as Hlen by (apply object_length_Ok; by exists bs) end.
  apply ol_entry in Hlen as (ne & nt & E1 & _). cbn [event with_agreement] in E1.
  apply ol_variant in E1 as (m & E1 & _). apply ol_pair in E1 as (? & ? & _ & (Hd & _)%ol_bytes & _). done.
Qed.

(** The event of an accepted dispatch is far below the bound of its envelope. *)
Lemma dispatch_event_size s e sh lo ef o pid rq r s' ev :
  apply_dispatch e sh lo ef o pid rq s = (Ok r, s') -> to_vec c_event e = Ok ev ->
  zlen ev <= MAX_EXECUTION_STATE_BYTES.
Proof.
  intros Ho Hev. assert (object_length c_event e = Ok (zlen ev)) as Hlen by (apply object_length_Ok; by exists ev).
  revert Hlen. generalize (zlen ev) as n. intros n Hlen. unfold MAX_EXECUTION_STATE_BYTES.
  destruct e as [[l]|from msg|i data|timer|from msg att]; apply ol_variant in Hlen as (m & Hm & ->).
  - change (object_length c_ensemble (MkEnsemble l)) with (object_length (c_vec MAX_PARTICIPANTS c_id) l) in Hm.
    apply ol_vec in Hm as (Hl & _ & k & Hk & ->). rewrite ol_ids in Hk. injection Hk as <-.
    unfold MAX_PARTICIPANTS in Hl. lia.
  - apply dispatch_message_size in Ho. apply ol_pair in Hm as (n1 & n2 & H1 & (_ & _ & ->)%ol_bytes & ->).
    cbn [fst] in H1. rewrite ol_id in H1. injection H1 as <-. unfold MAX_EFFECT_PAYLOAD_BYTES in Ho. simpl. lia.
  - apply ol_pair in Hm as (n1 & n2 & H1 & (Hd & _ & ->)%ol_bytes & ->). cbn [fst] in H1. rewrite (ol_uint 4) in H1.
    injection H1 as <-. unfold MAX_EFFECT_PAYLOAD_BYTES in Hd. simpl in *. lia.
  - unfold c_timer in Hm. rewrite ol_iso in Hm. apply ol_pair in Hm as (n1 & n2 & (Ht & _ & ->)%ol_string & (Hd & _ & ->)%ol_bytes & ->).
    unfold MAX_TIMER_PAYLOAD_BYTES, MAX_TERMINAL_REASON_BYTES in *. simpl in *. lia.
  - apply ol_pair in Hm as (n1 & n2 & H1 & (n3 & n4 & (Hd & _ & ->)%ol_bytes & H4 & ->)%ol_pair & ->).
    cbn [fst snd] in *. rewrite ol_id in H1. injection H1 as <-. unfold MAX_DIRECT_CONTROL_BYTES in Hd.
    assert (n4 <= 5); [|simpl in *; lia].
    destruct att; [apply ol_some in H4 as (k & Hk & ->); rewrite (ol_uint 4) in Hk; injection Hk as <-; lia|].
    rewrite ol_none in H4. injection H4 as <-. lia.
Qed.

Lemma effects_bytes effects ef :
  check_effect_budget effects = Ok tt -> to_vec (c_vec u32_max c_effect) effects = Ok ef -> zlen ef <= MAX_RECEIPT_BYTES.
Proof.
  intros (Hn & Hf & Hs)%check_effect_budget_Ok He.
  assert (object_length (c_vec u32_max c_effect) effects = Ok (zlen ef)) as Hlen by (apply object_length_Ok; by exists ef).
  apply ol_vec in Hlen as (_ & _ & k & Hk & ->).
  assert (items_length c_effect effects = Ok (effects_size effects)) as Hk'.
  { clear -Hf. induction Hf as [|e l [_ He] Hf IH]; [done|]. apply items_length_cons.
    by exists (effect_size e), (effects_size l). }
  unfold MAX_EFFECT_BYTES, MAX_RECEIPT_BYTES in *. rewrite Hk' in Hk. injection Hk as <-. lia.
Qed.

Lemma dispatch_budget s e sh lo ef o pid rq r s' :
  apply_dispatch e sh lo ef o pid rq s = (Ok r, s') -> check_effect_budget ef = Ok tt.
Proof.
  unfold apply_dispatch. intros Ho. inv_ok. by repeat match goal with u : unit |- _ => destruct u end.
Qed.

Lemma event_row_valid e effects ev ef se sf :
  cwf c_event e -> Forall (cwf c_effect) effects -> to_vec c_event e = Ok ev ->
  to_vec (c_vec u32_max c_effect) effects = Ok ef -> seal KindEventRecord ev = Ok se -> seal KindEffects ef = Ok sf ->
  check_effect_budget effects = Ok tt -> zlen ev <= MAX_EXECUTION_STATE_BYTES ->
  event_row_ok (MkEventRow se sf (dispatch_digest ev ef)).
Proof.
  intros We Wf Ee Ef Se Sf Hb Hlen. exists ev, ef, e, effects. cbn [ev_event ev_effects ev_digest]. split_and!; try done.
  - by apply (open_seal digest_range).
  - apply (open_seal digest_range _ _ _ _ Sf); [by eapply effects_bytes|done].
  - by apply from_slice_to_vec.
  - by apply from_slice_to_vec.
Qed.

Lemma insert_event_Ok id pos ev ef db u db' :
  insert_event_record id pos ev ef db = (Ok u, db') ->
  exists se sf, seal KindEventRecord ev = Ok se /\ seal KindEffects ef = Ok sf /\
    files db' = files db /\
    view db' = set_event_records (put (event_records (view db)) id pos (MkEventRow se sf (dispatch_digest ev ef))) (view db).
Proof.
  unfold insert_event_record. intros Ho. db_ok.
  repeat match goal with Hs : sqlite_u64 _ = Ok _ |- _ => apply sqlite_u64_inv in Hs as [-> ?] end.
  do 2 eexists. split_and!; done.
Qed.

(** ** Timers *)

(** The timers of [id] change, and stay valid up to version [v]. *)
Definition timers_written (id : ExecId) (v : Z) (t t' : Tables) : Prop :=
  exists m, t' = set_active_timers m t /\ (forall id', id' <> id -> rows m id' = rows (active_timers t) id') /\
    (map_Forall (fun _ => timer_row_ok v) (rows (active_timers t) id) -> map_Forall (fun _ => timer_row_ok v) (rows m id)).

Lemma timers_written_refl id v t : timers_written id v t t.
Proof. exists (active_timers t). split_and!; try done. by destruct t. Qed.

Lemma timers_written_trans id v t1 t2 t3 : timers_written id v t1 t2 -> timers_written id v t2 t3 -> timers_written id v t1 t3.
Proof.
  intros (m & -> & Hm & Hv) (m' & -> & Hm' & Hv'). exists m'. split_and!; [done| |].
  - intros id' Hne. by rewrite Hm', <- Hm.
  - intros Ht. by apply Hv', Hv.
Qed.

Lemma timer_row_valid v timer bs sealed deadline :
  cwf c_timer timer -> to_vec c_timer timer = Ok bs -> zlen bs <= MAX_TIMER_RECORD_BYTES ->
  seal KindTimer bs = Ok sealed -> 0 <= deadline -> 0 < v -> timer_row_ok v (MkTimerRow deadline sealed v).
Proof.
  intros Hw He Hlen Hs Hd Hv. split; cbn [tm_deadline tm_payload tm_armed]; [done| |lia].
  exists bs, timer. split_and!; [by apply (open_seal digest_range)|by apply from_slice_to_vec|..].
  all: assert (object_length c_timer timer = Ok (zlen bs)) as Hol by (apply object_length_Ok; by exists bs);
    unfold c_timer in Hol; rewrite ol_iso in Hol; apply ol_pair in Hol as (n1 & n2 & (Ht & _)%ol_string & (Hd' & _)%ol_bytes & _); done.
Qed.

Lemma persist_timer_Ok id pos v i delay timer now db u db' :
  persist_timer id pos v i delay timer now db = (Ok u, db') -> 0 < v -> cwf c_timer timer ->
  timers_written id v (view db) (view db') /\ files db' = files db.
Proof.
  unfold persist_timer. intros Ho Hv Hw. db_ok.
  match goal with Hm : match ?x with Some _ => _ | None => _ end _ = _ |- _ => destruct x as [r|] eqn:Hx end.
  - db_ok. split; [apply timers_written_refl|done].
  - db_ok. repeat match goal with Hs : sqlite_u64 _ = Ok _ |- _ => apply sqlite_u64_inv in Hs as [-> ?] end.
    split; [|done]. eexists. split_and!; [done|..].
    + intros id' Hne. by apply rows_put_ne.
    + intros Hf. rewrite rows_put. apply map_Forall_insert_2; [|done].
      match goal with He : encode_borsh c_timer _ _ = Ok _ |- _ => unfold encode_borsh in He; apply map_err_Ok in He end.
      eapply timer_row_valid; try done; lia.
Qed.

Lemma persist_effects_Ok id pos v l now db u db' :
  persist_effects id pos v l now db = (Ok u, db') -> 0 < v -> Forall (fun p => cwf c_effect p.2) l ->
  timers_written id v (view db) (view db') /\ files db' = files db.
Proof.
  intros Ho Hv Hf. unfold persist_effects in Ho. revert db u db' Ho.
  induction Hf as [|[i e] l He Hf IH]; intros db u db' Ho; cbn [for_each] in Ho.
  - inv_ok. split; [apply timers_written_refl|done].
  - cbn [snd fst] in Ho. apply sbind_Ok in Ho as (u1 & db1 & H1 & Ho). apply IH in Ho as [Hw Hfi].
    assert (timers_written id v (view db) (view db1) /\ files db1 = files db) as [Hw1 Hf1].
    { destruct e; try (inv_ok; split; [apply timers_written_refl|done]).
      by eapply persist_timer_Ok; [exact H1|done|apply He]. }
    split; [by eapply timers_written_trans|congruence].
Qed.

Lemma indexed_effects_Forall effects l :
  indexed_effects effects = Ok l -> Forall (cwf c_effect) effects -> Forall (fun p => cwf c_effect p.2) l.
Proof.
  unfold indexed_effects. intros Hi Hf. inv_ok. apply Forall_forall. intros [i e] He.
  apply list_elem_of_lookup in He as (k & Hk). rewrite list_lookup_imap in Hk.
  destruct (effects !! k) as [e'|] eqn:Hek; [|done]. simpl in Hk. simplify_eq.
  rewrite Forall_forall in Hf. apply Hf. by eapply list_elem_of_lookup_2.
Qed.

Lemma consume_timer_Ok id tid v db u db' :
  consume_timer id tid db = (Ok u, db') -> timers_written id v (view db) (view db') /\ files db' = files db.
Proof.
  unfold consume_timer. intros Ho. db_ok. destruct (is_some _); [|by inv_ok]. db_ok. split; [|done].
  eexists. split_and!; [done|..].
  - intros id' Hne. by apply rows_remove_ne.
  - intros Hf. rewrite rows_remove. by apply map_Forall_delete.
Qed.

(** ** Agreed steps *)

Lemma insert_step_Ok id origin v e sh now db u db' :
  insert_agreed_step id origin v e sh now db = (Ok u, db') ->
  exists bs artifact h image r,
    to_vec c_entry e = Ok bs /\ seal KindAgreedStep bs = Ok artifact /\ entry_hash (E:=StoreError) e = Ok h /\
    seal KindStepState sh = Ok image /\ 0 <= now /\ 0 <= origin <= i64_max /\
    executions (view db) !! id = Some r /\ files db' = files db /\
    view db' = set_executions (<[id := with_last_step now r]> (executions (view db)))
      (set_step_states (put (step_states (view db)) id (step e) image)
        (set_agreed_steps (put (agreed_steps (view db)) id (step e)
          (MkStepRow origin v artifact h now (post_state e))) (view db))).
Proof.
  unfold insert_agreed_step. intros Ho. unfold select, update, constraint in Ho. inv_ok.
  repeat match goal with Hs : sqlite_u64 _ = Ok _ |- _ => apply sqlite_u64_inv in Hs as [-> ?] end.
  repeat match goal with Hr : record_change _ _ = _ |- _ => apply record_view in Hr as [? ?] end.
  match goal with Hh : has _ id = true |- _ => unfold has in Hh;
    destruct (executions (view db) !! id) as [r|] eqn:Hr; [|done] end.
  match goal with He : encode_borsh c_entry _ _ = Ok _ |- _ => unfold encode_borsh in He; apply map_err_Ok in He end.
  match goal with F1 : files db' = files ?x, F2 : files ?x = _, V1 : view db' = view ?x, V2 : view ?x = _ |- _ =>
    rewrite F2 in F1; rewrite V2 in V1 end.
  do 4 eexists. exists r. split_and!; try done; try lia.
  match goal with Hv : view db' = _ |- _ => rewrite Hv end.
  cbn [view set_view set_agreed_steps set_step_states executions]. by rewrite Hr.
Qed.

(** ** Blobs *)

Lemma blobs_only_refl t : blobs_only t t.
Proof. by split. Qed.
Lemma blobs_only_trans t1 t2 t3 : blobs_only t1 t2 -> blobs_only t2 t3 -> blobs_only t1 t3.
Proof. intros [] []. split; try congruence. by eapply registry_same_trans. Qed.

Lemma blob_append_Ok id h n o d db u db' :
  apply_blob_append id h n o d db = (Ok u, db') -> blobs_only (view db) (view db').
Proof.
  unfold apply_blob_append, write_file. intros Ho. db_ok.
  match goal with Hm : match ?x with Some _ => _ | None => _ end _ = _ |- _ => destruct x as [r|] eqn:Hx end; db_ok; by repeat split.
Qed.

Lemma blob_commit_Ok id h db u db' :
  apply_blob_commit id h db = (Ok u, db') -> blobs_only (view db) (view db').
Proof.
  unfold apply_blob_commit. intros Ho. unfold select in Ho. inv_ok.
  match goal with Hm : match ?x with Some _ => _ | None => _ end _ = _ |- _ => destruct x as [r|] eqn:Hx; [|by inv_ok] end.
  destruct (_ || _); [by inv_ok|]. unfold update in Ho. inv_ok.
  match goal with Hm : (if ?x then _ else _) ?d = (Ok _, ?d1) |- _ =>
    assert (blobs_only (view d) (view d1)) as Hb by
      (destruct x; inv_ok; [apply blobs_only_refl|]; by match goal with Hr : record_change _ _ = _ |- _ => apply record_view in Hr as [-> _] end) end.
  destruct Hb as [B1 B2 B3 B4 B5 B6 B7 B8 []]. by repeat split.
Qed.

Lemma blob_changes_Ok id l db u db' :
  apply_blob_changes id l db = (Ok u, db') -> blobs_only (view db) (view db').
Proof.
  unfold apply_blob_changes. revert db u db'. induction l as [|c l IH]; intros db u db' Ho; cbn [for_each] in Ho.
  - inv_ok. apply blobs_only_refl.
  - apply sbind_Ok in Ho as (u1 & db1 & H1 & Ho). apply IH in Ho. eapply blobs_only_trans; [|exact Ho].
    destruct c; [by eapply blob_append_Ok|by eapply blob_commit_Ok].
Qed.

(** ** Receipts *)

(** Only the receipt tables change, and no artifact is lost. *)
Record receipts_written (t t' : Tables) : Prop := {
  rw_receipts : receipts t ⊆ receipts t';
  rw_other : t' = set_receipts (receipts t') t }.

Lemma insert_artifact_Ok a now db u db' :
  insert_artifact a now db = (Ok u, db') ->
  files db' = files db /\ receipts_written (view db) (view db') /\
  (forall rid, rid <> receipt_id a -> receipts (view db') !! rid = receipts (view db) !! rid) /\
  exists r, receipts (view db') !! receipt_id a = Some r /\
    (receipts (view db) !! receipt_id a = Some r \/ receipts (view db) !! receipt_id a = None /\ receipt_row_ok (receipt_id a) r a) /\
    exists bs, open KindReceipt (rc_artifact r) MAX_RECEIPT_BYTES = Ok bs /\ artifact_decode bs = Ok a.
Proof.
  unfold insert_artifact. intros Ho. unfold select, constraint, update in Ho. inv_ok.
  match goal with Hb : bool_decide _ = true |- _ => apply bool_decide_eq_true in Hb; subst end.
  match goal with Hm : match ?x with Some _ => _ | None => _ end _ = _ |- _ => destruct x as [r|] eqn:Hx end; inv_ok.
  - repeat match goal with Hb : bool_decide (_ = _) = true |- _ => apply bool_decide_eq_true in Hb end. subst.
    split_and!; [done|split; [done|by destruct (view _)]|done|]. exists r. split_and!; [done|by left|]. eauto.
  - match goal with Hr : record_change _ _ = _ |- _ => apply record_view in Hr as [Hv Hfi] end.
    repeat match goal with Hs : sqlite_u64 _ = Ok _ |- _ => apply sqlite_u64_inv in Hs as [-> ?] end.
    rewrite Hv. cbn [view set_view set_receipts receipts]. split_and!.
    + done.
    + split; [|done]. cbn [receipts set_receipts]. by apply insert_subseteq.
    + intros rid Hne. by rewrite lookup_insert_ne.
    + match goal with He : artifact_encode a = Ok ?b, Hd : artifact_decode ?b = Ok a |- _ => rename He into Henc; rename Hd into Hdec end.
      match goal with Hs : seal KindReceipt ?b = Ok ?x |- _ =>
        assert (open KindReceipt x MAX_RECEIPT_BYTES = Ok b) as Hop end.
      { apply (open_seal digest_range); [done| |done]. unfold artifact_encode in Henc. inv_ok.
        unfold ensure_payload in *. inv_ok. lia. }
      eexists. split_and!; [by rewrite lookup_insert_eq| |]; [right; split; [done|]|]; eauto. eexists. split_and!; done.
Qed.

(** The entry a certification hands to the store. *)
Record committed_ok (s : ExecutionState) (p : SharedProposal) : Prop := {
  co_step : step (entry p) = agreed_step s;
  co_entry : cwf c_entry (entry p);
  co_shared : zlen (pr_shared_state p) <= MAX_SHARED_STATE_BYTES;
  co_post : of_shared (E:=StoreError) (pr_shared_state p) = Ok (post_state (entry p));
  co_effects : Forall (fun x => cwf c_effect x.2) (pr_effects p) }.

Lemma of_shared_any {E F} sh h : of_shared (E:=E) sh = Ok h -> of_shared (E:=F) sh = Ok h.
Proof. unfold of_shared. destruct (canonical_state_image sh); intros [= <-]. done. Qed.

Lemma certify_committed s cert c s' :
  ranged s -> cwf c_certificate cert -> certify_step cert s = (Ok c, s') -> committed_ok s c.
Proof.
  intros Hr Hcert (p & next & bytes & Hc & -> & _ & _)%certify_step_Ok.
  destruct (rg_proposal s Hr p (ce_proposal _ _ _ _ _ Hc)) as [P1 P2 P3 P4 P5 P6 P7 P8].
  destruct (ce_staged _ _ _ _ _ Hc) as [S1 _ _ _ S5 S6 _ _ _].
  apply for_entry_Ok in S5 as (h & _ & Hk).
  split; cbn [entry set_entry pr_shared_state pr_effects step post_state with_agreement].
  - unfold validate_shared_entry in S1. inv_ok. cbn [next_step step_cursor] in *. lia.
  - destruct P1 as [(Q1 & Q2 & Q3 & Q4 & Q5 & Q6 & _) Q7]. destruct Hcert as [_ Ha].
    exact (conj (conj Q1 (conj Q2 (conj Q3 (conj Q4 (conj Q5 (conj Q6 Ha)))))) Q7).
  - exact P2.
  - eapply of_shared_any. rewrite S6. by rewrite Hk.
  - eapply Forall_impl; [exact P4|]. by intros x [_ Hx].
Qed.

Lemma computed_committed s tr s' p log :
  live s tr -> computed s s' (ChStepSignature (Some p)) log -> committed_ok s p /\ log = [entry p].
Proof.
  intros Hl Hc. pose proof (live_wf _ _ Hl) as Hw. pose proof (live_ranged digest_range aggregate_range _ _ Hl) as Hr.
  inversion Hc as [| | |sg q ? [_ Hp] Ho|cert q ? [_ Hp] Ho|]; subst; (split; [|done]); apply answer_Ok in Ho as (x & Ho & Hx).
  - injection Hx as <-. destruct (sign_certifies digest_range aggregate_range s sg p s' Hw Hr Hp Ho) as (s1 & cert & Hw1 & Hr1 & Hcert & Hcs & Hstep).
    destruct (certify_committed s1 cert p s' Hr1 Hcert Hcs) as [C1 C2 C3 C4 C5].
    split; [congruence|exact C2|exact C3|exact C4|exact C5].
  - injection Hx as <-. by eapply certify_committed.
Qed.
End Writes.
