(* ===== verification/Registered.v ===== *)
(** * What the registries hold (store/src/database/request.rs, activation.rs, registry.rs)

    The invariant of the rows an execution starts from: every request decodes and is
    authorised locally, every activation is the one its request admits and only moves
    from prepared to committed, every conflict names the evidence still held, and
    programs and salts match their keys.  Each call keeps it, and it is what startup
    validation looks for. *)

From S2P Require Import Prelude Borsh Crypto Session Trace Negotiation Evidence Validation Receipt.
From S2P Require Import Frame Execution Invariant History Publish Fixture Guarantees Consistency Canonical Artifacts NoPanic.
From S2P Require Import StateCodec Ranges Envelope ChangeLog Database Persist Store Registry Durable Writes.

Section Registered.
Context `{Crypto}.
Context (digest_range : forall bs, 0 <= blake3 bs < 256 ^ 32).

(** ** Rows *)

Record request_row_ok (host : PeerId) (r : RequestRow) (a : ExecutionAdmission) : Prop := {
  rr_order : 0 < rq_order r;
  rr_params : forall b, rq_params r = Some b -> zlen b <= MAX_PARAMS_LEN /\ json_try_new b = Ok b;
  rr_admission : exists bs, open KindExecutionAdmission (rq_admission r) MAX_ADMISSION_BYTES = Ok bs /\
                            from_slice c_admission bs = Ok a;
  rr_bound : zlen (rq_admission r) <= MAX_ADMISSION_BYTES + MAX_ENVELOPE_OVERHEAD;
  rr_negotiation : rq_negotiation r = admission_negotiation a;
  rr_local : validate_local_admission host a = Ok tt;
  rr_present : validate_request_params a (is_some (rq_params r)) = Ok tt;
  rr_created : 0 <= rq_created r;
  rr_failure : forall b, rq_failure r = Some b -> zlen b <= MAX_ERROR_BYTES }.

Record activation_row_ok (r : ActivationRow) (p : PreparedActivation) (c : option Activation) : Prop := {
  aw_prepared : exists bs, open KindPreparedActivation (ar_prepared r) MAX_ACTIVATION_BYTES = Ok bs /\
                           from_slice c_prepared bs = Ok p;
  aw_cwf : cwf c_prepared p;
  aw_valid : prepared_validate p = Ok tt;
  aw_facts : exists f, facts_of (E:=StoreError) p = Ok f /\ from_slice c_facts (ar_facts r) = Ok f;
  aw_nonzero : p_session_hash p <> 0;
  aw_session : ar_session r = p_session_hash p;
  aw_status : ar_status r = if is_some c then StCommitted else StPrepared;
  aw_committed : match c with
                 | None => ar_committed r = None
                 | Some a => prepared a = p /\ cwf c_activation a /\ activation_validate a = Ok tt /\
                     exists sealed bs, ar_committed r = Some sealed /\
                       open KindActivation sealed MAX_ACTIVATION_BYTES = Ok bs /\ from_slice c_activation bs = Ok a
                 end;
  aw_updated : 0 <= ar_updated r }.

(** The request [r], whose admission is [a], admits the activation [p]. *)
Record admits (host : PeerId) (r : RequestRow) (a : ExecutionAdmission) (p : PreparedActivation) : Prop := {
  ad_failure : rq_failure r = None;
  ad_program : rq_program r = program_hash (offer_data (p_offer p));
  ad_params : forall b, rq_params r = Some b -> b = params (offer_data (p_offer p));
  ad_negotiation : admission_negotiation a = Some (o_negotiation_id (offer_data (p_offer p)));
  ad_authority : ensure_admission_authority host a p = Ok tt }.

(** Sealed evidence that decodes and validates. *)
Definition prepared_evidence (bs : bytes) (p : PreparedActivation) : Prop :=
  exists payload, open KindPreparedActivation bs MAX_ACTIVATION_BYTES = Ok payload /\
    from_slice c_prepared payload = Ok p /\ prepared_validate p = Ok tt.
Definition committed_evidence (bs : bytes) (a : Activation) : Prop :=
  exists payload, open KindActivation bs MAX_ACTIVATION_BYTES = Ok payload /\
    from_slice c_activation payload = Ok a /\ activation_validate a = Ok tt.

(** A conflict row for the record [(p, c)]. *)
Definition conflict_row_ok (x : ConflictRow) (p : PreparedActivation) (c : option Activation) : Prop :=
  match cf_kind x with
  | ConflictPrepared => prepared_evidence (cf_existing x) p /\ exists p', prepared_evidence (cf_incoming x) p'
  | ConflictCommitted => exists a, c = Some a /\ committed_evidence (cf_existing x) a /\
                           exists a', committed_evidence (cf_incoming x) a'
  end.

Record registered (host : PeerId) (t : Tables) : Prop := {
  rd_requests : forall id q, exec_requests t !! id = Some q -> exists a, request_row_ok host q a;
  rd_sequence : 0 <= request_sequence t;
  rd_activations : forall id x, activation_records t !! id = Some x ->
    exists p c q, activation_row_ok x p c /\ exec_requests t !! id = Some q /\
      forall a, request_row_ok host q a -> admits host q a p;
  rd_conflicts : forall y, y ∈ activation_conflicts t -> exists x p c,
    activation_records t !! cf_execution y = Some x /\ activation_row_ok x p c /\ conflict_row_ok y p c;
  rd_salts : forall id r, execution_salts t !! id = Some r -> exists b, decode_execution_salt (sl_salt r) = Ok b;
  rd_programs : forall h r, programs t !! h = Some r -> validate_program (h, r) = Ok tt }.

Lemma registered_frame host t t' : registry_same t t' -> registered host t -> registered host t'.
Proof.
  intros [E1 E2 E3 E4 E5 E6] [R1 R2 R3 R4 R5 R6]. split; rewrite ?E1, ?E2, ?E3, ?E4, ?E5, ?E6; done.
Qed.

Lemma registered_empty host t :
  exec_requests t = ∅ -> request_sequence t = 0 -> activation_records t = ∅ -> activation_conflicts t = [] ->
  execution_salts t = ∅ -> programs t = ∅ -> registered host t.
Proof.
  intros E1 E2 E3 E4 E5 E6. split; rewrite ?E1, ?E2, ?E3, ?E4, ?E5, ?E6; try done; set_solver.
Qed.

(** ** Reading the rows *)

Lemma request_row_unique host r a a' : request_row_ok host r a -> request_row_ok host r a' -> a' = a.
Proof. intros [_ _ (bs & O1 & D1) _ _ _ _ _ _] [_ _ (bs' & O2 & D2) _ _ _ _ _ _]. congruence. Qed.

Lemma activation_row_unique r p c p' c' :
  activation_row_ok r p c -> activation_row_ok r p' c' -> p' = p /\ c' = c.
Proof.
  intros [(b & O & D) _ _ _ _ _ S C _] [(b' & O' & D') _ _ _ _ _ S' C' _].
  assert (p' = p) as -> by congruence. split; [done|]. destruct c as [a|], c' as [a'|]; try done.
  - destruct C as (_ & _ & _ & z & y & E1 & E2 & E3), C' as (_ & _ & _ & z' & y' & F1 & F2 & F3). congruence.
  - rewrite S in S'. done.
  - rewrite S in S'. done.
Qed.

Lemma decode_request_ok host id r a :
  request_row_ok host r a ->
  decode_request id r = Ok (MkRequest id (rq_program r) (rq_params r) a (rq_order r) (rq_created r) (rq_failure r)).
Proof.
  intros [R1 R2 (bs & R3 & R4) R5 R6 R7 R8 R9 R10]. unfold decode_request. rewrite R3. cbn [rbind].
  unfold decode_borsh. rewrite R4. cbn [map_err rbind]. unfold validate_negotiation_index.
  rewrite R6, opt_eqb_refl. cbn [negb err_if rbind].
  assert (match rq_params r with
          | Some b => rmap Some (map_err (fun _ => Corruption "request params") (json_try_new b))
          | None => Ok None
          end = Ok (rq_params r)) as ->.
  { destruct (rq_params r) as [b|]; [|done]. destruct (R2 b eq_refl) as [_ ->]. done. }
  cbn [rbind]. rewrite R8. cbn [map_err rbind]. rewrite !sqlite_i64_Ok by lia. done.
Qed.

Lemma decode_activation_ok id r p c :
  activation_row_ok r p c -> decode_activation_row id r = Ok (MkActivationRecord id p c (ar_updated r)).
Proof.
  intros [(bs & A1 & A2) A3 A4 (f & A5 & A6) A7 A8 A9 A10 A11]. unfold decode_activation_row.
  rewrite A1. cbn [rbind]. unfold decode_borsh. rewrite A2. cbn [map_err rbind]. rewrite A4. cbn [map_err rbind].
  rewrite A6. cbn [map_err rbind]. rewrite A5. cbn [rbind]. rewrite bool_decide_eq_true_2 by done. cbn [negb err_if rbind].
  rewrite (proj2 (Z.eqb_neq _ _)) by exact A7. cbn [err_if rbind]. rewrite A8, Z.eqb_refl. cbn [negb err_if rbind].
  destruct c as [a|].
  - destruct A10 as (B1 & _ & B2 & sealed & bs' & -> & B3 & B4). rewrite B3. cbn [rbind]. rewrite B4. cbn [map_err rbind].
    rewrite B2. cbn [map_err rbind]. unfold prepared_matches. rewrite bool_decide_eq_true_2 by done. cbn [negb err_if rbind].
    rewrite A9. cbn. by rewrite sqlite_i64_Ok.
  - rewrite A10. cbn [rbind]. rewrite A9. cbn. by rewrite sqlite_i64_Ok.
Qed.

Lemma load_request_ok host t id q :
  registered host t -> exec_requests t !! id = Some q -> exists a, request_row_ok host q a /\
    load_execution_request t id = Ok (Some (MkRequest id (rq_program q) (rq_params q) a (rq_order q) (rq_created q) (rq_failure q))).
Proof.
  intros Hreg Hq. destruct (rd_requests _ _ Hreg _ _ Hq) as (a & Ha). exists a. split; [exact Ha|].
  unfold load_execution_request, rmap. by rewrite Hq, (decode_request_ok host id q a Ha).
Qed.

Lemma load_activation_ok host t id x :
  registered host t -> activation_records t !! id = Some x -> exists p c, activation_row_ok x p c /\
    load_activation t id = Ok (Some (MkActivationRecord id p c (ar_updated x))).
Proof.
  intros Hreg Hx. destruct (rd_activations _ _ Hreg _ _ Hx) as (p & c & q & Hok & _). exists p, c. split; [exact Hok|].
  unfold load_activation, rmap. by rewrite Hx, (decode_activation_ok id x p c Hok).
Qed.

Lemma load_activation_none t id : activation_records t !! id = None -> load_activation t id = Ok None.
Proof. intros Hn. unfold load_activation. by rewrite Hn. Qed.

(** ** Startup validation *)

Lemma request_validates host t id q :
  registered host t -> exec_requests t !! id = Some q -> validate_request host t id q = Ok tt.
Proof.
  intros Hreg Hq. unfold validate_request. destruct (execution_is_archived t id); [done|].
  destruct (rd_requests _ _ Hreg _ _ Hq) as (a & Ha). pose proof Ha as [R1 R2 (bs & R3 & R4) R5 R6 R7 R8 R9 R10].
  rewrite sqlite_i64_Ok by lia. cbn [rbind]. rewrite (proj2 (Z.eqb_neq _ _)), (proj2 (Z.ltb_ge _ _) R5) by lia.
  assert (match rq_params q with Some b => MAX_PARAMS_LEN <? zlen b | None => false end = false) as ->.
  { destruct (rq_params q) as [b|]; [|done]. destruct (R2 b eq_refl) as [Hb _]. by apply Z.ltb_ge. }
  assert (match rq_failure q with Some b => MAX_ERROR_BYTES <? zlen b | None => false end = false) as ->.
  { destruct (rq_failure q) as [b|]; [|done]. by apply Z.ltb_ge, R10. }
  cbn [orb err_if rbind]. rewrite sqlite_i64_Ok by done. cbn [rbind]. rewrite R3. cbn [rbind]. unfold decode_borsh.
  rewrite R4. cbn [map_err rbind]. unfold validate_negotiation_index. rewrite R6, opt_eqb_refl. cbn [negb err_if rbind].
  rewrite R7. cbn [map_err rbind].
  assert (match rq_params q with
          | Some b => rmap Some (map_err (fun _ => Corruption "invalid durable request params") (json_try_new b))
          | None => Ok None
          end = Ok (rq_params q)) as ->.
  { destruct (rq_params q) as [b|]; [|done]. destruct (R2 b eq_refl) as [_ ->]. done. }
  cbn [rbind]. rewrite R8. cbn [map_err rbind].
  destruct (activation_records t !! id) as [x|] eqn:Hx.
  - destruct (rd_activations _ _ Hreg _ _ Hx) as (p & c & q' & Hok & Hq' & Hadm). rewrite Hq in Hq'. injection Hq' as <-.
    destruct (Hadm a Ha) as [D1 D2 D3 D4 D5]. unfold load_activation, rmap. rewrite Hx, (decode_activation_ok id x p c Hok).
    cbn [rbind]. rewrite D1. cbn [is_some andb err_if rbind rec_prepared]. destruct (programs t !! rq_program q); [|done].
    rewrite D2, Z.eqb_refl, D4, opt_eqb_refl, D5.
    assert (match rq_params q with Some b => negb (bool_decide (params (offer_data (p_offer p)) = b)) | None => false end = false) as ->.
    { destruct (rq_params q) as [b|]; [|done]. by rewrite bool_decide_eq_true_2 by (symmetry; by apply D3). }
    done.
  - rewrite load_activation_none by done. cbn [rbind is_some]. rewrite andb_false_r. cbn [err_if rbind].
    by destruct (programs t !! rq_program q).
Qed.

Lemma conflict_validates host t y : registered host t -> y ∈ activation_conflicts t -> validate_conflict t y = Ok tt.
Proof.
  intros Hreg (x & p & c & Hx & Hok & Hy)%(rd_conflicts _ _ Hreg). unfold validate_conflict.
  destruct (execution_is_archived _ _); [done|]. unfold load_activation, rmap. rewrite Hx, (decode_activation_ok _ x p c Hok).
  cbn [rbind ok_or]. unfold conflict_row_ok in Hy. unfold decode_borsh. destruct (cf_kind y).
  - destruct Hy as [(b1 & O1 & D1 & V1) (p' & b2 & O2 & D2 & V2)]. rewrite O1, O2. cbn [rbind]. rewrite D1, D2. cbn [map_err rbind].
    rewrite V1, V2. cbn [map_err rbind rec_prepared]. by rewrite bool_decide_eq_true_2.
  - destruct Hy as (a & -> & (b1 & O1 & D1 & V1) & (a' & b2 & O2 & D2 & V2)). rewrite O1, O2. cbn [rbind]. rewrite D1, D2. cbn [map_err rbind].
    rewrite V1, V2. cbn [map_err rbind rec_committed]. by rewrite bool_decide_eq_true_2.
Qed.

Lemma registries_validate host t :
  registered host t ->
  validate_execution_requests host t = Ok tt /\ validate_activation_conflicts t = Ok tt /\
  validate_execution_salts t = Ok tt /\ validate_programs t = Ok tt.
Proof.
  intros Hreg. split_and!.
  - unfold validate_execution_requests. rewrite try_for_each_Ok, Forall_forall. intros [id q] Hin.
    unfold requests_in_order in Hin. rewrite sort_key_Permutation in Hin. apply elem_of_map_to_list in Hin.
    by apply request_validates.
  - unfold validate_activation_conflicts. rewrite try_for_each_Ok, Forall_forall. intros y Hy. by eapply conflict_validates.
  - unfold validate_execution_salts. rewrite try_for_each_Ok, Forall_forall. intros [id r] Hin%ordered_elem. cbn [fst snd].
    destruct (execution_is_archived t id); [done|]. destruct (rd_salts _ _ Hreg _ _ Hin) as (b & Hb). unfold rmap. by rewrite Hb.
  - unfold validate_programs. rewrite try_for_each_Ok, Forall_forall. intros [h r] Hin%ordered_elem. by apply (rd_programs _ _ Hreg).
Qed.

(** ** Evidence fits its envelope *)

Lemma prepared_fits p n :
  prepared_validate p = Ok tt -> object_length c_prepared p = Ok n -> n <= 5 + 65 * MAX_NEGOTIATION_FACT_BYTES.
Proof.
  intros Hv (m & Hm & ->)%ol_versioned. rewrite ol_refine in Hm. apply ol_pair in Hm as (n1 & n2 & H1 & H2 & ->).
  cbn [fst snd] in *. unfold c_offer in H1. rewrite ol_refine in H1. apply ol_vec in H2 as (_ & _ & k & Hk & ->).
  unfold prepared_validate, activation_data_for in Hv. inv_ok.
  match goal with Ho : offer_validate _ = Ok _ |- _ => unfold offer_validate, offer_data_validate in Ho end. inv_ok.
  match goal with Ht : check_target_size _ = Ok _ |- _ => unfold check_target_size in Ht end.
  match goal with Hf : try_for_each check_ticket_member _ = Ok _ |- _ => rewrite try_for_each_Ok in Hf end.
  unfold check_fact_size in *. inv_ok.
  apply object_length_Ok in H1 as (b & Hb & <-).
  assert (Forall (fun t => exists n, object_length c_ticket t = Ok n /\ n <= MAX_NEGOTIATION_FACT_BYTES) (p_tickets p)) as Ft.
  { match goal with Hz : Forall _ (zip (p_tickets p) _) |- _ => rename Hz into Hf end.
    assert (length (p_tickets p) = length (offer_tickets (p_offer p))) as Hlen by (unfold zlen in *; lia).
    revert Hf Hlen. clear. generalize (offer_tickets (p_offer p)).
    induction (p_tickets p) as [|t ts IH]; intros [|h l'] Hf Hlen; try done.
    apply Forall_cons in Hf as [Ht Hf]. constructor; [|by apply (IH l'); [exact Hf|by injection Hlen]].
    unfold check_ticket_member in Ht. inv_ok.
    match goal with Hv : ticket_validate t = Ok _ |- _ => unfold ticket_validate, check_fact_size, expect_ok in Hv end. inv_ok.
    destruct (to_vec c_ticket t) as [bs| |] eqn:He; [|done..]. simplify_eq.
    eexists. split; [apply object_length_Ok; by eexists|lia]. }
  assert (k <= zlen (p_tickets p) * MAX_NEGOTIATION_FACT_BYTES) as Hk'.
  { revert k Hk. clear -Ft. induction Ft as [|t ts (n & Hn & Hle) Ft IH]; intros k Hk.
    - rewrite items_length_nil in Hk. injection Hk as <-. done.
    - apply items_length_cons in Hk as (n1 & n2 & E1 & E2%IH & ->). rewrite Hn in E1. injection E1 as <-.
      rewrite zlen_cons. lia. }
  unfold MAX_PARTICIPANTS in *.
  assert (zlen (p_tickets p) <= 64) by lia. 
  assert (zlen b <= MAX_NEGOTIATION_FACT_BYTES).
  { match goal with He : enc c_offer_raw (_, _) = Ok ?x, Hz : (_ <? zlen ?x) = false |- _ => rewrite Hb in He; injection He as <-; lia end. }
  unfold MAX_NEGOTIATION_FACT_BYTES in *. lia.
Qed.

Lemma cwf_prepared_valid p : cwf c_prepared p -> prepared_validate p = Ok tt.
Proof.
  intros [_ [_ Hn]]. cbn [fst snd] in Hn. unfold prepared_new in Hn. inv_ok. destruct p as [o ts d h]. cbn [p_offer p_tickets] in *.
  unfold prepared_validate. cbn [p_offer p_tickets p_activation_data p_session_hash]. simplify_eq.
  match goal with Ha : activation_data_for o ts = Ok _ |- _ => rewrite Ha end. cbn [rbind].
  match goal with Hs : session_hash_of ?d = Ok ?z |- _ =>
    assert (session_hash_of (E:=ActivationError) d = Ok z) as -> by exact Hs end.
  cbn [rbind]. rewrite bool_decide_eq_true_2, Z.eqb_refl by done. done.
Qed.

Lemma cwf_activation_valid a : cwf c_activation a -> activation_validate a = Ok tt /\ cwf c_prepared (prepared a).
Proof.
  intros [_ [Hw Hn]]. cbn [fst snd] in Hn, Hw. unfold activation_new in Hn. inv_ok.
  match goal with u : unit |- _ => destruct u end. split; [by destruct a|]. apply Hw.
Qed.

Lemma prepared_sealed p bs sealed :
  cwf c_prepared p -> to_vec c_prepared p = Ok bs -> seal KindPreparedActivation bs = Ok sealed -> prepared_evidence sealed p.
Proof.
  intros Hw Hb Hs. pose proof (cwf_prepared_valid p Hw) as Hv. exists bs. split_and!; [|by apply from_slice_to_vec|done].
  apply (open_seal digest_range _ _ _ _ Hs); [|done].
  assert (object_length c_prepared p = Ok (zlen bs)) as Hn by (apply object_length_Ok; by exists bs).
  apply prepared_fits in Hn; [|done]. unfold MAX_NEGOTIATION_FACT_BYTES, MAX_ACTIVATION_BYTES in *. lia.
Qed.

Lemma committed_sealed a bs sealed :
  cwf c_activation a -> to_vec c_activation a = Ok bs -> seal KindActivation bs = Ok sealed -> committed_evidence sealed a.
Proof.
  intros Hw Hb Hs. destruct (cwf_activation_valid a Hw) as [Hv Hp]. exists bs. split_and!; [|by apply from_slice_to_vec|done].
  apply (open_seal digest_range _ _ _ _ Hs); [|done].
  assert (object_length c_activation a = Ok (zlen bs)) as Hn by (apply object_length_Ok; by exists bs).
  unfold c_activation in Hn. apply ol_versioned in Hn as (m & Hm & ->). rewrite ol_refine in Hm.
  apply ol_pair in Hm as (n1 & n2 & H1 & H2 & ->). cbn [fst snd] in *. rewrite ol_arr in H2. injection H2 as <-.
  apply prepared_fits in H1; [|by apply cwf_prepared_valid]. unfold MAX_NEGOTIATION_FACT_BYTES, MAX_ACTIVATION_BYTES in *. lia.
Qed.

Lemma facts_read p f bs :
  cwf c_prepared p -> facts_of (E:=StoreError) p = Ok f -> to_vec c_facts f = Ok bs -> from_slice c_facts bs = Ok f.
Proof.
  intros [_ [[Ho Ht] _]] Hf Hb. apply from_slice_to_vec; [|done]. unfold facts_of in Hf. inv_ok.
  destruct Ho as [[Ho _] _]. destruct Ho as (_ & _ & O3 & _ & O5 & _ & _ & O8 & O9 & O10 & _). cbn [fst snd] in *.
  assert (forall acc ps, try_fold (fun acc t => let? th := ticket_hash_of (E:=StoreError) (ticket_data t) in
            Ok (acc ++ [(ticket_signer t, th)])) acc (p_tickets p) = Ok ps ->
          Forall (cwf (c_pair c_id c_id)) acc -> Forall (cwf (c_pair c_id c_id)) ps) as Hps.
  { clear -Ht digest_range. induction (p_tickets p) as [|t ts IH]; intros acc ps Hfold Hacc; cbn [try_fold] in Hfold; [by inv_ok|].
    apply Forall_cons in Ht as [Ht Hts]. inv_ok. eapply IH; [exact Hts|eassumption|]. apply Forall_app. split; [done|].
    constructor; [|constructor]. match goal with Hh : ticket_hash_of _ = Ok _ |- _ => unfold ticket_hash_of in Hh end. inv_ok.
    split; [|exact (digest_range _)]. destruct Ht as [(_ & _ & _ & _ & T5 & _) _]. exact T5. }
  match goal with Hh : offer_hash_of _ = Ok _ |- _ => unfold offer_hash_of in Hh end. inv_ok.
  split; [exact O3|]. split; [exact (digest_range _)|]. split; [exact O5|]. split; [exact O9|]. split; [exact O10|].
  split; [|exact I]. eapply Hps; [eassumption|constructor].
Qed.

(** ** Writes of the registries *)

(** The tables of executions and receipts are left alone. *)
Record core_same (t t' : Tables) : Prop := {
  cs_executions : executions t' = executions t;
  cs_events : event_records t' = event_records t;
  cs_steps : agreed_steps t' = agreed_steps t;
  cs_images : step_states t' = step_states t;
  cs_timers : active_timers t' = active_timers t;
  cs_receipts : receipts t' = receipts t;
  cs_imports : receipt_imports t' = receipt_imports t;
  cs_productions : receipt_productions t' = receipt_productions t }.

Lemma core_same_refl t : core_same t t.
Proof. by split. Qed.
Lemma core_same_trans t1 t2 t3 : core_same t1 t2 -> core_same t2 t3 -> core_same t1 t3.
Proof. intros [] []. split; congruence. Qed.

(** Prepared evidence is kept, and so is a certificate once there is one. *)
Definition evolves (t t' : Tables) : Prop :=
  forall id x p c, activation_records t !! id = Some x -> activation_row_ok x p c ->
    exists x' c', activation_records t' !! id = Some x' /\ activation_row_ok x' p c' /\ (is_Some c -> c' = c).

(** A write of the registries keeps them valid and the rest unchanged. *)
Definition registers (host : PeerId) (t t' : Tables) : Prop := registered host t' /\ core_same t t' /\ evolves t t'.

Lemma evolves_same t t' : activation_records t' = activation_records t -> evolves t t'.
Proof. intros E id x p c Hx Hok. exists x, c. by rewrite E. Qed.

Lemma registers_refl host t : registered host t -> registers host t t.
Proof. intros Hr. split_and!; [done|apply core_same_refl|by apply evolves_same]. Qed.

Lemma unrequested host t id :
  registered host t -> exec_requests t !! id = None -> activation_records t !! id = None.
Proof.
  intros Hreg Hn. destruct (activation_records t !! id) as [x|] eqn:Hx; [|done].
  destruct (rd_activations _ _ Hreg _ _ Hx) as (p & c & q & _ & Hq & _). congruence.
Qed.

Lemma registered_request host t id q a n :
  registered host t -> activation_records t !! id = None -> request_row_ok host q a -> 0 <= n ->
  registered host (set_request_sequence n (set_exec_requests (<[id := q]> (exec_requests t)) t)).
Proof.
  intros [R1 R2 R3 R4 R5 R6] Hn Hq Hs. split; cbn; try done.
  - intros id' q'. rewrite lookup_insert_Some. intros [[<- <-]|[_ Hq']]; [by exists a|by eapply R1].
  - intros id' x Hx. destruct (R3 id' x Hx) as (p & c & q' & Hok & Hq' & Hadm). exists p, c, q'. split; [exact Hok|].
    split; [|exact Hadm]. rewrite lookup_insert_ne; [done|]. intros <-. congruence.
Qed.

Lemma registered_activation host t id x p c :
  registered host t -> activation_row_ok x p c -> (exists q, exec_requests t !! id = Some q /\
    forall a, request_row_ok host q a -> admits host q a p) ->
  (forall x0 p0 c0, activation_records t !! id = Some x0 -> activation_row_ok x0 p0 c0 -> p0 = p /\ (is_Some c0 -> c = c0)) ->
  registers host t (set_activation_records (<[id := x]> (activation_records t)) t).
Proof.
  intros [R1 R2 R3 R4 R5 R6] Hx (q & Hq & Hadm) Hold. split; [split; cbn; try done|split; [by split|]].
  - intros id' x'. rewrite lookup_insert_Some. intros [[<- <-]|[_ Hx']]; [by exists p, c, q|by apply R3].
  - intros y Hy. destruct (R4 y Hy) as (x0 & p0 & c0 & Hx0 & Hok & Hc). destruct (decide (cf_execution y = id)) as [<-|Hne].
    + destruct (Hold x0 p0 c0 Hx0 Hok) as [-> Hcc]. exists x, p, c. rewrite lookup_insert_eq. split_and!; [done|exact Hx|].
      unfold conflict_row_ok in *. destruct (cf_kind y); [exact Hc|]. destruct Hc as (a & -> & Hrest). exists a.
      split; [by apply Hcc|exact Hrest].
    + exists x0, p0, c0. rewrite lookup_insert_ne by done. by split_and!.
  - intros id' x0 p0 c0 Hx0 Hok. cbn [activation_records set_activation_records]. destruct (decide (id' = id)) as [->|Hne].
    + destruct (Hold x0 p0 c0 Hx0 Hok) as [-> Hcc]. exists x, c. rewrite lookup_insert_eq. by split_and!.
    + exists x0, c0. rewrite lookup_insert_ne by done. by split_and!.
Qed.

Lemma registered_conflict host t y :
  registered host t -> (exists x p c, activation_records t !! cf_execution y = Some x /\ activation_row_ok x p c /\ conflict_row_ok y p c) ->
  registered host (set_activation_conflicts (activation_conflicts t ++ [y]) t).
Proof.
  intros [R1 R2 R3 R4 R5 R6] Hy. split; cbn; try done.
  intros z [Hz|Hz%list_elem_of_singleton]%elem_of_app; [by apply R4|by subst].
Qed.

Lemma registered_programs host t m :
  registered host t -> (forall h r, m !! h = Some r -> validate_program (h, r) = Ok tt) -> registered host (set_programs m t).
Proof. intros [R1 R2 R3 R4 R5 R6] Hm. split; cbn; done. Qed.

Lemma registered_salts host t m :
  registered host t -> (forall id r, m !! id = Some r -> exists b, decode_execution_salt (sl_salt r) = Ok b) ->
  registered host (set_execution_salts m t).
Proof. intros [R1 R2 R3 R4 R5 R6] Hm. split; cbn; done. Qed.

Lemma set_requests_only t m : set_exec_requests m t = set_request_sequence (request_sequence t) (set_exec_requests m t).
Proof. by destruct t. Qed.

Lemma alter_insert {V} (m : gmap Z V) f k v : m !! k = Some v -> alter f k m = <[k := f v]> m.
Proof.
  intros Hk. apply map_eq. intros i. destruct (decide (i = k)) as [->|Hne].
  - by rewrite lookup_alter_eq, lookup_insert_eq, Hk.
  - by rewrite lookup_alter_ne, lookup_insert_ne.
Qed.

(** *** Requests *)

Lemma admission_sealed a bs sealed :
  cwf c_admission a -> admission_bytes a = Ok bs -> seal KindExecutionAdmission bs = Ok sealed ->
  (exists bs, open KindExecutionAdmission sealed MAX_ADMISSION_BYTES = Ok bs /\ from_slice c_admission bs = Ok a) /\
  zlen sealed <= MAX_ADMISSION_BYTES + MAX_ENVELOPE_OVERHEAD.
Proof.
  intros Hw Hb Hs. unfold admission_bytes in Hb. inv_ok. split.
  - exists bs. split; [|by apply from_slice_to_vec]. apply (open_seal digest_range _ _ _ _ Hs); [lia|done].
  - unfold seal in Hs. apply map_err_Ok in Hs.
    rewrite (envelope_length KindExecutionAdmission bs (zlen sealed)); [lia|]. apply object_length_Ok. by exists sealed.
Qed.

Lemma grants_Ok id l db u db' :
  for_each (grant_blob id) l db = (Ok u, db') -> blobs_only (view db) (view db').
Proof.
  revert db u db'. induction l as [|h l IH]; intros db u db' Ho; cbn [for_each] in Ho; [inv_ok; apply blobs_only_refl|].
  apply sbind_Ok in Ho as (u1 & db1 & H1 & Ho%IH). eapply blobs_only_trans; [|exact Ho].
  unfold grant_blob in H1. db_ok. by repeat split.
Qed.

Lemma blobs_core t t' : blobs_only t t' -> core_same t t' /\ registry_same t t'.
Proof. intros [B1 B2 B3 B4 B5 B6 B7 B8 B9]. split; [by split|exact B9]. Qed.

Lemma create_request_registers id program ps a grants gb now db o db' :
  registered (host_id db) (view db) -> cwf c_admission a ->
  (forall b, ps = Some b -> zlen b <= MAX_PARAMS_LEN /\ json_try_new b = Ok b) -> validate_request_params a (is_some ps) = Ok tt ->
  create_request_in_transaction id program ps a grants gb now db = (Ok o, db') -> registers (host_id db) (view db) (view db').
Proof.
  intros Hreg Hw Hps Hpres Ho. unfold create_request_in_transaction in Ho.
  apply sbind_Ok in Ho as (existing & db1 & He & Ho). apply sread_Ok in He as [He ->].
  apply sbind_Ok in Ho as (t & db1 & Ht & Ho). apply sread_Ok in Ht as [[= <-] ->].
  destruct (exec_requests (view db) !! id) as [q|] eqn:Hq.
  { destruct (load_request_ok _ _ _ _ Hreg Hq) as (a' & _ & Hl). rewrite Hl in He. injection He as <-. inv_ok.
    by apply registers_refl. }
  unfold load_execution_request in He. rewrite Hq in He. injection He as <-.
  apply sbind_Ok in Ho as (u1 & db1 & H1 & Ho). apply sread_Ok in H1 as [_ ->].
  apply sbind_Ok in Ho as (u2 & db1 & H2 & Ho). apply sread_Ok in H2 as [_ ->].
  apply sbind_Ok in Ho as (u3 & db1 & H3 & Ho). apply sread_Ok in H3 as [H3 ->].
  apply sbind_Ok in Ho as (u4 & db1 & Hin & Ho). apply sbind_Ok in Ho as (u5 & db2 & Hg & Ho).
  apply sbind_Ok in Ho as (u6 & db3 & Hc & Ho). apply record_view in Hc as [Hv _]. inv_ok. apply grants_Ok, blobs_core in Hg as [G1 G2].
  unfold insert_request in Hin. db_ok. repeat match goal with Hs : sqlite_u64 _ = Ok _ |- _ => apply sqlite_u64_inv in Hs as [-> ?] end.
  rewrite Hv. cbn [view set_view] in G1, G2. split_and!.
  - eapply registered_frame; [exact G2|]. pose proof (rd_sequence _ _ Hreg) as Hseq.
    match goal with Hb : admission_bytes a = Ok _, Hs : seal _ _ = Ok _ |- _ => destruct (admission_sealed _ _ _ Hw Hb Hs) as [Ha Hl] end.
    eapply (registered_request _ _ _ _ a); [exact Hreg|by eapply unrequested| |lia].
    split; cbn; try done; try lia. by destruct u3.
  - eapply core_same_trans; [|exact G1]. by split.
  - apply evolves_same. by rewrite (sm_activations _ _ G2).
Qed.

(** A request that is still open to change: no activation was prepared under it. *)
Lemma request_unstarted host t id e act :
  registered host t -> load_execution_request t id = Ok (Some e) -> load_activation t id = Ok act -> is_some act = false ->
  exists q a, exec_requests t !! id = Some q /\ request_row_ok host q a /\ er_admission e = a /\
    er_failure e = rq_failure q /\ activation_records t !! id = None.
Proof.
  intros Hreg Hl Ha Hn. destruct (exec_requests t !! id) as [q|] eqn:Hq.
  - destruct (load_request_ok _ _ _ _ Hreg Hq) as (a & Hok & Hl'). rewrite Hl' in Hl. injection Hl as <-.
    exists q, a. split_and!; try done.
    destruct (activation_records t !! id) as [x|] eqn:Hx; [|done].
    destruct (load_activation_ok _ _ _ _ Hreg Hx) as (p & c & _ & Hl). rewrite Hl in Ha. by injection Ha as <-.
  - unfold load_execution_request in Hl. by rewrite Hq in Hl.
Qed.

Lemma bind_registers id target db o db' :
  registered (host_id db) (view db) -> cwf c_target target -> (tg_creator target =? host_id db) = false ->
  bind_in_transaction id target db = (Ok o, db') -> registers (host_id db) (view db) (view db').
Proof.
  intros Hreg Hw Hne Ho. unfold bind_in_transaction in Ho.
  apply sbind_Ok in Ho as (r & db1 & Hl & Ho). apply sread_Ok in Hl as [Hl ->].
  apply sbind_Ok in Ho as (e & db1 & He & Ho). apply sread_Ok in He as [He ->].
  apply sbind_Ok in Ho as (u1 & db1 & Hf & Ho). apply sread_Ok in Hf as [Hf ->].
  apply sbind_Ok in Ho as (act & db1 & Ha & Ho). apply sread_Ok in Ha as [Ha ->].
  apply sbind_Ok in Ho as (u2 & db1 & Hn & Ho). apply sread_Ok in Hn as [Hn ->]. inv_ok. subst r.
  destruct (request_unstarted _ _ _ _ _ Hreg Hl Ha) as (q & a & Hq & Hok & Ea & Ef & Hna); [done|].
  destruct (er_admission e) as [n cnt|[t0|]]; [inv_ok; done|inv_ok; by apply registers_refl|].
  unfold update in Ho. inv_ok. match goal with Hr : record_change _ _ = _ |- _ => apply record_view in Hr as [Hv _] end.
  rewrite Hv. cbn [view set_view]. rewrite (alter_insert _ _ _ q Hq), <- Ef. split; [|split; [by split|by apply evolves_same]].
  rewrite set_requests_only. destruct Hok as [R1 R2 R3 R4 R5 R6 R7 R8 R9].
  assert (cwf c_admission (Join (Some target))) as Hwa by (split; [unfold ADMISSION_VERSION; lia|exact Hw]).
  match goal with Hb : admission_bytes _ = Ok _, Hs : seal _ _ = Ok _ |- _ => destruct (admission_sealed _ _ _ Hwa Hb Hs) as [Had Hlen] end.
  eapply (registered_request _ _ _ _ (Join (Some target))); [exact Hreg|exact Hna| |apply (rd_sequence _ _ Hreg)].
  destruct (is_some (er_failure e)) eqn:Hef; [done|]. split; cbn; rewrite ?Ef; try done. by rewrite Hne.
Qed.

Lemma failure_registers id reason db o db' :
  registered (host_id db) (view db) -> zlen reason <= MAX_ERROR_BYTES ->
  record_failure_in_transaction id reason db = (Ok o, db') -> registers (host_id db) (view db) (view db').
Proof.
  intros Hreg Hlen Ho. unfold record_failure_in_transaction in Ho.
  apply sbind_Ok in Ho as (r & db1 & Hl & Ho). apply sread_Ok in Hl as [Hl ->].
  apply sbind_Ok in Ho as (e & db1 & He & Ho). apply sread_Ok in He as [He ->].
  apply sbind_Ok in Ho as (act & db1 & Ha & Ho). apply sread_Ok in Ha as [Ha ->].
  apply sbind_Ok in Ho as (u2 & db1 & Hn & Ho). apply sread_Ok in Hn as [Hn ->]. inv_ok. subst r.
  destruct (request_unstarted _ _ _ _ _ Hreg Hl Ha) as (q & a & Hq & Hok & Ea & Ef & Hna); [done|].
  destruct (er_failure e) as [b|] eqn:Hef; [inv_ok; by apply registers_refl|].
  unfold update, constraint in Ho. inv_ok. match goal with Hr : record_change _ _ = _ |- _ => apply record_view in Hr as [Hv _] end.
  rewrite Hv. cbn [view set_view]. rewrite (alter_insert _ _ _ q Hq), <- Ef. cbn [is_some]. split; [|split; [by split|by apply evolves_same]].
  rewrite set_requests_only. eapply (registered_request _ _ _ _ (er_admission e)); [exact Hreg|exact Hna| |apply (rd_sequence _ _ Hreg)].
  destruct Hok as [R1 R2 R3 R4 R5 R6 R7 R8 R9]. split; cbn; try done. by intros b [= <-].
Qed.

(** *** Activations *)

Lemma conflict_registers e incoming kind now db u db' :
  registered (host_id db) (view db) ->
  (exists x, activation_records (view db) !! rec_id e = Some x /\ activation_row_ok x (rec_prepared e) (rec_committed e)) ->
  cwf c_prepared (rec_prepared incoming) -> (forall a, rec_committed incoming = Some a -> cwf c_activation a) ->
  record_activation_conflict e incoming kind now db = (Ok u, db') -> registers (host_id db) (view db) (view db').
Proof.
  intros Hreg (x & Hx & Hok) Hwp Hwa Ho. unfold record_activation_conflict in Ho.
  apply sbind_Ok in Ho as ([[k a] b] & db1 & Hp & Ho). apply sread_Ok in Hp as [Hp ->]. db_ok.
  match goal with Hs : sqlite_u64 _ = Ok _ |- _ => apply sqlite_u64_inv in Hs as [-> ?] end.
  split; [|split; [by split|by apply evolves_same]]. cbn [view set_view]. apply registered_conflict; [done|]. exists x, (rec_prepared e), (rec_committed e).
  cbn [cf_execution]. split_and!; [done|exact Hok|]. unfold conflict_row_ok. cbn [cf_kind cf_existing cf_incoming].
  unfold encode_borsh in Hp. destruct kind; inv_ok.
  - split; [eapply prepared_sealed; [exact (aw_cwf _ _ _ Hok)|eassumption..]|eexists; eapply prepared_sealed; eassumption].
  - match goal with He : rec_committed e = Some ?ea, Hi : rec_committed incoming = Some ?ia |- _ =>
      pose proof (aw_committed _ _ _ Hok) as Hc; rewrite He in Hc |- *; destruct Hc as (_ & Hwe & _); exists ea;
      split_and!; [done|by eapply committed_sealed|exists ia; eapply committed_sealed; [by apply Hwa|eassumption..]] end.
Qed.

Lemma request_admits host t id p :
  registered host t -> ensure_execution_request_matches host t id p = Ok tt ->
  exists q, exec_requests t !! id = Some q /\ forall a, request_row_ok host q a -> admits host q a p.
Proof.
  intros Hreg Hm. unfold ensure_execution_request_matches in Hm. inv_ok.
  destruct (exec_requests t !! id) as [q|] eqn:Hq.
  - destruct (load_request_ok _ _ _ _ Hreg Hq) as (a & Hok & Hl).
    match goal with Hl' : load_execution_request t id = Ok _ |- _ => rewrite Hl in Hl'; injection Hl' as <- end.
    match goal with Hs : Some _ = Some _ |- _ => injection Hs as <- end.
    cbn [er_failure er_program er_params er_admission] in *. exists q. split; [done|]. intros a' Ha'.
    rewrite (request_row_unique _ _ _ _ Hok Ha'). split; try done.
    + by destruct (rq_failure q).
    + by apply Z.eqb_eq.
    + intros b Hb. rewrite Hb in *. match goal with Hb : negb (bool_decide _) = false |- _ => apply negb_false_iff, bool_decide_eq_true in Hb; exact Hb end.
    + destruct (admission_negotiation a) as [n|]; [|done]. f_equal. by apply Z.eqb_eq.
  - match goal with Hl' : load_execution_request t id = Ok _ |- _ => unfold load_execution_request in Hl'; rewrite Hq in Hl'; injection Hl' as <- end. done.
Qed.

Lemma prepare_registers id p now db o db' :
  registered (host_id db) (view db) -> cwf c_prepared p -> p_session_hash p <> 0 ->
  prepare_in_transaction id p now db = (Ok o, db') -> registers (host_id db) (view db) (view db').
Proof.
  intros Hreg Hw Hnz Ho. unfold prepare_in_transaction in Ho.
  apply sbind_Ok in Ho as (bs & db1 & Hb & Ho). apply sread_Ok in Hb as [Hb ->].
  apply sbind_Ok in Ho as (u1 & db1 & H1 & Ho). apply sread_Ok in H1 as [_ ->].
  apply sbind_Ok in Ho as (ex & db1 & He & Ho). apply sread_Ok in He as [He ->].
  destruct (activation_records (view db) !! id) as [x|] eqn:Hx.
  - destruct (load_activation_ok _ _ _ _ Hreg Hx) as (p0 & c0 & Hok & Hl). rewrite Hl in He. injection He as <-.
    cbn [rec_prepared rec_committed] in Ho. destruct (bool_decide (p0 = p)); [inv_ok; by apply registers_refl|].
    apply sbind_Ok in Ho as (u & db1 & Hc & Ho). inv_ok. refine (conflict_registers _ _ _ _ _ _ _ Hreg _ _ _ Hc); [by exists x|exact Hw|done].
  - rewrite load_activation_none in He by done. injection He as <-.
    apply sbind_Ok in Ho as (u2 & db1 & Hm & Ho). apply sread_Ok in Hm as [Hm ->]. destruct u2.
    apply sbind_Ok in Ho as (u3 & db1 & Hin & Ho). unfold insert_activation in Hin. db_ok.
    match goal with Hs : sqlite_u64 _ = Ok _ |- _ => apply sqlite_u64_inv in Hs as [-> ?] end.
    match goal with |- context [if bool_decide ?P then ?d1 else ?d2] =>
      assert (view (if bool_decide P then d1 else d2) = view d1) as -> by (by destruct (bool_decide P)) end.
    cbn [view set_view].
    eapply registered_activation; [exact Hreg| |by apply request_admits|by rewrite Hx].
    unfold encode_borsh in *. inv_ok.
    match goal with Hs : seal KindPreparedActivation _ = Ok _ |- _ => destruct (prepared_sealed _ _ _ Hw Hb Hs) as (b & B1 & B2 & B3) end.
    apply (Build_activation_row_ok _ p None); cbn; try done; [by exists b| |lia].
    eexists. split; [eassumption|]. by eapply facts_read.
Qed.

Lemma commit_registers id a now db o db' :
  registered (host_id db) (view db) -> cwf c_activation a ->
  commit_in_transaction id a now db = (Ok o, db') -> registers (host_id db) (view db) (view db').
Proof.
  intros Hreg Hw Ho. destruct (cwf_activation_valid a Hw) as [Hval Hwp]. unfold commit_in_transaction in Ho.
  apply sbind_Ok in Ho as (ex & db1 & He & Ho). apply sread_Ok in He as [He ->].
  apply sbind_Ok in Ho as (e & db1 & H1 & Ho). apply sread_Ok in H1 as [H1 ->].
  destruct (activation_records (view db) !! id) as [x|] eqn:Hx;
    [|rewrite load_activation_none in He by done; injection He as <-; done].
  destruct (load_activation_ok _ _ _ _ Hreg Hx) as (p & c & Hok & Hl). rewrite Hl in He. injection He as <-.
  cbn [ok_or] in H1. injection H1 as <-. cbn [rec_prepared rec_committed] in Ho.
  assert (exists x, activation_records (view db) !! id = Some x /\ activation_row_ok x p c) as Hex by (by exists x).
  destruct (prepared_matches p a) eqn:Hmt; cbn [negb] in Ho.
  - apply bool_decide_eq_true in Hmt. destruct c as [a'|].
    + destruct (bool_decide (a' = a)); [inv_ok; by apply registers_refl|].
      apply sbind_Ok in Ho as (u & db1 & Hc & Ho). inv_ok.
      refine (conflict_registers _ _ _ _ _ _ _ Hreg _ _ _ Hc); [exact Hex|exact Hwp|by intros ? [= <-]].
    + apply sbind_Ok in Ho as (u & db1 & Hup & Ho). apply sbind_Ok in Ho as (u1 & db2 & Hr & Ho).
      apply record_view in Hr as [Hv _]. inv_ok. rewrite Hv. unfold update_committed, select, update, constraint in Hup. inv_ok.
      rewrite Hx in Hup. rewrite (aw_status _ _ _ Hok) in Hup. cbn [is_some] in Hup. rewrite bool_decide_eq_true_2 in Hup by done. inv_ok.
      match goal with Hs : sqlite_u64 _ = Ok _ |- _ => apply sqlite_u64_inv in Hs as [-> ?] end.
      cbn [view set_view].
      destruct (rd_activations _ _ Hreg _ _ Hx) as (p' & c' & q & Hok' & Hq & Hadm).
      destruct (activation_row_unique _ _ _ _ _ Hok Hok') as [-> ->].
      eapply (registered_activation _ _ _ _ (prepared a) (Some a)); [exact Hreg| |by exists q|].
      * unfold encode_borsh in *. inv_ok. destruct Hok as [A1 A2 A3 A4 A5 A6 A7 A8 A9].
        match goal with Hb : to_vec c_activation a = Ok _, Hs : seal KindActivation _ = Ok _ |- _ =>
          destruct (committed_sealed _ _ _ Hw Hb Hs) as (b & B1 & B2 & B3) end.
        apply (Build_activation_row_ok _ (prepared a) (Some a));
          cbn [ar_prepared ar_facts ar_session ar_status ar_committed ar_updated is_some]; try exact A2; try done;
          [|exact (conj eq_refl (conj Hw (conj B3 (ex_intro _ _ (ex_intro _ b (conj eq_refl (conj B1 B2)))))))|lia].
        eexists. split; [eassumption|]. by eapply facts_read.
      * intros y0 p0 c0 Hy0 Hok0. rewrite Hx in Hy0. injection Hy0 as <-.
        destruct (activation_row_unique _ _ _ _ _ Hok Hok0) as [-> ->]. split; [done|]. by intros [].
  - apply sbind_Ok in Ho as (u & db1 & Hc & Ho). inv_ok.
    refine (conflict_registers _ _ _ _ _ _ _ Hreg _ _ _ Hc); [exact Hex|exact Hwp|by intros ? [= <-]].
Qed.

(** *** Programs and salts *)

Lemma program_valid h wasm sealed imported removed :
  seal KindProgram wasm = Ok sealed -> zlen wasm <> 0 -> zlen wasm <= PROGRAM_MAX_LEN -> program_hash_of wasm = h ->
  validate_program (h, MkProgramRow sealed imported removed) = Ok tt.
Proof.
  intros Hs Hz Hm <-. unfold validate_program. cbn [fst snd pg_wasm]. rewrite (open_seal digest_range _ _ _ _ Hs) by done.
  cbn [rbind]. by rewrite (proj2 (Z.eqb_neq _ _) Hz), (proj2 (Z.ltb_ge _ _) Hm), Z.eqb_refl.
Qed.

Lemma altered_programs host t h f :
  registered host t -> (forall r, pg_wasm (f r) = pg_wasm r) ->
  registers host t (set_programs (alter f h (programs t)) t).
Proof.
  intros Hreg Hf. split; [|split; [by split|by apply evolves_same]]. apply registered_programs; [done|]. intros h' r'. destruct (decide (h' = h)) as [->|Hne].
  - rewrite lookup_alter_eq. destruct (programs t !! h) as [r|] eqn:Hr; [|done]. intros [= <-].
    pose proof (rd_programs _ _ Hreg h r Hr) as Hv. unfold validate_program in *. cbn [fst snd] in *. by rewrite Hf.
  - rewrite lookup_alter_ne by done. apply (rd_programs _ _ Hreg).
Qed.

Lemma reactivate_registers h db u db' :
  registered (host_id db) (view db) -> reactivate_program h db = (Ok u, db') -> registers (host_id db) (view db) (view db').
Proof.
  intros Hreg Ho. apply sbind_Ok in Ho as (u1 & db1 & H1 & Ho). apply record_view in Ho as [-> _].
  apply smodify_Ok in H1 as ->. by apply altered_programs.
Qed.

Lemma retire_registers h now db u db' :
  registered (host_id db) (view db) -> retire_program h now db = (Ok u, db') -> registers (host_id db) (view db) (view db').
Proof.
  intros Hreg Ho. unfold retire_program, constraint, update in Ho. inv_ok.
  match goal with Hr : record_change _ _ = _ |- _ => apply record_view in Hr as [-> _] end.
  apply altered_programs; [done|]. intros r. by destruct (is_some (pg_removed r)).
Qed.

Lemma program_registers h wasm now db u db' :
  registered (host_id db) (view db) -> zlen wasm <> 0 -> zlen wasm <= PROGRAM_MAX_LEN -> program_hash_of wasm = h ->
  insert_program h wasm now db = (Ok u, db') -> registers (host_id db) (view db) (view db').
Proof.
  intros Hreg Hz Hm Hh Ho. unfold insert_program, select, constraint, update in Ho. inv_ok.
  match goal with Hr : record_change _ _ = _ |- _ => apply record_view in Hr as [-> _] end.
  split; [|split; [by split|by apply evolves_same]]. apply registered_programs; [done|]. intros h' r'. rewrite lookup_insert_Some.
  intros [[<- <-]|[_ Hr]]; [|by apply (rd_programs _ _ Hreg)]. by eapply program_valid.
Qed.

Lemma salt_registers id draws now db o db' :
  registered (host_id db) (view db) -> Forall (fun b => zlen b = 32) draws ->
  salt_in_transaction id draws now db = (Ok o, db') -> registers (host_id db) (view db) (view db').
Proof.
  intros Hreg Hd Ho. unfold salt_in_transaction, select, constraint, update in Ho. inv_ok.
  destruct (execution_salts (view db) !! id) as [r|]; inv_ok; [by apply registers_refl|].
  split; [|split; [by split|by apply evolves_same]]. apply registered_salts; [done|]. intros id' r'. rewrite lookup_insert_Some.
  intros [[<- <-]|[_ Hr]]; [|by apply (rd_salts _ _ Hreg _ _ Hr)]. cbn [sl_salt].
  match goal with Hx : draw_salt draws = Ok ?y, Hy : seal _ _ = Ok _ |- _ => rename y into o; rename Hx into Hw; rename Hy into Hs end.
  exists o.
  assert (zlen o = 32 /\ salt_try_from o = Some o) as [Hl Ht].
  { clear -Hd Hw. induction Hd as [|b draws Hb Hd IH]; [done|]. cbn [draw_salt] in Hw.
    destruct (salt_try_from b) as [s|] eqn:Hs; [|by apply IH]. unfold salt_try_from in *. destruct (forallb _ b) eqn:Hz; [done|].
    simplify_eq. by rewrite Hz. }
  unfold decode_execution_salt. rewrite (open_seal digest_range _ _ _ _ Hs) by (done || lia). cbn [rbind].
  by rewrite Hl, Ht.
Qed.

(** ** Scope *)

Lemma scoped_grants id l : scoped (for_each (grant_blob id) l).
Proof. apply scoped_for_each. intros h. unfold grant_blob. scope. Qed.
Lemma scoped_conflict e i k now : scoped (record_activation_conflict e i k now).
Proof. unfold record_activation_conflict. apply scoped_bind; [done|]. intros [[kk a] b]. scope. Qed.
Lemma scoped_create_request id pr ps a g gb now : scoped (create_request_in_transaction id pr ps a g gb now).
Proof. unfold create_request_in_transaction, insert_request. scope; apply scoped_grants. Qed.
Lemma scoped_bind_target id tg : scoped (bind_in_transaction id tg).
Proof. unfold bind_in_transaction. scope. Qed.
Lemma scoped_failure id reason : scoped (record_failure_in_transaction id reason).
Proof. unfold record_failure_in_transaction. scope. Qed.
Lemma scoped_prepare id p now : scoped (prepare_in_transaction id p now).
Proof. unfold prepare_in_transaction, insert_activation. scope; apply scoped_conflict. Qed.
Lemma scoped_commit id a now : scoped (commit_in_transaction id a now).
Proof. unfold commit_in_transaction, update_committed. scope; apply scoped_conflict. Qed.
Lemma scoped_reactivate h : scoped (reactivate_program h).
Proof. unfold reactivate_program. scope. Qed.
Lemma scoped_program h w now : scoped (insert_program h w now).
Proof. unfold insert_program. scope. Qed.
Lemma scoped_retire h now : scoped (retire_program h now).
Proof. unfold retire_program. scope. Qed.
Lemma scoped_salt id draws now : scoped (salt_in_transaction id draws now).
Proof. unfold salt_in_transaction. scope. Qed.
End Registered.
