(* ===== verification/Refinement.v ===== *)
(** * The store refines a map (store/src/database against protocol/src/execution)

    To its callers the store is a map from execution ids to an aggregate and its
    certified log.  [represents] relates a database to that map; every call either
    leaves the map as it was or moves it as its outcome says, whatever statements
    of the transaction bracket fail, and reads, startup validation included, return
    what the map holds. *)

From S2P Require Import Prelude Borsh Crypto Session Trace Negotiation Evidence Validation Receipt.
From S2P Require Import Frame Execution Invariant History Publish Fixture Guarantees Consistency Canonical Artifacts NoPanic.
From S2P Require Import StateCodec Ranges Envelope ChangeLog Database Persist Store Durable Writes.

Section Refinement.
Context `{Crypto}.
Context (digest_range : forall bs, 0 <= blake3 bs < 256 ^ 32).
Context (aggregate_range : forall l z, blst_aggregate l = inr z -> 0 <= z < 256 ^ 48).

(** ** Frames: what a write to [id] leaves alone *)

Definition framed (id : ExecId) (t t' : Tables) : Prop := forall id', id' <> id -> same_execution id' t t'.

Lemma framed_trans id t1 t2 t3 : framed id t1 t2 -> framed id t2 t3 -> framed id t1 t3.
Proof. intros H1 H2 id' Hne. eapply same_execution_trans; [by apply H1|by apply H2]. Qed.

Lemma framed_row id r t : framed id t (set_executions (<[id := r]> (executions t)) t).
Proof. intros id' Hne. split; try done. cbn [executions set_executions]. by rewrite lookup_insert_ne. Qed.

Lemma framed_events id k r t : framed id t (set_event_records (put (event_records t) id k r) t).
Proof. intros id' Hne. split; try done. cbn [event_records set_event_records]. by rewrite rows_put_ne. Qed.

Lemma framed_steps id k r t : framed id t (set_agreed_steps (put (agreed_steps t) id k r) t).
Proof. intros id' Hne. split; try done. cbn [agreed_steps set_agreed_steps]. by rewrite rows_put_ne. Qed.

Lemma framed_images id k r t : framed id t (set_step_states (put (step_states t) id k r) t).
Proof. intros id' Hne. split; try done. cbn [step_states set_step_states]. by rewrite rows_put_ne. Qed.

Lemma framed_timers id v t t' : timers_written id v t t' -> framed id t t'.
Proof. intros (m & -> & Hm & _) id' Hne. split; try done. cbn [active_timers set_active_timers]. by apply Hm. Qed.

Lemma framed_productions id rid t :
  receipt_productions t !! rid = None -> framed id t (set_receipt_productions (<[rid := id]> (receipt_productions t)) t).
Proof.
  intros Hn id' Hne. split; try done. cbn [receipt_productions set_receipt_productions]. intros rid'.
  destruct (decide (rid' = rid)) as [->|Hr]; [|by rewrite lookup_insert_ne]. rewrite lookup_insert_eq, Hn. naive_solver.
Qed.

Lemma blobs_same id t t' : blobs_only t t' -> same_execution id t t'.
Proof. intros [E1 E2 E3 E4 E5 E6 E7 E8 E9]. by split; rewrite ?E1, ?E2, ?E3, ?E4, ?E5, ?E6, ?E8. Qed.

Lemma receipts_same id t t' : receipts_written t t' -> same_execution id t t'.
Proof. intros [Hr ->]. by split. Qed.

(** ** Receipts *)

Record receipts_sound (t : Tables) : Prop := {
  rs_rows : forall rid r, receipts t !! rid = Some r -> exists a, receipt_row_ok rid r a;
  rs_provenance : forall rid r, receipts t !! rid = Some r ->
    is_Some (receipt_imports t !! rid) \/ is_Some (receipt_productions t !! rid);
  rs_productions : forall rid id, receipt_productions t !! rid = Some id ->
    is_Some (executions t !! id) /\ is_Some (receipts t !! rid) }.

Lemma production_of_Some t id rid : production_of t id = Some rid -> receipt_productions t !! rid = Some id.
Proof.
  unfold production_of. destruct (List.find _ _) as [[rid' id']|] eqn:Hf; [|done]. intros [= <-].
  apply find_some in Hf as [Hin Heq]. apply list_elem_of_In, elem_of_map_to_list in Hin. simpl in *.
  apply Z.eqb_eq in Heq. congruence.
Qed.

Lemma record_each_view {A} (f : A -> ChangeKey) l db u db' :
  for_each (fun x => record_change (f x)) l db = (Ok u, db') -> view db' = view db /\ files db' = files db.
Proof.
  revert db u db'. induction l as [|x l IH]; intros db u db' Ho; cbn [for_each] in Ho; [by inv_ok|].
  apply sbind_Ok in Ho as (u1 & db1 & [E1 E2]%record_view & [E3 E4]%IH). split; congruence.
Qed.

(** The first publication of an execution: its artifact and its production row. *)
Lemma publication_Ok id a now db u db' :
  persist_terminal_publication id a now db = (Ok u, db') ->
  (forall rid, receipt_productions (view db) !! rid <> Some id) ->
  exists t1, receipts_written (view db) t1 /\
    (forall rid, rid <> receipt_id a -> receipts t1 !! rid = receipts (view db) !! rid) /\
    (exists r, receipts t1 !! receipt_id a = Some r /\
      (receipts (view db) !! receipt_id a = Some r \/
       receipts (view db) !! receipt_id a = None /\ receipt_row_ok (receipt_id a) r a) /\
      exists bs, open KindReceipt (rc_artifact r) MAX_RECEIPT_BYTES = Ok bs /\ artifact_decode bs = Ok a) /\
    receipt_productions (view db) !! receipt_id a = None /\ is_Some (executions (view db) !! id) /\
    view db' = set_receipt_productions (<[receipt_id a := id]> (receipt_productions t1)) t1.
Proof.
  unfold persist_terminal_publication. intros Ho Hno. apply sbind_Ok in Ho as (u1 & db1 & Hi & Ho).
  apply (insert_artifact_Ok digest_range) in Hi as (Hfi & Hw & Hother & Hrow). unfold select, constraint, update in Ho. inv_ok.
  assert (receipt_productions (view db1) = receipt_productions (view db)) as Hp by (by rewrite (rw_other _ _ Hw)).
  assert (executions (view db1) = executions (view db)) as He by (by rewrite (rw_other _ _ Hw)).
  destruct (production_of (view db1) id) as [rid|] eqn:Hpo.
  { apply production_of_Some in Hpo. rewrite Hp in Hpo. by destruct (Hno rid). }
  inv_ok. exists (view db1).
  match goal with Hf : for_each _ _ _ = _ |- _ => apply record_each_view in Hf as [Hv _] end.
  match goal with Hr : record_change _ _ = _ |- _ => apply record_view in Hr as [Hv' _] end.
  split_and!; try done.
  - match goal with Hh : has (receipt_productions _) _ = false |- _ => unfold has in Hh; rewrite Hp in Hh end.
    by destruct (receipt_productions (view db) !! receipt_id a).
  - match goal with Hh : has (executions _) id = true |- _ => unfold has in Hh; rewrite He in Hh end.
    by destruct (executions (view db) !! id).
  - by rewrite Hv, Hv'.
Qed.

(** ** The rows of a successor *)

Lemma step_row_mono v pos v' pos' r e : v <= v' -> pos <= pos' -> step_row_ok v pos r e -> step_row_ok v' pos' r e.
Proof. intros Hv Hp [S1 S2 S3 S4 S5 S6 S7]. split; try exact S4; done || lia. Qed.

Lemma timer_row_mono v v' r : v <= v' -> timer_row_ok v r -> timer_row_ok v' r.
Proof. intros Hv [T1 T2 T3]. split; [done|exact T2|lia]. Qed.

(** The tables of [t'] hold, under [id], those of [t] and the rows a transition
    appends. *)
Record extends (id : ExecId) (t t' : Tables) (events : list EventRow) (steps : list StepRow) (images : list bytes) : Prop := {
  ex_events : forall l, rows (event_records t) id = numbered_table l -> rows (event_records t') id = numbered_table (l ++ events);
  ex_steps : forall l, rows (agreed_steps t) id = numbered_table l -> rows (agreed_steps t') id = numbered_table (l ++ steps);
  ex_images : forall l, rows (step_states t) id = numbered_table l -> rows (step_states t') id = numbered_table (l ++ images) }.

Lemma extends_none id t t' :
  event_records t' = event_records t -> agreed_steps t' = agreed_steps t -> step_states t' = step_states t ->
  extends id t t' [] [] [].
Proof. intros E1 E2 E3. split; intros l Hl; rewrite app_nil_r; congruence. Qed.

Lemma stored_grows host t t' id s tr s' log pub r r' events steps images :
  stored host t id s tr -> live s' (tr ++ log) -> successor s s' (zlen events) pub -> version s <= version s' ->
  executions t !! id = Some r -> executions t' !! id = Some r' ->
  exec_row_ok host s' (from_option (Some ∘ st_certified_at) (x_last_step r) (last steps)) r' ->
  extends id t t' events steps images ->
  Forall event_row_ok events -> Forall2 (step_row_ok (version s') (event_position s')) steps log ->
  Forall2 image_ok images log -> map_Forall (fun _ => timer_row_ok (version s')) (rows (active_timers t') id) ->
  publication_ok t' s' -> receipt_ok t' s' -> stored host t' id s' (tr ++ log).
Proof.
  intros Hst Hl [U1 U2 U3 U4 U5] Hv Hr Hr' Hx [E1 E2 E3] Fe Fs Fi Ft Hp Hrc.
  destruct Hst as [S1 S2 S3 (r0 & evs & sts & ims & R1 & R2 & R3 & R4 & R5 & R6 & R7 & R8 & R9) S5 S6 S7].
  rewrite Hr in R1. injection R1 as <-. split; try done; try congruence.
  exists r', (evs ++ events), (sts ++ steps), (ims ++ images). split_and!; try done.
  - replace (st_certified_at <$> last (sts ++ steps)) with
      (from_option (Some ∘ st_certified_at) (x_last_step r) (last steps)); [done|].
    rewrite last_app, (xr_last _ _ _ _ R2). by destruct (last steps).
  - by apply E1.
  - unfold zlen in *. rewrite length_app. lia.
  - by apply Forall_app.
  - by apply E2.
  - apply Forall2_app; [|done]. eapply Forall2_impl; [exact R7|]. intros x e Hxe.
    pose proof (zlen_nonneg events). eapply step_row_mono; [..|exact Hxe]; lia.
  - by apply E3.
  - by apply Forall2_app.
Qed.

(** A transition that publishes nothing keeps the publication. *)
Lemma published_same host t t' id s tr s' n :
  stored host t id s tr -> successor s s' n (published_receipt_id s) -> receipts t ⊆ receipts t' ->
  receipt_productions t' = receipt_productions t -> publication_ok t' s' /\ receipt_ok t' s'.
Proof.
  intros [_ S2 _ _ _ S6 S7] [U1 U2 U3 _ U5] Hsub Hpr. split.
  - intros rid. rewrite U1, U5, Hpr. apply S6.
  - intros rid Hrid. rewrite U5 in Hrid. destruct (S7 rid Hrid) as (r & a & Hlk & Hok & Ha). exists r, a.
    rewrite U3. split_and!; [by eapply lookup_weaken|exact Hok|exact Ha].
Qed.

(** The first half of [persist]: the checks on the record and the row's update. *)
Lemma persist_row host t id s tr rec c log db u db' :
  stored host t id s tr -> view db = t -> host_id db = host -> change rec = c -> computed s (next rec) c log ->
  persist_in_transaction id rec db = (Ok u, db') ->
  expected rec = version s /\
  exists r r' db1, executions t !! id = Some r /\ x_last_step r' = x_last_step r /\
    exec_row_ok host (next rec) (x_last_step r) r' /\
    view db1 = set_executions (<[id := r']> (executions t)) t /\
    persist_change id (next rec) c (now_ms rec) db1 = (Ok u, db').
Proof.
  intros Hst <- <- <- Hc Ho. pose proof Hst as [S1 S2 S3 (r & evs & sts & ims & R1 & R2 & _) _ _ _].
  pose proof (computed_live _ _ _ _ _ S1 Hc) as Hl'. destruct (computed_successor _ _ _ _ _ S1 Hc) as [U1 U2 U3 _ _].
  unfold persist_in_transaction in Ho. apply sbind_Ok in Ho as (w0 & db0 & H0 & Ho). apply sread_Ok in H0 as [_ ->].
  apply sbind_Ok in Ho as (old & db0 & H0 & Ho). unfold select in H0. apply sread_Ok in H0 as [H0 ->].
  rewrite R1 in H0. injection H0 as <-. apply sbind_Ok in Ho as (v & db0 & H0 & Ho). apply sread_Ok in H0 as [H0 ->].
  rewrite (xr_version _ _ _ _ R2), sqlite_i64_Ok in H0 by apply (live_bounds digest_range aggregate_range s tr S1).
  injection H0 as <-. apply sbind_Ok in Ho as (w & db0 & H0 & Ho). apply sread_Ok in H0 as [H0 ->]. inv_ok.
  split; [lia|].
  match goal with Hp : persist_state _ _ _ _ = _ |- _ =>
    apply persist_state_Ok in Hp as (r0 & bs & c & sealed & e & P1 & P2 & P3 & P4 & P5 & P6 & P7 & P8 & P9) end.
  rewrite U1, S2, R1 in P1. injection P1 as <-. do 3 eexists. split_and!; [exact R1| | |rewrite P9, U1, S2; reflexivity|done].
  - done.
  - eapply updated_row_ok; try done; [by eapply live_wf|by eapply (live_ranged digest_range aggregate_range)|].
    rewrite (xr_last _ _ _ _ R2). exact R2.
Qed.

(** ** The side rows of each change *)

Lemma sound_frame t t' :
  receipts t' = receipts t -> receipt_imports t' = receipt_imports t -> receipt_productions t' = receipt_productions t ->
  (forall id, is_Some (executions t !! id) -> is_Some (executions t' !! id)) -> receipts_sound t -> receipts_sound t'.
Proof.
  intros E1 E2 E3 He [R1 R2 R3]. split; rewrite E1, ?E2, ?E3; try done.
  intros rid id Hp. destruct (R3 rid id Hp). auto.
Qed.

Lemma row_kept id (r' : ExecRow) t : forall id', is_Some (executions t !! id') -> is_Some (<[id := r']> (executions t) !! id').
Proof. intros id' Hs. destruct (decide (id = id')) as [->|Hne]; [by rewrite lookup_insert_eq|by rewrite lookup_insert_ne]. Qed.

(** What a successful write owes the store. *)
Definition kept (host : PeerId) (id : ExecId) (t t' : Tables) (s' : ExecutionState) (tr : list TraceEntry) : Prop :=
  stored host t' id s' tr /\ framed id t t' /\ receipts_sound t' /\ registry_same t t'.

Section Change.
Context (host : PeerId) (t : Tables) (id : ExecId) (s s' : ExecutionState) (tr : list TraceEntry) (r r' : ExecRow).
Context (Hst : stored host t id s tr) (Hsound : receipts_sound t).
Context (Hr : executions t !! id = Some r) (Hlast : x_last_step r' = x_last_step r).
Context (Hx : exec_row_ok host s' (x_last_step r) r').

Let t1 := set_executions (<[id := r']> (executions t)) t.

Lemma timers_later v : version s <= v -> map_Forall (fun _ => timer_row_ok v) (rows (active_timers t) id).
Proof. intros Hv k x Hk. eapply timer_row_mono; [exact Hv|]. exact (so_timers _ _ _ _ _ Hst k x Hk). Qed.

(** A transition that only rewrites the aggregate. *)
Lemma state_kept :
  live s' tr -> successor s s' 0 (published_receipt_id s) -> version s <= version s' -> kept host id t t1 s' tr.
Proof.
  intros Hl Hsu Hv. split_and!.
  - destruct (published_same _ _ t1 _ _ _ _ _ Hst Hsu) as [Hp Hc]; [done..|]. rewrite <- (app_nil_r tr) in Hl |- *.
    eapply (stored_grows host t t1 id s tr s' [] _ r r' [] [] []); try done; [by apply lookup_insert_eq|by apply extends_none|].
    by apply timers_later.
  - apply framed_row.
  - eapply sound_frame; [..|exact Hsound]; try done. apply row_kept.
  - by split.
Qed.

Lemma dispatch_kept e effects timer blobs now db1 u db' :
  live s' tr -> successor s s' 1 (published_receipt_id s) -> version s < version s' ->
  cwf c_event e -> Forall (cwf c_effect) effects -> check_effect_budget effects = Ok tt ->
  (forall ev, to_vec c_event e = Ok ev -> zlen ev <= MAX_EXECUTION_STATE_BYTES) ->
  view db1 = t1 -> persist_change id s' (ChDispatch e effects timer blobs) now db1 = (Ok u, db') ->
  kept host id t (view db') s' tr.
Proof.
  intros Hl Hsu Hv We Wf Hb Hsize V1 Ho. cbn [persist_change] in Ho.
  apply sbind_Ok in Ho as (u1 & db2 & Hbl & Ho). apply blob_changes_Ok in Hbl as [B1 B2 B3 B4 B5 B6 B7 B8 B9].
  apply sbind_Ok in Ho as (pos & db3 & Hpos & Ho). apply sread_Ok in Hpos as [Hpos ->].
  apply sbind_Ok in Ho as (ev & db3 & Hev & Ho). apply sread_Ok in Hev as [Hev ->].
  apply sbind_Ok in Ho as (ef & db3 & Hef & Ho). apply sread_Ok in Hef as [Hef ->].
  apply sbind_Ok in Ho as (u2 & db3 & Hin & Ho). apply insert_event_Ok in Hin as (se & sf & Hse & Hsf & _ & V3).
  apply sbind_Ok in Ho as (u3 & db4 & Hpe & Ho).
  unfold encode_borsh in Hev, Hef. apply map_err_Ok in Hev, Hef.
  pose proof (live_bounds digest_range aggregate_range s tr (so_live _ _ _ _ _ Hst)) as (Hv0 & Hp0 & _).
  assert (timers_written id (version s') (view db3) (view db4)) as W4.
  { destruct (is_some (proposal s')); [inv_ok; apply timers_written_refl|].
    apply sbind_Ok in Hpe as (l & db5 & Hl5 & Hpe). apply sread_Ok in Hl5 as [Hl5 ->].
    eapply (persist_effects_Ok digest_range); [exact Hpe|lia|]. by eapply indexed_effects_Forall. }
  assert (timers_written id (version s') (view db4) (view db')) as W5.
  { destruct timer; [by eapply consume_timer_Ok|inv_ok; apply timers_written_refl]. }
  pose proof (timers_written_trans _ _ _ _ _ W4 W5) as (m & V5 & Hm & Ht). rewrite V3 in V5, Hm, Ht.
  cbn [active_timers set_event_records] in Hm, Ht. rewrite V1 in *. rewrite B5 in Hm, Ht.
  pose proof (su_position _ _ _ _ Hsu) as Hps.
  assert (pos = event_position s) as -> by (destruct (event_position s' =? 0) eqn:?; [done|]; injection Hpos as <-; lia).
  split_and!.
  - destruct (published_same _ _ (view db') _ _ _ _ _ Hst Hsu) as [Hp Hc]; [by rewrite V5; simpl; rewrite B6|by rewrite V5; simpl|].
    rewrite <- (app_nil_r tr) in Hl |- *.
    eapply (stored_grows host t (view db') id s tr s' [] _ r r' [MkEventRow se sf (dispatch_digest ev ef)] [] []); try done.
    + lia.
    + rewrite V5. simpl. rewrite B1. by apply lookup_insert_eq.
    + split; rewrite V5; cbn [event_records agreed_steps step_states set_active_timers set_event_records]; intros l Hrows.
      * rewrite rows_put, B2. cbn [t1 event_records set_executions]. rewrite Hrows.
        destruct (so_rows _ _ _ _ _ Hst) as (_ & evs & _ & _ & _ & _ & Hevs & Hn & _).
        rewrite Hevs in Hrows. rewrite <- Hn. apply numbered_inj in Hrows as ->. apply numbered_snoc.
      * by rewrite B3, app_nil_r.
      * by rewrite B4, app_nil_r.
    + constructor; [|constructor]. eapply (event_row_valid digest_range); eauto.
    + rewrite V5. cbn [active_timers set_active_timers]. apply Ht. apply timers_later. lia.
  - eapply framed_trans; [apply framed_row|]. intros id' Hne.
    eapply same_execution_trans; [apply blobs_same; rewrite <- V1; by split|].
    eapply same_execution_trans; [by apply (framed_events id (event_position s) (MkEventRow se sf (dispatch_digest ev ef)))|].
    rewrite V5. split; try done. cbn [active_timers set_active_timers set_event_records]. rewrite B5. by apply Hm.
  - eapply sound_frame; [..|exact Hsound]; rewrite V5; cbn; rewrite ?B1, ?B6, ?B7, ?B8; try done. apply row_kept.
  - rewrite V5. destruct B9. by split.
Qed.

Lemma last_step_row lst now : exec_row_ok host s' lst r' -> exec_row_ok host s' (Some now) (with_last_step now r').
Proof. intros [X1 X2 X3 X4 X5 X6 X7 _ X9 X10 X11 X12]. split; try exact X4; done. Qed.

Lemma step_row_written p v origin now bs artifact h :
  committed_ok s p -> live s' (tr ++ [entry p]) -> to_vec c_entry (entry p) = Ok bs ->
  seal KindAgreedStep bs = Ok artifact -> entry_hash (E:=StoreError) (entry p) = Ok h ->
  0 <= now -> 0 <= origin < event_position s' -> origin <= i64_max -> 0 < v <= version s' ->
  step_row_ok (version s') (event_position s') (MkStepRow origin v artifact h now (post_state (entry p))) (entry p).
Proof.
  intros [_ C2 _ _ _] Hl Hb Ha Hh Hn Ho Hoi Hv. split; cbn; try done.
  exists bs. split; [|by apply from_slice_to_vec]. apply (open_seal digest_range _ _ _ _ Ha); [|done].
  pose proof (tr_cursor _ _ (live_trace _ _ Hl)) as Hc. unfold validate_agreed_trace in Hc. inv_ok.
  apply agreed_loop_entries in Hc. apply Forall_app in Hc as [_ He]. rewrite Forall_singleton in He.
  apply validate_trace_entry_Ok in He as (_ & n & Hn' & Hle). apply object_length_Ok in Hn' as (bs' & Hb' & <-).
  unfold to_vec in Hb. rewrite Hb in Hb'. injection Hb' as <-. done.
Qed.

Lemma step_kept p now db1 u db' :
  live s' (tr ++ [entry p]) -> successor s s' 0 (published_receipt_id s) -> version s < version s' ->
  committed_ok s p -> view db1 = t1 ->
  persist_change id s' (ChStepSignature (Some p)) now db1 = (Ok u, db') ->
  kept host id t (view db') s' (tr ++ [entry p]).
Proof.
  intros Hl Hsu Hv Hco V1 Ho. cbn [persist_change] in Ho. unfold commit_staged_event in Ho.
  apply sbind_Ok in Ho as (t0 & db2 & Ht0 & Ho). unfold select in Ht0. apply sread_Ok in Ht0 as [[= <-] ->].
  apply sbind_Ok in Ho as (pos & db2 & Hpos & Ho). apply sread_Ok in Hpos as [[-> _]%sqlite_u64_inv ->].
  apply sbind_Ok in Ho as (u1 & db2 & Hrow & Ho). apply sread_Ok in Hrow as [Hrow ->].
  apply sbind_Ok in Ho as (u2 & db2 & Hin & Ho).
  apply insert_step_Ok in Hin as (bs & artifact & h & image & r0 & I1 & I2 & I3 & I4 & I5 & I6 & I7 & _ & V2).
  pose proof (live_bounds digest_range aggregate_range s tr (so_live _ _ _ _ _ Hst)) as (Hv0 & Hp0 & _).
  apply (persist_effects_Ok digest_range) in Ho as [(m & V3 & Hm & Ht) _]; [|lia|exact (co_effects _ _ Hco)].
  rewrite V1 in *. cbn [t1 executions set_executions] in I7. rewrite lookup_insert_eq in I7. injection I7 as <-.
  destruct (so_rows _ _ _ _ _ Hst) as (_ & evs & sts & ims & _ & _ & Hevs & Hn & _ & Hsts & Fs & Hims & Fi).
  assert (pr_event_position p < event_position s) as Hlt.
  { destruct (row _ id (pr_event_position p)) eqn:E; [|done]. unfold row in E. cbn [t1 event_records set_executions] in E.
    rewrite Hevs, numbered_lookup in E. destruct (0 <=? _); [|done]. apply lookup_lt_Some in E. unfold zlen in Hn. lia. }
  pose proof (su_position _ _ _ _ Hsu) as Hps.
  assert (step (entry p) = zlen tr) as Hstep by
    (rewrite (co_step _ _ Hco); symmetry; apply tr_length, live_trace, (so_live _ _ _ _ _ Hst)).
  apply Forall2_length in Fs as Ls. apply Forall2_length in Fi as Li.
  rewrite V2 in V3, Hm, Ht. cbn [active_timers set_executions set_step_states set_agreed_steps t1] in Hm, Ht.
  split_and!.
  - destruct (published_same _ _ (view db') _ _ _ _ _ Hst Hsu) as [Hp Hc]; [by rewrite V3|by rewrite V3|].
    eapply (stored_grows host t (view db') id s tr s' [entry p] _ r (with_last_step now r') []
      [MkStepRow (pr_event_position p) (version s') artifact h now (post_state (entry p))] [image]); try done.
    + lia.
    + rewrite V3. cbn [executions set_active_timers set_executions]. by apply lookup_insert_eq.
    + cbn [from_option last compose st_certified_at]. by eapply last_step_row.
    + split; rewrite V3; cbn [event_records agreed_steps step_states set_active_timers set_executions set_step_states set_agreed_steps t1];
        intros l Hrows.
      * by rewrite app_nil_r.
      * rewrite rows_put, Hrows. rewrite Hsts in Hrows. apply numbered_inj in Hrows as <-.
        rewrite Hstep. unfold zlen. rewrite <- Ls. apply numbered_snoc.
      * rewrite rows_put, Hrows. rewrite Hims in Hrows. apply numbered_inj in Hrows as <-.
        rewrite Hstep. unfold zlen. rewrite <- Li. apply numbered_snoc.
    + constructor; [|constructor]. eapply step_row_written; try done; lia.
    + constructor; [|constructor]. exists (pr_shared_state p). destruct Hco as [_ _ C3 C4 _].
      split_and!; [by apply (open_seal digest_range)|exact C3|exact C4].
    + rewrite V3. cbn [active_timers set_active_timers]. apply Ht. apply timers_later. lia.
  - eapply framed_trans; [apply (framed_row id (with_last_step now r'))|]. intros id' Hne.
    rewrite V3. split; cbn [executions event_records agreed_steps step_states active_timers receipt_productions receipts
      set_active_timers set_executions set_step_states set_agreed_steps t1]; try done.
    + by rewrite !lookup_insert_ne.
    + by rewrite rows_put_ne.
    + by rewrite rows_put_ne.
    + by apply Hm.
  - eapply sound_frame; [..|exact Hsound]; rewrite V3; try done.
    cbn [executions set_active_timers set_executions]. intros id' Hs. by do 2 apply row_kept.
  - by rewrite V3.
Qed.

Lemma publish_kept a now db1 u db' :
  live s' tr -> successor s s' 0 (Some (receipt_id a)) -> version s <= version s' ->
  published_receipt_id s = None -> h_activation (header (artifact_body a)) = activation (binding s) ->
  view db1 = t1 -> persist_change id s' (ChPublish a) now db1 = (Ok u, db') ->
  kept host id t (view db') s' tr.
Proof.
  intros Hl Hsu Hv Hnone Hact V1 Ho. cbn [persist_change] in Ho.
  assert (forall rid, receipt_productions t !! rid <> Some id) as Hno.
  { intros rid Hp. rewrite <- (so_id _ _ _ _ _ Hst) in Hp. apply (so_publication _ _ _ _ _ Hst) in Hp. congruence. }
  apply publication_Ok in Ho as (t2 & W & Hother & (x & X1 & X2 & (bs & X3 & X4)) & Hfree & Hex & V2); [|by rewrite V1].
  rewrite V1 in *. cbn [t1 receipts receipt_productions set_executions] in *.
  pose proof (rw_receipts _ _ W) as Hsub. pose proof (rw_other _ _ W) as E2. cbn [t1 receipts set_executions] in Hsub.
  assert (receipt_row_ok (receipt_id a) x a) as Xok.
  { destruct X2 as [X2|[_ X2]]; [|exact X2]. destruct (rs_rows _ Hsound _ _ X2) as (a' & Hrow).
    destruct Hrow as (bs' & O1 & O2 & Orest). rewrite X3 in O1. injection O1 as <-. rewrite X4 in O2. injection O2 as <-.
    by exists bs. }
  assert (receipt_productions t2 = receipt_productions t) as P2 by (by rewrite E2).
  split_and!.
  - rewrite <- (app_nil_r tr) in Hl |- *.
    eapply (stored_grows host t (view db') id s tr s' [] _ r r' [] [] []); try done.
    + rewrite V2, E2. by apply lookup_insert_eq.
    + by apply extends_none; rewrite V2, E2.
    + rewrite V2, E2. by apply timers_later.
    + intros rid. rewrite V2. cbn [receipt_productions set_receipt_productions].
      rewrite (su_published _ _ _ _ Hsu), (su_id _ _ _ _ Hsu), (so_id _ _ _ _ _ Hst), P2, lookup_insert_Some. naive_solver.
    + intros rid. rewrite (su_published _ _ _ _ Hsu). intros [= <-]. exists x, a. rewrite V2. cbn [receipts set_receipt_productions].
      rewrite (su_binding _ _ _ _ Hsu). by split_and!.
  - eapply framed_trans; [apply framed_row|]. intros id' Hne. rewrite V2.
    eapply same_execution_trans; [by apply receipts_same|].
    apply framed_productions; [by rewrite P2|exact Hne].
  - destruct Hsound as [Q1 Q2 Q3]. rewrite V2.
    assert (forall rid y, receipts t2 !! rid = Some y -> rid <> receipt_id a -> receipts t !! rid = Some y) as Hback
      by (intros rid y Hy Hne; by rewrite <- (Hother rid Hne)).
    split; cbn [receipts receipt_imports receipt_productions executions set_receipt_productions]; rewrite ?P2.
    + intros rid y Hy. destruct (decide (rid = receipt_id a)) as [->|Hne]; [|by apply Q1, Hback].
      exists a. rewrite X1 in Hy. by injection Hy as <-.
    + intros rid y Hy. destruct (decide (rid = receipt_id a)) as [->|Hne]; [right; by rewrite lookup_insert_eq|].
      rewrite lookup_insert_ne by done. rewrite E2. cbn. eapply Q2. by apply Hback.
    + intros rid i. rewrite lookup_insert_Some. intros [[<- <-]|[Hne Hp]].
      * split; [|by exists x]. rewrite E2. cbn. by rewrite lookup_insert_eq.
      * destruct (Q3 rid i Hp) as [A1 A2]. split; [rewrite E2; cbn; by apply row_kept|]. by rewrite Hother.
  - by rewrite V2, E2.
Qed.
End Change.

Lemma publish_facts s a r s' :
  run_op (OpPublish a) s = (Ok r, s') ->
  published_receipt_id s = None /\ h_activation (header (artifact_body a)) = activation (binding s).
Proof.
  intros (u & Ho & _)%answer_Ok. unfold publish_receipt in Ho. inv_ok. split.
  - match goal with Hp : published_status s a = Ok _ |- _ => unfold published_status in Hp; unfold published_receipt_id;
      destruct (status s); try done; by destruct (termination _) end.
  - match goal with Hv : validate_receipt_body _ _ = Ok _ |- _ => unfold validate_receipt_body in Hv end. inv_ok.
    match goal with Hb : bool_decide (h_activation _ = _) = true |- _ => by apply bool_decide_eq_true in Hb end.
Qed.

(** A write computed from the stored aggregate moves its rows, and only its rows. *)
Lemma persist_kept host t id s tr rec log db u db' :
  stored host t id s tr -> receipts_sound t -> view db = t -> host_id db = host ->
  computed s (next rec) (change rec) log -> persist_in_transaction id rec db = (Ok u, db') ->
  expected rec = version s /\ kept host id t (view db') (next rec) (tr ++ log).
Proof.
  intros Hst Hsound Hview Hhost Hc Ho.
  destruct (persist_row _ _ _ _ _ _ _ _ _ _ _ Hst Hview Hhost eq_refl Hc Ho) as (Hexp & r & r' & db1 & Hr & Hlast & Hx & V1 & Hch).
  split; [exact Hexp|]. pose proof (so_live _ _ _ _ _ Hst) as Hlive.
  pose proof (computed_live _ _ _ _ _ Hlive Hc) as Hl. pose proof (computed_successor _ _ _ _ _ Hlive Hc) as Hsu.
  destruct (computed_version _ _ _ _ _ Hlive Hc) as [Hv Hvs]. clear Ho.
  remember (change rec) as c eqn:Ec. remember (next rec) as s' eqn:Es. clear Ec Es.
  destruct c as [|e effects timer blobs|[p|]|a]; cbn [change_moves change_publishes] in Hsu.
  - inversion Hc; subst. rewrite app_nil_r in *. cbn [persist_change] in Hch. inv_ok. rewrite V1. by apply (state_kept _ _ _ s _ _ r).
  - assert (log = []) as -> by (by inversion Hc). rewrite app_nil_r in *.
    assert (exists sh lo o pid rq x s1, apply_dispatch e sh lo effects o pid rq s = (Ok x, s1) /\ cwf c_event e /\
              Forall (cwf c_effect) effects) as (sh & lo & o & pid & rq & x & s1 & Hd & We & Wf).
    { inversion Hc as [|? ? ? ? ? ? ? ? ? ? ? [_ Hp] We Hrun|? ? ? ? ? ? ? ? ? ? ? ? ? ? ? [_ Hp] We Hrun|? ? ? ? ?|? ? ? ? ?|]; subst;
        apply answer_Ok in Hrun as (y & Hrun & _); do 7 eexists; (split; [exact Hrun|]); split; [exact We| |exact We|]; by apply Hp. }
    eapply (dispatch_kept host t id s s' tr r r'); try done; [by apply Hvs|by eapply dispatch_budget|].
    intros ev Hev. by eapply dispatch_event_size.
  - destruct (computed_committed digest_range aggregate_range _ _ _ _ _ Hlive Hc) as [Hco ->].
    eapply (step_kept host t id s s' tr r r'); try done. by apply Hvs.
  - inversion Hc; subst; rewrite app_nil_r in *; cbn [persist_change] in Hch; inv_ok; rewrite V1; by apply (state_kept _ _ _ s _ _ r).
  - assert (log = []) as -> by (by inversion Hc). rewrite app_nil_r in *.
    inversion Hc as [| | | | |? ? ? [_ Hp] Hrun]; subst. apply publish_facts in Hrun as [Hn Ha].
    by eapply (publish_kept _ _ id s s' tr r r').
Qed.
End Refinement.
