(* ===== verification/Simulation.v ===== *)
(** * The store as a map (store/src/lib.rs against protocol/src/execution)

    [represents] relates the tables to the map a caller sees: an aggregate and its
    certified log per execution.  Every call the store offers, under any failure of
    the transaction bracket, either leaves the map or moves it as the call says; a
    process that dies is a [reopen] of the last commit. *)

From S2P Require Import Prelude Borsh Crypto Session Trace Negotiation Evidence Validation Receipt.
From S2P Require Import Frame Execution Invariant History Publish Fixture Guarantees Consistency Canonical Artifacts NoPanic.
From S2P Require Import StateCodec Ranges Envelope ChangeLog Database Persist Store Registry Durable Writes Registered Refinement.

(** What a caller sees: an aggregate and its certified log per execution. *)
Abbreviation Model := (gmap ExecId (ExecutionState * list TraceEntry)) (only parsing).

Section Simulation.
Context `{Crypto}.
Context (digest_range : forall bs, 0 <= blake3 bs < 256 ^ 32).
Context (aggregate_range : forall l z, blst_aggregate l = inr z -> 0 <= z < 256 ^ 48).

(** No row names [id]. *)
Record absent (t : Tables) (id : ExecId) : Prop := {
  ab_row : executions t !! id = None;
  ab_events : rows (event_records t) id = ∅;
  ab_steps : rows (agreed_steps t) id = ∅;
  ab_images : rows (step_states t) id = ∅;
  ab_timers : rows (active_timers t) id = ∅;
  ab_productions : forall rid, receipt_productions t !! rid <> Some id }.

Definition held (host : PeerId) (t : Tables) (id : ExecId) (o : option (ExecutionState * list TraceEntry)) : Prop :=
  match o with Some (s, tr) => stored host t id s tr | None => absent t id end.

Record represents (host : PeerId) (t : Tables) (A : Model) : Prop := {
  rp_held : forall id, held host t id (A !! id);
  rp_receipts : receipts_sound t;
  rp_registered : registered host t }.

Lemma held_frame host t t' id o : same_execution id t t' -> held host t id o -> held host t' id o.
Proof.
  intros Hs. destruct o as [[s tr]|]; [by apply stored_frame|]. destruct Hs as [E1 E2 E3 E4 E5 E6 E7].
  intros [A1 A2 A3 A4 A5 A6]. split; rewrite ?E1, ?E2, ?E3, ?E4, ?E5; try done. intros rid Hr. apply E6 in Hr. by eapply A6.
Qed.

Lemma core_same_execution id t t' : core_same t t' -> same_execution id t t'.
Proof. intros [E1 E2 E3 E4 E5 E6 E7 E8]. by split; rewrite ?E1, ?E2, ?E3, ?E4, ?E5, ?E6, ?E8. Qed.

(** A write of the registries leaves the map alone. *)
Lemma represents_registers host t t' A : represents host t A -> registers host t t' -> represents host t' A.
Proof.
  intros [Hh Hr Hg] (Hg' & Hc & _). split; [| |done].
  - intros id. eapply held_frame; [by apply core_same_execution|apply Hh].
  - destruct Hc as [E1 _ _ _ _ E6 E7 E8]. eapply sound_frame; [done..| |done]. by rewrite E1.
Qed.

(** A write of one execution moves its entry. *)
Lemma represents_kept host id t t' s tr A :
  represents host t A -> kept host id t t' s tr -> represents host t' (<[id := (s, tr)]> A).
Proof.
  intros [Hh Hr Hg] (Hst & Hf & Hs & Hreg). split; [|done|by eapply registered_frame].
  intros id'. destruct (decide (id' = id)) as [->|Hne]; [by rewrite lookup_insert_eq|].
  rewrite lookup_insert_ne by done. eapply held_frame; [by apply Hf|apply Hh].
Qed.

(** One call: the map after it, and evidence that only grows. *)
Definition moves (host : PeerId) (t t' : Tables) (A : Model) : Prop := represents host t' A /\ evolves t t'.

Lemma moves_refl host t A : represents host t A -> moves host t t A.
Proof. intros HA. split; [exact HA|by apply evolves_same]. Qed.

Lemma moves_kept host id t t' s tr A :
  represents host t A -> kept host id t t' s tr -> moves host t t' (<[id := (s, tr)]> A).
Proof.
  intros HA Hk. split; [by eapply represents_kept|]. destruct Hk as (_ & _ & _ & Hs). apply evolves_same, Hs.
Qed.

(** ** [create_execution] *)

Lemma insert_execution_Ok s now db u db' :
  insert_execution s now db = (Ok u, db') -> wf s -> ranged s -> callout s = None ->
  exists r, executions (view db) !! execution_id s = None /\ exec_row_ok (host_id db) s None r /\
    view db' = set_executions (<[execution_id s := r]> (executions (view db))) (view db).
Proof.
  unfold insert_execution, select, constraint, update. intros Ho Hw Hr Hc. inv_ok.
  match goal with Hrc : record_change _ _ = _ |- _ => apply record_view in Hrc as [Hv _] end.
  repeat match goal with Hs : sqlite_u64 _ = Ok _ |- _ => apply sqlite_u64_inv in Hs as [-> ?] end.
  rewrite Hc in *. match goal with Ho : sqlite_opt _ = Ok _ |- _ => cbn in Ho; injection Ho as <- end.
  eexists. split_and!; [|..|exact Hv].
  - match goal with Hh : has _ _ = false |- _ => unfold has in Hh; by destruct (executions _ !! _) end.
  - split; cbn; try done; [by eapply state_read|by eapply end_columns_read| |].
    + match goal with Hcol : columns_of s = Ok ?c |- _ => rewrite Hcol; by destruct c end.
    + match goal with Hcol : columns_of s = Ok ?c |- _ => unfold columns_of in Hcol; rewrite Hc in Hcol; cbn in Hcol; inv_ok end. done.
Qed.

Lemma state_new_facts id a prod shared local s :
  state_new id a prod shared local = Ok s ->
  execution_id s = id /\ producer s = prod /\ callout s = None /\ event_position s = 0 /\ published_receipt_id s = None.
Proof. unfold state_new. intros Hn. inv_ok. done. Qed.

(** The rows of a new execution. *)
Lemma create_kept id a prod shared local s now db u db' :
  live s [] -> state_new id a prod shared local = Ok s -> prod = host_id db ->
  absent (view db) id -> receipts_sound (view db) -> insert_execution s now db = (Ok u, db') ->
  kept (host_id db) id (view db) (view db') s [].
Proof.
  intros Hl (Hid & Hpr & Hc & Hev & Hpub)%state_new_facts -> Hab Hs Ho.
  apply insert_execution_Ok in Ho as (r & Hn & Hx & Hv);
    [|by eapply live_wf|by eapply (live_ranged digest_range aggregate_range)|done].
  rewrite Hid in *. destruct Hab as [A1 A2 A3 A4 A5 A6]. rewrite Hv. split_and!.
  - split; try done.
    + exists r, [], [], []. cbn [executions event_records agreed_steps step_states set_executions].
      rewrite lookup_insert_eq, A2, A3, A4, Hev. split_and!; try done; constructor.
    + cbn [active_timers set_executions]. rewrite A5. apply map_Forall_empty.
    + intros rid. rewrite Hid, Hpub. split; [|done]. intros Hr. by apply A6 in Hr.
    + intros rid. by rewrite Hpub.
  - apply framed_row.
  - apply sound_frame with (t := view db); try done. apply row_kept.
  - by split.
Qed.

(** The map after a creation: a new entry, unless the execution is already there. *)
Definition created (A : Model) (s : ExecutionState) : Model :=
  match A !! execution_id s with Some _ => A | None => <[execution_id s := (s, [])]> A end.

Lemma create_represents id a prod shared local s now db o db' A :
  represents (host_id db) (view db) A -> live s [] -> state_new id a prod shared local = Ok s -> prod = host_id db ->
  create_execution_in_transaction s now db = (Ok o, db') -> moves (host_id db) (view db) (view db') (created A s).
Proof.
  intros HA Hl Hnew Hp Ho. pose proof (state_new_facts _ _ _ _ _ _ Hnew) as (Hid & _). unfold create_execution_in_transaction in Ho.
  unfold created. pose proof (rp_held _ _ _ HA (execution_id s)) as Hh.
  apply sbind_Ok in Ho as (x1 & db1 & H1 & Ho). apply sread_Ok in H1 as [_ ->].
  apply sbind_Ok in Ho as (x2 & db1 & H1 & Ho). apply sread_Ok in H1 as [_ ->].
  apply sbind_Ok in Ho as (x3 & db1 & H1 & Ho). apply sread_Ok in H1 as [_ ->].
  apply sbind_Ok in Ho as (x4 & db1 & H1 & Ho). apply sread_Ok in H1 as [_ ->].
  apply sbind_Ok in Ho as (ex & db1 & H1 & Ho). apply sread_Ok in H1 as [H1 ->].
  destruct (A !! execution_id s) as [[e tr]|] eqn:HAi.
  - rewrite (load_stored digest_range aggregate_range _ _ _ _ _ Hh) in H1. injection H1 as <-.
    case_bool_decide; inv_ok; [by apply moves_refl|done].
  - unfold load_execution in H1. rewrite (ab_row _ _ Hh) in H1. injection H1 as <-.
    apply sbind_Ok in Ho as (u & db1 & Hi & Ho). inv_ok. eapply moves_kept; [exact HA|].
    eapply create_kept; try done. by apply (rp_receipts _ _ _ HA).
Qed.

(** ** [import_receipt] *)

Lemma imported_sound t t' rid :
  receipts_sound t -> receipts t ⊆ receipts t' -> receipt_imports t ⊆ receipt_imports t' ->
  receipt_productions t' = receipt_productions t -> executions t' = executions t ->
  (forall r, receipts t' !! rid = Some r -> exists a, receipt_row_ok rid r a) -> is_Some (receipt_imports t' !! rid) ->
  (forall r, r <> rid -> receipts t' !! r = receipts t !! r) -> receipts_sound t'.
Proof.
  intros [R1 R2 R3] Hsub Hi E2 E3 Hrow Himp Ho. split.
  - intros r x Hx. destruct (decide (r = rid)) as [->|Hne]; [by apply Hrow|]. eapply R1. by rewrite <- Ho.
  - intros r x Hx. destruct (decide (r = rid)) as [->|Hne]; [by left|]. rewrite E2.
    destruct (R2 r x) as [[y Hy]|?]; [by rewrite <- Ho| |by right]. left. exists y. by eapply lookup_weaken.
  - intros r i Hp. rewrite E2 in Hp. rewrite E3. destruct (R3 r i Hp) as [? [x Hx]]. split; [done|]. exists x. by eapply lookup_weaken.
Qed.

Lemma import_represents a now db o db' A :
  represents (host_id db) (view db) A -> import_receipt_in_transaction a now db = (Ok o, db') ->
  moves (host_id db) (view db) (view db') A.
Proof.
  intros HA Ho. unfold import_receipt_in_transaction in Ho.
  apply sbind_Ok in Ho as (st & db1 & H1 & Ho). apply sread_Ok in H1 as [_ ->].
  apply sbind_Ok in Ho as (u1 & db1 & H1 & Ho). apply sread_Ok in H1 as [_ ->].
  apply sbind_Ok in Ho as (u2 & db1 & Hin & Ho).
  apply (insert_artifact_Ok digest_range) in Hin as (_ & [W1 W2] & Hoth & (x & X1 & X2 & (bs & X3 & X4))).
  pose proof HA as [Hh [R1 R2 R3] Hg].
  assert (exists a', receipt_row_ok (receipt_id a) x a') as Hrow.
  { destruct X2 as [X2|[_ X2]]; [by apply R1|by exists a]. }
  assert (exists m, view db' = set_receipt_imports m (view db1) /\ receipt_imports (view db1) ⊆ m /\ is_Some (m !! receipt_id a))
    as (m & V & Hm & Hs).
  { unfold select, constraint, update in Ho. inv_ok. destruct (has (receipt_imports (view db1)) (receipt_id a)) eqn:Hhas; inv_ok.
    - exists (receipt_imports (view db1)). unfold has in Hhas. split_and!; [by destruct (view db1)|done|].
      by destruct (receipt_imports (view db1) !! receipt_id a).
    - match goal with Hr : record_change _ _ = _ |- _ => apply record_view in Hr as [-> _] end.
      eexists. split_and!; [reflexivity| |by rewrite lookup_insert_eq]. apply insert_subseteq.
      unfold has in Hhas. by destruct (receipt_imports (view db1) !! receipt_id a). }
  rewrite V. rewrite W2 in Hm |- *. cbn [receipt_imports set_receipts] in Hm. split; [split|by apply evolves_same].
  - intros id. eapply held_frame; [|apply Hh]. by split.
  - eapply (imported_sound (view db) _ (receipt_id a)); try done. cbn. intros r Hr. rewrite X1 in Hr. by injection Hr as <-.
  - eapply registered_frame; [|exact Hg]. by split.
Qed.

(** ** Calls *)

(** How a call may end: it commits tables that satisfy [P], it fails and leaves the
    disk, or it panics on either side of the commit. *)
Definition ends {X} (db : Database) (P : Tables -> Prop) (x : result StoreError X * Database) : Prop :=
  let '(r, db') := x in
  host_id db' = host_id db /\
  match r with
  | Ok _ => settled db' /\ P (disk db')
  | Err _ => settled db' /\ disk db' = disk db
  | Panic => disk db' = disk db \/ P (disk db')
  end.

Lemma ends_transaction {X} f (m : db_op X) db P :
  settled db -> scoped m -> (forall a db1, view db = disk db -> m db = (Ok a, db1) -> P (view db1)) ->
  ends db P (transaction f m db).
Proof.
  intros Hs Hm HP. destruct (transaction f m db) as [r db'] eqn:Ht.
  destruct (transaction_ends _ _ _ _ _ Hs Hm Ht) as (Hh & _ & Hr). split; [done|]. destruct r as [a|e|].
  - destruct Hr as (db1 & Ho & Hv & Hset & _ & Hd & _). split; [done|]. rewrite Hd. by eapply HP.
  - by destruct Hr as (? & ? & _).
  - destruct (transaction_panics _ _ _ _ Hs Hm Ht) as [?|(a & db1 & Ho & Hv & Hd)]; [by left|]. right. rewrite Hd. by eapply HP.
Qed.

Lemma ends_read {X Y} (g : Database -> result StoreError X) (k : X -> db_op Y) db P :
  settled db -> (forall a, g db = Ok a -> ends db P (k a db)) -> ends db P ((let! a := sread g in k a) db).
Proof.
  intros Hs Hk. unfold sbind, sread. destruct (g db) as [a|e|] eqn:Hg; cbn; [by apply Hk| |].
  - by split_and!.
  - split; [done|by left].
Qed.

Lemma ends_then {X Y} (m : db_op X) (y : Y) db P : ends db P (m db) -> ends db P ((m ;;! sret y) db).
Proof. unfold sbind, sret. by destruct (m db) as [[a|e|] db']. Qed.

Lemma ends_ret {X} (y : X) db (P : Tables -> Prop) : settled db -> P (disk db) -> ends db P (sret y db).
Proof. done. Qed.

Inductive Call :=
| CallRequest (id : ExecId) (program : ProgramHash) (ps : option bytes) (a : ExecutionAdmission) (grants : list BlobHash) (now : Z)
| CallBind (id : ExecId) (target : NegotiationTarget)
| CallFail (id : ExecId) (reason : bytes)
| CallPrepare (id : ExecId) (p : PreparedActivation) (now : Z)
| CallCommit (id : ExecId) (a : Activation) (now : Z)
| CallRegister (h : ProgramHash) (wasm : bytes) (now : Z)
| CallRemove (h : ProgramHash) (now : Z)
| CallSalt (id : ExecId) (draws : list bytes) (now : Z)
| CallCreate (id : ExecId) (a : Activation) (prod : PeerId) (shared local : bytes) (now : Z)
| CallPersist (id : ExecId) (r : TransitionRecord)
| CallImport (a : ReceiptArtifact) (now : Z).

Definition void {X} (m : db_op X) : db_op unit := m ;;! sret tt.

Definition run_call (f : Faults) (c : Call) : db_op unit :=
  match c with
  | CallRequest id program ps a grants now => void (create_execution_request f id program ps a grants now)
  | CallBind id target => void (bind_join_target f id target)
  | CallFail id reason => void (record_execution_request_failure f id reason)
  | CallPrepare id p now => void (prepare_activation f id p now)
  | CallCommit id a now => void (commit_activation f id a now)
  | CallRegister h wasm now => void (register_program f h wasm now)
  | CallRemove h now => void (remove_program f h now)
  | CallSalt id draws now => void (load_or_create_execution_salt f id draws now)
  | CallCreate id a prod shared local now => void (create_execution f id a prod shared local now)
  | CallPersist id r => persist f id r
  | CallImport a now => void (import_receipt f a now)
  end.

(** Typed arguments are in range, and [persist] is given a transition that the
    aggregate's operations computed from the stored state. *)
Definition allowed (A : Model) (c : Call) : Prop :=
  match c with
  | CallRequest _ _ ps a _ _ => cwf c_admission a /\ forall b, ps = Some b -> json_try_new b = Ok b
  | CallBind _ target => cwf c_target target
  | CallPrepare _ p _ => cwf c_prepared p /\ p_session_hash p <> 0
  | CallCommit _ a _ => cwf c_activation a
  | CallSalt _ draws _ => Forall (fun b => zlen b = 32) draws
  | CallCreate id a prod shared local _ =>
      cwf c_id id /\ cwf c_activation a /\ cwf c_id prod /\ zlen shared <= MAX_SHARED_STATE_BYTES /\
      zlen local <= MAX_LOCAL_STATE_BYTES
  | CallPersist id r => exists s tr log, A !! id = Some (s, tr) /\ computed s (next r) (change r) log
  | CallFail _ _ | CallRegister _ _ _ | CallRemove _ _ | CallImport _ _ => True
  end.

Definition change_log (c : Change) : list TraceEntry :=
  match c with ChStepSignature (Some p) => [entry p] | _ => [] end.

(** What a call that succeeds does to the map. *)
Definition applied (A : Model) (c : Call) : Model :=
  match c with
  | CallPersist id r => match A !! id with
                        | Some (_, tr) => <[id := (next r, tr ++ change_log (change r))]> A
                        | None => A
                        end
  | CallCreate id a prod shared local _ => match state_new id a prod shared local with
                                           | Ok s => created A s
                                           | _ => A
                                           end
  | _ => A
  end.

Lemma computed_log s tr s' c log : live s tr -> computed s s' c log -> log = change_log c.
Proof.
  intros Hl Hc. destruct c as [|e ef tm bl|[p|]|a].
  3: by destruct (computed_committed digest_range aggregate_range _ _ _ _ _ Hl Hc).
  all: by inversion Hc.
Qed.

Lemma persist_represents id r db u db' A :
  represents (host_id db) (view db) A -> allowed A (CallPersist id r) -> persist_in_transaction id r db = (Ok u, db') ->
  moves (host_id db) (view db) (view db') (applied A (CallPersist id r)).
Proof.
  intros HA (s & tr & log & Hs & Hc) Ho. cbn [applied]. rewrite Hs. pose proof (rp_held _ _ _ HA id) as Hst. rewrite Hs in Hst.
  destruct (persist_kept digest_range aggregate_range _ _ _ _ _ _ _ _ _ _ Hst (rp_receipts _ _ _ HA) eq_refl eq_refl Hc Ho) as [_ Hk].
  rewrite (computed_log _ _ _ _ _ (so_live _ _ _ _ _ Hst) Hc) in Hk. by eapply moves_kept.
Qed.

(** Whatever a record says, it is only written over the version it names. *)
Lemma persist_version host id r db u db' s tr :
  stored host (view db) id s tr -> persist_in_transaction id r db = (Ok u, db') -> expected r = version s.
Proof.
  intros [Hl _ _ (x & evs & sts & ims & Hx & Hxo & _) _ _ _] Ho. unfold persist_in_transaction in Ho.
  apply sbind_Ok in Ho as (w & db0 & H0 & Ho). apply sread_Ok in H0 as [_ ->].
  apply sbind_Ok in Ho as (old & db0 & H0 & Ho). unfold select in H0. apply sread_Ok in H0 as [H0 ->].
  rewrite Hx in H0. injection H0 as <-. apply sbind_Ok in Ho as (v & db0 & H0 & Ho). apply sread_Ok in H0 as [H0 ->].
  rewrite (xr_version _ _ _ _ Hxo), sqlite_i64_Ok in H0 by apply (live_bounds digest_range aggregate_range s tr Hl).
  injection H0 as <-. apply sbind_Ok in Ho as (w' & db0 & H0 & Ho). apply sread_Ok in H0 as [H0 ->]. inv_ok. lia.
Qed.

(** Every call of the registries leaves the map. *)
Lemma registry_ends {X} f (m : db_op X) db A :
  settled db -> scoped m -> represents (host_id db) (disk db) A ->
  (forall a db1, registered (host_id db) (view db) -> m db = (Ok a, db1) -> registers (host_id db) (view db) (view db1)) ->
  ends db (fun t => moves (host_id db) (disk db) t A) (transaction f m db).
Proof.
  intros Hs Hm HA Hk. apply ends_transaction; [done..|]. intros a db1 Hv Ho. rewrite <- Hv in HA |- *.
  assert (registers (host_id db) (view db) (view db1)) as Hr by (eapply Hk; [apply (rp_registered _ _ _ HA)|exact Ho]).
  split; [by eapply represents_registers|]. apply Hr.
Qed.

Lemma call_ends f c db A :
  settled db -> represents (host_id db) (disk db) A -> allowed A c ->
  ends db (fun t => moves (host_id db) (disk db) t (applied A c)) (run_call f c db).
Proof.
  intros Hs HA Hal. destruct c as [id pr ps a g now|id tg|id reason|id p now|id a now|h w now|h now|id dr now
    |id a prod sh lo now|id r|a now]; cbn [run_call applied allowed] in *; try apply ends_then.
  - destruct Hal as [Hw Hj]. unfold create_execution_request. apply ends_read; [done|]. intros gb _.
    apply ends_read; [done|]. intros [] Hlen. apply ends_read; [done|]. intros [] Hpres. apply registry_ends; [done|apply scoped_create_request|done|].
    intros o db1 Hreg Ho. eapply (create_request_registers digest_range); try exact Ho; try exact Hreg; try exact Hw; [|exact Hpres].
    intros b ->. split; [|by apply Hj]. inv_ok. lia.
  - unfold bind_join_target. apply ends_read; [done|]. intros [] Hne. apply registry_ends; [done|apply scoped_bind_target|done|].
    intros o db1 Hreg Ho. eapply (bind_registers digest_range); try exact Ho; try exact Hreg; try exact Hal. by inv_ok.
  - unfold record_execution_request_failure. apply ends_read; [done|]. intros [] Hlen. apply registry_ends; [done|apply scoped_failure|done|].
    intros o db1 Hreg Ho. eapply failure_registers; try exact Ho; try exact Hreg. inv_ok. lia.
  - destruct Hal as [Hw Hz]. unfold prepare_activation. apply ends_read; [done|]. intros [] _. apply registry_ends; [done|apply scoped_prepare|done|].
    intros o db1 Hreg Ho. by eapply (prepare_registers digest_range); [exact Hreg|exact Hw|exact Hz|exact Ho].
  - unfold commit_activation. apply ends_read; [done|]. intros [] _. apply registry_ends; [done|apply scoped_commit|done|].
    intros o db1 Hreg Ho. by eapply (commit_registers digest_range); [exact Hreg|exact Hal|exact Ho].
  - unfold register_program. apply ends_read; [done|]. intros [] Hb. apply ends_read; [done|]. intros ex _. destruct ex as [r|].
    + apply ends_read; [done|]. intros pl _. apply ends_read; [done|]. intros [] _. destruct (bool_decide (pl = w)); cbn [negb]; [|by apply ends_ret, moves_refl].
      destruct (is_some (pg_removed r)); [|by apply ends_ret, moves_refl]. apply ends_then, registry_ends; [done|apply scoped_reactivate|done|].
      intros o db1 Hreg Ho. by eapply reactivate_registers.
    + apply ends_then, registry_ends; [done|apply scoped_program|done|]. intros o db1 Hreg Ho. inv_ok.
      eapply (program_registers digest_range); try exact Ho; try exact Hreg; lia.
  - unfold remove_program. apply ends_read; [done|]. intros ex _. destruct ex as [r|]; [|by split_and!].
    destruct (is_some (pg_removed r)); [by apply ends_ret, moves_refl|]. apply ends_then, registry_ends; [done|apply scoped_retire|done|].
    intros o db1 Hreg Ho. by eapply retire_registers.
  - apply registry_ends; [done|apply scoped_salt|done|]. intros o db1 Hreg Ho. by eapply (salt_registers digest_range).
  - destruct Hal as (H1 & H2 & H3 & H4 & H5). unfold create_execution. apply ends_read; [done|]. intros s Hn. apply ends_read; [done|].
    intros [] Hp. apply map_err_Ok in Hn. rewrite Hn. apply ends_transaction; [done|apply scoped_create|]. intros o db1 Hv Ho. inv_ok.
    rewrite <- Hv. eapply create_represents; [by rewrite Hv|eapply live_new; [exact H1|exact H2|exact H3|exact H4|exact H5|exact Hn]|exact Hn| |exact Ho].
    destruct (state_new_facts _ _ _ _ _ _ Hn) as (_ & <- & _). lia.
  - apply ends_transaction; [done|apply scoped_persist|]. intros o db1 Hv Ho. rewrite <- Hv. eapply persist_represents; [by rewrite Hv|exact Hal|exact Ho].
  - apply ends_transaction; [done|apply scoped_import|]. intros o db1 Hv Ho. rewrite <- Hv. eapply import_represents; [by rewrite Hv|exact Ho].
Qed.

(** ** Histories *)

Definition empty_tables : Tables :=
  MkTables ∅ ∅ ∅ ∅ ∅ ∅ ∅ ∅ ∅ ∅ ∅ ∅ ∅ ∅ 0 [] ∅.
(** A store on a new file. *)
Definition fresh (host : PeerId) (dir : bytes) : Database := MkDb empty_tables empty_tables host false [] log_new dir ∅.

(** [history db A]: calls, failures and restarts took a fresh store to [db], and the
    calls that succeeded took the empty map to [A].  A process that dies during a
    call, or after it, leaves what the disk holds: the map before the call, or, when
    the call reached the disk, the map after it. *)
Inductive history (host : PeerId) (dir : bytes) : Database -> Model -> Prop :=
| hist_fresh : history host dir (fresh host dir) ∅
| hist_ok f c db A u db' :
    history host dir db A -> allowed A c -> run_call f c db = (Ok u, db') -> history host dir db' (applied A c)
| hist_err f c db A e db' :
    history host dir db A -> allowed A c -> run_call f c db = (Err e, db') -> history host dir db' A
| hist_panic f c db A db' A' :
    history host dir db A -> allowed A c -> run_call f c db = (Panic, db') ->
    (disk db' = disk db /\ A' = A \/ disk db' <> disk db /\ A' = applied A c) -> history host dir (reopen db') A'
| hist_reopen db A : history host dir db A -> history host dir (reopen db) A.

Lemma fresh_represents host dir : represents host (disk (fresh host dir)) ∅.
Proof.
  split.
  - intros id. rewrite lookup_empty. by split.
  - by split.
  - by apply registered_empty.
Qed.

Lemma history_represents host dir db A :
  history host dir db A -> settled db /\ host_id db = host /\ represents host (disk db) A.
Proof.
  induction 1 as [|f c db A u db' _ (Hs & <- & HA) Hal Hr|f c db A e db' _ (Hs & <- & HA) Hal Hr
    |f c db A db' A' _ (Hs & <- & HA) Hal Hr Hd|db A _ (Hs & <- & HA)].
  - split_and!; [done|done|apply fresh_represents].
  - pose proof (call_ends f c db A Hs HA Hal) as He. rewrite Hr in He. destruct He as (-> & ? & ? & _). done.
  - pose proof (call_ends f c db A Hs HA Hal) as He. rewrite Hr in He. destruct He as (-> & ? & Hd). by rewrite Hd.
  - pose proof (call_ends f c db A Hs HA Hal) as He. rewrite Hr in He. destruct He as (Hh & He). cbn.
    split_and!; [done|done|]. destruct Hd as [[Hd ->]|[Hd ->]]; [by rewrite Hd|]. by destruct He as [?|[? _]].
  - split_and!; done.
Qed.
End Simulation.
