(* ===== verification/Opening.v ===== *)
(** * Opening a store (store/src/database.rs)

    [validate_database] reads a store page by page.  It accepts exactly the databases
    whose rows are all valid, and every database the store's calls can leave on disk
    is one of them; reads return what was written.  The store's guarantees. *)

From S2P Require Import Prelude Borsh Crypto Session Trace Negotiation Evidence Validation Receipt.
From S2P Require Import Frame Execution Invariant History Publish Fixture Guarantees Consistency Canonical Artifacts NoPanic.
From S2P Require Import StateCodec Ranges Envelope ChangeLog Database Persist Store Registry Durable Writes Registered Refinement Simulation.

(** ** Pages of an ordered key list *)

Lemma filter_filtered (p q : Z -> bool) (l : list Z) :
  (forall k, q k = true -> p k = true) ->
  filter (fun k => q k = true) (filter (fun k => p k = true) l) = filter (fun k => q k = true) l.
Proof.
  intros Hpq. induction l as [|k l IH]; [done|]. rewrite (filter_cons (fun k => p k = true) k l). case_decide as Hp.
  - rewrite !filter_cons, IH. done.
  - rewrite IH, filter_cons. case_decide as Hq; [|done]. by apply Hpq in Hq.
Qed.

Lemma page_rest (l : list Z) n k :
  StronglySorted Z.lt l -> last (take n l) = Some k -> filter (fun x => (k <? x) = true) l = drop n l.
Proof.
  revert n. induction l as [|a l IH]; intros n Hs Hk; [by rewrite take_nil in Hk|]. destruct n as [|n]; [done|].
  apply StronglySorted_inv in Hs as [Hs Ha]. cbn [take drop] in *.
  assert (a <= k) as Hak.
  { apply last_Some in Hk as (l' & Hk). destruct l' as [|b l']; cbn in Hk; [injection Hk as <- _; lia|]. injection Hk as <- Hk.
    rewrite Forall_forall in Ha. apply Z.lt_le_incl, Ha.
    assert (k ∈ take n l) as Hin by (rewrite Hk; set_solver). apply elem_of_take in Hin as (i & Hi & _). by eapply list_elem_of_lookup_2. }
  rewrite filter_cons, decide_False by (rewrite Z.ltb_lt; lia).
  destruct (last (take n l)) as [k'|] eqn:Hl.
  - rewrite last_cons, Hl in Hk. injection Hk as ->. by apply IH.
  - apply last_None in Hl. rewrite Hl in Hk. injection Hk as <-.
    assert (n = 0%nat \/ l = []) as [->| ->] by (destruct n, l; cbn in Hl; (by left) || (by right) || done).
    + rewrite drop_0. clear -Ha. induction Ha as [|b l Hb Ha IH]; [done|].
      rewrite filter_cons, decide_True by (rewrite Z.ltb_lt; lia). by rewrite IH.
    + by rewrite drop_nil.
Qed.

Lemma sorted_fst {V} (l : list (Z * V)) (P : Z * V -> Prop) `{forall x, Decision (P x)} :
  StronglySorted (key_lt fst) l -> StronglySorted Z.lt (map fst (filter P l)).
Proof.
  induction 1 as [|x l Hs IH Hx]; [constructor|]. rewrite filter_cons. case_decide; [|done]. cbn [map]. constructor; [done|].
  apply Forall_forall. intros k Hk. apply list_elem_of_fmap in Hk as (y & -> & Hy). apply list_elem_of_filter in Hy as [_ Hy].
  rewrite Forall_forall in Hx. by apply Hx.
Qed.

Lemma past_filter {V} after (q : Z * V -> bool) (l : list (Z * V)) :
  map fst (filter (fun p => past after p.1 && q p = true) l)
    = filter (fun k => past after k = true) (map fst (filter (fun p => q p = true) l)).
Proof.
  induction l as [|p l IH]; [done|]. rewrite !filter_cons. destruct (q p) eqn:Hq.
  - rewrite andb_true_r, (decide_True (P:=true = true)) by done. cbn [map]. rewrite filter_cons. case_decide; cbn [map]; by rewrite IH.
  - rewrite andb_false_r, !decide_False by done. done.
Qed.

(** The keys after a page that ended at [k]. *)
Lemma next_page (l : list Z) after n k :
  StronglySorted Z.lt l -> last (take n (filter (fun x => past after x = true) l)) = Some k ->
  filter (fun x => past (Some k) x = true) l = drop n (filter (fun x => past after x = true) l).
Proof.
  intros Hs Hk. rewrite <- (page_rest _ n k); [|by apply sorted_filter|done].
  symmetry. apply (filter_filtered (past after) (fun x => k <? x)). intros x Hx%Z.ltb_lt.
  assert (k ∈ filter (fun x => past after x = true) l) as Hin.
  { apply last_Some in Hk as (l' & Hk). assert (k ∈ take n (filter (fun x => past after x = true) l)) as Ht by (rewrite Hk; set_solver).
    apply elem_of_take in Ht as (i & Hi & _). by eapply list_elem_of_lookup_2. }
  apply list_elem_of_filter in Hin as [Hp _]. destruct after as [a|]; [|done]. cbn in *. apply Z.ltb_lt in Hp. apply Z.ltb_lt. lia.
Qed.

Section Pages.
Context `{Crypto}.

(** The executions startup decodes, in key order. *)
Definition unfinished (t : Tables) : list ExecId :=
  map fst (filter (fun p => negb (archived_tag (x_lifecycle p.2)) = true) (ordered (executions t))).

Lemma unfinished_sorted t : StronglySorted Z.lt (unfinished t).
Proof. apply sorted_fst, ordered_strict. Qed.

Lemma unfinished_page_take t after :
  unfinished_page t after = take DATABASE_VALIDATION_PAGE_SIZE (filter (fun k => past after k = true) (unfinished t)).
Proof. unfold unfinished_page. by rewrite past_filter. Qed.

Lemma elem_of_unfinished t id :
  id ∈ unfinished t <-> exists r, executions t !! id = Some r /\ archived_tag (x_lifecycle r) = false.
Proof.
  unfold unfinished. rewrite list_elem_of_fmap. split.
  - intros ([k r] & -> & Hin). apply list_elem_of_filter in Hin as [Hn Hin]. apply ordered_elem in Hin. exists r. cbn in *.
    by destruct (archived_tag (x_lifecycle r)).
  - intros (r & Hr & Ha). exists (id, r). split; [done|]. apply list_elem_of_filter. cbn. rewrite Ha. split; [done|]. by apply ordered_elem.
Qed.

(** Enough fuel reads every page: nothing is skipped. *)
Lemma pages_exact fuel host t after :
  (length (filter (fun k => past after k = true) (unfinished t)) < fuel)%nat ->
  validate_pages fuel host t after = Ok tt <->
  Forall (fun id => validate_execution host t id = Ok tt) (filter (fun k => past after k = true) (unfinished t)).
Proof.
  revert after. induction fuel as [|fuel IH]; intros after Hf; [lia|]. cbn [validate_pages]. rewrite unfinished_page_take.
  set (rest := filter (fun k => past after k = true) (unfinished t)) in *.
  destruct (last (take DATABASE_VALIDATION_PAGE_SIZE rest)) as [k|] eqn:Hl.
  - pose proof (next_page (unfinished t) after DATABASE_VALIDATION_PAGE_SIZE k (unfinished_sorted t) Hl) as Hn. fold rest in Hn.
    assert (rest <> []) as Hne by (intros E; by rewrite E in Hl).
    assert (0 < length rest)%nat by (destruct rest; [done|simpl; lia]).
    rewrite rbind_Ok. specialize (IH (Some k)). rewrite Hn in IH.
    assert (Forall (fun id => validate_execution host t id = Ok tt) rest <->
      Forall (fun id => validate_execution host t id = Ok tt) (take DATABASE_VALIDATION_PAGE_SIZE rest) /\
      Forall (fun id => validate_execution host t id = Ok tt) (drop DATABASE_VALIDATION_PAGE_SIZE rest)) as ->
      by (by rewrite <- Forall_app, take_drop).
    rewrite <- IH.
    + split.
      * intros (u & Hu & Hp). rewrite try_for_each_Ok in Hu. done.
      * intros [Hu Hp]. exists tt. by rewrite try_for_each_Ok.
    + rewrite length_drop. unfold DATABASE_VALIDATION_PAGE_SIZE. lia.
  - apply last_None in Hl. assert (rest = []) as -> by (by destruct rest). split; [constructor|done].
Qed.

Lemma validate_executions_iff host t :
  validate_executions host t = Ok tt <->
  forall id r, executions t !! id = Some r -> archived_tag (x_lifecycle r) = false -> validate_execution host t id = Ok tt.
Proof.
  unfold validate_executions. assert (filter (fun k => past None k = true) (unfinished t) = unfinished t) as Hall.
  { induction (unfinished t) as [|k l IH]; [done|]. rewrite filter_cons, decide_True by done. by rewrite IH. }
  rewrite pages_exact, Hall.
  - rewrite Forall_forall. setoid_rewrite elem_of_unfinished. naive_solver.
  - rewrite Hall. unfold unfinished. rewrite length_map. pose proof (length_filter (fun p : Z * ExecRow =>
      negb (archived_tag (x_lifecycle p.2)) = true) (ordered (executions t))) as Hle. rewrite length_ordered in Hle. lia.
Qed.

(** ** Receipt pages *)

Definition receipt_keys (t : Tables) : list ReceiptId := map fst (ordered (receipts t)).

Lemma receipt_page_take t after :
  receipt_page t after = take DATABASE_VALIDATION_PAGE_SIZE (filter (fun k => past after k = true) (receipt_keys t)).
Proof.
  unfold receipt_page, receipt_keys. f_equal.
  assert (filter (fun p : Z * ReceiptRow => true = true) (ordered (receipts t)) = ordered (receipts t)) as Hall.
  { induction (ordered (receipts t)) as [|p l IH]; [done|]. rewrite filter_cons, decide_True by done. by rewrite IH. }
  rewrite <- Hall at 2. rewrite <- (past_filter after (fun _ => true)). f_equal.
  apply list_filter_iff. intros p. by rewrite andb_true_r.
Qed.

Lemma receipt_keys_sorted t : StronglySorted Z.lt (receipt_keys t).
Proof.
  unfold receipt_keys. pose proof (sorted_fst (ordered (receipts t)) (fun _ => True) (ordered_strict _)) as Hs.
  assert (filter (fun _ => True) (ordered (receipts t)) = ordered (receipts t)) as <-; [|done].
  induction (ordered (receipts t)) as [|p l IH]; [done|]. rewrite filter_cons, decide_True by done. f_equal. apply IH.
  clear -Hs. cbn [map] in Hs. rewrite filter_cons, decide_True in Hs by done. by apply StronglySorted_inv in Hs as [].
Qed.

Lemma elem_of_receipt_keys t rid : rid ∈ receipt_keys t <-> is_Some (receipts t !! rid).
Proof.
  unfold receipt_keys. rewrite list_elem_of_fmap. split.
  - intros ([k r] & -> & Hin%ordered_elem). by exists r.
  - intros [r Hr]. exists (rid, r). split; [done|]. by apply ordered_elem.
Qed.

Lemma receipt_pages_exact fuel host t after :
  (length (filter (fun k => past after k = true) (receipt_keys t)) < fuel)%nat ->
  validate_receipt_pages fuel host t after = Ok tt <->
  Forall (fun rid => validate_receipt host t rid = Ok tt) (filter (fun k => past after k = true) (receipt_keys t)).
Proof.
  revert after. induction fuel as [|fuel IH]; intros after Hf; [lia|]. cbn [validate_receipt_pages]. rewrite receipt_page_take.
  set (rest := filter (fun k => past after k = true) (receipt_keys t)) in *.
  destruct (last (take DATABASE_VALIDATION_PAGE_SIZE rest)) as [k|] eqn:Hl.
  - pose proof (next_page (receipt_keys t) after DATABASE_VALIDATION_PAGE_SIZE k (receipt_keys_sorted t) Hl) as Hn. fold rest in Hn.
    assert (rest <> []) as Hne by (intros E; by rewrite E in Hl).
    assert (0 < length rest)%nat by (destruct rest; [done|simpl; lia]).
    rewrite rbind_Ok. specialize (IH (Some k)). rewrite Hn in IH.
    assert (Forall (fun id => validate_receipt host t id = Ok tt) rest <->
      Forall (fun id => validate_receipt host t id = Ok tt) (take DATABASE_VALIDATION_PAGE_SIZE rest) /\
      Forall (fun id => validate_receipt host t id = Ok tt) (drop DATABASE_VALIDATION_PAGE_SIZE rest)) as ->
      by (by rewrite <- Forall_app, take_drop).
    assert (length (drop DATABASE_VALIDATION_PAGE_SIZE rest) < fuel)%nat as Hlt
      by (rewrite length_drop; unfold DATABASE_VALIDATION_PAGE_SIZE; lia).
    destruct (Nat.eqb_spec (length (take DATABASE_VALIDATION_PAGE_SIZE rest)) DATABASE_VALIDATION_PAGE_SIZE) as [He|He].
    + rewrite <- (IH Hlt). split.
      * intros (u & Hu & Hp). rewrite try_for_each_Ok in Hu. done.
      * intros [Hu Hp]. exists tt. by rewrite try_for_each_Ok.
    + rewrite length_take in He. assert (drop DATABASE_VALIDATION_PAGE_SIZE rest = []) as -> by (apply drop_ge; lia).
      split.
      * intros (u & Hu & _). rewrite try_for_each_Ok in Hu. done.
      * intros [Hu _]. exists tt. by rewrite try_for_each_Ok.
  - apply last_None in Hl. assert (rest = []) as -> by (by destruct rest). split; [constructor|done].
Qed.

Lemma validate_receipts_iff host t :
  validate_receipts host t = Ok tt <-> forall rid, is_Some (receipts t !! rid) -> validate_receipt host t rid = Ok tt.
Proof.
  unfold validate_receipts. assert (filter (fun k => past None k = true) (receipt_keys t) = receipt_keys t) as Hall.
  { induction (receipt_keys t) as [|k l IH]; [done|]. rewrite filter_cons, decide_True by done. by rewrite IH. }
  rewrite receipt_pages_exact, Hall.
  - rewrite Forall_forall. by setoid_rewrite elem_of_receipt_keys.
  - rewrite Hall. unfold receipt_keys. rewrite length_map, length_ordered. lia.
Qed.

End Pages.

(** ** What a represented database reads as *)

Section Opening.
Context `{Crypto}.
Context (digest_range : forall bs, 0 <= blake3 bs < 256 ^ 32).
Context (aggregate_range : forall l z, blst_aggregate l = inr z -> 0 <= z < 256 ^ 48).

Lemma end_phase_tag tag bs e : decode_end tag bs = Ok e -> e <> Open -> tag <> 0.
Proof. unfold decode_end. intros Hd Hne ->. destruct (_ <? _); [done|]. inv_ok. case_bool_decide; by simplify_eq. Qed.

Lemma stored_receipt_reads host t A rid r :
  represents host t A -> receipts t !! rid = Some r ->
  exists a prov, receipt_row_ok rid r a /\ decode_stored_receipt host t rid r = Ok (MkStored rid prov a, receipt_productions t !! rid).
Proof.
  intros [Hh [R1 R2 R3] _] Hr. destruct (R1 _ _ Hr) as (a & Hrow). pose proof Hrow as (bs & O1 & O2 & O3 & O4 & O5 & O6 & O7).
  exists a. unfold decode_stored_receipt. rewrite O1. cbn [rbind]. rewrite O2. cbn [map_err rbind].
  rewrite O3, O4, O5, O6, O7, !Z.eqb_refl, eqb_reflx, bool_decide_eq_true_2 by done. cbn [negb orb err_if rbind].
  assert (match receipt_productions t !! rid with
          | Some id => err_if (negb match executions t !! id with
              | Some x => (x_session x =? act_session_hash (h_activation (header (artifact_body a)))) && (x_producer x =? host) && negb (x_end_phase x =? 0)
              | None => false end) (Corruption "produced receipt is not bound to its Host execution")
          | None => Ok tt end = Ok tt) as ->.
  { destruct (receipt_productions t !! rid) as [id|] eqn:Hp; [|done]. pose proof (Hh id) as Hid. destruct (A !! id) as [[s tr]|].
    - destruct Hid as [S1 S2 S3 (x & evs & sts & ims & Hx & [X1 X2 X3 _ X5 _ _ _ _ _ _ _] & _) _ S6 S7].
      rewrite <- S2 in Hp. apply S6 in Hp. destruct (S7 _ Hp) as (r' & a' & Hr' & Hrow' & Ha'). rewrite Hr in Hr'. injection Hr' as <-.
      destruct Hrow' as (bs' & O1' & O2' & _). assert (a' = a) as -> by congruence.
      rewrite Hx, X3, X2, S3, Z.eqb_refl. unfold session_id. rewrite Ha', Z.eqb_refl. cbn [andb].
      rewrite (proj2 (Z.eqb_neq _ _)); [done|]. eapply end_phase_tag; [exact X5|]. intros Hopen.
      pose proof (proj1 (validate_end_Ok s) (rf_end s (wf_recovered s (live_wf _ _ S1)))) as Hv. rewrite Hopen in Hv.
      rewrite (running_unpublished s Hv) in Hp. done.
    - by apply (ab_productions _ _ Hid) in Hp. }
  cbn [rbind]. destruct (R2 _ _ Hr) as [[y Hy]|[y Hy]]; unfold has; rewrite Hy; cbn [is_some].
  - destruct (receipt_productions t !! rid); eexists; by split.
  - destruct (receipt_imports t !! rid); eexists; by split.
Qed.

Lemma lifecycle_archived s : archived_tag (lifecycle_tag (lifecycle s)) = lifecycle_terminal (lifecycle s).
Proof. by destruct (lifecycle s). Qed.

Lemma database_validates host t A : represents host t A -> validate_database host t = Ok tt.
Proof.
  intros HA. destruct (registries_validate host t (rp_registered _ _ _ HA)) as (V1 & V2 & V3 & V4).
  unfold validate_database.
  assert (validate_executions host t = Ok tt) as ->.
  { apply validate_executions_iff. intros id r Hr Ha. pose proof (rp_held _ _ _ HA id) as Hid. destruct (A !! id) as [[s tr]|].
    - unfold validate_execution. rewrite (load_stored digest_range aggregate_range _ _ _ _ _ Hid). cbn [rbind ok_or].
      apply (projection_stored digest_range aggregate_range _ _ _ _ _ Hid). rewrite <- lifecycle_archived.
      destruct Hid as [_ _ _ (x & evs & sts & ims & Hx & Hxo & _) _ _ _]. rewrite Hr in Hx. injection Hx as <-.
      by rewrite <- (xr_lifecycle _ _ _ _ Hxo).
    - by rewrite (ab_row _ _ Hid) in Hr. }
  cbn [rbind]. rewrite V1, V2, V3, V4. cbn [rbind]. apply validate_receipts_iff. intros rid [r Hr].
  unfold validate_receipt. destruct (has (receipt_productions t) rid); [done|]. rewrite Hr. cbn [ok_or rbind].
  destruct (stored_receipt_reads _ _ _ _ _ HA Hr) as (a & prov & _ & Hd). unfold rmap. by rewrite Hd.
Qed.
End Opening.

(** ** Guarantees *)

(** C33: the store implements a map from executions to their aggregate and certified
    log.  Whatever of the transaction bracket fails, a call that succeeds moves the
    map as the call says, a call that fails leaves the disk as it was, and after a
    panic the reopened store holds the map before or after the call. *)
Theorem store_refines_map `{Crypto} f c db A r db' :
  (forall bs, 0 <= blake3 bs < 256 ^ 32) -> (forall l z, blst_aggregate l = inr z -> 0 <= z < 256 ^ 48) ->
  settled db -> represents (host_id db) (disk db) A -> allowed A c -> run_call f c db = (r, db') ->
  host_id db' = host_id db /\
  match r with
  | Ok _ => settled db' /\ represents (host_id db) (disk db') (applied A c)
  | Err _ => settled db' /\ disk db' = disk db
  | Panic => settled (reopen db') /\
      (represents (host_id db) (disk (reopen db')) A \/ represents (host_id db) (disk (reopen db')) (applied A c))
  end.
Proof.
  intros Hd Ha Hs HA Hal Hr. pose proof (call_ends Hd Ha f c db A Hs HA Hal) as He. rewrite Hr in He.
  destruct He as [Hh He]. split; [done|]. destruct r as [a|e|]; [by destruct He as (? & ? & _)|done|]. split; [done|].
  destruct He as [He|[He _]]; [left|by right]. cbn [disk reopen]. by rewrite He.
Qed.

(** C34: what was committed reads back: after any history of calls, failures and
    restarts, loading an execution returns the aggregate the calls left it in, its
    certified log loads as it was certified, and the state after each step reads as
    an image of that step's post-state. *)
Theorem store_reads_back `{Crypto} host dir db A id :
  (forall bs, 0 <= blake3 bs < 256 ^ 32) -> (forall l z, blst_aggregate l = inr z -> 0 <= z < 256 ^ 48) ->
  history host dir db A -> poisoned db = false ->
  load_execution host (view db) id = Ok (fst <$> A !! id) /\
  forall s tr, A !! id = Some (s, tr) ->
    load_agreed_trace (view db) s = Ok tr /\
    forall i e, tr !! i = Some e ->
      exists image, step_state (view db) id (Z.of_nat i) = Ok image /\ of_shared (E:=StoreError) image = Ok (post_state e).
Proof.
  intros Hd Ha Hh Hp. destruct (history_represents Hd Ha _ _ _ _ Hh) as (Hs & <- & HA). destruct (Hs Hp) as [-> _].
  pose proof (rp_held _ _ _ HA id) as Hid. destruct (A !! id) as [[s tr]|]; cbn.
  - split; [by apply (load_stored Hd Ha _ _ _ _ tr)|]. intros s' tr' [= <- <-].
    split; [by apply (trace_stored Hd Ha _ _ _ _ _ Hid)|]. intros i e. by apply (step_state_stored Hd Ha _ _ _ _ _ _ _ Hid).
  - split; [|done]. unfold load_execution. by rewrite (ab_row _ _ Hid).
Qed.

(** C35: a store always opens: startup validation accepts whatever any history of
    calls, failures and crashes has left on disk. *)
Theorem store_always_opens `{Crypto} host dir db A :
  (forall bs, 0 <= blake3 bs < 256 ^ 32) -> (forall l z, blst_aggregate l = inr z -> 0 <= z < 256 ^ 48) ->
  history host dir db A -> validate_database host (disk db) = Ok tt.
Proof.
  intros Hd Ha Hh. destruct (history_represents Hd Ha _ _ _ _ Hh) as (_ & _ & HA). by eapply (database_validates Hd Ha).
Qed.

(** Paging loses nothing: the paged startup loops accept a database exactly when
    every unfinished execution and every receipt validates on its own. *)
Theorem startup_pages_exact `{Crypto} host t :
  (validate_executions host t = Ok tt <->
   forall id r, executions t !! id = Some r -> archived_tag (x_lifecycle r) = false -> validate_execution host t id = Ok tt) /\
  (validate_receipts host t = Ok tt <->
   forall rid, is_Some (receipts t !! rid) -> validate_receipt host t rid = Ok tt).
Proof. split; [apply validate_executions_iff|apply validate_receipts_iff]. Qed.

(** C36: activation evidence is final: no call, whatever it returns, changes the
    prepared activation an execution is bound to, nor its certificate once it has one. *)
Theorem activation_evidence_final `{Crypto} host dir f c db A r db' id e :
  (forall bs, 0 <= blake3 bs < 256 ^ 32) -> (forall l z, blst_aggregate l = inr z -> 0 <= z < 256 ^ 48) ->
  history host dir db A -> allowed A c -> run_call f c db = (r, db') -> load_activation (disk db) id = Ok (Some e) ->
  exists e', load_activation (disk db') id = Ok (Some e') /\ rec_prepared e' = rec_prepared e /\
    (is_Some (rec_committed e) -> rec_committed e' = rec_committed e).
Proof.
  intros Hd Ha Hh Hal Hr Hl. destruct (history_represents Hd Ha _ _ _ _ Hh) as (Hs & <- & HA).
  pose proof (call_ends Hd Ha f c db A Hs HA Hal) as He. rewrite Hr in He. destruct He as [_ He].
  assert (disk db' = disk db \/ moves (host_id db) (disk db) (disk db') (applied A c)) as [Hsame|[_ Hev]]
    by (destruct r; naive_solver); [rewrite Hsame; by exists e|].
  destruct (activation_records (disk db) !! id) as [x|] eqn:Hx; [|by rewrite load_activation_none in Hl].
  destruct (load_activation_ok _ _ _ _ (rp_registered _ _ _ HA) Hx) as (p & cm & Hok & Hl'). rewrite Hl' in Hl. injection Hl as <-.
  destruct (Hev id x p cm Hx Hok) as (x' & cm' & Hx' & Hok' & Hc). eexists.
  split; [unfold load_activation, rmap; rewrite Hx', (decode_activation_ok id x' p cm' Hok'); reflexivity|]. done.
Qed.

(** C37: one writer wins: once a transition of any kind that moves the version is
    committed, every other write computed from the same version fails and leaves the
    disk as it was. *)
Theorem one_writer_per_version `{Crypto} host dir f f' db A db1 db2 id s tr r r' log x :
  (forall bs, 0 <= blake3 bs < 256 ^ 32) -> (forall l z, blst_aggregate l = inr z -> 0 <= z < 256 ^ 48) ->
  history host dir db A -> A !! id = Some (s, tr) -> computed s (next r) (change r) log -> version (next r) <> version s ->
  persist f id r db = (Ok tt, db1) -> expected r' = expected r -> persist f' id r' db1 = (x, db2) ->
  (forall u, x <> Ok u) /\ disk db2 = disk db1.
Proof.
  intros Hd Ha Hh HAi Hc Hne H1 Hexp H2.
  assert (allowed A (CallPersist id r)) as Hal by (by exists s, tr, log).
  destruct (history_represents Hd Ha _ _ _ _ Hh) as (Hs & Hhost & HA).
  destruct (history_represents Hd Ha _ _ _ _ (hist_ok _ _ f (CallPersist id r) _ _ tt _ Hh Hal H1)) as (Hs1 & Hhost1 & HA1).
  pose proof (rp_held _ _ _ HA id) as St. rewrite HAi in St.
  pose proof (rp_held _ _ _ HA1 id) as St1. cbn [applied] in St1. rewrite HAi, lookup_insert_eq in St1.
  destruct (transaction_ends _ _ _ _ _ Hs (scoped_persist id r) H1) as (_ & _ & dbx & Ho & Hv & _). rewrite <- Hv in St.
  pose proof (persist_version Hd Ha _ _ _ _ _ _ _ _ St Ho) as Hver.
  destruct (computed_version _ _ _ _ _ (so_live _ _ _ _ _ St) Hc) as [Hle _].
  assert (forall u dby, view db1 = disk db1 -> persist_in_transaction id r' db1 <> (Ok u, dby)) as Hno.
  { intros u dby Hv1 Ho1. rewrite <- Hv1 in St1. pose proof (persist_version Hd Ha _ _ _ _ _ _ _ _ St1 Ho1). lia. }
  pose proof (transaction_ends _ _ _ _ _ Hs1 (scoped_persist id r') H2) as (_ & _ & Hx). destruct x as [u|e|].
  - destruct Hx as (dby & Ho1 & Hv1 & _). by apply Hno in Ho1.
  - by destruct Hx as (_ & ? & _).
  - split; [done|]. destruct (transaction_panics _ _ _ _ Hs1 (scoped_persist id r') H2) as [?|(u & dby & Ho1 & Hv1 & _)]; [done|].
    by apply Hno in Ho1.
Qed.
