(* ===== verification/StoreExample.v ===== *)
(** * A worked store

    The calls that take the two-party execution of Fixture.v through a store: the
    program is registered, the request admitted, the activation prepared and
    committed, the execution created and its first step certified; the store's
    guarantees evaluated there. *)

From S2P Require Import Prelude Borsh Crypto Session Trace Negotiation Evidence Validation Receipt.
From S2P Require Import Frame Execution Invariant History Publish Fixture Guarantees Consistency Canonical Artifacts NoPanic.
From S2P Require Import StateCodec Ranges Envelope ChangeLog Database Persist Store Registry Durable Writes Registered Refinement Simulation Opening.

Section Example.
#[local] Existing Instance toy.

Definition dir0 : bytes := [47; 98].
(** Bytes whose digest is the offer's program hash. *)
Definition wasm0 : bytes := [48; 234; 241].
Definition transition (s s' : ExecutionState) (c : Change) : TransitionRecord := MkTransition (version s) s' c 1000.

Definition proposal1 : option SharedProposal :=
  Eval vm_compute in match (run_op (OpSign sig_b1) st_signed).1 with Ok (ACommitted p) => p | _ => None end.

(** The calls, each with the failures it meets. *)
Definition faulty : Faults := MkFaults false true false.
Definition to_active : Call := CallPersist 9 (transition st_new st_active ChState).
Definition to_staged : Call :=
  CallPersist 9 (transition st_active st_staged (ChDispatch (SessionStarted ensemble0) [Broadcast [7; 7]] None [])).
Definition to_signed : Call := CallPersist 9 (transition st_staged st_signed (ChStepSignature None)).
Definition to_step1 : Call := CallPersist 9 (transition st_signed st_step1 (ChStepSignature proposal1)).

Definition db_fresh : Database := fresh alice dir0.
Definition run (c : Call) (db : Database) : Database := (run_call no_faults c db).2.
Definition db_committed : Database :=
  run (CallCommit 9 activation0 4) (run (CallPrepare 9 prepared0 3)
    (run (CallRequest 9 77 (Some [123; 125]) (Create 5 2) [] 2) (run (CallRegister 77 wasm0 1) db_fresh))).
Definition db_created : Database := run (CallCreate 9 activation0 alice shared0 [4] 5) db_committed.
Definition db_staged : Database := run to_staged (run to_active db_created).
(** A commit that fails, then a restart. *)
Definition db_retry : Database := reopen (run_call faulty to_signed db_staged).2.
Definition db_signed : Database := run to_signed db_retry.
Definition db_step1 : Database := run to_step1 db_signed.

Definition map_of (s : ExecutionState) (tr : list TraceEntry) : gmap ExecId (ExecutionState * list TraceEntry) := {[9 := (s, tr)]}.

Lemma hist_next c db A A' :
  history alice dir0 db A -> allowed A c -> is_ok (run_call no_faults c db).1 = true -> applied A c = A' ->
  history alice dir0 (run c db) A'.
Proof.
  intros Hh Hal Hr <-. unfold run. destruct (run_call no_faults c db) as [[u| |] db'] eqn:E; cbn in *; try done. by eapply hist_ok.
Qed.

Lemma hist_fails f c db A e :
  history alice dir0 db A -> allowed A c -> (run_call f c db).1 = Err e -> history alice dir0 (run_call f c db).2 A.
Proof. intros Hh Hal Hr. destruct (run_call f c db) as [[u| |] db'] eqn:E; cbn in *; try done. by eapply hist_err. Qed.

Lemma admission0_cwf : cwf c_admission (Create 5 2).
Proof. split; [done|]. split; [split; done|reflexivity]. Qed.

Lemma history_committed : history alice dir0 db_committed ∅.
Proof.
  unfold db_committed.
  eapply (hist_next (CallCommit 9 activation0 4) _ ∅); [|exact activation0_cwf|vm_compute; reflexivity|done].
  eapply (hist_next (CallPrepare 9 prepared0 3) _ ∅); [|split; [exact prepared0_cwf|done]|vm_compute; reflexivity|done].
  eapply (hist_next (CallRequest 9 77 (Some [123; 125]) (Create 5 2) [] 2) _ ∅);
    [|split; [exact admission0_cwf|by intros b [= <-]]|vm_compute; reflexivity|done].
  eapply (hist_next (CallRegister 77 wasm0 1) _ ∅); [apply hist_fresh|done|vm_compute; reflexivity|done].
Qed.

Lemma history_created : history alice dir0 db_created (map_of st_new []).
Proof.
  unfold db_created.
  eapply (hist_next (CallCreate 9 activation0 alice shared0 [4] 5) _ ∅); [exact history_committed| |vm_compute; reflexivity|].
  - split; [done|]. split; [exact activation0_cwf|]. split; [done|]. split; by apply Z.leb_le.
  - cbn [applied]. rewrite st_new_ok. done.
Qed.

Lemma allowed_persist s tr s' c log :
  computed s s' c log -> allowed (map_of s tr) (CallPersist 9 (transition s s' c)).
Proof. intros Hc. exists s, tr, log. split; [apply lookup_singleton_eq|done]. Qed.

Lemma applied_persist s tr s' c :
  applied (map_of s tr) (CallPersist 9 (transition s s' c)) = map_of s' (tr ++ change_log c).
Proof. cbn [applied]. unfold map_of. rewrite lookup_singleton_eq. apply insert_singleton_eq. Qed.

Lemma computed_active : computed st_new st_active ChState [].
Proof. by eapply (comp_state _ OpActivate); [..|exact (succeeds_run _ _ st_active_ok)]. Qed.
Lemma computed_staged :
  computed st_active st_staged (ChDispatch (SessionStarted ensemble0) [Broadcast [7; 7]] None []) [].
Proof.
  eapply (comp_dispatch _ (SessionStarted ensemble0) shared1 [5] [Broadcast [7; 7]] None None None);
    [split; [done|exact op_start_ranged]| |exact (succeeds_run _ _ st_staged_ok)].
  change (cwf c_ensemble ensemble0). split; [|reflexivity]. apply Forall_cons_2; [done|]. apply Forall_cons_2; done.
Qed.
Lemma computed_signed : computed st_staged st_signed (ChStepSignature None) [].
Proof. eapply (comp_sign _ sig_a1); [done|]. exact (succeeds_run _ _ st_signed_ok). Qed.
Lemma computed_step1 : computed st_signed st_step1 (ChStepSignature proposal1) (take 1 trace0).
Proof. eapply (comp_sign _ sig_b1); [done|]. exact (succeeds_run _ _ st_step1_ok). Qed.

Lemma history_staged : history alice dir0 db_staged (map_of st_staged []).
Proof.
  unfold db_staged.
  eapply (hist_next to_staged _ (map_of st_active [])); [|exact (allowed_persist _ _ _ _ _ computed_staged)|vm_compute; reflexivity|apply applied_persist].
  eapply (hist_next to_active _ (map_of st_new [])); [exact history_created|exact (allowed_persist _ _ _ _ _ computed_active)|vm_compute; reflexivity|apply applied_persist].
Qed.

Lemma history_retry : history alice dir0 db_retry (map_of st_staged []).
Proof.
  unfold db_retry.
  apply hist_reopen. eapply hist_fails; [exact history_staged|exact (allowed_persist _ _ _ _ _ computed_signed)|vm_compute; reflexivity].
Qed.

Lemma history_signed : history alice dir0 db_signed (map_of st_signed []).
Proof.
  unfold db_signed.
  eapply (hist_next to_signed _ (map_of st_staged [])); [exact history_retry|exact (allowed_persist _ _ _ _ _ computed_signed)|vm_compute; reflexivity|apply applied_persist].
Qed.

Lemma history_step1 : history alice dir0 db_step1 (map_of st_step1 (take 1 trace0)).
Proof.
  unfold db_step1.
  eapply (hist_next to_step1 _ (map_of st_signed [])); [exact history_signed|exact (allowed_persist _ _ _ _ _ computed_step1)|vm_compute; reflexivity|apply applied_persist].
Qed.

(** ** The guarantees on this store *)

Lemma store_refines_map_witness :
  settled db_step1 /\ represents alice (disk db_step1) (applied (map_of st_signed []) to_step1).
Proof.
  pose proof history_signed as Hh. destruct (history_represents (H:=toy) toy_digest_range toy_aggregate_range _ _ _ _ Hh) as (Hs & Hhost & HA).
  destruct (run_call no_faults to_step1 db_signed) as [r db'] eqn:Hr.
  assert (is_ok r = true) as Hok by (change r with (r, db').1; rewrite <- Hr; vm_compute; reflexivity).
  pose proof (store_refines_map (H:=toy) no_faults to_step1 db_signed (map_of st_signed []) r db' toy_digest_range toy_aggregate_range Hs) as Ht.
  rewrite Hhost in Ht. destruct (Ht HA (allowed_persist _ _ _ _ _ computed_step1) Hr) as [_ H2]. destruct r as [u| |]; [|done..].
  unfold db_step1, run. by rewrite Hr.
Defined.

Lemma store_reads_back_witness :
  load_execution alice (view db_step1) 9 = Ok (Some st_step1) /\ load_agreed_trace (view db_step1) st_step1 = Ok (take 1 trace0).
Proof.
  destruct (store_reads_back (H:=toy) alice dir0 db_step1 (map_of st_step1 (take 1 trace0)) 9 toy_digest_range toy_aggregate_range history_step1
    ltac:(vm_compute; reflexivity)) as [Hl Ht].
  split; [exact Hl|]. by apply (Ht st_step1 (take 1 trace0)).
Defined.

Lemma store_always_opens_witness : validate_database alice (disk db_step1) = Ok tt.
Proof. exact (store_always_opens (H:=toy) alice dir0 db_step1 _ toy_digest_range toy_aggregate_range history_step1). Defined.

Lemma allowed_again : allowed (map_of st_step1 (take 1 trace0)) (CallPrepare 9 prepared0 8).
Proof. split; [exact prepared0_cwf|done]. Qed.

(** A repeated preparation answers with the record it finds. *)
Lemma activation_evidence_final_witness :
  exists e', load_activation (disk (run (CallPrepare 9 prepared0 8) db_step1)) 9 = Ok (Some e') /\
    rec_prepared e' = prepared0 /\ (is_Some (Some activation0) -> rec_committed e' = Some activation0).
Proof.
  destruct (run_call no_faults (CallPrepare 9 prepared0 8) db_step1) as [r db'] eqn:Hr. unfold run. rewrite Hr.
  exact (activation_evidence_final (H:=toy) alice dir0 no_faults (CallPrepare 9 prepared0 8) db_step1 _ r db' 9
    (MkActivationRecord 9 prepared0 (Some activation0) 4) toy_digest_range toy_aggregate_range history_step1
    allowed_again Hr ltac:(vm_compute; reflexivity)).
Defined.

(** Two signatures computed from the same version: the second is refused. *)
Lemma one_writer_per_version_witness :
  (persist no_faults 9 (transition st_signed st_step1 ChState) db_step1).1 <> Ok tt /\
  disk (persist no_faults 9 (transition st_signed st_step1 ChState) db_step1).2 = disk db_step1.
Proof.
  assert (is_ok (persist no_faults 9 (transition st_signed st_step1 (ChStepSignature proposal1)) db_signed).1 = true) as Hok
    by (vm_compute; reflexivity).
  destruct (persist no_faults 9 (transition st_signed st_step1 (ChStepSignature proposal1)) db_signed) as [[[]| |] db1] eqn:H1;
    [|done..].
  assert (db_step1 = db1) as -> by (unfold db_step1, run, to_step1; cbn [run_call]; by rewrite H1).
  destruct (persist no_faults 9 (transition st_signed st_step1 ChState) db1) as [x db2] eqn:H2.
  destruct (one_writer_per_version (H:=toy) alice dir0 no_faults no_faults db_signed (map_of st_signed []) db1 db2 9 st_signed []
    (transition st_signed st_step1 (ChStepSignature proposal1)) (transition st_signed st_step1 ChState) (take 1 trace0) x
    toy_digest_range toy_aggregate_range history_signed (lookup_singleton_eq _ _) computed_step1 ltac:(done) H1 eq_refl H2) as [Hx Hdk].
  split; [apply Hx|exact Hdk].
Defined.
End Example.
