(* ===== verification/Ballots.v ===== *)
(** * Turns, ballots and agreements (arena0-primitives/src/)

    The coordination primitives a guest program embeds in its shared state:
    [turn_manager.rs], [ballot.rs] and [agreement.rs].  Every host runs them on
    the same agreed messages, so their results must depend on those messages
    only.  Arithmetic on [u16] and [u32] panics where it would overflow; the
    theorems show that it never does. *)

From S2P Require Import Prelude Borsh Crypto Session Fixture.

Unset Program Cases.

(** ** Machine arithmetic of the guests *)

(** [x as u16]. *)
Definition as_u16 (x : Z) : Z := x mod 2 ^ 16.
(** [x + y] and [x - y] with overflow checks. *)
Definition add_w {E} (max x y : Z) : result E Z := if x + y <=? max then Ok (x + y) else Panic.
Definition sub_w {E} (x y : Z) : result E Z := if y <=? x then Ok (x - y) else Panic.

(** A participant is a byte. *)
Definition participant_typed (p : Participant) : Prop := 0 <= p_index p <= u8_max.

(** ** Round-robin turns *)

Module Turn.

Record TurnManager := MkTurns { participants : list Participant; current_index : Z }.

(** [TurnManager::new]: [assert!]s a nonempty list of distinct participants. *)
Definition turns_new {E} (ps : list Participant) : result E TurnManager :=
  if (length ps =? 0)%nat then Panic else
  match first_dup [] (map p_index ps) with
  | Some _ => Panic
  | None => Ok (MkTurns ps 0)
  end.

Definition current {E} (t : TurnManager) : result E Participant :=
  expect (participants t !! Z.to_nat (current_index t)).

Definition is_current {E} (t : TurnManager) (p : Participant) : result E bool :=
  let? c := current t in Ok (bool_decide (c = p)).

Definition advance {E} : M TurnManager E unit :=
  let! n := sread (fun t => if (length (participants t) =? 0)%nat then Panic
                            else if u32_max <? zlen (participants t) then Panic
                            else Ok (zlen (participants t))) in
  let! next := sread (fun t => add_w u32_max (current_index t) 1) in
  smodify (fun t => MkTurns (participants t) (next mod n)).

Definition index_of (t : TurnManager) (p : Participant) : option nat :=
  position (fun q => bool_decide (q = p)) (participants t).

(** [n] turns. *)
Fixpoint turns {E} (n : nat) : M TurnManager E unit :=
  match n with O => sret tt | S n => turns n ;;! advance end.

(** The turn list fits the index type and the index is inside it. *)
Definition turns_ok (t : TurnManager) : Prop :=
  NoDup (participants t) /\ zlen (participants t) <= u8_max + 1 /\
  0 <= current_index t < zlen (participants t).

#[global] Instance p_index_inj : Inj (=) (=) p_index.
Proof. intros [x] [y]. simpl. by intros ->. Qed.

Lemma NoDup_indices ps : NoDup (map p_index ps) <-> NoDup ps.
Proof. split; [apply NoDup_fmap_1|apply NoDup_fmap_2, _]. Qed.

Lemma distinct_bytes_count ps :
  NoDup ps -> Forall participant_typed ps -> zlen ps <= u8_max + 1.
Proof.
  intros Hn%NoDup_indices Hf. assert (map p_index ps ⊆+ seqZ 0 (u8_max + 1)) as Hs.
  { apply NoDup_submseteq; [done|]. intros z (q & -> & Hq)%list_elem_of_fmap. rewrite Forall_forall in Hf.
    specialize (Hf q Hq). unfold participant_typed in Hf. apply elem_of_seqZ. lia. }
  apply submseteq_length in Hs. rewrite length_map, length_seqZ in Hs. unfold zlen, u8_max in *. lia.
Qed.

Lemma turns_new_ok {E} ps t :
  Forall participant_typed ps -> turns_new (E:=E) ps = Ok t -> turns_ok t /\ t = MkTurns ps 0.
Proof.
  unfold turns_new. intros Hf. destruct ps as [|p ps]; [done|]. cbn [length Nat.eqb].
  destruct (first_dup _ _) eqn:Hd; [done|]. intros [= <-].
  apply first_dup_NoDup, NoDup_indices in Hd.
  split; [|done]. split; [done|]. split; [by apply distinct_bytes_count|]. cbn [participants current_index].
  rewrite zlen_cons. pose proof (zlen_nonneg ps). lia.
Qed.

Lemma advance_eval {E} t : turns_ok t ->
  advance (E:=E) t = (Ok tt, MkTurns (participants t) ((current_index t + 1) mod zlen (participants t))).
Proof.
  intros (_ & Hl & Hc). unfold advance, sbind, sread, smodify. unfold u8_max, add_w, u32_max in *.
  destruct (length (participants t) =? 0)%nat eqn:E0; [apply Nat.eqb_eq in E0; unfold zlen in *; lia|].
  rewrite (proj2 (Z.ltb_ge _ _)) by lia. by rewrite (proj2 (Z.leb_le _ _)) by lia.
Qed.

Lemma turns_eval {E} n t : turns_ok t ->
  turns (E:=E) n t =
    (Ok tt, MkTurns (participants t) ((current_index t + Z.of_nat n) mod zlen (participants t))).
Proof.
  intros Ht. pose proof Ht as (Hn & Hl & Hc). induction n as [|n IH]; cbn [turns].
  - rewrite Z.add_0_r, Z.mod_small by done. by destruct t.
  - unfold sbind. rewrite IH. rewrite advance_eval.
    + cbn [participants current_index]. rewrite Zplus_mod_idemp_l. do 3 f_equal. lia.
    + split; [done|]. split; [done|]. cbn [participants current_index]. apply Z.mod_pos_bound. lia.
Qed.

Lemma current_at {E} t i p : turns_ok t -> participants t !! i = Some p ->
  forall k, current (E:=E) (MkTurns (participants t) (k mod zlen (participants t))) = Ok p <->
            k mod zlen (participants t) = Z.of_nat i.
Proof.
  intros (Hn & _ & Hc) Hi k. unfold current. rewrite expect_Ok. cbn [participants current_index].
  pose proof (Z.mod_pos_bound k (zlen (participants t))). split.
  - intros Hk. pose proof (NoDup_lookup _ _ _ _ Hn Hi Hk). lia.
  - intros ->. by rewrite Nat2Z.id.
Qed.

(** Turns are fair: a manager built from any valid participant list never
    panics, and in every window of as many turns as there are participants, each
    participant has the turn exactly once. *)
Theorem turns_are_fair ps t m p :
  Forall participant_typed ps -> turns_new (E:=unit) ps = Ok t -> p ∈ ps ->
  exists k, (k < length ps)%nat /\
    forall j, (j < length ps)%nat ->
      exists t', turns (E:=unit) (m + j) t = (Ok tt, t') /\ (current (E:=unit) t' = Ok p <-> j = k).
Proof.
  intros Hf (Ht & ->)%turns_new_ok Hp; [|done].
  apply list_elem_of_lookup in Hp as [i Hi]. pose proof (lookup_lt_Some _ _ _ Hi) as Hlt.
  set (n := zlen ps). assert (Z.of_nat (length ps) = n) as Hn by done.
  exists (Z.to_nat ((Z.of_nat i - Z.of_nat m) mod n)).
  pose proof (Z.mod_pos_bound (Z.of_nat i - Z.of_nat m) n).
  split; [lia|]. intros j Hj. eexists. split; [by apply turns_eval|].
  rewrite (current_at _ i p Ht Hi). cbn [participants current_index]. fold n.
  pose proof (Z.div_mod (Z.of_nat i - Z.of_nat m) n).
  pose proof (Z.div_mod (0 + Z.of_nat (m + j)) n).
  pose proof (Z.mod_pos_bound (0 + Z.of_nat (m + j)) n).
  set (q1 := (Z.of_nat i - Z.of_nat m) / n) in *. set (q2 := (0 + Z.of_nat (m + j)) / n) in *.
  set (r1 := (Z.of_nat i - Z.of_nat m) mod n) in *. set (r2 := (0 + Z.of_nat (m + j)) mod n) in *.
  split; intros Hr.
  - assert (n * (q1 + q2) = Z.of_nat j - r1) by nia. assert (q1 + q2 = 0) by nia. nia.
  - assert (Z.of_nat j = r1) by lia. assert (n * (q1 + q2) = Z.of_nat i - r2) by nia.
    assert (q1 + q2 = 0) by nia. nia.
Qed.

Lemma turns_are_fair_witness :
  exists k, (k < 3)%nat /\
    forall j, (j < 3)%nat ->
      exists t', turns (E:=unit) (2 + j) (MkTurns [MkParticipant 1; MkParticipant 2; MkParticipant 3] 0) = (Ok tt, t') /\
        (current (E:=unit) t' = Ok (MkParticipant 2) <-> j = k).
Proof.
  refine (turns_are_fair [MkParticipant 1; MkParticipant 2; MkParticipant 3] _ 2 (MkParticipant 2) _ eq_refl _).
  - repeat constructor; done.
  - right. left.
Defined.

End Turn.

(** ** Ballots *)

Module Ballot.

Record ProposalId := MkProposalId { pid_version : Z; pid_hash : Z }.
#[global] Instance ProposalId_eq_dec : EqDecision ProposalId.
Proof. solve_decision. Defined.

Inductive Vote := Accept | Reject.
#[global] Instance Vote_eq_dec : EqDecision Vote.
Proof. solve_decision. Defined.

Inductive Tally :=
| NotStarted
| Pending (accepts rejects remaining threshold : Z)
| Accepted (accepts rejects threshold : Z)
| Rejected (accepts rejects threshold : Z).

Inductive Error :=
| NoEligibleParticipants
| DuplicateParticipant (index : Z)
| InvalidThreshold (threshold eligible : Z)
| InvalidProposalVersion
| ENotStarted
| IneligibleParticipant (index : Z)
| DuplicateVote (index : Z)
| Closed.

Record Ballot := MkBallot {
  proposal : option ProposalId;
  eligible : list Participant;
  votes : list (option Vote);
  threshold : Z }.

Definition ballot_default : Ballot := MkBallot None [] [] 0.
Definition set_votes (b : Ballot) (v : list (option Vote)) : Ballot :=
  MkBallot (proposal b) (eligible b) v (threshold b).

Definition ballot_new (p : ProposalId) (el : list Participant) (th : Z) : result Error Ballot :=
  if pid_version p =? 0 then Err InvalidProposalVersion else
  if (length el =? 0)%nat then Err NoEligibleParticipants else
  let el := sort_key p_index el in
  match find_by (fun '(x, y) => bool_decide (x = y)) (windows2 el) with
  | Some (x, _) => Err (DuplicateParticipant (p_index x))
  | None =>
      if (th =? 0) || (zlen el <? th) then Err (InvalidThreshold th (zlen el)) else
      Ok (MkBallot (Some p) el (replicate (length el) None) th)
  end.

(** [iter().filter(..).count()]. *)
Definition count (v : Vote) (l : list (option Vote)) : Z := zlen (filter (fun o => o = Some v) l).

Definition tally {E} (b : Ballot) : result E Tally :=
  match proposal b with
  | None => Ok NotStarted
  | Some _ =>
      let accepts := as_u16 (count Accept (votes b)) in
      let rejects := as_u16 (count Reject (votes b)) in
      let? uncast := sub_w (as_u16 (zlen (eligible b))) accepts in
      let? remaining := sub_w uncast rejects in
      if threshold b <=? accepts then Ok (Accepted accepts rejects (threshold b)) else
      let? reachable := add_w u16_max accepts remaining in
      if reachable <? threshold b then Ok (Rejected accepts rejects (threshold b))
      else Ok (Pending accepts rejects remaining (threshold b))
  end.

Definition slot (b : Ballot) (p : Participant) : option nat :=
  binary_search_by_key p_index (eligible b) (p_index p).

Definition vote_of (b : Ballot) (p : Participant) : option Vote :=
  i ← slot b p; mjoin (votes b !! i).

Definition is_pending (t : Tally) : bool := match t with Pending _ _ _ _ => true | _ => false end.

Definition next_voter {E} (b : Ballot) : result E (option Participant) :=
  let? t := tally b in
  Ok (if is_pending t
      then i ← position (fun o => bool_decide (o = None)) (votes b); eligible b !! i
      else None).

Definition cast (p : Participant) (v : Vote) : M Ballot Error Tally :=
  let! _ := sread (fun b => err_if (bool_decide (proposal b = None)) ENotStarted) in
  let! t := sread tally in
  let! _ := sread (fun _ => err_if (negb (is_pending t)) Closed) in
  let! i := sread (fun b => ok_or (slot b p) (IneligibleParticipant (p_index p))) in
  let! old := sread (fun b => expect (votes b !! i)) in
  let! _ := sread (fun _ => err_if (bool_decide (is_Some old)) (DuplicateVote (p_index p))) in
  smodify (fun b => set_votes b (<[i := Some v]> (votes b))) ;;!
  sread tally.

(** A sequence of votes, each of which must be accepted. *)
Fixpoint cast_all (l : list (Participant * Vote)) : M Ballot Error unit :=
  match l with
  | [] => sret tt
  | (p, v) :: l => cast p v ;;! cast_all l
  end.

(** Votes as they are delivered: one that is refused changes nothing. *)
Definition deliver (b : Ballot) (l : list (Participant * Vote)) : Ballot :=
  foldl (fun b pv => (cast pv.1 pv.2 b).2) b l.

(** *** The reference tally *)

(** On a full ballot the threshold decides. *)
Definition verdict (th : Z) (l : list (option Vote)) : Vote :=
  if th <=? count Accept l then Accept else Reject.
Definition complete (l : list (option Vote)) : Prop := None ∉ l.
(** [l'] keeps every vote of [l] and may add some. *)
Definition extends (l l' : list (option Vote)) : Prop := Forall2 (fun o o' => o = None \/ o = o') l l'.
Definition uncast (l : list (option Vote)) : Z := zlen (filter (fun o => o = None) l).
(** Every open slot filled with one vote. *)
Definition fill (v : Vote) (l : list (option Vote)) : list (option Vote) := (fun o => Some (default v o)) <$> l.

Record ballot_ok (b : Ballot) : Prop := {
  bo_started : proposal b <> None;
  bo_sorted : StronglySorted (key_lt p_index) (eligible b);
  bo_typed : Forall participant_typed (eligible b);
  bo_slots : length (votes b) = length (eligible b);
  bo_threshold : 1 <= threshold b <= zlen (eligible b) }.

Lemma count_cons v o l : count v (o :: l) = (if bool_decide (o = Some v) then 1 else 0) + count v l.
Proof. unfold count. rewrite filter_cons. case_decide; case_bool_decide; try done. by rewrite zlen_cons. Qed.
Lemma uncast_cons o l : uncast (o :: l) = (if bool_decide (o = None) then 1 else 0) + uncast l.
Proof. unfold uncast. rewrite filter_cons. case_decide; case_bool_decide; try done. by rewrite zlen_cons. Qed.
Lemma count_nonneg v l : 0 <= count v l.
Proof. apply zlen_nonneg. Qed.

Lemma count_total l : count Accept l + count Reject l + uncast l = zlen l.
Proof.
  induction l as [|[[]|] l IH]; [done|..];
    rewrite !count_cons, uncast_cons, zlen_cons; repeat case_bool_decide; try done; lia.
Qed.

Lemma extends_count l l' v : extends l l' -> count v l <= count v l'.
Proof.
  induction 1 as [|o o' l l' Ho _ IH]; [done|]. rewrite !count_cons.
  destruct Ho as [->| ->]; [|lia]. rewrite bool_decide_eq_false_2 by done. case_bool_decide; lia.
Qed.
Lemma extends_length l l' : extends l l' -> zlen l = zlen l'.
Proof. intros Hl%Forall2_length. by unfold zlen; rewrite Hl. Qed.
Lemma extends_refl l : extends l l.
Proof. induction l; constructor; auto. Qed.

Lemma complete_uncast l : complete l <-> uncast l = 0.
Proof.
  unfold complete, uncast. rewrite zlen_0. split.
  - intros Hn. destruct (filter _ l) as [|o k] eqn:Ef; [done|]. destruct Hn.
    assert (o ∈ filter (fun o => o = None) l) as Hin by (rewrite Ef; by left).
    by apply list_elem_of_filter in Hin as [-> ?].
  - intros Hf Hn. assert (None ∈ filter (fun o => o = None) l) as Hin by (by apply list_elem_of_filter).
    rewrite Hf in Hin. by apply not_elem_of_nil in Hin.
Qed.

Lemma fill_extends v l : extends l (fill v l).
Proof. induction l as [|[] l IH]; constructor; auto. Qed.
Lemma fill_complete v l : complete (fill v l).
Proof. intros (o & Ho & _)%list_elem_of_fmap. done. Qed.
Lemma fill_accept l : count Accept (fill Accept l) = count Accept l + uncast l.
Proof.
  induction l as [|[[]|] l IH]; [done|..]; cbn [fill fmap list_fmap default from_option];
    rewrite !count_cons, uncast_cons; fold (fill Accept l); repeat case_bool_decide; try done; lia.
Qed.
Lemma fill_reject l : count Accept (fill Reject l) = count Accept l.
Proof.
  induction l as [|[[]|] l IH]; [done|..]; cbn [fill fmap list_fmap default from_option];
    rewrite !count_cons; fold (fill Reject l); repeat case_bool_decide; try done; lia.
Qed.

(** *** The tally of a well-formed ballot *)

Lemma ballot_size b : ballot_ok b -> 1 <= zlen (eligible b) <= 256 /\ zlen (votes b) = zlen (eligible b).
Proof.
  intros [_ Hs Ht Hl Hth]. split.
  - split; [lia|]. apply (Turn.distinct_bytes_count (eligible b)); [|done].
    by apply Turn.NoDup_indices, strict_sorted_fmap_NoDup.
  - unfold zlen. by rewrite Hl.
Qed.

(** The arithmetic of [tally] never wraps and never panics. *)
Lemma tally_eval {E} b : ballot_ok b ->
  tally (E:=E) b =
    let a := count Accept (votes b) in let r := count Reject (votes b) in let u := uncast (votes b) in
    Ok (if threshold b <=? a then Accepted a r (threshold b)
        else if a + u <? threshold b then Rejected a r (threshold b) else Pending a r u (threshold b)).
Proof.
  intros Hb. pose proof (ballot_size b Hb) as [Hsz Hv]. pose proof (bo_started b Hb).
  pose proof (count_total (votes b)) as Ht. unfold tally.
  pose proof (count_nonneg Accept (votes b)). pose proof (count_nonneg Reject (votes b)).
  assert (0 <= uncast (votes b)) by apply zlen_nonneg.
  destruct (proposal b); [|done]. unfold as_u16, sub_w, add_w, u16_max. rewrite !Z.mod_small by lia.
  rewrite (proj2 (Z.leb_le _ _)) by lia. cbn [rbind]. rewrite (proj2 (Z.leb_le _ _)) by lia. cbn [rbind].
  replace (zlen (eligible b) - _ - _) with (uncast (votes b)) by lia.
  destruct (threshold b <=? _); [done|].
  rewrite (proj2 (Z.leb_le _ _)) by lia. cbn [rbind]. by destruct (_ <? threshold b).
Qed.

(** What a tally says about every completion of the ballot. *)
Definition tally_means (b : Ballot) (t : Tally) : Prop :=
  let a := count Accept (votes b) in let r := count Reject (votes b) in
  match t with
  | NotStarted => False
  | Accepted a' r' th => a' = a /\ r' = r /\ th = threshold b /\
      forall l, extends (votes b) l -> complete l -> verdict th l = Accept
  | Rejected a' r' th => a' = a /\ r' = r /\ th = threshold b /\
      forall l, extends (votes b) l -> complete l -> verdict th l = Reject
  | Pending a' r' u th => a' = a /\ r' = r /\ th = threshold b /\ u = uncast (votes b) /\
      forall v, exists l, extends (votes b) l /\ complete l /\ verdict th l = v
  end.

Lemma tally_exact {E} b : ballot_ok b -> exists t, tally (E:=E) b = Ok t /\ tally_means b t.
Proof.
  intros Hb. eexists. split; [by apply tally_eval|]. cbv zeta.
  destruct (threshold b <=? _) eqn:E1; [|destruct (_ <? threshold b) eqn:E2]; unfold tally_means.
  - split_and!; [done..|]. intros l Hl _. unfold verdict. apply Z.leb_le in E1.
    pose proof (extends_count _ _ Accept Hl). by rewrite (proj2 (Z.leb_le _ _)) by lia.
  - split_and!; [done..|]. intros l Hl Hc%complete_uncast. unfold verdict. apply Z.ltb_lt in E2.
    pose proof (extends_count _ _ Reject Hl). pose proof (extends_length _ _ Hl).
    pose proof (count_total l). pose proof (count_total (votes b)).
    by rewrite (proj2 (Z.leb_gt _ _)) by lia.
  - split_and!; [done..|]. apply Z.leb_gt in E1. apply Z.ltb_ge in E2.
    intros v. exists (fill v (votes b)). split_and!; [apply fill_extends|apply fill_complete|].
    destruct v; unfold verdict; [rewrite fill_accept|rewrite fill_reject].
    + by rewrite (proj2 (Z.leb_le _ _)) by lia.
    + by rewrite (proj2 (Z.leb_gt _ _)) by lia.
Qed.

(** A full ballot is decided. *)
Lemma complete_decided b t :
  ballot_ok b -> complete (votes b) -> tally (E:=Error) b = Ok t -> is_pending t = false.
Proof.
  intros Hb Hc%complete_uncast Ht. rewrite tally_eval in Ht by done. cbv zeta in Ht. rewrite Hc in Ht.
  injection Ht as <-. destruct (threshold b <=? _) eqn:E1; [done|].
  by rewrite (proj2 (Z.ltb_lt _ _)) by lia.
Qed.

(** *** Casting *)

Lemma slot_Some b p i : ballot_ok b -> slot b p = Some i <-> eligible b !! i = Some p.
Proof.
  intros Hb. unfold slot. rewrite binary_search_Some by apply Hb. split.
  - intros (q & Hq & E). apply Turn.p_index_inj in E. by subst.
  - eauto.
Qed.

Lemma adjacent_distinct l :
  StronglySorted (key_le p_index) l ->
  find_by (fun '(x, y) => bool_decide (x = y)) (windows2 l) = None -> StronglySorted (key_lt p_index) l.
Proof.
  induction 1 as [|x l Hl IH Hx]; [constructor|]. destruct l as [|y l]; [by repeat constructor|].
  change (windows2 (x :: y :: l)) with ((x, y) :: windows2 (y :: l)). unfold find_by. cbn [List.find].
  case_bool_decide as Hxy; [done|]. intros Hf. specialize (IH Hf). constructor; [done|].
  assert (p_index x < p_index y) as Hlt.
  { apply Forall_cons in Hx as [Hle _]. unfold key_le in Hle. assert (p_index x <> p_index y); [|lia].
    intros E. apply Hxy. by apply Turn.p_index_inj. }
  apply StronglySorted_inv in IH as [_ Hy]. constructor; [done|].
  eapply Forall_impl; [exact Hy|]. unfold key_lt. intros z. lia.
Qed.

Lemma ballot_new_ok pid el th b :
  Forall participant_typed el -> 0 <= th -> ballot_new pid el th = Ok b ->
  ballot_ok b /\ eligible b ≡ₚ el /\ threshold b = th /\
  votes b = replicate (length el) None.
Proof.
  intros Hf H0. unfold ballot_new. destruct (pid_version pid =? 0); [done|].
  destruct (length el =? 0)%nat; [done|]. cbv zeta.
  pose proof (sort_key_Permutation p_index el) as Hp. pose proof (sort_key_sorted p_index el) as Hs.
  set (el' := sort_key p_index el) in *.
  destruct (find_by _ _) as [[x y]|] eqn:Hd; [done|].
  destruct ((th =? 0) || (zlen el' <? th)) eqn:Hth; [done|]. intros [= <-]. apply orb_false_iff in Hth as [H1 H2].
  assert (length el' = length el) as Hlen by (by rewrite Hp).
  split; [|split_and!; [done|done|by rewrite <- Hlen]].
  split; cbn [proposal eligible votes threshold].
  - done.
  - by apply adjacent_distinct.
  - by rewrite Hp.
  - by rewrite length_replicate.
  - lia.
Qed.

Lemma set_votes_ok b i v : ballot_ok b -> ballot_ok (set_votes b (<[i := Some v]> (votes b))).
Proof.
  intros [H1 H2 H3 H4 H5]. split; try done. cbn [set_votes votes eligible]. by rewrite length_insert.
Qed.

(** Each branch of [cast] on a well-formed ballot. *)
Lemma cast_eval b p v : ballot_ok b ->
  cast p v b =
    match tally (E:=Error) b with
    | Ok (Pending _ _ _ _) =>
        match slot b p with
        | None => (Err (IneligibleParticipant (p_index p)), b)
        | Some i =>
            match votes b !! i with
            | Some None =>
                let b' := set_votes b (<[i := Some v]> (votes b)) in (tally b', b')
            | _ => (Err (DuplicateVote (p_index p)), b)
            end
        end
    | _ => (Err Closed, b)
    end.
Proof.
  intros Hb. unfold cast, sbind, sread, smodify. rewrite bool_decide_eq_false_2 by apply Hb. cbn [err_if].
  destruct (tally_exact (E:=Error) b Hb) as (t & Ht & Hm). rewrite Ht.
  destruct t; cbn [is_pending negb err_if]; try done.
  destruct (slot b p) as [i|] eqn:Hs; cbn [ok_or]; [|done].
  apply slot_Some in Hs; [|done]. apply lookup_lt_Some in Hs. rewrite <- (bo_slots b Hb) in Hs.
  apply lookup_lt_is_Some in Hs as [o Ho]. rewrite Ho. cbn [expect].
  destruct o as [w|]; [by rewrite bool_decide_eq_true_2|by rewrite bool_decide_eq_false_2 by (by intros [? ?])].
Qed.

(** *** Delivery order *)

Definition closed (b : Ballot) : Prop := exists t, tally (E:=Error) b = Ok t /\ is_pending t = false.

Lemma closed_cast b p v : ballot_ok b -> closed b -> (cast p v b).2 = b.
Proof. intros Hb (t & Ht & Hp). rewrite cast_eval by done. rewrite Ht. by destruct t. Qed.
Lemma closed_deliver b l : ballot_ok b -> closed b -> deliver b l = b.
Proof.
  intros Hb Hc. unfold deliver. induction l as [|[p v] l IH]; [done|]. cbn [foldl fst snd].
  by rewrite closed_cast.
Qed.

Lemma extends_insert l F i v :
  extends l F -> l !! i = Some None -> F !! i = Some (Some v) ->
  extends l (<[i := Some v]> l) /\ extends (<[i := Some v]> l) F.
Proof.
  intros He Hl HF. split.
  - rewrite <- (list_insert_id l i None Hl) at 1. apply Forall2_insert; [apply extends_refl|by left].
  - rewrite <- (list_insert_id F i (Some v) HF). apply Forall2_insert; [done|by right].
Qed.

Lemma extends_trans l1 l2 l3 : extends l1 l2 -> extends l2 l3 -> extends l1 l3.
Proof.
  intros H1. revert l3. induction H1 as [|a b k1 k2 Hab _ IH]; intros l3 H3; [done|].
  apply Forall2_cons_inv_l in H3 as (c & k3 & Hbc & H3 & ->). constructor; [|by apply IH].
  destruct Hab as [->| ->]; [by left|done].
Qed.
Lemma extends_keeps l l' i o : extends l l' -> l !! i = Some (Some o) -> l' !! i = Some (Some o).
Proof.
  intros He Hi. destruct (Forall2_lookup_l _ _ _ _ _ He Hi) as (o' & Ho & [E|E]); [done|]. by rewrite E.
Qed.

(** One delivery keeps the ballot below the full vote [F], and afterwards the
    ballot is closed or holds the voter's vote. *)
Lemma deliver_one b p v F :
  ballot_ok b -> extends (votes b) F -> (forall i, eligible b !! i = Some p -> F !! i = Some (Some v)) ->
  let b' := (cast p v b).2 in
  ballot_ok b' /\ eligible b' = eligible b /\ threshold b' = threshold b /\
  extends (votes b) (votes b') /\ extends (votes b') F /\
  (closed b' \/ forall i, eligible b !! i = Some p -> votes b' !! i <> Some None).
Proof.
  intros Hb He HF. cbv zeta. rewrite cast_eval by done.
  destruct (tally_exact (E:=Error) b Hb) as (t & Ht & _). rewrite Ht.
  destruct t as [|a r u th|a r th|a r th]; cbn [snd];
    try (split_and!; try done; [apply extends_refl|left; by eexists]).
  destruct (slot b p) as [i|] eqn:Hs.
  - apply slot_Some in Hs; [|done].
    assert (forall j, eligible b !! j = Some p -> j = i) as Hj.
    { intros j Hj. apply slot_Some in Hj, Hs; try done. congruence. }
    destruct (votes b !! i) as [[w|]|] eqn:Ho; cbn [snd].
    + split_and!; try done; [apply extends_refl|]. right. intros j ->%Hj. by rewrite Ho.
    + destruct (extends_insert _ _ i v He Ho (HF i Hs)).
      split_and!; try done; [by apply set_votes_ok|]. right. intros j ->%Hj. cbn [set_votes votes].
      rewrite list_lookup_insert_eq by (by eapply lookup_lt_Some). done.
    + split_and!; try done; [apply extends_refl|]. right. intros j ->%Hj. by rewrite Ho.
  - cbn [snd]. split_and!; try done; [apply extends_refl|]. right. intros i Hi.
    apply slot_Some in Hi; [|done]. congruence.
Qed.

Lemma deliver_all l b F :
  ballot_ok b -> extends (votes b) F ->
  (forall p v i, (p, v) ∈ l -> eligible b !! i = Some p -> F !! i = Some (Some v)) ->
  let b' := deliver b l in
  ballot_ok b' /\ eligible b' = eligible b /\ threshold b' = threshold b /\
  extends (votes b) (votes b') /\ extends (votes b') F /\
  (closed b' \/ forall p v i, (p, v) ∈ l -> eligible b !! i = Some p -> votes b' !! i <> Some None).
Proof.
  revert b. induction l as [|[p v] l IH]; intros b Hb He HF; cbn [deliver foldl fst snd].
  { split_and!; try done; [apply extends_refl|]. right. by intros p v i ?%elem_of_nil. }
  destruct (deliver_one b p v F Hb He) as (Hb1 & E1 & T1 & X1 & F1 & C1).
  { intros i Hi. eapply HF; [by left|done]. }
  set (b1 := (cast p v b).2) in *.
  destruct (IH b1 Hb1 F1) as (Hb2 & E2 & T2 & X2 & F2 & C2).
  { intros q w i Hq Hi. rewrite E1 in Hi. eapply HF; [by right|done]. }
  fold (deliver b1 l). split_and!; [done|congruence|congruence|by eapply extends_trans|done|].
  destruct C1 as [C1|C1]; [left; by rewrite closed_deliver|].
  destruct C2 as [C2|C2]; [by left|right]. intros q w i [[= -> ->]|Hq]%elem_of_cons Hi.
  - specialize (C1 i Hi). pose proof Hi as Hlt. apply lookup_lt_Some in Hlt.
    rewrite <- E1, <- (bo_slots b1 Hb1) in Hlt. apply lookup_lt_is_Some in Hlt as [[o|] Ho]; [|done].
    by rewrite (extends_keeps _ _ _ _ X2 Ho).
  - eapply C2; [done|by rewrite E1].
Qed.

(** The vote of [p] in a list of votes. *)
Definition chosen (l : list (Participant * Vote)) (p : Participant) : option Vote :=
  snd <$> find_by (fun x => bool_decide (x.1 = p)) l.
Definition accepts (l : list (Participant * Vote)) : Z := count Accept (Some <$> l.*2).

Lemma chosen_elem l p v : NoDup l.*1 -> (p, v) ∈ l -> chosen l p = Some v.
Proof.
  unfold chosen, find_by. induction l as [|[q w] l IH]; intros Hn Hin; [by apply elem_of_nil in Hin|].
  apply NoDup_cons in Hn as [Hq Hn]. cbn [List.find fst]. case_bool_decide as E; subst.
  - apply elem_of_cons in Hin as [[= ->]|Hin]; [done|]. destruct Hq. by apply (list_elem_of_fmap_2 fst _ (p, v)).
  - apply elem_of_cons in Hin as [[= -> ->]|Hin]; [done|]. by apply IH.
Qed.

Lemma chosen_votes l : NoDup l.*1 -> chosen l <$> l.*1 = Some <$> l.*2.
Proof.
  intros Hn. rewrite <- !list_fmap_compose. apply list_fmap_ext. intros i [p v] Hi. simpl.
  apply chosen_elem; [done|]. by eapply list_elem_of_lookup_2.
Qed.

Lemma count_Permutation v l l' : l ≡ₚ l' -> count v l = count v l'.
Proof. intros Hp. apply zlen_Permutation. by rewrite Hp. Qed.

Lemma deliver_decides pid el th b l :
  Forall participant_typed el -> 0 <= th -> ballot_new pid el th = Ok b -> NoDup l.*1 -> l.*1 ≡ₚ el ->
  exists t, tally (E:=Error) (deliver b l) = Ok t /\
    match t with
    | Accepted _ _ _ => th <= accepts l
    | Rejected _ _ _ => accepts l < th
    | _ => False
    end.
Proof.
  intros Hf H0 Hnew Hn Hp. apply ballot_new_ok in Hnew as (Hb & Hel & Hth & Hv); [|done..].
  set (F := chosen l <$> eligible b).
  assert (eligible b ≡ₚ l.*1) as Hperm by (by rewrite Hp).
  assert (F ≡ₚ Some <$> l.*2) as HF by (unfold F; rewrite Hperm; by rewrite chosen_votes).
  assert (complete F) as Hc.
  { unfold complete. rewrite HF. by intros (v & ? & _)%list_elem_of_fmap. }
  destruct (deliver_all l b F Hb) as (Hb' & E & T & X & XF & C).
  { apply Forall2_lookup. intros i. rewrite Hv. unfold F. rewrite list_lookup_fmap.
    assert (length (eligible b) = length el) as Hlen by (by rewrite Hel).
    destruct (decide (i < length el)%nat) as [Hi|Hi].
    - rewrite lookup_replicate_2 by done. destruct (eligible b !! i) eqn:Ei; [constructor; by left|].
      apply lookup_ge_None in Ei. lia.
    - rewrite lookup_ge_None_2 by (rewrite length_replicate; lia). rewrite (lookup_ge_None_2 (eligible b)) by lia. constructor. }
  { intros p v i Hin Hi. unfold F. rewrite list_lookup_fmap, Hi. simpl. by rewrite (chosen_elem _ _ v). }
  destruct (tally_exact (E:=Error) _ Hb') as (t & Ht & Hm). exists t. split; [done|].
  assert (is_pending t = false) as Hnp.
  { destruct C as [(t' & Ht' & ?)|C]; [congruence|]. destruct (is_pending t) eqn:Hpt; [exfalso|done].
    assert (complete (votes (deliver b l))) as Hcv.
    { intros [i Hi]%list_elem_of_lookup. pose proof (lookup_lt_Some _ _ _ Hi) as Hlt.
      rewrite (bo_slots _ Hb'), E in Hlt. apply lookup_lt_is_Some in Hlt as [p Hpi].
      assert (p ∈ l.*1) as ([? v] & -> & Hin)%list_elem_of_fmap.
      { rewrite <- Hperm. by eapply list_elem_of_lookup_2. }
      by eapply C. }
    by rewrite (complete_decided _ _ Hb' Hcv Ht) in Hpt. }
  destruct t as [|a r u th'|a r th'|a r th']; try done; destruct Hm as (_ & _ & -> & Hm);
    specialize (Hm F XF Hc); unfold verdict in Hm; rewrite (count_Permutation _ _ _ HF), T, Hth in Hm;
    unfold accepts; destruct (th <=? _) eqn:Ev; (done || lia).
Qed.

(** C28: [tally] is exact: on every well-formed ballot it returns, without
    overflow, the counts of the votes cast, and says [Accepted] or [Rejected]
    exactly when every way to fill the open slots has that result, [Pending] when
    both results are still possible. *)
Theorem ballot_tally_exact b :
  ballot_ok b -> exists t, tally (E:=Error) b = Ok t /\ tally_means b t.
Proof. apply tally_exact. Qed.

(** The order of delivery does not matter: however the votes of the eligible
    participants arrive, and however early one order closes the ballot, the ballot
    ends decided by the number of acceptances. *)
Theorem ballot_outcome_order_free pid el th b l :
  Forall participant_typed el -> 0 <= th -> ballot_new pid el th = Ok b -> NoDup l.*1 -> l.*1 ≡ₚ el ->
  exists t, tally (E:=Error) (deliver b l) = Ok t /\
    match t with
    | Accepted _ _ _ => th <= accepts l
    | Rejected _ _ _ => accepts l < th
    | _ => False
    end.
Proof. apply deliver_decides. Qed.

(** *** Examples *)

Definition voters0 : list Participant := [MkParticipant 2; MkParticipant 0; MkParticipant 1].
Definition ballot0 : Ballot :=
  MkBallot (Some (MkProposalId 7 3)) [MkParticipant 0; MkParticipant 1; MkParticipant 2] [None; None; None] 2.

Lemma voters0_typed : Forall participant_typed voters0.
Proof. repeat constructor; done. Qed.
Lemma ballot0_new : ballot_new (MkProposalId 7 3) voters0 2 = Ok ballot0.
Proof. reflexivity. Qed.

Lemma ballot_tally_exact_witness : exists t, tally (E:=Error) ballot0 = Ok t /\ tally_means ballot0 t.
Proof.
  apply (ballot_tally_exact ballot0).
  refine (proj1 (ballot_new_ok (MkProposalId 7 3) voters0 2 ballot0 voters0_typed _ ballot0_new)). lia.
Defined.

(** Two rejections close the ballot before the third vote. *)
Definition early : list (Participant * Vote) :=
  [(MkParticipant 1, Reject); (MkParticipant 2, Reject); (MkParticipant 0, Accept)].
Lemma ballot_outcome_order_free_witness :
  exists t, tally (E:=Error) (deliver ballot0 early) = Ok t /\
    match t with Accepted _ _ _ => 2 <= accepts early | Rejected _ _ _ => accepts early < 2 | _ => False end.
Proof.
  refine (ballot_outcome_order_free (MkProposalId 7 3) voters0 2 ballot0 early voters0_typed _ ballot0_new _ _).
  - lia.
  - apply (bool_decide_unpack (NoDup early.*1)). reflexivity.
  - apply (bool_decide_unpack (early.*1 ≡ₚ voters0)). reflexivity.
Defined.

End Ballot.

(** ** Single-proposal agreements *)

Module Agreement.
Import Ballot.

Section Agreement.
(** The proposed type and its [BorshSerialize] writer. *)
Context {T : Type} (serialize : T -> writer) `{Crypto}.

Inductive Status := Idle | Voting | SAccepted | SRejected.

Inductive AError :=
| AlreadyProposed
| NotVoting
| ProposalMismatch
| ProposalEncoding
| OfBallot (e : Error).

Record Agreement := MkAgree { value : option T; ballot : Ballot }.
Definition agreement_default : Agreement := MkAgree None ballot_default.

Definition PROPOSAL_HASH_DOMAIN : bytes := bytes_of_string "arena0/agreement/proposal/v1" ++ [0].

Definition proposal_id (ver : Z) (v : T) : result AError ProposalId :=
  if ver =? 0 then Err (OfBallot InvalidProposalVersion) else
  let? encoded := map_err (fun _ => ProposalEncoding) (serialize v) in
  Ok (MkProposalId ver (blake3 (PROPOSAL_HASH_DOMAIN ++ le_bytes 4 ver ++ encoded))).

Definition propose (ver : Z) (v : T) (el : list Participant) (th : Z) : M Agreement AError ProposalId :=
  let! _ := sread (fun a => err_if (bool_decide (is_Some (proposal (ballot a)))) AlreadyProposed) in
  let! id := sread (fun _ => proposal_id ver v) in
  let! b := sread (fun _ => map_err OfBallot (ballot_new id el th)) in
  smodify (fun a => MkAgree (value a) b) ;;!
  smodify (fun a => MkAgree (Some v) (ballot a)) ;;!
  sret id.

Definition status {E} (a : Agreement) : result E Status :=
  let? t := tally (ballot a) in
  Ok (match t with
      | NotStarted => Idle
      | Pending _ _ _ _ => Voting
      | Accepted _ _ _ => SAccepted
      | Rejected _ _ _ => SRejected
      end).
Definition is_voting (s : Status) : bool := match s with Voting => true | _ => false end.

(** [self.ballot.cast(..).map_err(Into::into)]. *)
Definition cast_ballot (p : Participant) (v : Vote) : M Agreement AError Tally := fun a =>
  let '(r, b) := cast p v (ballot a) in (map_err OfBallot r, MkAgree (value a) b).

Definition vote (p : Participant) (id : ProposalId) (v : Vote) : M Agreement AError Tally :=
  let! s := sread status in
  let! _ := sread (fun _ => err_if (negb (is_voting s)) NotVoting) in
  let! _ := sread (fun a => err_if (negb (bool_decide (proposal (ballot a) = Some id))) ProposalMismatch) in
  cast_ballot p v.

(** [Agreement::proposal] and [Agreement::accepted]: the identity and the value. *)
Definition proposed (a : Agreement) : option (ProposalId * T) :=
  id ← proposal (ballot a); v ← value a; Some (id, v).
Definition accepted {E} (a : Agreement) : result E (option (ProposalId * T)) :=
  let? s := status a in
  Ok (match s with SAccepted => proposed a | _ => None end).

(** *** Histories *)

Inductive AOp :=
| OpPropose (ver : Z) (v : T) (el : list Participant) (th : Z)
| OpVote (p : Participant) (id : ProposalId) (v : Vote).
Definition aop_typed (o : AOp) : Prop :=
  match o with
  | OpPropose _ _ el th => Forall participant_typed el /\ 0 <= th
  | OpVote _ _ _ => True
  end.
(** An operation, successful or not. *)
Definition apply_aop (a : Agreement) (o : AOp) : Agreement :=
  match o with
  | OpPropose ver v el th => (propose ver v el th a).2
  | OpVote p id v => (vote p id v a).2
  end.

(** Nothing proposed, or a value with the identity of its encoding and a
    well-formed ballot on that identity. *)
Definition agreement_ok (a : Agreement) : Prop :=
  a = agreement_default \/
  exists ver v id, value a = Some v /\ proposal (ballot a) = Some id /\ ballot_ok (ballot a) /\
    proposal_id ver v = Ok id.

Lemma cast_header b p v : ballot_ok b ->
  let b' := (cast p v b).2 in proposal b' = proposal b /\ ballot_ok b' /\
  ((exists t, tally (E:=Error) b = Ok t /\ is_pending t = false) -> b' = b) /\
  forall e, (cast p v b).1 = Err e -> b' = b.
Proof.
  intros Hb. cbv zeta. rewrite cast_eval by done.
  destruct (tally_exact (E:=Error) b Hb) as (t & Ht & _). rewrite Ht.
  destruct t as [|a r u th| |]; cbn [fst snd]; try (split_and!; done).
  destruct (slot b p) as [i|]; [destruct (votes b !! i) as [[w|]|]|]; cbn [fst snd];
    try (split_and!; try done; by intros (t & [= <-] & ?)).
  pose proof (set_votes_ok b i v Hb) as Hb'. split_and!; [done|done|by intros (t & [= <-] & ?)|].
  intros e He. destruct (tally_exact (E:=Error) _ Hb') as (t' & Ht' & _). by rewrite Ht' in He.
Qed.
Lemma propose_cases ver v el th a :
  (propose ver v el th a).2 = a \/
  proposal (ballot a) = None /\ exists id b, proposal_id ver v = Ok id /\ ballot_new id el th = Ok b /\
    (propose ver v el th a).2 = MkAgree (Some v) b.
Proof.
  unfold propose, sbind, sread, smodify, sret. case_bool_decide as Hp; [by left|]. cbn [err_if].
  destruct (proposal_id ver v) as [id|e|] eqn:Hid; [|by left..].
  destruct (ballot_new id el th) as [b|e|] eqn:Hb; cbn [map_err]; [right|by left..].
  split; [by apply eq_None_not_Some|]. by exists id, b.
Qed.

Lemma vote_cases p id v a :
  (vote p id v a).2 = a \/
  (vote p id v a).2 = MkAgree (value a) (cast p v (ballot a)).2 /\ status (E:=AError) a = Ok Voting.
Proof.
  unfold vote, sbind, sread. destruct (status a) as [st|e|] eqn:Hs; [|by left..].
  destruct st; cbn [is_voting negb err_if]; try by left.
  destruct (negb _); cbn [err_if]; [by left|]. right. unfold cast_ballot. by destruct (cast p v (ballot a)).
Qed.

Lemma ballot_new_proposal id el th b : ballot_new id el th = Ok b -> proposal b = Some id.
Proof. unfold ballot_new. repeat case_match; try done. by intros [= <-]. Qed.

Lemma apply_aop_ok a o : aop_typed o -> agreement_ok a -> agreement_ok (apply_aop a o).
Proof.
  intros Ho Ha. destruct o as [ver v el th|p id v]; cbn [apply_aop aop_typed] in *.
  - destruct (propose_cases ver v el th a) as [->|(Hp & id & b & Hid & Hb & ->)]; [done|]. right.
    exists ver, v, id. cbn [value ballot]. pose proof (ballot_new_proposal _ _ _ _ Hb).
    apply ballot_new_ok in Hb as [Hb _]; [done|apply Ho..].
  - destruct (vote_cases p id v a) as [->|[-> Hs]]; [done|]. right.
    destruct Ha as [->|(ver & w & id' & Hv & Hp & Hb & Hid)]; [done|].
    destruct (cast_header (ballot a) p v Hb) as (Hp' & Hb' & _). exists ver, w, id'. cbn [value ballot].
    by rewrite Hp'.
Qed.

Lemma status_total {E} a : agreement_ok a -> exists s, status (E:=E) a = Ok s.
Proof.
  intros [->|(ver & v & id & _ & _ & Hb & _)]; [by eexists|]. unfold status.
  destruct (tally_exact (E:=E) _ Hb) as (t & -> & _). by eexists.
Qed.

(** Once decided, nothing changes the agreement. *)
Lemma accepted_fixed a o : status (E:=AError) a = Ok SAccepted -> apply_aop a o = a.
Proof.
  intros Hs. destruct o as [ver v el th|p id v]; cbn [apply_aop].
  - destruct (propose_cases ver v el th a) as [->|(Hp & _)]; [done|].
    unfold status, tally in Hs. by rewrite Hp in Hs.
  - destruct (vote_cases p id v a) as [->|[_ Hv]]; [done|congruence].
Qed.

Lemma accepted_Ok a id v : accepted (E:=AError) a = Ok (Some (id, v)) ->
  status (E:=AError) a = Ok SAccepted /\ proposal (ballot a) = Some id /\ value a = Some v.
Proof.
  unfold accepted, proposed. intros Ha. apply rbind_Ok in Ha as (s & Hs & Ha). destruct s; try done.
  destruct (proposal (ballot a)), (value a); simpl in Ha; try done. by injection Ha as <- <-.
Qed.

(** An agreement accepts the value that was proposed and nothing else: over
    any sequence of proposals and votes, refused ones included, its status is
    defined; an accepted value carries the digest of its encoding as identity;
    and no later operation changes it. *)
Theorem accepted_value_is_fixed ops more :
  Forall aop_typed ops ->
  let a := foldl apply_aop agreement_default ops in
  (exists r, accepted (E:=AError) a = Ok r) /\
  forall id v, accepted (E:=AError) a = Ok (Some (id, v)) ->
    (exists ver, proposal_id ver v = Ok id) /\
    accepted (E:=AError) (foldl apply_aop a more) = Ok (Some (id, v)).
Proof.
  intros Ht. cbv zeta. assert (agreement_ok (foldl apply_aop agreement_default ops)) as Hok.
  { assert (agreement_ok agreement_default) as Hd by (by left). revert Hd. generalize agreement_default.
    induction Ht as [|o ops Ho _ IH]; intros a Ha; [done|]. apply IH. by apply apply_aop_ok. }
  set (a := foldl apply_aop agreement_default ops) in *. split.
  - destruct (status_total (E:=AError) a Hok) as [s Hs]. unfold accepted. rewrite Hs. by eexists.
  - intros id v Ha. pose proof Ha as (Hs & Hp & Hv)%accepted_Ok. split.
    + destruct Hok as [Hd|(ver & w & id' & Hw & Hid & _ & Hpid)]; [by rewrite Hd in Hs|].
      exists ver. congruence.
    + assert (foldl apply_aop a more = a) as ->; [|done]. clear Ha Hv Hp.
      induction more as [|o more IH]; [done|]. cbn [foldl]. by rewrite accepted_fixed.
Qed.
End Agreement.

(** *** Example *)

Definition one_byte (x : Z) : writer := Ok [x].
Definition proposal0 : ProposalId :=
  Eval vm_compute in match proposal_id (H:=toy) one_byte 1 42 with Ok id => id | _ => MkProposalId 0 0 end.
Definition ops0 : list (AOp (T:=Z)) :=
  [OpPropose 1 42 voters0 2; OpVote (MkParticipant 0) proposal0 Accept; OpVote (MkParticipant 1) proposal0 Accept].

Lemma accepted_value_is_fixed_witness :
  accepted (E:=AError) (foldl (apply_aop (H:=toy) one_byte) agreement_default
    (ops0 ++ [OpPropose 1 43 voters0 2])) = Ok (Some (proposal0, 42)).
Proof.
  rewrite foldl_app.
  refine (proj2 (proj2 (@accepted_value_is_fixed Z one_byte toy ops0 [OpPropose 1 43 voters0 2] _)
    proposal0 42 _)).
  - repeat constructor; done.
  - reflexivity.
Defined.
End Agreement.
