(* ===== verification/CommitReveal.v ===== *)
(** * Commit-reveal rounds (arena0-primitives/src/commit_reveal.rs)

    Every participant commits to a salted value, then reveals it.  The shared part
    [CommitReveal] changes only through [handle] and [reset], which every host runs
    on the same agreed messages; the local part [CommitRevealLocal] keeps the
    opening of one participant. *)

From S2P Require Import Prelude Borsh Crypto Session Fixture Ballots.

Unset Program Cases.

Section CommitReveal.
(** The committed type with its Borsh codec. *)
Context {T : Type} (c : codec T) `{Crypto}.

Inductive Message :=
| Commit (hash : Z)
| Reveal (value : T) (salt : Z).

Inductive Phase := Idle | Revealing | Complete.
#[global] Instance Phase_eq_dec : EqDecision Phase.
Proof using. solve_decision. Defined.

Record CommitRevealLocal := MkLocal {
  l_value : option T;
  l_salt : option Z;
  committed_round : option Z;
  revealed_round : option Z }.
Definition local_default : CommitRevealLocal := MkLocal None None None None.

Record CommitReveal := MkCR {
  phase : Phase;
  round : Z;
  hashes : list (option Z);
  values_ : list (option T) }.
Definition cr_default : CommitReveal := MkCR Idle 0 [None; None] [None; None].

Inductive CRError :=
| TooFew
| TooMany
| UnknownSlot (slot : Z)
| RoundAlreadyStarted
| UnexpectedCommit
| DuplicateCommit
| RevealBeforeCommit
| DuplicateReveal
| HashMismatch
| AlreadyCommitted
| ResetBeforeComplete.

Definition set_phase (p : Phase) (s : CommitReveal) : CommitReveal := MkCR p (round s) (hashes s) (values_ s).
Definition set_hashes (l : list (option Z)) (s : CommitReveal) : CommitReveal := MkCR (phase s) (round s) l (values_ s).
Definition set_values (l : list (option T)) (s : CommitReveal) : CommitReveal := MkCR (phase s) (round s) (hashes s) l.
Definition some {A} (o : option A) : bool := match o with Some _ => true | None => false end.
(** [iter().all(Option::is_some)]. *)
Definition filled {A} (l : list (option A)) : bool := forallb some l.
Arguments filled : simpl never.

(** The digest of the stock Borsh tuple [(value, salt)]. *)
Definition compute_hash {E} (v : T) (salt : Z) : result E Z :=
  let? bs := expect_ok (enc (c_pair c (c_arr 32)) (v, salt)) in Ok (blake3 bs).

Definition set_participant_count (n : Z) : M CommitReveal CRError unit :=
  let! _ := sread (fun _ => err_if (n <? 2) TooFew) in
  let! _ := sread (fun _ => err_if (u8_max <? n) TooMany) in
  let! _ := sread (fun s => err_if (negb (bool_decide (phase s = Idle)) || existsb some (hashes s))
                              RoundAlreadyStarted) in
  smodify (set_hashes (replicate (Z.to_nat n) None)) ;;!
  smodify (set_values (replicate (Z.to_nat n) None)).

Definition participant_count (s : CommitReveal) : Z := zlen (hashes s).

Definition next_participant (s : CommitReveal) : option Participant :=
  let slot := match phase s with
              | Idle => position (fun o => negb (some o)) (hashes s)
              | Revealing => position (fun o => negb (some o)) (values_ s)
              | Complete => None
              end in
  i ← slot; Participant_try_from (Z.of_nat i).
Definition is_next (s : CommitReveal) (p : Participant) : bool := bool_decide (next_participant s = Some p).

Definition reset : M CommitReveal CRError unit :=
  let! _ := sread (fun s => err_if (negb (bool_decide (phase s = Complete))) ResetBeforeComplete) in
  smodify (set_phase Idle) ;;!
  let! r := sread (fun s => add_w u32_max (round s) 1) in
  smodify (fun s => MkCR (phase s) r (hashes s) (values_ s)) ;;!
  smodify (fun s => set_hashes (replicate (length (hashes s)) None) s) ;;!
  smodify (fun s => set_values ((fun _ => None) <$> values_ s) s).

Definition is_complete (s : CommitReveal) : bool := bool_decide (phase s = Complete).
Definition needs_commit (s : CommitReveal) (l : CommitRevealLocal) : bool :=
  bool_decide (phase s = Idle) && negb (opt_eqb (committed_round l) (Some (round s))).
Definition value_at (s : CommitReveal) (i : nat) : option T :=
  if is_complete s then mjoin (values_ s !! i) else None.
(** [values]: all of them, in participant order. *)
Definition values (s : CommitReveal) : option (list T) :=
  if is_complete s then mapM id (values_ s) else None.

Definition commit_with_salt (s : CommitReveal) (v : T) (salt : Z) : M CommitRevealLocal CRError Message :=
  let! _ := sread (fun l => err_if (opt_eqb (committed_round l) (Some (round s))) AlreadyCommitted) in
  let! h := sread (fun _ => compute_hash v salt) in
  smodify (fun l => MkLocal (Some v) (l_salt l) (committed_round l) (revealed_round l)) ;;!
  smodify (fun l => MkLocal (l_value l) (Some salt) (committed_round l) (revealed_round l)) ;;!
  smodify (fun l => MkLocal (l_value l) (l_salt l) (Some (round s)) (revealed_round l)) ;;!
  sret (Commit h).

Definition handle_commit (slot : nat) (h : Z) : M CommitReveal CRError unit :=
  let! _ := sread (fun s => err_if (negb (bool_decide (phase s = Idle))) UnexpectedCommit) in
  let! old := sread (fun s => expect (hashes s !! slot)) in
  let! _ := sread (fun _ => err_if (some old) DuplicateCommit) in
  smodify (fun s => set_hashes (<[slot := Some h]> (hashes s)) s) ;;!
  smodify (fun s => if filled (hashes s) then set_phase Revealing s else s).

Definition handle_reveal (slot : nat) (v : T) (salt : Z) : M CommitReveal CRError unit :=
  let! _ := sread (fun s => err_if (negb (bool_decide (phase s = Revealing))) RevealBeforeCommit) in
  let! old := sread (fun s => expect (values_ s !! slot)) in
  let! _ := sread (fun _ => err_if (some old) DuplicateReveal) in
  let! o := sread (fun s => expect (hashes s !! slot)) in
  let! committed := sread (fun _ => ok_or o RevealBeforeCommit) in
  let! h := sread (fun _ => compute_hash v salt) in
  let! _ := sread (fun _ => err_if (negb (h =? committed)) HashMismatch) in
  smodify (fun s => set_values (<[slot := Some v]> (values_ s)) s) ;;!
  smodify (fun s => if filled (values_ s) then set_phase Complete s else s).

Definition handle (from : Participant) (m : Message) : M CommitReveal CRError unit :=
  let slot := Z.to_nat (p_index from) in
  let! _ := sread (fun s => err_if (length (hashes s) <=? slot)%nat (UnknownSlot (Z.of_nat slot))) in
  match m with
  | Commit h => handle_commit slot h
  | Reveal v salt => handle_reveal slot v salt
  end.

(** [None] leaves the stash as it is on every early return. *)
Definition take_reveal (s : CommitReveal) (l : CommitRevealLocal) : option Message * CommitRevealLocal :=
  if negb (bool_decide (phase s = Revealing)) || negb (opt_eqb (committed_round l) (Some (round s)))
     || opt_eqb (revealed_round l) (Some (round s)) then (None, l) else
  match l_value l, l_salt l with
  | Some v, Some salt => (Some (Reveal v salt), MkLocal (l_value l) (l_salt l) (committed_round l) (Some (round s)))
  | _, _ => (None, l)
  end.

(** [my_turn]: what the participant owes when it is the next sender. *)
Inductive MyTurn := TReveal (m : Message) | TCommit.
Definition my_turn (s : CommitReveal) (me : Participant) (l : CommitRevealLocal)
    : option MyTurn * CommitRevealLocal :=
  if negb (is_next s me) then (None, l) else
  match take_reveal s l with
  | (Some m, l') => (Some (TReveal m), l')
  | (None, l') => (if needs_commit s l' then Some TCommit else None, l')
  end.

(** A sequence of agreed messages, each accepted. *)
Fixpoint handle_all (l : list (Participant * Message)) : M CommitReveal CRError unit :=
  match l with
  | [] => sret tt
  | (p, m) :: l => handle p m ;;! handle_all l
  end.

(** ** The shared invariant *)

(** A value and salt as decoded from a message. *)
Definition opening_typed (v : T) (salt : Z) : Prop := cwf (c_pair c (c_arr 32)) (v, salt).
Definition msg_typed (m : Message) : Prop := match m with Commit _ => True | Reveal v salt => opening_typed v salt end.

(** The phase is the one the slots determine. *)
Definition phase_of (h : list (option Z)) (v : list (option T)) : Phase :=
  if filled h then if filled v then Complete else Revealing else Idle.

Record cr_ok (s : CommitReveal) : Prop := {
  ok_len : length (values_ s) = length (hashes s);
  ok_count : 2 <= zlen (hashes s) <= u8_max;
  ok_phase : phase s = phase_of (hashes s) (values_ s);
  ok_idle : phase s = Idle -> Forall (fun o => o = None) (values_ s);
  ok_open : forall i v, values_ s !! i = Some (Some v) ->
    exists salt h, opening_typed v salt /\ hashes s !! i = Some (Some h) /\ compute_hash (E:=CRError) v salt = Ok h }.

Lemma filled_true {A} (l : list (option A)) : filled l = true <-> forall i, l !! i <> Some None.
Proof using.
  unfold filled. rewrite forallb_forall. split.
  - intros Hl i Hi. apply list_elem_of_lookup_2, list_elem_of_In in Hi. by specialize (Hl _ Hi).
  - intros Hl [x|] Hx; [done|]. apply list_elem_of_In, list_elem_of_lookup in Hx as [i Hi]. by destruct (Hl i).
Qed.
Lemma filled_false {A} (l : list (option A)) i : l !! i = Some None -> filled l = false.
Proof using. intros Hi. apply not_true_iff_false. rewrite filled_true. intros Hl. by apply (Hl i). Qed.

Lemma phase_cases s : cr_ok s ->
  match phase s with
  | Idle => filled (hashes s) = false
  | Revealing => filled (hashes s) = true /\ filled (values_ s) = false
  | Complete => filled (hashes s) = true /\ filled (values_ s) = true
  end.
Proof using.
  intros [_ _ Hp _ _]. rewrite Hp. unfold phase_of.
  destruct (filled (hashes s)) eqn:E1; [|done]. by destruct (filled (values_ s)) eqn:E2.
Qed.

(** ** One message *)

Definition slot_of (p : Participant) : nat := Z.to_nat (p_index p).
Definition with_slots (s : CommitReveal) (h : list (option Z)) (v : list (option T)) : CommitReveal :=
  MkCR (phase_of h v) (round s) h v.

(** What one accepted message requires and does. *)
Definition accepts_msg (s : CommitReveal) (i : nat) (m : Message) (s' : CommitReveal) : Prop :=
  match m with
  | Commit h => hashes s !! i = Some None /\ s' = with_slots s (<[i := Some h]> (hashes s)) (values_ s)
  | Reveal v salt => phase s = Revealing /\ values_ s !! i = Some None /\
      exists h, hashes s !! i = Some (Some h) /\ compute_hash (E:=CRError) v salt = Ok h /\
        s' = with_slots s (hashes s) (<[i := Some v]> (values_ s))
  end.

Lemma idle_values_open s i : cr_ok s -> phase s = Idle -> (i < length (hashes s))%nat -> values_ s !! i = Some None.
Proof using.
  intros Hs Hp Hi. rewrite <- (ok_len s Hs) in Hi. apply lookup_lt_is_Some in Hi as [o Ho].
  pose proof (Forall_lookup_1 _ _ _ _ (ok_idle s Hs Hp) Ho) as ->. done.
Qed.

Lemma handle_commit_Ok s i h s' : cr_ok s ->
  handle_commit i h s = (Ok tt, s') <-> accepts_msg s i (Commit h) s'.
Proof using.
  intros Hs. unfold handle_commit, accepts_msg, with_slots, phase_of. split.
  - intros Ho. inv_ok. repeat match goal with Hb : bool_decide _ = true |- _ => apply bool_decide_eq_true in Hb end.
    match goal with Hx : some ?o = false |- _ => destruct o; [done|] end. split; [done|].
    destruct s as [ph r hs vs]; cbn in *. subst ph. destruct (filled (<[i:=Some h]> hs)); [|done].
    rewrite (filled_false vs i); [done|]. eapply (idle_values_open (MkCR Idle r hs vs)); try done.
    by eapply lookup_lt_Some.
  - intros [Hi ->]. pose proof (phase_cases s Hs) as Hc. assert (phase s = Idle) as Hp.
    { destruct (phase s); [done|..]; destruct Hc as [Hc _]; rewrite filled_true in Hc; by destruct (Hc i). }
    assert (values_ s !! i = Some None) as Hv.
    { apply idle_values_open; try done. by eapply lookup_lt_Some. }
    unfold sbind, sread, smodify. rewrite Hp, Hi. cbn [bool_decide decide err_if expect some].
    destruct s as [ph r hs vs]; cbn in *. subst ph. f_equal.
    destruct (filled (<[i:=Some h]> hs)); [|done]. by rewrite (filled_false vs i).
Qed.

Lemma handle_reveal_Ok s i v salt s' : cr_ok s ->
  handle_reveal i v salt s = (Ok tt, s') <-> accepts_msg s i (Reveal v salt) s'.
Proof using.
  intros Hs. unfold handle_reveal, accepts_msg, with_slots, phase_of. split.
  - intros Ho. inv_ok. repeat match goal with Hb : bool_decide _ = true |- _ => apply bool_decide_eq_true in Hb end.
    match goal with Hx : some ?o = false |- _ => destruct o; [done|] end.
    match goal with Hx : (_ =? _) = true |- _ => apply Z.eqb_eq in Hx; subst end.
    pose proof (phase_cases s Hs) as Hc. destruct s as [ph r hs vs]; cbn in *. subst ph. destruct Hc as [Hc _].
    split_and!; try done. eexists. split_and!; try done. rewrite Hc. by destruct (filled (<[i:=Some v]> vs)).
  - intros (Hp & Hi & h & Hh & Hc & ->). unfold sbind, sread, smodify. rewrite Hp, Hi, Hh.
    cbn [bool_decide decide err_if expect some negb ok_or]. rewrite Hc, Z.eqb_refl. cbn [negb err_if].
    pose proof (phase_cases s Hs) as Hf. destruct s as [ph r hs vs]; cbn in *. subst ph. destruct Hf as [-> _].
    by destruct (filled (<[i:=Some v]> vs)).
Qed.

Lemma handle_Ok s p m s' : cr_ok s -> handle p m s = (Ok tt, s') <-> accepts_msg s (slot_of p) m s'.
Proof using.
  intros Hs. unfold handle. fold (slot_of p). cbv zeta. unfold sbind at 1. unfold sread at 1.
  destruct (length (hashes s) <=? slot_of p)%nat eqn:Hl; cbn [err_if].
  - apply Nat.leb_le in Hl. split; [done|]. destruct m; intros Ha; exfalso.
    + destruct Ha as [Ha%lookup_lt_Some _]. lia.
    + destruct Ha as (_ & _ & h & Ha%lookup_lt_Some & _). lia.
  - destruct m; [by apply handle_commit_Ok|by apply handle_reveal_Ok].
Qed.

Lemma accepts_ok s i m s' : cr_ok s -> msg_typed m -> accepts_msg s i m s' -> cr_ok s'.
Proof using.
  intros Hs Hm Ha. pose proof Hs as [Hl Hn Hp Hi Ho].
  destruct m as [h|v salt]; simpl in Ha, Hm.
  - destruct Ha as [Hh ->]. unfold with_slots. split; cbn [phase round hashes values_].
    + by rewrite length_insert.
    + unfold zlen in *. by rewrite length_insert.
    + done.
    + intros Hph. apply Hi. rewrite Hp. unfold phase_of in *. by rewrite (filled_false _ i Hh).
    + intros j w Hj. exfalso. assert (phase s = Idle) as Hid.
      { rewrite Hp. unfold phase_of. by rewrite (filled_false _ i Hh). }
      pose proof (Forall_lookup_1 _ _ _ _ (Hi Hid) Hj). done.
  - destruct Ha as (Hr & Hv & h & Hh & Hc & ->). unfold with_slots.
    pose proof (phase_cases s Hs) as Hf. rewrite Hr in Hf. destruct Hf as [Hf _].
    split; cbn [phase round hashes values_]; [by rewrite length_insert|done|done| |].
    + unfold phase_of. rewrite Hf. destruct (filled (<[i:=Some v]> _)); discriminate.
    + intros j w Hj. destruct (decide (i = j)) as [<-|Hne].
      * rewrite list_lookup_insert_eq in Hj by (by eapply lookup_lt_Some). injection Hj as <-. by exists salt, h.
      * rewrite list_lookup_insert_ne in Hj by done. by apply Ho.
Qed.

Lemma insert_slot {A} (l : list (option A)) i x j y :
  l !! i = Some None -> <[i := Some x]> l !! j = Some (Some y) <-> l !! j = Some (Some y) \/ i = j /\ x = y.
Proof using.
  intros Hi. destruct (decide (i = j)) as [<-|Hne].
  - rewrite list_lookup_insert_eq by (by eapply lookup_lt_Some). rewrite Hi. naive_solver.
  - rewrite list_lookup_insert_ne by done. naive_solver.
Qed.

(** What one accepted message adds to the slots. *)
Lemma accepts_slots s i m s' : accepts_msg s i m s' ->
  round s' = round s /\ length (hashes s') = length (hashes s) /\
  (forall j h, hashes s' !! j = Some (Some h) <-> hashes s !! j = Some (Some h) \/ i = j /\ m = Commit h) /\
  (forall j v, values_ s' !! j = Some (Some v) <->
     values_ s !! j = Some (Some v) \/ i = j /\ exists salt, m = Reveal v salt).
Proof using.
  destruct m as [h|v salt]; simpl.
  - intros [Hi ->]. cbn [with_slots round hashes values_]. rewrite length_insert. split_and!; try done.
    + intros j g. rewrite insert_slot by done. naive_solver.
    + naive_solver.
  - intros (_ & Hi & h & _ & _ & ->). cbn [with_slots round hashes values_]. split_and!; try done.
    + naive_solver.
    + intros j w. rewrite insert_slot by done. naive_solver.
Qed.

(** The slots after a sequence of accepted messages are the old ones and those of
    the messages, whatever their order. *)
Lemma handle_all_slots l s s' :
  cr_ok s -> Forall (fun x => msg_typed x.2) l -> handle_all l s = (Ok tt, s') ->
  cr_ok s' /\ round s' = round s /\ length (hashes s') = length (hashes s) /\
  (forall i h, hashes s' !! i = Some (Some h) <->
     hashes s !! i = Some (Some h) \/ exists p, (p, Commit h) ∈ l /\ slot_of p = i) /\
  (forall i v, values_ s' !! i = Some (Some v) <->
     values_ s !! i = Some (Some v) \/ exists p salt, (p, Reveal v salt) ∈ l /\ slot_of p = i).
Proof using.
  revert s. induction l as [|[p m] l IH]; intros s Hs Ht Hr; cbn [handle_all] in Hr.
  { inv_ok. setoid_rewrite elem_of_nil. split_and!; try done; naive_solver. }
  apply Forall_cons in Ht as [Hm Ht]. inv_ok. destruct x.
  match goal with Hh : handle p m s = _ |- _ => apply handle_Ok in Hh as Ha; [|done]; clear Hh end.
  pose proof (accepts_ok _ _ _ _ Hs Hm Ha) as Hs1.
  destruct (IH _ Hs1 Ht Hr) as (Hs' & R & L & IH1 & IH2).
  apply accepts_slots in Ha as (R1 & L1 & H1 & V1). setoid_rewrite elem_of_cons.
  split_and!; [done|congruence|congruence|..].
  - intros i h. rewrite IH1, H1. naive_solver.
  - intros i v. rewrite IH2, V1. naive_solver.
Qed.

Lemma slots_ext {A} (l1 l2 : list (option A)) :
  length l1 = length l2 -> (forall i x, l1 !! i = Some (Some x) <-> l2 !! i = Some (Some x)) -> l1 = l2.
Proof using.
  intros Hl Hx. apply list_eq. intros i. destruct (decide (i < length l1)%nat) as [Hi|Hi].
  - destruct (lookup_lt_is_Some_2 _ _ Hi) as [o1 E1].
    destruct (lookup_lt_is_Some_2 l2 i) as [o2 E2]; [lia|]. rewrite E1, E2.
    destruct o1 as [x|]; [by rewrite (proj1 (Hx i x) E1) in E2|].
    destruct o2 as [x|]; [by rewrite (proj2 (Hx i x) E2) in E1|done].
  - by rewrite !lookup_ge_None_2 by lia.
Qed.

Lemma state_ext s1 s2 :
  cr_ok s1 -> cr_ok s2 -> round s1 = round s2 -> hashes s1 = hashes s2 -> values_ s1 = values_ s2 -> s1 = s2.
Proof using.
  intros [_ _ P1 _ _] [_ _ P2 _ _]. destruct s1, s2; cbn in *. intros -> -> ->. by rewrite P1, P2.
Qed.

Lemma handle_all_perm s l1 l2 s1 s2 :
  cr_ok s -> Forall (fun x => msg_typed x.2) l1 -> (forall x, x ∈ l1 <-> x ∈ l2) ->
  handle_all l1 s = (Ok tt, s1) -> handle_all l2 s = (Ok tt, s2) -> s1 = s2.
Proof using.
  intros Hs Ht Hl R1 R2.
  assert (Forall (fun x => msg_typed x.2) l2) as Ht2.
  { rewrite Forall_forall in *. intros x Hx. by apply Ht, Hl. }
  destruct (handle_all_slots _ _ _ Hs Ht R1) as (O1 & E1 & L1 & H1 & V1).
  destruct (handle_all_slots _ _ _ Hs Ht2 R2) as (O2 & E2 & L2 & H2 & V2).
  apply state_ext; try done; [congruence|..]; apply slots_ext.
  - congruence.
  - intros i h. rewrite H1, H2. by setoid_rewrite Hl.
  - rewrite (ok_len _ O1), (ok_len _ O2). congruence.
  - intros i v. rewrite V1, V2. by setoid_rewrite Hl.
Qed.

(** ** Binding *)

(** Two openings with one hash. *)
Definition opening_collision (o1 o2 : T * Z) : Prop := encoded_collision (c_pair c (c_arr 32)) o1 o2.

Lemma compute_hash_binds {E} v1 s1 v2 s2 h :
  opening_typed v1 s1 -> opening_typed v2 s2 ->
  compute_hash (E:=E) v1 s1 = Ok h -> compute_hash (E:=E) v2 s2 = Ok h ->
  v1 = v2 \/ opening_collision (v1, s1) (v2, s2).
Proof using.
  unfold opening_typed, compute_hash, expect_ok. intros W1 W2 C1 C2.
  destruct (enc _ (v1, s1)) as [b1| |] eqn:B1; [|done..]. destruct (enc _ (v2, s2)) as [b2| |] eqn:B2; [|done..].
  injection C1 as <-. injection C2 as C2. destruct (encoding_binds (c_pair c (c_arr 32)) (v1, s1) (v2, s2) b1 b2) as [?|?]; try done; [left; by simplify_eq|by right].
Qed.

(** An accepted opening opens the commitment of its slot. *)
Lemma handle_all_opened l s s' p v salt :
  cr_ok s -> Forall (fun x => msg_typed x.2) l -> handle_all l s = (Ok tt, s') -> (p, Reveal v salt) ∈ l ->
  exists h, hashes s' !! slot_of p = Some (Some h) /\ compute_hash (E:=CRError) v salt = Ok h.
Proof using.
  revert s. induction l as [|[q m] l IH]; intros s Hs Ht Hr Hin; [by apply elem_of_nil in Hin|]. cbn [handle_all] in Hr.
  apply Forall_cons in Ht as [Hm Ht]. inv_ok. destruct x.
  match goal with Hh : handle q m s = _ |- _ => apply handle_Ok in Hh as Ha; [|done]; clear Hh end.
  pose proof (accepts_ok _ _ _ _ Hs Hm Ha) as Hs1. destruct (handle_all_slots _ _ _ Hs1 Ht Hr) as (_ & _ & _ & Hh1 & _).
  apply elem_of_cons in Hin as [Heq|Hin]; [|by eapply IH]. injection Heq as <- <-.
  destruct Ha as (_ & _ & h & Hh & Hc & ->). exists h. split; [|done]. apply Hh1. by left.
Qed.

(** Two deliveries that open one commitment differently. *)
Definition forged_opening (l1 l2 : list (Participant * Message)) : Prop :=
  exists p1 v1 salt1 p2 v2 salt2, (p1, Reveal v1 salt1) ∈ l1 /\ (p2, Reveal v2 salt2) ∈ l2 /\
    slot_of p1 = slot_of p2 /\ opening_collision (v1, salt1) (v2, salt2).

Lemma complete_slot s i : cr_ok s -> phase s = Complete -> (i < length (hashes s))%nat ->
  exists v salt h, values_ s !! i = Some (Some v) /\ opening_typed v salt /\
    hashes s !! i = Some (Some h) /\ compute_hash (E:=CRError) v salt = Ok h.
Proof using.
  intros Hs Hp Hi. pose proof (phase_cases s Hs) as Hc. rewrite Hp in Hc. destruct Hc as [_ Hc].
  rewrite filled_true in Hc. rewrite <- (ok_len s Hs) in Hi. apply lookup_lt_is_Some in Hi as [[v|] Hv].
  - destruct (ok_open s Hs i v Hv) as (salt & h & ? & ? & ?). by exists v, salt, h.
  - by destruct (Hc i).
Qed.

Lemma openings_bound s l1 l2 s1 s2 :
  cr_ok s -> phase s = Revealing ->
  Forall (fun x => msg_typed x.2) l1 -> Forall (fun x => msg_typed x.2) l2 ->
  handle_all l1 s = (Ok tt, s1) -> handle_all l2 s = (Ok tt, s2) -> phase s1 = Complete -> phase s2 = Complete ->
  values_ s1 = values_ s2 \/ forged_opening l1 l2.
Proof using.
  intros Hs Hp T1 T2 R1 R2 P1 P2.
  destruct (handle_all_slots _ _ _ Hs T1 R1) as (O1 & _ & L1 & H1 & X1).
  destruct (handle_all_slots _ _ _ Hs T2 R2) as (O2 & _ & L2 & H2 & X2).
  pose proof (phase_cases s Hs) as Hf. rewrite Hp in Hf. destruct Hf as [Hf _]. rewrite filled_true in Hf.
  assert (forall n, forged_opening l1 l2 \/
    forall i, (i < n)%nat -> (i < length (hashes s))%nat -> values_ s1 !! i = values_ s2 !! i) as Hn.
  { induction n as [|n [IH|IH]]; [right; lia|by left|].
    destruct (decide (n < length (hashes s))%nat) as [Hlt|?]; [|right; intros i ? ?; apply IH; lia].
    destruct (complete_slot s1 n O1 P1) as (v1 & _ & _ & V1 & _); [lia|].
    destruct (complete_slot s2 n O2 P2) as (v2 & _ & _ & V2 & _); [lia|].
    destruct (lookup_lt_is_Some_2 _ _ Hlt) as [[h|] Hh]; [|by destruct (Hf n)].
    assert (v1 = v2 \/ forged_opening l1 l2) as [->|?]; [|right|by left].
    { destruct (proj1 (X1 n v1) V1) as [Hv|(p1 & sa1 & I1 & S1)];
        [left; pose proof (proj2 (X2 n v1) (or_introl Hv)); congruence|].
      destruct (proj1 (X2 n v2) V2) as [Hv|(p2 & sa2 & I2 & S2)];
        [left; pose proof (proj2 (X1 n v2) (or_introl Hv)); congruence|].
      destruct (handle_all_opened _ _ _ _ _ _ Hs T1 R1 I1) as (h1 & E1 & C1). rewrite S1, (proj2 (H1 n h) (or_introl Hh)) in E1.
      destruct (handle_all_opened _ _ _ _ _ _ Hs T2 R2 I2) as (h2 & E2 & C2). rewrite S2, (proj2 (H2 n h) (or_introl Hh)) in E2.
      injection E1 as <-. injection E2 as <-. rewrite Forall_forall in T1, T2.
      destruct (compute_hash_binds _ _ _ _ _ (T1 _ I1) (T2 _ I2) C1 C2) as [?|?]; [by left|right].
      exists p1, v1, sa1, p2, v2, sa2. by rewrite S1, S2. }
    intros i Hi ?. destruct (decide (i = n)) as [->|]; [congruence|apply IH; lia]. }
  destruct (Hn (length (hashes s))) as [?|Hv]; [by right|left]. apply list_eq. intros i.
  destruct (decide (i < length (hashes s))%nat) as [Hi|Hi]; [by apply Hv|].
  pose proof (ok_len _ O1). pose proof (ok_len _ O2). by rewrite !lookup_ge_None_2 by lia.
Qed.

(** ** An honest round *)

Definition fresh_local (s : CommitReveal) (l : CommitRevealLocal) : Prop :=
  committed_round l <> Some (round s) /\ revealed_round l <> Some (round s).
Definition at_slot (i : nat) : Participant := MkParticipant (Z.of_nat i).
(** The commitments (openings) of the participants, in a given order. *)
Definition commits (hs : list Z) (order : list nat) : list (Participant * Message) :=
  omap (fun i => (fun h => (at_slot i, Commit h)) <$> hs !! i) order.
Definition reveals (secrets : list (T * Z)) (order : list nat) : list (Participant * Message) :=
  omap (fun i => (fun x => (at_slot i, Reveal x.1 x.2)) <$> secrets !! i) order.

Lemma slot_at i : slot_of (at_slot i) = i.
Proof using. unfold slot_of, at_slot. simpl. lia. Qed.

Lemma opt_eqb_false o x : o <> Some x -> opt_eqb o (Some x) = false.
Proof using. destruct o as [y|]; [|done]. simpl. intros Hne. apply Z.eqb_neq. congruence. Qed.

Lemma commit_eval s l v salt h :
  fresh_local s l -> compute_hash (E:=CRError) v salt = Ok h ->
  commit_with_salt s v salt l =
    (Ok (Commit h), MkLocal (Some v) (Some salt) (Some (round s)) (revealed_round l)).
Proof using.
  intros [Hc _] Hh. unfold commit_with_salt, sbind, sread, smodify, sret.
  rewrite opt_eqb_false by done. cbn [err_if]. by rewrite Hh.
Qed.

Lemma take_reveal_once s v salt r :
  phase s = Revealing -> r <> Some (round s) ->
  take_reveal s (MkLocal (Some v) (Some salt) (Some (round s)) r) =
    (Some (Reveal v salt), MkLocal (Some v) (Some salt) (Some (round s)) (Some (round s))).
Proof using.
  intros Hp Hr. unfold take_reveal. rewrite Hp. cbn [committed_round revealed_round l_value l_salt opt_eqb].
  rewrite Z.eqb_refl. by rewrite opt_eqb_false.
Qed.
Lemma take_reveal_twice s l : revealed_round l = Some (round s) -> take_reveal s l = (None, l).
Proof using. intros Hr. unfold take_reveal. rewrite Hr. cbn [opt_eqb]. by rewrite Z.eqb_refl, orb_true_r. Qed.

Lemma commits_accepted hs order s :
  cr_ok s -> NoDup order -> (forall i, i ∈ order -> (i < length hs)%nat /\ hashes s !! i = Some None) ->
  exists s', handle_all (commits hs order) s = (Ok tt, s').
Proof using.
  revert s. induction order as [|i order IH]; intros s Hs Hn Hi; [by exists s|].
  apply NoDup_cons in Hn as [Hni Hn]. destruct (Hi i) as [Hlt Hnone]; [by left|].
  destruct (lookup_lt_is_Some_2 _ _ Hlt) as [h Hh]. unfold commits. cbn [omap list_omap]. rewrite Hh.
  cbn [fmap option_fmap option_map handle_all].
  set (s1 := with_slots s (<[i := Some h]> (hashes s)) (values_ s)).
  assert (accepts_msg s i (Commit h) s1) as Ha by done.
  destruct (IH s1) as (s' & Hs').
  - by eapply (accepts_ok s i (Commit h)).
  - done.
  - intros j Hj. destruct (Hi j) as [? Hjn]; [by right|]. split; [done|]. cbn [s1 with_slots hashes].
    rewrite list_lookup_insert_ne; [done|]. intros <-. done.
  - exists s'. unfold sbind. rewrite (proj2 (handle_Ok s (at_slot i) (Commit h) s1 Hs)) by (by rewrite slot_at).
    exact Hs'.
Qed.

Lemma reveals_accepted secrets order s :
  cr_ok s -> NoDup order -> (order <> [] -> phase s = Revealing) ->
  (forall i, i ∈ order -> values_ s !! i = Some None /\
     exists v salt h, secrets !! i = Some (v, salt) /\ opening_typed v salt /\
       hashes s !! i = Some (Some h) /\ compute_hash (E:=CRError) v salt = Ok h) ->
  exists s', handle_all (reveals secrets order) s = (Ok tt, s').
Proof using.
  revert s. induction order as [|i order IH]; intros s Hs Hn Hp Hi; [by exists s|].
  apply NoDup_cons in Hn as [Hni Hn]. destruct (Hi i) as [Hnone (v & salt & h & Hx & Ht & Hh & Hc)]; [by left|].
  unfold reveals. cbn [omap list_omap]. rewrite Hx. cbn [fmap option_fmap option_map handle_all fst snd].
  set (s1 := with_slots s (hashes s) (<[i := Some v]> (values_ s))).
  assert (accepts_msg s i (Reveal v salt) s1) as Ha by (split_and!; [by apply Hp|done|by exists h]).
  assert (forall j, j ∈ order -> values_ s1 !! j = Some None) as Hopen.
  { intros j Hj. destruct (Hi j) as [Hjn _]; [by right|]. cbn [s1 with_slots values_].
    rewrite list_lookup_insert_ne; [done|]. intros <-. done. }
  destruct (IH s1) as (s' & Hs').
  - by eapply (accepts_ok s i (Reveal v salt)).
  - done.
  - intros Hne. destruct order as [|j order]; [done|]. pose proof (phase_cases s Hs) as Hf.
    rewrite Hp in Hf by done. destruct Hf as [Hf _]. cbn [s1 with_slots phase]. unfold phase_of. rewrite Hf.
    rewrite (filled_false _ j); [done|]. apply Hopen. by left.
  - intros j Hj. split; [by apply Hopen|]. apply Hi. by right.
  - exists s'. unfold sbind. rewrite (proj2 (handle_Ok s (at_slot i) (Reveal v salt) s1 Hs)) by (by rewrite slot_at).
    exact Hs'.
Qed.

Definition hash_of (x : T * Z) : Z :=
  match compute_hash (E:=CRError) x.1 x.2 with Ok h => h | _ => 0 end.
(** The stash [commit_with_salt] leaves. *)
Definition stash (s : CommitReveal) (x : T * Z) (l : CommitRevealLocal) : CommitRevealLocal :=
  MkLocal (Some x.1) (Some x.2) (Some (round s)) (revealed_round l).
Definition secret_ok (x : T * Z) : Prop := opening_typed x.1 x.2 /\ compute_hash (E:=CRError) x.1 x.2 = Ok (hash_of x).

Lemma elem_commits hs order p h :
  (p, Commit h) ∈ commits hs order <-> exists i, i ∈ order /\ hs !! i = Some h /\ p = at_slot i.
Proof using.
  unfold commits. rewrite list_elem_of_omap. split.
  - intros (i & Hi & He). destruct (hs !! i) as [g|] eqn:Hg; simpl in He; [|done]. injection He as <- <-. eauto.
  - intros (i & Hi & Hh & ->). exists i. by rewrite Hh.
Qed.
Lemma elem_reveals secrets order p v salt :
  (p, Reveal v salt) ∈ reveals secrets order <-> exists i, i ∈ order /\ secrets !! i = Some (v, salt) /\ p = at_slot i.
Proof using.
  unfold reveals. rewrite list_elem_of_omap. split.
  - intros (i & Hi & He). destruct (secrets !! i) as [[w sa]|] eqn:Hg; simpl in He; [|done].
    injection He as <- <- <-. eauto.
  - intros (i & Hi & Hh & ->). exists i. by rewrite Hh.
Qed.
Lemma commits_typed hs order : Forall (fun x => msg_typed x.2) (commits hs order).
Proof using.
  apply Forall_forall. intros x Hx. unfold commits in Hx. apply list_elem_of_omap in Hx as (i & _ & He).
  by destruct (hs !! i); simpl in He; simplify_eq.
Qed.
Lemma reveals_typed secrets order :
  Forall secret_ok secrets -> Forall (fun x => msg_typed x.2) (reveals secrets order).
Proof using.
  intros Hs. apply Forall_forall. intros x Hx. unfold reveals in Hx. apply list_elem_of_omap in Hx as (i & _ & He).
  destruct (secrets !! i) as [y|] eqn:Hy; simpl in He; simplify_eq. by apply (Forall_lookup_1 _ _ _ _ Hs Hy).
Qed.

Lemma mapM_id_Some {A} (l : list A) : mapM id (Some <$> l) = Some l.
Proof using. induction l as [|x l IH]; [done|]. cbn [fmap list_fmap mapM]. by rewrite IH. Qed.

(** After the commitments of everyone, in any order, the round is revealing. *)
Lemma commit_round s secrets order :
  cr_ok s -> phase s = Idle -> hashes s = replicate (length secrets) None -> order ≡ₚ seq 0 (length secrets) ->
  exists s1, handle_all (commits (hash_of <$> secrets) order) s = (Ok tt, s1) /\ cr_ok s1 /\
    phase s1 = Revealing /\ round s1 = round s /\ length (hashes s1) = length secrets /\
    (forall i, (i < length secrets)%nat -> values_ s1 !! i = Some None) /\
    forall i x, secrets !! i = Some x -> hashes s1 !! i = Some (Some (hash_of x)).
Proof using.
  intros Hs Hp Hh Ho.
  assert (forall i, i ∈ order <-> (i < length secrets)%nat) as Hin.
  { intros i. rewrite Ho, elem_of_seq. lia. }
  destruct (commits_accepted (hash_of <$> secrets) order s Hs) as (s1 & R1).
  { rewrite Ho. apply NoDup_seq. }
  { intros i Hi%Hin. rewrite length_fmap, Hh, lookup_replicate_2 by done. done. }
  exists s1. destruct (handle_all_slots _ _ _ Hs (commits_typed _ _) R1) as (O1 & E1 & L1 & H1 & V1).
  rewrite Hh, length_replicate in L1.
  assert (forall i x, secrets !! i = Some x -> hashes s1 !! i = Some (Some (hash_of x))) as Hx.
  { intros i x Hi. apply H1. right. exists (at_slot i). split; [|apply slot_at]. apply elem_commits. exists i.
    split_and!; [apply Hin; by eapply lookup_lt_Some|by rewrite list_lookup_fmap, Hi|done]. }
  assert (forall i, (i < length secrets)%nat -> values_ s1 !! i = Some None) as Hv.
  { intros i Hi. destruct (lookup_lt_is_Some_2 (values_ s1) i) as [[v|] Hv]; [rewrite (ok_len _ O1); lia| |done].
    apply V1 in Hv as [Hv|(p & salt & Hin' & _)].
    - rewrite (idle_values_open s i Hs Hp) in Hv; [done|]. by rewrite Hh, length_replicate.
    - unfold commits in Hin'. apply list_elem_of_omap in Hin' as (j & _ & He).
      by destruct (_ !! j); simpl in He. }
  split_and!; try done. rewrite (ok_phase _ O1). unfold phase_of.
  rewrite (proj2 (filled_true (hashes s1))).
  - rewrite (filled_false _ 0%nat); [done|]. apply Hv. pose proof (ok_count _ O1) as Hc.
    unfold zlen in Hc. rewrite L1 in Hc. lia.
  - intros i Hi. pose proof (lookup_lt_Some _ _ _ Hi) as Hlt. rewrite L1 in Hlt.
    destruct (lookup_lt_is_Some_2 _ _ Hlt) as [x Hxi]. by rewrite (Hx i x Hxi) in Hi.
Qed.

(** ... and after the openings of everyone, in any order, it is complete. *)
Lemma reveal_round s secrets order :
  cr_ok s -> phase s = Revealing -> length (hashes s) = length secrets -> Forall secret_ok secrets ->
  (forall i, (i < length secrets)%nat -> values_ s !! i = Some None) ->
  (forall i x, secrets !! i = Some x -> hashes s !! i = Some (Some (hash_of x))) ->
  order ≡ₚ seq 0 (length secrets) ->
  exists s2, handle_all (reveals secrets order) s = (Ok tt, s2) /\ values s2 = Some secrets.*1.
Proof using.
  intros Hs Hp Hl Hsec Hv Hh Ho.
  assert (forall i, i ∈ order <-> (i < length secrets)%nat) as Hin.
  { intros i. rewrite Ho, elem_of_seq. lia. }
  destruct (reveals_accepted secrets order s Hs) as (s2 & R2); [by rewrite Ho; apply NoDup_seq|done|..].
  { intros i Hi%Hin. split; [by apply Hv|]. destruct (lookup_lt_is_Some_2 _ _ Hi) as [[v salt] Hx].
    pose proof (Forall_lookup_1 _ _ _ _ Hsec Hx) as [Ht Hc].
    exists v, salt, (hash_of (v, salt)). split_and!; [done|done|by apply Hh|done]. }
  exists s2. split; [done|].
  destruct (handle_all_slots _ _ _ Hs (reveals_typed _ _ Hsec) R2) as (O2 & _ & L2 & H2 & V2).
  assert (values_ s2 = Some <$> secrets.*1) as Hvals.
  { apply list_eq. intros i. rewrite !list_lookup_fmap. destruct (secrets !! i) as [[v salt]|] eqn:Hx; simpl.
    - apply V2. right. exists (at_slot i), salt. split; [|apply slot_at]. apply elem_reveals. exists i.
      split_and!; [apply Hin; by eapply lookup_lt_Some|done|done].
    - apply lookup_ge_None in Hx. apply lookup_ge_None_2. rewrite (ok_len _ O2). lia. }
  assert (phase s2 = Complete) as Hc.
  { rewrite (ok_phase _ O2). unfold phase_of. rewrite (proj2 (filled_true (hashes s2))).
    - rewrite Hvals, (proj2 (filled_true _)); [done|]. intros i. rewrite list_lookup_fmap. by destruct (_ !! i).
    - intros i Hi. pose proof (lookup_lt_Some _ _ _ Hi) as Hlt. rewrite L2, Hl in Hlt.
      destruct (lookup_lt_is_Some_2 _ _ Hlt) as [x Hx].
      rewrite (proj2 (H2 i (hash_of x)) (or_introl (Hh i x Hx))) in Hi. done. }
  unfold values, is_complete. rewrite bool_decide_eq_true_2 by done. rewrite Hvals. apply mapM_id_Some.
Qed.

(** ** Guarantees *)

(** A round does not depend on the order of delivery: two hosts that applied
    the same messages of a round, each in its own accepted order, hold the same
    shared state. *)
Theorem commit_reveal_order_free s l1 l2 s1 s2 :
  cr_ok s -> Forall (fun x => msg_typed x.2) l1 -> l1 ≡ₚ l2 ->
  handle_all l1 s = (Ok tt, s1) -> handle_all l2 s = (Ok tt, s2) -> s1 = s2.
Proof using. intros Hs Ht Hp. apply handle_all_perm; [done|done|]. intros x. by rewrite Hp. Qed.

(** C29: commitments bind: once every commitment is in, all completions of the
    round reveal the same values, unless the messages of the two open the commitment
    of one slot by two openings with one digest. *)
Theorem commit_reveal_binding s l1 l2 s1 s2 :
  cr_ok s -> phase s = Revealing ->
  Forall (fun x => msg_typed x.2) l1 -> Forall (fun x => msg_typed x.2) l2 ->
  handle_all l1 s = (Ok tt, s1) -> handle_all l2 s = (Ok tt, s2) ->
  is_complete s1 = true -> is_complete s2 = true ->
  values s1 = values s2 \/ forged_opening l1 l2.
Proof using.
  intros Hs Hp T1 T2 R1 R2 P1%bool_decide_eq_true P2%bool_decide_eq_true.
  destruct (openings_bound s l1 l2 s1 s2) as [Hv|?]; try done; [left|by right].
  unfold values, is_complete. by rewrite P1, P2, Hv.
Qed.

(** An honest round completes: from an idle round of [n] participants, whose
    stashes are not of this round, every participant can commit; in whatever order
    the [n] commitments arrive they are accepted; then every stash yields its
    opening exactly once; and in whatever order the openings arrive they are
    accepted and the round ends with the committed values in participant order. *)
Theorem honest_round_completes s secrets locals order1 order2 :
  cr_ok s -> phase s = Idle -> hashes s = replicate (length secrets) None ->
  length locals = length secrets -> Forall (fresh_local s) locals -> Forall secret_ok secrets ->
  order1 ≡ₚ seq 0 (length secrets) -> order2 ≡ₚ seq 0 (length secrets) ->
  exists s1 s2,
    (forall i x l, secrets !! i = Some x -> locals !! i = Some l ->
       commit_with_salt s x.1 x.2 l = (Ok (Commit (hash_of x)), stash s x l) /\
       exists l', take_reveal s1 (stash s x l) = (Some (Reveal x.1 x.2), l') /\ take_reveal s1 l' = (None, l')) /\
    handle_all (commits (hash_of <$> secrets) order1) s = (Ok tt, s1) /\
    handle_all (reveals secrets order2) s1 = (Ok tt, s2) /\ values s2 = Some secrets.*1.
Proof using.
  intros Hs Hp Hh Hl Hf Hsec O1 O2.
  destruct (commit_round s secrets order1 Hs Hp Hh O1) as (s1 & R1 & K1 & P1 & E1 & L1 & V1 & H1).
  destruct (reveal_round s1 secrets order2 K1 P1 L1 Hsec V1 H1 O2) as (s2 & R2 & V2).
  exists s1, s2. split_and!; [|done|done|done]. intros i x l Hx Hli.
  pose proof (Forall_lookup_1 _ _ _ _ Hf Hli) as Hfl. pose proof (Forall_lookup_1 _ _ _ _ Hsec Hx) as [_ Hc].
  split; [by apply commit_eval|]. eexists. unfold stash. rewrite <- E1. split.
  - apply take_reveal_once; [done|]. rewrite E1. apply Hfl.
  - apply take_reveal_twice. done.
Qed.
End CommitReveal.

(** ** Examples: a round of two bytes *)

Definition cr0 : CommitReveal (T:=Z) := cr_default.
Definition secrets0 : list (Z * Z) := [(7, 100); (9, 200)].
Definition round0 : CommitReveal (T:=Z) :=
  Eval vm_compute in (handle_all (H:=toy) (c_uint 1) (commits (hash_of (H:=toy) (c_uint 1) <$> secrets0) [1; 0]%nat) cr0).2.

Lemma cr0_ok : cr_ok (H:=toy) (c_uint 1) cr0.
Proof.
  split; try done.
  - intros _. by repeat constructor.
  - intros [|[|i]] v; done.
Qed.
Lemma secrets0_ok : Forall (secret_ok (H:=toy) (c_uint 1)) secrets0.
Proof. repeat constructor; done. Qed.

Lemma honest_round_completes_witness :
  exists s1 s2 : CommitReveal (T:=Z),
    handle_all (H:=toy) (c_uint 1) (commits (hash_of (H:=toy) (c_uint 1) <$> secrets0) [1; 0]%nat) cr0 = (Ok tt, s1) /\
    handle_all (H:=toy) (c_uint 1) (reveals secrets0 [0; 1]%nat) s1 = (Ok tt, s2) /\ values s2 = Some [7; 9].
Proof.
  destruct (@honest_round_completes Z (c_uint 1) toy cr0 secrets0 [local_default; local_default] [1; 0]%nat [0; 1]%nat
    cr0_ok eq_refl eq_refl eq_refl) as (s1 & s2 & _ & R1 & R2 & V); [| | | |by exists s1, s2].
  - by repeat constructor.
  - exact secrets0_ok.
  - apply Permutation_swap.
  - done.
Defined.

Lemma round0_run :
  handle_all (H:=toy) (c_uint 1) (commits (hash_of (H:=toy) (c_uint 1) <$> secrets0) [1; 0]%nat) cr0 = (Ok tt, round0).
Proof. reflexivity. Qed.
Lemma round0_ok : cr_ok (H:=toy) (c_uint 1) round0.
Proof. exact (proj1 (handle_all_slots (c_uint 1) _ _ _ cr0_ok (commits_typed _ _ _) round0_run)). Qed.

Definition done0 : CommitReveal (T:=Z) :=
  Eval vm_compute in (handle_all (H:=toy) (c_uint 1) (reveals secrets0 [0; 1]%nat) round0).2.
Lemma done0_forth : handle_all (H:=toy) (c_uint 1) (reveals secrets0 [0; 1]%nat) round0 = (Ok tt, done0).
Proof. vm_compute. reflexivity. Qed.
Lemma done0_back : handle_all (H:=toy) (c_uint 1) (reveals secrets0 [1; 0]%nat) round0 = (Ok tt, done0).
Proof. vm_compute. reflexivity. Qed.

Lemma commit_reveal_binding_witness : values done0 = values done0 \/
  forged_opening (H:=toy) (c_uint 1) (reveals secrets0 [0; 1]%nat) (reveals secrets0 [1; 0]%nat).
Proof.
  refine (@commit_reveal_binding Z (c_uint 1) toy round0 (reveals secrets0 [0; 1]%nat) (reveals secrets0 [1; 0]%nat)
    done0 done0 round0_ok eq_refl _ _ done0_forth done0_back eq_refl eq_refl); apply (@reveals_typed Z (c_uint 1) toy), secrets0_ok.
Defined.

Lemma commit_reveal_order_free_witness : done0 = done0.
Proof.
  refine (@commit_reveal_order_free Z (c_uint 1) toy round0 (reveals secrets0 [0; 1]%nat) (reveals secrets0 [1; 0]%nat)
    done0 done0 round0_ok _ _ done0_forth done0_back); [apply (@reveals_typed Z (c_uint 1) toy), secrets0_ok|apply Permutation_swap].
Defined.
