(* ===== verification/Randomness.v ===== *)
(** * Joint randomness (arena0-primitives/src/joint_randomness.rs and commit_reveal.rs,
    arena0-crypto/src/permutation.rs)

    What a completed commit-reveal round of 32-byte nonces is used for: the XOR of
    the nonces, a seed, a permutation drawn from it by a Fisher-Yates pass, and the
    in-place application of that permutation.  ChaCha20 is not under [src/]: it is
    the class [Rng] of word streams. *)

From S2P Require Import Prelude Borsh Crypto Session Fixture Ballots CommitReveal.

Unset Program Cases.

(** [ChaCha20Rng]: the [k]-th [next_u64] of the generator seeded with [seed]. *)
Class Rng := {
  next_u64 : Z -> nat -> Z;
  next_u64_range : forall seed k, 0 <= next_u64 seed k < 2 ^ 64 }.

(** [[T]::swap]. *)
Definition swap {E A} (l : list A) (i j : nat) : result E (list A) :=
  let? x := expect (l !! i) in
  let? y := expect (l !! j) in
  Ok (<[i := y]> (<[j := x]> l)).

(** ** Drawing a permutation *)

Section Permutation.
Context `{Rng}.

Definition MAX_REJECTIONS : nat := 1024.

(** [upper_bound.wrapping_neg() % upper_bound]. *)
Definition threshold (ub : Z) : Z := ((- ub) mod 2 ^ 64) mod ub.

(** The loop of [choose]; the second component is the position in the stream. *)
Fixpoint choose_loop (tries : nat) (seed : Z) (k : nat) (ub : Z) : option Z * nat :=
  match tries with
  | O => (None, k)
  | S tries =>
      let value := next_u64 seed k in
      if threshold ub <=? value then (Some (value mod ub), S k) else choose_loop tries seed (S k) ub
  end.
Definition choose (seed : Z) (k : nat) (ub : Z) : option Z * nat := choose_loop MAX_REJECTIONS seed k ub.

(** [for index in (1..len).rev()]: one pass over a slice, from [index] down. *)
Fixpoint pass {E A} (index : nat) (seed : Z) (k : nat) (order : list A) : result E (option (list A)) :=
  match index with
  | O => Ok (Some order)
  | S below =>
      match choose seed k (Z.of_nat (S index)) with
      | (None, _) => Ok None
      | (Some j, k) => let? order := swap order index (Z.to_nat j) in pass below seed k order
      end
  end.

(** [permutation(seed, n)]. *)
Definition permutation {E} (seed : Z) (n : nat) : result E (option (list nat)) :=
  pass (n - 1) seed 0 (seq 0 n).

(** *** The same pass over given choices *)

(** [js] holds the choice for [index] first, then for [index - 1], and so on. *)
Fixpoint pass_with {A} (index : nat) (js : list nat) (l : list A) : option (list A) :=
  match index, js with
  | O, [] => Some l
  | S below, j :: js =>
      if (j <=? index)%nat then
        match swap (E:=unit) l index j with
        | Ok l => pass_with below js l
        | _ => None
        end
      else None
  | _, _ => None
  end.
End Permutation.

(** ** Nonces and seeds *)

Section Seed.
Context `{Crypto}.

(** Nonces are 32-byte arrays, kept as their value. *)
Abbreviation Nonces := (CommitReveal (T:=Z)) (only parsing).

Definition random_bytes (s : Nonces) : option Z := foldl Z.lxor 0 <$> values s.
Definition random_u64 (s : Nonces) : option Z := (fun r => le_val (take 8 (be_bytes 32 r))) <$> random_bytes s.
(** [v % max] panics on zero. *)
Definition random_range {E} (s : Nonces) (max : Z) : result E (option Z) :=
  match random_u64 s with
  | None => Ok None
  | Some v => if max =? 0 then Panic else Ok (Some (v mod max))
  end.
Definition coin_flip (s : Nonces) : option bool :=
  (fun r => match be_bytes 32 r with b :: _ => Z.land b 1 =? 1 | [] => false end) <$> random_bytes s.

Definition DOMAIN : bytes := bytes_of_string "arena0/joint-randomness/v1".
Definition seed_preimage (vs : list Z) : bytes :=
  DOMAIN ++ le_bytes 4 (zlen vs) ++ concat (be_bytes 32 <$> vs).
Definition seed (s : Nonces) : option Z := (fun vs => blake3 (seed_preimage vs)) <$> values s.

(** ** Applying the permutation in place *)

(** The [while] loop of one cycle.  Running out of fuel counts as a panic: the
    theorem below shows neither happens. *)
Fixpoint follow {E A} (fuel start current : nat) (order : list nat) (items : list A)
    : result E (list nat * list A) :=
  let? next := expect (order !! current) in
  if (next =? start)%nat then Ok (<[current := current]> order, items) else
  match fuel with
  | O => Panic
  | S fuel =>
      let? items := swap items current next in
      follow fuel start next (<[current := current]> order) items
  end.

(** [for start in 0..order.len()]. *)
Definition cycles {E A} (order : list nat) (items : list A) : result E (list nat * list A) :=
  try_fold (fun st start => follow (length order) start start st.1 st.2) (order, items) (seq 0 (length order)).

(** The draw as the native build makes it; in a guest the host's import traps above the
    limit of its profile ([import_permutation]). *)
Definition shuffle `{Rng} {E A} (s : Nonces) (items : list A) : result E (option (list A)) :=
  match seed s with
  | None => Ok None
  | Some sd =>
      if u32_max <? zlen items then Ok None else
      let? drawn := permutation sd (length items) in
      let? order := expect drawn in
      let? (_, items) := cycles order items in
      Ok (Some items)
  end.
End Seed.

(** ** Lemmas: swaps *)

Lemma swap_Ok {E A} (l : list A) i j l' :
  swap (E:=E) l i j = Ok l' <-> exists x y, l !! i = Some x /\ l !! j = Some y /\ l' = <[i := y]> (<[j := x]> l).
Proof.
  unfold swap. split.
  - intros Hs. inv_ok. eauto 6.
  - intros (x & y & -> & -> & ->). done.
Qed.
Lemma swap_total {E A} (l : list A) i j : (i < length l)%nat -> (j < length l)%nat ->
  exists l', swap (E:=E) l i j = Ok l'.
Proof.
  intros [x Hx]%lookup_lt_is_Some [y Hy]%lookup_lt_is_Some. eexists. apply swap_Ok. eauto 6.
Qed.
Lemma swap_lookup {E A} (l : list A) i j l' k :
  swap (E:=E) l i j = Ok l' -> l' !! k = l !! (if decide (k = i) then j else if decide (k = j) then i else k).
Proof.
  intros (x & y & Hx & Hy & ->)%swap_Ok. pose proof (lookup_lt_Some _ _ _ Hx). pose proof (lookup_lt_Some _ _ _ Hy).
  destruct (decide (k = i)) as [->|Hi].
  - by rewrite list_lookup_insert_eq by (by rewrite length_insert).
  - rewrite list_lookup_insert_ne by done. destruct (decide (k = j)) as [->|Hj].
    + by rewrite list_lookup_insert_eq.
    + by rewrite list_lookup_insert_ne.
Qed.
Lemma swap_length {E A} (l : list A) i j l' : swap (E:=E) l i j = Ok l' -> length l' = length l.
Proof. intros (x & y & _ & _ & ->)%swap_Ok. by rewrite !length_insert. Qed.
Lemma swap_fmap {E A B} (f : A -> B) (l : list A) i j l' :
  swap (E:=E) l i j = Ok l' -> swap (E:=E) (f <$> l) i j = Ok (f <$> l').
Proof.
  intros (x & y & Hx & Hy & ->)%swap_Ok. apply swap_Ok. exists (f x), (f y).
  rewrite !list_lookup_fmap, Hx, Hy. by rewrite !list_fmap_insert.
Qed.

Lemma swap_perm {E A} (l : list A) i j l' : swap (E:=E) l i j = Ok l' -> l' ≡ₚ l.
Proof.
  intros (x & y & Hx & Hy & ->)%swap_Ok. by apply Permutation_insert_swap.
Qed.

(** ** Following the cycles *)

Section Cycles.
Context {A : Type} (n : nat) (R : nat -> option A).

(** Between two cycles: [order] is a permutation of the slots and reading [items]
    through it gives the result. *)
Record between (order : list nat) (items : list A) : Prop := {
  bt_order : length order = n;
  bt_items : length items = n;
  bt_range : forall i o, order !! i = Some o -> (o < n)%nat;
  bt_inj : forall i j o, order !! i = Some o -> order !! j = Some o -> i = j;
  bt_read : forall i o, order !! i = Some o -> items !! o = R i }.

(** Inside the cycle of [start], at [current]: the item of [start] travels with
    [current], where the slot that still points to [start] will read it. *)
Record inside (start current : nat) (order : list nat) (items : list A) : Prop := {
  in_order : length order = n;
  in_items : length items = n;
  in_current : (current < n)%nat;
  in_range : forall i o, order !! i = Some o -> (o < n)%nat;
  in_inj : forall i j o, order !! i = Some o -> order !! j = Some o ->
    o <> start \/ i <> start /\ j <> start \/ current = start -> i = j;
  in_free : current <> start -> (forall i, order !! i <> Some current) /\ order !! start = Some start;
  in_read : forall i o, order !! i = Some o ->
    items !! (if decide (o = start /\ i <> start) then current else o) = R i }.

Lemma between_inside start order items : (start < n)%nat -> between order items -> inside start start order items.
Proof.
  intros Hs [H1 H2 H3 H4 H5]. split; try done; [by eauto|]. intros i o Hi.
  destruct (decide _) as [[-> _]|_]; by eapply H5.
Qed.

Definition fixes (order : list nat) (i : nat) : Prop := order !! i = Some i.

(** One turn of the loop. *)
Lemma inside_step {E} start current next order items items' :
  inside start current order items -> order !! current = Some next -> next <> start ->
  swap (E:=E) items current next = Ok items' ->
  inside start next (<[current := current]> order) items' /\ ~ fixes order current.
Proof.
  intros [Ho Hi Hc Hr Hinj Hf Hread] Hn Hne Hs.
  assert (current <> next) as Hcn.
  { intros <-. destruct (decide (current = start)) as [->|Hcs]; [done|]. by apply (proj1 (Hf Hcs) current). }
  assert (current < length order)%nat as Hlt by lia.
  assert (forall i, i <> current -> order !! i <> Some next) as Hpre.
  { intros i Hic Hin. apply Hic. eapply Hinj; [exact Hin|exact Hn|by left]. }
  split; [|intros Hfx; unfold fixes in Hfx; congruence]. split.
  - by rewrite length_insert.
  - by rewrite (swap_length _ _ _ _ Hs).
  - by eapply Hr.
  - intros i o. destruct (decide (i = current)) as [->|Hic].
    + rewrite list_lookup_insert_eq by done. by intros [= <-].
    + rewrite list_lookup_insert_ne by done. apply Hr.
  - intros i j o. destruct (decide (i = current)) as [->|Hic], (decide (j = current)) as [->|Hjc]; try done;
      rewrite ?list_lookup_insert_eq, ?list_lookup_insert_ne by done.
    + intros [= <-] Hj Hor. destruct (decide (current = start)) as [->|Hcs].
      * destruct Hor as [?|[[? _]|?]]; done.
      * by destruct (proj1 (Hf Hcs) j).
    + intros Hj [= <-] Hor. destruct (decide (current = start)) as [->|Hcs].
      * destruct Hor as [?|[[_ ?]|?]]; done.
      * by destruct (proj1 (Hf Hcs) i).
    + intros H1 H2 Hor. eapply Hinj; [done|done|]. destruct Hor as [?|[?|?]]; [by left|by right; left|done].
  - intros _. split.
    + intros i. destruct (decide (i = current)) as [->|Hic].
      * rewrite list_lookup_insert_eq by done. congruence.
      * rewrite list_lookup_insert_ne by done. by apply Hpre.
    + destruct (decide (current = start)) as [->|Hcs]; [by rewrite list_lookup_insert_eq|].
      rewrite list_lookup_insert_ne by done. apply (Hf Hcs).
  - intros i o Hio. rewrite (swap_lookup _ _ _ _ _ Hs). destruct (decide (i = current)) as [->|Hic].
    + rewrite list_lookup_insert_eq in Hio by done. injection Hio as <-.
      rewrite (decide_False (P:=current = start /\ current <> start)) by naive_solver.
      rewrite decide_True by done. rewrite <- (Hread current next Hn).
      by rewrite (decide_False (P:=next = start /\ _)) by naive_solver.
    + rewrite list_lookup_insert_ne in Hio by done. rewrite <- (Hread i o Hio).
      destruct (decide (o = start /\ i <> start)) as [_|Hno].
      * by rewrite decide_False, decide_True by done.
      * rewrite decide_False; [rewrite decide_False; [done|]|].
        -- intros ->. by apply (Hpre i Hic).
        -- intros ->. destruct (decide (current = start)) as [->|Hcs]; [naive_solver|by apply (proj1 (Hf Hcs) i)].
Qed.

(** The exit of the loop. *)
Lemma inside_exit start current order items :
  inside start current order items -> order !! current = Some start ->
  between (<[current := current]> order) items /\ fixes (<[current := current]> order) start.
Proof.
  intros [Ho Hi Hc Hr Hinj Hf Hread] Hn. assert (current < length order)%nat as Hlt by lia.
  split; [split|].
  - by rewrite length_insert.
  - done.
  - intros i o. destruct (decide (i = current)) as [->|Hic].
    + rewrite list_lookup_insert_eq by done. by intros [= <-].
    + rewrite list_lookup_insert_ne by done. apply Hr.
  - intros i j o. destruct (decide (i = current)) as [->|Hic], (decide (j = current)) as [->|Hjc]; try done;
      rewrite ?list_lookup_insert_eq, ?list_lookup_insert_ne by done.
    + intros [= <-] Hj. destruct (decide (current = start)) as [->|Hcs]; [eapply Hinj; eauto|].
      by destruct (proj1 (Hf Hcs) j).
    + intros Hj [= <-]. destruct (decide (current = start)) as [->|Hcs]; [eapply Hinj; eauto|].
      by destruct (proj1 (Hf Hcs) i).
    + intros H1 H2. destruct (decide (current = start)) as [->|Hcs]; [by eapply Hinj; eauto|].
      destruct (decide (o = start)) as [->|Hos]; [|by eapply Hinj; eauto].
      destruct (decide (i = start)) as [->|His], (decide (j = start)) as [->|Hjs]; try done.
      * destruct Hjc. eapply Hinj; [exact H2|exact Hn|right; left; done].
      * destruct Hic. eapply Hinj; [exact H1|exact Hn|right; left; done].
      * eapply Hinj; eauto.
  - intros i o Hio. destruct (decide (i = current)) as [->|Hic].
    + rewrite list_lookup_insert_eq in Hio by done. injection Hio as <-. rewrite <- (Hread _ _ Hn).
      destruct (decide (current = start)) as [->|Hcs]; [by rewrite decide_False by naive_solver|].
      by rewrite decide_True by done.
    + rewrite list_lookup_insert_ne in Hio by done. rewrite <- (Hread i o Hio).
      rewrite decide_False; [done|]. intros [-> His]. destruct Hic.
      destruct (decide (current = start)) as [->|Hcs]; eapply Hinj; eauto.
  - unfold fixes. destruct (decide (current = start)) as [->|Hcs]; [by rewrite list_lookup_insert_eq|].
    rewrite list_lookup_insert_ne by done. apply (Hf Hcs).
Qed.
(** Each turn of the loop fixes one more slot, so as many turns as there are
    slots are enough. *)
Definition loose (order : list nat) : gset nat := filter (fun i => order !! i <> Some i) (set_seq 0 (length order)).

Lemma loose_small order : (size (loose order) <= length order)%nat.
Proof.
  unfold loose. transitivity (size (set_seq 0 (length order) : gset nat)).
  - apply subseteq_size. set_solver.
  - by rewrite size_set_seq.
Qed.
Lemma loose_insert order i : (i < length order)%nat -> ~ fixes order i ->
  (size (loose (<[i := i]> order)) < size (loose order))%nat.
Proof.
  intros Hi Hf. apply subset_size. unfold loose. rewrite length_insert. split.
  - intros j [Hj Hin]%elem_of_filter. apply elem_of_filter. split; [|done]. intros Hfj. apply Hj.
    destruct (decide (i = j)) as [<-|]; [by rewrite list_lookup_insert_eq|by rewrite list_lookup_insert_ne].
  - intros Hsub. assert (i ∈ loose (<[i := i]> order)) as Hin.
    { unfold loose. rewrite length_insert. apply Hsub, elem_of_filter. split; [done|]. apply elem_of_set_seq. lia. }
    apply elem_of_filter in Hin as [Hin _]. by rewrite list_lookup_insert_eq in Hin.
Qed.

Lemma fixes_insert order c i : fixes order i -> fixes (<[c := c]> order) i.
Proof.
  unfold fixes. intros Hf. destruct (decide (c = i)) as [<-|]; [|by rewrite list_lookup_insert_ne].
  apply list_lookup_insert_eq. by eapply lookup_lt_Some.
Qed.

Lemma follow_spec {E} fuel start current order items :
  inside start current order items -> (size (loose order) <= fuel)%nat ->
  exists order' items', follow (E:=E) fuel start current order items = Ok (order', items') /\
    between order' items' /\ fixes order' start /\ forall i, fixes order i -> fixes order' i.
Proof.
  revert current order items. induction fuel as [|fuel IH]; intros current order items Hin Hf;
    pose proof Hin as [Ho Hi Hc Hr _ _ _]; destruct (lookup_lt_is_Some_2 order current) as [next Hn]; try lia;
    cbn [follow]; rewrite Hn; cbn [expect rbind]; destruct (next =? start)%nat eqn:Hx.
  1, 3: apply Nat.eqb_eq in Hx as ->; destruct (inside_exit _ _ _ _ Hin Hn);
    exists (<[current := current]> order), items; split_and!; try done; intros i; apply fixes_insert.
  all: apply Nat.eqb_neq in Hx;
    destruct (swap_total (E:=E) items current next) as [items' Hs]; [lia|rewrite Hi; by eapply Hr|];
    destruct (inside_step _ _ _ _ _ _ Hin Hn Hx Hs) as [Hin' Hnf];
    pose proof (loose_insert order current ltac:(lia) Hnf) as Hdec.
  - lia.
  - rewrite Hs. cbn [rbind].
    destruct (IH next (<[current := current]> order) items' Hin') as (o' & i' & Hfo & Hb & Hst & Hk); [lia|].
    exists o', i'. split_and!; try done. intros i Hfx. by apply Hk, fixes_insert.
Qed.

Lemma cycles_loop {E} fuel starts order items :
  (n <= fuel)%nat -> Forall (fun i => (i < n)%nat) starts -> between order items ->
  exists order' items',
    try_fold (fun st start => follow (E:=E) fuel start start st.1 st.2) (order, items) starts = Ok (order', items') /\
    between order' items' /\ (forall i, fixes order i -> fixes order' i) /\ forall i, i ∈ starts -> fixes order' i.
Proof.
  intros Hfu Hst. revert order items. induction Hst as [|start starts Hs _ IH]; intros order items Hb.
  { exists order, items. split_and!; try done. by intros i ?%elem_of_nil. }
  cbn [try_fold fst snd]. destruct (follow_spec (E:=E) fuel start start order items) as (o1 & i1 & -> & Hb1 & Hf1 & Hk1).
  { by apply between_inside. }
  { pose proof (loose_small order) as Hl. rewrite (bt_order _ _ Hb) in Hl. lia. }
  cbn [rbind]. destruct (IH o1 i1 Hb1) as (o2 & i2 & -> & Hb2 & Hk2 & Hin2). exists o2, i2.
  split_and!; try done; [by auto|]. intros i [->|Hi]%elem_of_cons; [by apply Hk2|by apply Hin2].
Qed.
End Cycles.

(** The in-place pass returns, without a panic, the items read through the order. *)
Lemma cycles_spec {E A} (order : list nat) (items : list A) :
  order ≡ₚ seq 0 (length items) ->
  exists order', cycles (E:=E) order items = Ok (order', omap (fun o => items !! o) order).
Proof.
  intros Hp. assert (length order = length items) as Hlen by (by rewrite Hp, length_seq).
  assert (forall i o, order !! i = Some o -> (o < length items)%nat) as Hr.
  { intros i o Ho. apply list_elem_of_lookup_2 in Ho. rewrite Hp, elem_of_seq in Ho. lia. }
  set (R i := o ← order !! i; items !! o).
  destruct (cycles_loop (E:=E) (length items) R (length order) (seq 0 (length order)) order items)
    as (o' & i' & Hc & Hb & _ & Hfix).
  { lia. }
  { apply Forall_forall. intros i Hi%elem_of_seq. lia. }
  { split; try done.
    - intros i j o. apply NoDup_lookup. rewrite Hp. apply NoDup_seq.
    - intros i o Ho. unfold R. by rewrite Ho. }
  exists o'. unfold cycles. rewrite Hc. do 2 f_equal. apply list_eq. intros i.
  assert (omap (fun o => items !! o) order !! i = R i) as ->.
  { unfold R. clear -Hr. revert i. induction order as [|o order IH]; intros i; [done|]. cbn [omap list_omap].
    assert (o < length items)%nat as [x Hx]%lookup_lt_is_Some by (by apply (Hr 0%nat)). rewrite Hx.
    destruct i as [|i]; [done|]. simpl. apply IH. intros j p Hj. by apply (Hr (S j)). }
  destruct (decide (i < length items)%nat) as [Hi|Hi].
  - assert (fixes o' i) as Hfi by (apply Hfix, elem_of_seq; lia). by apply (bt_read _ _ _ _ Hb).
  - unfold R. rewrite (lookup_ge_None_2 order) by lia. apply lookup_ge_None_2. rewrite (bt_items _ _ _ _ Hb). lia.
Qed.

(** ** The drawn permutation *)

Section Drawing.
Context `{Rng}.

(** *** One draw *)

Lemma threshold_spec ub : 0 < ub <= 2 ^ 64 -> threshold ub = 2 ^ 64 mod ub.
Proof.
  intros Hub. unfold threshold.
  replace (- ub) with (2 ^ 64 - ub + (-1) * 2 ^ 64) by lia. rewrite Z_mod_plus_full.
  rewrite (Z.mod_small (2 ^ 64 - ub)) by lia. replace (2 ^ 64 - ub) with (2 ^ 64 + (-1) * ub) by lia.
  apply Z_mod_plus_full.
Qed.

(** The accepted words fall evenly on the results: each result has one word for
    each quotient below [2^64 / ub]. *)
Lemma draw_even ub r q :
  0 < ub <= 2 ^ 64 -> 0 <= r < ub -> 0 <= q < 2 ^ 64 / ub ->
  exists! w, threshold ub <= w < 2 ^ 64 /\ w mod ub = r /\ (w - threshold ub) / ub = q.
Proof.
  intros Hub Hr Hq. rewrite threshold_spec by done. set (t := 2 ^ 64 mod ub). set (d := 2 ^ 64 / ub) in *.
  assert (2 ^ 64 = ub * d + t) as HW by (apply Z.div_mod; lia).
  assert (0 <= t < ub) as Ht by (apply Z.mod_pos_bound; lia).
  exists (t + q * ub + (r - t) mod ub). pose proof (Z.mod_pos_bound (r - t) ub ltac:(lia)) as Hm. split.
  - split_and!; [nia|nia| |].
    + replace (t + q * ub + (r - t) mod ub) with (t + (r - t) mod ub + q * ub) by lia.
      rewrite Z_mod_plus_full, Zplus_mod_idemp_r. replace (t + (r - t)) with r by lia. by apply Z.mod_small.
    + replace (t + q * ub + (r - t) mod ub - t) with (q * ub + (r - t) mod ub) by lia.
      rewrite Z.div_add_l by lia. rewrite Z.div_small by lia. lia.
  - intros w (Hw & Hwr & Hwq).
    assert (w - t = ub * q + (w - t) mod ub) as Hd by (rewrite <- Hwq; apply Z.div_mod; lia).
    assert ((w - t) mod ub = (r - t) mod ub) as He by (rewrite <- Hwr; by rewrite Zminus_mod_idemp_l). lia.
Qed.

(** A draw is the first word at or above the threshold, reduced. *)
Lemma choose_loop_first tries seed k ub v k' :
  choose_loop tries seed k ub = (Some v, k') ->
  exists i, (k <= i)%nat /\ k' = S i /\ threshold ub <= next_u64 seed i /\ v = next_u64 seed i mod ub /\
    forall j, (k <= j < i)%nat -> next_u64 seed j < threshold ub.
Proof.
  revert k. induction tries as [|tries IH]; intros k; [done|]. simpl.
  destruct (Z.leb_spec (threshold ub) (next_u64 seed k)).
  - intros [= <- <-]. exists k. repeat split; [lia|done|]. intros j ?. lia.
  - intros (i & ? & ? & ? & ? & Hb)%IH. exists i. repeat split; [lia|done..|].
    intros j ?. destruct (decide (j = k)) as [->|]; [done|]. apply Hb. lia.
Qed.

Lemma choose_loop_range tries seed k ub j k' :
  0 < ub -> choose_loop tries seed k ub = (Some j, k') -> 0 <= j < ub.
Proof.
  intros Hub. revert k. induction tries as [|tries IH]; intros k; [done|]. cbn [choose_loop].
  destruct (_ <=? _); [|apply IH]. intros [= <- _]. by apply Z.mod_pos_bound.
Qed.

(** *** The pass *)

(** A pass permutes its slice and never panics. *)
Lemma pass_perm {E A} index seed k (l : list A) :
  (index < length l \/ l = [] /\ index = 0)%nat ->
  exists r, pass (E:=E) index seed k l = Ok r /\ forall l', r = Some l' -> l' ≡ₚ l.
Proof.
  revert k l. induction index as [|index IH]; intros k l Hl; cbn [pass].
  { eexists. split; [done|]. by intros l' [= ->]. }
  destruct (choose _ _ _) as [[j|] k'] eqn:Hc; [|by exists None].
  apply choose_loop_range in Hc; [|lia].
  destruct (swap_total (E:=E) l (S index) (Z.to_nat j)) as [l1 Hs]; [lia|lia|]. rewrite Hs. cbn [rbind].
  destruct (IH k' l1) as (r & Hr & Hp); [left; rewrite (swap_length _ _ _ _ Hs); lia|].
  exists r. split; [done|]. intros l' ->. rewrite (Hp l' eq_refl).
  by eapply swap_perm.
Qed.

(** A pass commutes with renaming the items. *)
Lemma pass_fmap {E A B} (f : A -> B) index seed k (l : list A) r :
  pass (E:=E) index seed k l = Ok r -> pass (E:=E) index seed k (map f l) = Ok (option_map (map f) r).
Proof.
  revert k l. induction index as [|index IH]; intros k l; cbn [pass]; [by intros [= <-]|].
  destruct (choose _ _ _) as [[j|] k']; [|by intros [= <-]]. intros Hp. apply rbind_Ok in Hp as (l1 & Hs & Hp).
  pose proof (swap_fmap f _ _ _ _ Hs) as Hf. change (f <$> l) with (map f l) in Hf. rewrite Hf.
  cbn [rbind]. by apply IH.
Qed.

Lemma lookup_seq {A} (l : list A) : (fun i => l !! i) <$> seq 0 (length l) = Some <$> l.
Proof.
  apply list_eq. intros i. rewrite !list_lookup_fmap. destruct (decide (i < length l)%nat) as [Hi|Hi].
  - rewrite lookup_seq_lt by done. simpl. by destruct (lookup_lt_is_Some_2 _ _ Hi) as [x ->].
  - rewrite lookup_seq_ge, lookup_ge_None_2 by lia. done.
Qed.
Lemma omap_lookup {A} (l out : list A) order : (fun i => l !! i) <$> order = Some <$> out -> omap (fun i => l !! i) order = out.
Proof.
  revert out. induction order as [|o order IH]; intros [|x out] Ho; try done. cbn [fmap list_fmap] in Ho.
  injection Ho as Hx Ho. cbn [omap list_omap]. rewrite Hx. f_equal. by apply IH.
Qed.

(** Reading the items through the drawn order is the same pass over the items. *)
Lemma pass_reads {E A} seed (items : list A) order :
  permutation (E:=E) seed (length items) = Ok (Some order) ->
  order ≡ₚ seq 0 (length items) /\
  pass (E:=E) (length items - 1) seed 0 items = Ok (Some (omap (fun i => items !! i) order)).
Proof.
  unfold permutation. intros Ho.
  assert (forall B (l : list B), length l = length items ->
    (length items - 1 < length l \/ l = [] /\ length items - 1 = 0)%nat) as Hlen.
  { intros B [|x l] Hl; simpl in *; [right; split; [done|lia]|left; lia]. }
  destruct (pass_perm (E:=E) (length items - 1) seed 0 (seq 0 (length items))) as (r & Hr & Hp).
  { apply Hlen, length_seq. }
  rewrite Ho in Hr. injection Hr as <-. split; [by apply Hp|].
  destruct (pass_perm (E:=E) (length items - 1) seed 0 items) as (r & Hr & _); [by apply Hlen|].
  pose proof (pass_fmap (fun i => items !! i) _ _ _ _ _ Ho) as E1.
  pose proof (pass_fmap Some _ _ _ _ _ Hr) as E2.
  assert (map (fun i => items !! i) (seq 0 (length items)) = map Some items) as E3 by apply lookup_seq.
  rewrite E3 in E1. rewrite E1 in E2. injection E2 as E2.
  rewrite Hr. destruct r as [out|]; simpl in E2; [|done]. injection E2 as E2. do 2 f_equal.
  by rewrite (omap_lookup _ _ _ E2).
Qed.

(** *** Choices and permutations *)

(** The choices a pass draws. *)
Fixpoint draws (index : nat) (seed : Z) (k : nat) : option (list nat) :=
  match index with
  | O => Some []
  | S below =>
      match choose seed k (Z.of_nat (S index)) with
      | (None, _) => None
      | (Some j, k) => (fun js => Z.to_nat j :: js) <$> draws below seed k
      end
  end.

Lemma pass_draws {E A} index seed k (l l' : list A) :
  pass (E:=E) index seed k l = Ok (Some l') ->
  exists js, draws index seed k = Some js /\ pass_with index js l = Some l'.
Proof.
  revert k l. induction index as [|index IH]; intros k l; cbn [pass draws pass_with]; [intros [= ->]; by exists []|].
  destruct (choose _ _ _) as [[j|] k'] eqn:Hc; [|done]. intros Hp. apply rbind_Ok in Hp as (l1 & Hs & Hp).
  destruct (IH _ _ Hp) as (js & -> & Hw). eexists. split; [done|]. apply choose_loop_range in Hc; [|lia].
  cbn [pass_with]. destruct (Z.to_nat j <=? S index)%nat eqn:Hj; [|apply Nat.leb_gt in Hj; lia].
  apply swap_Ok in Hs. by rewrite (proj2 (swap_Ok (E:=unit) _ _ _ _) Hs).
Qed.

Lemma pass_with_keeps {A} index js (l p : list A) i :
  pass_with index js l = Some p -> (index < i)%nat -> p !! i = l !! i.
Proof.
  revert js l. induction index as [|index IH]; intros [|j js] l Hp Hi; cbn [pass_with] in Hp; try done.
  { by injection Hp as ->. }
  destruct (j <=? S index)%nat eqn:Hj; [|done]. apply Nat.leb_le in Hj.
  destruct (swap l (S index) j) as [l1| |] eqn:Hs; try done.
  rewrite (IH _ _ Hp) by lia. rewrite (swap_lookup _ _ _ _ _ Hs). by rewrite !decide_False by lia.
Qed.

(** Every rearrangement of the slots up to [index] comes from exactly one
    sequence of choices. *)
Lemma pass_with_unique {A} index (l p : list A) :
  NoDup l -> (index < length l)%nat -> p ≡ₚ l -> (forall i, (index < i)%nat -> p !! i = l !! i) ->
  exists! js, pass_with index js l = Some p.
Proof.
  revert l. induction index as [|index IH]; intros l Hn Hl Hp Hk.
  { exists []. split.
    - cbn [pass_with]. f_equal. destruct l as [|y l], p as [|x p]; try (simpl in Hl; lia).
      { by apply Permutation_nil_cons in Hp. }
      assert (p = l) as -> by (apply list_eq; intros i; apply (Hk (S i)); lia).
      apply (Permutation_app_inv_r l [x] [y]), Permutation_singleton_inj in Hp. by rewrite Hp.
    - intros [|j js]; [done|]. by cbn [pass_with]. }
  assert (length p = length l) as Hlp by (by rewrite Hp).
  destruct (lookup_lt_is_Some_2 p (S index)) as [x Hx]; [lia|].
  assert (x ∈ l) as [j Hj]%list_elem_of_lookup by (rewrite <- Hp; by eapply list_elem_of_lookup_2).
  assert (NoDup p) as Hnp by (by rewrite Hp).
  assert (j <= S index)%nat as Hle.
  { destruct (decide (j <= S index)%nat); [done|]. rewrite <- (Hk j) in Hj by lia.
    pose proof (NoDup_lookup _ _ _ _ Hnp Hj Hx). lia. }
  destruct (swap_total (E:=unit) l (S index) j) as [l1 Hs]; [done|lia|].
  destruct (IH l1) as (js & Hjs & Hu).
  { by rewrite (swap_perm _ _ _ _ Hs). }
  { rewrite (swap_length _ _ _ _ Hs). lia. }
  { by rewrite (swap_perm _ _ _ _ Hs). }
  { intros i Hi. rewrite (swap_lookup _ _ _ _ _ Hs). destruct (decide (i = S index)) as [->|]; [congruence|].
    rewrite decide_False by lia. apply Hk. lia. }
  exists (j :: js). split.
  - cbn [pass_with]. rewrite (proj2 (Nat.leb_le _ _)) by done. by rewrite Hs.
  - intros [|j2 js2]; cbn [pass_with]; [done|]. destruct (j2 <=? S index)%nat; [|done].
    destruct (swap l (S index) j2) as [l2| |] eqn:Hs2; try done. intros Hp2.
    assert (j2 = j) as ->.
    { pose proof (pass_with_keeps _ _ _ _ (S index) Hp2 ltac:(lia)) as E2.
      rewrite (swap_lookup _ _ _ _ _ Hs2), decide_True in E2 by done.
      eapply NoDup_lookup; [exact Hn| |exact Hj]. congruence. }
    f_equal. apply Hu. congruence.
Qed.
End Drawing.

(** ** Seeds *)

Section Seeds.
Context `{Crypto}.

Lemma be_bytes_inj n x y :
  0 <= x < 256 ^ Z.of_nat n -> 0 <= y < 256 ^ Z.of_nat n -> be_bytes n x = be_bytes n y -> x = y.
Proof. intros Hx Hy E. rewrite <- (be_val_bytes n x), <- (be_val_bytes n y) by done. by rewrite E. Qed.

Definition nonce_typed (x : Z) : Prop := 0 <= x < 256 ^ Z.of_nat 32.

Lemma nonces_inj vs ws :
  Forall nonce_typed vs -> Forall nonce_typed ws -> length vs = length ws ->
  concat (be_bytes 32 <$> vs) = concat (be_bytes 32 <$> ws) -> vs = ws.
Proof.
  intros Hv. revert ws. induction Hv as [|x vs Hx _ IH]; intros [|y ws] Hw Hl E; try done.
  apply Forall_cons in Hw as [Hy Hw]. cbn [fmap list_fmap concat] in E.
  apply app_inj_1 in E as [E1 E2]; [|by rewrite !length_be_bytes].
  apply be_bytes_inj in E1 as ->; [|done..]. f_equal. apply IH; [done|by injection Hl|done].
Qed.

Lemma seed_preimage_inj vs ws :
  Forall nonce_typed vs -> Forall nonce_typed ws -> zlen vs <= u8_max -> zlen ws <= u8_max ->
  seed_preimage vs = seed_preimage ws -> vs = ws.
Proof.
  intros Hv Hw Lv Lw E. unfold seed_preimage in E. apply app_inj_1 in E as [_ E]; [|done].
  apply app_inj_1 in E as [El E]; [|by rewrite !length_le_bytes].
  apply nonces_inj; [done|done| |done].
  assert (zlen vs = zlen ws) as Hz; [|unfold zlen in Hz; lia].
  pose proof (zlen_nonneg vs). pose proof (zlen_nonneg ws). unfold u8_max in *.
  rewrite <- (le_val_bytes 4 (zlen vs)), <- (le_val_bytes 4 (zlen ws)) by lia. by rewrite El.
Qed.

Lemma mapM_id_Forall2 {A} (l : list (option A)) k : mapM id l = Some k -> l = Some <$> k.
Proof.
  revert k. induction l as [|o l IH]; intros k Hk; [by injection Hk as <-|]. cbn [mapM] in Hk.
  destruct o as [x|]; simpl in Hk; [|done]. destruct (mapM id l) as [k'|] eqn:E; simpl in Hk; [|done].
  injection Hk as <-. cbn [fmap list_fmap]. f_equal. by apply IH.
Qed.

(** The values of a completed round are nonces, at most 255 of them. *)
Lemma values_typed (s : CommitReveal (T:=Z)) vs :
  cr_ok (c_arr 32) s -> values s = Some vs -> Forall nonce_typed vs /\ zlen vs <= u8_max.
Proof.
  intros Hs. unfold values. destruct (is_complete s); [|done]. intros Hv%mapM_id_Forall2. split.
  - apply Forall_forall. intros x [i Hi]%list_elem_of_lookup.
    destruct (ok_open _ s Hs i x) as (salt & h & [Ht _] & _); [by rewrite Hv, list_lookup_fmap, Hi|exact Ht].
  - pose proof (ok_count _ s Hs). pose proof (ok_len _ s Hs) as Hl. rewrite Hv, length_fmap in Hl.
    unfold zlen in *. lia.
Qed.

(** ** Guarantees *)

(** C30: once the permutation is drawn the in-place shuffle terminates, without a panic, with the items read
    through the drawn permutation, which is the result of running the same
    Fisher-Yates pass directly over the items. *)
Theorem shuffle_is_fisher_yates `{Rng} {A} (s : CommitReveal (T:=Z)) (items : list A) sd order :
  seed s = Some sd -> zlen items <= u32_max ->
  permutation (E:=unit) sd (length items) = Ok (Some order) ->
  shuffle (E:=unit) s items = Ok (Some (omap (fun i => items !! i) order)) /\
  pass (E:=unit) (length items - 1) sd 0 items = Ok (Some (omap (fun i => items !! i) order)) /\
  omap (fun i => items !! i) order ≡ₚ items.
Proof.
  intros Hs Hl Ho. pose proof (pass_reads sd items order Ho) as [Hp Hd]. split_and!; [|done|].
  - unfold shuffle. rewrite Hs, (proj2 (Z.ltb_ge _ _)) by done. rewrite Ho. cbn [rbind expect].
    destruct (cycles_spec (E:=unit) order items Hp) as [o' ->]. done.
  - destruct (pass_perm (E:=unit) (length items - 1) sd 0 items) as (r & Hr & Hperm).
    + destruct items; simpl; [right; split; [done|lia]|left; lia].
    + rewrite Hd in Hr. injection Hr as <-. by apply Hperm.
Qed.

(** Every arrangement of [n] items is the result of exactly one sequence of
    choices of the pass, and what a seed draws is the result of the choices it
    draws: a uniform sequence of choices gives a uniform permutation. *)
Theorem choices_are_permutations `{Rng} n p :
  p ≡ₚ seq 0 (S n) ->
  (exists! js, pass_with n js (seq 0 (S n)) = Some p) /\
  forall sd, permutation (E:=unit) sd (S n) = Ok (Some p) ->
    exists js, draws n sd 0 = Some js /\ pass_with n js (seq 0 (S n)) = Some p.
Proof.
  intros Hp. split.
  - apply pass_with_unique; [apply NoDup_seq|rewrite length_seq; lia|done|].
    intros i Hi. rewrite !lookup_ge_None_2; [done|rewrite length_seq; lia|rewrite Hp, length_seq; lia].
  - intros sd Hd. unfold permutation in Hd. replace (S n - 1)%nat with n in Hd by lia. by eapply pass_draws.
Qed.

(** The rejection sampling of one draw is exactly even: a draw is the first
    word at or above the threshold, reduced; and those words are distributed over
    the [ub] results with [2^64 / ub] words each. *)
Theorem draws_are_even `{Rng} sd k ub r q :
  0 < ub <= 2 ^ 64 -> 0 <= r < ub -> 0 <= q < 2 ^ 64 / ub ->
  (forall v k', choose sd k ub = (Some v, k') ->
     exists i, (k <= i)%nat /\ k' = S i /\ threshold ub <= next_u64 sd i /\ v = next_u64 sd i mod ub /\
       forall j, (k <= j < i)%nat -> next_u64 sd j < threshold ub) /\
  exists! w, threshold ub <= w < 2 ^ 64 /\ w mod ub = r /\ (w - threshold ub) / ub = q.
Proof.
  split; [intros ??; apply choose_loop_first|]. by apply draw_even.
Qed.

(** The joint seed commits to every contribution: two completed rounds with
    the same seed have the same values, unless their preimages have one digest. *)
Theorem seed_binds_contributions (s1 s2 : CommitReveal (T:=Z)) vs1 vs2 sd :
  cr_ok (c_arr 32) s1 -> cr_ok (c_arr 32) s2 -> values s1 = Some vs1 -> values s2 = Some vs2 ->
  seed s1 = Some sd -> seed s2 = Some sd -> vs1 = vs2 \/ collision (seed_preimage vs1) (seed_preimage vs2).
Proof.
  intros O1 O2 V1 V2. unfold seed. rewrite V1, V2. intros [= E1] [= E2]. rewrite <- E2 in E1.
  apply blake3_cases in E1 as [E|?]; [left|by right].
  destruct (values_typed s1 vs1 O1 V1), (values_typed s2 vs2 O2 V2). by apply seed_preimage_inj.
Qed.
End Seeds.

(** ** Examples *)

(** A generator whose words are a counter in the upper half of the range. *)
#[global] Instance toy_rng : Rng.
Proof.
  refine {| next_u64 := fun seed k => (2 ^ 63 + seed + 5 * Z.of_nat k) mod 2 ^ 64 |}.
  intros seed k. apply Z.mod_pos_bound. lia.
Defined.

Definition nonces_new : CommitReveal (T:=Z) := cr_default.
Definition nonces_committed : CommitReveal (T:=Z) :=
  Eval vm_compute in
    (handle_all (H:=toy) (c_arr 32) (commits (hash_of (H:=toy) (c_arr 32) <$> secrets0) [0; 1]%nat) nonces_new).2.
Definition nonces0 : CommitReveal (T:=Z) :=
  Eval vm_compute in (handle_all (H:=toy) (c_arr 32) (reveals secrets0 [0; 1]%nat) nonces_committed).2.
Definition seed0 : Z := Eval vm_compute in default 0 (seed (H:=toy) nonces0).

Lemma nonces_new_ok : cr_ok (H:=toy) (c_arr 32) nonces_new.
Proof.
  split; try done.
  - intros _. by repeat constructor.
  - intros [|[|i]] v; done.
Qed.
Lemma nonces_committed_run :
  handle_all (H:=toy) (c_arr 32) (commits (hash_of (H:=toy) (c_arr 32) <$> secrets0) [0; 1]%nat) nonces_new =
  (Ok tt, nonces_committed).
Proof. vm_compute. reflexivity. Qed.
Lemma nonces0_run : handle_all (H:=toy) (c_arr 32) (reveals secrets0 [0; 1]%nat) nonces_committed = (Ok tt, nonces0).
Proof. vm_compute. reflexivity. Qed.
Lemma nonces0_typed : Forall (fun x => msg_typed (c_arr 32) x.2) (reveals secrets0 [0; 1]%nat).
Proof. repeat constructor; done. Qed.
Lemma nonces0_ok : cr_ok (H:=toy) (c_arr 32) nonces0.
Proof.
  pose proof (proj1 (handle_all_slots (c_arr 32) _ _ _ nonces_new_ok (commits_typed _ _ _) nonces_committed_run)) as Hc.
  exact (proj1 (handle_all_slots (c_arr 32) _ _ _ Hc nonces0_typed nonces0_run)).
Qed.
Lemma seed0_ok : seed (H:=toy) nonces0 = Some seed0.
Proof. vm_compute. reflexivity. Qed.

Definition deck : list Z := [10; 20; 30; 40; 50].
Definition order0 : list nat :=
  Eval vm_compute in match permutation (E:=unit) seed0 5 with Ok (Some o) => o | _ => [] end.

Lemma shuffle_is_fisher_yates_witness :
  shuffle (H:=toy) (E:=unit) nonces0 deck = Ok (Some (omap (fun i => deck !! i) order0)).
Proof.
  refine (proj1 (@shuffle_is_fisher_yates toy toy_rng Z nonces0 deck seed0 order0 seed0_ok _ _)).
  - vm_compute. discriminate.
  - vm_compute. reflexivity.
Defined.

Lemma choices_are_permutations_witness : exists! js, pass_with 2 js (seq 0 3) = Some [2; 0; 1]%nat.
Proof.
  refine (proj1 (choices_are_permutations 2 [2; 0; 1]%nat _)).
  apply (bool_decide_unpack ([2; 0; 1]%nat ≡ₚ seq 0 3)). reflexivity.
Defined.

Lemma draws_are_even_witness :
  exists! w, threshold 6 <= w < 2 ^ 64 /\ w mod 6 = 5 /\ (w - threshold 6) / 6 = 1000.
Proof.
  refine (proj2 (@draws_are_even toy_rng 7 0 6 5 1000 _ _ _)); [lia|lia|].
  split; [lia|]. vm_compute. reflexivity.
Defined.

Lemma seed_binds_contributions_witness : [7; 9] = [7; 9] \/ collision (H:=toy) (seed_preimage [7; 9]) (seed_preimage [7; 9]).
Proof.
  exact (@seed_binds_contributions toy nonces0 nonces0 [7; 9] [7; 9] seed0 nonces0_ok nonces0_ok
    eq_refl eq_refl seed0_ok seed0_ok).
Defined.
