(* ===== verification/Book.v ===== *)
(** * The negotiation book (node/src/machines/negotiation/mod.rs)

    The book of one host: for every negotiation its offer slots, in every slot one
    current ticket per signer, and one counteroffer per signer.  All its methods
    are translated.  The secret keys of the host are calls into ed25519_dalek and
    blst: the class [LocalKeys].  A [HashMap] is a [gmap]; where the code iterates
    over one it sorts what it collected, so the order of iteration is not seen.

    [book_ok] is the invariant of the book; [apply_all] is the arrival of tickets
    in a given order. *)

From S2P Require Import Prelude Borsh Crypto Session Trace Negotiation.
From stdpp Require Import sorting.

#[local] Open Scope Z_scope.

Definition MAX_HEADS : Z := 64.
Definition MAX_OFFERS_PER_NEGOTIATION : Z := 16.

(** [u64::saturating_add] and [saturating_sub]. *)
Definition sat_add (x y : Z) : Z := Z.min u64_max (x + y).
Definition sat_sub (x y : Z) : Z := Z.max 0 (x - y).

(** ** The keys of the local host *)

(** [NodeKeys] and [ExecutionKey]: the public halves, and the signing calls into
    the libraries (the first argument of [blst_sign] is the ciphersuite). *)
Class LocalKeys := {
  node_public : Z;
  dalek_sign : bytes -> Z;
  bls_public : Z;
  blst_sign : bytes -> bytes -> Z }.

(** A signature made with a secret key verifies under its public key; keys and
    signatures are arrays of 32, 64, 96 and 48 bytes. *)
Class KeysSign `{Crypto, LocalKeys} : Prop := {
  key_ranges : 0 <= node_public < 256 ^ 32 /\ 0 <= bls_public < 256 ^ 96;
  sign_ranges : forall dst msg, 0 <= dalek_sign msg < 256 ^ 64 /\ 0 <= blst_sign dst msg < 256 ^ 48;
  dalek_sign_ok : forall msg, dalek_verify node_public msg (dalek_sign msg) = inr true;
  blst_sign_ok : forall dst msg, blst_verify dst bls_public msg (blst_sign dst msg) = inr true }.

Section Keys.
Context `{LocalKeys}.

(** [NodeKeys::peer_id]. *)
Definition local_peer : PeerId := node_public.
(** [NodeKeys::sign]. *)
Definition node_sign (data : bytes) : Z := dalek_sign data.
(** [ExecutionKey::sign] and [key_binding]. *)
Definition execution_sign (data : bytes) : Z := blst_sign DST_SIG data.
Definition key_binding (offer_hash signer : Z) : Z :=
  blst_sign DST_BIND (key_binding_message offer_hash signer bls_public).
End Keys.

(** ** Data *)

Inductive ApplyOutcome := Inserted | Replaced | Duplicate | Stale.

(** The text of [InvalidCounteroffer]. *)
Inductive CounterofferReason :=
| CounterofferStructure (e : NegotiationError)
| CounterofferIdentity (e : CryptoError)
| CounterofferMismatch.

Inductive ApplyError :=
| UnknownOffer (negotiation_id offer_seq : Z)
| UnknownNegotiation (negotiation_id : Z)
| StaleRevision (revision current_revision : Z)
| Capacity (max : Z)
| OfferHashConflict (negotiation_id offer_seq : Z)
| InvalidTicketApplied (reason : TicketReason)
| InvalidCounteroffer (reason : CounterofferReason)
| CounterofferOutOfTime (issued_at now valid_for : Z)
| CounterofferCapacity (max : Z)
| OfferSlotMismatch
| OfferCapacity (max : Z)
| UnauthenticatedOffer (negotiation_id offer_seq : Z)
| SigningError (e : NegotiationError).

Record OfferBook := MkOfferBook {
  ob_hash : OfferHash;
  ob_creator : PeerId;
  ob_tickets : gmap Z Ticket }.

Record NegotiationState := MkNegotiationState {
  ns_offers : gmap Z OfferBook;
  ns_counteroffers : gmap Z Counteroffer }.

(** [NegotiationBook], less the borrowed keys. *)
Record NegotiationBook := MkBook { negotiations : gmap Z NegotiationState }.

Definition book_new : NegotiationBook := MkBook ∅.
Definition state_default : NegotiationState := MkNegotiationState ∅ ∅.

Definition set_offers (f : gmap Z OfferBook -> gmap Z OfferBook) (s : NegotiationState) :=
  MkNegotiationState (f (ns_offers s)) (ns_counteroffers s).
Definition set_counteroffers (f : gmap Z Counteroffer -> gmap Z Counteroffer)
    (s : NegotiationState) := MkNegotiationState (ns_offers s) (f (ns_counteroffers s)).
Definition set_tickets (f : gmap Z Ticket -> gmap Z Ticket) (o : OfferBook) :=
  MkOfferBook (ob_hash o) (ob_creator o) (f (ob_tickets o)).
Definition with_state (n : NegotiationId) (f : NegotiationState -> NegotiationState)
    (b : NegotiationBook) := MkBook (alter f n (negotiations b)).
Definition with_offer (n : NegotiationId) (s : Z) (f : OfferBook -> OfferBook)
    : NegotiationBook -> NegotiationBook := with_state n (set_offers (alter f s)).

(** [self.negotiations.get(&id).and_then(|state| state.offers.get(&seq))]. *)
Definition find_offer (b : NegotiationBook) (n : NegotiationId) (s : Z) : option OfferBook :=
  st ← negotiations b !! n; ns_offers st !! s.

Definition map_size {A} (m : gmap Z A) : Z := Z.of_nat (size m).

(** ** Reading the book *)

Definition book_len (b : NegotiationBook) (n : NegotiationId) (s : Z) : Z :=
  match find_offer b n s with Some o => map_size (ob_tickets o) | None => 0 end.

Definition current_ticket (b : NegotiationBook) (n : NegotiationId) (s : Z) (p : PeerId)
    : option Ticket := o ← find_offer b n s; ob_tickets o !! p.

(** The key [(signer != creator, signer)], compared lexicographically with
    [false < true]. *)
Definition ticket_key_le (creator : PeerId) (t1 t2 : Ticket) : Prop :=
  let k1 := negb (ticket_signer t1 =? creator) in
  let k2 := negb (ticket_signer t2 =? creator) in
  (k1 = false /\ k2 = true) \/ (k1 = k2 /\ ticket_signer t1 <= ticket_signer t2).
#[global] Instance ticket_key_le_dec c t1 t2 : Decision (ticket_key_le c t1 t2).
Proof. unfold ticket_key_le. apply _. Defined.

Definition map_values {A} (m : gmap Z A) : list A := (map_to_list m).*2.

Definition ticket_set (b : NegotiationBook) (n : NegotiationId) (s : Z) : list Ticket :=
  match find_offer b n s with
  | None => []
  | Some o =>
      merge_sort (ticket_key_le (ob_creator o))
        (filter (fun t => ticket_active t = true) (map_values (ob_tickets o)))
  end.

(** [expired]. *)
Definition expired (c : Counteroffer) (now_ms : Z) : bool :=
  sat_add (co_issued_at_unix_ms (co_data c)) (co_valid_for_ms (co_data c)) <? now_ms.

Definition current_counteroffer (b : NegotiationBook) (n : NegotiationId) (p : PeerId)
    : option Counteroffer := st ← negotiations b !! n; ns_counteroffers st !! p.

Definition valid_counteroffers (b : NegotiationBook) (n : NegotiationId) (now_ms : Z)
    : list Counteroffer :=
  match negotiations b !! n with
  | None => []
  | Some st => sort_key (fun c => co_signer (co_data c))
                 (filter (fun c => expired c now_ms = false) (map_values (ns_counteroffers st)))
  end.

Definition counteroffer_len (b : NegotiationBook) (n : NegotiationId) : Z :=
  match negotiations b !! n with Some st => map_size (ns_counteroffers st) | None => 0 end.

(** ** Writing to the book *)

Section Book.
Context `{Crypto}.
Abbreviation BM A := (M NegotiationBook ApplyError A).

(** [register_offer]: [entry(id).or_default()] adds an empty negotiation before
    the capacity check can fail. *)
Definition register_offer (n : NegotiationId) (s : Z) (o : Offer) : BM unit :=
  sread (fun _ => err_if (negb (o_negotiation_id (offer_data o) =? n)
                          || negb (offer_seq (offer_data o) =? s)) OfferSlotMismatch) ;;!
  smodify (fun b => MkBook (<[n := default state_default (negotiations b !! n)]> (negotiations b))) ;;!
  let! st := sread (fun b => expect (negotiations b !! n)) in
  sread (fun _ => err_if (negb (bool_decide (is_Some (ns_offers st !! s)))
                          && (MAX_OFFERS_PER_NEGOTIATION <=? map_size (ns_offers st)))
                    (OfferCapacity MAX_OFFERS_PER_NEGOTIATION)) ;;!
  let! h := sread (fun _ => offer_hash_of (offer_data o)) in
  match ns_offers st !! s with
  | None =>
      smodify (with_state n (set_offers
        (insert s (MkOfferBook h (creator (offer_data o)) ∅))))
  | Some e => sread (fun _ => err_if (negb (ob_hash e =? h)) (OfferHashConflict n s))
  end.

(** [prune_offers_before]. *)
Definition prune_offers_before (n : NegotiationId) (minimum : Z) : NegotiationBook -> NegotiationBook :=
  with_state n (set_offers (filter (fun p => minimum <= p.1))).

(** [apply_ticket]. *)
Definition apply_ticket (t : Ticket) : BM ApplyOutcome :=
  sread (fun _ => map_err (fun e => InvalidTicketApplied (ReasonInvalid e)) (ticket_validate t)) ;;!
  let n := t_negotiation_id (ticket_data t) in
  let s := t_offer_seq (ticket_data t) in
  let! o := sread (fun b => ok_or (find_offer b n s) (UnknownOffer n s)) in
  sread (fun _ => map_err (fun e => InvalidTicketApplied (ReasonUnverified e))
                    (verify_for_offer t (ob_hash o))) ;;!
  let p := ticket_signer t in
  let r := revision (ticket_data t) in
  match ob_tickets o !! p with
  | None =>
      sread (fun _ => err_if (MAX_HEADS <=? map_size (ob_tickets o)) (Capacity MAX_HEADS)) ;;!
      smodify (with_offer n s (set_tickets (insert p t))) ;;!
      sret Inserted
  | Some current =>
      let c := revision (ticket_data current) in
      if c =? r then sret Duplicate else
      sread (fun _ => err_if (r <? c) (StaleRevision r c)) ;;!
      smodify (with_offer n s (set_tickets (insert p t))) ;;!
      sret Replaced
  end.

(** [CounterofferHash::of]. *)
Definition counteroffer_hash_of {E} (c : CounterofferData) : result E CounterofferHash :=
  let? bs := expect_ok (to_vec c_counteroffer_data c) in Ok (blake3 bs).

(** [apply_counteroffer]: expired entries go even when the new one is refused. *)
Definition apply_counteroffer (c : Counteroffer) (now_ms : Z) : BM ApplyOutcome :=
  sread (fun _ => map_err (fun e => InvalidCounteroffer (CounterofferStructure e))
                    (counteroffer_validate c)) ;;!
  let! ok := sread (fun _ => map_err (fun e => InvalidCounteroffer (CounterofferIdentity e))
                               (counteroffer_verify_identity c)) in
  sread (fun _ => err_if (negb ok) (InvalidCounteroffer CounterofferMismatch)) ;;!
  let issued_at := co_issued_at_unix_ms (co_data c) in
  sread (fun _ => err_if ((sat_add now_ms MAX_CLOCK_SKEW_MS <? issued_at) || expired c now_ms)
                    (CounterofferOutOfTime issued_at now_ms (co_valid_for_ms (co_data c)))) ;;!
  let n := co_negotiation_id (co_data c) in
  sread (fun b => err_if (negb (bool_decide (is_Some (negotiations b !! n)))) (UnknownNegotiation n)) ;;!
  let p := co_signer (co_data c) in
  smodify (with_state n (set_counteroffers (filter (fun e => expired e.2 now_ms = false)))) ;;!
  let! st := sread (fun b => expect (negotiations b !! n)) in
  let put := smodify (with_state n (set_counteroffers (insert p c))) in
  match ns_counteroffers st !! p with
  | None =>
      sread (fun _ => err_if (MAX_HEADS <=? map_size (ns_counteroffers st))
                        (CounterofferCapacity MAX_HEADS)) ;;!
      put ;;! sret Inserted
  | Some current =>
      let at_ := co_issued_at_unix_ms (co_data current) in
      if issued_at <? at_ then sret Stale else
      if at_ =? issued_at then
        let! ch := sread (fun _ => counteroffer_hash_of (co_data current)) in
        let! nh := sread (fun _ => counteroffer_hash_of (co_data c)) in
        if nh =? ch then sret Duplicate else
        if ch <? nh then sret Stale else
        put ;;! sret Replaced
      else put ;;! sret Replaced
  end.

(** ** Local issuance *)

Context `{LocalKeys}.

(** The Active action of a local ticket over an offer hash. *)
Definition local_action (offer_hash : OfferHash) (now_ms : Z) : TicketAction :=
  Active_ bls_public (key_binding offer_hash local_peer) now_ms MAX_TICKET_LIFETIME_MS.

(** [Ticket { signature: identity.sign(data.signing_bytes()), data }]. *)
Definition sign_ticket {E} (d : TicketData) : result E Ticket :=
  let? bs := ticket_signing_bytes d in Ok (MkTicket d (node_sign bs)).

(** [issue_ticket]. *)
Definition issue_ticket (n : NegotiationId) (s revision now_ms : Z) : BM Ticket :=
  let! st := sread (fun b => ok_or (negotiations b !! n) (UnknownNegotiation n)) in
  let! o := sread (fun _ => ok_or (ns_offers st !! s) (UnknownOffer n s)) in
  let creator_authenticates :=
    match ob_tickets o !! ob_creator o with Some t => ticket_active t | None => false end in
  sread (fun _ => err_if (negb (local_peer =? ob_creator o) && negb creator_authenticates)
                    (UnauthenticatedOffer n s)) ;;!
  let! d := sread (fun _ => map_err SigningError
    (ticket_data_new n s local_peer revision (local_action (ob_hash o) now_ms))) in
  let! t := sread (fun _ => sign_ticket d) in
  apply_ticket t ;;!
  sret t.

(** [create_creator_offer]. *)
Definition create_creator_offer (d : OfferData) (now_ms : Z) : result ApplyError (Offer * Ticket) :=
  let? h := offer_hash_of d in
  let? td := map_err SigningError
    (ticket_data_new (o_negotiation_id d) (offer_seq d) local_peer 0 (local_action h now_ms)) in
  let? t := sign_ticket td in
  let? th := ticket_hash_of (ticket_data t) in
  let? o := map_err SigningError (offer_new d [th]) in
  Ok (o, t).

(** [CounterofferData::new]. *)
Definition counteroffer_data_new (n : NegotiationId) (p : PeerId) (params : bytes)
    (issued_at valid_for : Z) : result NegotiationError CounterofferData :=
  let body := MkCounterofferData COUNTEROFFER_DOMAIN COUNTEROFFER_VERSION n p params issued_at
                valid_for in
  counteroffer_data_validate body ;;? Ok body.

(** [emit_counteroffer]. *)
Definition emit_counteroffer (n : NegotiationId) (params : bytes) (now_ms : Z) : BM Counteroffer :=
  sread (fun b => err_if (negb (bool_decide (is_Some (negotiations b !! n)))) (UnknownNegotiation n)) ;;!
  let! d := sread (fun _ => map_err SigningError
    (counteroffer_data_new n local_peer params now_ms MAX_TICKET_LIFETIME_MS)) in
  let! bs := sread (fun _ => expect_ok (to_vec c_counteroffer_data d)) in
  let c := MkCounteroffer d (node_sign bs) in
  apply_counteroffer c now_ms ;;!
  sret c.
End Book.

(** ** The invariant of the book *)

Section BookLemmas.
Context `{Crypto}.

(** What a slot holds: the hash of an offer of that slot, and per signer a ticket
    for that slot which verifies against the hash. *)
Record slot_ok (n : NegotiationId) (s : Z) (o : OfferBook) : Prop := {
  so_size : map_size (ob_tickets o) <= MAX_HEADS;
  so_offer : exists d, offer_hash_of (E:=ApplyError) d = Ok (ob_hash o) /\ creator d = ob_creator o
               /\ o_negotiation_id d = n /\ offer_seq d = s;
  so_tickets : map_Forall (fun p t => ticket_signer t = p /\ t_negotiation_id (ticket_data t) = n
                 /\ t_offer_seq (ticket_data t) = s /\ verify_for_offer t (ob_hash o) = Ok tt)
                 (ob_tickets o) }.

Record state_ok (n : NegotiationId) (st : NegotiationState) : Prop := {
  st_offers : map_size (ns_offers st) <= MAX_OFFERS_PER_NEGOTIATION;
  st_counters : map_size (ns_counteroffers st) <= MAX_HEADS;
  st_slots : map_Forall (slot_ok n) (ns_offers st);
  st_signed : map_Forall (fun p c => co_signer (co_data c) = p /\ co_negotiation_id (co_data c) = n
                /\ counteroffer_validate c = Ok tt /\ counteroffer_verify_identity c = Ok true)
                (ns_counteroffers st) }.

Definition book_ok (b : NegotiationBook) : Prop := map_Forall state_ok (negotiations b).

Lemma book_ok_new : book_ok book_new.
Proof. apply map_Forall_empty. Qed.

Lemma map_size_insert {A} (m : gmap Z A) k x :
  map_size (<[k := x]> m) = map_size m + (if decide (is_Some (m !! k)) then 0 else 1).
Proof.
  unfold map_size. rewrite map_size_insert. destruct (decide _) as [[y ->]|Hn]; simpl; [lia|].
  apply eq_None_not_Some in Hn as ->. lia.
Qed.

Lemma map_size_alter {A} (f : A -> A) k (m : gmap Z A) : map_size (alter f k m) = map_size m.
Proof. unfold map_size. by rewrite <- !size_dom, dom_alter_L. Qed.

Lemma map_size_filter {A} (P : Z * A -> Prop) `{!forall x, Decision (P x)} (m : gmap Z A) :
  map_size (filter P m) <= map_size m.
Proof. unfold map_size. apply inj_le, map_subseteq_size, map_filter_subseteq. Qed.

Lemma map_Forall_filter {A} (P : Z -> A -> Prop) (Q : Z * A -> Prop) `{!forall x, Decision (Q x)}
    (m : gmap Z A) : map_Forall P m -> map_Forall P (filter Q m).
Proof. intros Hm k x Hk. apply map_lookup_filter_Some in Hk as [? _]. eauto. Qed.

Lemma map_Forall_alter {A} (P : Z -> A -> Prop) f k (m : gmap Z A) :
  map_Forall P m -> (forall x, m !! k = Some x -> P k x -> P k (f x)) ->
  map_Forall P (alter f k m).
Proof.
  intros Hm Hf j y. rewrite lookup_alter_Some. intros [(-> & x & Hx & ->)|[_ Hj]]; eauto.
Qed.

Lemma with_state_ok n f b :
  book_ok b -> (forall st, negotiations b !! n = Some st -> state_ok n st -> state_ok n (f st)) ->
  book_ok (with_state n f b).
Proof. apply map_Forall_alter. Qed.

Lemma with_offer_ok n s f b :
  book_ok b -> (forall o, find_offer b n s = Some o -> slot_ok n s o -> slot_ok n s (f o)) ->
  book_ok (with_offer n s f b).
Proof.
  intros Hb Hf. apply with_state_ok; [done|]. intros st Hst [Ho Hc Hs Hg]. split; simpl; auto.
  - by rewrite map_size_alter.
  - apply map_Forall_alter; [done|]. intros o Hlo Hok. apply Hf; [|done].
    unfold find_offer. by rewrite Hst.
Qed.

Lemma find_offer_ok b n s o : book_ok b -> find_offer b n s = Some o -> slot_ok n s o.
Proof.
  unfold find_offer. intros Hb Ho. apply bind_Some in Ho as (st & Hst & Ho).
  exact (st_slots _ _ (Hb _ _ Hst) _ _ Ho).
Qed.
(** ** What the arrival of a ticket does *)

Definition verified (o : OfferBook) (t : Ticket) : bool := is_ok (verify_for_offer t (ob_hash o)).

(** The slot after a ticket for it arrived. *)
Definition receive (t : Ticket) (o : OfferBook) : OfferBook :=
  let o' := set_tickets (insert (ticket_signer t) t) o in
  if verified o t then
    match ob_tickets o !! ticket_signer t with
    | None => if MAX_HEADS <=? map_size (ob_tickets o) then o else o'
    | Some c => if revision (ticket_data c) <? revision (ticket_data t) then o' else o
    end
  else o.

Lemma verify_validates t h : verify_for_offer t h = Ok tt -> ticket_validate t = Ok tt.
Proof. unfold verify_for_offer. by destruct (ticket_validate t) as [[]| |]. Qed.

Lemma verified_Ok o t : verified o t = true <-> verify_for_offer t (ob_hash o) = Ok tt.
Proof. apply is_ok_unit. Qed.

Lemma with_state_id n f b :
  (forall st, negotiations b !! n = Some st -> f st = st) -> with_state n f b = b.
Proof.
  intros Hf. destruct b as [m]. unfold with_state. f_equal. simpl in *.
  apply map_eq. intros j. destruct (decide (j = n)) as [->|Hj].
  - rewrite lookup_alter_eq. destruct (m !! n) as [st|] eqn:Hst; simpl; [|done]. by rewrite (Hf _ eq_refl).
  - by rewrite lookup_alter_ne.
Qed.

Lemma set_offers_id f st : f (ns_offers st) = ns_offers st -> set_offers f st = st.
Proof. destruct st; unfold set_offers; simpl. by intros ->. Qed.

Lemma with_offer_ext n s f g b :
  (forall o, find_offer b n s = Some o -> f o = g o) -> with_offer n s f b = with_offer n s g b.
Proof.
  intros Hfg. destruct b as [m]. unfold with_offer, with_state. f_equal. simpl.
  apply alter_ext. intros st Hst. unfold set_offers. f_equal. apply alter_ext. intros o Ho.
  apply Hfg. unfold find_offer. simpl. by rewrite Hst.
Qed.

Lemma with_offer_id n s f b :
  (forall o, find_offer b n s = Some o -> f o = o) -> with_offer n s f b = b.
Proof.
  intros Hf. apply with_state_id. intros st Hst. apply set_offers_id.
  apply alter_id. intros o Ho. apply Hf. unfold find_offer. by rewrite Hst.
Qed.

Lemma find_with_offer n s f n' s' b :
  find_offer (with_offer n s f b) n' s' =
  if decide (n = n' /\ s = s') then f <$> find_offer b n s else find_offer b n' s'.
Proof.
  unfold find_offer, with_offer, with_state. simpl. destruct (decide (n = n')) as [<-|Hn].
  - rewrite lookup_alter_eq. destruct (negotiations b !! n) as [st|]; simpl.
    + destruct (decide (s = s')) as [<-|Hs].
      * rewrite decide_True by done. by rewrite lookup_alter_eq.
      * rewrite decide_False by naive_solver. by rewrite lookup_alter_ne.
    + by destruct (decide _).
  - rewrite decide_False by naive_solver. by rewrite lookup_alter_ne.
Qed.

Definition ticket_slot (t : Ticket) : NegotiationId * Z :=
  (t_negotiation_id (ticket_data t), t_offer_seq (ticket_data t)).

Lemma apply_ticket_state t b :
  snd (apply_ticket t b) =
  with_offer (t_negotiation_id (ticket_data t)) (t_offer_seq (ticket_data t)) (receive t) b.
Proof.
  set (n := t_negotiation_id _). set (s := t_offer_seq _).
  unfold apply_ticket. fold n s. unfold sbind, sread, smodify, sret.
  assert (forall o, find_offer b n s = Some o -> ticket_validate t <> Ok tt -> receive t o = o) as Hbad.
  { intros o _ Hv. unfold receive. destruct (verified o t) eqn:Hvo; [|done].
    apply verified_Ok, verify_validates in Hvo. done. }
  destruct (ticket_validate t) as [[]|e|] eqn:Hval; simpl;
    [|symmetry; apply with_offer_id; intros; by apply Hbad..].
  destruct (find_offer b n s) as [o|] eqn:Ho; simpl;
    [|symmetry; apply with_offer_id; by rewrite Ho].
  assert (forall x, receive t o = x -> with_offer n s (receive t) b = with_offer n s (fun _ => x) b) as Hx.
  { intros x Hx. apply with_offer_ext. rewrite Ho. by intros ? [= <-]. }
  assert (receive t o = o -> b = with_offer n s (receive t) b) as Hid.
  { intros Hr. symmetry. apply with_offer_id. rewrite Ho. by intros ? [= <-]. }
  unfold receive, verified in *.
  destruct (verify_for_offer t (ob_hash o)) as [[]|e|]; simpl in *; [|by apply Hid..].
  destruct (ob_tickets o !! ticket_signer t) as [c|]; simpl.
  - destruct (revision (ticket_data c) =? _) eqn:Heq; simpl.
    { apply Hid. apply Z.eqb_eq in Heq. by rewrite Heq, Z.ltb_irrefl. }
    destruct (_ <? revision (ticket_data c)) eqn:Hlt; simpl.
    { apply Hid. case_match; [|done]. apply Z.ltb_lt in Hlt. lia. }
    apply Z.eqb_neq in Heq. apply Z.ltb_ge in Hlt.
    erewrite (Hx (set_tickets _ o)); [|by rewrite (proj2 (Z.ltb_lt _ _)) by lia].
    apply with_offer_ext. rewrite Ho. by intros ? [= <-].
  - destruct (MAX_HEADS <=? map_size (ob_tickets o)); simpl; [by apply Hid|].
    rewrite (Hx _ eq_refl). apply with_offer_ext. rewrite Ho. by intros ? [= <-].
Qed.

Lemma receive_ok n s t o :
  ticket_slot t = (n, s) -> slot_ok n s o -> slot_ok n s (receive t o).
Proof.
  intros Hs Hok. unfold receive. destruct (verified o t) eqn:Hv; [|done].
  apply verified_Ok in Hv. destruct Hok as [Hsz Ho Ht].
  assert ((is_Some (ob_tickets o !! ticket_signer t) \/ map_size (ob_tickets o) < MAX_HEADS) ->
          slot_ok n s (set_tickets (insert (ticket_signer t) t) o)) as Hput.
  { intros Hroom. split; simpl; [|done|].
    - rewrite map_size_insert. case_decide; [lia|]. destruct Hroom; [done|lia].
    - unfold ticket_slot in Hs. simplify_eq. by apply map_Forall_insert_2. }
  destruct (ob_tickets o !! ticket_signer t) as [c|].
  - case_match; [|by split]. apply Hput. by left.
  - case_match eqn:Hle; [by split|]. apply Hput. right. apply Z.leb_gt in Hle. lia.
Qed.

Lemma apply_ticket_ok t : preserves book_ok (apply_ticket t).
Proof.
  intros b Hb. rewrite apply_ticket_state. apply with_offer_ok; [done|]. intros. by apply receive_ok.
Qed.
(** ** The other calls keep the invariant *)

Lemma map_size_empty {A} : map_size (A:=A) ∅ = 0.
Proof. done. Qed.

Lemma state_default_ok n : state_ok n state_default.
Proof.
  split; simpl; [by rewrite map_size_empty..|apply map_Forall_empty|apply map_Forall_empty].
Qed.

Lemma register_offer_ok n s o : preserves book_ok (register_offer n s o).
Proof.
  intros b Hb. unfold register_offer, sbind, sread, smodify.
  destruct (_ || _) eqn:Hslot; simpl; [done|].
  apply orb_false_iff in Hslot as [Hn Hs]. rewrite negb_false_iff in Hn, Hs.
  apply Z.eqb_eq in Hn, Hs.
  set (st := default state_default (negotiations b !! n)).
  assert (state_ok n st) as Hst.
  { subst st. destruct (negotiations b !! n) as [st|] eqn:E; simpl; [by apply Hb|apply state_default_ok]. }
  assert (book_ok (MkBook (<[n := st]> (negotiations b)))) as Hb1.
  { by apply map_Forall_insert_2. }
  rewrite lookup_insert_eq. simpl. destruct (_ && _) eqn:Hcap; simpl; [done|].
  destruct (offer_hash_of (offer_data o)) as [h|e|] eqn:Hh; simpl; [|done..].
  destruct (ns_offers st !! s) as [e|] eqn:He; simpl; [done|].
  apply with_state_ok; [done|]. simpl. rewrite lookup_insert_eq. intros st' [= <-] _.
  destruct Hst as [Hsz Hc Hsl Hg]. split; simpl; auto.
  - rewrite map_size_insert, He. case_decide as Hd; [by destruct Hd|].
    simpl in Hcap. apply Z.leb_gt in Hcap. lia.
  - apply map_Forall_insert_2; [|done]. split; simpl; [by rewrite map_size_empty| |apply map_Forall_empty].
    exists (offer_data o). by rewrite Hh.
Qed.

Lemma prune_offers_ok n m b : book_ok b -> book_ok (prune_offers_before n m b).
Proof.
  intros Hb. apply with_state_ok; [done|]. intros st _ [Ho Hc Hs Hg]. split; simpl; auto.
  - etransitivity; [apply map_size_filter|done].
  - by apply map_Forall_filter.
Qed.

Lemma set_counteroffers_ok n f b :
  book_ok b ->
  (forall st, negotiations b !! n = Some st -> state_ok n st ->
     state_ok n (set_counteroffers f st)) ->
  book_ok (with_state n (set_counteroffers f) b).
Proof. apply with_state_ok. Qed.

Lemma prune_counters_ok n now st :
  state_ok n st ->
  state_ok n (set_counteroffers (filter (fun e => expired e.2 now = false)) st).
Proof.
  intros [Ho Hc Hs Hg]. split; simpl; auto.
  - etransitivity; [apply map_size_filter|done].
  - by apply map_Forall_filter.
Qed.

Lemma put_counter_ok n c st :
  state_ok n st -> co_negotiation_id (co_data c) = n -> counteroffer_validate c = Ok tt ->
  counteroffer_verify_identity c = Ok true ->
  is_Some (ns_counteroffers st !! co_signer (co_data c)) \/ map_size (ns_counteroffers st) < MAX_HEADS ->
  state_ok n (set_counteroffers (insert (co_signer (co_data c)) c) st).
Proof.
  intros [Ho Hc Hs Hg] Hn Hv Hi Hroom. split; simpl; auto.
  - rewrite map_size_insert. case_decide; [lia|]. destruct Hroom; [done|lia].
  - by apply map_Forall_insert_2.
Qed.

Lemma apply_counteroffer_ok c now : preserves book_ok (apply_counteroffer c now).
Proof.
  intros b Hb. unfold apply_counteroffer, sbind, sread, smodify, sret.
  destruct (counteroffer_validate c) as [[]| |] eqn:Hv; simpl; [|done..].
  destruct (counteroffer_verify_identity c) as [[]| |] eqn:Hi; simpl; [|done..].
  destruct (_ || _); simpl; [done|].
  set (n := co_negotiation_id (co_data c)).
  destruct (negotiations b !! n) as [st|] eqn:Hst; simpl; [|done].
  rewrite lookup_alter_eq, Hst. simpl.
  set (st1 := set_counteroffers (filter (fun e => expired e.2 now = false)) st).
  assert (state_ok n st1) as Hst1 by (apply prune_counters_ok, Hb, Hst).
  set (b1 := with_state n (set_counteroffers (filter (fun e => expired e.2 now = false))) b).
  assert (negotiations b1 !! n = Some st1) as Hb1n by (unfold b1; simpl; by rewrite lookup_alter_eq, Hst).
  assert (book_ok b1) as Hb1.
  { apply with_state_ok; [done|]. rewrite Hst. by intros ? [= <-] _. }
  assert (is_Some (ns_counteroffers st1 !! co_signer (co_data c)) \/
          map_size (ns_counteroffers st1) < MAX_HEADS ->
          book_ok (with_state n (set_counteroffers (insert (co_signer (co_data c)) c)) b1)) as Hput.
  { intros Hroom. apply with_state_ok; [done|]. rewrite Hb1n. intros ? [= <-] _. by apply put_counter_ok. }
  change (filter _ (ns_counteroffers st)) with (ns_counteroffers st1).
  fold b1.
  destruct (ns_counteroffers st1 !! co_signer (co_data c)) as [cur|] eqn:Hcur; simpl.
  - assert (book_ok (with_state n (set_counteroffers (insert (co_signer (co_data c)) c)) b1)) by eauto.
    repeat (case_match; simpl; try done).
  - destruct (_ <=? _) eqn:Hle; simpl; [done|]. apply Hput. right. by apply Z.leb_gt.
Qed.
Lemma issue_ticket_ok `{LocalKeys} n s r now : preserves book_ok (issue_ticket n s r now).
Proof.
  unfold issue_ticket. repeat (apply preserves_sbind; [by apply preserves_read_only|intros ?]).
  apply preserves_sbind; [apply apply_ticket_ok|intros ?; by apply preserves_read_only].
Qed.

Lemma emit_counteroffer_ok `{LocalKeys} n ps now : preserves book_ok (emit_counteroffer n ps now).
Proof.
  unfold emit_counteroffer. repeat (apply preserves_sbind; [by apply preserves_read_only|intros ?]).
  apply preserves_sbind; [apply apply_counteroffer_ok|intros ?; by apply preserves_read_only].
Qed.

(** ** Tickets converge *)

(** Tickets arriving one after the other; refused ones leave no trace. *)
Definition apply_all (ts : list Ticket) (b : NegotiationBook) : NegotiationBook :=
  foldl (fun b t => snd (apply_ticket t b)) b ts.

Definition find_slot (b : NegotiationBook) (t : Ticket) : option OfferBook :=
  find_offer b (t_negotiation_id (ticket_data t)) (t_offer_seq (ticket_data t)).

(** The ticket names a slot of the book and verifies against its offer. *)
Definition admissible (b : NegotiationBook) (t : Ticket) : Prop :=
  exists o, find_slot b t = Some o /\ verified o t = true.

Definition same_revision (t1 t2 : Ticket) : Prop :=
  ticket_slot t1 = ticket_slot t2 /\ ticket_signer t1 = ticket_signer t2 /\
  revision (ticket_data t1) = revision (ticket_data t2).

(** No signer signed two tickets with one revision for one slot. *)
Definition unequivocal (b : NegotiationBook) (ts : list Ticket) : Prop :=
  forall t1 t2, t1 ∈ ts -> t2 ∈ ts -> admissible b t1 -> admissible b t2 ->
    same_revision t1 t2 -> t1 = t2.

(** The signers of a slot and of the arriving tickets fit in it together. *)
Definition room (b : NegotiationBook) (ts : list Ticket) : Prop :=
  forall n s o, find_offer b n s = Some o ->
    Z.of_nat (size (dom (ob_tickets o) ∪ list_to_set (map ticket_signer ts) : gset Z)) <= MAX_HEADS.

Lemma receive_hash t o : ob_hash (receive t o) = ob_hash o.
Proof. unfold receive. repeat case_match; done. Qed.

Lemma receive_verified t o t' : verified (receive t o) t' = verified o t'.
Proof. unfold verified. by rewrite receive_hash. Qed.

Lemma receive_dom t o : dom (ob_tickets (receive t o)) ⊆ {[ticket_signer t]} ∪ dom (ob_tickets o).
Proof. unfold receive. repeat case_match; simpl; rewrite ?dom_insert_L; set_solver. Qed.

(** In a slot with room only the revision decides. *)
Definition newer (t : Ticket) (m : gmap Z Ticket) : gmap Z Ticket :=
  match m !! ticket_signer t with
  | Some c => if revision (ticket_data c) <? revision (ticket_data t) then <[ticket_signer t := t]> m else m
  | None => <[ticket_signer t := t]> m
  end.

Lemma map_size_subset {A} (m : gmap Z A) (X : gset Z) k :
  m !! k = None -> {[k]} ∪ dom m ⊆ X -> map_size m < Z.of_nat (size X).
Proof.
  intros Hk HX. apply subseteq_size in HX. rewrite size_union in HX.
  - rewrite size_singleton, size_dom in HX. unfold map_size. lia.
  - apply not_elem_of_dom in Hk. set_solver.
Qed.

Lemma receive_room t o (X : gset Z) :
  {[ticket_signer t]} ∪ dom (ob_tickets o) ⊆ X -> Z.of_nat (size X) <= MAX_HEADS ->
  receive t o = if verified o t then set_tickets (newer t) o else o.
Proof.
  intros HX Hsz. unfold receive, newer. destruct (verified o t); [|done].
  destruct o as [h c m]. simpl in *. unfold set_tickets; simpl.
  destruct (m !! ticket_signer t) as [cur|] eqn:Hc; [by case_match|].
  pose proof (map_size_subset _ _ _ Hc HX). rewrite (proj2 (Z.leb_gt _ _)) by lia. done.
Qed.

Lemma newer_comm t1 t2 m :
  (same_revision t1 t2 -> t1 = t2) -> ticket_slot t1 = ticket_slot t2 ->
  newer t1 (newer t2 m) = newer t2 (newer t1 m).
Proof.
  intros Heq Hslot. unfold same_revision in Heq.
  destruct (decide (ticket_signer t1 = ticket_signer t2)) as [Hs|Hs].
  - assert (revision (ticket_data t1) = revision (ticket_data t2) -> t1 = t2) as Heq' by auto.
    unfold newer. rewrite Hs.
    destruct (m !! ticket_signer t2) as [c|] eqn:Hm;
      repeat (case_match; simplify_map_eq; rewrite ?insert_insert_eq in *);
      repeat match goal with
      | H : (_ <? _) = true |- _ => apply Z.ltb_lt in H
      | H : (_ <? _) = false |- _ => apply Z.ltb_ge in H
      end; try done; try lia; rewrite Heq' by lia; done.
  - unfold newer.
    destruct (m !! ticket_signer t1) as [c1|] eqn:H1, (m !! ticket_signer t2) as [c2|] eqn:H2;
      repeat (case_match; simplify_map_eq); try done; try apply insert_insert_ne; done.
Qed.
Lemma with_offer_compose n s f g b :
  with_offer n s f (with_offer n s g b) = with_offer n s (fun o => f (g o)) b.
Proof.
  unfold with_offer, with_state. f_equal. simpl. rewrite alter_alter_eq. apply alter_ext.
  intros st _. unfold compose, set_offers. simpl. f_equal. by rewrite alter_alter_eq.
Qed.

Lemma with_offer_comm n1 s1 n2 s2 f g b :
  (n1, s1) <> (n2, s2) ->
  with_offer n1 s1 f (with_offer n2 s2 g b) = with_offer n2 s2 g (with_offer n1 s1 f b).
Proof.
  intros Hne. unfold with_offer, with_state. f_equal. simpl.
  destruct (decide (n1 = n2)) as [<-|Hn]; [|by apply alter_alter_ne].
  rewrite !alter_alter_eq. apply alter_ext. intros st _. unfold compose, set_offers. simpl. f_equal.
  apply alter_alter_ne. congruence.
Qed.

(** The slot after a ticket for it arrived, when there is room. *)
Definition learn (t : Ticket) (o : OfferBook) : OfferBook :=
  if verified o t then set_tickets (newer t) o else o.

Abbreviation slot_n t := (t_negotiation_id (ticket_data t)).
Abbreviation slot_s t := (t_offer_seq (ticket_data t)).

Lemma apply_ticket_room b ts t :
  room b ts -> t ∈ ts -> snd (apply_ticket t b) = with_offer (slot_n t) (slot_s t) (learn t) b.
Proof.
  intros Hr Ht. rewrite apply_ticket_state. apply with_offer_ext. intros o Ho.
  eapply receive_room; [|by eapply Hr]. apply union_subseteq. split; [|set_solver].
  apply singleton_subseteq_l, elem_of_union_r, elem_of_list_to_set. by apply list_elem_of_fmap_2.
Qed.

Lemma learn_verified t o t' : verified (learn t o) t' = verified o t'.
Proof. unfold learn. by destruct (verified o t). Qed.

Lemma admissible_with_offer n s t b x :
  admissible (with_offer n s (learn t) b) x <-> admissible b x.
Proof.
  unfold admissible, find_slot. rewrite find_with_offer. destruct (decide _) as [[<- <-]|]; [|done].
  split.
  - intros (o & Ho & Hv). apply fmap_Some in Ho as (o0 & Ho & ->). rewrite learn_verified in Hv. eauto.
  - intros (o & -> & Hv). simpl. eexists. split; [done|]. by rewrite learn_verified.
Qed.

Lemma room_step b ts t : room b ts -> t ∈ ts -> room (snd (apply_ticket t b)) ts.
Proof.
  intros Hr Ht n s o. rewrite apply_ticket_state, find_with_offer.
  destruct (decide _) as [[<- <-]|]; [|apply Hr].
  intros Ho. apply fmap_Some in Ho as (o0 & Ho & ->).
  etransitivity; [|by eapply Hr]. apply inj_le, subseteq_size.
  pose proof (receive_dom t o0) as Hd. apply union_subseteq. split; [|set_solver].
  etransitivity; [done|]. apply union_subseteq. split; [|set_solver].
  apply singleton_subseteq_l, elem_of_union_r, elem_of_list_to_set. by apply list_elem_of_fmap_2.
Qed.

Lemma unequivocal_step b ts t :
  room b ts -> t ∈ ts -> unequivocal b ts -> unequivocal (snd (apply_ticket t b)) ts.
Proof.
  intros Hr Ht Hu t1 t2 H1 H2. rewrite (apply_ticket_room _ _ _ Hr Ht), !admissible_with_offer. by apply Hu.
Qed.

Lemma apply_ticket_comm b ts t1 t2 :
  room b ts -> unequivocal b ts -> t1 ∈ ts -> t2 ∈ ts ->
  snd (apply_ticket t2 (snd (apply_ticket t1 b))) = snd (apply_ticket t1 (snd (apply_ticket t2 b))).
Proof.
  intros Hr Hu H1 H2. rewrite (apply_ticket_room _ ts t2), (apply_ticket_room _ ts t1) by auto using room_step.
  rewrite (apply_ticket_room _ ts t1), (apply_ticket_room _ ts t2) by auto using room_step.
  destruct (decide (ticket_slot t1 = ticket_slot t2)) as [Hs|Hs]; [|by apply with_offer_comm].
  injection Hs as Hn Hs. rewrite Hn, Hs, !with_offer_compose. apply with_offer_ext. intros o Ho.
  unfold learn at 1 3. rewrite !learn_verified. unfold learn.
  destruct (verified o t1) eqn:V1, (verified o t2) eqn:V2; try done.
  destruct o as [h c m]. unfold set_tickets. simpl. f_equal. apply newer_comm.
  - intros [_ [? ?]]. symmetry. apply Hu; try done;
      unfold admissible, find_slot; rewrite ?Hn, ?Hs; eauto. by repeat split; unfold ticket_slot; rewrite ?Hn, ?Hs.
  - unfold ticket_slot. by rewrite Hn, Hs.
Qed.

Lemma apply_all_Permutation U ts ts' :
  ts ≡ₚ ts' -> forall b, (forall t, t ∈ ts -> t ∈ U) -> room b U -> unequivocal b U ->
  apply_all ts b = apply_all ts' b.
Proof.
  induction 1 as [|t ts ts' _ IH|t1 t2 ts|ts ts1 ts2 H1 IH1 H2 IH2]; intros b HU Hr Hu; simpl.
  - done.
  - apply IH; [intros x Hx; apply HU; by right|..]; (apply room_step || apply unequivocal_step);
      auto; apply HU; by left.
  - unfold apply_all. simpl. f_equal. apply (apply_ticket_comm _ U); auto; apply HU;
      rewrite !elem_of_cons; auto.
  - rewrite IH1 by done. apply IH2; try done. intros x Hx. apply HU. by rewrite H1.
Qed.

(** ** The newest ticket is held *)

Lemma current_with_offer n s f b n' s' p :
  current_ticket (with_offer n s f b) n' s' p =
  if decide (n = n' /\ s = s') then (o ← find_offer b n s; ob_tickets (f o) !! p)
  else current_ticket b n' s' p.
Proof.
  unfold current_ticket. rewrite find_with_offer. destruct (decide _) as [[<- <-]|]; [|done].
  by destruct (find_offer b n s).
Qed.

Lemma learn_lookup t o p c :
  ob_tickets (learn t o) !! p = Some c ->
  ob_tickets o !! p = Some c \/ (p = ticket_signer t /\ c = t /\ verified o t = true).
Proof.
  unfold learn, set_tickets, newer. destruct (verified o t); [|auto]. simpl. intros Hc.
  repeat case_match; try (by left); apply lookup_insert_Some in Hc as [[<- <-]|[_ Hc]]; auto.
Qed.

Lemma learn_keeps t o p c :
  ob_tickets o !! p = Some c ->
  exists c', ob_tickets (learn t o) !! p = Some c' /\ revision (ticket_data c) <= revision (ticket_data c').
Proof.
  intros Hc. unfold learn, set_tickets, newer. destruct (verified o t); [|by exists c]. simpl.
  destruct (decide (p = ticket_signer t)) as [->|Hp].
  - rewrite Hc. destruct (_ <? _) eqn:Hlt; [|by exists c]. exists t. simplify_map_eq.
    split; [done|]. apply Z.ltb_lt in Hlt. lia.
  - exists c. split; [|done]. repeat case_match; by simplify_map_eq.
Qed.

Lemma learn_holds t o :
  verified o t = true -> exists c, ob_tickets (learn t o) !! ticket_signer t = Some c /\
    revision (ticket_data t) <= revision (ticket_data c).
Proof.
  intros Hv. unfold learn, set_tickets, newer. rewrite Hv. simpl.
  destruct (ob_tickets o !! ticket_signer t) as [c|] eqn:Hc; [|exists t; by simplify_map_eq].
  destruct (_ <? _) eqn:Hlt; [exists t; by simplify_map_eq|]. exists c. apply Z.ltb_ge in Hlt. by split.
Qed.

(** The book holds a ticket of [t]'s signer, in its slot, that is not older. *)
Definition at_least (b : NegotiationBook) (t : Ticket) : Prop :=
  exists c, current_ticket b (slot_n t) (slot_s t) (ticket_signer t) = Some c /\
            revision (ticket_data t) <= revision (ticket_data c).

Lemma at_least_step b U t x :
  room b U -> t ∈ U -> at_least b x -> at_least (snd (apply_ticket t b)) x.
Proof.
  intros Hr Ht (c & Hc & Hle). unfold at_least. rewrite (apply_ticket_room _ _ _ Hr Ht), current_with_offer.
  destruct (decide _) as [[Hn Hs]|]; [|eauto]. unfold current_ticket in Hc. rewrite <- Hn, <- Hs in Hc.
  apply bind_Some in Hc as (o & -> & Hc). simpl.
  destruct (learn_keeps t o _ _ Hc) as (c' & Hc' & Hle'). exists c'. split; [done|lia].
Qed.

Lemma at_least_learnt b U t :
  room b U -> t ∈ U -> admissible b t -> at_least (snd (apply_ticket t b)) t.
Proof.
  intros Hr Ht (o & Ho & Hv). unfold at_least. rewrite (apply_ticket_room _ _ _ Hr Ht), current_with_offer.
  rewrite decide_True by done. unfold find_slot in Ho. rewrite Ho. simpl. by apply learn_holds.
Qed.

Lemma apply_all_at_least U ts : forall b, (forall t, t ∈ ts -> t ∈ U) -> room b U ->
  (forall x, at_least b x -> at_least (apply_all ts b) x) /\
  (forall x, x ∈ ts -> admissible b x -> at_least (apply_all ts b) x).
Proof.
  induction ts as [|t ts IH]; intros b HU Hr; simpl; [by split; [|intros ? ?%elem_of_nil]|].
  assert (t ∈ U) as Ht by (apply HU; left).
  destruct (IH (snd (apply_ticket t b))) as [IH1 IH2];
    [intros; apply HU; by right|by apply room_step|].
  split; [by eauto using at_least_step|]. intros x [->|Hx]%elem_of_cons Hadm.
  - eapply IH1, at_least_learnt; eauto.
  - apply IH2; [done|]. by rewrite (apply_ticket_room _ _ _ Hr Ht), admissible_with_offer.
Qed.

Lemma apply_all_origin U ts : forall b n s p c, (forall t, t ∈ ts -> t ∈ U) -> room b U ->
  current_ticket (apply_all ts b) n s p = Some c -> c ∈ ts \/ current_ticket b n s p = Some c.
Proof.
  induction ts as [|t ts IH]; intros b n s p c HU Hr Hc; [by right|].
  assert (t ∈ U) as Ht by (apply HU; left).
  apply IH in Hc as [Hc|Hc]; [left; by right| |intros; apply HU; by right|by apply room_step].
  rewrite (apply_ticket_room _ _ _ Hr Ht), current_with_offer in Hc.
  destruct (decide _) as [[<- <-]|]; [|by right]. unfold current_ticket.
  apply bind_Some in Hc as (o & Ho & Hc). rewrite Ho. simpl.
  apply learn_lookup in Hc as [Hc|(_ & -> & _)]; [by right|left; left].
Qed.

(** ** The ticket set *)

Lemma elem_ticket_set b n s t :
  book_ok b -> t ∈ ticket_set b n s ->
  current_ticket b n s (ticket_signer t) = Some t /\ ticket_active t = true.
Proof.
  intros Hb. unfold ticket_set, current_ticket. destruct (find_offer b n s) as [o|] eqn:Ho; [|by intros ?%elem_of_nil].
  rewrite merge_sort_Permutation. intros [Ha Ht]%list_elem_of_filter. split; [|done]. simpl.
  apply list_elem_of_fmap in Ht as ([k x] & -> & Hx). simpl. apply elem_of_map_to_list in Hx.
  destruct (so_tickets _ _ _ (find_offer_ok _ _ _ _ Hb Ho) _ _ Hx) as (-> & _). done.
Qed.

Lemma ticket_set_elem b n s t :
  book_ok b -> current_ticket b n s (ticket_signer t) = Some t -> ticket_active t = true -> t ∈ ticket_set b n s.
Proof.
  intros Hb. unfold ticket_set, current_ticket. destruct (find_offer b n s) as [o|]; [|done]. simpl.
  intros Hc Ha. rewrite merge_sort_Permutation. apply list_elem_of_filter. split; [done|].
  apply list_elem_of_fmap. exists (ticket_signer t, t). split; [done|]. by apply elem_of_map_to_list.
Qed.

#[local] Instance ticket_key_le_trans c : Transitive (ticket_key_le c).
Proof. intros t1 t2 t3. unfold ticket_key_le. cbv zeta. repeat case_match; intuition (try congruence; try lia). Qed.
#[local] Instance ticket_key_le_total c : Total (ticket_key_le c).
Proof.
  intros t1 t2. unfold ticket_key_le. cbv zeta.
  destruct (ticket_signer t1 =? c), (ticket_signer t2 =? c), (Z.le_ge_cases (ticket_signer t1) (ticket_signer t2)); auto.
Qed.

(** The creator's ticket sorts first, then the signers ascend. *)
Lemma ticket_set_sorted b n s o :
  find_offer b n s = Some o -> StronglySorted (ticket_key_le (ob_creator o)) (ticket_set b n s).
Proof. intros Ho. unfold ticket_set. rewrite Ho. apply StronglySorted_merge_sort; apply _. Qed.

Lemma ticket_set_NoDup b n s : book_ok b -> NoDup (ticket_set b n s).
Proof.
  intros Hb. unfold ticket_set. destruct (find_offer b n s) as [o|] eqn:Ho; [|constructor].
  rewrite merge_sort_Permutation. apply NoDup_filter. unfold map_values.
  apply NoDup_fmap_2_strong; [|apply NoDup_map_to_list].
  intros [k x] [k' x'] Hx Hx' Heq. simpl in Heq. subst x'. apply elem_of_map_to_list in Hx, Hx'.
  pose proof (so_tickets _ _ _ (find_offer_ok _ _ _ _ Hb Ho)) as Hall.
  destruct (Hall _ _ Hx) as (H1 & _), (Hall _ _ Hx') as (H2 & _). congruence.
Qed.

(** ** What the calls do to the slots *)

Lemma register_offer_slots n s o b b' :
  register_offer n s o b = (Ok tt, b') -> forall k,
  find_offer b' n k = if decide (k = s) then
      match find_offer b n s with
      | Some e => Some e
      | None => h ← (match offer_hash_of (E:=ApplyError) (offer_data o) with Ok h => Some h | _ => None end);
                Some (MkOfferBook h (creator (offer_data o)) ∅)
      end
    else find_offer b n k.
Proof.
  unfold register_offer, sbind, sread, smodify. destruct (_ || _); simpl; [done|].
  rewrite lookup_insert_eq. simpl. set (st := default state_default (negotiations b !! n)).
  assert (forall k, find_offer b n k = ns_offers st !! k) as Hst.
  { intros k. unfold find_offer, st. destruct (negotiations b !! n); simpl; [done|]. by rewrite lookup_empty. }
  destruct (_ && _); simpl; [done|].
  destruct (offer_hash_of (offer_data o)) as [h| |] eqn:Hh; simpl; [|done..].
  intros Hr k. rewrite (Hst s), (Hst k). destruct (ns_offers st !! s) as [e|] eqn:He; simpl in Hr.
  - destruct (negb _); simpl in Hr; [done|]. injection Hr as <-. unfold find_offer. simpl.
    rewrite lookup_insert_eq. simpl. case_decide; subst; done.
  - injection Hr as <-. unfold find_offer. simpl. rewrite lookup_alter_eq, lookup_insert_eq. simpl.
    case_decide; subst; by simplify_map_eq.
Qed.

Lemma prune_offers_slots n m b k :
  find_offer (prune_offers_before n m b) n k = if decide (m <= k) then find_offer b n k else None.
Proof.
  unfold find_offer, prune_offers_before, with_state. simpl. rewrite lookup_alter_eq.
  destruct (negotiations b !! n) as [st|]; simpl; [|by case_decide].
  rewrite map_lookup_filter. destruct (ns_offers st !! k) as [o|]; simpl; [|by case_decide].
  case_decide; [by rewrite option_guard_True|by rewrite option_guard_False].
Qed.

Lemma apply_ticket_slots t b n k :
  find_offer (snd (apply_ticket t b)) n k = None <-> find_offer b n k = None.
Proof.
  rewrite apply_ticket_state, find_with_offer. case_decide as Hd; [|done]. destruct Hd as [<- <-].
  by rewrite fmap_None.
Qed.

Lemma apply_ticket_current t b out b' :
  apply_ticket t b = (Ok out, b') ->
  current_ticket b (slot_n t) (slot_s t) (ticket_signer t) = None ->
  current_ticket b' (slot_n t) (slot_s t) (ticket_signer t) = Some t.
Proof.
  unfold apply_ticket, sbind, sread, smodify, sret, current_ticket.
  destruct (ticket_validate t) as [[]| |]; simpl; [|done..].
  destruct (find_offer b (slot_n t) (slot_s t)) as [o|] eqn:Ho; simpl; [|done].
  destruct (verify_for_offer t (ob_hash o)) as [[]| |]; simpl; [|done..].
  intros Ht Hn. rewrite Hn in Ht. destruct (_ <=? _); simpl in Ht; [done|]. injection Ht as <- <-.
  rewrite find_with_offer, decide_True, Ho by done. simpl. by rewrite lookup_insert_eq.
Qed.

(** A ticket of the same revision does not replace the current one. *)
Lemma apply_ticket_same t b n s p c :
  current_ticket b n s p = Some c ->
  (ticket_signer t = p -> ticket_slot t = (n, s) -> forall h, verify_for_offer t h = Ok tt ->
     revision (ticket_data t) <= revision (ticket_data c)) ->
  current_ticket (snd (apply_ticket t b)) n s p = Some c.
Proof.
  intros Hc Hrev. rewrite apply_ticket_state, current_with_offer. case_decide as Hd; [|done].
  destruct Hd as [Hn Hs]. unfold current_ticket in Hc. rewrite <- Hn, <- Hs in Hc.
  apply bind_Some in Hc as (o & -> & Hc). simpl. unfold receive.
  destruct (verified o t) eqn:Hv; [|done]. apply verified_Ok in Hv.
  destruct (decide (ticket_signer t = p)) as [Hp|Hp].
  - rewrite Hp, Hc. rewrite (proj2 (Z.ltb_ge _ _)); [done|]. eapply Hrev; [done| |done].
    unfold ticket_slot. by rewrite Hn, Hs.
  - repeat case_match; simpl; rewrite ?lookup_insert_ne by done; done.
Qed.

(** A ticket that replaces the current one verifies and has a later revision. *)
Lemma apply_ticket_replaces t b n s p c :
  current_ticket b n s p = Some c ->
  current_ticket (snd (apply_ticket t b)) n s p = Some c \/
  current_ticket (snd (apply_ticket t b)) n s p = Some t /\ ticket_signer t = p /\
    (exists h, verify_for_offer t h = Ok tt) /\ revision (ticket_data c) < revision (ticket_data t).
Proof.
  intros Hc. rewrite apply_ticket_state, current_with_offer. case_decide as Hd; [|by left].
  destruct Hd as [Hn Hs]. unfold current_ticket in Hc. rewrite <- Hn, <- Hs in Hc.
  apply bind_Some in Hc as (o & -> & Hc). simpl. unfold receive.
  destruct (verified o t) eqn:Hv; [|by left]. apply verified_Ok in Hv.
  destruct (decide (ticket_signer t = p)) as [Hp|Hp].
  - rewrite Hp, Hc. destruct (Z.ltb_spec (revision (ticket_data c)) (revision (ticket_data t))); [right|by left].
    simpl. rewrite lookup_insert_eq. eauto.
  - left. repeat case_match; simpl; rewrite ?lookup_insert_ne by done; done.
Qed.

Lemma apply_counteroffer_slots c now b n k :
  find_offer (snd (apply_counteroffer c now b)) n k = find_offer b n k.
Proof.
  assert (forall f m b0, find_offer (with_state m (set_counteroffers f) b0) n k = find_offer b0 n k) as Hw.
  { intros f m b0. unfold find_offer, with_state. simpl. destruct (decide (m = n)) as [->|Hm].
    - rewrite lookup_alter_eq. by destruct (negotiations b0 !! n).
    - by rewrite lookup_alter_ne. }
  set (v := find_offer b n k).
  assert (preserves (fun b' => find_offer b' n k = v) (apply_counteroffer c now)) as Hp; [|by apply Hp].
  assert (forall f m, preserves (E:=ApplyError) (fun b' => find_offer b' n k = v)
            (smodify (with_state m (set_counteroffers f)))) as Hm by (intros f m b' Hb'; simpl; by rewrite Hw).
  unfold apply_counteroffer.
  repeat first [ apply preserves_sbind; [first [apply Hm|by apply preserves_read_only]|intros ?; cbv zeta]
               | by apply preserves_read_only | case_match ].
Qed.
End BookLemmas.
