(* ===== verification/Driver.v ===== *)
(** * The negotiation driver (node/src/machines/negotiation/driver.rs, support.rs, activation.rs)

    One drive takes the local host through a negotiation: it collects tickets in
    its book, the creator freezes a ticket set and gathers activation signatures,
    a participant consents to an authenticated offer, fetches the frozen set and
    prepares it, and both commit the activation.

    A handler is a method on [World]: the driver, a counter that numbers the
    questions it puts to the outside, and the log of what it did.  The answers are
    a record [Outside] of functions of that counter: clocks, the topic, the durable
    effects, the program's initial state.  Every outcome of every call is thus
    covered by some [Outside], and a run is a function.  Handlers are translated
    whole, in the order of their effects, and return the state on every path.

    The select loop is [drive], over the list of inputs in the order they are
    served; an arm that the code leaves pending does nothing.  Timeouts around sends
    whose result is dropped are not modelled, nor is tracing. *)

From S2P Require Import Prelude Borsh Crypto Session Trace Negotiation Book.

#[local] Open Scope Z_scope.

Definition CADENCE_MS : Z := 2000.
Definition REOFFER_MAX_ATTEMPTS : Z := 8.
Definition REOFFER_WINDOW_MS : Z := 30000.
Definition COMPLETION_TIMEOUT : Z := 30000.
Definition FETCH_TIMEOUT : Z := 5000.

(** ** Data *)

Inductive PrepareOutcome := PrepareAccepted | NotPreparable (why : string) | PrepareConflict.
Inductive DurableOutcome := DurableAccepted | DurableConflict.

Inductive ActivatedSessionError :=
| InvalidEnsemble (e : EnsembleError)
| AggregateVerification (e : ActivationError).

Record ActivatedSession := MkActivated { as_ensemble : Ensemble; as_activation : Activation }.

(** The texts of [Signing], [Prepare] and [PersistCommit]. *)
Inductive SigningReason :=
| SignNegotiation (e : NegotiationError)
| SignActivation (e : ActivationError)
| SignCrypto (e : CryptoError)
| SignApply (e : ApplyError)
| SignJson (e : JsonBytesError)
| RevisionExhausted.
Inductive PrepareReason :=
| PrepareEffectFailed (what : string)
| PrepareBound
| PrepareRestore (e : ApplyError).
Inductive PersistReason :=
| PersistEffectFailed (what : string)
| PersistBound
| PersistInvalid (e : ActivatedSessionError).

Inductive NegotiationDriveError :=
| ExecutionStoreHostMismatch
| ExecutionStoreMismatch (store requested : Z)
| InvalidLocalTicket
| NotSelected
| DriveProfileMismatch (offered local : Z)
| InvalidPreparedState
| Signing (why : SigningReason)
| Prepare (why : PrepareReason)
| PersistCommit (why : PersistReason)
| StreamClosed
| Timeout
| UnknownOutcome
| WithdrawnLocally.

Record CreatorState := MkCreator {
  frozen : option PreparedActivation;
  activation_signatures : gmap Z Z;
  reoffer_attempts : Z;
  tried_params : gmap bytes Z }.

Record ParticipantState := MkParticipant {
  pending_reoffer : option Offer;
  part_prepared : option PreparedActivation;
  fetch_sent_at : option Z }.

Inductive NegotiationRole :=
| Creator (s : CreatorState)
| Participant (s : ParticipantState).

Definition creator_state (r : NegotiationRole) : option CreatorState :=
  match r with Creator s => Some s | Participant _ => None end.
Definition participant_state (r : NegotiationRole) : option ParticipantState :=
  match r with Creator _ => None | Participant s => Some s end.
Definition prepared_activation (r : NegotiationRole) : option PreparedActivation :=
  match r with Creator s => frozen s | Participant s => part_prepared s end.

(** [NegotiationDriver], less its handles; [d_supervised] says whether the
    supervision channels are installed. *)
Record Driver := MkDriver {
  d_offer : Offer;
  d_local : option Ticket;
  d_preferred : option bytes;
  d_book : NegotiationBook;
  d_supervised : bool;
  d_rx_closed : bool;
  d_registered : option SessionHash;
  d_deadline : option Z;
  d_neighbors : gset Z;
  d_role : NegotiationRole;
  d_emitted_signature : bool;
  d_timed_out : bool;
  d_resumed : option SessionHash;
  d_cadence : Z }.

Inductive FetchFrame :=
| FetchActivationTickets (session : SessionHash)
| FetchResponse (r : ActivationTickets).

Inductive ProgramTopicEvent :=
| Joined | NeighborUp (p : PeerId) | NeighborDown (p : PeerId)
| TopicFact (frame : bytes) | Lagged | Closed.

Inductive NegotiationStage := Gossiping | PreparedStage.

Inductive NegotiationEvent :=
| Started (target_size : Z)
| OfferAccepted (creator offer_seq : Z)
| TicketAccepted (participant ticket_hash ticket_count target_size : Z)
| ActivationPrepared (session_hash participant_count : Z)
| PreparedActivationResumed (session_hash participant_count : Z)
| ActivationCommitted (session_hash participant_count : Z)
| Retry (attempt : Z) (stage : NegotiationStage) (ticket_count sig_count target_size : Z)
| TopicRejoined
| TimedOut (stage : NegotiationStage) (ticket_count sig_count target_size : Z).

(** What a drive asks of the outside or tells it, in order. *)
Inductive Action :=
| Publish (g : NegotiationGossip) (delivered : bool)
| DidPrepare (p : PreparedActivation) (r : string + PrepareOutcome)
| DidPersist (a : Activation) (r : string + DurableOutcome)
| FetchSent (to : PeerId) (session : SessionHash)
| FetchServed (to : PeerId) (r : ActivationTickets)
| JoinPeers (peers : list PeerId)
| Subscribe (peers : list PeerId)
| RegistryInsert (h : SessionHash)
| RegistryRemove (h : SessionHash)
| SendTicket (t : Ticket)
| SendOffer (o : Offer)
| AnswerWithdrawal (accepted : bool)
| Emit (e : NegotiationEvent).

Inductive CallResult := CallOk | CallFailed | CallTimedOut.

(** The answers of the outside to the n-th question of a drive. *)
Record Outside := {
  unix_time : nat -> Z;
  instant : nat -> Z;
  topic_publish : nat -> NegotiationGossip -> CallResult;
  topic_subscribe : nat -> list PeerId -> CallResult;
  prepare_effect : nat -> PreparedActivation -> string + PrepareOutcome;
  persist_effect : nat -> Activation -> string + DurableOutcome;
  recompute_initial_state : nat -> bytes -> string + StateHash;
  withdrawal_flag : nat -> bool }.

Record World := MkWorld { driver : Driver; tick : nat; log : list Action }.

Abbreviation DM A := (M World NegotiationDriveError A).

(** ** Fields *)

Definition set_offer o d := MkDriver o (d_local d) (d_preferred d) (d_book d) (d_supervised d)
  (d_rx_closed d) (d_registered d) (d_deadline d) (d_neighbors d) (d_role d)
  (d_emitted_signature d) (d_timed_out d) (d_resumed d) (d_cadence d).
Definition set_local t d := MkDriver (d_offer d) t (d_preferred d) (d_book d) (d_supervised d)
  (d_rx_closed d) (d_registered d) (d_deadline d) (d_neighbors d) (d_role d)
  (d_emitted_signature d) (d_timed_out d) (d_resumed d) (d_cadence d).
Definition set_book b d := MkDriver (d_offer d) (d_local d) (d_preferred d) b (d_supervised d)
  (d_rx_closed d) (d_registered d) (d_deadline d) (d_neighbors d) (d_role d)
  (d_emitted_signature d) (d_timed_out d) (d_resumed d) (d_cadence d).
Definition set_supervised s d := MkDriver (d_offer d) (d_local d) (d_preferred d) (d_book d) s
  (d_rx_closed d) (d_registered d) (d_deadline d) (d_neighbors d) (d_role d)
  (d_emitted_signature d) (d_timed_out d) (d_resumed d) (d_cadence d).
Definition set_rx_closed c d := MkDriver (d_offer d) (d_local d) (d_preferred d) (d_book d)
  (d_supervised d) c (d_registered d) (d_deadline d) (d_neighbors d) (d_role d)
  (d_emitted_signature d) (d_timed_out d) (d_resumed d) (d_cadence d).
Definition set_registered h d := MkDriver (d_offer d) (d_local d) (d_preferred d) (d_book d)
  (d_supervised d) (d_rx_closed d) h (d_deadline d) (d_neighbors d) (d_role d)
  (d_emitted_signature d) (d_timed_out d) (d_resumed d) (d_cadence d).
Definition set_deadline l d := MkDriver (d_offer d) (d_local d) (d_preferred d) (d_book d)
  (d_supervised d) (d_rx_closed d) (d_registered d) l (d_neighbors d) (d_role d)
  (d_emitted_signature d) (d_timed_out d) (d_resumed d) (d_cadence d).
Definition set_neighbors n d := MkDriver (d_offer d) (d_local d) (d_preferred d) (d_book d)
  (d_supervised d) (d_rx_closed d) (d_registered d) (d_deadline d) n (d_role d)
  (d_emitted_signature d) (d_timed_out d) (d_resumed d) (d_cadence d).
Definition set_role r d := MkDriver (d_offer d) (d_local d) (d_preferred d) (d_book d)
  (d_supervised d) (d_rx_closed d) (d_registered d) (d_deadline d) (d_neighbors d) r
  (d_emitted_signature d) (d_timed_out d) (d_resumed d) (d_cadence d).
Definition set_emitted e d := MkDriver (d_offer d) (d_local d) (d_preferred d) (d_book d)
  (d_supervised d) (d_rx_closed d) (d_registered d) (d_deadline d) (d_neighbors d) (d_role d)
  e (d_timed_out d) (d_resumed d) (d_cadence d).
Definition set_timed_out t d := MkDriver (d_offer d) (d_local d) (d_preferred d) (d_book d)
  (d_supervised d) (d_rx_closed d) (d_registered d) (d_deadline d) (d_neighbors d) (d_role d)
  (d_emitted_signature d) t (d_resumed d) (d_cadence d).
Definition set_resumed r d := MkDriver (d_offer d) (d_local d) (d_preferred d) (d_book d)
  (d_supervised d) (d_rx_closed d) (d_registered d) (d_deadline d) (d_neighbors d) (d_role d)
  (d_emitted_signature d) (d_timed_out d) r (d_cadence d).
Definition set_cadence c d := MkDriver (d_offer d) (d_local d) (d_preferred d) (d_book d)
  (d_supervised d) (d_rx_closed d) (d_registered d) (d_deadline d) (d_neighbors d) (d_role d)
  (d_emitted_signature d) (d_timed_out d) (d_resumed d) c.

(** ** Primitive effects *)

Definition get {A} (f : Driver -> A) : DM A := sread (fun w => Ok (f (driver w))).
Definition put (f : Driver -> Driver) : DM unit :=
  smodify (fun w => MkWorld (f (driver w)) (tick w) (log w)).
Definition act (a : Action) : DM unit :=
  smodify (fun w => MkWorld (driver w) (tick w) (log w ++ [a])).
Definition ask {A} (f : nat -> A) : DM A := fun w =>
  (Ok (f (tick w)), MkWorld (driver w) (S (tick w)) (log w)).
Definition lift {A} (r : result NegotiationDriveError A) : DM A := sread (fun _ => r).
Definition throw {A} (e : NegotiationDriveError) : DM A := lift (Err e).

(** A method of the book, its error as a value. *)
Definition with_book {A} (m : M NegotiationBook ApplyError A) : DM (result ApplyError A) := fun w =>
  let '(r, b) := m (d_book (driver w)) in
  let w' := MkWorld (set_book b (driver w)) (tick w) (log w) in
  match r with Panic => (Panic, w') | _ => (Ok r, w') end.
(** The same with its error mapped and propagated. *)
Definition book_call {A} (m : M NegotiationBook ApplyError A)
    (f : ApplyError -> NegotiationDriveError) : DM A :=
  let! r := with_book m in lift (map_err f r).

Definition when (b : bool) (m : DM unit) : DM unit := if b then m else sret tt.

(** [Result::ok]. *)
Definition ok_of {E F A} (r : result E A) : result F (option A) :=
  match r with Ok a => Ok (Some a) | Err _ => Ok None | Panic => Panic end.

(** [if let Some(state) = self.role.creator_state_mut() { f(state) }]. *)
Definition on_creator (f : CreatorState -> CreatorState) (d : Driver) : Driver :=
  match d_role d with Creator s => set_role (Creator (f s)) d | Participant _ => d end.
Definition on_participant (f : ParticipantState -> ParticipantState) (d : Driver) : Driver :=
  match d_role d with Creator _ => d | Participant s => set_role (Participant (f s)) d end.

Definition set_frozen p s := MkCreator p (activation_signatures s) (reoffer_attempts s) (tried_params s).
Definition set_signatures g s := MkCreator (frozen s) g (reoffer_attempts s) (tried_params s).
Definition set_tried ps support s := MkCreator (frozen s) (activation_signatures s)
  (reoffer_attempts s + 1) (<[ps := support]> (tried_params s)).
Definition set_pending o s := MkParticipant o (part_prepared s) (fetch_sent_at s).
Definition set_prepared p s := MkParticipant (pending_reoffer s) p (fetch_sent_at s).
Definition set_fetch_sent t s := MkParticipant (pending_reoffer s) (part_prepared s) t.

(** [self.offer.data()], its slot and its target. *)
Definition offer_id (d : Driver) : NegotiationId := o_negotiation_id (offer_data (d_offer d)).
Definition offer_slot (d : Driver) : Z := offer_seq (offer_data (d_offer d)).
Definition offer_target (d : Driver) : Z := target_size (offer_data (d_offer d)).

(** [bounded_count]. *)
Definition bounded_count (n : Z) : Z := Z.min u16_max n.

Definition is_creator (d : Driver) : bool :=
  match d_role d with Creator _ => true | Participant _ => false end.
Definition participant_prepared (d : Driver) : bool :=
  match d_role d with Participant s => bool_decide (is_Some (part_prepared s)) | Creator _ => false end.
Definition is_prepared (d : Driver) : bool :=
  bool_decide (is_Some (prepared_activation (d_role d))).
Definition creator_frozen (d : Driver) : option PreparedActivation :=
  s ← creator_state (d_role d); frozen s.

(** [negotiation_stage]. *)
Definition negotiation_stage (d : Driver) : NegotiationStage :=
  if is_prepared d then PreparedStage else Gossiping.
Definition sig_count (d : Driver) : Z :=
  match d_role d with Creator s => map_size (activation_signatures s) | Participant _ => 0 end.
Definition ticket_count (d : Driver) : Z := book_len (d_book d) (offer_id d) (offer_slot d).

(** [ticket_prepare_window_ok]. *)
Definition ticket_prepare_window_ok (t : Ticket) (now : Z) : bool :=
  match action (ticket_data t) with
  | Active_ _ _ issued_at valid_for =>
      (issued_at <=? sat_add now MAX_CLOCK_SKEW_MS)
      && (MAX_CLOCK_SKEW_MS + PREPARE_WINDOW_MS <=? sat_sub (sat_add issued_at valid_for) now)
  | Withdrawn => false
  end.

(** ** Handlers *)

Section Driver.
Context `{Crypto, LocalKeys} (out : Outside).

(** [emit_negotiation_event]. *)
Definition emit (f : Driver -> NegotiationEvent) : DM unit := let! e := get f in act (Emit e).

(** [timeout_error]: the error to return, after the one timeout event. *)
Definition timeout_error : DM NegotiationDriveError :=
  let! d := get id in
  if participant_prepared d || d_emitted_signature d then sret UnknownOutcome
  else
    when (negb (d_timed_out d))
      (put (set_timed_out true) ;;!
       emit (fun d => TimedOut (negotiation_stage d) (bounded_count (ticket_count d))
                        (bounded_count (sig_count d)) (offer_target d))) ;;!
    sret Timeout.
Definition fail_timeout {A} : DM A := let! e := timeout_error in throw e.

(** [stream_failure]. *)
Definition stream_failure (d : Driver) : NegotiationDriveError :=
  if participant_prepared d || d_emitted_signature d then UnknownOutcome else StreamClosed.

(** [publish]. *)
Definition publish (f : NegotiationFact) : DM unit :=
  let! d := get id in
  let frame := gossip_new (program_hash (offer_data (d_offer d))) (offer_id d) f in
  lift (map_err (fun e => Signing (SignNegotiation e)) (gossip_validate frame)) ;;!
  lift (rmap (fun _ => tt) (expect_ok (to_vec c_gossip frame))) ;;!
  let! r := ask (fun n => topic_publish out n frame) in
  act (Publish frame (match r with CallOk => true | _ => false end)) ;;!
  match r with
  | CallOk => sret tt
  | CallFailed => throw StreamClosed
  | CallTimedOut => fail_timeout
  end.

(** [expected_session_hash]. *)
Definition expected_session_hash (d : Driver) : result NegotiationDriveError SessionHash :=
  let? oh := offer_hash_of (offer_data (d_offer d)) in
  let? data := map_err (fun e => Signing (SignNegotiation e))
                 (activation_data_new oh (offer_tickets (d_offer d))) in
  session_hash_of data.

(** [refresh_fetch_registration]. *)
Definition refresh_fetch_registration : DM unit :=
  let! d := get id in
  let! expected := lift (ok_of (expected_session_hash d)) in
  if bool_decide (expected = d_registered d) then sret tt else
  match d_registered d with
  | Some old => put (set_registered None) ;;! act (RegistryRemove old)
  | None => sret tt
  end ;;!
  match expected with
  | Some h => act (RegistryInsert h) ;;! put (set_rx_closed false) ;;! put (set_registered (Some h))
  | None => sret tt
  end.

(** [if let Some(supervision) = &self.supervision { supervision.ticket.send(..) }]. *)
Definition send_ticket (t : Ticket) : DM unit :=
  let! s := get d_supervised in when s (act (SendTicket t)).
Definition send_offer : DM unit :=
  let! d := get id in when (d_supervised d) (act (SendOffer (d_offer d))).

(** [issue_local_ticket]: the book's error is a value for the callers. *)
Definition issue_local_ticket : DM (result ApplyError Ticket) :=
  let! d := get id in
  let! now := ask (unix_time out) in
  let! r := with_book (issue_ticket (offer_id d) (offer_slot d) 0 now) in
  match r with
  | Ok t => send_ticket t ;;! put (set_local (Some t)) ;;! sret (Ok t)
  | _ => sret r
  end.

(** [ensure_local_ticket]. *)
Definition ensure_local_ticket : DM unit :=
  let! d := get id in
  if bool_decide (is_Some (d_local d)) || is_creator d then sret tt else
  if match d_preferred d with
     | Some ps => negb (bool_decide (params (offer_data (d_offer d)) = ps))
     | None => false
     end then sret tt else
  let! r := ask (fun n => recompute_initial_state out n (params (offer_data (d_offer d)))) in
  match r with
  | inr st =>
      if negb (st =? initial_state (offer_data (d_offer d))) then sret tt else
      let! t := issue_local_ticket in
      match t with
      | Ok t => publish (FactTicket t)
      | Err (UnauthenticatedOffer _ _) => sret tt
      | _ => throw InvalidLocalTicket
      end
  | inl _ => sret tt
  end.

(** [bootstrap_peers]. *)
Definition bootstrap_peers (d : Driver) : list PeerId :=
  dedup (sort_key id (filter (fun p => p <> local_peer)
    (map ticket_signer (ticket_set (d_book d) (offer_id d) (offer_slot d))
     ++ [creator (offer_data (d_offer d))]))).

(** [rejoin_topic]. *)
Definition rejoin_topic : DM unit :=
  let! d := get id in
  let peers := bootstrap_peers d in
  act (Subscribe peers) ;;!
  let! r := ask (fun n => topic_subscribe out n peers) in
  match r with
  | CallOk => put (set_neighbors ∅) ;;! emit (fun _ => TopicRejoined)
  | CallFailed => throw (stream_failure d)
  | CallTimedOut => fail_timeout
  end.

(** [arm_completion_deadline]. *)
Definition arm_completion_deadline : DM unit :=
  let! dl := get d_deadline in
  match dl with
  | Some _ => sret tt
  | None => let! now := ask (instant out) in put (set_deadline (Some (now + COMPLETION_TIMEOUT)))
  end.

(** [publish_local_signature]. *)
Definition publish_local_signature : DM ActivationSignature :=
  let! d := get id in
  let! p := lift (expect (prepared_activation (d_role d))) in
  let! msg := lift (activation_signing_bytes (p_activation_data p)) in
  let signature := execution_sign msg in
  let! t := lift (expect (d_local d)) in
  let! th := lift (ticket_hash_of (ticket_data t)) in
  let! frame := lift (map_err (fun e => Signing (SignNegotiation e))
                        (activation_sig_new (p_session_hash p) th signature)) in
  publish (FactActivationSignature frame) ;;!
  put (set_emitted true) ;;!
  sret frame.

(** [state.activation_signatures.insert(frame.ticket_hash, frame.signature)]. *)
Definition record_signature (a : ActivationSignature) : DM unit :=
  put (on_creator (fun s => set_signatures
         (<[as_ticket_hash a := as_signature a]> (activation_signatures s)) s)).

(** The call of [self.prepare] and the branches on its outcome: [true] to go on. *)
Definition prepare (p : PreparedActivation) : DM bool :=
  let! r := ask (fun n => prepare_effect out n p) in
  act (DidPrepare p r) ;;!
  match r with
  | inl e => throw (Prepare (PrepareEffectFailed e))
  | inr PrepareAccepted => sret true
  | inr (NotPreparable _) => sret false
  | inr PrepareConflict => throw (Prepare PrepareBound)
  end.

(** The call of [self.persist_activation] and the branches on its outcome. *)
Definition persist_activation (a : Activation) : DM unit :=
  let! r := ask (fun n => persist_effect out n a) in
  act (DidPersist a r) ;;!
  match r with
  | inl e => throw (PersistCommit (PersistEffectFailed e))
  | inr DurableAccepted => sret tt
  | inr DurableConflict => throw (PersistCommit PersistBound)
  end.

(** [.map(|ticket| TicketHash::of(&ticket.data)).collect()]. *)
Fixpoint ticket_hashes {E} (ts : list Ticket) : result E (list TicketHash) :=
  match ts with
  | [] => Ok []
  | t :: ts => let? h := ticket_hash_of (ticket_data t) in
               let? hs := ticket_hashes ts in Ok (h :: hs)
  end.

(** [ActivatedSession::new]. *)
Definition activated_new (a : Activation) : result ActivatedSessionError ActivatedSession :=
  map_err AggregateVerification (activation_validate a) ;;?
  let? e := map_err InvalidEnsemble (prepared_ensemble (prepared a)) in
  Ok (MkActivated e a).

(** *** The creator: freeze, aggregate, re-offer *)

(** The ticket set [try_freeze] selects. *)
Definition freeze_set (d : Driver) (now : Z) : list Ticket :=
  take (Z.to_nat (offer_target d))
    (filter (fun t => ticket_prepare_window_ok t now = true)
       (ticket_set (d_book d) (offer_id d) (offer_slot d))).

(** [try_freeze]. *)
Definition try_freeze : DM unit :=
  let! d := get id in
  match d_role d with
  | Creator {| frozen := None |} =>
      let! now := ask (unix_time out) in
      if deadline_unix_ms (offer_data (d_offer d)) <=? now then sret tt else
      let set := freeze_set d now in
      if zlen set <? offer_target d then sret tt else
      let! hashes := lift (ticket_hashes set) in
      let! frozen_offer := lift (map_err (fun e => Signing (SignNegotiation e))
                                   (offer_new (offer_data (d_offer d)) hashes)) in
      let! p := lift (map_err (fun e => Signing (SignActivation e)) (prepared_new frozen_offer set)) in
      let! accepted := prepare p in
      if negb accepted then sret tt else
      arm_completion_deadline ;;!
      put (on_creator (set_frozen (Some p))) ;;!
      put (set_offer frozen_offer) ;;!
      emit (fun d => ActivationPrepared (p_session_hash p) (bounded_count (offer_target d))) ;;!
      refresh_fetch_registration ;;!
      publish (FactOffer frozen_offer) ;;!
      let! frame := publish_local_signature in
      record_signature frame
  | _ => sret tt
  end.

(** [state.activation_signatures[&TicketHash::of(..)]] in frozen order. *)
Fixpoint frozen_signatures {E} (m : gmap Z Z) (ts : list Ticket) : result E (list Z) :=
  match ts with
  | [] => Ok []
  | t :: ts => let? h := ticket_hash_of (ticket_data t) in
               let? g := expect (m !! h) in
               let? gs := frozen_signatures m ts in Ok (g :: gs)
  end.

(** [try_aggregate]. *)
Definition try_aggregate : DM (option ActivatedSession) :=
  let! d := get id in
  match d_role d with
  | Creator {| frozen := Some p; activation_signatures := m |} =>
      if map_size m <? offer_target d then sret None else
      let! gs := lift (frozen_signatures m (p_tickets p)) in
      let! agg := lift (map_err (fun e => Signing (SignCrypto e)) (bls_aggregate gs)) in
      let! a := lift (map_err (fun e => Signing (SignActivation e)) (activation_new p agg)) in
      persist_activation a ;;!
      emit (fun d => ActivationCommitted (act_session_hash a) (bounded_count (offer_target d))) ;;!
      (* The error of the publication is logged and dropped. *)
      (fun w => match publish (FactActivationAnnouncement (from_activation a)) w with
                | (Panic, w') => (Panic, w')
                | (_, w') => (Ok tt, w')
                end) ;;!
      let! s := lift (map_err (fun e => PersistCommit (PersistInvalid e)) (activated_new a)) in
      sret (Some s)
  | _ => sret None
  end.

(** [Ord] of [Vec<u8>]. *)
Fixpoint lex_cmp (a b : bytes) : comparison :=
  match a, b with
  | [], [] => Eq
  | [], _ => Lt
  | _, [] => Gt
  | x :: a, y :: b => match x ?= y with Eq => lex_cmp a b | c => c end
  end.

(** [*groups.entry(params).or_insert(0) += 1] on the sorted entries of a
    [BTreeMap]. *)
Fixpoint group_add (ps : bytes) (g : list (bytes * Z)) : list (bytes * Z) :=
  match g with
  | [] => [(ps, 1)]
  | (k, n) :: g' => match lex_cmp ps k with
                    | Lt => (ps, 1) :: g
                    | Eq => (k, n + 1) :: g'
                    | Gt => (k, n) :: group_add ps g'
                    end
  end.

(** [Iterator::max_by] with the comparison of the support, then of the params
    reversed: a later element replaces one it is not below. *)
Definition group_cmp (l r : bytes * Z) : comparison :=
  match l.2 ?= r.2 with Eq => lex_cmp r.1 l.1 | c => c end.
Definition max_group (g : list (bytes * Z)) : option (bytes * Z) :=
  match g with
  | [] => None
  | x :: g => Some (foldl (fun best y => match group_cmp best y with Gt => best | _ => y end) x g)
  end.

(** The candidate of [try_reoffer]. *)
Definition reoffer_candidate (d : Driver) (s : CreatorState) (now : Z) : option (bytes * Z) :=
  let groups := foldl (fun g c => group_add (co_params (co_data c)) g) []
                  (valid_counteroffers (d_book d) (offer_id d) now) in
  match max_group groups with
  | Some (ps, support) =>
      if (offer_target d <=? support + 1) && (reoffer_attempts s <? REOFFER_MAX_ATTEMPTS)
         && match tried_params s !! ps with Some previous => previous <? support | None => true end
      then Some (ps, support) else None
  | None => None
  end.

(** The end of [try_reoffer], once its terms are fixed. *)
Definition reoffer_with (d : Driver) (now new_deadline : Z) (terms : bytes * StateHash) : DM unit :=
  let o := offer_data (d_offer d) in
  let! ps := lift (map_err (fun e => Signing (SignJson e)) (json_try_new terms.1)) in
  let! data := lift (map_err (fun e => Signing (SignNegotiation e))
    (offer_data_new (o_negotiation_id o) (sat_add (offer_seq o) 1) (creator o) (program_hash o)
       (execution_profile o) ps (target_size o) terms.2 new_deadline)) in
  let! ot := lift (map_err (fun _ => InvalidLocalTicket) (create_creator_offer data now)) in
  put (set_offer ot.1) ;;!
  let! d := get id in
  book_call (register_offer (offer_id d) (offer_slot d) (d_offer d)) (fun _ => InvalidLocalTicket) ;;!
  put (fun d => set_book (prune_offers_before (offer_id d) (offer_slot d) (d_book d)) d) ;;!
  book_call (apply_ticket ot.2) (fun _ => InvalidLocalTicket) ;;!
  put (set_local (Some ot.2)) ;;!
  send_ticket ot.2 ;;!
  send_offer ;;!
  put (on_creator (fun s => set_signatures ∅ (set_frozen None s))) ;;!
  put (set_emitted false) ;;!
  refresh_fetch_registration.

(** [try_reoffer]. *)
Definition try_reoffer : DM unit :=
  let! d := get id in
  match d_role d with
  | Participant _ => fail_timeout
  | Creator s =>
      let! late := match d_deadline d with
                   | None => sret false
                   | Some dl => let! i := ask (instant out) in sret (dl <=? i)
                   end in
      if late : bool then fail_timeout else
      let! now := ask (unix_time out) in
      let! terms :=
        match reoffer_candidate d s now with
        | Some (ps, support) =>
            let! r := ask (fun n => recompute_initial_state out n ps) in
            match r with
            | inl e => throw (Prepare (PrepareEffectFailed e))
            | inr st => put (on_creator (set_tried ps support)) ;;! sret (ps, st)
            end
        | None =>
            match d_deadline d with
            | None => sret (params (offer_data (d_offer d)), initial_state (offer_data (d_offer d)))
            | Some _ => fail_timeout
            end
        end in
      let window := sat_add now REOFFER_WINDOW_MS in
      let! new_deadline :=
        match d_deadline d with
        | None => sret window
        | Some dl => let! i := ask (instant out) in
                     sret (Z.min window (sat_add now (Z.max 0 (dl - i))))
        end in
      reoffer_with d now new_deadline terms
  end.

(** [for ticket in frozen.tickets() { self.publish(..).await?; }]. *)
Fixpoint publish_tickets (ts : list Ticket) : DM unit :=
  match ts with
  | [] => sret tt
  | t :: ts => publish (FactTicket t) ;;! publish_tickets ts
  end.

(** [creator_emit]. *)
Definition creator_emit : DM (option ActivatedSession) :=
  let! d := get id in
  let deadline := deadline_unix_ms (offer_data (d_offer d)) in
  let renew_at := match d_deadline d with
                  | None => sat_sub deadline (PREPARE_WINDOW_MS + MAX_CLOCK_SKEW_MS)
                  | Some _ => deadline
                  end in
  let! now := ask (unix_time out) in
  when ((renew_at <=? now)
        && match creator_state (d_role d) with Some s => bool_decide (frozen s = None) | None => false end)
    try_reoffer ;;!
  try_freeze ;;!
  let! d := get id in
  when (bool_decide (is_Some (creator_frozen d)) && negb (d_emitted_signature d))
    (let! frame := publish_local_signature in record_signature frame) ;;!
  let! d := get id in
  match creator_frozen d with
  | Some p => publish (FactOffer (p_offer p)) ;;! publish_tickets (p_tickets p)
  | None =>
      let! hashes := lift (ticket_hashes (ticket_set (d_book d) (offer_id d) (offer_slot d))) in
      let! o := lift (map_err (fun e => Signing (SignNegotiation e))
                        (offer_new (offer_data (d_offer d)) hashes)) in
      publish (FactOffer o) ;;!
      let! d := get id in
      let! t := lift (expect (d_local d)) in
      publish (FactTicket t)
  end ;;!
  try_aggregate.
(** *** The participant: offers, fetch, prepare, commit *)

(** [accept_reoffer]. *)
Definition accept_reoffer (o : Offer) : DM bool :=
  let! d := get id in
  let new := offer_data o in
  let cur := offer_data (d_offer d) in
  if negb (o_negotiation_id new =? o_negotiation_id cur) || negb (creator new =? creator cur)
     || negb (execution_profile new =? execution_profile cur) || (offer_seq new <=? offer_seq cur)
  then sret false else
  if match d_preferred d with Some ps => negb (bool_decide (params new = ps)) | None => false end
  then sret false else
  let! r := ask (fun n => recompute_initial_state out n (params new)) in
  sret (match r with inr st => st =? initial_state new | inl _ => false end).

(** [switch_offer]. *)
Definition switch_offer (o : Offer) (creator_ticket : Ticket) : DM unit :=
  let! d := get id in
  if is_creator d then throw InvalidLocalTicket else
  lift (map_err (fun _ => InvalidLocalTicket) (offer_data_validate (offer_data o))) ;;!
  put (set_offer o) ;;!
  send_offer ;;!
  let! d := get id in
  book_call (register_offer (offer_id d) (offer_slot d) (d_offer d)) (fun _ => InvalidLocalTicket) ;;!
  put (fun d => set_book (prune_offers_before (offer_id d) (offer_slot d) (d_book d)) d) ;;!
  book_call (apply_ticket creator_ticket) (fun _ => InvalidLocalTicket) ;;!
  let! r := issue_local_ticket in
  lift (rmap (fun _ => tt) (map_err (fun _ => InvalidLocalTicket) r)) ;;!
  put (on_participant (fun s => set_fetch_sent None (set_prepared None s))) ;;!
  put (set_emitted false) ;;!
  refresh_fetch_registration.

(** [send_fetch_request]. *)
Definition send_fetch_request : DM unit :=
  let! d := get id in
  let! h := lift (expected_session_hash d) in
  act (FetchSent (creator (offer_data (d_offer d))) h).

(** [try_fetch_and_prepare]. *)
Definition try_fetch_and_prepare : DM unit :=
  let! d := get id in
  match d_role d with
  | Participant {| part_prepared := None; fetch_sent_at := sent |} =>
      if bool_decide (d_local d = None) then sret tt else
      if negb (zlen (offer_tickets (d_offer d)) =? offer_target d) then sret tt else
      let! now := ask (instant out) in
      when (match sent with None => true | Some t => FETCH_TIMEOUT <? Z.max 0 (now - t) end)
        (send_fetch_request ;;! put (on_participant (set_fetch_sent (Some now))))
  | _ => sret tt
  end.

(** [prepare_window_ok]. *)
Definition prepare_window_ok (ts : list Ticket) : DM bool :=
  let! d := get id in
  let! now := ask (unix_time out) in
  sret (if deadline_unix_ms (offer_data (d_offer d)) <=? now then false
        else forallb (fun t => ticket_prepare_window_ok t now) ts).

(** The loop of [consume_fetch] over the fetched tickets. *)
Fixpoint fetched_ok {E} (oh : OfferHash) (l : list (Ticket * TicketHash)) : result E bool :=
  match l with
  | [] => Ok true
  | (t, expected) :: l =>
      let? th := ticket_hash_of (ticket_data t) in
      if negb (th =? expected) then Ok false else
      match verify_for_offer t oh with
      | Panic => Panic
      | Err _ => Ok false
      | Ok _ => if ticket_active t then fetched_ok oh l else Ok false
      end
  end.

(** [consume_fetch]: it never returns a session. *)
Definition consume_fetch (remote : PeerId) (r : ActivationTickets) : DM unit :=
  let! d := get id in
  if negb (remote =? creator (offer_data (d_offer d))) then sret tt else
  match d_role d with
  | Participant {| part_prepared := None |} =>
      let! h := lift (expected_session_hash d) in
      if negb (at_session_hash r =? h) then sret tt else
      if negb (zlen (at_tickets r) =? zlen (offer_tickets (d_offer d))) then sret tt else
      let! oh := lift (offer_hash_of (offer_data (d_offer d))) in
      let! ok := lift (fetched_ok oh (zip (at_tickets r) (offer_tickets (d_offer d)))) in
      if negb ok then sret tt else
      let! ok := prepare_window_ok (at_tickets r) in
      if negb ok then sret tt else
      match d_local d with
      | None => sret tt
      | Some lt =>
          let! lh := lift (ticket_hash_of (ticket_data lt)) in
          if negb (bool_decide (lh ∈ offer_tickets (d_offer d))) then throw NotSelected else
          let! p := lift (map_err (fun e => Signing (SignActivation e))
                            (prepared_new (d_offer d) (at_tickets r))) in
          let! accepted := prepare p in
          if negb accepted then sret tt else
          arm_completion_deadline ;;!
          put (on_participant (fun s => set_fetch_sent None (set_prepared (Some p) s))) ;;!
          emit (fun d => ActivationPrepared (p_session_hash p) (bounded_count (offer_target d))) ;;!
          let! _ := publish_local_signature in
          sret tt
      end
  | _ => sret tt
  end.

(** [on_announcement]. *)
Definition on_announcement (ann : ActivationAnnouncement) : DM (option ActivatedSession) :=
  let! d := get id in
  match d_role d with
  | Participant {| part_prepared := Some p |} =>
      let! a := lift (ok_of (from_announcement p ann)) in
      match a with
      | None => sret None
      | Some a =>
          let! s := lift (ok_of (activated_new a)) in
          match s with
          | None => sret None
          | Some s =>
              persist_activation (as_activation s) ;;!
              emit (fun d => ActivationCommitted (p_session_hash p) (bounded_count (offer_target d))) ;;!
              sret (Some s)
          end
      end
  | _ => sret None
  end.
(** [participant_emit]. *)
Definition participant_emit : DM unit :=
  ensure_local_ticket ;;!
  let! d := get id in
  match d_local d with
  | Some t => publish (FactTicket t)
  | None => sret tt
  end ;;!
  match d_preferred d with
  | Some ps =>
      let! now := ask (unix_time out) in
      let! c := book_call (emit_counteroffer (offer_id d) ps now) (fun e => Signing (SignApply e)) in
      publish (FactCounteroffer c)
  | None => sret tt
  end ;;!
  let! d := get id in
  when (participant_prepared d) (let! _ := publish_local_signature in sret tt) ;;!
  try_fetch_and_prepare.

(** *** Facts from the topic *)

(** [on_offer]: it never returns a session. *)
Definition on_offer (o : Offer) : DM unit :=
  let! d := get id in
  match d_role d with
  | Creator _ => sret tt
  | Participant s =>
      if negb (offer_seq (offer_data o) =? offer_slot d) then
        if bool_decide (is_Some (part_prepared s)) then sret tt else
        let! ok := accept_reoffer o in
        if negb ok then sret tt else put (on_participant (set_pending (Some o)))
      else
        let! h1 := lift (offer_hash_of (offer_data o)) in
        let! h2 := lift (offer_hash_of (offer_data (d_offer d))) in
        if negb (h1 =? h2) then sret tt else
        let! u := lift (ok_of (offer_new (offer_data o) (offer_tickets o))) in
        match u with
        | None => sret tt
        | Some u =>
            put (set_offer u) ;;!
            refresh_fetch_registration ;;!
            let! d := get id in
            when (zlen (offer_tickets o) =? offer_target d) try_fetch_and_prepare
        end
  end.

(** [emit_ticket_accepted]. *)
Definition emit_ticket_accepted (t : Ticket) : DM unit :=
  let! th := lift (ticket_hash_of (ticket_data t)) in
  emit (fun d => TicketAccepted (ticket_signer t) th (bounded_count (ticket_count d)) (offer_target d)).

(** [on_ticket]. *)
Definition on_ticket (t : Ticket) : DM unit :=
  let! d := get id in
  let seq := t_offer_seq (ticket_data t) in
  if negb (t_negotiation_id (ticket_data t) =? offer_id d) then sret tt else
  if offer_slot d <? seq then
    match d_role d with
    | Participant {| pending_reoffer := Some o |} =>
        if negb (offer_seq (offer_data o) =? seq) || negb (ticket_signer t =? creator (offer_data o))
        then sret tt else
        if negb (ticket_active t) then sret tt else
        let! oh := lift (offer_hash_of (offer_data o)) in
        match verify_for_offer t oh with
        | Panic => lift Panic
        | Err _ => sret tt
        | Ok _ => put (on_participant (set_pending None)) ;;! switch_offer o t
        end
    | _ => sret tt
    end
  else if negb (seq =? offer_slot d) then sret tt else
    let! r := with_book (apply_ticket t) in
    match r with
    | Ok Inserted | Ok Replaced =>
        emit_ticket_accepted t ;;!
        let! d := get id in
        when (ticket_signer t =? creator (offer_data (d_offer d))) ensure_local_ticket
    | _ => sret tt
    end.

(** [frozen.tickets().iter().find(|t| TicketHash::of(&t.data) == hash)]. *)
Fixpoint find_ticket {E} (h : TicketHash) (ts : list Ticket) : result E (option Ticket) :=
  match ts with
  | [] => Ok None
  | t :: ts => let? th := ticket_hash_of (ticket_data t) in
               if th =? h then Ok (Some t) else find_ticket h ts
  end.

(** [on_activation_signature]. *)
Definition on_activation_signature (a : ActivationSignature) : DM unit :=
  let! d := get id in
  if negb (is_creator d) then sret tt else
  let! v := lift (ok_of (activation_sig_validate a)) in
  if bool_decide (v = None) then sret tt else
  match creator_frozen d with
  | None => sret tt
  | Some p =>
      if negb (as_session_hash a =? p_session_hash p) then sret tt else
      let! t := lift (find_ticket (as_ticket_hash a) (p_tickets p)) in
      match t with
      | Some {| ticket_data := {| action := Active_ execution_bls _ _ _ |} |} =>
          let! msg := lift (activation_signing_bytes (p_activation_data p)) in
          match bls_verify execution_bls msg (as_signature a) with
          | Ok true => record_signature a
          | _ => sret tt
          end
      | _ => sret tt
      end
  end.

(** [on_counteroffer]. *)
Definition on_counteroffer (c : Counteroffer) : DM unit :=
  let! now := ask (unix_time out) in
  let! _ := with_book (apply_counteroffer c now) in
  sret tt.

(** [after_ticket] and [after_signature]. *)
Definition after_ticket : DM (option ActivatedSession) :=
  let! d := get id in
  if is_creator d then try_freeze ;;! try_aggregate
  else try_fetch_and_prepare ;;! sret None.
Definition after_signature : DM (option ActivatedSession) :=
  let! d := get id in
  if is_creator d then try_aggregate else sret None.

(** [emit_periodic], with [emit_retry]. *)
Definition emit_periodic : DM (option ActivatedSession) :=
  put (fun d => set_cadence ((d_cadence d + 1) mod 2 ^ 64) d) ;;!
  emit (fun d => Retry (d_cadence d) (negotiation_stage d) (bounded_count (ticket_count d))
                   (bounded_count (sig_count d)) (offer_target d)) ;;!
  let! d := get id in
  when (bool_decide (d_neighbors d = ∅) && negb (bool_decide (bootstrap_peers d = [])))
    (act (JoinPeers (bootstrap_peers d))) ;;!
  if is_creator d then creator_emit else participant_emit ;;! sret None.

(** [on_fact]. *)
Definition on_fact (f : NegotiationFact) : DM (option ActivatedSession) :=
  match f with
  | FactOffer o => on_offer o ;;! sret None
  | FactTicket t => on_ticket t ;;! after_ticket
  | FactActivationSignature a => on_activation_signature a ;;! after_signature
  | FactActivationAnnouncement a => on_announcement a
  | FactCounteroffer c => on_counteroffer c ;;! sret None
  end.

(** [on_topic_event]. *)
Definition on_topic_event (e : ProgramTopicEvent) : DM (option ActivatedSession) :=
  match e with
  | Joined => sret None
  | NeighborUp p =>
      let! d := get id in
      if bool_decide (p ∈ d_neighbors d) then sret None
      else put (set_neighbors ({[p]} ∪ d_neighbors d)) ;;! emit_periodic
  | NeighborDown p => put (fun d => set_neighbors (d_neighbors d ∖ {[p]}) d) ;;! sret None
  | Lagged | Closed => rejoin_topic ;;! sret None
  | TopicFact bs =>
      let! d := get id in
      let! g := lift (ok_of (gossip_decode bs)) in
      match g with
      | None => sret None
      | Some g =>
          if negb (g_program_id g =? program_hash (offer_data (d_offer d)))
             || negb (g_negotiation_id g =? offer_id d) then sret None
          else on_fact (fact g)
      end
  end.

(** *** Fetch streams and withdrawals *)

(** [serve_fetch_evidence]. *)
Definition serve_fetch_evidence (remote : PeerId) (request session : SessionHash) (ts : list Ticket)
    : DM unit :=
  when (request =? session) (act (FetchServed remote (MkActivationTickets request ts))).

(** [on_fetch_stream]. *)
Definition on_fetch_stream (remote : PeerId) (f : FetchFrame) : DM unit :=
  let! d := get id in
  match creator_frozen d with
  | Some p =>
      match f with
      | FetchActivationTickets h => serve_fetch_evidence remote h (p_session_hash p) (p_tickets p)
      | FetchResponse _ => sret tt
      end
  | None =>
      match f with
      | FetchResponse r => if is_creator d then sret tt else consume_fetch remote r
      | FetchActivationTickets _ => sret tt
      end
  end.

(** [on_withdrawal_requested]: [true] ends the drive. *)
Definition on_withdrawal_requested : DM bool :=
  let! d := get id in
  if is_prepared d then sret false else
  match d_local d with
  | None => sret true
  | Some t =>
      if negb (ticket_active t) then sret true else
      let td := ticket_data t in
      let! r := lift (ok_or (checked_add (revision td) 1) (Signing RevisionExhausted)) in
      let! data := lift (map_err (fun e => Signing (SignNegotiation e))
        (ticket_data_new (t_negotiation_id td) (t_offer_seq td) (signer td) r Withdrawn)) in
      let! w := lift (sign_ticket data) in
      publish (FactTicket w) ;;!
      sret true
  end.

(** [on_local_withdrawal]. *)
Definition on_local_withdrawal (t : Ticket) : DM bool :=
  let! d := get id in
  if is_prepared d then act (AnswerWithdrawal false) ;;! sret false
  else publish (FactTicket t) ;;! act (AnswerWithdrawal true) ;;! sret true.

(** ** The drive *)

(** What the arms of the select loop deliver. *)
Inductive Input :=
| DeadlineElapsed
| TopicEvent (e : ProgramTopicEvent)
| TopicFailed
| Withdrawal (t : option Ticket)
| WithdrawalFlagChanged (ok : bool)
| FetchArrived (f : option (PeerId * FetchFrame))
| CadenceElapsed.

(** [withdrawal_requested]. *)
Definition withdrawal_requested : DM bool :=
  let! s := get d_supervised in
  if s : bool then ask (withdrawal_flag out) else sret false.

(** One turn of the loop: a session ends it. *)
Definition turn (i : Input) : DM (option ActivatedSession) :=
  let! d := get id in
  match i with
  | DeadlineElapsed =>
      match d_deadline d with Some _ => fail_timeout | None => sret None end
  | TopicEvent e => on_topic_event e
  | TopicFailed => rejoin_topic ;;! sret None
  | Withdrawal w =>
      if negb (d_supervised d) then sret None else
      match w with
      | Some t =>
          let! stop := on_local_withdrawal t in
          if stop : bool then throw WithdrawnLocally else sret None
      | None => put (set_supervised false) ;;! sret None
      end
  | WithdrawalFlagChanged ok =>
      if negb (d_supervised d) || negb ok then sret None else
      let! asked := withdrawal_requested in
      if negb asked then sret None else
      let! stop := on_withdrawal_requested in
      if stop : bool then throw WithdrawnLocally else sret None
  | FetchArrived f =>
      if d_rx_closed d then sret None else
      match f with
      | None => put (set_rx_closed true) ;;! sret None
      | Some (remote, frame) => on_fetch_stream remote frame ;;! sret None
      end
  | CadenceElapsed => emit_periodic
  end.

Fixpoint drive (l : list Input) : DM (option ActivatedSession) :=
  match l with
  | [] => sret None
  | i :: l => let! s := turn i in match s with Some s => sret (Some s) | None => drive l end
  end.

(** [run], on the inputs served so far: [None] while it is still running. *)
Definition run (l : list Input) : DM (option ActivatedSession) :=
  let! asked := withdrawal_requested in
  let! stop := if asked : bool then on_withdrawal_requested else sret false in
  if stop : bool then throw WithdrawnLocally else
  emit (fun d => Started (offer_target d)) ;;!
  let! d := get id in
  match d_resumed d with
  | Some h => emit (fun d => PreparedActivationResumed h (bounded_count (offer_target d)))
  | None => sret tt
  end ;;!
  emit (fun d => OfferAccepted (creator (offer_data (d_offer d))) (offer_slot d)) ;;!
  let! s := emit_periodic in
  match s with Some s => sret (Some s) | None => drive l end.

(** ** Construction *)

Inductive NegotiationStart :=
| Fresh (offer : Offer) (creator_ticket : option Ticket) (preferred_params : option bytes)
| Resume (local_ticket : Ticket) (activation : PreparedActivation).

Definition start_offer (s : NegotiationStart) : Offer :=
  match s with Fresh o _ _ => o | Resume _ p => p_offer p end.

Fixpoint restore_tickets (ts : list Ticket) : DM unit :=
  match ts with
  | [] => sret tt
  | t :: ts => let! _ := book_call (apply_ticket t) (fun e => Prepare (PrepareRestore e)) in
               restore_tickets ts
  end.

(** The driver before its start is restored. *)
Definition driver_init (o : Offer) (preferred : option bytes) (b : NegotiationBook)
    (supervised : bool) (deadline : option Z) : Driver :=
  let role := if creator (offer_data o) =? local_peer
              then Creator (MkCreator None ∅ 0 {[params (offer_data o) := 0]})
              else Participant (MkParticipant None None None) in
  MkDriver o None preferred b supervised false None deadline ∅ role false false None 0.

(** The checks of [new] on the creator's ticket of a fresh start. *)
Definition check_creator_ticket (d : Driver) (o : Offer) (t : Ticket) : DM unit :=
  let signer_ok := ticket_signer t =? (if is_creator d then local_peer else creator (offer_data o)) in
  if negb signer_ok
     || negb (t_negotiation_id (ticket_data t) =? o_negotiation_id (offer_data o))
     || negb (t_offer_seq (ticket_data t) =? offer_seq (offer_data o))
  then throw InvalidLocalTicket else
  let! th := lift (ticket_hash_of (ticket_data t)) in
  let! h0 := lift (expect (offer_tickets o !! O)) in
  lift (err_if (negb (th =? h0)) InvalidLocalTicket).

(** [new], after the driver value is built. *)
Definition start (s : NegotiationStart) : DM unit :=
  match s with
  | Resume lt p =>
      put (set_resumed (Some (p_session_hash p))) ;;!
      send_ticket lt ;;!
      put (set_local (Some lt)) ;;!
      restore_tickets (p_tickets p) ;;!
      put (fun d => match d_role d with
                    | Creator c => set_role (Creator (set_frozen (Some p) c)) d
                    | Participant c => set_role (Participant (set_prepared (Some p) c)) d
                    end) ;;!
      put (set_emitted false)
  | Fresh o ct _ =>
      let! d := get id in
      match ct with
      | Some t =>
          check_creator_ticket d o t ;;!
          let! _ := book_call (apply_ticket t) (fun _ => InvalidLocalTicket) in
          when (is_creator d) (send_ticket t ;;! put (set_local (Some t)))
      | None => if is_creator d then throw InvalidLocalTicket else sret tt
      end
  end ;;!
  refresh_fetch_registration.

(** The fallible part of [new], in order. *)
Definition construct (local_profile : ExecutionProfileHash) (s : NegotiationStart) : DM unit :=
  let o := start_offer s in
  lift (map_err (fun e => match e with
                          | ExecutionProfileMismatch offered local => DriveProfileMismatch offered local
                          | _ => InvalidLocalTicket
                          end) (validate_for_profile (offer_data o) local_profile)) ;;!
  book_call (register_offer (o_negotiation_id (offer_data o)) (offer_seq (offer_data o)) o)
    (fun _ => InvalidLocalTicket) ;;!
  start s.

(** [NegotiationDriver::new], given the hash of the local execution profile. *)
Definition driver_new (local_profile : ExecutionProfileHash) (s : NegotiationStart)
    (supervised : bool) (deadline : option Z) : result NegotiationDriveError unit * World :=
  let preferred := match s with Fresh _ _ ps => ps | Resume _ _ => None end in
  construct local_profile s
    (MkWorld (driver_init (start_offer s) preferred book_new supervised deadline) 0 []).

(** [Drop]: the registration is removed. *)
Definition driver_drop (w : World) : World :=
  match d_registered (driver w) with
  | Some h => MkWorld (set_registered None (driver w)) (tick w) (log w ++ [RegistryRemove h])
  | None => w
  end.
End Driver.

(** [next_cadence]: the delay to the next broadcast, from the first eight bytes of
    a digest of the peer and the counter. *)
Definition cadence_delay `{Crypto} (peer : PeerId) (counter : Z) : Z :=
  let digest := be_bytes 32 (blake3 (bytes_of_string "arena0/negotiation-cadence/v1"
                                     ++ be_bytes 32 peer ++ le_bytes 8 counter)) in
  let jitter := le_val (take 8 digest) mod 1000 in
  CADENCE_MS / 2 + CADENCE_MS * jitter / 1000.
