(* ===== verification/Gossip.v ===== *)
(** * Negotiation facts never panic

    The encoders of negotiation values are called with [expect] where they are
    hashed, signed or measured.  Here: a value that passed its structural checks
    encodes, an offer of at most 64 tickets fits in one fact, and the validators
    and the decoder of gossip return on every input. *)

From S2P Require Import Prelude Borsh Crypto Session Trace Negotiation NoPanic Book.

#[local] Open Scope Z_scope.

(** ** Readers *)

(** A codec whose reader returns on every input. *)
Class Calm {A} (c : codec A) : Prop := calm bs : dec c bs <> Panic.

Lemma read_exact_calm n bs : read_exact n bs <> Panic.
Proof. unfold read_exact. np. Qed.
Lemma read_uint_calm n bs : read_uint n bs <> Panic.
Proof. unfold read_uint. np. apply read_exact_calm. Qed.
Lemma read_len_calm max bs : read_len max bs <> Panic.
Proof. unfold read_len. np. apply read_uint_calm. Qed.
Lemma read_bytes_calm max bs : read_bytes max bs <> Panic.
Proof. unfold read_bytes. np; [apply read_len_calm|apply read_exact_calm]. Qed.
#[export] Hint Resolve read_exact_calm read_uint_calm read_len_calm read_bytes_calm calm : nopanic.

Lemma read_items_calm {A} (c : codec A) `{!Calm c} n bs : read_items (dec c) n bs <> Panic.
Proof. revert bs. induction n as [|n IH]; intros bs; simpl; np. Qed.

#[export] Instance calm_uint n : Calm (c_uint n).
Proof. intros bs. simpl. np. Qed.
#[export] Instance calm_arr n : Calm (c_arr n).
Proof. intros bs. simpl. unfold read_arr. np. Qed.
#[export] Instance calm_raw n : Calm (c_raw n).
Proof. intros bs. simpl. np. Qed.
#[export] Instance calm_bytes max : Calm (c_bytes max).
Proof. intros bs. simpl. np. Qed.
#[export] Instance calm_vec {A} max (c : codec A) `{!Calm c} : Calm (c_vec max c).
Proof. intros bs. simpl. unfold read_vec. np. by apply read_items_calm. Qed.
#[export] Instance calm_pair {A B} (c1 : codec A) (c2 : codec B) `{!Calm c1, !Calm c2} : Calm (c_pair c1 c2).
Proof. intros bs. simpl. np. Qed.
#[export] Instance calm_iso {A B} (c : codec A) (to : B -> A) back H `{!Calm c} : Calm (c_iso c to back H).
Proof. intros bs. simpl. np. Qed.
#[export] Instance calm_versioned {A} v (c : codec A) `{!Calm c} : Calm (c_versioned v c).
Proof. intros bs. simpl. np. Qed.
Lemma calm_refine {A B E} (c : codec A) (to : B -> A) (mk : A -> result E B) `{!Calm c} :
  (forall a, mk a <> Panic) -> Calm (c_refine c to mk).
Proof. intros Hmk bs. simpl. np. Qed.

(** ** Sizes *)

Lemma items_length_const {A} (c : codec A) n l :
  (forall a, object_length c a = Ok n) -> items_length c l = Ok (zlen l * n).
Proof.
  intros Hc. induction l as [|a l IH]; [done|].
  apply items_length_cons. exists n, (zlen l * n). split_and!; [done|done|rewrite zlen_cons; lia].
Qed.

Lemma ol_enc {A} (c : codec A) a n : object_length c a = Ok n -> exists bs, to_vec c a = Ok bs /\ zlen bs = n.
Proof. by rewrite object_length_Ok. Qed.

(** Records as nested pairs: one length per field. *)
Ltac ol_record := repeat (apply ol_pair; eexists _, _; split; [|split; [|reflexivity]]);
  simpl; try apply ol_uint; try apply ol_arr; try apply ol_raw.

Section Sizes.
Context `{Crypto}.

Lemma check_domain_Ok kind a e u : check_domain kind a e = Ok u -> a = e.
Proof. unfold check_domain. intros Hd. inv_ok. by apply bool_decide_eq_true in Hd. Qed.

(** What the structural check of an offer body gives. *)
Lemma offer_data_valid o u :
  offer_data_validate o = Ok u ->
  zlen (o_domain o) = 24 /\ zlen (params o) <= MAX_PARAMS_LEN /\ 2 <= target_size o <= MAX_PARTICIPANTS.
Proof.
  unfold offer_data_validate, check_params_len, check_target_size. intros Hv. inv_ok.
  match goal with Hd : check_domain _ _ _ = Ok _ |- _ => apply check_domain_Ok in Hd as -> end.
  split; [done|]. split; lia.
Qed.

Lemma ol_offer_data o u :
  offer_data_validate o = Ok u -> object_length c_offer_data o = Ok (208 + zlen (params o)).
Proof.
  intros Hv. apply offer_data_valid in Hv as (Hd & Hp & _). unfold c_offer_data. rewrite ol_iso.
  replace (208 + zlen (params o)) with (24 + (2 + (32 + (8 + (32 + (32 + (32 + ((4 + zlen (params o)) + (2 + (32 + 8)))))))))) by lia.
  repeat (apply ol_pair; eexists _, _; split; [|split; [|reflexivity]]); simpl;
    try apply ol_uint; try apply ol_arr; [by rewrite ol_raw, Hd|].
  unfold c_json. rewrite ol_refine. apply ol_bytes. unfold id, MAX_PARAMS_LEN in *.
  unfold MAX_CALL_PAYLOAD_BYTES, MAX_INPUT_BYTES, u32_max. split_and!; lia.
Qed.
Lemma offer_hash_valid {E} o u : offer_data_validate o = Ok u -> exists h, offer_hash_of (E:=E) o = Ok h.
Proof.
  intros Hv. apply ol_offer_data, ol_enc in Hv as (bs & Hbs & _). exists (blake3 bs).
  unfold offer_hash_of. by rewrite Hbs.
Qed.

(** An offer with its tickets: 32 bytes per ticket after the body. *)
Lemma ol_offer_raw o ts u :
  offer_data_validate o = Ok u -> zlen ts <= MAX_PARTICIPANTS ->
  object_length c_offer_raw (o, ts) = Ok (212 + zlen (params o) + zlen ts * 32).
Proof.
  intros Hv Hts. apply ol_pair. exists (208 + zlen (params o)), (4 + zlen ts * 32).
  split; [by eapply ol_offer_data|]. split; [|lia]. apply ol_vec. simpl. unfold MAX_PARTICIPANTS, u32_max in *.
  split_and!; [lia..|]. exists (zlen ts * 32). split; [|done]. apply items_length_const. intros a. apply ol_arr.
Qed.

Lemma check_distinct_noPanic l : check_distinct l <> Panic.
Proof. unfold check_distinct. by destruct (first_dup _ _). Qed.

Lemma offer_data_validate_noPanic o : offer_data_validate o <> Panic.
Proof. unfold offer_data_validate, check_domain, check_version, check_params_len, check_target_size. np. Qed.
Hint Resolve check_distinct_noPanic offer_data_validate_noPanic : nopanic.

Lemma offer_validate_noPanic o : offer_validate o <> Panic.
Proof.
  unfold offer_validate. apply rbind_noPanic; [np|]. intros u Hv. cbv zeta.
  apply rbind_noPanic; [np|]. intros u1 Hc. apply err_if_Ok in Hc.
  apply rbind_noPanic; [np|]. intros _ _.
  pose proof (offer_data_valid _ _ Hv) as (_ & _ & Ht).
  destruct (ol_enc _ _ _ (ol_offer_raw (offer_data o) (offer_tickets o) u Hv ltac:(lia))) as (bs & Hbs & _).
  unfold to_vec in Hbs. rewrite Hbs. simpl. unfold check_fact_size. np.
Qed.
Hint Resolve offer_validate_noPanic : nopanic.

(** An offer fits in a fact whatever its parameters and tickets. *)
Lemma offer_fits d ts u :
  offer_data_validate d = Ok u -> 1 <= zlen ts <= target_size d -> NoDup ts ->
  offer_new d ts = Ok (MkOffer d ts).
Proof.
  intros Hv Hlen Hnd. unfold offer_new, offer_validate. cbn [offer_data offer_tickets].
  pose proof (offer_data_valid _ _ Hv) as (_ & Hp & Ht). destruct u. rewrite Hv. cbn [rbind].
  rewrite !(proj2 (Z.leb_le _ _)) by lia. cbn [andb negb err_if rbind]. unfold check_distinct.
  rewrite (proj2 (first_dup_NoDup ts)) by done. cbn [rbind].
  destruct (ol_enc _ _ _ (ol_offer_raw d ts tt Hv ltac:(lia))) as (bs & Hbs & Hl).
  unfold to_vec in Hbs. rewrite Hbs. cbn [expect_ok rbind]. unfold check_fact_size.
  unfold MAX_PARAMS_LEN, MAX_PARTICIPANTS, MAX_NEGOTIATION_FACT_BYTES in *.
  rewrite (proj2 (Z.ltb_ge _ _)) by lia. done.
Qed.

Lemma ticket_validate_noPanic t : ticket_validate t <> Panic.
Proof.
  unfold ticket_validate, ticket_data_validate, check_domain, check_version, check_fact_size.
  destruct (total_ticket t) as [bs Hbs]. unfold to_vec. rewrite Hbs. np.
Qed.
Hint Resolve ticket_validate_noPanic : nopanic.

Lemma ticket_hash_noPanic {E} t : ticket_hash_of (E:=E) t <> Panic.
Proof. destruct (ticket_hash_of_Ok (E:=E) t) as (bs & _ & ->). done. Qed.
Hint Resolve ticket_hash_noPanic : nopanic.

Lemma verify_for_offer_noPanic t h : verify_for_offer t h <> Panic.
Proof.
  unfold verify_for_offer, verify_identity, verify_identity_signature, ed25519_verify,
    verify_key_binding, verify_binding, ticket_signing_bytes.
  destruct (total_ticket_data (ticket_data t)) as [bs Hbs]. unfold to_vec. rewrite Hbs. np.
Qed.
Hint Resolve verify_for_offer_noPanic : nopanic.

Lemma announcement_validate_noPanic a : announcement_validate a <> Panic.
Proof.
  unfold announcement_validate. apply rbind_noPanic; [np|]. intros u Ho. apply rbind_noPanic; [np|]. intros _ _.
  destruct a as [o g]. cbn [ann_offer ann_aggregate] in *.
  assert (exists bs, enc c_announcement_raw (o, g) = Ok bs) as [bs ->]; [|cbn [expect_ok rbind]; unfold check_fact_size; np].
  apply (map_err_Ok InvalidOffer) in Ho. unfold offer_validate in Ho. inv_ok.
  match goal with Hv : offer_data_validate _ = Ok ?u, He : enc c_offer_raw _ = Ok ?bs |- _ =>
    eexists; apply wcat_Ok; eexists _, (bs ++ be_bytes 48 g); split; [reflexivity|];
    split; [|reflexivity]; apply wcat_Ok; exists bs, (be_bytes 48 g); split; [exact He|done] end.
Qed.
Hint Resolve announcement_validate_noPanic : nopanic.
Lemma counteroffer_data_enc c u :
  counteroffer_data_validate c = Ok u -> exists bs, enc c_counteroffer_data c = Ok bs.
Proof.
  unfold counteroffer_data_validate, check_params_len. intros Hv. inv_ok.
  match goal with Hp : (MAX_PARAMS_LEN <? _) = false |- _ => apply Z.ltb_ge in Hp end.
  assert (object_length (c_bytes u32_max) (co_params c) = Ok (4 + zlen (co_params c))) as Hp.
  { apply ol_bytes. unfold MAX_PARAMS_LEN, u32_max in *. split_and!; lia. }
  apply object_length_Ok in Hp as (bs & Hbs & _).
  assert (total_codec (c_pair c_u64 c_u32)) as Htot by auto with arena.
  destruct (Htot (co_issued_at_unix_ms c, co_valid_for_ms c)) as [b2 Hb2].
  eexists. unfold c_counteroffer_data. cbn [enc c_iso].
  repeat (apply wcat_Ok; eexists _, _; split; [reflexivity|split; [|reflexivity]]).
  apply wcat_Ok; eexists _, _; split; [exact Hbs|split; [exact Hb2|reflexivity]].
Qed.

Lemma counteroffer_enc c u :
  counteroffer_data_validate (co_data c) = Ok u -> exists bs, enc c_counteroffer c = Ok bs.
Proof.
  intros [bs Hbs]%counteroffer_data_enc. eexists. unfold c_counteroffer. cbn [enc c_iso].
  apply wcat_Ok. eexists _, _. split; [exact Hbs|split; reflexivity].
Qed.

Lemma counteroffer_validate_noPanic c : counteroffer_validate c <> Panic.
Proof.
  unfold counteroffer_validate. apply rbind_noPanic.
  - unfold counteroffer_data_validate, check_domain, check_version, check_params_len. np.
  - intros u [bs Hbs]%counteroffer_enc. unfold to_vec. rewrite Hbs. unfold check_fact_size. cbn [expect_ok rbind]. np.
Qed.

Lemma total_activation_sig : total_codec c_activation_sig.
Proof. apply total_iso. auto 10 with arena. Qed.

Lemma activation_sig_validate_noPanic a : activation_sig_validate a <> Panic.
Proof.
  unfold activation_sig_validate, check_domain, check_version, check_fact_size, to_vec.
  destruct (total_activation_sig a) as [bs ->]. cbn [expect_ok]. np.
Qed.
Hint Resolve counteroffer_validate_noPanic activation_sig_validate_noPanic : nopanic.

(** A valid fact encodes, inside an envelope too. *)
Lemma fact_enc f :
  match f with
  | FactOffer o => offer_validate o = Ok tt
  | FactTicket _ | FactActivationSignature _ => True
  | FactCounteroffer c => counteroffer_validate c = Ok tt
  | FactActivationAnnouncement a => announcement_validate a = Ok tt
  end -> exists bs, enc c_fact f = Ok bs.
Proof.
  destruct f as [o|t|g|c|a]; intros Hf; cbn [enc c_fact]; unfold variant.
  - unfold offer_validate in Hf. inv_ok. eexists. apply wcat_Ok. eexists _, _.
    split; [reflexivity|]. split; [|reflexivity].
    match goal with He : enc c_offer_raw _ = Ok ?b |- _ => exact He end.
  - destruct (total_ticket t) as [bs Hbs]. eexists. apply wcat_Ok. eexists _, _. split; [reflexivity|]. by split.
  - destruct (total_activation_sig g) as [bs Hbs]. eexists. apply wcat_Ok. eexists _, _. split; [reflexivity|]. by split.
  - unfold counteroffer_validate in Hf. inv_ok. eexists. apply wcat_Ok. eexists _, _.
    split; [reflexivity|]. split; [|reflexivity].
    match goal with He : to_vec c_counteroffer _ = Ok ?b |- _ => exact He end.
  - unfold announcement_validate in Hf. inv_ok. eexists. apply wcat_Ok. eexists _, _.
    split; [reflexivity|]. split; [|reflexivity].
    match goal with He : enc c_announcement_raw _ = Ok ?b |- _ => exact He end.
Qed.

Definition fact_valid (f : NegotiationFact) : result NegotiationError unit :=
  match f with
  | FactOffer o => offer_validate o
  | FactTicket t => ticket_validate t
  | FactActivationSignature s => activation_sig_validate s
  | FactActivationAnnouncement a => map_err DecodeActivation (announcement_validate a)
  | FactCounteroffer c => counteroffer_validate c
  end.

Lemma fact_valid_enc f : fact_valid f = Ok tt -> exists bs, enc c_fact f = Ok bs.
Proof.
  intros Hf. apply fact_enc. destruct f; simpl in *; try done. by apply map_err_Ok in Hf.
Qed.

Lemma gossip_validate_noPanic g : gossip_validate g <> Panic.
Proof.
  unfold gossip_validate, check_domain, check_version. fold (fact_valid (fact g)).
  apply rbind_noPanic; [np|intros _ _]. apply rbind_noPanic; [np|intros _ _].
  apply rbind_noPanic; [unfold fact_valid; np|intros [] [bs Hbs]%fact_valid_enc].
  apply rbind_noPanic; [np|intros _ _].
  assert (exists out, to_vec c_gossip g = Ok out) as [out ->].
  { eexists. unfold to_vec, c_gossip. cbn [enc c_iso].
    repeat (apply wcat_Ok; eexists _, _; split; [reflexivity|split; [|reflexivity]]). exact Hbs. }
  cbn [expect_ok rbind]. unfold check_fact_size. np.
Qed.

#[export] Instance calm_action : Calm c_action.
Proof. intros bs. cbn [dec c_action]. unfold rd_map, c_active. np. Qed.
#[export] Instance calm_ticket : Calm c_ticket.
Proof. unfold c_ticket, c_ticket_data, c_id. apply _. Qed.
#[export] Instance calm_offer : Calm c_offer.
Proof.
  apply calm_refine.
  - unfold c_offer_raw, c_offer_data, c_id.
    assert (Calm c_json). { apply calm_refine; [apply _|]. intros b. unfold json_try_new. np. }
    apply _.
  - intros p. unfold offer_new. np.
Qed.
#[export] Instance calm_announcement : Calm c_announcement.
Proof.
  apply calm_refine; [unfold c_announcement_raw; apply _|]. intros p. unfold from_parts. np.
Qed.
#[export] Instance calm_fact : Calm c_fact.
Proof.
  assert (Calm c_counteroffer) by (unfold c_counteroffer, c_counteroffer_data, c_id; apply _).
  assert (Calm c_activation_sig) by (unfold c_activation_sig, c_id; apply _).
  intros bs. cbn [dec c_fact]. unfold rd_map. np.
Qed.

Lemma gossip_decode_noPanic bs : gossip_decode bs <> Panic.
Proof.
  assert (Calm c_gossip) by (unfold c_gossip, c_id; apply _).
  unfold gossip_decode, decode_bounded, from_slice. np. apply gossip_validate_noPanic.
Qed.

Lemma gossip_decode_valid bs g :
  gossip_decode bs = Ok g -> fact_valid (fact g) = Ok tt /\
  forall id, fact_negotiation_id (fact g) = Some id -> id = g_negotiation_id g.
Proof.
  unfold gossip_decode, decode_bounded. intros Hd. inv_ok.
  match goal with Hv : gossip_validate _ = Ok _ |- _ => unfold gossip_validate in Hv end.
  fold (fact_valid (fact g)) in *. inv_ok. split.
  - by destruct (fact_valid (fact g)) as [[]| |].
  - intros id Hid. rewrite Hid in *. inv_ok. lia.
Qed.
(** ** Activations *)

Lemma activation_data_new_Ok oh ts d :
  activation_data_new oh ts = Ok d ->
  d = MkActivationData ACTIVATION_DOMAIN ACTIVATION_VERSION oh ts /\ zlen ts <= MAX_PARTICIPANTS /\
  activation_data_validate d = Ok tt.
Proof.
  unfold activation_data_new. intros Hd. inv_ok.
  match goal with Hv : activation_data_validate ?d = Ok ?u |- _ => destruct u; rename Hv into Hval end.
  split; [done|]. split; [|done]. unfold activation_data_validate in Hval. inv_ok. simpl in *. lia.
Qed.

Lemma activation_data_enc {E} oh ts :
  zlen ts <= MAX_PARTICIPANTS ->
  exists bs, activation_signing_bytes (E:=E) (MkActivationData ACTIVATION_DOMAIN ACTIVATION_VERSION oh ts) = Ok bs.
Proof.
  intros Hl. assert (object_length (c_vec u32_max c_id) ts = Ok (4 + zlen ts * 32)) as Hv.
  { apply ol_vec. unfold MAX_PARTICIPANTS, u32_max in *. split_and!; [lia..|].
    exists (zlen ts * 32). split; [|done]. apply items_length_const. intros a. apply ol_arr. }
  apply object_length_Ok in Hv as (bs & Hbs & _).
  unfold activation_signing_bytes, to_vec, c_activation_data. cbn [enc c_iso].
  assert (forall r : writer, (exists b, r = Ok b) -> exists b, expect_ok (E:=E) r = Ok b) as He.
  { intros r [b ->]. by exists b. }
  apply He. eexists.
  repeat (apply wcat_Ok; eexists _, _; split; [reflexivity|split; [|reflexivity]]). exact Hbs.
Qed.

Lemma activation_data_new_noPanic oh ts : activation_data_new oh ts <> Panic.
Proof.
  unfold activation_data_new, activation_data_validate, check_domain, check_version.
  np; apply check_distinct_noPanic.
Qed.

Lemma session_hash_of_new {E} oh ts d :
  activation_data_new oh ts = Ok d -> exists bs, activation_signing_bytes (E:=E) d = Ok bs
    /\ session_hash_of (E:=E) d = Ok (blake3 bs).
Proof.
  intros (-> & Hl & _)%activation_data_new_Ok. destruct (activation_data_enc (E:=E) oh ts Hl) as [bs Hbs].
  exists bs. unfold session_hash_of. by rewrite Hbs.
Qed.

Lemma activation_data_for_noPanic o ts : activation_data_for o ts <> Panic.
Proof.
  unfold activation_data_for.
  apply rbind_noPanic; [np|]. intros u Ho. apply map_err_Ok in Ho.
  apply rbind_noPanic; [np|intros _ _]. apply rbind_noPanic; [np|intros _ _].
  apply rbind_noPanic.
  { apply try_for_each_safe. intros [t h]. unfold check_ticket_member. np. }
  intros _ _. apply rbind_noPanic; [np|intros _ _]. apply rbind_noPanic; [np|intros _ _].
  apply rbind_noPanic; [np|intros _ _].
  assert (exists u, offer_data_validate (offer_data o) = Ok u) as [u' Hu].
  { unfold offer_validate in Ho. inv_ok. eauto. }
  destruct (offer_hash_valid (E:=ActivationError) _ _ Hu) as [h ->]. cbn [rbind].
  apply rbind_noPanic; [apply map_err_noPanic, activation_data_new_noPanic|intros d _].
  apply rbind_noPanic; [|done]. apply try_for_each_safe. intros t. unfold check_ticket_proof. np.
Qed.

Lemma activation_data_for_new o ts d :
  activation_data_for o ts = Ok d -> exists oh,
    offer_hash_of (E:=ActivationError) (offer_data o) = Ok oh /\ activation_data_new oh (offer_tickets o) = Ok d.
Proof.
  intros Hd. destruct (af_data _ _ _ (activation_data_for_Ok _ _ _ Hd)) as (oh & Ho & -> & Hv & _).
  exists oh. split; [done|]. unfold activation_data_new. by rewrite Hv.
Qed.

Lemma prepared_new_noPanic o ts : prepared_new o ts <> Panic.
Proof.
  unfold prepared_new. apply rbind_noPanic; [apply activation_data_for_noPanic|].
  intros d (oh & _ & Hd)%activation_data_for_new.
  destruct (session_hash_of_new (E:=ActivationError) _ _ _ Hd) as (bs & _ & ->). done.
Qed.

(** An activation formed by [PreparedActivation::new]. *)
Definition formed (p : PreparedActivation) : Prop := prepared_new (p_offer p) (p_tickets p) = Ok p.

Lemma prepared_new_formed o ts p :
  prepared_new o ts = Ok p -> formed p /\ p_offer p = o /\ p_tickets p = ts.
Proof. intros Hp. assert (p_offer p = o /\ p_tickets p = ts) as [Ho Ht].
  { unfold prepared_new in Hp. inv_ok. done. }
  split; [|done]. unfold formed. by rewrite Ho, Ht.
Qed.

Lemma formed_facts p :
  formed p -> activation_facts (p_offer p) (p_tickets p) (p_activation_data p) /\
  (forall E, exists bs, activation_signing_bytes (E:=E) (p_activation_data p) = Ok bs
                        /\ p_session_hash p = blake3 bs).
Proof.
  unfold formed, prepared_new. intros Hp. inv_ok.
  match goal with Hd : activation_data_for _ _ = Ok ?d |- _ =>
    pose proof (activation_data_for_Ok _ _ _ Hd) as Hf; apply activation_data_for_new in Hd as (oh & _ & Hnew) end.
  match goal with Hp : MkPrepared _ _ ?d ?h = p |- _ =>
    assert (p_activation_data p = d /\ p_session_hash p = h) as [Ed Eh] by (by rewrite <- Hp) end.
  rewrite Ed, Eh. split; [done|]. intros E.
  destruct (session_hash_of_new (E:=E) _ _ _ Hnew) as (bs & Hbs & _). exists bs. split; [done|].
  destruct (session_hash_of_new (E:=ActivationError) _ _ _ Hnew) as (bs' & Hbs' & Hs).
  assert (bs' = bs) as ->; [|congruence].
  unfold activation_signing_bytes in *. destruct (to_vec c_activation_data x); simpl in *; congruence.
Qed.

Lemma activation_validate_noPanic p agg : formed p -> activation_validate (MkActivation p agg) <> Panic.
Proof.
  intros Hp. destruct (formed_facts _ Hp) as [Hf Hb]. unfold activation_validate, act_tickets. simpl.
  unfold check_structure, rmap. apply rbind_noPanic.
  { apply rbind_noPanic; [apply activation_data_for_noPanic|done]. }
  intros _ _. destruct (execution_keys_Ok (E:=ActivationError) _ (af_active _ _ _ Hf)) as (ks & -> & _).
  destruct (Hb ActivationError) as (bs & -> & _). cbn [rbind]. np. apply fast_aggregate_safe.
Qed.
End Sizes.

(** ** Calls on the book never panic *)

Section Calls.
Context `{Crypto}.

Lemma sbind_noPanic {S E A B} (m : M S E A) (f : A -> M S E B) s :
  (m s).1 <> Panic -> (forall a s', m s = (Ok a, s') -> (f a s').1 <> Panic) -> (sbind m f s).1 <> Panic.
Proof. unfold sbind. destruct (m s) as [[a|e|] s']; simpl; eauto. Qed.

Lemma sread_noPanic {S E A B} (g : S -> result E A) (f : A -> M S E B) s :
  g s <> Panic -> (forall a, g s = Ok a -> (f a s).1 <> Panic) -> (sbind (sread g) f s).1 <> Panic.
Proof. intros Hg Hf. apply sbind_noPanic; [done|]. intros a s' [= Ha <-]. eauto. Qed.

Lemma smodify_noPanic {S E B} (g : S -> S) (f : unit -> M S E B) s :
  (f tt (g s)).1 <> Panic -> (sbind (smodify g) f s).1 <> Panic.
Proof. intros Hf. apply sbind_noPanic; [done|]. by intros [] s' [= <-]. Qed.

Ltac calls := repeat first
  [ discriminate
  | apply sread_noPanic; [solve [np]|intros ? ?; cbv beta zeta]
  | apply smodify_noPanic; cbv beta zeta
  | match goal with |- fst ((if ?b then _ else _) _) <> Panic => destruct b eqn:? end
  | match goal with |- fst ((match ?x with _ => _ end) _) <> Panic => destruct x eqn:? end ].

#[local] Hint Resolve ticket_validate_noPanic verify_for_offer_noPanic : nopanic.

Lemma apply_ticket_noPanic t b : (apply_ticket t b).1 <> Panic.
Proof. unfold apply_ticket. calls. Qed.

Lemma register_offer_noPanic n s o b u :
  offer_data_validate (offer_data o) = Ok u -> (register_offer n s o b).1 <> Panic.
Proof.
  intros Hv. destruct (offer_hash_valid (E:=ApplyError) _ _ Hv) as [h Hh].
  unfold register_offer. apply sread_noPanic; [np|intros _ _]. apply smodify_noPanic.
  apply sread_noPanic; [simpl; by rewrite lookup_insert_eq|intros st _].
  apply sread_noPanic; [np|intros _ _]. apply sread_noPanic; [by rewrite Hh|intros h' _].
  destruct (ns_offers st !! s); [|done]. simpl. np.
Qed.

Lemma counteroffer_hash_valid {E} c u :
  counteroffer_data_validate c = Ok u -> counteroffer_hash_of (E:=E) c <> Panic.
Proof. intros [bs Hbs]%counteroffer_data_enc. unfold counteroffer_hash_of, to_vec. by rewrite Hbs. Qed.

Lemma counteroffer_valid_data c : counteroffer_validate c = Ok tt -> counteroffer_data_validate (co_data c) = Ok tt.
Proof. unfold counteroffer_validate. by destruct (counteroffer_data_validate _) as [[]| |]. Qed.

Lemma counteroffer_identity_noPanic c :
  counteroffer_validate c = Ok tt -> counteroffer_verify_identity c <> Panic.
Proof.
  intros [bs Hbs]%counteroffer_valid_data%counteroffer_data_enc.
  unfold counteroffer_verify_identity, verify_identity_signature, ed25519_verify, to_vec. rewrite Hbs. simpl. np.
Qed.

Lemma apply_counteroffer_noPanic c now b : book_ok b -> (apply_counteroffer c now b).1 <> Panic.
Proof.
  intros Hb. unfold apply_counteroffer.
  apply sread_noPanic; [apply map_err_noPanic, counteroffer_validate_noPanic|].
  intros [] Hv%map_err_Ok. apply sread_noPanic; [by apply map_err_noPanic, counteroffer_identity_noPanic|].
  intros ok _. apply sread_noPanic; [np|intros _ _]. apply sread_noPanic; [np|intros _ _]. cbv zeta.
  apply sread_noPanic; [np|]. intros _ Hn%err_if_Ok. apply negb_false_iff, bool_decide_eq_true in Hn as [st Hst].
  apply smodify_noPanic. apply sread_noPanic; [simpl; by rewrite lookup_alter_eq, Hst|].
  intros st' Hst'. simpl in Hst'. rewrite lookup_alter_eq, Hst in Hst'. simpl in Hst'. injection Hst' as <-.
  simpl. destruct (filter _ _ !! _) as [cur|] eqn:Hcur; [|calls].
  apply map_lookup_filter_Some in Hcur as [Hcur _].
  pose proof (st_signed _ _ (Hb _ _ Hst) _ _ Hcur) as (_ & _ & Hvc & _).
  destruct (_ <? _); [done|]. destruct (_ =? _); [|calls].
  apply sread_noPanic; [by eapply counteroffer_hash_valid, counteroffer_valid_data|intros ch _].
  apply sread_noPanic; [by eapply counteroffer_hash_valid, counteroffer_valid_data|intros nh _]. calls.
Qed.

Context `{LocalKeys}.

Lemma sign_ticket_noPanic {E} d : sign_ticket (E:=E) d <> Panic.
Proof.
  unfold sign_ticket, ticket_signing_bytes, to_vec. destruct (total_ticket_data d) as [bs ->]. done.
Qed.

Lemma ticket_data_new_noPanic n s p r a : ticket_data_new n s p r a <> Panic.
Proof. unfold ticket_data_new, ticket_data_validate, check_domain, check_version. np. Qed.
#[local] Hint Resolve sign_ticket_noPanic ticket_data_new_noPanic : nopanic.

Lemma issue_ticket_noPanic n s r now b : (issue_ticket n s r now b).1 <> Panic.
Proof.
  unfold issue_ticket. do 3 (apply sread_noPanic; [np|intros ? ?; cbv beta zeta]).
  do 2 (apply sread_noPanic; [np|intros ? ?]). apply sbind_noPanic; [apply apply_ticket_noPanic|done].
Qed.

(** A ticket the book issues is the host's own, at the asked revision. *)
Lemma sign_ticket_data {E} d t : sign_ticket (E:=E) d = Ok t -> ticket_data t = d.
Proof. unfold sign_ticket. intros Ht. inv_ok. done. Qed.

Lemma ticket_data_new_Ok n s p r a d :
  ticket_data_new n s p r a = Ok d -> d = MkTicketData TICKET_DOMAIN TICKET_VERSION n s p r a.
Proof. unfold ticket_data_new. intros Hd. by inv_ok. Qed.

Lemma issue_ticket_Ok n s r now b t b' :
  issue_ticket n s r now b = (Ok t, b') ->
  ticket_signer t = local_peer /\ revision (ticket_data t) = r /\ ticket_slot t = (n, s).
Proof.
  unfold issue_ticket. intros Hi. inv_ok.
  repeat match goal with
  | Hs : sign_ticket _ = Ok _ |- _ => apply sign_ticket_data in Hs
  | Hs : ticket_data_new _ _ _ _ _ = Ok _ |- _ => apply ticket_data_new_Ok in Hs
  end.
  unfold ticket_signer, ticket_slot. simplify_eq.
  by match goal with Hd : ticket_data _ = _ |- _ => rewrite Hd end.
Qed.

Lemma emit_counteroffer_noPanic n ps now b : book_ok b -> (emit_counteroffer n ps now b).1 <> Panic.
Proof.
  intros Hb. unfold emit_counteroffer. apply sread_noPanic; [np|intros _ _].
  apply sread_noPanic.
  { unfold counteroffer_data_new, counteroffer_data_validate, check_domain, check_version, check_params_len. np. }
  intros d Hd. apply map_err_Ok in Hd. unfold counteroffer_data_new in Hd. inv_ok.
  match goal with Hv : counteroffer_data_validate _ = Ok _ |- _ => apply counteroffer_data_enc in Hv as [bs Hbs] end.
  apply sread_noPanic; [unfold to_vec; by rewrite Hbs|]. intros bs' _. cbv zeta.
  apply sbind_noPanic; [by apply apply_counteroffer_noPanic|done].
Qed.

Lemma create_creator_offer_noPanic d now u :
  offer_data_validate d = Ok u -> create_creator_offer d now <> Panic.
Proof.
  intros Hv. destruct (offer_hash_valid (E:=ApplyError) _ _ Hv) as [h Hh].
  unfold create_creator_offer. rewrite Hh. cbn [rbind].
  apply rbind_noPanic; [np|intros ? ?]. apply rbind_noPanic; [np|intros t ?].
  apply rbind_noPanic; [apply ticket_hash_noPanic|intros ? ?].
  apply rbind_noPanic; [|done]. unfold offer_new. apply map_err_noPanic.
  apply rbind_noPanic; [apply offer_validate_noPanic|done].
Qed.

Lemma create_creator_offer_Ok d now o t :
  create_creator_offer d now = Ok (o, t) ->
  offer_data o = d /\ ticket_signer t = local_peer /\ revision (ticket_data t) = 0 /\
  ticket_slot t = (o_negotiation_id d, offer_seq d).
Proof.
  unfold create_creator_offer. intros Hc. inv_ok.
  repeat match goal with
  | Hs : sign_ticket _ = Ok _ |- _ => apply sign_ticket_data in Hs
  | Hs : ticket_data_new _ _ _ _ _ = Ok _ |- _ => apply ticket_data_new_Ok in Hs
  | Hs : offer_new _ _ = Ok _ |- _ => unfold offer_new in Hs; inv_ok
  end.
  unfold ticket_signer, ticket_slot. simplify_eq.
  by match goal with Hd : ticket_data _ = _ |- _ => rewrite Hd end.
Qed.
End Calls.
