(* ===== verification/Signing.v ===== *)
(** * Guest signatures (protocol/src/execution/signing.rs, node/src/execution/guest.rs)

    A guest program may ask its host for a signature over a payload of its choice.
    The host signs a preimage of its own, [GuestSignData], in which the payload is
    data under a domain tag and the identity of the session.  Shown here: no such
    preimage is the signed form of a protocol message, so a guest cannot obtain a
    protocol signature, and what a host signs for its guest verifies for every
    other host of the session with exactly that payload. *)

From S2P Require Import Prelude Borsh Crypto Session Trace Negotiation Evidence Validation Consistency NoPanic Book Gossip.

#[local] Open Scope Z_scope.

Inductive SignScheme := Ed25519 | Bls.
#[global] Instance SignScheme_eq_dec : EqDecision SignScheme.
Proof. solve_decision. Defined.

Inductive VerifyError := Malformed | OtherSession | NotParticipant | BadSignature.

(** [GuestSignData::DOMAIN] and [VERSION]. *)
Definition GUEST_SIGN_DOMAIN : bytes := domain24 "arena0/guest-sign/v3".
Definition GUEST_SIGN_VERSION : Z := 3.

Record GuestSignData := MkGuestSign {
  gs_domain : bytes;
  gs_version : Z;
  gs_session_id : SessionHash;
  gs_program_hash : Z;
  gs_execution_id : ExecId;
  gs_event_position : Z;
  gs_call_index : Z;
  gs_scheme : SignScheme;
  gs_payload : bytes }.

Definition scheme_tag (s : SignScheme) : Z := match s with Ed25519 => 0 | Bls => 1 end.
Definition scheme_from_tag (tag : Z) : result io_kind SignScheme :=
  if tag =? 0 then Ok Ed25519 else if tag =? 1 then Ok Bls else Err InvalidData.
Definition c_scheme : codec SignScheme := c_refine c_u8 scheme_tag scheme_from_tag.

Definition c_guest_sign_raw : codec GuestSignData :=
  c_iso (c_pair (c_raw 24) (c_pair c_u16 (c_pair c_id (c_pair c_id (c_pair c_id (c_pair c_u64
           (c_pair c_u32 (c_pair c_scheme (c_bytes MAX_EFFECT_PAYLOAD_BYTES)))))))))
    (fun g => (gs_domain g, (gs_version g, (gs_session_id g, (gs_program_hash g, (gs_execution_id g,
                (gs_event_position g, (gs_call_index g, (gs_scheme g, gs_payload g)))))))))
    (fun p => MkGuestSign p.1 p.2.1 p.2.2.1 p.2.2.2.1 p.2.2.2.2.1 p.2.2.2.2.2.1 p.2.2.2.2.2.2.1
                p.2.2.2.2.2.2.2.1 p.2.2.2.2.2.2.2.2)
    (fun g => match g with MkGuestSign _ _ _ _ _ _ _ _ _ => eq_refl end).

Definition guest_sign_validate (g : GuestSignData) : result ProtocolError unit :=
  err_if (negb (bool_decide (gs_domain g = GUEST_SIGN_DOMAIN)) || negb (gs_version g =? GUEST_SIGN_VERSION))
    InvalidGuestSignData ;;?
  err_if ((gs_session_id g =? 0) || (gs_program_hash g =? 0) || (gs_execution_id g =? 0)) InvalidGuestSignData ;;?
  ensure_payload "guest signing payload" (zlen (gs_payload g)) MAX_EFFECT_PAYLOAD_BYTES.

(** The reader validates what it read. *)
Definition c_guest_sign : codec GuestSignData :=
  c_refine c_guest_sign_raw id (fun g => guest_sign_validate g ;;? Ok g).

(** [GuestSignData::new] and [signing_bytes]. *)
Definition guest_sign_new (session program : Z) (exec : ExecId) (position call : Z) (scheme : SignScheme)
    (payload : bytes) : result ProtocolError GuestSignData :=
  let g := MkGuestSign GUEST_SIGN_DOMAIN GUEST_SIGN_VERSION session program exec position call scheme payload in
  guest_sign_validate g ;;? Ok g.
Definition guest_signing_bytes (g : GuestSignData) : result ProtocolError bytes :=
  map_err Serialization (to_vec c_guest_sign_raw g).

Section Signing.
Context `{Crypto}.

(** [arena0_crypto::verify]: keys and signatures come as slices. *)
Definition array_of (n : nat) (bs : bytes) : option Z :=
  if (length bs =? n)%nat then Some (be_val bs) else None.
Definition crypto_verify (scheme : SignScheme) (key data sig : bytes) : result CryptoError bool :=
  match scheme with
  | Ed25519 =>
      let? k := ok_or (array_of 32 key) (InvalidKeyLength 32 (zlen key)) in
      let? s := ok_or (array_of 64 sig) InvalidSignature in
      ed25519_verify k data s
  | Bls =>
      let? k := ok_or (array_of 96 key) (InvalidKeyLength 96 (zlen key)) in
      let? s := ok_or (array_of 48 sig) InvalidSignature in
      bls_verify k data s
  end.

(** [GuestSignData::verify]. *)
Definition guest_verify (signed signature : bytes) (signer : PeerId) (b : ExecutionBinding) : result VerifyError bytes :=
  let? g := map_err (fun _ => Malformed) (from_slice c_guest_sign signed) in
  err_if (negb (gs_session_id g =? session_id b) || negb (gs_program_hash g =? program_hash (act_offer_data (activation b))))
    OtherSession ;;?
  err_if (negb (is_participant b signer)) NotParticipant ;;?
  let? key := match gs_scheme g with
              | Ed25519 => Ok (be_bytes 32 signer)
              | Bls => rmap (be_bytes 96) (map_err (fun _ => NotParticipant) (participant_key b signer))
              end in
  match crypto_verify (gs_scheme g) key signed signature with
  | Ok true => Ok (gs_payload g)
  | Ok false | Err _ => Err BadSignature
  | Panic => Panic
  end.

Context `{LocalKeys}.

(** [DispatchSigner::sign]: the bytes that were signed, and the signature. *)
Definition dispatch_sign (session program : Z) (exec : ExecId) (position call : Z) (scheme : SignScheme)
    (payload : bytes) : result ProtocolError (bytes * bytes) :=
  let? g := guest_sign_new session program exec position call scheme payload in
  let? bs := guest_signing_bytes g in
  Ok (bs, match scheme with
          | Ed25519 => be_bytes 64 (node_sign bs)
          | Bls => be_bytes 48 (execution_sign bs)
          end).
End Signing.

(** ** Tagged preimages *)

(** A layout that starts with its domain tag. *)
Lemma tagged {A B} (c : codec A) (to : B -> bytes * A) back e b bs :
  enc (c_iso (c_pair (c_raw 24) c) to back e) b = Ok bs -> exists rest, bs = (to b).1 ++ rest.
Proof. cbn [enc c_iso c_pair c_raw]. intros (b1 & b2 & [= <-] & _ & ->)%wcat_Ok. by eexists. Qed.

Lemma tags_differ (d d' rest rest' : bytes) : length d = length d' -> d <> d' -> d ++ rest <> d' ++ rest'.
Proof. intros Hl Hne Heq. by apply app_inj_1 in Heq as [? _]. Qed.

Section Separation.
Context `{Crypto}.

Lemma guest_tagged g u bs :
  guest_sign_validate g = Ok u -> guest_signing_bytes g = Ok bs -> exists rest, bs = GUEST_SIGN_DOMAIN ++ rest.
Proof.
  unfold guest_sign_validate, guest_signing_bytes. intros Hv Hb. inv_ok.
  apply tagged in Hb as [rest ->]. exists rest. cbn [fst].
  match goal with Hd : bool_decide (gs_domain g = _) = true |- _ => apply bool_decide_eq_true in Hd as -> end. done.
Qed.

(** The messages the hosts of a session sign with the same keys. *)
Inductive protocol_preimage : bytes -> Prop :=
| pre_step k : has_step_domain k = true -> protocol_preimage (signing_bytes k)
| pre_activation d bs : activation_data_validate d = Ok tt -> activation_signing_bytes (E:=ProtocolError) d = Ok bs ->
    protocol_preimage bs
| pre_ticket t bs : ticket_data_validate t = Ok tt -> ticket_signing_bytes (E:=ProtocolError) t = Ok bs -> protocol_preimage bs
| pre_counteroffer c bs : counteroffer_data_validate c = Ok tt -> to_vec c_counteroffer_data c = Ok bs -> protocol_preimage bs
| pre_abort o bs : validate_shape o = Ok tt -> abort_signing_bytes o = Ok bs -> protocol_preimage bs.

Lemma preimage_tag m :
  protocol_preimage m -> exists d rest, m = d ++ rest /\
    d ∈ [STEP_COMMIT_DOMAIN; ACTIVATION_DOMAIN; TICKET_DOMAIN; COUNTEROFFER_DOMAIN; ABORT_OCCURRENCE_DOMAIN].
Proof.
  intros [k Hk|d bs Hv Hb|t bs Hv Hb|c bs Hv Hb|o bs Hv Hb].
  - destruct (tagged _ _ _ _ _ _ (signing_bytes_enc k)) as [rest ->]. apply bool_decide_eq_true in Hk.
    exists STEP_COMMIT_DOMAIN, rest. cbn [fst]. rewrite Hk. set_solver.
  - unfold activation_signing_bytes in Hb. apply expect_ok_Ok, tagged in Hb as [rest ->].
    unfold activation_data_validate in Hv. inv_ok.
    match goal with Hd : check_domain _ _ _ = Ok _ |- _ => apply check_domain_Ok in Hd end.
    exists ACTIVATION_DOMAIN, rest. cbn [fst]. split; [congruence|set_solver].
  - unfold ticket_signing_bytes in Hb. apply expect_ok_Ok, tagged in Hb as [rest ->].
    unfold ticket_data_validate in Hv. inv_ok.
    match goal with Hd : check_domain _ _ _ = Ok _ |- _ => apply check_domain_Ok in Hd end.
    exists TICKET_DOMAIN, rest. cbn [fst]. split; [congruence|set_solver].
  - apply tagged in Hb as [rest ->]. unfold counteroffer_data_validate in Hv. inv_ok.
    match goal with Hd : check_domain _ _ _ = Ok _ |- _ => apply check_domain_Ok in Hd end.
    exists COUNTEROFFER_DOMAIN, rest. cbn [fst]. split; [congruence|set_solver].
  - unfold abort_signing_bytes, validate_shape in *. inv_ok.
    unfold c_abort_fields, to_vec in Hb. cbn [enc c_pair c_raw] in Hb. apply wcat_Ok in Hb as (b1 & b2 & [= <-] & _ & ->).
    match goal with Hd : bool_decide (ab_domain o = _) = true |- _ => apply bool_decide_eq_true in Hd end.
    exists ABORT_OCCURRENCE_DOMAIN, b2. cbn [fst abort_payload]. split; [congruence|set_solver].
Qed.

Context `{LocalKeys}.

Lemma dispatch_sign_Ok session program exec position call scheme payload bs sg :
  dispatch_sign session program exec position call scheme payload = Ok (bs, sg) -> exists g,
    g = MkGuestSign GUEST_SIGN_DOMAIN GUEST_SIGN_VERSION session program exec position call scheme payload /\
    guest_sign_validate g = Ok tt /\ guest_signing_bytes g = Ok bs /\
    sg = match scheme with Ed25519 => be_bytes 64 (node_sign bs) | Bls => be_bytes 48 (execution_sign bs) end.
Proof.
  unfold dispatch_sign, guest_sign_new. intros Hs. apply rbind_Ok in Hs as (g & Hg & Hs).
  apply rbind_Ok in Hg as ([] & Hv & [= <-]). apply rbind_Ok in Hs as (bs' & Hb & [= -> <-]). by eexists.
Qed.

(** C25: the host is no signing oracle for its guest: what it signs for a guest is
    never the signed form of a step, an activation, a ticket, a counteroffer or an
    abort, whatever the payload. *)
Theorem guest_signature_is_no_oracle session program exec position call scheme payload bs sg m :
  dispatch_sign session program exec position call scheme payload = Ok (bs, sg) -> protocol_preimage m -> bs <> m.
Proof.
  intros (g & _ & Hv & Hb & _)%dispatch_sign_Ok Hm. destruct (guest_tagged _ _ _ Hv Hb) as [rest ->].
  destruct (preimage_tag _ Hm) as (d & rest' & -> & Hd). apply tags_differ;
    repeat (apply elem_of_cons in Hd as [->|Hd]; [vm_compute; done|]); by apply elem_of_nil in Hd.
Qed.
End Separation.

Section Verifies.
Context `{KeysSign}.

Lemma guest_roundtrip g bs :
  cwf c_guest_sign_raw g -> guest_sign_validate g = Ok tt -> guest_signing_bytes g = Ok bs ->
  from_slice c_guest_sign bs = Ok g.
Proof.
  intros Hw Hv Hb. apply map_err_Ok in Hb. apply from_slice_to_vec; [|exact Hb]. split; [done|].
  unfold id. by rewrite Hv.
Qed.

Lemma array_of_be n z : 0 <= z < 256 ^ Z.of_nat n -> array_of n (be_bytes n z) = Some z.
Proof. intros Hz. unfold array_of. by rewrite length_be_bytes, Nat.eqb_refl, be_val_bytes. Qed.

(** What a host signs for its guest verifies at every host of the session, under
    either scheme, and gives back exactly the payload. *)
Theorem guest_signature_verifies b exec position call scheme payload bs sg :
  cwf c_id exec -> cwf c_u64 position -> cwf c_u32 call -> cwf c_id (session_id b) ->
  cwf c_id (program_hash (act_offer_data (activation b))) ->
  is_participant b local_peer = true -> participant_key b local_peer = Ok bls_public ->
  dispatch_sign (session_id b) (program_hash (act_offer_data (activation b))) exec position call scheme payload = Ok (bs, sg) ->
  guest_verify bs sg local_peer b = Ok payload.
Proof.
  intros He Hp Hc Hs Hpr Hpart Hkey (g & -> & Hv & Hb & ->)%dispatch_sign_Ok.
  unfold guest_verify. erewrite guest_roundtrip; [|clear Hb|exact Hv|exact Hb].
  2:{ repeat split; try done; try apply Hs; try apply Hpr; try apply He; try apply Hp; try apply Hc; by destruct scheme. }
  cbn [map_err rbind gs_session_id gs_program_hash gs_scheme gs_payload].
  rewrite !Z.eqb_refl, Hpart. cbn [negb orb err_if rbind].
  destruct (key_ranges) as [Hk1 Hk2]. destruct (sign_ranges DST_SIG bs) as [Hr1 Hr2].
  destruct scheme; cbn [rbind]; unfold crypto_verify.
  - rewrite !array_of_be by (simpl; assumption). cbn [ok_or rbind]. unfold ed25519_verify, node_sign, local_peer.
    by rewrite dalek_sign_ok.
  - rewrite Hkey. cbn [map_err rmap rbind]. rewrite !array_of_be by (simpl; assumption). cbn [ok_or rbind].
    unfold bls_verify, execution_sign. by rewrite blst_sign_ok.
Qed.
End Verifies.
