(* ===== verification/Drives.v ===== *)
(** * What a negotiation drive guarantees

    [wp m Q X w]: from [w], the handler [m] does not panic, ends in [Q] when it
    returns, and in [X] when it fails.  The invariant [dinv] is kept by every
    handler; from it, no run of a drive panics, a signature is published only over
    an activation the store accepted, and a session is returned only after its
    activation was stored. *)

From S2P Require Import Prelude Borsh Crypto Session Trace Negotiation NoPanic Book Driver Gossip.

#[local] Open Scope Z_scope.

(** ** Weakest preconditions *)

Definition wp {A} (m : DM A) (Q : A -> World -> Prop) (X : World -> Prop) (w : World) : Prop :=
  match m w with
  | (Ok a, w') => Q a w'
  | (Err _, w') => X w'
  | (Panic, _) => False
  end.

Section Rules.
Context {A B : Type} (X : World -> Prop).

Lemma wp_sret (a : A) Q w : Q a w -> wp (sret a) Q X w.
Proof. done. Qed.

Lemma wp_bind (m : DM A) (f : A -> DM B) Q w :
  wp m (fun a w' => wp (f a) Q X w') X w -> wp (sbind m f) Q X w.
Proof. unfold wp, sbind. by destruct (m w) as [[a|e|] w']. Qed.

Lemma wp_mono (m : DM A) (Q Q' : A -> World -> Prop) w :
  wp m Q X w -> (forall a w', Q a w' -> Q' a w') -> wp m Q' X w.
Proof. unfold wp. destruct (m w) as [[a|e|] w']; auto. Qed.

Lemma wp_get (f : Driver -> A) Q d n l :
  Q (f d) (MkWorld d n l) -> wp (get f) Q X (MkWorld d n l).
Proof. done. Qed.

Lemma wp_ask (f : nat -> A) Q d n l :
  (forall a, Q a (MkWorld d (S n) l)) -> wp (ask f) Q X (MkWorld d n l).
Proof. intros HQ. apply HQ. Qed.

Lemma wp_lift (r : result NegotiationDriveError A) Q w :
  r <> Panic -> (forall a, r = Ok a -> Q a w) -> (forall e, r = Err e -> X w) -> wp (lift r) Q X w.
Proof. unfold wp, lift, sread. destruct r; eauto. Qed.

Lemma wp_throw (e : NegotiationDriveError) (Q : A -> World -> Prop) w : X w -> wp (throw e) Q X w.
Proof. done. Qed.

Lemma wp_with_book (m : M NegotiationBook ApplyError A) Q d n l :
  (m (d_book d)).1 <> Panic ->
  Q (m (d_book d)).1 (MkWorld (set_book (m (d_book d)).2 d) n l) ->
  wp (with_book m) Q X (MkWorld d n l).
Proof.
  unfold wp, with_book. simpl. destruct (m (d_book d)) as [[a|e|] b]; simpl; auto.
Qed.

Lemma wp_book_call (m : M NegotiationBook ApplyError A) f Q d n l :
  (m (d_book d)).1 <> Panic ->
  (forall a, (m (d_book d)).1 = Ok a -> Q a (MkWorld (set_book (m (d_book d)).2 d) n l)) ->
  (forall e, (m (d_book d)).1 = Err e -> X (MkWorld (set_book (m (d_book d)).2 d) n l)) ->
  wp (book_call m f) Q X (MkWorld d n l).
Proof.
  unfold wp, book_call, sbind, with_book, lift, sread. simpl.
  destruct (m (d_book d)) as [[a|e|] b]; simpl; eauto.
Qed.
End Rules.

Lemma wp_exit {A} (m : DM A) Q (X Y : World -> Prop) w :
  wp m Q X w -> (forall w', X w' -> Y w') -> wp m Q Y w.
Proof. unfold wp. destruct (m w) as [[a|e|] w']; auto. Qed.

Lemma wp_put X f Q d n l : Q tt (MkWorld (f d) n l) -> wp (put f) Q X (MkWorld d n l).
Proof. done. Qed.

Lemma wp_act X a Q d n l : Q tt (MkWorld d n (l ++ [a])) -> wp (act a) Q X (MkWorld d n l).
Proof. done. Qed.

(** One step of symbolic execution. *)
Ltac wp1 :=
  match goal with
  | |- wp (sbind _ _) _ _ _ => apply wp_bind
  | |- wp (sret _) _ _ _ => apply wp_sret
  | |- wp (get _) _ _ _ => apply wp_get; cbv beta delta [id]
  | |- wp (put _) _ _ _ => apply wp_put; cbv beta
  | |- wp (act _) _ _ _ => apply wp_act
  | |- wp (ask _) _ _ _ => apply wp_ask; intros ?
  | |- wp (throw _) _ _ _ => apply wp_throw
  | |- wp (lift _) _ _ _ => apply wp_lift; [|intros ? ?|intros ? ?]
  | |- wp (when ?b _) _ _ _ => unfold when; destruct b eqn:?
  | |- wp (if ?b then _ else _) _ _ _ => destruct b eqn:?
  | |- wp (let _ := _ in _) _ _ _ => cbv zeta
  | |- wp (match ?x with _ => _ end) _ _ _ => destruct x eqn:?
  end.

Section Drives.
Context `{Crypto, LocalKeys} (resumed0 : option PreparedActivation).
(** A bound on the sequence numbers of the offers the creator makes. *)
Context (limit : Z).
(** The role of the drive. *)
Context (creating : bool).

(** ** What a log shows *)

(** The store accepted to prepare [p], in this drive or before it was resumed. *)
Definition agreed (l : list Action) (p : PreparedActivation) : Prop :=
  resumed0 = Some p \/ DidPrepare p (inr PrepareAccepted) ∈ l.

(** The frozen offer lists a ticket of this host. *)
Definition own (p : PreparedActivation) : Prop :=
  exists t h, ticket_signer t = local_peer /\ ticket_hash_of (E:=NegotiationDriveError) (ticket_data t) = Ok h
              /\ h ∈ offer_tickets (p_offer p).

(** What must come before an action. *)
Definition justified (l : list Action) (a : Action) : Prop :=
  match a with
  | DidPrepare p _ => formed p /\ own p
  | DidPersist a _ => agreed l (prepared a) /\ own (prepared a) /\ activation_validate a = Ok tt
  | Publish g _ =>
      match fact g with
      | FactActivationSignature s =>
          exists p, agreed l p /\ formed p /\ own p /\ as_session_hash s = p_session_hash p
            /\ as_ticket_hash s ∈ offer_tickets (p_offer p)
      | _ => True
      end
  | _ => True
  end.

Definition log_ok (l : list Action) : Prop := forall l1 a l2, l = l1 ++ a :: l2 -> justified l1 a.

Lemma log_ok_nil : log_ok [].
Proof. intros [|] ? ? Heq; discriminate Heq. Qed.

Lemma log_ok_snoc l a : log_ok l -> justified l a -> log_ok (l ++ [a]).
Proof.
  intros Hl Ha l1 b l2. destruct l2 as [|c l2] using rev_ind; intros Heq.
  - apply app_inj_tail in Heq as [-> ->]. done.
  - rewrite app_comm_cons, app_assoc in Heq. apply app_inj_tail in Heq as [Heq _]. by eapply Hl.
Qed.

Lemma agreed_snoc l a p : agreed l p -> agreed (l ++ [a]) p.
Proof. intros [?|?]; [by left|right]. apply elem_of_app. by left. Qed.

(** ** The invariant *)

(** The prepared activation of a driver: formed, accepted by the store, with the
    local ticket in it. *)
Definition evidence (d : Driver) (l : list Action) (p : PreparedActivation) : Prop :=
  formed p /\ agreed l p /\
  exists t h, d_local d = Some t /\ ticket_hash_of (E:=NegotiationDriveError) (ticket_data t) = Ok h
              /\ h ∈ offer_tickets (p_offer p).

(** The book holds the ticket [t] of this host in a slot, or a later withdrawal of it. *)
Definition standing (b : NegotiationBook) (n : NegotiationId) (k : Z) (t : Ticket) : Prop :=
  exists c, current_ticket b n k local_peer = Some c /\
    (c = t \/ action (ticket_data c) = Withdrawn /\ 0 <= revision (ticket_data c)).

Definition creator_ok (d : Driver) (s : CreatorState) : Prop :=
  creator (offer_data (d_offer d)) = local_peer /\
  exists t, d_local d = Some t /\
  match frozen s with
  | None => activation_signatures s = ∅ /\ revision (ticket_data t) = 0 /\
            standing (d_book d) (offer_id d) (offer_slot d) t /\
            offer_slot d <= limit /\ forall k, offer_slot d < k -> find_offer (d_book d) (offer_id d) k = None
  | Some p => d_offer d = p_offer p /\
              forall h, is_Some (activation_signatures s !! h) -> h ∈ offer_tickets (p_offer p)
  end.

Record dinv (d : Driver) (l : list Action) : Prop := {
  di_book : book_ok (d_book d);
  di_offer : offer_data_validate (offer_data (d_offer d)) = Ok tt;
  di_local : forall t, d_local d = Some t -> ticket_signer t = local_peer;
  di_evidence : forall p, prepared_activation (d_role d) = Some p -> evidence d l p;
  di_role : match d_role d with
            | Creator s => creator_ok d s
            | Participant s => forall o, pending_reoffer s = Some o ->
                                 offer_data_validate (offer_data o) = Ok tt
            end;
  di_kind : is_creator d = creating;
  di_log : log_ok l }.

Definition sound (w : World) : Prop := dinv (driver w) (log w).
Definition halted (w : World) : Prop := log_ok (log w).

(** [m] keeps the invariant. *)
Definition keeps {A} (m : DM A) : Prop := forall w, sound w -> wp m (fun _ => sound) halted w.

Lemma keeps_bind {A B} (m : DM A) (f : A -> DM B) :
  keeps m -> (forall a, keeps (f a)) -> keeps (sbind m f).
Proof. intros Hm Hf w Hw. apply wp_bind. eapply wp_mono; [by apply Hm|]. intros a w' Hw'. by apply Hf. Qed.

Lemma dinv_act d l a : dinv d l -> justified l a -> dinv d (l ++ [a]).
Proof.
  intros [H1 H2 H3 H4 H5 H6 H7] Ha. split; auto using log_ok_snoc.
  intros p Hp. destruct (H4 p Hp) as (Hf & Hg & Ht). split_and!; auto using agreed_snoc.
Qed.

(** Fields the invariant does not read. *)
Definition same_core (d d' : Driver) : Prop :=
  d_book d' = d_book d /\ d_offer d' = d_offer d /\ d_local d' = d_local d /\ d_role d' = d_role d.

Lemma same_core_refl d : same_core d d.
Proof. by split_and!. Qed.

Lemma dinv_same d d' l : dinv d l -> same_core d d' -> dinv d' l.
Proof.
  intros [H1 H2 H3 H4 H5 H6 H7] (Hb & Ho & Hl & Hr).
  split; unfold evidence, creator_ok, offer_id, offer_slot, is_creator in *; rewrite ?Hb, ?Ho, ?Hl, ?Hr; auto.
Qed.

Lemma keeps_sret {A} (a : A) : keeps (sret a).
Proof. intros w Hw. exact Hw. Qed.
Lemma keeps_get {A} (f : Driver -> A) : keeps (get f).
Proof. intros w Hw. exact Hw. Qed.
Lemma keeps_ask {A} (f : nat -> A) : keeps (ask f).
Proof. intros w Hw. exact Hw. Qed.
Lemma keeps_lift {A} (r : result NegotiationDriveError A) : r <> Panic -> keeps (lift r).
Proof. intros Hr w Hw. apply wp_lift; [done|done|]. intros _ _. apply Hw. Qed.
Lemma keeps_throw {A} e : keeps (throw (A:=A) e).
Proof. intros w Hw. apply wp_throw, Hw. Qed.
Lemma keeps_put f : (forall d, same_core d (f d)) -> keeps (put f).
Proof. intros Hf [d n l] Hw. apply wp_put. by eapply dinv_same. Qed.
Lemma keeps_act a : (forall l, justified l a) -> keeps (act a).
Proof. intros Ha [d n l] Hw. apply wp_act. by apply dinv_act. Qed.
Lemma keeps_when b m : keeps m -> keeps (when b m).
Proof. intros Hm. destruct b; [exact Hm|apply keeps_sret]. Qed.

Lemma keeps_wp {A} (m : DM A) w : keeps m -> sound w -> wp m (fun _ => sound) halted w.
Proof. intros Hm. apply Hm. Qed.

Create HintDb keeps.
#[local] Hint Resolve keeps_sret keeps_get keeps_ask keeps_throw keeps_when : keeps.

(** The structural part of [keeps]. *)
Ltac kp := repeat first
  [ match goal with |- forall _, _ => intros ? end
  | solve [auto with keeps]
  | match goal with |- keeps (sbind _ _) => apply keeps_bind end
  | match goal with |- keeps (when _ _) => apply keeps_when end
  | match goal with |- keeps (if ?b then _ else _) => destruct b eqn:? end
  | match goal with |- keeps (match ?x with _ => _ end) => destruct x eqn:? end
  | match goal with |- keeps (let _ := _ in _) => cbv zeta end ].

(** ** Small handlers *)

Context (out : Outside).

Lemma keeps_emit f : keeps (emit f).
Proof. unfold emit. kp. by apply keeps_act. Qed.
#[local] Hint Resolve keeps_emit : keeps.

Lemma keeps_timeout_error : keeps timeout_error.
Proof. unfold timeout_error. kp. by apply keeps_put. Qed.
#[local] Hint Resolve keeps_timeout_error : keeps.

(** It always fails. *)
Lemma fail_timeout_wp {A} (Q : A -> World -> Prop) w : sound w -> wp fail_timeout Q halted w.
Proof.
  intros Hw. apply wp_bind. eapply wp_mono; [by apply keeps_timeout_error|].
  intros e w' Hw'. apply wp_throw, Hw'.
Qed.
Lemma keeps_fail_timeout {A} : keeps (fail_timeout (A:=A)).
Proof. intros w. apply fail_timeout_wp. Qed.
#[local] Hint Resolve keeps_fail_timeout : keeps.

Lemma keeps_send_ticket t : keeps (send_ticket t).
Proof. unfold send_ticket. kp. by apply keeps_act. Qed.
Lemma keeps_send_offer : keeps send_offer.
Proof. unfold send_offer. kp. by apply keeps_act. Qed.
#[local] Hint Resolve keeps_send_ticket keeps_send_offer : keeps.

(** Told to the supervisor in any state. *)
Lemma send_ticket_wp t (Q : unit -> World -> Prop) Y d n l :
  log_ok l -> (forall l', log_ok l' -> l `prefix_of` l' -> Q tt (MkWorld d n l')) ->
  wp (send_ticket t) Q Y (MkWorld d n l).
Proof.
  intros Hl HQ. unfold send_ticket. wp1. wp1. wp1.
  - wp1. apply HQ; [by apply log_ok_snoc|by eexists].
  - wp1. by apply HQ.
Qed.
Lemma send_offer_wp (Q : unit -> World -> Prop) Y d n l :
  log_ok l -> (forall l', log_ok l' -> l `prefix_of` l' -> Q tt (MkWorld d n l')) ->
  wp send_offer Q Y (MkWorld d n l).
Proof.
  intros Hl HQ. unfold send_offer. wp1. wp1. wp1.
  - wp1. apply HQ; [by apply log_ok_snoc|by eexists].
  - wp1. by apply HQ.
Qed.

Lemma keeps_rejoin_topic : keeps (rejoin_topic out).
Proof. unfold rejoin_topic. kp; [by apply keeps_act|by apply keeps_put]. Qed.

Lemma keeps_arm_deadline : keeps (arm_completion_deadline out).
Proof. unfold arm_completion_deadline. kp. by apply keeps_put. Qed.
#[local] Hint Resolve keeps_rejoin_topic keeps_arm_deadline : keeps.

Lemma expected_session_hash_noPanic d u :
  offer_data_validate (offer_data (d_offer d)) = Ok u -> expected_session_hash d <> Panic.
Proof.
  intros Hv. unfold expected_session_hash.
  destruct (offer_hash_valid (E:=NegotiationDriveError) _ _ Hv) as [h ->]. cbn [rbind].
  apply rbind_noPanic; [apply map_err_noPanic, activation_data_new_noPanic|].
  intros a Ha. apply map_err_Ok in Ha.
  destruct (session_hash_of_new (E:=NegotiationDriveError) _ _ _ Ha) as (bs & _ & ->). done.
Qed.

Lemma ok_of_noPanic {E F A} (r : result E A) : r <> Panic -> ok_of (F:=F) r <> Panic.
Proof. by destruct r. Qed.

(** [refresh_fetch_registration] only touches the registration. *)
Lemma refresh_wp d n l :
  dinv d l -> wp refresh_fetch_registration
    (fun _ w' => dinv (driver w') (log w') /\ same_core d (driver w')) halted (MkWorld d n l).
Proof.
  intros Hd. unfold refresh_fetch_registration. wp1. wp1. wp1.
  apply wp_lift; [by eapply ok_of_noPanic, expected_session_hash_noPanic, Hd| |intros _ _; apply Hd].
  intros e _. wp1; [by wp1|]. wp1.
  assert (forall d1 l1, same_core d d1 -> dinv d1 l1 -> forall n1,
    wp match e with
       | Some h => act (RegistryInsert h) ;;! put (set_rx_closed false) ;;! put (set_registered (Some h))
       | None => sret tt
       end (fun _ w' => dinv (driver w') (log w') /\ same_core d (driver w')) halted (MkWorld d1 n1 l1)) as Hrest.
  { intros d1 l1 Hs H1 n1. destruct e as [h|]; [|by wp1]. do 5 wp1. split; [|exact Hs].
    eapply dinv_same; [apply dinv_act; [exact H1|exact Logic.I]|]. by split_and!. }
  destruct (d_registered d) as [old|]; [|wp1; by apply Hrest]. do 3 wp1. apply Hrest; [by split_and!|].
  apply dinv_act; [|exact Logic.I]. eapply dinv_same; [exact Hd|]. by split_and!.
Qed.

Lemma keeps_refresh : keeps refresh_fetch_registration.
Proof. intros [d n l] Hw. eapply wp_mono; [by apply refresh_wp|]. by intros [] w' [? _]. Qed.
#[local] Hint Resolve keeps_refresh : keeps.

(** The driver up to what the invariant does not read, and a longer log. *)
Definition stays (d : Driver) (l : list Action) (w : World) : Prop :=
  dinv (driver w) (log w) /\ same_core d (driver w) /\ l `prefix_of` log w.

Lemma timeout_error_stays d n l :
  dinv d l -> wp timeout_error (fun _ => stays d l) (stays d l) (MkWorld d n l).
Proof.
  intros Hd. unfold timeout_error. wp1. wp1. wp1.
  { wp1. split_and!; [done|by split_and!|by exists []; rewrite app_nil_r]. }
  wp1. wp1.
  - wp1. wp1. unfold emit. do 4 wp1. split_and!; simpl; [|by split_and!|by eexists].
    apply dinv_act; [|exact Logic.I]. eapply dinv_same; [exact Hd|]. by split_and!.
  - wp1. wp1. split_and!; [done|by split_and!|by exists []; rewrite app_nil_r].
Qed.

(** [publish]: one frame is logged; the driver stays as it was, up to the
    timeout flag when it fails. *)
Lemma publish_stays f d n l :
  dinv d l ->
  (forall b, justified l (Publish (gossip_new (program_hash (offer_data (d_offer d))) (offer_id d) f) b)) ->
  wp (publish out f) (fun _ w' => driver w' = d /\ exists b, log w' = l ++
        [Publish (gossip_new (program_hash (offer_data (d_offer d))) (offer_id d) f) b])
     (stays d l) (MkWorld d n l).
Proof.
  intros Hd Hj. assert (forall n, stays d l (MkWorld d n l)) as Hst.
  { intros n'. split_and!; [done|by split_and!|by exists []; rewrite app_nil_r]. }
  unfold publish. wp1. wp1. cbv zeta.
  set (g := gossip_new _ _ f) in *. wp1.
  apply wp_lift; [apply map_err_noPanic, gossip_validate_noPanic| |intros _ _; apply Hst].
  intros u Hv. apply map_err_Ok in Hv. wp1.
  apply wp_lift; [|intros _ _|intros _ _; apply Hst].
  { unfold gossip_validate in Hv. inv_ok.
    match goal with He : to_vec c_gossip _ = Ok _ |- _ => rewrite He end. done. }
  wp1. wp1. wp1. wp1. assert (forall b, dinv d (l ++ [Publish g b])) as Hd' by (intros; by apply dinv_act).
  destruct a; [wp1; split; [done|]; by eexists|wp1; split_and!; [apply Hd'|by split_and!|by eexists]|].
  unfold fail_timeout. wp1. eapply wp_mono.
  - eapply wp_exit; [by apply timeout_error_stays|]. intros w' (H1 & H2 & H3). split_and!; [done..|].
    etransitivity; [|done]. by eexists.
  - intros e w' (H1 & H2 & H3). wp1. split_and!; [done..|]. etransitivity; [|done]. by eexists.
Qed.

Lemma publish_wp f d n l :
  dinv d l ->
  (forall b, justified l (Publish (gossip_new (program_hash (offer_data (d_offer d))) (offer_id d) f) b)) ->
  wp (publish out f) (fun _ w' => driver w' = d /\ exists b, log w' = l ++
        [Publish (gossip_new (program_hash (offer_data (d_offer d))) (offer_id d) f) b]) halted (MkWorld d n l).
Proof. intros Hd Hj. eapply wp_exit; [by apply publish_stays|]. intros w' [Hw' _]. apply Hw'. Qed.

(** A fact that is not a signature. *)
Definition plain (f : NegotiationFact) : Prop :=
  match f with FactActivationSignature _ => False | _ => True end.

Lemma keeps_publish f : plain f -> keeps (publish out f).
Proof.
  intros Hf [d n l] Hw.
  assert (forall g b, fact g = f -> justified l (Publish g b)) as Hj by (intros g b Hg; simpl; rewrite Hg; by destruct f).
  eapply wp_mono; [apply publish_wp; [exact Hw|]; intros b; by apply Hj|].
  intros [] w' [Hd [b Hl]]. unfold sound. rewrite Hd, Hl. apply dinv_act; [exact Hw|by apply Hj].
Qed.

Lemma keeps_publish_tickets ts : keeps (publish_tickets out ts).
Proof. induction ts as [|t ts IH]; simpl; [apply keeps_sret|]. apply keeps_bind; [by apply keeps_publish|auto]. Qed.

Lemma evidence_own d l p : dinv d l -> evidence d l p -> own p.
Proof. intros Hd (_ & _ & t & h & Ht & Hh & Hin). exists t, h. split; [by eapply di_local|]. by split. Qed.

(** [publish_local_signature]: a signature over the prepared activation. *)
Lemma publish_local_signature_wp d n l p :
  dinv d l -> prepared_activation (d_role d) = Some p ->
  wp (publish_local_signature out)
     (fun a w' => sound w' /\ driver w' = set_emitted true d /\ as_ticket_hash a ∈ offer_tickets (p_offer p))
     halted (MkWorld d n l).
Proof.
  intros Hd Hp. pose proof (di_evidence _ _ Hd p Hp) as He.
  destruct He as (Hf & Hag & t & h & Ht & Hh & Hin). pose proof (evidence_own _ _ _ Hd (di_evidence _ _ Hd p Hp)) as Hown.
  unfold publish_local_signature. do 2 wp1. rewrite Hp. cbn [expect].
  wp1. apply wp_lift; [done| |done]. intros ? [= <-].
  destruct (formed_facts _ Hf) as [_ Hb]. destruct (Hb NegotiationDriveError) as (bs & Hbs & _).
  rewrite Hbs. wp1. apply wp_lift; [done| |done]. intros ? [= <-]. cbv zeta. rewrite Ht. cbn [expect].
  wp1. apply wp_lift; [done| |done]. intros ? [= <-]. rewrite Hh.
  wp1. apply wp_lift; [done| |done]. intros ? [= <-].
  wp1. apply wp_lift; [|intros a Ha|intros _ _; apply Hd].
  { apply map_err_noPanic. unfold activation_sig_new. apply rbind_noPanic; [apply activation_sig_validate_noPanic|done]. }
  apply map_err_Ok in Ha. unfold activation_sig_new in Ha. inv_ok.
  assert (forall g b, fact g = FactActivationSignature (MkActivationSig ACTIVATION_SIG_DOMAIN
    ACTIVATION_SIG_VERSION (p_session_hash p) h (execution_sign bs)) -> justified l (Publish g b)) as Hj.
  { intros g b Hg. simpl. rewrite Hg. exists p. by split_and!. }
  wp1. eapply wp_mono; [apply publish_wp; [exact Hd|]; intros b; by apply Hj|].
  intros [] [d' n' l'] [Hd' [b Hl]]. simpl in Hd', Hl. subst d' l'. wp1. wp1. wp1. split_and!; [|done..].
  unfold sound. simpl. eapply dinv_same; [apply dinv_act; [exact Hd|by apply Hj]|done].
Qed.

(** ** Durable effects *)

Lemma prepare_wp p d n l :
  dinv d l -> formed p -> own p ->
  wp (prepare out p) (fun ok w' => driver w' = d /\ dinv d (log w') /\ (ok = true -> agreed (log w') p))
     halted (MkWorld d n l).
Proof.
  intros Hd Hf Ho. unfold prepare. wp1. wp1. wp1. wp1.
  assert (dinv d (l ++ [DidPrepare p a])) as Hd' by (by apply dinv_act).
  destruct a as [e|[]]; wp1; try apply Hd'; split_and!; try done.
  intros _. right. apply elem_of_app. right. by left.
Qed.

Definition persisted (s : ActivatedSession) (w : World) : Prop :=
  DidPersist (as_activation s) (inr DurableAccepted) ∈ log w /\
  activation_validate (as_activation s) = Ok tt.

Lemma persist_wp a d n l :
  dinv d l -> agreed l (prepared a) -> own (prepared a) -> activation_validate a = Ok tt ->
  wp (persist_activation out a)
     (fun _ w' => driver w' = d /\ dinv d (log w') /\ DidPersist a (inr DurableAccepted) ∈ log w')
     halted (MkWorld d n l).
Proof.
  intros Hd Hg Ho Hv. unfold persist_activation. wp1. wp1. wp1. wp1.
  assert (dinv d (l ++ [DidPersist a a0])) as Hd' by (by apply dinv_act).
  destruct a0 as [e|[]]; wp1; try apply Hd'; split_and!; try done.
  apply elem_of_app. right. by left.
Qed.

(** A handler that may end the drive: with the invariant, and a session only when
    its activation is stored. *)
Definition concludes (m : DM (option ActivatedSession)) : Prop := forall w, sound w ->
  wp m (fun r w' => sound w' /\ match r with Some s => persisted s w' | None => True end) halted w.

Lemma concludes_none (m : DM unit) : keeps m -> concludes (m ;;! sret None).
Proof. intros Hm w Hw. apply wp_bind. eapply wp_mono; [by apply Hm|]. intros [] w' Hw'. by wp1. Qed.

Lemma concludes_bind {A} (m : DM A) f :
  keeps m -> (forall a, concludes (f a)) -> concludes (sbind m f).
Proof. intros Hm Hf w Hw. apply wp_bind. eapply wp_mono; [by apply Hm|]. intros a w' Hw'. by apply Hf. Qed.

Lemma concludes_sret : concludes (sret None).
Proof. by intros w Hw. Qed.

(** ** The creator *)

Lemma ticket_hashes_Ok {E} ts : exists hs, ticket_hashes (E:=E) ts = Ok hs /\
  Forall2 (fun t h => ticket_hash_of (E:=E) (ticket_data t) = Ok h) ts hs.
Proof.
  induction ts as [|t ts (hs & Hhs & Hf)]; [by exists []|]. simpl.
  destruct (ticket_hash_of_Ok (E:=E) (ticket_data t)) as (bs & _ & Hh). exists (blake3 bs :: hs).
  rewrite Hh. simpl. rewrite Hhs. split; [done|]. by constructor.
Qed.

Lemma elem_freeze_set d now t :
  book_ok (d_book d) -> t ∈ freeze_set d now ->
  current_ticket (d_book d) (offer_id d) (offer_slot d) (ticket_signer t) = Some t /\ action (ticket_data t) <> Withdrawn.
Proof.
  intros Hb Ht. apply elem_of_take in Ht as (i & Hi & _). apply list_elem_of_lookup_2 in Hi.
  apply list_elem_of_filter in Hi as [Hw Hi]. split; [by apply elem_ticket_set|].
  intros Ha. unfold ticket_prepare_window_ok in Hw. by rewrite Ha in Hw.
Qed.

(** The hash of the ticket with a given signer is listed. *)
Lemma facts_head o ts dt :
  activation_facts o ts dt -> exists t h, t ∈ ts /\ ticket_signer t = creator (offer_data o) /\
    ticket_hash_of (E:=NegotiationDriveError) (ticket_data t) = Ok h /\ h ∈ offer_tickets o.
Proof.
  intros Hf. pose proof (af_creator _ _ _ Hf) as Hc. pose proof (af_hashes _ _ _ Hf) as Hh.
  destruct ts as [|t ts]; [done|]. simpl in Hc. injection Hc as Hc. inversion Hh as [|? h ? hs Ht _ Heq]; subst.
  exists t, h. split_and!; [by left|done| |by left].
  destruct (ticket_hash_of_Ok (E:=NegotiationDriveError) (ticket_data t)) as (bs & Hbs & ->).
  destruct (ticket_hash_of_Ok (E:=ActivationError) (ticket_data t)) as (bs' & Hbs' & Ht'). congruence.
Qed.

Lemma record_signature_dinv d l s p a :
  dinv d l -> d_role d = Creator s -> frozen s = Some p -> as_ticket_hash a ∈ offer_tickets (p_offer p) ->
  dinv (on_creator (fun s => set_signatures
          (<[as_ticket_hash a := as_signature a]> (activation_signatures s)) s) d) l.
Proof.
  intros [H1 H2 H3 H4 H5 H6 H7] Hr Hz Ha. unfold is_creator in H6. unfold on_creator. rewrite Hr in *.
  split; simpl; auto. destruct H5 as (Hc & t & Ht & Hk). rewrite Hz in Hk. destruct Hk as [Ho Hk].
  split; [done|]. exists t. split; [done|]. simpl. rewrite Hz. split; [done|].
  intros h [x Hx]. apply lookup_insert_Some in Hx as [[<- _]|[_ Hx]]; [done|]. apply Hk. by eexists.
Qed.

(** Publishing and recording the creator's own signature. *)
Lemma keeps_sign_and_record d n l s p :
  dinv d l -> d_role d = Creator s -> frozen s = Some p ->
  wp (let! frame := publish_local_signature out in record_signature frame)
     (fun _ => sound) halted (MkWorld d n l).
Proof.
  intros Hd Hr Hz. wp1. eapply wp_mono; [eapply publish_local_signature_wp; [done|by rewrite Hr]|].
  intros a [d' n' l'] (Hs & Hd' & Ha). simpl in Hd'. subst d'. unfold record_signature. wp1.
  unfold sound in *. simpl in *. eapply record_signature_dinv; [done| |done|done]. by rewrite <- Hr.
Qed.

Lemma offer_new_noPanic d hs : offer_new d hs <> Panic.
Proof. unfold offer_new. apply rbind_noPanic; [apply offer_validate_noPanic|done]. Qed.

Lemma offer_new_Ok d hs o : offer_new d hs = Ok o -> offer_data o = d /\ offer_tickets o = hs.
Proof. unfold offer_new. intros Ho. by inv_ok. Qed.

(** The state after the store accepted the frozen set. *)
Lemma freeze_dinv d l s p o now hs :
  dinv d l -> d_role d = Creator s -> frozen s = None ->
  offer_new (offer_data (d_offer d)) hs = Ok o -> prepared_new o (freeze_set d now) = Ok p ->
  own p /\ (agreed l p -> dinv (set_offer o (on_creator (set_frozen (Some p)) d)) l).
Proof.
  intros Hd Hr Hz Ho Hp. apply offer_new_Ok in Ho as [Hod _].
  apply prepared_new_formed in Hp as (Hf & Hpo & Hpt).
  destruct (facts_head _ _ _ (proj1 (formed_facts _ Hf))) as (x & h & Hx & Hsx & Hh & Hin).
  pose proof (di_role _ _ Hd) as Hc. rewrite Hr in Hc. destruct Hc as (Hcr & t & Ht & Hk).
  rewrite Hz in Hk. destruct Hk as (Hsig & Hrev & (c & Hcur & Hst) & _).
  rewrite Hpt in Hx. destruct (elem_freeze_set _ _ _ (di_book _ _ Hd) Hx) as [Hxc Hact].
  rewrite Hpo, Hod, Hcr in Hsx. rewrite Hsx, Hcur in Hxc. injection Hxc as <-.
  destruct Hst as [->|[Hw _]]; [|done].
  split; [by exists t, h|]. intros Hag.
  destruct Hd as [H1 H2 H3 H4 H5 H6 H7]. unfold is_creator in H6. unfold on_creator. rewrite Hr in *.
  split; [exact H1|cbn [d_offer set_offer]; by rewrite Hod|exact H3| | |exact H6|exact H7].
  - intros q [= <-]. split_and!; [done|done|]. exists t, h. by split_and!.
  - split; [cbn [d_offer set_offer]; by rewrite Hod|]. exists t. split; [done|]. simpl. split; [done|].
    rewrite Hsig. intros y [v Hv]. by rewrite lookup_empty in Hv.
Qed.

Lemma keeps_try_freeze : keeps (try_freeze out).
Proof.
  intros [d n l] Hw. unfold sound in Hw. simpl in Hw. unfold try_freeze. wp1. wp1.
  destruct (d_role d) as [[[p|] sg at_ tr]|] eqn:Hr; [by wp1| |by wp1].
  wp1. wp1. rename a into now. wp1; [by wp1|]. wp1; [by wp1|].
  wp1. destruct (ticket_hashes_Ok (E:=NegotiationDriveError) (freeze_set d now)) as (hs & -> & _).
  apply wp_lift; [done| |done]. intros ? [= <-]. wp1.
  apply wp_lift; [apply map_err_noPanic, offer_new_noPanic| |intros _ _; apply Hw].
  intros o Ho%map_err_Ok. wp1.
  apply wp_lift; [apply map_err_noPanic, prepared_new_noPanic| |intros _ _; apply Hw].
  intros p Hp%map_err_Ok.
  destruct (freeze_dinv d l _ p o now hs Hw Hr eq_refl Ho Hp) as [Hown _].
  pose proof (prepared_new_formed _ _ _ Hp) as (Hf & Hpo & _).
  wp1. eapply wp_mono; [by apply prepare_wp|]. intros ok [d' n' l'] (Hd' & Hw' & Hok). simpl in *. subst d'.
  destruct ok; [|by wp1]. cbn [negb].
  destruct (freeze_dinv d l' _ p o now hs Hw' Hr eq_refl Ho Hp) as [_ Hnew].
  wp1. unfold arm_completion_deadline.
  match goal with |- wp ?m ?Q _ _ => assert (forall d1 n1, same_core d d1 -> Q tt (MkWorld d1 n1 l')) as Hrest end.
  { intros d1 n1 Hsame. wp1. wp1. wp1. wp1. wp1.
    assert (dinv (set_offer o (on_creator (set_frozen (Some p)) d1)) l') as Hd1.
    { eapply dinv_same; [by apply Hnew, Hok|]. destruct Hsame as (Hb & _ & Hl & Hrr).
      unfold on_creator. rewrite Hrr, Hr. unfold same_core. simpl. by rewrite Hb, Hl. }
    assert (d_role (set_offer o (on_creator (set_frozen (Some p)) d1)) =
            Creator (MkCreator (Some p) sg at_ tr)) as Hr1.
    { destruct Hsame as (_ & _ & _ & Hrr). unfold on_creator. by rewrite Hrr, Hr. }
    set (d2 := set_offer o (on_creator (set_frozen (Some p)) d1)) in *. clearbody d2. unfold emit. wp1. wp1. wp1.
    assert (dinv d2 (l' ++ [Emit (ActivationPrepared (p_session_hash p) (bounded_count (offer_target d2)))])) as Hd2
      by (apply dinv_act; [done|exact Logic.I]).
    wp1. eapply wp_mono; [apply (refresh_wp d2); exact Hd2|]. intros [] [d3 n3 l3] (Hs3 & Hsame3).
    wp1. simpl in Hsame3, Hs3. eapply wp_mono; [apply publish_wp; [exact Hs3|]; done|].
    intros [] [d4 n4 l4] [Hd4 [b Hl4]]. simpl in Hd4, Hl4. subst d4 l4.
    eapply (keeps_sign_and_record _ _ _ (MkCreator (Some p) sg at_ tr)); [apply dinv_act; [done|exact Logic.I]| |done].
    destruct Hsame3 as (_ & _ & _ & ->). exact Hr1. }
  wp1. wp1. destruct (d_deadline d); [wp1; exact (Hrest _ _ (same_core_refl d))|].
  wp1. wp1. wp1. apply Hrest. by split_and!.
Qed.

(** Enough signatures for the frozen set are all the signatures of it. *)
Lemma signatures_complete (m : gmap Z Z) (hs : list Z) :
  NoDup hs -> (forall h, is_Some (m !! h) -> h ∈ hs) -> zlen hs <= map_size m ->
  forall h, h ∈ hs -> is_Some (m !! h).
Proof.
  intros Hnd Hsub Hlen h Hh. apply elem_of_dom.
  assert (dom m ≡@{gset Z} list_to_set hs) as Heq.
  { apply set_subseteq_size_equiv.
    - intros x Hx. apply elem_of_list_to_set, Hsub. by apply elem_of_dom.
    - rewrite size_list_to_set, size_dom by done. unfold zlen, map_size in Hlen. lia. }
  rewrite Heq. by apply elem_of_list_to_set.
Qed.

Lemma frozen_signatures_Ok {E} (m : gmap Z Z) ts hs :
  Forall2 (fun t h => ticket_hash_of (E:=ActivationError) (ticket_data t) = Ok h) ts hs ->
  (forall h, h ∈ hs -> is_Some (m !! h)) -> exists gs, frozen_signatures (E:=E) m ts = Ok gs.
Proof.
  induction 1 as [|t h ts hs Ht _ IH]; intros Hm; simpl; [by exists []|].
  destruct (ticket_hash_of_Ok (E:=ActivationError) (ticket_data t)) as (b1 & Hb1 & Hh1).
  destruct (ticket_hash_of_Ok (E:=E) (ticket_data t)) as (b2 & Hb2 & Hh2).
  assert (blake3 b2 = h) as Hbh by congruence. rewrite Hh2, Hbh. cbn [rbind].
  destruct (Hm h) as [g ->]; [by left|]. cbn [expect rbind].
  destruct IH as [gs ->]; [|by exists (g :: gs)]. intros x Hx. apply Hm. by right.
Qed.

Lemma bls_aggregate_noPanic l : bls_aggregate l <> Panic.
Proof. unfold bls_aggregate. np. Qed.

Lemma activated_new_noPanic a : formed (prepared a) -> activated_new a <> Panic.
Proof.
  intros Hf. unfold activated_new. destruct a as [p g]. apply rbind_noPanic.
  { by apply map_err_noPanic, activation_validate_noPanic. }
  intros _ _. apply rbind_noPanic; [|done]. apply map_err_noPanic. simpl.
  unfold prepared_ensemble, from_peers. np.
Qed.

Lemma activated_new_Ok a s : activated_new a = Ok s -> as_activation s = a /\ activation_validate a = Ok tt.
Proof.
  unfold activated_new. destruct (activation_validate a) as [[]| |] eqn:Hv; [|done..]. intros Hs. by inv_ok.
Qed.

(** The announcement is published best-effort. *)
Lemma publish_dropped_wp f d n l :
  plain f -> dinv d l ->
  wp (fun w => match publish out f w with (Panic, w') => (Panic, w') | (_, w') => (Ok tt, w') end)
     (fun _ => stays d l) halted (MkWorld d n l).
Proof.
  intros Hf Hd. assert (forall g b, fact g = f -> justified l (Publish g b)) as Hj
    by (intros g b Hg; simpl; rewrite Hg; by destruct f).
  pose proof (publish_stays f d n l Hd (fun b => Hj (gossip_new _ _ f) b eq_refl)) as Hp. unfold wp in *.
  destruct (publish out f (MkWorld d n l)) as [[[]|e|] w']; [|done|done].
  destruct Hp as [Hd' [b Hl]]. rewrite <- Hd' in *. split_and!; [|done|rewrite Hl; by eexists].
  rewrite Hl. apply dinv_act; [done|by apply Hj].
Qed.

Lemma offer_validate_NoDup o u : offer_validate o = Ok u -> NoDup (offer_tickets o).
Proof.
  unfold offer_validate, check_distinct. intros Hv. inv_ok.
  destruct (first_dup [] (offer_tickets o)) eqn:Hd; [done|]. by apply first_dup_NoDup.
Qed.

Lemma concludes_try_aggregate : concludes (try_aggregate out).
Proof.
  intros [d n l] Hw. unfold sound in Hw. simpl in Hw. unfold try_aggregate. wp1. wp1.
  destruct (d_role d) as [[[p|] sg at_ tr]|] eqn:Hr; [|by wp1..].
  pose proof (di_evidence _ _ Hw p ltac:(by rewrite Hr)) as He. pose proof (evidence_own _ _ _ Hw He) as Hown.
  destruct He as (Hf & Hag & _).
  destruct (formed_facts _ Hf) as [Hfacts _].
  pose proof (di_role _ _ Hw) as Hc. rewrite Hr in Hc. destruct Hc as (_ & t & _ & Ho & Hsub). simpl in Hsub.
  wp1; [by wp1|]. wp1.
  destruct (frozen_signatures_Ok (E:=NegotiationDriveError) sg (p_tickets p) (offer_tickets (p_offer p))) as [gs Hgs].
  { apply (af_hashes _ _ _ Hfacts). }
  { apply signatures_complete; [by eapply offer_validate_NoDup, (af_offer _ _ _ Hfacts)|done|].
    pose proof (Forall2_length _ _ _ (af_hashes _ _ _ Hfacts)). pose proof (af_count _ _ _ Hfacts).
    unfold offer_target in *. rewrite Ho in *. unfold zlen in *. lia. }
  rewrite Hgs. apply wp_lift; [done| |done]. intros ? [= <-]. wp1.
  apply wp_lift; [apply map_err_noPanic, bls_aggregate_noPanic| |intros _ _; apply Hw]. intros agg _. wp1.
  apply wp_lift; [| |intros _ _; apply Hw].
  { apply map_err_noPanic. unfold activation_new. apply rbind_noPanic; [by apply activation_validate_noPanic|done]. }
  intros a Ha%map_err_Ok. unfold activation_new in Ha.
  assert (a = MkActivation p agg /\ activation_validate a = Ok tt) as [-> Hval].
  { destruct (activation_validate (MkActivation p agg)) as [[]| |] eqn:Hv; [|done..]. simpl in Ha. by injection Ha as <-. }
  set (a := MkActivation p agg) in *. wp1. eapply wp_mono; [by apply persist_wp|].
  intros [] [d' n' l'] (Hd' & Hw' & Hin). simpl in Hd', Hw', Hin. subst d'. unfold emit. do 4 wp1.
  set (l2 := l' ++ _). assert (dinv d l2) as Hw2 by (apply dinv_act; [done|exact Logic.I]).
  wp1. eapply wp_mono; [by apply publish_dropped_wp|]. intros [] [d3 n3 l3] (Hs3 & _ & Hpre). simpl in Hs3, Hpre.
  wp1. apply wp_lift; [apply map_err_noPanic; by apply activated_new_noPanic| |intros _ _; apply Hs3].
  intros s Hs%map_err_Ok. apply activated_new_Ok in Hs as [Hsa _]. wp1. split; [exact Hs3|].
  split; rewrite Hsa; [|done]. simpl. eapply elem_of_prefix; [|exact Hpre]. subst l2. apply elem_of_app. by left.
Qed.

(** The book after a re-offer: the new slot holds the creator's ticket alone. *)
Lemma reoffer_book b n k o t b1 b2 out1 :
  book_ok b -> (forall j, k <= j -> find_offer b n j = None) ->
  register_offer n k o b = (Ok tt, b1) ->
  apply_ticket t (prune_offers_before n k b1) = (Ok out1, b2) ->
  ticket_slot t = (n, k) ->
  book_ok b2 /\ current_ticket b2 n k (ticket_signer t) = Some t /\
  forall j, k < j -> find_offer b2 n j = None.
Proof.
  intros Hb Hv Hreg Hap Hs. pose proof (register_offer_slots _ _ _ _ _ Hreg) as Hf.
  pose proof (register_offer_ok n k o b Hb) as Hb1. rewrite Hreg in Hb1.
  pose proof (prune_offers_ok n k b1 Hb1) as Hb1'. pose proof (apply_ticket_ok t _ Hb1') as Hb2.
  rewrite Hap in Hb2. injection Hs as Hn Hk.
  split_and!; [exact Hb2| |].
  - rewrite <- Hn, <- Hk. eapply apply_ticket_current; [exact Hap|]. rewrite Hn, Hk.
    unfold current_ticket. rewrite prune_offers_slots, decide_True, Hf, decide_True, Hv by lia.
    by destruct (offer_hash_of _) as [h| |].
  - intros j Hj. pose proof (apply_ticket_slots t (prune_offers_before n k b1) n j) as Hsl.
    rewrite Hap in Hsl. apply Hsl. rewrite prune_offers_slots, decide_True, Hf, decide_False by lia. apply Hv. lia.
Qed.

Lemma json_try_new_noPanic b : json_try_new b <> Panic.
Proof. unfold json_try_new. np. Qed.

Lemma offer_data_new_Ok n k c pr pf ps tg st dl d :
  offer_data_new n k c pr pf ps tg st dl = Ok d ->
  offer_data_validate d = Ok tt /\ o_negotiation_id d = n /\ offer_seq d = k /\ creator d = c.
Proof.
  unfold offer_data_new. destruct (offer_data_validate _) as [[]| |] eqn:Hv; [|done..].
  simpl. by intros [= <-].
Qed.

Lemma reoffer_with_wp d0 now dl terms d n l s :
  dinv d l -> d_role d = Creator s -> frozen s = None -> d_offer d0 = d_offer d ->
  offer_slot d < limit -> limit <= u64_max ->
  wp (reoffer_with d0 now dl terms) (fun _ => sound) halted (MkWorld d n l).
Proof.
  intros Hd Hr Hz Ho Hlt Hlim. unfold reoffer_with. rewrite Ho. cbv zeta.
  pose proof (di_role _ _ Hd) as Hc. rewrite Hr in Hc. destruct Hc as (Hcr & t0 & Ht0 & Hk).
  rewrite Hz in Hk. destruct Hk as (Hsig & _ & _ & Hle & Hvac).
  wp1. apply wp_lift; [apply map_err_noPanic, json_try_new_noPanic| |intros _ _; apply Hd]. intros ps _.
  wp1. apply wp_lift; [| |intros _ _; apply Hd].
  { apply map_err_noPanic. unfold offer_data_new.
    apply rbind_noPanic; [apply offer_data_validate_noPanic|done]. }
  intros data Hdata%map_err_Ok. apply offer_data_new_Ok in Hdata as (Hv & Hid & Hseq & Hcd).
  wp1. apply wp_lift; [by eapply map_err_noPanic, create_creator_offer_noPanic| |intros _ _; apply Hd].
  intros [o t] Hot%map_err_Ok. apply create_creator_offer_Ok in Hot as (Hod & Hts & Htr & Htl). simpl.
  assert (sat_add (offer_seq (offer_data (d_offer d))) 1 = offer_slot d + 1) as Hnext.
  { unfold sat_add, offer_slot in *. lia. }
  assert (forall d', d_offer d' = o -> offer_id d' = offer_id d /\ offer_slot d' = offer_slot d + 1) as Hslot.
  { intros d' Hd'. unfold offer_id, offer_slot. rewrite Hd', Hod, Hid, Hseq, Hnext. done. }
  wp1. wp1. wp1. wp1. wp1.
  destruct (Hslot (set_offer o d) eq_refl) as [-> ->]. cbn [d_offer set_offer].
  apply wp_book_call; cbn [d_book set_offer]; [by eapply register_offer_noPanic; rewrite Hod|intros [] Hreg|intros _ _; apply Hd].
  destruct (register_offer _ _ o (d_book d)) as [r b1] eqn:Hregeq. simpl in Hreg. subst r. cbn [snd].
  wp1. wp1. destruct (Hslot (set_book b1 (set_offer o d)) eq_refl) as [-> ->]. cbn [d_book set_book].
  wp1. apply wp_book_call; cbn [d_book set_book]; [apply apply_ticket_noPanic|intros out1 Hap|intros _ _; apply Hd].
  destruct (apply_ticket t _) as [r b2] eqn:Hapeq. simpl in Hap. subst r. cbn [snd].
  rewrite Hid, Hseq, Hnext in Htl.
  assert (forall j, offer_slot d + 1 <= j -> find_offer (d_book d) (offer_id d) j = None) as Hvac'.
  { intros j Hj. apply Hvac. lia. }
  destruct (reoffer_book _ _ _ _ _ _ _ _ (di_book _ _ Hd) Hvac' Hregeq Hapeq Htl)
    as (Hb2 & Hcur & Hvac2).
  wp1. wp1. set (d1 := set_local _ _).
  assert (forall l', log_ok l' -> dinv (set_emitted false (on_creator (fun s => set_signatures ∅ (set_frozen None s)) d1)) l') as Hfin.
  { intros l' Hl'. unfold on_creator. change (d_role d1) with (d_role d). rewrite Hr.
    split; cbn [d_role set_emitted set_role prepared_activation frozen set_signatures set_frozen]; [exact Hb2| | |done| | |done].
    - change (d_offer _) with o. by rewrite Hod.
    - by intros ? [= <-].
    - split; [change (d_offer _) with o; by rewrite Hod, Hcd|].
      exists t. split; [done|]. cbn [frozen set_signatures set_frozen activation_signatures].
      destruct (Hslot (set_emitted false (set_role (Creator (set_signatures ∅ (set_frozen None s))) d1)) eq_refl) as [-> ->].
      split_and!; [done|done|exists t; split; [by rewrite <- Hts|by left]|lia|exact Hvac2].
    - pose proof (di_kind _ _ Hd) as Hkd. unfold is_creator in Hkd. rewrite Hr in Hkd. exact Hkd. }
  wp1. apply send_ticket_wp; [apply Hd|]. intros l1 Hl1 _. wp1. apply send_offer_wp; [done|]. intros l2 Hl2 _.
  wp1. wp1. wp1. wp1. apply keeps_refresh. by apply Hfin.
Qed.

Lemma set_tried_dinv d l ps k s :
  dinv d l -> d_role d = Creator s -> dinv (on_creator (set_tried ps k) d) l.
Proof.
  intros [H1 H2 H3 H4 H5 H6 H7] Hr. unfold is_creator in H6. unfold on_creator. rewrite Hr in *. split; auto.
Qed.

Lemma try_reoffer_wp d n l :
  dinv d l -> creator_frozen d = None -> offer_slot d < limit -> limit <= u64_max ->
  wp (try_reoffer out) (fun _ => sound) halted (MkWorld d n l).
Proof.
  intros Hd Hz Hlt Hlim. unfold try_reoffer. wp1. wp1.
  destruct (d_role d) as [s|s] eqn:Hr; [|by apply fail_timeout_wp].
  unfold creator_frozen in Hz. rewrite Hr in Hz. simpl in Hz.
  wp1. eapply (wp_mono _ _ (fun _ w' => driver w' = d /\ log w' = l)).
  { destruct (d_deadline d); repeat wp1; done. }
  intros late [d1 n1 l1] [Hd1 Hl1]. simpl in Hd1, Hl1. subst d1 l1.
  destruct late; [by apply fail_timeout_wp|]. wp1. wp1. rename a into now.
  wp1. eapply (wp_mono _ _ (fun _ w' => dinv (driver w') (log w') /\ d_offer (driver w') = d_offer d /\
      exists s', d_role (driver w') = Creator s' /\ frozen s' = None)).
  { destruct (reoffer_candidate d s now) as [[ps k]|].
    - wp1. wp1. destruct a as [e|st]; [wp1; apply Hd|]. wp1. wp1. wp1.
      split; [by eapply set_tried_dinv|]. unfold on_creator. rewrite Hr. simpl. eauto.
    - destruct (d_deadline d); [by apply fail_timeout_wp|]. wp1. eauto. }
  intros terms [d2 n2 l2] (Hd2 & Ho2 & s' & Hr2 & Hz2). simpl in Hd2, Ho2, Hr2. cbv zeta.
  wp1. eapply (wp_mono _ _ (fun _ w' => driver w' = d2 /\ log w' = l2)).
  { destruct (d_deadline d); repeat wp1; done. }
  intros dl [d3 n3 l3] [Hd3 Hl3]. simpl in Hd3, Hl3. subst d3 l3.
  eapply reoffer_with_wp; [done|done|done|done| |done]. unfold offer_slot in *. by rewrite Ho2.
Qed.

(** ** The creator's cadence *)

(** The offers a creator without a frozen set has made are below the limit. *)
Definition room_to_reoffer (d : Driver) : Prop := creator_frozen d = None -> offer_slot d < limit.

Lemma wp_keeps {A} (m : DM A) (Q : A -> World -> Prop) w :
  keeps m -> sound w -> (forall a w', sound w' -> Q a w') -> wp m Q halted w.
Proof. intros Hm Hw HQ. eapply wp_mono; [by apply Hm|done]. Qed.

Lemma concludes_creator_emit d n l :
  dinv d l -> is_creator d = true -> room_to_reoffer d -> limit <= u64_max ->
  wp (creator_emit out) (fun r w' => sound w' /\ match r with Some s => persisted s w' | None => True end)
     halted (MkWorld d n l).
Proof.
  intros Hd Hc Hroom Hlim. unfold creator_emit. wp1. wp1. cbv zeta. wp1. wp1. rename a into now.
  wp1. eapply (wp_mono _ _ (fun _ w' => sound w')).
  { wp1; [|by wp1]. apply andb_true_iff in Heqb as [_ Hz]. unfold is_creator in Hc.
    destruct (d_role d) as [s|] eqn:Hr; [|done]. simpl in Hz. apply bool_decide_eq_true in Hz.
    assert (creator_frozen d = None) as Hf by (unfold creator_frozen; by rewrite Hr).
    apply try_reoffer_wp; auto. }
  intros [] w1 Hw1. wp1. apply wp_keeps; [apply keeps_try_freeze|done|]. intros [] [d2 n2 l2] Hw2.
  wp1. wp1. wp1. eapply (wp_mono _ _ (fun _ w' => sound w')).
  { wp1; [|by wp1]. apply andb_true_iff in Heqb as [Hz _]. apply bool_decide_eq_true in Hz as [p Hp].
    unfold creator_frozen in Hp. destruct (d_role d2) as [s|] eqn:Hr; [|done]. simpl in Hp.
    by eapply keeps_sign_and_record. }
  intros [] [d3 n3 l3] Hw3. wp1. wp1. wp1.
  match goal with |- wp ?m _ _ _ => assert (wp m (fun _ => sound) halted (MkWorld d3 n3 l3)) as Hm end.
  { destruct (creator_frozen d3) as [p|] eqn:Hz.
    - apply keeps_bind; [by apply keeps_publish|intros []; apply keeps_publish_tickets|done].
    - wp1. destruct (ticket_hashes_Ok (E:=NegotiationDriveError)
        (ticket_set (d_book d3) (offer_id d3) (offer_slot d3))) as (hs & -> & _).
      apply wp_lift; [done| |done]. intros ? [= <-]. wp1.
      apply wp_lift; [apply map_err_noPanic, offer_new_noPanic| |intros _ _; apply Hw3].
      intros o _. wp1. eapply wp_mono; [apply publish_wp; [exact Hw3|]; done|].
      intros [] [d4 n4 l4] [Hd4 [b Hl4]]. simpl in Hd4, Hl4. subst d4 l4. wp1. wp1.
      assert (dinv d3 (l3 ++ [Publish (gossip_new (program_hash (offer_data (d_offer d3))) (offer_id d3) (FactOffer o)) b]))
        as Hd4 by (apply dinv_act; [done|exact Logic.I]).
      wp1. apply wp_lift; [|intros t _; by apply keeps_publish|intros _ _; apply Hd4].
      pose proof (di_role _ _ Hd4) as Hro. pose proof (di_kind _ _ Hd4) as Hkd.
      rewrite <- (di_kind _ _ Hd), Hc in Hkd. unfold is_creator in Hkd.
      destruct (d_role d3); [|done]. destruct Hro as (_ & t & -> & _). done. }
  eapply wp_mono; [exact Hm|]. intros [] w4 Hw4. by apply concludes_try_aggregate.
Qed.

(** ** The participant *)

Lemma log_prefix_dinv d l l' : dinv d l -> log_ok l' -> l `prefix_of` l' -> dinv d l'.
Proof.
  intros [H1 H2 H3 H4 H5 H6 H7] Hl' Hp. split; auto.
  intros p Hpp. destruct (H4 p Hpp) as (Hf & [Hg|Hg] & Ht); split_and!; auto; [by left|right].
  by eapply elem_of_prefix.
Qed.

Lemma participant_book_dinv d l b s :
  dinv d l -> d_role d = Participant s -> book_ok b -> dinv (set_book b d) l.
Proof.
  intros [H1 H2 H3 H4 H5 H6 H7] Hr Hb. split; auto. cbn [d_role set_book]. by rewrite Hr in *.
Qed.

(** [issue_local_ticket]: exactly the book, the local ticket and the log change. *)
Lemma issue_local_ticket_wp d n l :
  book_ok (d_book d) -> log_ok l ->
  wp (issue_local_ticket out) (fun r w' => exists b, book_ok b /\ log_ok (log w') /\ l `prefix_of` log w' /\
      match r with
      | Ok t => driver w' = set_local (Some t) (set_book b d) /\ ticket_signer t = local_peer
      | Err _ => driver w' = set_book b d
      | Panic => False
      end) halted (MkWorld d n l).
Proof.
  intros Hb Hl. unfold issue_local_ticket. wp1. wp1. wp1. wp1. rename a into now. wp1.
  pose proof (issue_ticket_noPanic (offer_id d) (offer_slot d) 0 now (d_book d)) as Hnp.
  apply wp_with_book; [done|].
  pose proof (issue_ticket_ok (offer_id d) (offer_slot d) 0 now _ Hb) as Hb'.
  destruct (issue_ticket _ _ _ _ _) as [r b] eqn:Hi. cbn [fst snd] in *.
  destruct r as [t|e|]; [|wp1; by exists b|done].
  apply issue_ticket_Ok in Hi as (Hs & _). wp1. apply send_ticket_wp; [done|]. intros l' Hl' Hp.
  wp1. wp1. wp1. by exists b.
Qed.

Lemma keeps_ensure_local_ticket : keeps (ensure_local_ticket out).
Proof.
  intros [d n l] Hw. unfold sound in Hw. cbn [driver log] in Hw. unfold ensure_local_ticket. wp1. wp1.
  wp1; [by wp1|]. apply orb_false_iff in Heqb as [Hnone Hc]. apply bool_decide_eq_false in Hnone.
  assert (d_local d = None) as Hloc by (by apply eq_None_not_Some).
  unfold is_creator in Hc. destruct (d_role d) as [|s] eqn:Hr; [done|].
  wp1; [by wp1|]. wp1. wp1. destruct a as [e|st]; [by wp1|]. wp1; [by wp1|]. wp1.
  eapply wp_mono; [apply issue_local_ticket_wp; apply Hw|]. intros r [d' n' l'] (b & Hb & Hl' & Hp & Hres).
  cbn [driver log] in *.
  assert (dinv (set_book b d) l') as Hd' by (eapply log_prefix_dinv; [by eapply participant_book_dinv|done|done]).
  destruct r as [t|e|]; [|subst d'|].
  - destruct Hres as [-> Hs]. apply keeps_publish; [done|]. unfold sound. cbn [driver log].
    destruct Hd' as [H1 H2 H3 H4 H5 H6 H7]. split; auto.
    + by intros ? [= <-].
    + intros p Hp'. destruct (H4 p Hp') as (_ & _ & t' & h & Ht' & _). cbn [d_local set_book] in Ht'. congruence.
    + cbn [d_role set_local set_book] in *. by rewrite Hr in *.
  - destruct e; wp1; apply Hd'.
  - done.
Qed.

(** The re-offer a participant switches to: everything but the log is replaced. *)
Lemma switch_offer_wp o t d n l s :
  book_ok (d_book d) -> log_ok l -> d_role d = Participant s -> is_creator d = creating ->
  pending_reoffer s = None -> offer_data_validate (offer_data o) = Ok tt ->
  wp (switch_offer out o t) (fun _ => sound) halted (MkWorld d n l).
Proof.
  intros Hb Hl Hr Hkd Hpend Hv. unfold switch_offer. wp1. wp1.
  replace (is_creator d) with false by (unfold is_creator; by rewrite Hr).
  wp1. rewrite Hv. apply wp_lift; [done| |done]. intros _ _. wp1. wp1.
  wp1. apply send_offer_wp; [done|]. intros l1 Hl1 _. wp1. wp1.
  wp1. apply wp_book_call; cbn [d_book set_offer]; [by eapply register_offer_noPanic|intros [] _|done].
  pose proof (register_offer_ok (offer_id (set_offer o d)) (offer_slot (set_offer o d)) o _ Hb) as Hb1.
  cbn [d_offer set_offer] in *. set (b1 := snd (register_offer _ _ _ _)) in *. clearbody b1.
  wp1. wp1. set (d1 := set_book _ _).
  assert (book_ok (d_book d1)) as Hb2 by (by apply prune_offers_ok).
  assert (d_role d1 = Participant s /\ d_offer d1 = o) as [Hr1 Ho1] by done. clearbody d1.
  wp1. apply wp_book_call; [apply apply_ticket_noPanic|intros _ _|done].
  pose proof (apply_ticket_ok t _ Hb2) as Hb3. set (b3 := snd (apply_ticket _ _)) in *. clearbody b3.
  wp1. eapply wp_mono; [by apply issue_local_ticket_wp|]. intros r [d' n' l'] (b & Hb4 & Hl' & Hp & Hres).
  cbn [driver log] in *. wp1. destruct r as [lt|e|]; [|by apply wp_lift|done].
  apply wp_lift; [done|intros _ _|done]. destruct Hres as [-> Hs]. wp1. wp1. wp1. wp1.
  apply keeps_refresh. unfold sound. cbn [driver log].
  unfold on_participant. cbn [d_role set_local set_book]. rewrite Hr1.
  split; cbn [d_book d_offer d_local d_role set_emitted set_role set_local set_book prepared_activation
                part_prepared set_fetch_sent set_prepared pending_reoffer]; [done|by rewrite Ho1|by intros ? [= <-]|done| | |done].
  - by rewrite Hpend.
  - rewrite <- Hkd. unfold is_creator. by rewrite Hr.
Qed.

(** A change of the participant's state that keeps its evidence. *)
Lemma on_participant_dinv d l f :
  dinv d l ->
  (forall s, d_role d = Participant s -> part_prepared (f s) = part_prepared s /\
     forall o, pending_reoffer (f s) = Some o ->
       pending_reoffer s = Some o \/ offer_data_validate (offer_data o) = Ok tt) ->
  dinv (on_participant f d) l.
Proof.
  intros Hd Hf. unfold on_participant. destruct (d_role d) as [|s] eqn:Hr; [done|].
  destruct (Hf s eq_refl) as [Hp Ho]. destruct Hd as [H1 H2 H3 H4 H5 H6 H7]. unfold is_creator in H6.
  rewrite Hr in *. split; auto; cbn [d_role set_role prepared_activation].
  - intros p Hpp. rewrite Hp in Hpp. by apply H4.
  - intros o Hoo. destruct (Ho o Hoo); auto.
Qed.

Lemma keeps_try_fetch : keeps (try_fetch_and_prepare out).
Proof.
  intros [d n l] Hw. unfold try_fetch_and_prepare. wp1. wp1.
  destruct (d_role d) as [|[pend [p|] sent]] eqn:Hr; [by wp1..|].
  wp1; [by wp1|]. wp1; [by wp1|]. wp1. wp1. wp1; [|by wp1].
  wp1. unfold send_fetch_request. wp1. wp1. wp1.
  apply wp_lift; [by eapply expected_session_hash_noPanic, Hw|intros h _|intros _ _; apply Hw].
  wp1. wp1. apply on_participant_dinv; [apply dinv_act; [exact Hw|exact Logic.I]|].
  intros s _. split; [done|]. by left.
Qed.

Lemma fetched_ok_noPanic {E} oh l : fetched_ok (E:=E) oh l <> Panic.
Proof.
  induction l as [|[t h] l IH]; simpl; [done|]. apply rbind_noPanic; [apply ticket_hash_noPanic|intros th _].
  pose proof (verify_for_offer_noPanic t oh). np.
Qed.

(** The state after the store accepted the fetched set. *)
Lemma prepared_dinv d l s p lt h :
  dinv d l -> d_role d = Participant s -> formed p -> agreed l p -> d_local d = Some lt ->
  ticket_hash_of (E:=NegotiationDriveError) (ticket_data lt) = Ok h -> h ∈ offer_tickets (p_offer p) ->
  dinv (on_participant (fun s => set_fetch_sent None (set_prepared (Some p) s)) d) l.
Proof.
  intros [H1 H2 H3 H4 H5 H6 H7] Hr Hf Hag Hl Hh Hin. unfold is_creator in H6. unfold on_participant.
  rewrite Hr in *. split; auto. intros q [= <-]. split_and!; [done|done|]. by exists lt, h.
Qed.

Lemma keeps_consume_fetch remote r : keeps (consume_fetch out remote r).
Proof.
  intros [d n l] Hw. unfold sound in Hw. cbn [driver log] in Hw. unfold consume_fetch. wp1. wp1.
  wp1; [by wp1|]. destruct (d_role d) as [|[pend [p|] sent]] eqn:Hr; [by wp1..|].
  wp1. apply wp_lift; [by eapply expected_session_hash_noPanic, Hw|intros h _|intros _ _; apply Hw].
  wp1; [by wp1|]. wp1; [by wp1|]. wp1.
  destruct (offer_hash_valid (E:=NegotiationDriveError) _ _ (di_offer _ _ Hw)) as [oh ->].
  apply wp_lift; [done| |done]. intros ? [= <-]. wp1.
  apply wp_lift; [apply fetched_ok_noPanic|intros ok _|intros _ _; apply Hw]. wp1; [by wp1|].
  unfold prepare_window_ok. wp1. wp1. wp1. wp1. wp1. wp1. wp1; [by wp1|].
  destruct (d_local d) as [lt|] eqn:Hlt; [|by wp1]. wp1.
  apply wp_lift; [apply ticket_hash_noPanic|intros lh Hlh|intros _ _; apply Hw].
  wp1; [wp1; apply Hw|].
  match goal with Hin : negb (bool_decide (lh ∈ _)) = false |- _ =>
    apply negb_false_iff, bool_decide_eq_true in Hin end. wp1.
  apply wp_lift; [apply map_err_noPanic, prepared_new_noPanic|intros p Hp%map_err_Ok|intros _ _; apply Hw].
  apply prepared_new_formed in Hp as (Hf & Hpo & _).
  assert (own p) as Hown by (exists lt, lh; rewrite Hpo; split_and!; [by eapply di_local|done|done]).
  wp1. eapply wp_mono; [by apply prepare_wp|]. intros ok' [d' n' l'] (Hd' & Hw' & Hag). cbn [driver log] in *. subst d'.
  destruct ok'; [|by wp1]. cbn [negb].
  wp1. eapply (wp_mono _ _ (fun _ w' => same_core d (driver w') /\ log w' = l')).
  { unfold arm_completion_deadline. wp1. wp1. destruct (d_deadline d); repeat wp1; by split_and!. }
  intros [] [d1 n1 l1] [Hs1 Hl1]. cbn [driver log] in *. subst l1.
  assert (dinv d1 l') as Hd1 by (by eapply dinv_same). destruct Hs1 as (_ & Ho1 & Hl1 & Hr1).
  wp1. wp1. set (d2 := on_participant _ d1).
  assert (dinv d2 l') as Hd2.
  { eapply prepared_dinv; [done|by rewrite Hr1|done|by apply Hag|by rewrite Hl1|done|by rewrite Hpo]. }
  assert (prepared_activation (d_role d2) = Some p) as Hp2.
  { subst d2. unfold on_participant. by rewrite Hr1, Hr. }
  clearbody d2. wp1. unfold emit. do 3 wp1. wp1.
  eapply wp_mono; [eapply publish_local_signature_wp; [apply dinv_act; [exact Hd2|exact Logic.I]|exact Hp2]|].
  intros sg w' (Hs & _). by wp1.
Qed.

Lemma from_announcement_noPanic p ann : formed p -> from_announcement p ann <> Panic.
Proof.
  intros Hf. unfold from_announcement. apply rbind_noPanic; [np|intros _ _]. unfold activation_new.
  apply rbind_noPanic; [by apply activation_validate_noPanic|done].
Qed.

Lemma from_announcement_Ok p ann a : from_announcement p ann = Ok a -> prepared a = p /\ activation_validate a = Ok tt.
Proof.
  unfold from_announcement, activation_new. intros Ha. inv_ok.
  match goal with Hv : activation_validate _ = Ok ?u |- _ => by destruct u end.
Qed.

Lemma concludes_on_announcement ann : concludes (on_announcement out ann).
Proof.
  intros [d n l] Hw. unfold sound in Hw. cbn [driver log] in Hw. unfold on_announcement. wp1. wp1.
  destruct (d_role d) as [|[pend [p|] sent]] eqn:Hr; [by wp1| |by wp1].
  pose proof (di_evidence _ _ Hw p ltac:(by rewrite Hr)) as He. pose proof (evidence_own _ _ _ Hw He) as Hown.
  destruct He as (Hf & Hag & _).
  wp1. apply wp_lift; [by apply ok_of_noPanic, from_announcement_noPanic|intros a Ha|intros _ _; apply Hw].
  destruct a as [a|]; [|by wp1].
  assert (from_announcement p ann = Ok a) as Hfa by (destruct (from_announcement p ann); simpl in Ha; congruence).
  apply from_announcement_Ok in Hfa as [Hpa Hval].
  wp1. apply wp_lift; [apply ok_of_noPanic, activated_new_noPanic; by rewrite Hpa|intros s Hs|intros _ _; apply Hw].
  destruct s as [s|]; [|by wp1].
  assert (activated_new a = Ok s) as Hact by (destruct (activated_new a); simpl in Hs; congruence).
  apply activated_new_Ok in Hact as [Hsa _]. rewrite Hsa.
  wp1. eapply wp_mono; [apply persist_wp; rewrite ?Hpa; done|].
  intros [] [d' n' l'] (Hd' & Hw' & Hin). cbn [driver log] in *. subst d'. unfold emit. do 5 wp1.
  split; [apply dinv_act; [exact Hw'|exact Logic.I]|]. split; rewrite Hsa; [|done].
  cbn [log]. apply elem_of_app. by left.
Qed.

Lemma keeps_participant_emit : creating = false -> keeps (participant_emit out).
Proof.
  intros Hcf. unfold participant_emit. apply keeps_bind; [apply keeps_ensure_local_ticket|intros []].
  intros [d n l] Hw. wp1. wp1. wp1. apply wp_keeps; [destruct (d_local d); [by apply keeps_publish|apply keeps_sret]|exact Hw|].
  intros [] [d1 n1 l1] Hw1. wp1. eapply (wp_mono _ _ (fun _ => sound)).
  { destruct (d_preferred d) as [ps|]; [|by wp1]. wp1. wp1. wp1.
    unfold sound in Hw1. cbn [driver log] in Hw1.
    pose proof (di_kind _ _ Hw1) as Hk. rewrite Hcf in Hk. unfold is_creator in Hk.
    destruct (d_role d1) as [|s] eqn:Hr; [done|].
    apply wp_book_call; [by apply emit_counteroffer_noPanic, Hw1|intros c _|intros _ _; apply Hw1].
    apply keeps_publish; [done|]. eapply participant_book_dinv; [done|done|]. by apply emit_counteroffer_ok, Hw1. }
  intros [] [d2 n2 l2] Hw2. wp1. wp1. wp1. eapply (wp_mono _ _ (fun _ => sound)); [|intros []; apply keeps_try_fetch].
  wp1; [|by wp1]. unfold participant_prepared in Heqb. destruct (d_role d2) as [|s] eqn:Hr; [done|].
  apply bool_decide_eq_true in Heqb as [p Hp]. wp1.
  eapply wp_mono; [eapply publish_local_signature_wp; [exact Hw2|by rewrite Hr]|]. intros a w' (Hs & _). by wp1.
Qed.

(** ** Facts *)

Lemma keeps_accept_reoffer o : keeps (accept_reoffer out o).
Proof. unfold accept_reoffer. kp. Qed.

Lemma offer_validate_data o u : offer_validate o = Ok u -> offer_data_validate (offer_data o) = Ok tt.
Proof. unfold offer_validate. by destruct (offer_data_validate _) as [[]| |]. Qed.

Lemma participant_offer_dinv d l o s :
  dinv d l -> d_role d = Participant s -> offer_data_validate (offer_data o) = Ok tt -> dinv (set_offer o d) l.
Proof.
  intros [H1 H2 H3 H4 H5 H6 H7] Hr Hv. split; auto. cbn [d_role set_offer]. by rewrite Hr in *.
Qed.

Lemma keeps_on_offer o : offer_validate o = Ok tt -> keeps (on_offer out o).
Proof.
  intros Hv [d n l] Hw. unfold sound in Hw. cbn [driver log] in Hw. apply offer_validate_data in Hv.
  unfold on_offer. wp1. wp1. destruct (d_role d) as [|s] eqn:Hr; [by wp1|]. wp1.
  - wp1; [by wp1|]. wp1. apply wp_keeps; [apply keeps_accept_reoffer|exact Hw|]. intros ok [d1 n1 l1] Hw1.
    wp1; [by wp1|]. wp1. apply on_participant_dinv; [exact Hw1|]. intros s' _. split; [done|].
    intros o' [= <-]. by right.
  - destruct (offer_hash_valid (E:=NegotiationDriveError) _ _ Hv) as [h1 Hh1].
    destruct (offer_hash_valid (E:=NegotiationDriveError) _ _ (di_offer _ _ Hw)) as [h2 Hh2].
    wp1. rewrite Hh1. apply wp_lift; [done| |done]. intros ? [= <-].
    wp1. rewrite Hh2. apply wp_lift; [done| |done]. intros ? [= <-]. wp1; [by wp1|].
    wp1. apply wp_lift; [apply ok_of_noPanic, offer_new_noPanic|intros u Hu|intros _ _; apply Hw].
    destruct u as [u|]; [|by wp1].
    assert (offer_new (offer_data o) (offer_tickets o) = Ok u) as Ho by (destruct (offer_new _ _); simpl in Hu; congruence).
    apply offer_new_Ok in Ho as [Hod _]. wp1. wp1.
    wp1. apply wp_keeps; [apply keeps_refresh|eapply participant_offer_dinv; [done|done|by rewrite Hod]|].
    intros [] [d1 n1 l1] Hw1. wp1. wp1. apply keeps_when; [apply keeps_try_fetch|exact Hw1].
Qed.

(** A change of the book that keeps what the creator relies on. *)
Lemma book_change_dinv d l b :
  dinv d l -> book_ok b ->
  (forall t, standing (d_book d) (offer_id d) (offer_slot d) t ->
     d_local d = Some t -> revision (ticket_data t) = 0 -> standing b (offer_id d) (offer_slot d) t) ->
  (forall k, find_offer (d_book d) (offer_id d) k = None -> find_offer b (offer_id d) k = None) ->
  dinv (set_book b d) l.
Proof.
  intros [H1 H2 H3 H4 H5 H6 H7] Hb Hcur Hsl. split; auto. cbn [d_role set_book].
  destruct (d_role d) as [s|s]; [|done]. destruct H5 as (Hc & t & Ht & Hk). split; [done|].
  exists t. split; [done|]. destruct (frozen s); [done|]. destruct Hk as (K1 & K2 & K3 & K4 & K5).
  split_and!; auto.
Qed.

Lemma keeps_on_counteroffer c : keeps (on_counteroffer out c).
Proof.
  intros [d n l] Hw. unfold on_counteroffer. wp1. wp1. wp1.
  apply wp_with_book; [by apply apply_counteroffer_noPanic, Hw|]. wp1. unfold sound in *. cbn [driver log] in *.
  apply book_change_dinv; [done|by apply apply_counteroffer_ok, Hw| |].
  - intros t Ht _ _. unfold standing, current_ticket. by rewrite apply_counteroffer_slots.
  - intros k Hk. by rewrite apply_counteroffer_slots.
Qed.

(** A ticket that verifies under the identity of this host is one the host signs: active
    at revision 0, or withdrawn at any revision. *)
Definition ticket_unforged (t : Ticket) : Prop :=
  ticket_signer t = local_peer -> forall h, verify_for_offer t h = Ok tt ->
  revision (ticket_data t) = 0 \/ action (ticket_data t) = Withdrawn.

Lemma keeps_emit_ticket_accepted t : keeps (emit_ticket_accepted t).
Proof. unfold emit_ticket_accepted. apply keeps_bind; [apply keeps_lift, ticket_hash_noPanic|intros h]. kp. Qed.

Lemma keeps_on_ticket t : ticket_unforged t -> keeps (on_ticket out t).
Proof.
  intros Hun [d n l] Hw. unfold sound in Hw. cbn [driver log] in Hw. unfold on_ticket. wp1. wp1. cbv zeta.
  wp1; [by wp1|]. wp1.
  - destruct (d_role d) as [|[[o|] p sent]] eqn:Hr; [by wp1| |by wp1].
    pose proof (di_role _ _ Hw) as Hro. rewrite Hr in Hro. specialize (Hro o eq_refl).
    wp1; [by wp1|]. wp1; [by wp1|]. wp1.
    destruct (offer_hash_valid (E:=NegotiationDriveError) _ _ Hro) as [oh ->].
    apply wp_lift; [done| |done]. intros ? [= <-].
    destruct (verify_for_offer t oh) eqn:Hv; [|by wp1|by destruct (verify_for_offer_noPanic t oh)].
    wp1. wp1. unfold on_participant. rewrite Hr.
    eapply (switch_offer_wp _ _ _ _ _ (MkParticipant None p sent)); [apply Hw|apply Hw|done| |done|done].
    rewrite <- (di_kind _ _ Hw). unfold is_creator. by rewrite Hr.
  - wp1; [by wp1|]. wp1. apply wp_with_book; [apply apply_ticket_noPanic|].
    set (r := fst (apply_ticket t (d_book d))). set (b := snd (apply_ticket t (d_book d))).
    assert (sound (MkWorld (set_book b d) n l)) as Hs.
    { apply book_change_dinv; [done|by apply apply_ticket_ok, Hw| |].
      - intros t0 (c & Hc & Hst) _ Hrev.
        destruct (apply_ticket_replaces t _ _ _ _ _ Hc) as [Hc'|(Hc' & Hsg & [h Hvh] & Hlt)]; [by exists c|].
        exists t. split; [done|]. right. assert (0 <= revision (ticket_data c)) by (destruct Hst as [->|[_ ?]]; lia).
        destruct (Hun Hsg h Hvh); [lia|]. split; [done|lia].
      - intros k Hk. by apply apply_ticket_slots. }
    assert (keeps (emit_ticket_accepted t ;;!
        let! d0 := get id in
        when (ticket_signer t =? creator (offer_data (d_offer d0))) (ensure_local_ticket out))) as Hk.
    { apply keeps_bind; [apply keeps_emit_ticket_accepted|intros []].
      apply keeps_bind; [apply keeps_get|intros d0]. apply keeps_when, keeps_ensure_local_ticket. }
    destruct r as [[]|e|]; [by apply Hk|by apply Hk|by wp1..].
Qed.

Lemma find_ticket_spec {E} h ts hs :
  Forall2 (fun t h => ticket_hash_of (E:=ActivationError) (ticket_data t) = Ok h) ts hs ->
  exists r, find_ticket (E:=E) h ts = Ok r /\ (is_Some r -> h ∈ hs).
Proof.
  induction 1 as [|t x ts hs Ht _ (r & Hr & Hin)]; simpl; [exists None; split; [done|by intros []]|].
  destruct (ticket_hash_of_Ok (E:=ActivationError) (ticket_data t)) as (b1 & Hb1 & Hh1).
  destruct (ticket_hash_of_Ok (E:=E) (ticket_data t)) as (b2 & Hb2 & Hh2).
  assert (blake3 b2 = x) as Hbx by congruence. rewrite Hh2, Hbx. cbn [rbind].
  destruct (x =? h) eqn:Hx; [apply Z.eqb_eq in Hx as ->; exists (Some t); split; [done|intros _; by left]|].
  exists r. split; [done|]. intros Hs. right. by apply Hin.
Qed.

Lemma keeps_on_activation_signature a : keeps (on_activation_signature a).
Proof.
  intros [d n l] Hw. unfold sound in Hw. cbn [driver log] in Hw. unfold on_activation_signature. wp1. wp1.
  wp1; [by wp1|]. wp1.
  apply wp_lift; [apply ok_of_noPanic, activation_sig_validate_noPanic|intros v _|intros _ _; apply Hw].
  wp1; [by wp1|]. unfold creator_frozen. destruct (d_role d) as [s|] eqn:Hr; [|by wp1]. simpl.
  destruct (frozen s) as [p|] eqn:Hz; [|by wp1]. wp1; [by wp1|].
  destruct (di_evidence _ _ Hw p ltac:(by rewrite Hr)) as (Hf & _). destruct (formed_facts _ Hf) as [Hfacts Hb].
  destruct (find_ticket_spec (E:=NegotiationDriveError) (as_ticket_hash a) _ _ (af_hashes _ _ _ Hfacts)) as (r & Hfr & Hin).
  wp1. rewrite Hfr. apply wp_lift; [done| |done]. intros ? [= <-].
  destruct r as [[[? ? ? ? ? ? [k ? ? ?|]] ?]|]; [|by wp1..]. wp1.
  destruct (Hb NegotiationDriveError) as (bs & -> & _). apply wp_lift; [done| |done]. intros ? [= <-].
  destruct (bls_verify k bs (as_signature a)) as [[]| |]; [|by wp1..].
  unfold record_signature. wp1. eapply record_signature_dinv; [done|done|done|]. by apply Hin.
Qed.

Lemma concludes_after_ticket : concludes (after_ticket out).
Proof.
  unfold after_ticket. apply concludes_bind; [apply keeps_get|intros d]. destruct (is_creator d).
  - apply concludes_bind; [apply keeps_try_freeze|intros []]. apply concludes_try_aggregate.
  - apply concludes_none, keeps_try_fetch.
Qed.

Lemma concludes_after_signature : concludes (after_signature out).
Proof.
  unfold after_signature. apply concludes_bind; [apply keeps_get|intros d].
  destruct (is_creator d); [apply concludes_try_aggregate|apply concludes_sret].
Qed.

Lemma concludes_on_fact f :
  fact_valid f = Ok tt -> (forall t, f = FactTicket t -> ticket_unforged t) -> concludes (on_fact out f).
Proof.
  intros Hv Hun. destruct f as [o|t|a|c|a]; cbn [on_fact].
  - by apply concludes_none, keeps_on_offer.
  - apply concludes_bind; [by apply keeps_on_ticket, Hun|intros []; apply concludes_after_ticket].
  - apply concludes_bind; [apply keeps_on_activation_signature|intros []; apply concludes_after_signature].
  - apply concludes_none, keeps_on_counteroffer.
  - apply concludes_on_announcement.
Qed.

(** ** Turns *)

(** A state in which the creator may still make an offer. *)
Definition ready (w : World) : Prop :=
  sound w /\ (is_creator (driver w) = true -> room_to_reoffer (driver w)).

Lemma emit_periodic_wp w :
  ready w -> limit <= u64_max ->
  wp (emit_periodic out) (fun r w' => sound w' /\ match r with Some s => persisted s w' | None => True end) halted w.
Proof.
  destruct w as [d n l]. intros [Hw Hroom] Hlim. unfold sound in Hw. cbn [driver log] in *.
  unfold emit_periodic. wp1. wp1. set (d1 := set_cadence _ d).
  assert (same_core d d1) as Hsame by (by split_and!).
  assert (dinv d1 l) as Hd1 by (by eapply dinv_same).
  assert (is_creator d1 = is_creator d /\ room_to_reoffer d1 = room_to_reoffer d) as [Hc1 Hr1] by done.
  clearbody d1. unfold emit. do 4 wp1. wp1. wp1.
  match goal with |- wp _ _ _ (MkWorld d1 _ ?l1) => set (l2 := l1) end.
  assert (dinv d1 l2) as Hd2 by (apply dinv_act; [done|exact Logic.I]). clearbody l2.
  wp1. eapply (wp_mono _ _ (fun _ w' => driver w' = d1 /\ dinv d1 (log w'))).
  { wp1; [wp1; split; [done|apply dinv_act; [done|exact Logic.I]]|by wp1]. }
  intros [] [d3 n3 l3] [Hd3 Hl3]. cbn [driver log] in *. subst d3. wp1.
  - apply concludes_creator_emit; [done|done| |done]. rewrite Hr1. apply Hroom. by rewrite <- Hc1.
  - apply concludes_none; [|done]. apply keeps_participant_emit. by rewrite <- (di_kind _ _ Hl3).
Qed.

(** Topic frames carry no forged ticket of this host. *)
Definition input_ok (i : Input) : Prop :=
  match i with
  | TopicEvent (TopicFact bs) => forall g t, gossip_decode bs = Ok g -> fact g = FactTicket t -> ticket_unforged t
  | _ => True
  end.

Lemma keeps_serve r h1 h2 ts : keeps (serve_fetch_evidence r h1 h2 ts).
Proof. apply keeps_when. by apply keeps_act. Qed.

Lemma keeps_on_fetch_stream remote f : keeps (on_fetch_stream out remote f).
Proof.
  apply keeps_bind; [apply keeps_get|intros d].
  destruct (creator_frozen d) as [p|], f as [h|r]; try apply keeps_sret; [apply keeps_serve|].
  destruct (is_creator d); [apply keeps_sret|apply keeps_consume_fetch].
Qed.

Lemma keeps_on_withdrawal_requested : keeps (on_withdrawal_requested out).
Proof.
  unfold on_withdrawal_requested. kp.
  - apply keeps_lift, ok_or_noPanic.
  - apply keeps_lift, map_err_noPanic, ticket_data_new_noPanic.
  - apply keeps_lift, sign_ticket_noPanic.
  - by apply keeps_publish.
Qed.

Lemma keeps_on_local_withdrawal t : keeps (on_local_withdrawal out t).
Proof. unfold on_local_withdrawal. kp; [by apply keeps_act|by apply keeps_publish|by apply keeps_act]. Qed.

Lemma concludes_topic_event e w :
  input_ok (TopicEvent e) -> ready w -> limit <= u64_max ->
  wp (on_topic_event out e) (fun r w' => sound w' /\ match r with Some s => persisted s w' | None => True end) halted w.
Proof.
  intros Hin Hw Hlim. destruct e as [|p|p|bs| |]; cbn [on_topic_event].
  - by wp1; destruct Hw.
  - destruct w as [d n l]. wp1. wp1. wp1; [by wp1; destruct Hw|]. wp1. wp1.
    apply emit_periodic_wp; [|done]. destruct Hw as [Hw Hroom]. split; [|exact Hroom].
    eapply dinv_same; [exact Hw|]. by split_and!.
  - apply concludes_none; [|by destruct Hw]. apply keeps_put. intros d. by split_and!.
  - destruct w as [d n l]. destruct Hw as [Hw _]. wp1. wp1. wp1.
    apply wp_lift; [apply ok_of_noPanic, gossip_decode_noPanic|intros g Hg|intros _ _; apply Hw].
    destruct g as [g|]; [|by wp1].
    assert (gossip_decode bs = Ok g) as Hd by (destruct (gossip_decode bs); simpl in Hg; congruence).
    wp1; [by wp1|]. apply concludes_on_fact; [by apply gossip_decode_valid in Hd as [? _]| |done].
    intros t Ht. by eapply Hin.
  - by apply concludes_none; [apply keeps_rejoin_topic|destruct Hw].
  - by apply concludes_none; [apply keeps_rejoin_topic|destruct Hw].
Qed.

Lemma keeps_withdrawal_requested : keeps (withdrawal_requested out).
Proof. unfold withdrawal_requested. kp. Qed.

Lemma concludes_throw e : concludes (throw e).
Proof. intros w Hw. apply wp_throw, Hw. Qed.

Lemma turn_wp i w :
  input_ok i -> ready w -> limit <= u64_max ->
  wp (turn out i) (fun r w' => sound w' /\ match r with Some s => persisted s w' | None => True end) halted w.
Proof.
  intros Hin Hw Hlim. destruct w as [d n l]. unfold turn. wp1. wp1.
  destruct i as [|e| |t|ok|f|]; [| |
    |destruct Hw as [Hw _]; wp1; [by apply concludes_sret|]
    |destruct Hw as [Hw _]; wp1; [by apply concludes_sret|]
    |destruct Hw as [Hw _]; wp1; [by apply concludes_sret|] |].
  - destruct (d_deadline d); [by apply fail_timeout_wp; destruct Hw|by apply concludes_sret; destruct Hw].
  - by apply concludes_topic_event.
  - by apply concludes_none; [apply keeps_rejoin_topic|destruct Hw].
  - destruct t as [t|].
    + apply concludes_bind; [apply keeps_on_local_withdrawal|intros [] |done];
        [apply concludes_throw|apply concludes_sret].
    + apply concludes_none; [|done]. by apply keeps_put.
  - apply concludes_bind; [apply keeps_withdrawal_requested|intros []; cbn [negb]|done]; [|apply concludes_sret].
    apply concludes_bind; [apply keeps_on_withdrawal_requested|intros [] ]; [apply concludes_throw|apply concludes_sret].
  - destruct f as [[remote frame]|]; apply concludes_none; try done; [apply keeps_on_fetch_stream|by apply keeps_put].
  - by apply emit_periodic_wp.
Qed.
End Drives.
