(* ===== verification/Freezing.v ===== *)
(** * Freezing a ticket set

    A creator that holds enough tickets inside the prepare window forms an
    activation from them: the set [try_freeze] selects passes every check of
    [Offer::new] and [PreparedActivation::new], and the store is asked to prepare
    it.  With [Drives], which has no panic and no signature without such an answer,
    this is the other half of what a creator owes. *)

From S2P Require Import Prelude Borsh Crypto Session Trace Negotiation NoPanic Book Driver Gossip Drives.

#[local] Open Scope Z_scope.

(** ** Lists *)

Section Sorted.
Context {A : Type} (R : A -> A -> Prop).

Lemma StronglySorted_filter (P : A -> Prop) `{forall x, Decision (P x)} l :
  StronglySorted R l -> StronglySorted R (filter P l).
Proof.
  induction 1 as [|x l Hl IH Hx]; [constructor|]. rewrite filter_cons. case_decide; [|done].
  constructor; [done|]. apply Forall_forall. intros y [_ Hy]%list_elem_of_filter. rewrite Forall_forall in Hx. by apply Hx.
Qed.

Lemma StronglySorted_take n l : StronglySorted R l -> StronglySorted R (take n l).
Proof.
  intros Hl. revert n. induction Hl as [|x l Hl IH Hx]; intros [|n]; simpl; try constructor; [done|].
  by apply Forall_take.
Qed.
End Sorted.

Section Freezing.
Context `{Crypto, LocalKeys} (out : Outside).

(** ** The converse of the checks of an activation *)

Lemma verify_active t h :
  verify_for_offer t h = Ok tt -> ticket_validate t = Ok tt.
Proof. unfold verify_for_offer. destruct (ticket_validate t) as [[]| |]; done. Qed.

Lemma ticket_hash_any {E F} t h : ticket_hash_of (E:=E) t = Ok h -> ticket_hash_of (E:=F) t = Ok h.
Proof.
  destruct (ticket_hash_of_Ok (E:=E) t) as (bs & Hbs & ->), (ticket_hash_of_Ok (E:=F) t) as (bs' & Hbs' & ->). congruence.
Qed.

Lemma check_ticket_member_intro t h oh :
  ticket_hash_of (E:=ActivationError) (ticket_data t) = Ok h -> verify_for_offer t oh = Ok tt ->
  ticket_active t = true -> check_ticket_member (t, h) = Ok tt.
Proof.
  intros Hh Hv Ha. unfold check_ticket_member. rewrite Hh. cbn [rbind]. rewrite Z.eqb_refl.
  rewrite (verify_active _ _ Hv). simpl. unfold ticket_active in Ha. by destruct (action (ticket_data t)).
Qed.

Lemma offer_validate_facts o :
  offer_validate o = Ok tt -> offer_data_validate (offer_data o) = Ok tt /\ check_distinct (offer_tickets o) = Ok tt.
Proof. unfold offer_validate. intros Hv. inv_ok. by repeat match goal with u : unit |- _ => destruct u end. Qed.

Lemma activation_data_valid oh ts :
  2 <= zlen ts <= MAX_PARTICIPANTS -> check_distinct ts = Ok tt ->
  activation_data_new oh ts = Ok (MkActivationData ACTIVATION_DOMAIN ACTIVATION_VERSION oh ts).
Proof.
  intros Hl Hd. unfold activation_data_new, activation_data_validate.
  rewrite (proj2 (Z.leb_le 2 _)), (proj2 (Z.leb_le _ MAX_PARTICIPANTS)) by (simpl; lia). simpl. by rewrite Hd.
Qed.

(** Every check passes on a set with the properties [activation_facts] lists. *)
Lemma activation_data_for_intro o ts oh :
  offer_validate o = Ok tt -> zlen ts = target_size (offer_data o) ->
  Forall2 (fun t h => ticket_hash_of (E:=ActivationError) (ticket_data t) = Ok h) ts (offer_tickets o) ->
  Forall (fun t => ticket_active t = true) ts ->
  ticket_signer <$> head ts = Some (creator (offer_data o)) ->
  NoDup (map ticket_signer ts) -> StronglySorted (key_lt ticket_signer) (drop 1 ts) ->
  offer_hash_of (E:=ActivationError) (offer_data o) = Ok oh ->
  Forall (fun t => verify_for_offer t oh = Ok tt) ts ->
  activation_data_for o ts = Ok (MkActivationData ACTIVATION_DOMAIN ACTIVATION_VERSION oh (offer_tickets o)).
Proof.
  intros Hv Hlen Hh Ha Hc Hnd Hs Hoh Hver. destruct (offer_validate_facts _ Hv) as [Hd Hdist].
  apply offer_data_valid in Hd as (_ & _ & Ht).
  assert (zlen (offer_tickets o) = zlen ts) as Hzl by (unfold zlen; by rewrite (Forall2_length _ _ _ Hh)).
  unfold activation_data_for. rewrite Hv. cbn [map_err rbind]. unfold is_complete. rewrite Hzl, Hlen, !Z.eqb_refl.
  cbn [negb orb err_if rbind]. rewrite (proj2 (try_for_each_Ok check_ticket_member _ tt)).
  2:{ clear -Hh Ha Hver. revert Ha Hver. induction Hh as [|t h ts hs Hth Hh IH]; intros Ha Hver; simpl; constructor;
      apply Forall_cons in Ha as [? ?], Hver as [? ?]; [by eapply check_ticket_member_intro|auto]. }
  cbn [rbind]. rewrite (proj2 (opt_eqb_true _ _) Hc). cbn [negb err_if rbind].
  rewrite (proj2 (first_dup_NoDup _) Hnd). cbn [rbind]. rewrite (sorted_windows2 _ _ Hs). cbn [err_if rbind].
  rewrite Hoh. cbn [rbind]. rewrite activation_data_valid by (done || lia). cbn [map_err rbind].
  rewrite (proj2 (try_for_each_Ok (check_ticket_proof oh) _ tt)); [done|].
  eapply Forall_impl; [exact Hver|]. intros t Hvt. unfold check_ticket_proof.
  destruct (ticket_hash_of_Ok (E:=ActivationError) (ticket_data t)) as (bs & _ & ->). simpl. by rewrite Hvt.
Qed.
(** ** The set a creator freezes *)

(** A creator's driver with enough tickets for its offer at [now]: its slot is
    registered under the offer's hash, its own ticket is in the window, and no two
    tickets of the set collide under the hash. *)
Record freezable (d : Driver) (now : Z) : Prop := {
  fz_book : book_ok (d_book d);
  fz_offer : offer_data_validate (offer_data (d_offer d)) = Ok tt;
  fz_slot : exists o, find_offer (d_book d) (offer_id d) (offer_slot d) = Some o /\
    offer_hash_of (E:=ActivationError) (offer_data (d_offer d)) = Ok (ob_hash o) /\
    ob_creator o = creator (offer_data (d_offer d));
  fz_creator : exists t,
    current_ticket (d_book d) (offer_id d) (offer_slot d) (creator (offer_data (d_offer d))) = Some t /\
    ticket_active t = true /\ ticket_prepare_window_ok t now = true;
  fz_enough : offer_target d <= zlen (freeze_set d now);
  fz_hashes : forall t1 t2, t1 ∈ freeze_set d now -> t2 ∈ freeze_set d now ->
    ticket_hash_of (E:=NegotiationDriveError) (ticket_data t1) = ticket_hash_of (ticket_data t2) -> t1 = t2 }.

Lemma others_ascend c l :
  c ∉ map ticket_signer l -> NoDup (map ticket_signer l) -> StronglySorted (ticket_key_le c) l ->
  StronglySorted (key_lt ticket_signer) l.
Proof.
  intros Hc Hnd Hs. induction Hs as [|x l Hs IH Hx]; [constructor|].
  apply NoDup_cons in Hnd as [Hnx Hnd]. apply not_elem_of_cons in Hc as [Hcx Hc]. constructor; [by apply IH|].
  rewrite Forall_forall in *. intros y Hy. specialize (Hx y Hy).
  assert (ticket_signer y ∈ map ticket_signer l) as Hin by (apply list_elem_of_fmap; eauto).
  unfold key_lt. unfold ticket_key_le in Hx. cbv zeta in Hx.
  destruct (Z.eqb_spec (ticket_signer x) c), (Z.eqb_spec (ticket_signer y) c);
    [congruence..|by subst c|].
  assert (ticket_signer x <> ticket_signer y) by (intros Heq; by rewrite Heq in Hnx).
  destruct Hx as [[? ?]|[_ ?]]; [done|lia].
Qed.

Section Selected.
Context (d : Driver) (now : Z) (Hz : freezable d now).

Lemma freeze_set_elem t : t ∈ freeze_set d now -> t ∈ ticket_set (d_book d) (offer_id d) (offer_slot d).
Proof.
  intros Ht. apply elem_of_take in Ht as (i & Hi & _). apply list_elem_of_lookup_2 in Hi.
  by apply list_elem_of_filter in Hi as [_ Hi].
Qed.

Lemma freeze_set_NoDup : NoDup (map ticket_signer (freeze_set d now)).
Proof.
  apply NoDup_fmap_2_strong.
  - intros t1 t2 H1 H2 Heq. apply elem_freeze_set in H1 as [H1 _]; [|apply Hz]. apply elem_freeze_set in H2 as [H2 _]; [|apply Hz].
    rewrite Heq in H1. rewrite H1 in H2. by injection H2.
  - eapply sublist_NoDup; [|apply sublist_take]. apply NoDup_filter, ticket_set_NoDup, Hz.
Qed.

Lemma freeze_set_sorted : StronglySorted (ticket_key_le (creator (offer_data (d_offer d)))) (freeze_set d now).
Proof.
  destruct (fz_slot _ _ Hz) as (o & Ho & _ & <-).
  by apply StronglySorted_take, StronglySorted_filter, ticket_set_sorted.
Qed.

Lemma freeze_set_length : zlen (freeze_set d now) = offer_target d.
Proof.
  pose proof (fz_enough _ _ Hz) as He. destruct (offer_data_valid _ _ (fz_offer _ _ Hz)) as (_ & _ & Ht).
  unfold freeze_set, zlen, offer_target in *. rewrite length_take in *. lia.
Qed.

Lemma freeze_set_head : ticket_signer <$> head (freeze_set d now) = Some (creator (offer_data (d_offer d))).
Proof.
  destruct (fz_creator _ _ Hz) as (ct & Hct & Ha & Hw), (fz_slot _ _ Hz) as (o & Ho & _ & Hco).
  assert (ticket_signer ct = creator (offer_data (d_offer d))) as Hsg.
  { pose proof Hct as Hct'. unfold current_ticket in Hct'. apply bind_Some in Hct' as (o' & Ho' & Htk).
    by destruct (so_tickets _ _ _ (find_offer_ok _ _ _ _ (fz_book _ _ Hz) Ho') _ _ Htk) as (? & _). }
  pose proof (ticket_set_elem _ _ _ ct (fz_book _ _ Hz) ltac:(by rewrite Hsg) Ha) as Hin.
  pose proof (StronglySorted_filter _ (fun t => ticket_prepare_window_ok t now = true) _ (ticket_set_sorted _ _ _ _ Ho)) as Hs.
  assert (ct ∈ filter (fun t => ticket_prepare_window_ok t now = true) (ticket_set (d_book d) (offer_id d) (offer_slot d)))
    as Hf by by apply list_elem_of_filter.
  destruct (offer_data_valid _ _ (fz_offer _ _ Hz)) as (_ & _ & Ht). unfold freeze_set, offer_target.
  destruct (Z.to_nat (target_size (offer_data (d_offer d)))) as [|k] eqn:Hk; [lia|].
  destruct (filter _ _) as [|x l]; [by apply elem_of_nil in Hf|]. simpl. f_equal. rewrite <- Hsg.
  apply StronglySorted_inv in Hs as [_ Hx]. apply elem_of_cons in Hf as [->|Hf]; [done|].
  rewrite Forall_forall in Hx. specialize (Hx _ Hf). unfold ticket_key_le in Hx. cbv zeta in Hx.
  rewrite Hco, Hsg, Z.eqb_refl in Hx. destruct Hx as [[_ ?]|[Hx _]]; [done|].
  apply negb_false_iff, Z.eqb_eq in Hx. congruence.
Qed.

Lemma freeze_set_verified oh :
  offer_hash_of (E:=ActivationError) (offer_data (d_offer d)) = Ok oh ->
  Forall (fun t => ticket_active t = true /\ verify_for_offer t oh = Ok tt) (freeze_set d now).
Proof.
  destruct (fz_slot _ _ Hz) as (o & Ho & -> & _). intros [= <-]. apply Forall_forall. intros t Ht%freeze_set_elem.
  destruct (elem_ticket_set _ _ _ _ (fz_book _ _ Hz) Ht) as [Hcur Ha]. split; [done|].
  unfold current_ticket in Hcur. rewrite Ho in Hcur. simpl in Hcur.
  by destruct (so_tickets _ _ _ (find_offer_ok _ _ _ _ (fz_book _ _ Hz) Ho) _ _ Hcur) as (_ & _ & _ & ?).
Qed.

Lemma freeze_set_hashes hs :
  Forall2 (fun t h => ticket_hash_of (E:=NegotiationDriveError) (ticket_data t) = Ok h) (freeze_set d now) hs -> NoDup hs.
Proof.
  pose proof freeze_set_NoDup as Hnd. pose proof (fz_hashes _ _ Hz) as Hinj. revert hs Hnd Hinj.
  generalize (freeze_set d now) as ts. intros ts hs Hnd Hinj Hf.
  induction Hf as [|t h ts hs Ht Hf IH]; [constructor|]. apply NoDup_cons in Hnd as [Hn Hnd]. constructor.
  - intros [i Hi]%list_elem_of_lookup. destruct (Forall2_lookup_r _ _ _ _ _ Hf Hi) as (t' & Ht' & Heq).
    apply Hn, list_elem_of_fmap. exists t'. apply list_elem_of_lookup_2 in Ht'. split; [|done]. f_equal.
    apply Hinj; [by left|by right|]. congruence.
  - apply IH; [done|]. intros t1 t2 H1 H2. apply Hinj; by right.
Qed.

(** The frozen offer and the activation over it are formed. *)
Lemma freeze_set_forms : exists hs p,
  ticket_hashes (E:=NegotiationDriveError) (freeze_set d now) = Ok hs /\
  offer_new (offer_data (d_offer d)) hs = Ok (MkOffer (offer_data (d_offer d)) hs) /\
  prepared_new (MkOffer (offer_data (d_offer d)) hs) (freeze_set d now) = Ok p.
Proof.
  destruct (ticket_hashes_Ok (E:=NegotiationDriveError) (freeze_set d now)) as (hs & Hhs & Hf). exists hs.
  pose proof freeze_set_length as Hlen. pose proof freeze_set_NoDup as Hnd. pose proof freeze_set_sorted as Hs.
  pose proof freeze_set_head as Hh. pose proof (freeze_set_hashes _ Hf) as Hnh.
  pose proof (fz_offer _ _ Hz) as Hv. destruct (offer_data_valid _ _ Hv) as (_ & _ & Ht).
  destruct (fz_slot _ _ Hz) as (o & _ & Hoh & _). pose proof (freeze_set_verified _ Hoh) as Hver.
  assert (zlen hs = offer_target d) as Hlh by (rewrite <- Hlen; unfold zlen; by rewrite (Forall2_length _ _ _ Hf)).
  unfold offer_target in *.
  assert (offer_new (offer_data (d_offer d)) hs = Ok (MkOffer (offer_data (d_offer d)) hs)) as Ho by (eapply offer_fits; [done|lia|done]).
  assert (offer_validate (MkOffer (offer_data (d_offer d)) hs) = Ok tt) as Hov.
  { unfold offer_new in Ho. by destruct (offer_validate _) as [[]| |]. }
  assert (activation_data_for (MkOffer (offer_data (d_offer d)) hs) (freeze_set d now) =
          Ok (MkActivationData ACTIVATION_DOMAIN ACTIVATION_VERSION (ob_hash o) hs)) as Hd.
  { apply activation_data_for_intro; try done.
    - eapply Forall2_impl; [exact Hf|]. intros t h. apply ticket_hash_any.
    - eapply Forall_impl; [exact Hver|]. by intros t [? _].
    - destruct (freeze_set d now) as [|x l]; [done|]. injection Hh as Hx. simpl in *.
      apply StronglySorted_inv in Hs as [Hs _]. apply NoDup_cons in Hnd as [Hn Hnd]. rewrite Hx in Hn.
      rewrite drop_0. by apply (others_ascend (creator (offer_data (d_offer d)))).
    - eapply Forall_impl; [exact Hver|]. by intros t [_ ?]. }
  unfold prepared_new. rewrite Hd. cbn [rbind].
  destruct (activation_data_enc (E:=ActivationError) (ob_hash o) hs ltac:(lia)) as [bs Hbs].
  unfold session_hash_of. rewrite Hbs. cbn [rbind]. by eexists.
Qed.
End Selected.

(** ** Logs only grow *)

Definition grows {A} (m : DM A) : Prop := forall w, log w `prefix_of` log (m w).2.

Lemma grows_bind {A B} (m : DM A) (f : A -> DM B) : grows m -> (forall a, grows (f a)) -> grows (sbind m f).
Proof.
  intros Hm Hf w. unfold sbind. specialize (Hm w). destruct (m w) as [[a|e|] w1]; try exact Hm.
  etrans; [exact Hm|apply Hf].
Qed.
Lemma grows_same {A} (m : DM A) : (forall w, log (m w).2 = log w) -> grows m.
Proof. intros Hm w. by rewrite Hm. Qed.
Lemma grows_act a : grows (act a).
Proof. intros w. by eexists. Qed.

Ltac gr := repeat first
  [ apply grows_act
  | match goal with |- forall _, _ => intros ? end
  | match goal with |- grows (sbind _ _) => apply grows_bind end
  | match goal with |- grows (if ?b then _ else _) => destruct b end
  | match goal with |- grows (match ?x with _ => _ end) => destruct x end
  | match goal with |- grows (let _ := _ in _) => cbv zeta end
  | by apply grows_same ].

Lemma grows_emit f : grows (emit f).
Proof. unfold emit. gr. Qed.
Lemma grows_publish f : grows (publish out f).
Proof. unfold publish, fail_timeout, timeout_error, emit, when. gr. Qed.
Lemma grows_refresh : grows refresh_fetch_registration.
Proof. unfold refresh_fetch_registration. gr. Qed.
Lemma grows_publish_local : grows (publish_local_signature out).
Proof. unfold publish_local_signature. gr; apply grows_publish. Qed.
Lemma grows_arm : grows (arm_completion_deadline out).
Proof. unfold arm_completion_deadline. gr. Qed.

Lemma sbind_run {A B} (m : DM A) (f : A -> DM B) w a w1 : m w = (Ok a, w1) -> sbind m f w = f a w1.
Proof. intros Hm. unfold sbind. by rewrite Hm. Qed.

(** The step that asks the store, and the rest of the handler after it. *)
Lemma prepare_logged {B} p (f : bool -> DM B) d n l :
  (forall a, grows (f a)) ->
  DidPrepare p (prepare_effect out n p) ∈ log ((sbind (prepare out p) f) (MkWorld d n l)).2.
Proof.
  intros Hf. unfold prepare.
  assert (forall w, log (MkWorld d (S n) (l ++ [DidPrepare p (prepare_effect out n p)])) `prefix_of` log w ->
            DidPrepare p (prepare_effect out n p) ∈ log w) as Hin.
  { intros w [k Hk]. rewrite Hk. cbn [log]. apply elem_of_app. left. apply elem_of_app. right. by left. }
  apply Hin. cbv [sbind ask act smodify]. cbn [tick driver log].
  destruct (prepare_effect out n p) as [e|[]]; simpl; try done; apply Hf.
Qed.

(** C39: a creator that has not frozen a set and holds, before the deadline of its
    offer, enough tickets inside the prepare window (its own among them, and no two of
    the set with one hash) has the
    store asked to prepare an activation formed from exactly the selected set: no
    check of [Offer::new] or [PreparedActivation::new] stops it. *)
Theorem freeze_reaches_store d n l sigs attempts tried :
  freezable d (unix_time out n) -> d_role d = Creator (MkCreator None sigs attempts tried) ->
  unix_time out n < deadline_unix_ms (offer_data (d_offer d)) ->
  exists p, formed p /\ p_tickets p = freeze_set d (unix_time out n) /\ offer_data (p_offer p) = offer_data (d_offer d) /\
    DidPrepare p (prepare_effect out (S n) p) ∈ log (try_freeze out (MkWorld d n l)).2.
Proof.
  intros Hz Hr Hdl. destruct (freeze_set_forms _ _ Hz) as (hs & p & Hhs & Ho & Hp).
  destruct (prepared_new_formed _ _ _ Hp) as (Hf & Hpo & Hpt). exists p. rewrite Hpo. split_and!; [done..|].
  unfold try_freeze. erewrite sbind_run by reflexivity. unfold id. cbv beta. cbn [driver]. rewrite Hr.
  erewrite sbind_run by reflexivity. cbn [tick]. rewrite (proj2 (Z.leb_gt _ _) Hdl). cbv zeta.
  rewrite (freeze_set_length _ _ Hz), Z.ltb_irrefl. rewrite Hhs. erewrite sbind_run by reflexivity.
  rewrite Ho. erewrite sbind_run by reflexivity. rewrite Hp. erewrite sbind_run by reflexivity.
  cbn [driver log tick]. apply prepare_logged. unfold record_signature.
  gr; (apply grows_arm || apply grows_emit || apply grows_refresh || apply grows_publish || apply grows_publish_local).
Qed.
End Freezing.
