(* ===== verification/Activating.v ===== *)
(** * From offers to activations: guarantees of a negotiation

    Runs of the driver from its construction, the order of arrival of tickets, and
    the sets a creator freezes. *)

From S2P Require Import Prelude Borsh Crypto Session Trace Negotiation NoPanic Book Driver Gossip Drives.

#[local] Open Scope Z_scope.

Section Runs.
Context `{Crypto, LocalKeys} (resumed0 : option PreparedActivation) (creating : bool) (out : Outside).

Lemma dinv_mono L L' d l : L <= L' -> dinv resumed0 L creating d l -> dinv resumed0 L' creating d l.
Proof.
  intros HL [H1 H2 H3 H4 H5 H6 H7]. split; auto. destruct (d_role d) as [s|s]; [|done].
  destruct H5 as (Hc & t & Ht & Hk). split; [done|]. exists t. split; [done|].
  destruct (frozen s); [done|]. destruct Hk as (K1 & K2 & K3 & K4 & K5). split_and!; [done..|lia|done].
Qed.

Lemma ready_next L w : sound resumed0 L creating w -> ready resumed0 (L + 1) creating w.
Proof.
  intros Hw. split; [eapply dinv_mono; [|exact Hw]; lia|]. intros Hc. unfold room_to_reoffer, creator_frozen.
  pose proof (di_role _ _ _ _ _ Hw) as Hr. unfold is_creator in Hc. destruct (d_role (driver w)) as [s|]; [|done].
  simpl. intros Hz. destruct Hr as (_ & t & _ & Hk). rewrite Hz in Hk. lia.
Qed.

(** The end of a run: the log, and a session whose activation is stored. *)
Definition ended (r : option ActivatedSession) (w : World) : Prop :=
  log_ok resumed0 (log w) /\ match r with Some s => persisted s w | None => True end.

Lemma drive_wp l : forall L w, sound resumed0 L creating w -> Forall input_ok l -> L + zlen l <= u64_max ->
  wp (drive out l) ended (halted resumed0) w.
Proof.
  induction l as [|i l IH]; intros L w Hw Hin HL; cbn [drive].
  { wp1. split; [apply Hw|done]. }
  apply Forall_cons in Hin as [Hi Hin]. rewrite zlen_cons in HL. pose proof (zlen_nonneg l).
  wp1. eapply wp_mono; [apply (turn_wp resumed0 (L + 1) creating out i w); [done|by apply ready_next|lia]|].
  intros [s|] w' [Hw' Hs]; [wp1; split; [apply Hw'|done]|]. eapply IH; [exact Hw'|done|lia].
Qed.

Lemma run_wp l L w :
  sound resumed0 L creating w -> Forall input_ok l -> L + zlen l + 1 <= u64_max ->
  wp (run out l) ended (halted resumed0) w.
Proof.
  intros Hw Hin HL. unfold run. pose proof (zlen_nonneg l).
  wp1. eapply wp_mono; [by apply (keeps_withdrawal_requested resumed0 L creating)|]. intros asked w1 Hw1.
  wp1. eapply (wp_mono _ _ (fun _ => sound resumed0 L creating)).
  { destruct asked; [by apply keeps_on_withdrawal_requested|by wp1]. }
  intros stop w2 Hw2. wp1; [wp1; apply Hw2|].
  wp1. eapply wp_mono; [by apply (keeps_emit resumed0 L creating)|]. intros [] w3 Hw3.
  wp1. eapply wp_mono; [by apply (keeps_get resumed0 L creating)|]. intros d w4 Hw4.
  wp1. eapply (wp_mono _ _ (fun _ => sound resumed0 L creating)).
  { destruct (d_resumed d); [by apply keeps_emit|by wp1]. }
  intros [] w5 Hw5. wp1. eapply wp_mono; [by apply (keeps_emit resumed0 L creating)|]. intros [] w6 Hw6.
  wp1. eapply wp_mono; [apply (emit_periodic_wp resumed0 (L + 1) creating); [by apply ready_next|lia]|].
  intros [s|] w7 [Hw7 Hs]; [wp1; split; [apply Hw7|done]|]. eapply drive_wp; [exact Hw7|done|lia].
Qed.
End Runs.

(** ** Construction *)

Section Start.
Context `{Crypto, LocalKeys}.

(** What the values handed to [new] are known to satisfy: an [Offer] is built
    validated, the creator's ticket is its own first one, and a resumed drive has a
    formed activation with the local ticket in it. *)
Definition ticket_first (t : Ticket) : Prop :=
  ticket_signer t = local_peer -> forall h, verify_for_offer t h = Ok tt -> revision (ticket_data t) = 0.
Definition start_ok (s : NegotiationStart) : Prop :=
  offer_validate (start_offer s) = Ok tt /\
  match s with
  | Fresh _ ct _ => forall t, ct = Some t -> ticket_first t
  | Resume lt p => formed p /\ ticket_signer lt = local_peer /\ lt ∈ p_tickets p
  end.

Definition evidence_of (s : NegotiationStart) : option PreparedActivation :=
  match s with Fresh _ _ _ => None | Resume _ p => Some p end.
Definition creates (s : NegotiationStart) : bool := creator (offer_data (start_offer s)) =? local_peer.
Definition first_seq (s : NegotiationStart) : Z := offer_seq (offer_data (start_offer s)).

Lemma validate_for_profile_noPanic o pf : validate_for_profile o pf <> Panic.
Proof. unfold validate_for_profile. apply rbind_noPanic; [apply offer_data_validate_noPanic|intros _ _; np]. Qed.

Lemma validate_for_profile_Ok o pf u : validate_for_profile o pf = Ok u -> offer_data_validate o = Ok tt.
Proof. unfold validate_for_profile. by destruct (offer_data_validate o) as [[]| |]. Qed.

Lemma hash_listed p t :
  formed p -> t ∈ p_tickets p -> exists h,
    ticket_hash_of (E:=NegotiationDriveError) (ticket_data t) = Ok h /\ h ∈ offer_tickets (p_offer p).
Proof.
  intros Hf Ht. destruct (formed_facts _ Hf) as [Hfacts _].
  apply list_elem_of_lookup in Ht as [i Hi].
  destruct (Forall2_lookup_l _ _ _ _ _ (af_hashes _ _ _ Hfacts) Hi) as (h & Hh & Heq).
  exists h. split; [|by eapply list_elem_of_lookup_2].
  destruct (ticket_hash_of_Ok (E:=NegotiationDriveError) (ticket_data t)) as (bs & Hbs & ->).
  destruct (ticket_hash_of_Ok (E:=ActivationError) (ticket_data t)) as (bs' & Hbs' & Ht'). congruence.
Qed.

Lemma restore_tickets_wp ts l0 : forall d n l,
  book_ok (d_book d) -> log_ok l0 l ->
  wp (restore_tickets ts) (fun _ w' => exists b, book_ok b /\ driver w' = set_book b d /\ log w' = l)
     (halted l0) (MkWorld d n l).
Proof.
  induction ts as [|t ts IH]; intros d n l Hb Hl; cbn [restore_tickets].
  { wp1. exists (d_book d). split_and!; [done|by destruct d|done]. }
  wp1. apply wp_book_call; [apply apply_ticket_noPanic|intros _ _|done].
  eapply wp_mono; [apply IH; [by apply apply_ticket_ok|done]|]. intros [] w' (b & Hb' & Hd & Hl'). by exists b.
Qed.

(** The book of a drive that has just registered its offer. *)
Lemma first_book o u b :
  offer_data_validate (offer_data o) = Ok u ->
  register_offer (o_negotiation_id (offer_data o)) (offer_seq (offer_data o)) o book_new = (Ok tt, b) ->
  book_ok b /\ (forall k, offer_seq (offer_data o) < k -> find_offer b (o_negotiation_id (offer_data o)) k = None) /\
  forall p, current_ticket b (o_negotiation_id (offer_data o)) (offer_seq (offer_data o)) p = None.
Proof.
  intros Hv Hreg. pose proof (register_offer_slots _ _ _ _ _ Hreg) as Hf.
  pose proof (register_offer_ok (o_negotiation_id (offer_data o)) (offer_seq (offer_data o)) o _ book_ok_new) as Hb.
  rewrite Hreg in Hb. split_and!; [exact Hb| |].
  - intros k Hk. rewrite Hf, decide_False by lia. unfold find_offer, book_new. simpl. by rewrite lookup_empty.
  - intros p. unfold current_ticket. rewrite Hf, decide_True by done.
    destruct (offer_hash_valid (E:=ApplyError) _ _ Hv) as [h ->].
    unfold find_offer, book_new. simpl. rewrite lookup_empty. simpl. by rewrite lookup_empty.
Qed.

Lemma creator_ticket_checked d o t d0 n l l0 :
  offer_tickets o <> [] -> log_ok l0 l ->
  wp (check_creator_ticket d o t) (fun _ w' => w' = MkWorld d0 n l /\ ticket_slot t =
        (o_negotiation_id (offer_data o), offer_seq (offer_data o)) /\
        (is_creator d = true -> ticket_signer t = local_peer)) (halted l0) (MkWorld d0 n l).
Proof.
  intros Hne Hl. unfold check_creator_ticket. cbv zeta. wp1; [by wp1|].
  apply orb_false_iff in Heqb as [[H1 H2]%orb_false_iff H3]. rewrite negb_false_iff, Z.eqb_eq in H1, H2, H3.
  wp1. apply wp_lift; [apply ticket_hash_noPanic|intros th _|done].
  wp1. destruct (offer_tickets o) as [|h hs]; [done|]. simpl. apply wp_lift; [done|intros h0 _|done].
  apply wp_lift; [np|intros _ _|done]. split_and!; [done| |by intros Hc; rewrite Hc in H1].
  unfold ticket_slot. by rewrite H2, H3.
Qed.

Lemma offer_validate_nonempty o u : offer_validate o = Ok u -> offer_tickets o <> [].
Proof. unfold offer_validate. intros Hv Hn. rewrite Hn in Hv. by destruct (offer_data_validate _). Qed.

(** The state at construction, before the start is applied. *)
Lemma construct_wp pf s d n :
  d_book d = book_new -> offer_data_validate (offer_data (start_offer s)) <> Panic ->
  (forall b, offer_data_validate (offer_data (start_offer s)) = Ok tt ->
     register_offer (o_negotiation_id (offer_data (start_offer s))) (offer_seq (offer_data (start_offer s)))
       (start_offer s) book_new = (Ok tt, b) ->
     wp (start s) (fun _ => sound (evidence_of s) (first_seq s) (creates s)) (halted (evidence_of s))
        (MkWorld (set_book b d) n [])) ->
  wp (construct pf s) (fun _ => sound (evidence_of s) (first_seq s) (creates s)) (halted (evidence_of s)) (MkWorld d n []).
Proof.
  intros Hb _ Hst. unfold construct. wp1.
  apply wp_lift; [apply map_err_noPanic, validate_for_profile_noPanic| |intros _ _; apply log_ok_nil].
  intros u Hp. apply map_err_Ok, validate_for_profile_Ok in Hp.
  wp1. apply wp_book_call; [by eapply register_offer_noPanic|intros [] Hreg|intros _ _; apply log_ok_nil].
  rewrite Hb in *. apply Hst; [done|]. by apply injective_projections.
Qed.

Lemma start_fresh_wp o ct ps b sup dl n :
  start_ok (Fresh o ct ps) -> offer_data_validate (offer_data o) = Ok tt ->
  register_offer (o_negotiation_id (offer_data o)) (offer_seq (offer_data o)) o book_new = (Ok tt, b) ->
  wp (start (Fresh o ct ps))
     (fun _ => sound None (first_seq (Fresh o ct ps)) (creates (Fresh o ct ps))) (halted None)
     (MkWorld (set_book b (driver_init o ps book_new sup dl)) n []).
Proof.
  intros [Hv Hun] Hd Hreg. unfold first_seq, creates. cbn [start_offer] in *.
  destruct (first_book _ _ _ Hd Hreg) as (Hb & Hvac & Hcur).
  set (L := offer_seq (offer_data o)). remember (creator (offer_data o) =? local_peer) as c eqn:Ec.
  set (d0 := set_book b _). assert (log_ok None []) as Hnil by apply log_ok_nil.
  assert (d_book d0 = b /\ d_offer d0 = o /\ d_local d0 = None /\
          d_role d0 = if creator (offer_data o) =? local_peer then Creator (MkCreator None ∅ 0 {[params (offer_data o) := 0]})
                      else Participant (MkParticipant None None None)) as (Eb & Eo & El & Er) by done.
  rewrite <- Ec in Er. clearbody d0.
  assert (is_creator d0 = c) as Hkind by (unfold is_creator; rewrite Er; by destruct c).
  assert (c = false -> forall b', book_ok b' -> dinv None L c (set_book b' d0) []) as Hpart.
  { intros Hc b' Hb'. rewrite Hc in Er, Hkind. rewrite Hc. split; cbn [d_book d_offer d_local d_role set_book];
      rewrite ?Eo, ?El, ?Er; done. }
  unfold start. wp1. wp1. wp1. destruct ct as [t|].
  - wp1. eapply wp_mono; [by apply creator_ticket_checked; [eapply offer_validate_nonempty|]|].
    intros [] w' (-> & Hslot & Hsig). wp1.
    apply wp_book_call; [apply apply_ticket_noPanic|intros r Hap|done].
    rewrite Eb in *. pose proof (apply_ticket_ok t b Hb) as Hb2.
    destruct (apply_ticket t b) as [r' b2] eqn:Hapeq. cbn [fst snd] in *. subst r'. rewrite Hkind in *.
    unfold when. destruct c; [|wp1; exact (keeps_refresh None L false (MkWorld (set_book b2 d0) n []) (Hpart eq_refl b2 Hb2))].
    specialize (Hsig eq_refl). wp1. apply (send_ticket_wp None); [done|]. intros l1 Hl1 _. wp1.
    apply (keeps_refresh None L true). injection Hslot as Hn Hs.
    assert (current_ticket b2 (o_negotiation_id (offer_data o)) L local_peer = Some t) as Hcur2.
    { rewrite <- Hsig. subst L. rewrite <- Hn, <- Hs. eapply apply_ticket_current; [done|]. by rewrite Hn, Hs. }
    assert (revision (ticket_data t) = 0) as Hrev.
    { unfold current_ticket in Hcur2. apply bind_Some in Hcur2 as (ob & Hob & Htk).
      destruct (so_tickets _ _ _ (find_offer_ok _ _ _ _ Hb2 Hob) _ _ Htk) as (_ & _ & _ & Hver).
      by eapply Hun. }
    split; cbn [driver log d_book d_offer d_local d_role set_local set_book]; rewrite ?Eo, ?Er; try done;
      [by intros ? [= <-]|].
    split; [cbn [d_offer set_local set_book]; rewrite Eo; by apply Z.eqb_eq|]. exists t. split; [done|].
    unfold offer_id, offer_slot. cbn [d_offer d_book set_local set_book frozen activation_signatures]. rewrite Eo.
    split_and!; try done; [by exists t; split; [|left]|]. intros k Hk.
    pose proof (apply_ticket_slots t b (o_negotiation_id (offer_data o)) k) as Hsl. rewrite Hapeq in Hsl.
    apply Hsl, Hvac, Hk.
  - rewrite Hkind. destruct c; [by wp1|]. wp1.
    replace d0 with (set_book b d0) by (rewrite <- Eb; by destruct d0).
    exact (keeps_refresh None L false (MkWorld (set_book b d0) n []) (Hpart eq_refl b Hb)).
Qed.

Lemma start_resume_wp lt p b sup dl n :
  start_ok (Resume lt p) -> offer_data_validate (offer_data (p_offer p)) = Ok tt ->
  register_offer (o_negotiation_id (offer_data (p_offer p))) (offer_seq (offer_data (p_offer p))) (p_offer p) book_new = (Ok tt, b) ->
  wp (start (Resume lt p))
     (fun _ => sound (Some p) (first_seq (Resume lt p)) (creates (Resume lt p))) (halted (Some p))
     (MkWorld (set_book b (driver_init (p_offer p) None book_new sup dl)) n []).
Proof.
  intros (Hv & Hf & Hsig & Hin) Hd Hreg. unfold first_seq, creates. cbn [start_offer] in *.
  destruct (first_book _ _ _ Hd Hreg) as (Hb & _ & _).
  remember (creator (offer_data (p_offer p)) =? local_peer) as c eqn:Ec.
  set (L := offer_seq _). set (d0 := set_book b _). assert (log_ok (Some p) []) as Hnil by apply log_ok_nil.
  assert (d_book d0 = b /\ d_offer d0 = p_offer p /\
          d_role d0 = if creator (offer_data (p_offer p)) =? local_peer
                      then Creator (MkCreator None ∅ 0 {[params (offer_data (p_offer p)) := 0]})
                      else Participant (MkParticipant None None None)) as (Eb & Eo & Er) by done.
  rewrite <- Ec in Er. clearbody d0. destruct (hash_listed p lt Hf Hin) as (h & Hh & Hlist).
  unfold start. wp1. wp1. wp1. wp1. apply (send_ticket_wp (Some p)); [done|]. intros l1 Hl1 _. wp1. wp1. wp1.
  eapply wp_mono; [apply restore_tickets_wp; [cbn; by rewrite Eb|done]|].
  intros [] [d2 n2 l2] (b2 & Hb2 & Hd2 & Hl2). cbn [driver log] in *. subst d2 l2. wp1. wp1. wp1.
  cbn [d_role set_book set_local set_resumed]. rewrite Er.
  apply (keeps_refresh (Some p) L c). unfold sound. cbn [driver log].
  assert (agreed (Some p) l1 p) as Hag by by left.
  destruct c; (split; cbn; rewrite ?Eo; [done|done|by intros ? [= <-]| |try done|done|done]).
  - intros q [= <-]. split_and!; [done|done|]. by exists lt, h.
  - split; [cbn; rewrite Eo; by apply Z.eqb_eq|]. exists lt. split; [done|]. cbn. split; [done|].
    intros h' [? Hx]. by rewrite lookup_empty in Hx.
  - intros q [= <-]. split_and!; [done|done|]. by exists lt, h.
Qed.

(** A driver is constructed without a panic, and what is constructed is sound. *)
Lemma new_wp pf s sup dl :
  start_ok s ->
  wp (fun _ => driver_new pf s sup dl) (fun _ => sound (evidence_of s) (first_seq s) (creates s))
     (halted (evidence_of s)) (MkWorld (driver_init (start_offer s) None book_new sup dl) 0 []).
Proof.
  intros Hs. unfold wp, driver_new.
  refine (construct_wp pf s (driver_init (start_offer s) (match s with Fresh _ _ ps => ps | Resume _ _ => None end) book_new sup dl) 0 _ _ _);
    [done|apply offer_data_validate_noPanic|].
  intros b Hd Hreg. destruct s as [o ct ps|lt p]; cbn [start_offer] in *.
  - by apply start_fresh_wp.
  - by apply start_resume_wp.
Qed.

Lemma new_sound pf s sup dl u w :
  start_ok s -> driver_new pf s sup dl = (Ok u, w) -> sound (evidence_of s) (first_seq s) (creates s) w.
Proof. intros Hs Hn. pose proof (new_wp pf s sup dl Hs) as Hw. unfold wp in Hw. by rewrite Hn in Hw. Qed.
End Start.

(** ** Guarantees *)

Section Guarantees.
Context `{Crypto, LocalKeys}.

(** C38: the tickets a book holds do not depend on the order in which they arrive:
    when the signers fit in their slots and none signed two tickets with one
    revision, every order of arrival leaves the same book.  In it, every ticket
    that verifies against its slot is held or superseded by a later revision of its
    signer, and what is held arrived or was held before. *)
Theorem tickets_converge b ts ts' :
  room b ts -> unequivocal b ts -> ts ≡ₚ ts' ->
  apply_all ts' b = apply_all ts b /\
  (forall t, t ∈ ts -> admissible b t -> exists c,
     current_ticket (apply_all ts b) (t_negotiation_id (ticket_data t)) (t_offer_seq (ticket_data t)) (ticket_signer t) = Some c
     /\ revision (ticket_data t) <= revision (ticket_data c)) /\
  (forall n s p c, current_ticket (apply_all ts b) n s p = Some c -> c ∈ ts \/ current_ticket b n s p = Some c).
Proof.
  intros Hr Hu Hp. split_and!.
  - symmetry. by apply (apply_all_Permutation ts).
  - intros t Ht Ha. by apply (apply_all_at_least ts ts b).
  - intros n s p c. by apply (apply_all_origin ts).
Qed.

(** C40: a negotiation drive started on valid values, whatever the outside answers and
    whatever frames arrive in whatever order, as long as the active tickets among them
    that verify under this host's own identity are at revision 0, the only ones it
    signs (its withdrawals may be replayed), and the offer sequence has room for every
    input, never panics; it
    publishes an activation signature only over an activation that was formed from
    its tickets, lists a ticket of this host and had been accepted by the store
    before (or is the one the drive resumed); and it returns a session only with a
    valid activation that the store has taken. *)
Theorem drive_sound pf s supervised deadline out l u w r w' :
  start_ok s -> driver_new pf s supervised deadline = (Ok u, w) ->
  Forall input_ok l -> first_seq s + zlen l + 1 <= u64_max -> run out l w = (r, w') ->
  r <> Panic /\
  (forall l1 g ok l2 sg, log w' = l1 ++ Publish g ok :: l2 -> fact g = FactActivationSignature sg -> exists p,
     (evidence_of s = Some p \/ DidPrepare p (inr PrepareAccepted) ∈ l1) /\ formed p /\ own p /\
     as_session_hash sg = p_session_hash p /\ as_ticket_hash sg ∈ offer_tickets (p_offer p)) /\
  (forall session, r = Ok (Some session) ->
     DidPersist (as_activation session) (inr DurableAccepted) ∈ log w' /\
     activation_validate (as_activation session) = Ok tt).
Proof.
  intros Hs Hn Hin Hseq Hrun.
  pose proof (run_wp _ _ out l _ _ (new_sound _ _ _ _ _ _ Hs Hn) Hin Hseq) as Hw.
  unfold wp in Hw. rewrite Hrun in Hw.
  assert (log_ok (evidence_of s) (log w')) as Hlog by (destruct r as [a|e|]; [apply Hw|exact Hw|done]).
  split_and!.
  - by destruct r.
  - intros l1 g ok l2 sg Hl Hg. specialize (Hlog _ _ _ Hl). simpl in Hlog. by rewrite Hg in Hlog.
  - intros session ->. apply Hw.
Qed.
End Guarantees.
