(* ===== verification/DriveExample.v ===== *)
(** * A worked negotiation

    Two hosts negotiate over the toy interface of the worked execution: alice
    creates, bob participates.  The theorems of [Activating] and [Freezing] are
    evaluated here, and one run shows a prepared participant leaving the session
    it signed. *)

From S2P Require Import Prelude Borsh Crypto Session Trace Negotiation NoPanic Fixture Book Driver Gossip Drives Freezing Activating.

#[local] Open Scope Z_scope.

(** ** The hosts *)

Definition alice_keys : LocalKeys :=
  {| node_public := alice; dalek_sign m := alice + toy_hash m; bls_public := alice_bls; blst_sign _ m := alice_bls + toy_hash m |}.
Definition bob_keys : LocalKeys :=
  {| node_public := bob; dalek_sign m := bob + toy_hash m; bls_public := bob_bls; blst_sign _ m := bob_bls + toy_hash m |}.

(** An outside whose calls succeed, at time 200. *)
Definition calm_outside : Outside := {|
  unix_time _ := 200; instant _ := 200; topic_publish _ _ := CallOk; topic_subscribe _ _ := CallOk;
  prepare_effect _ _ := inr PrepareAccepted; persist_effect _ _ := inr DurableAccepted;
  recompute_initial_state _ _ := inr initial0; withdrawal_flag _ := false |}.

(** The first offer of the negotiation and its re-offer. *)
Definition first_terms : OfferData := MkOfferData OFFER_DOMAIN OFFER_VERSION 5 0 alice 77 88 [123; 125] 2 initial0 40000.
Definition second_terms : OfferData := MkOfferData OFFER_DOMAIN OFFER_VERSION 5 1 alice 77 88 [123; 125] 2 initial0 50000.
Definition created (d : OfferData) : Offer * Ticket :=
  unwrap (offer0, alice_ticket) (create_creator_offer (H:=toy_base) (H0:=alice_keys) d 100).
Definition first_offer : Offer := Eval lazy in (created first_terms).1.
Definition first_ticket : Ticket := Eval lazy in (created first_terms).2.
Definition second_offer : Offer := Eval lazy in (created second_terms).1.
Definition second_ticket : Ticket := Eval lazy in (created second_terms).2.

(** The ticket bob issues for the first offer. *)
Definition joining_ticket : Ticket := Eval lazy in unwrap alice_ticket
  (let? h := offer_hash_of (H:=toy_base) (E:=ApplyError) first_terms in
   let? td := map_err SigningError (ticket_data_new 5 0 bob 0 (local_action (H0:=bob_keys) h 200)) in
   sign_ticket (H0:=bob_keys) td).
Definition frozen_offer : Offer := Eval lazy in
  MkOffer first_terms [hash_of_ticket first_ticket; hash_of_ticket joining_ticket].
Definition frozen_activation : PreparedActivation := Eval lazy in
  unwrap prepared0 (prepared_new (H:=toy_base) frozen_offer [first_ticket; joining_ticket]).
Definition agreed_activation : Activation := Eval lazy in
  MkActivation frozen_activation
    (aggregate_of (unwrap [] (activation_signing_bytes (E:=ActivationError) (p_activation_data frozen_activation)))).

Definition on_topic (f : NegotiationFact) : Input :=
  TopicEvent (TopicFact (unwrap [] (to_vec (c_gossip (H:=toy_base)) (gossip_new 77 5 f)))).
Definition fetched : Input :=
  FetchArrived (Some (alice, FetchResponse (MkActivationTickets (p_session_hash frozen_activation) [first_ticket; joining_ticket]))).

(** ** Bob joins *)

Definition bob_start : NegotiationStart := Fresh first_offer (Some first_ticket) None.
Definition bob_world : result NegotiationDriveError unit * World :=
  driver_new (H:=toy_base) (H0:=bob_keys) 88 bob_start true None.
Definition bob_run (l : list Input) : result NegotiationDriveError (option ActivatedSession) * World :=
  run (H:=toy_base) (H0:=bob_keys) calm_outside l bob_world.2.

Definition bob_inputs : list Input :=
  Eval lazy in [on_topic (FactOffer frozen_offer); fetched; on_topic (FactActivationAnnouncement (from_activation agreed_activation))].

Lemma bob_started : bob_world.1 = Ok tt.
Proof. vm_compute. reflexivity. Qed.

(** A frame that carries no ticket. *)
Lemma no_ticket `{Crypto, LocalKeys} bs g0 :
  gossip_decode bs = Ok g0 -> (forall t, fact g0 <> FactTicket t) -> input_ok (TopicEvent (TopicFact bs)).
Proof. intros Hd Hn g t Hg Hf. rewrite Hd in Hg. injection Hg as <-. by destruct (Hn t). Qed.

Lemma bob_inputs_ok : Forall (input_ok (H:=toy_base) (H0:=bob_keys)) bob_inputs.
Proof.
  apply Forall_cons_2; [eapply no_ticket; [vm_compute; reflexivity|by intros t]|]. apply Forall_cons_2; [done|].
  apply Forall_cons_2; [eapply no_ticket; [vm_compute; reflexivity|by intros t]|apply Forall_nil_2].
Qed.

Lemma bob_start_ok : start_ok (H:=toy_base) (H0:=bob_keys) bob_start.
Proof. split; [vm_compute; reflexivity|]. intros t [= <-] Hs. by vm_compute in Hs. Qed.

Definition bob_session : ActivatedSession := MkActivated ensemble0 agreed_activation.

Lemma drive_sound_witness :
  (bob_run bob_inputs).1 = Ok (Some bob_session) /\
  DidPersist agreed_activation (inr DurableAccepted) ∈ log (bob_run bob_inputs).2 /\
  activation_validate (H:=toy_base) agreed_activation = Ok tt.
Proof.
  assert ((bob_run bob_inputs).1 = Ok (Some bob_session)) as Hr by (vm_compute; reflexivity).
  split; [exact Hr|].
  refine (proj2 (proj2 (drive_sound (H:=toy_base) (H0:=bob_keys) 88 bob_start true None calm_outside bob_inputs tt
    bob_world.2 (bob_run bob_inputs).1 (bob_run bob_inputs).2 bob_start_ok _ bob_inputs_ok _ _)) bob_session Hr).
  - rewrite <- bob_started. apply surjective_pairing.
  - vm_compute. by intros.
  - apply surjective_pairing.
Defined.

(** ** The book of the creator *)

Definition alice_start : NegotiationStart := Fresh first_offer (Some first_ticket) None.
Definition alice_world : result NegotiationDriveError unit * World :=
  driver_new (H:=toy_base) (H0:=alice_keys) 88 alice_start true None.
Definition alice_driver : Driver :=
  set_book (apply_all (H:=toy_base) [joining_ticket] (d_book (driver alice_world.2))) (driver alice_world.2).

Lemma alice_start_ok : start_ok (H:=toy_base) (H0:=alice_keys) alice_start.
Proof. split; [vm_compute; reflexivity|]. by intros t [= <-] _ h _. Qed.

Lemma alice_book_ok : book_ok (H:=toy_base) (d_book alice_driver).
Proof.
  apply apply_ticket_ok. refine (di_book _ _ _ _ _ (new_sound (H:=toy_base) (H0:=alice_keys) 88 alice_start true None tt alice_world.2 alice_start_ok _)).
  vm_compute. reflexivity.
Qed.

(** The one slot of the book. *)
Definition alice_slot (ts : list Ticket) : OfferBook :=
  MkOfferBook (unwrap 0 (offer_hash_of (H:=toy_base) (E:=ApplyError) first_terms)) alice
    (list_to_map (map (fun t => (ticket_signer t, t)) ts)).
Lemma one_slot b n s o ob :
  b = MkBook {[5 := MkNegotiationState {[0 := ob]} ∅]} -> find_offer b n s = Some o -> o = ob.
Proof.
  intros ->. unfold find_offer. simpl. intros (st & Hst & Ho)%bind_Some.
  apply lookup_singleton_Some in Hst as [_ <-]. simpl in Ho. by apply lookup_singleton_Some in Ho as [_ <-].
Qed.
Lemma alice_first_book :
  d_book (driver alice_world.2) = MkBook {[5 := MkNegotiationState {[0 := alice_slot [first_ticket]]} ∅]}.
Proof. vm_compute. reflexivity. Qed.

Lemma tickets_converge_witness :
  apply_all (H:=toy_base) [joining_ticket; first_ticket] (d_book (driver alice_world.2)) =
  apply_all (H:=toy_base) [first_ticket; joining_ticket] (d_book (driver alice_world.2)).
Proof.
  refine (proj1 (tickets_converge (H:=toy_base) (d_book (driver alice_world.2)) [first_ticket; joining_ticket] [joining_ticket; first_ticket] _ _ _)).
  - intros n s o ->%(one_slot _ _ _ _ _ alice_first_book). vm_compute. by intros.
  - intros t1 t2 H1 H2 _ _ (_ & Hs & _). rewrite !elem_of_cons, elem_of_nil in H1, H2.
    destruct H1 as [->|[->|[]]], H2 as [->|[->|[]]]; done.
  - apply Permutation_swap.
Defined.

(** ** Alice freezes *)

Lemma alice_freezable : freezable (H:=toy_base) alice_driver 200.
Proof.
  split.
  - exact alice_book_ok.
  - vm_compute. reflexivity.
  - exists (alice_slot [first_ticket; joining_ticket]). by split_and!; vm_compute.
  - exists first_ticket. by split_and!; vm_compute.
  - vm_compute. by intros.
  - assert (freeze_set alice_driver 200 = [first_ticket; joining_ticket]) as -> by (vm_compute; reflexivity).
    intros t1 t2 H1 H2 Heq. rewrite !elem_of_cons, elem_of_nil in H1, H2.
    destruct H1 as [->|[->|[]]], H2 as [->|[->|[]]]; [reflexivity| | |reflexivity];
      vm_compute in Heq; discriminate Heq.
Qed.

Lemma freeze_reaches_store_witness : exists p,
  p_tickets p = [first_ticket; joining_ticket] /\
  DidPrepare p (inr PrepareAccepted) ∈ log (try_freeze (H:=toy_base) (H0:=alice_keys) calm_outside (MkWorld alice_driver 0 [])).2.
Proof.
  destruct (freeze_reaches_store (H:=toy_base) (H0:=alice_keys) calm_outside alice_driver 0 []
    ∅ 0 {[params first_terms := 0]} alice_freezable) as (p & _ & Hp & _ & Hl).
  - vm_compute. reflexivity.
  - vm_compute. reflexivity.
  - exists p. split; [|exact Hl]. rewrite Hp. vm_compute. reflexivity.
Defined.

(** ** A prepared participant that leaves *)

(** Bob learns of the re-offer, then prepares and signs the first session; the
    creator's ticket for the re-offer then makes him drop the prepared activation
    and join the new slot. *)
Definition signed_then_reoffered : list Input :=
  Eval lazy in [on_topic (FactOffer frozen_offer); on_topic (FactOffer second_offer); fetched].
Definition is_signature (a : Action) : bool :=
  match a with
  | Publish g true => match fact g with FactActivationSignature s => as_session_hash s =? p_session_hash frozen_activation | _ => false end
  | _ => false
  end.

Lemma prepared_participant_switches :
  prepared_activation (d_role (driver (bob_run signed_then_reoffered).2)) = Some frozen_activation /\
  existsb is_signature (log (bob_run signed_then_reoffered).2) = true /\
  prepared_activation (d_role (driver (bob_run (signed_then_reoffered ++ [on_topic (FactTicket second_ticket)])).2)) = None /\
  d_offer (driver (bob_run (signed_then_reoffered ++ [on_topic (FactTicket second_ticket)])).2) = second_offer /\
  (bob_run (signed_then_reoffered ++ [on_topic (FactTicket second_ticket);
     on_topic (FactActivationAnnouncement (from_activation agreed_activation))])).1 = Ok None.
Proof. vm_compute. by split_and!. Qed.

(** ** A creator with more tickets than it asked for *)

Definition keys_of (peer key : Z) : LocalKeys :=
  {| node_public := peer; dalek_sign m := peer + toy_hash m; bls_public := key; blst_sign _ m := key + toy_hash m |}.
(** A valid ticket for the first offer with one second to live. *)
Definition short_ticket (peer key : Z) : Ticket := unwrap alice_ticket
  (let? h := offer_hash_of (H:=toy_base) (E:=ApplyError) first_terms in
   let? td := map_err SigningError
     (ticket_data_new 5 0 peer 0 (Active_ key (key_binding (H:=keys_of peer key) h peer) 100 1000)) in
   sign_ticket (H0:=keys_of peer key) td).
Definition short_tickets : list Input :=
  Eval lazy in [on_topic (FactTicket (short_ticket bob bob_bls)); on_topic (FactTicket (short_ticket 33 303))].

(** Two tickets outside the prepare window cannot be frozen, but they are Active
    and count: at the next cadence the creator's view of the set exceeds the target
    and [Offer::new] ends the drive. *)
Lemma oversubscribed_creator_fails :
  (run (H:=toy_base) (H0:=alice_keys) calm_outside short_tickets alice_world.2).1 = Ok None /\
  (run (H:=toy_base) (H0:=alice_keys) calm_outside (short_tickets ++ [CadenceElapsed]) alice_world.2).1
    = Err (Signing (SignNegotiation (TicketCount 3 1 2))).
Proof. vm_compute. by split. Qed.
