(* ===== verification/Resident.v ===== *)
(** * The resident guest (sandbox/src/engine/runtime.rs, node/src/execution/mod.rs)

    One Wasm instance serves an execution.  Its two state memories are live; the
    last committed payloads are kept beside them, and every failure or rejection
    writes those back.  The engine and the guest's code are outside: an engine
    failure is a [Fault] that leaves any contents in the memories, and a call of the
    guest returns what it wrote.  A memory is its payload, or nothing when its
    contents are not a canonical frame. *)

From S2P Require Import Prelude Borsh Crypto Session Trace Negotiation Evidence NoPanic Database Persist.

#[local] Open Scope Z_scope.

Definition MAX_SESSION_CONTEXT_BYTES : Z := 1024 * 1024.
Definition MAX_CALL_ENVELOPE_BYTES : Z := 16 * 1024 * 1024.

Inductive SandboxError :=
| SerializationFailed (e : io_kind)
| InputLimitExceeded (what : string)
| MemoryLimitExceeded (len : Z)
| StateBytes (e : StateBytesError)
| NotCanonical (memory : string)
| EngineFailed (what : string).

Record ProgramInstance := MkInstance {
  mem_shared : option bytes;
  mem_local : option bytes;
  committed_shared : bytes;
  committed_local : bytes }.

(** An engine failure: its text and what it left in the memories. *)
Record Fault := MkFault { fault_text : string; left_shared : option bytes; left_local : option bytes }.

(** Inputs of one dispatch; the signer and the queues are given to local handlers. *)
Record DispatchCall := MkCall {
  dc_peer : PeerId;
  dc_session : Ensemble;
  dc_event : Event;
  dc_outgoing_len : Z;
  dc_signer : option Z;
  dc_direct_queued : list (PeerId * Z);
  dc_attachment : option bytes }.

(** What a call of the guest returned and the host captured. *)
Record GuestReturn := MkReturn {
  gr_rejected : bool;
  gr_reason : option bytes;
  gr_callout : option CalloutRequest;
  gr_effects : list Effect;
  gr_blobs : list BlobChange;
  gr_shared : option bytes;
  gr_local : option bytes }.

Record DispatchCallResult := MkResult {
  dr_rejected : bool;
  dr_reason : option bytes;
  dr_callout : option CalloutRequest;
  dr_shared : option bytes;
  dr_local : option bytes;
  dr_effects : list Effect;
  dr_blobs : list BlobChange }.

(** [DispatchInput]: the peer, the encoded session and the encoded event. *)
Definition c_dispatch_input : codec (PeerId * (bytes * bytes)) :=
  c_pair c_id (c_pair (c_bytes MAX_SESSION_CONTEXT_BYTES) (c_bytes MAX_CALL_PAYLOAD_BYTES)).

Definition serialize {A} (c : codec A) (a : A) : result SandboxError bytes := map_err SerializationFailed (enc c a).
Definition ensure_field (field : string) (b : bytes) (max : Z) : result SandboxError unit :=
  err_if (max <? zlen b) (InputLimitExceeded field).

(** [into_input] with [DispatchInput::try_new], and [encode_envelope]. *)
Definition into_input (call : DispatchCall) : result SandboxError (PeerId * (bytes * bytes)) :=
  let? session := serialize c_ensemble (dc_session call) in
  let? event := serialize c_event (dc_event call) in
  ensure_field "session context" session MAX_SESSION_CONTEXT_BYTES ;;?
  ensure_field "event" event MAX_CALL_PAYLOAD_BYTES ;;?
  Ok (dc_peer call, (session, event)).
Definition encode_envelope {A} (c : codec A) (a : A) : result SandboxError bytes :=
  let? bs := serialize c a in
  ensure_field "encoded call input" bs MAX_CALL_ENVELOPE_BYTES ;;? Ok bs.

#[export] Instance quiet_event : Quiet c_event.
Proof. unfold c_message_event, c_input_event, c_direct_event, c_timer, c_id. intros []; apply variant_quiet; apply _. Qed.

Section Resident.
(** [shared_max_bytes] and the profile's bound on local state. *)
Context (shared_max local_max : Z).

Definition leave (f : Fault) (i : ProgramInstance) : ProgramInstance :=
  MkInstance (left_shared f) (left_local f) (committed_shared i) (committed_local i).

Definition validate_payloads (shared local : bytes) : result SandboxError unit :=
  err_if (shared_max <? zlen shared) (MemoryLimitExceeded (zlen shared)) ;;?
  err_if (local_max <? zlen local) (MemoryLimitExceeded (zlen local)).

(** [restore_payloads]. *)
Definition restore_payloads (fault : option Fault) (shared local : bytes) : M ProgramInstance SandboxError unit :=
  sread (fun _ => validate_payloads shared local) ;;!
  match fault with
  | Some f => smodify (leave f) ;;! sread (fun _ => Err (EngineFailed (fault_text f)))
  | None => smodify (fun _ => MkInstance (Some shared) (Some local) shared local)
  end.

(** [restore_committed]. *)
Definition restore_committed (fault : option Fault) : M ProgramInstance SandboxError unit :=
  match fault with
  | Some f => smodify (leave f) ;;! sread (fun _ => Err (EngineFailed (fault_text f)))
  | None => smodify (fun i => MkInstance (Some (committed_shared i)) (Some (committed_local i))
                                (committed_shared i) (committed_local i))
  end.

(** [LoadedProgram::resident]: a fresh instance, then [restore_payloads]. *)
Definition resident (fault : option Fault) (shared local : bytes) : result SandboxError ProgramInstance :=
  let '(r, i) := restore_payloads fault shared local (MkInstance None None [] []) in
  r ;;? Ok i.

(** [resident_payloads]. *)
Definition payload (memory : string) (max : Z) (m : option bytes) : result SandboxError bytes :=
  let? p := ok_or m (NotCanonical memory) in
  err_if (max <? zlen p) (MemoryLimitExceeded (zlen p)) ;;? Ok p.
Definition resident_payloads (i : ProgramInstance) : result SandboxError (bytes * bytes) :=
  let? s := payload "shared" shared_max (mem_shared i) in
  let? l := payload "local" local_max (mem_local i) in
  let? s := map_err StateBytes (shared_try_new s) in
  let? l := map_err StateBytes (local_try_new l) in
  Ok (s, l).

(** [commit]. *)
Definition commit : M ProgramInstance SandboxError unit :=
  let! p := sread resident_payloads in
  smodify (fun i => MkInstance (mem_shared i) (mem_local i) p.1 p.2).

(** [rollback_error]: the failure of the rollback itself is not reported. *)
Definition rollback_error {A} (fault : option Fault) (e : SandboxError) : M ProgramInstance SandboxError A := fun i =>
  (Err e, (restore_committed fault i).2).

(** [dispatch] and [dispatch_input], with the call of the guest given the live
    payloads; an input that does not encode is refused before the guest runs. *)
Definition dispatch (guest : option bytes -> option bytes -> DispatchCall -> string + GuestReturn)
    (rollback : option Fault) (call : DispatchCall) : M ProgramInstance SandboxError DispatchCallResult :=
  let! input := sread (fun _ => into_input call) in
  let! _ := sread (fun _ => encode_envelope c_dispatch_input input) in
  let! out := sread (fun i => Ok (guest (mem_shared i) (mem_local i) call)) in
  match out with
  | inl e => rollback_error rollback (EngineFailed e)
  | inr g =>
      if gr_rejected g then
        restore_committed rollback ;;!
        sret (MkResult true (gr_reason g) None None None [] [])
      else
        smodify (fun i => MkInstance (gr_shared g) (gr_local g) (committed_shared i) (committed_local i)) ;;!
        (fun i => match resident_payloads i with
                  | Ok (s, l) => (Ok (MkResult false (gr_reason g) (gr_callout g) (Some s) (Some l)
                                        (gr_effects g) (gr_blobs g)), i)
                  | Err e => rollback_error rollback e i
                  | Panic => (Panic, i)
                  end)
  end.

(** ** What the operations leave *)

(** The instance holds [s] and [l], live and as its checkpoint. *)
Definition holds (s l : bytes) (i : ProgramInstance) : Prop :=
  i = MkInstance (Some s) (Some l) s l.
Definition checkpoint (s l : bytes) (i : ProgramInstance) : Prop :=
  committed_shared i = s /\ committed_local i = l.

Lemma holds_checkpoint s l i : holds s l i -> checkpoint s l i.
Proof. by intros ->. Qed.

Lemma restore_committed_holds f s l i i' :
  checkpoint s l i -> restore_committed f i = (Ok tt, i') -> holds s l i'.
Proof. unfold restore_committed. cbv [sbind sread smodify]. intros [<- <-]. destruct f; intros Hr; by simplify_eq/=. Qed.

Lemma restore_committed_noPanic f i : (restore_committed f i).1 <> Panic.
Proof. unfold restore_committed. by destruct f. Qed.

Lemma resident_holds f s l i : resident f s l = Ok i -> holds s l i.
Proof.
  unfold resident, restore_payloads. cbv [sbind sread smodify].
  destruct (validate_payloads s l); [|done|done]. destruct f; simpl; [done|]. by intros [= <-].
Qed.

Lemma validate_payloads_noPanic s l : validate_payloads s l <> Panic.
Proof. unfold validate_payloads, err_if. destruct (shared_max <? _); [done|]. by destruct (local_max <? _). Qed.

Lemma restore_payloads_holds f s l i i' : restore_payloads f s l i = (Ok tt, i') -> holds s l i'.
Proof.
  unfold restore_payloads. cbv [sbind sread smodify]. destruct (validate_payloads s l); [|done|done].
  destruct f; intros Hr; by simplify_eq/=.
Qed.

Lemma restore_payloads_noPanic f s l i : (restore_payloads f s l i).1 <> Panic.
Proof.
  unfold restore_payloads. cbv [sbind sread smodify]. pose proof (validate_payloads_noPanic s l).
  destruct (validate_payloads s l); [|done|done]. by destruct f.
Qed.

Lemma resident_noPanic f s l : resident f s l <> Panic.
Proof.
  unfold resident. pose proof (restore_payloads_noPanic f s l (MkInstance None None [] [])) as Hn.
  destruct (restore_payloads f s l _) as [[u|e|] i]; done.
Qed.

Lemma resident_payloads_Ok i s l :
  resident_payloads i = Ok (s, l) ->
  mem_shared i = Some s /\ mem_local i = Some l /\ zlen s <= MAX_SHARED_STATE_BYTES /\ zlen l <= MAX_LOCAL_STATE_BYTES.
Proof.
  unfold resident_payloads, payload, shared_try_new, local_try_new. intros Hr. inv_ok.
  destruct (MAX_SHARED_STATE_BYTES <? _) eqn:Hs; [done|]. destruct (MAX_LOCAL_STATE_BYTES <? _) eqn:Hl; [done|].
  apply Z.ltb_ge in Hs, Hl. simplify_eq. by split_and!.
Qed.

Lemma resident_payloads_noPanic i : resident_payloads i <> Panic.
Proof.
  unfold resident_payloads, payload, shared_try_new, local_try_new, err_if.
  destruct (mem_shared i); [|done]. cbn [ok_or rbind]. destruct (_ <? _); [done|]. cbn [rbind].
  destruct (mem_local i); [|done]. cbn [ok_or rbind]. destruct (_ <? _); [done|]. cbn [rbind].
  destruct (_ <? _); [done|]. cbn [rbind map_err]. by destruct (_ <? _).
Qed.

(** A dispatch that returned ran on an input that encodes.  An accepted one left the
    returned images over the old checkpoint; a rejected one the checkpoint. *)
Lemma dispatch_Ok g f c s l i r i' :
  checkpoint s l i -> dispatch g f c i = (Ok r, i') ->
  checkpoint s l i' /\ is_ok (enc c_event (dc_event c)) = true /\
  exists x, g (mem_shared i) (mem_local i) c = inr x /\ dr_rejected r = gr_rejected x /\
  if dr_rejected r then holds s l i' /\ dr_shared r = None /\ dr_local r = None
  else exists s' l', dr_shared r = Some s' /\ dr_local r = Some l' /\ mem_shared i' = Some s' /\ mem_local i' = Some l' /\
       dr_effects r = gr_effects x /\ dr_callout r = gr_callout x /\
       zlen s' <= MAX_SHARED_STATE_BYTES /\ zlen l' <= MAX_LOCAL_STATE_BYTES.
Proof.
  intros Hc Hd. unfold dispatch in Hd. apply sbind_Ok in Hd as (inp & i0 & Hi & Hd). apply sread_Ok in Hi as [Hi ->].
  apply sbind_Ok in Hd as (bs & i0 & Hb & Hd). apply sread_Ok in Hb as [_ ->].
  apply sbind_Ok in Hd as (o & i0 & Hg & Hd). apply sread_Ok in Hg as [Hg ->]. injection Hg as <-.
  assert (is_ok (enc c_event (dc_event c)) = true) as He.
  { unfold into_input, serialize in Hi. inv_ok. by match goal with Hx : enc c_event _ = Ok _ |- _ => rewrite Hx end. }
  destruct (g _ _ c) as [e|x] eqn:Hgx; [done|]. destruct (gr_rejected x) eqn:Hrej.
  - apply sbind_Ok in Hd as ([] & i0 & H0 & Hd). apply sret_Ok in Hd as [-> ->].
    pose proof (restore_committed_holds _ _ _ _ _ Hc H0) as Hh. split_and!; try done; [by apply holds_checkpoint..|].
    exists x. by split_and!.
  - apply sbind_Ok in Hd as ([] & i0 & H0 & Hd). apply smodify_Ok in H0 as ->.
    destruct (resident_payloads _) as [[s' l']|e|] eqn:Hp; [|done|done].
    injection Hd as <- <-. apply resident_payloads_Ok in Hp as (H1 & H2 & H3 & H4).
    split_and!; [apply Hc..|done|]. exists x. split_and!; [done|done|]. exists s', l'. by split_and!.
Qed.

Lemma dispatch_noPanic g f c i : (dispatch g f c i).1 <> Panic.
Proof.
  unfold dispatch. cbv [sbind sread smodify sret].
  assert (into_input c <> Panic) as Hi by (unfold into_input, serialize, ensure_field; np).
  destruct (into_input c) as [inp|e|]; [|done|done]. cbn [fst].
  assert (encode_envelope c_dispatch_input inp <> Panic) as He.
  { unfold encode_envelope, serialize, ensure_field. np. }
  destruct (encode_envelope _ inp) as [bs|e|]; [|done|done].
  destruct (g _ _ c) as [e|x]; [done|]. destruct (gr_rejected x).
  - by destruct f.
  - pose proof (resident_payloads_noPanic (MkInstance (gr_shared x) (gr_local x) (committed_shared i) (committed_local i))).
    by destruct (resident_payloads _) as [[? ?]| |].
Qed.

(** Committing what a dispatch left keeps the images. *)
Lemma commit_holds s l i i' :
  mem_shared i = Some s -> mem_local i = Some l -> commit i = (Ok tt, i') -> holds s l i'.
Proof.
  intros Hs Hl Hc. unfold commit in Hc. apply sbind_Ok in Hc as ([s' l'] & i0 & Hp & Hc). apply sread_Ok in Hp as [Hp ->].
  apply smodify_Ok in Hc as ->. apply resident_payloads_Ok in Hp as (Hs' & Hl' & _). simplify_eq. unfold holds. by rewrite Hs, Hl.
Qed.

Lemma commit_noPanic i : (commit i).1 <> Panic.
Proof.
  unfold commit. cbv [sbind sread smodify]. pose proof (resident_payloads_noPanic i). by destruct (resident_payloads i).
Qed.
End Resident.
