(* ===== verification/Absorbing.v ===== *)
(** * What an acknowledged frame left behind (protocol/src/execution/state.rs)

    [absorbed s source f]: the state [s] holds everything the frame [f] of [source]
    can bring, because it is applied, staged, overtaken or the execution is over.
    No operation takes that back, so a sender that was acknowledged from such a
    state never has to send the frame again.  Also what single operations do to the
    images, the staged proposal and the lanes. *)

From S2P Require Import Prelude Borsh Crypto Session Trace Negotiation Evidence Validation Receipt Frame.
From S2P Require Import Execution Invariant History Publish Fixture Guarantees Consistency.

#[local] Open Scope Z_scope.

Section Absorbing.
Context `{Crypto}.

(** The staged proposal commits to [k]. *)
Definition stages (s : ExecutionState) (k : StepCommitment) : bool :=
  match proposal_commitment s with
  | Ok (Some k') => bool_decide (k' = k)
  | _ => false
  end.

Definition applied_seq (s : ExecutionState) (from : PeerId) : Z :=
  match direct s !! from with Some l => last_applied l | None => 0 end.

Definition absorbed (s : ExecutionState) (source : PeerId) (f : ExecFrame) : bool :=
  is_terminal (status s) ||
  match f with
  | FMessage k data =>
      (c_step k <? agreed_step s) ||
      match proposal s with
      | Some p => stages s k && bool_decide (event (entry p) = StepMessage source data)
      | None => false
      end
  | FStepSignature k z =>
      (c_step k <? agreed_step s) ||
      match proposal s with
      | Some p => stages s k && bool_decide (MkPSig source (MkStepSig (c_step k) z) ∈ signatures p)
      | None => false
      end
  | FStepCertificate c => c_step (commitment c) <? agreed_step s
  | FDirect seq _ _ => seq <=? applied_seq s source
  | FAbort o => next_step (ab_coordinate o) <? agreed_step s
  end.

(** ** Direct lanes *)

Lemma arrival_duplicate s from seq : direct_arrival s from seq = Duplicate <-> seq <= applied_seq s from.
Proof.
  unfold direct_arrival, applied_seq. destruct (Z.leb_spec seq match direct s !! from with Some l => last_applied l | None => 0 end);
    [done|]. destruct (opt_eqb _ _); split; done || lia.
Qed.

Lemma queue_direct_applied s m effects m' p :
  queue_direct s m effects = Ok m' ->
  match m' !! p with Some l => last_applied l | None => 0 end = match m !! p with Some l => last_applied l | None => 0 end.
Proof.
  unfold queue_direct. revert m. induction effects as [|e l IH]; intros m Hq; [by injection Hq as <-|].
  cbn [try_fold] in Hq. apply rbind_Ok in Hq as (m1 & H1 & Hq). rewrite (IH _ Hq). destruct e; try (by injection H1 as <-).
  inv_ok. destruct (decide (to = p)) as [->|Hne]; [|by rewrite lookup_insert_ne].
  rewrite lookup_insert_eq. simpl. by destruct (m !! p).
Qed.

Lemma begin_end_applied s p : applied_seq (begin_end s) p = applied_seq s p.
Proof.
  destruct (begin_end_cases s) as [->|(_ & _ & ->)]; [done|]. unfold applied_seq. cbn [direct set_direct set_end_phase].
  rewrite lookup_fmap. by destruct (direct s !! p).
Qed.

Lemma certified_applied s p cert c s' : certify_step cert s = (Ok c, s') -> applied_seq s' p = applied_seq s p.
Proof.
  intros (q & next & bytes & _ & _ & _ & ->)%certify_step_Ok. unfold certified_state.
  etransitivity; [apply (begin_end_applied _ p)|]. done.
Qed.

Lemma run_op_applied op s r s' p : wf s -> run_op op s = (Ok r, s') -> applied_seq s p <= applied_seq s' p.
Proof.
  intros Hw Hr. destruct op as [|e sh lo ef ou pid rq| |sg|cert|o|a|from seq|to seq|peer|]; apply answer_Ok in Hr as (a' & Hr & ->).
  - unfold activate in Hr. inv_ok.
    match goal with Hb : bump_version _ = _ |- _ => apply bump_version_Ok in Hb as [_ ->] end. unfold applied_seq. simpl. lia.
  - unfold apply_dispatch in Hr. inv_ok.
    match goal with Hi : indexed_dispatch_effects _ = Ok _ |- _ => apply indexed_dispatch_effects_Ok in Hi as -> end.
    repeat match goal with u : unit |- _ => destruct u end. destruct (negb (is_agreed_event e)).
    + unfold apply_local in Hr. inv_ok.
      match goal with Hi : install_dispatch _ _ _ _ _ _ _ _ = _ |- _ =>
        apply install_dispatch_wf in Hi as (_ & _ & ->); [|done|done] end.
      match goal with Hq : queue_direct _ _ _ = Ok _ |- _ => apply (queue_direct_applied _ _ _ _ p) in Hq end.
      unfold applied_seq. simpl. lia.
    + unfold apply_agreed in Hr. inv_ok.
      match goal with Hp : proposal_new _ _ _ _ _ _ _ _ _ = Ok _ |- _ => apply proposal_new_Ok in Hp as (-> & Hout & Hco) end.
      match goal with Hs : stage_proposal _ _ = _ |- _ => apply stage_proposal_wf in Hs
        as (_ & _ & _ & ->); [|done|by apply kept_effects_valid|done|done] end. unfold applied_seq. simpl. lia.
  - unfold drop_outgoing_head in Hr. inv_ok.
    match goal with Hb : bump_version _ = _ |- _ => apply bump_version_Ok in Hb as [_ ->] end. unfold applied_seq. simpl. lia.
  - destruct (add_step_signature_Ok s sg a' s' Hw Hr)
      as (q & k & Hq & _ & _ & _ & [(-> & _ & _ & ->)|(cert & c & -> & _ & _ & Hc)]); [done|].
    rewrite (certified_applied _ p _ _ _ Hc). done.
  - by rewrite (certified_applied _ p _ _ _ Hr).
  - unfold stop, stopped in Hr. inv_ok.
    match goal with Hb : bump_version _ = _ |- _ => apply bump_version_Ok in Hb as [_ ->] end.
    change (applied_seq s p <= applied_seq (begin_end (set_status (Stopped (Authenticated o)) (set_callout None (set_proposal None s)))) p).
    by rewrite begin_end_applied.
  - unfold publish_receipt in Hr. inv_ok.
    match goal with Hb : bump_version _ = _ |- _ => apply bump_version_Ok in Hb as [_ ->] end. done.
  - unfold record_direct, direct_arrival in Hr. inv_ok. unfold applied_seq. cbn [direct set_direct set_version].
    destruct (decide (from = p)) as [->|Hne]; [|by rewrite lookup_insert_ne]. rewrite lookup_insert_eq. simpl.
    destruct (Z.leb_spec seq match direct s !! p with Some l => last_applied l | None => 0 end); [done|lia].
  - unfold ack_direct in Hr. inv_ok. destruct (negb _); inv_ok; [done|]. unfold applied_seq. cbn [direct set_direct set_version].
    destruct (decide (to = p)) as [->|Hne]; [|by rewrite lookup_insert_ne]. rewrite lookup_insert_eq. simpl.
    by match goal with Hl : direct s !! p = Some _ |- _ => rewrite Hl end.
  - unfold confirm_end in Hr. inv_ok. destruct (end_phase s); [by inv_ok|..]; (destruct (negb _); inv_ok; [done|]);
      by match goal with Hb : bump_version _ = _ |- _ => apply bump_version_Ok in Hb as [_ ->] end.
  - unfold expire_end in Hr. inv_ok.
    by match goal with Hb : bump_version _ = _ |- _ => apply bump_version_Ok in Hb as [_ ->] end.
Qed.

(** ** Staged proposals *)

(** Certification installs the staged images. *)
Lemma certify_fields s cert c s' :
  certify_step cert s = (Ok c, s') ->
  exists p, proposal s = Some p /\ shared_state s' = pr_shared_state p /\ status s' = pr_status p /\ proposal s' = None /\
    c = set_entry p (with_agreement (entry p) (cert_agreement cert)) /\ agreed_step s' = agreed_step s + 1.
Proof.
  intros Hc. pose proof (certify_step_advances _ _ _ _ Hc) as [Ha _].
  apply certify_step_Ok in Hc as (p & next & bytes & [Hp _ _ _ _] & He & _ & ->).
  destruct (certified_state_fields s p cert next bytes) as [? ? ? ? ? ? ? F8 F9 ? F11].
  exists p. split_and!; [exact Hp|exact F8|exact F9|exact F11|exact He|exact Ha].
Qed.

Lemma staged_signatures s p op r s' p' :
  wf s -> proposal s = Some p -> run_op op s = (Ok r, s') -> proposal s' = Some p' -> signatures p ⊆ signatures p'.
Proof.
  intros Hw Hp Hr Hp'. destruct op as [|e sh lo ef ou pid rq| |sg|cert|o|a|from seq|to seq|peer|];
    try (pose proof (fun Hi => side_ops_proposal _ s r s' Hi Hr) as Hprop; specialize (Hprop I);
         assert (p' = p) as -> by congruence; done);
    apply answer_Ok in Hr as (a' & Hr & ->).
  - unfold activate in Hr. inv_ok. by rewrite Hp in *.
  - unfold apply_dispatch in Hr. inv_ok. by rewrite Hp in *.
  - unfold drop_outgoing_head in Hr. inv_ok. by rewrite Hp in *.
  - destruct (add_step_signature_Ok s sg a' s' Hw Hr)
      as (q & k & Hq & _ & _ & _ & [(-> & _ & _ & ->)|(cert & c & -> & _ & _ & Hc)]).
    + cbn in Hp'. assert (q = p) as -> by congruence. injection Hp' as <-. cbn [signatures set_signatures].
      rewrite sort_key_Permutation. set_solver.
    + apply certify_fields in Hc as (q' & _ & _ & _ & Hn & _). congruence.
  - apply certify_fields in Hr as (q' & _ & _ & _ & Hn & _). congruence.
  - unfold stop, stopped in Hr. inv_ok.
    match goal with Hb : bump_version _ = _ |- _ => apply bump_version_Ok in Hb as [_ ->] end. simpl in Hp'.
    match type of Hp' with proposal (begin_end ?x) = _ => by destruct (begin_end_cases x) as [E|(_ & _ & E)]; rewrite E in Hp' end.
  - unfold publish_receipt in Hr. inv_ok.
    match goal with Hb : bump_version _ = _ |- _ => apply bump_version_Ok in Hb as [_ ->] end. simpl in Hp'.
    assert (p' = p) as -> by congruence. done.
Qed.


Lemma stages_Some s k :
  stages s k = true <-> exists p, proposal s = Some p /\ commitment_for (E:=ProtocolError) s p = Ok k.
Proof.
  unfold stages, proposal_commitment. destruct (proposal s) as [p|]; [|split; [done|by intros (? & ? & _)]].
  split.
  - destruct (commitment_for s p) as [k'|e|] eqn:Hk; [|done..]. simpl. intros ->%bool_decide_eq_true. eauto.
  - intros (p' & [= <-] & ->). simpl. by apply bool_decide_eq_true.
Qed.

Lemma staged_commitment {E} s p : wf s -> proposal s = Some p -> exists k, commitment_for (E:=E) s p = Ok k.
Proof.
  intros Hw Hp. destruct (wf_pending s p Hw Hp) as [_ Hc]. apply check_pending_Ok in Hc as (_ & _ & _ & Hv & _).
  unfold validate_proposal in Hv. apply rbind_Ok in Hv as (k & Hst & _). apply validate_staged_Ok in Hst.
  pose proof (sf_commit _ _ _ _ _ Hst) as Hk. apply for_entry_Ok in Hk as (h & Hh & ->). unfold commitment_for, for_entry.
  unfold entry_hash in *. inv_ok. match goal with Hx : enc _ _ = Ok _ |- _ => rewrite Hx end. eexists. reflexivity.
Qed.

Lemma proposal_commitment_Ok s :
  wf s -> exists o, proposal_commitment s = Ok o /\ (is_some o = is_some (proposal s)) /\ forall k, o = Some k <-> stages s k = true.
Proof.
  intros Hw. unfold stages, proposal_commitment. destruct (proposal s) as [p|] eqn:Hp.
  - destruct (staged_commitment (E:=ProtocolError) s p Hw Hp) as [k ->]. exists (Some k). split_and!; [done|done|].
    intros k'. simpl. rewrite bool_decide_eq_true. split; [by intros [= ->]|by intros ->].
  - exists None. split_and!; [done|done|]. by intros k.
Qed.

(** A step keeps a staged commitment, or makes it past. *)
Lemma stages_kept s k op r s' :
  wf s -> stages s k = true -> run_op op s = (Ok r, s') ->
  is_terminal (status s') = true \/ c_step k < agreed_step s' \/
  (stages s' k = true /\ exists p p', proposal s = Some p /\ proposal s' = Some p' /\ entry p' = entry p /\
    signatures p ⊆ signatures p').
Proof.
  intros Hw (p & Hp & Hk)%stages_Some Hr. pose proof (staged_coordinate s p k Hw Hp Hk) as Hc.
  destruct (staged_step s p op r s' Hw Hp Hr) as [Hb [(p' & Hp' & He & Hcu)|[Ha|Ht]]]; [|right; left; lia|by left].
  right. right. split.
  - apply stages_Some. exists p'. split; [done|]. unfold commitment_for in *. injection Hcu as _ _ Hl. congruence.
  - exists p, p'. split_and!; try done. by eapply staged_signatures.
Qed.

Lemma absorbed_op s source f op r s' :
  wf s -> absorbed s source f = true -> run_op op s = (Ok r, s') -> absorbed s' source f = true.
Proof.
  intros Hw Ha Hr. unfold absorbed in *. destruct (op_monotone op s r s' Hw Hr) as [_ Hm].
  destruct (is_terminal (status s)) eqn:Ht.
  { destruct (terminal_step s s' op r Hw Ht Hr) as [-> _]. done. }
  cbn [orb] in Ha. apply orb_true_iff. destruct f as [k data|k z|o|c|seq m att].
  - apply orb_true_iff in Ha as [Ha|Ha]; [right; lia|]. destruct (proposal s) as [p|] eqn:Hp; [|done].
    apply andb_true_iff in Ha as [Hk He]. apply bool_decide_eq_true in He.
    destruct (stages_kept s k op r s' Hw Hk Hr) as [?|[?|(Hk' & q & p' & Hq & Hp' & Hee & _)]]; [by left|right; lia|right].
    rewrite Hp', Hk'. assert (q = p) as -> by congruence. rewrite Hee, He. rewrite bool_decide_true by done. by rewrite orb_true_r.
  - apply orb_true_iff in Ha as [Ha|Ha]; [right; lia|]. destruct (proposal s) as [p|] eqn:Hp; [|done].
    apply andb_true_iff in Ha as [Hk He]. apply bool_decide_eq_true in He.
    destruct (stages_kept s k op r s' Hw Hk Hr) as [?|[?|(Hk' & q & p' & Hq & Hp' & _ & Hs)]]; [by left|right; lia|right].
    rewrite Hp', Hk'. assert (q = p) as -> by congruence. rewrite bool_decide_true by (by apply Hs). by rewrite orb_true_r.
  - right. lia.
  - right. lia.
  - right. pose proof (run_op_applied op s r s' source Hw Hr). lia.
Qed.

Lemma absorbed_steps s tr s' source f :
  reach s tr -> rtc op_step s s' -> absorbed s source f = true -> absorbed s' source f = true.
Proof.
  intros Hr Hs. revert tr Hr. induction Hs as [s|s s1 s2 (op & r & Hop & Ho) _ IH]; intros tr Hr Ha; [done|].
  apply (IH (tr ++ logged r)); [by eapply reach_op|]. eapply absorbed_op; [apply (tr_wf _ _ (reach_traced _ _ Hr))|done|done].
Qed.

(** ** Single operations *)

Lemma staged_not_activating s p : wf s -> proposal s = Some p -> pr_status p <> Activating.
Proof.
  intros Hw Hp. destruct (wf_pending s p Hw Hp) as [_ Hc]. apply check_pending_Ok in Hc as (_ & _ & _ & Hv & _).
  unfold validate_proposal in Hv. apply rbind_Ok in Hv as (k & Hst & _). apply validate_staged_Ok in Hst.
  by destruct (staged_status _ _ _ _ _ Hst) as [->|Ht]; [|intros E; rewrite E in Ht].
Qed.

(** An activated execution stays so. *)
Lemma started_op op s r s' : wf s -> status s <> Activating -> run_op op s = (Ok r, s') -> status s' <> Activating.
Proof.
  intros Hw Hst Hr. destruct op as [|e sh lo ef ou pid rq| |sg|cert|o|a|from seq|to seq|peer|];
    try (pose proof (fun Hi => side_ops_same _ s r s' Hi Hr) as Hside; destruct (Hside I) as (_ & -> & _); done);
    apply answer_Ok in Hr as (a' & Hr & ->).
  - by apply activate_same in Hr as (_ & ? & _).
  - apply apply_dispatch_same in Hr as (_ & -> & _); done.
  - destruct (add_step_signature_Ok s sg a' s' Hw Hr)
      as (q & k & Hq & _ & _ & Hw1 & [(-> & _ & _ & ->)|(cert & c & -> & _ & _ & Hc)]); [done|].
    apply certify_fields in Hc as (q' & Hq' & _ & -> & _). by apply (staged_not_activating _ q' Hw1).
  - apply certify_fields in Hr as (q' & Hq' & _ & -> & _). by apply (staged_not_activating _ q' Hw).
  - by apply stop_same in Hr as (_ & _ & -> & _).
  - apply publish_same in Hr as (_ & _ & _ & [(o & _ & ->)|(c & _ & ->)]); done.
Qed.

Lemma started_steps s tr s' : reach s tr -> rtc op_step s s' -> status s <> Activating -> status s' <> Activating.
Proof.
  intros Hr Hs. revert tr Hr. induction Hs as [s|s s1 s2 (op & r & Hop & Ho) _ IH]; intros tr Hr Ha; [done|].
  apply (IH (tr ++ logged r)); [by eapply reach_op|]. eapply started_op; [apply (tr_wf _ _ (reach_traced _ _ Hr))|done|done].
Qed.

Lemma begin_end_images s : shared_state (begin_end s) = shared_state s /\ local_state (begin_end s) = local_state s.
Proof. by destruct (begin_end_cases s) as [->|(_ & _ & ->)]. Qed.

(** Only a dispatch and a certification replace the images. *)
Definition keeps_images (op : Op) : bool :=
  match op with OpDispatch _ _ _ _ _ _ _ | OpSign _ | OpCertify _ => false | _ => true end.
Lemma images_kept op s r s' :
  keeps_images op = true -> run_op op s = (Ok r, s') -> shared_state s' = shared_state s /\ local_state s' = local_state s.
Proof.
  intros Hk Hr. destruct op; try done; apply answer_Ok in Hr as (a' & Hr & ->).
  - unfold activate in Hr. inv_ok. by match goal with Hb : bump_version _ = _ |- _ => apply bump_version_Ok in Hb as [_ ->] end.
  - unfold drop_outgoing_head in Hr. inv_ok. by match goal with Hb : bump_version _ = _ |- _ => apply bump_version_Ok in Hb as [_ ->] end.
  - unfold stop, stopped in Hr. inv_ok.
    match goal with Hb : bump_version _ = _ |- _ => apply bump_version_Ok in Hb as [_ ->] end.
    by destruct (begin_end_images (set_status (Stopped (Authenticated o)) (set_callout None (set_proposal None s)))).
  - unfold publish_receipt in Hr. inv_ok. by match goal with Hb : bump_version _ = _ |- _ => apply bump_version_Ok in Hb as [_ ->] end.
  - unfold record_direct in Hr. by inv_ok.
  - unfold ack_direct in Hr. inv_ok. by destruct (negb _); inv_ok.
  - unfold confirm_end in Hr. inv_ok. destruct (end_phase s); [by inv_ok|..]; (destruct (negb _); inv_ok; [done|]);
      by match goal with Hb : bump_version _ = _ |- _ => apply bump_version_Ok in Hb as [_ ->] end.
  - unfold expire_end in Hr. inv_ok. by match goal with Hb : bump_version _ = _ |- _ => apply bump_version_Ok in Hb as [_ ->] end.
Qed.

(** A signature below the threshold keeps the images. *)
Lemma unsigned_images sg s s' :
  wf s -> add_step_signature sg s = (Ok None, s') -> shared_state s' = shared_state s /\ local_state s' = local_state s.
Proof.
  intros Hw Hr. by destruct (add_step_signature_Ok s sg None s' Hw Hr)
    as (q & k & Hq & _ & _ & _ & [(_ & _ & _ & ->)|(cert & c & ? & _)]).
Qed.

(** A signature is kept, or the step is certified. *)
Lemma signature_recorded sg s r s' :
  wf s -> add_step_signature sg s = (Ok r, s') ->
  exists p k, proposal s = Some p /\ commitment_for (E:=ProtocolError) s p = Ok k /\
    match r with
    | Some c => agreed_step s' = agreed_step s + 1
    | None => exists p', proposal s' = Some p' /\ sg ∈ signatures p' /\ commitment_for (E:=ProtocolError) s' p' = Ok k
    end.
Proof.
  intros Hw Hr. destruct (add_step_signature_Ok s sg r s' Hw Hr)
    as (p & k & Hp & Hk & _ & _ & [(-> & _ & _ & ->)|(cert & c & -> & _ & _ & Hc)]); exists p, k; split_and!; try done.
  - eexists. split_and!; [done| |exact Hk]. cbn [signatures set_signatures]. rewrite sort_key_Permutation. set_solver.
  - by apply certify_step_advances in Hc as [-> _].
Qed.

(** An agreed event is staged over the old images, a local one installs its own. *)
Lemma dispatch_shape s e sh lo ef o pid rq r s' :
  wf s -> apply_dispatch e sh lo ef o pid rq s = (Ok r, s') ->
  proposal s = None /\ status s = Active /\ status s' = Active /\ binding s' = binding s /\ producer s' = producer s /\
  if is_agreed_event e
  then exists p, proposal s' = Some p /\ trace_event e = Ok (event (entry p)) /\
         shared_state s' = shared_state s /\ local_state s' = local_state s
  else proposal s' = None /\ shared_state s' = sh /\ local_state s' = lo.
Proof.
  intros Hw Ho. assert (status s = Active /\ status s' = Active /\ binding s' = binding s) as (H1 & H2 & H3).
  { apply apply_dispatch_same in Ho as ([Hb _ _] & Hs & Ha & _); [|done]. by destruct (status s). }
  unfold apply_dispatch in Ho. inv_ok.
  match goal with Hi : indexed_dispatch_effects _ = Ok _ |- _ => apply indexed_dispatch_effects_Ok in Hi as -> end.
  repeat match goal with u : unit |- _ => destruct u end.
  assert (proposal s = None) as Hn by (by destruct (proposal s)).
  destruct (is_agreed_event e) eqn:He; cbn [negb] in Ho.
  - unfold apply_agreed in Ho. inv_ok.
    match goal with Hp : proposal_new _ _ _ _ _ _ _ _ _ = Ok _ |- _ => apply proposal_new_Ok in Hp as (-> & Hout & Hco) end.
    match goal with Hs : stage_proposal _ _ = _ |- _ => apply stage_proposal_wf in Hs
      as (_ & _ & _ & ->); [|done|by apply kept_effects_valid|done|done] end.
    split_and!; try done. eexists. split_and!; [done| |done|done]. cbn [entry event]. done.
  - unfold apply_local in Ho. inv_ok.
    match goal with Hi : install_dispatch _ _ _ _ _ _ _ _ = _ |- _ =>
      apply install_dispatch_wf in Hi as (_ & _ & ->); [|done|done] end. by split_and!.
Qed.

(** A recorded direct frame is a duplicate from then on. *)
Lemma direct_recorded from seq s u s' : record_direct from seq s = (Ok u, s') -> applied_seq s' from = seq.
Proof.
  unfold record_direct. intros Hr. inv_ok. unfold applied_seq. cbn [direct set_direct set_version]. by rewrite lookup_insert_eq.
Qed.

Lemma head_dropped s u s' :
  drop_outgoing_head s = (Ok u, s') -> (length (outgoing s') < length (outgoing s))%nat.
Proof.
  unfold drop_outgoing_head. intros Hr. inv_ok.
  match goal with Hb : bump_version _ = _ |- _ => apply bump_version_Ok in Hb as [_ ->] end. cbn [outgoing set_outgoing set_version].
  rewrite length_drop. match goal with Hz : (zlen (outgoing s) =? 0) = false |- _ => apply Z.eqb_neq in Hz; unfold zlen in Hz end. lia.
Qed.

(** The end phase is open exactly while the execution runs. *)
Lemma open_running s : wf s -> end_phase s = Open <-> is_terminal (status s) = false.
Proof.
  intros Hw. pose proof (rf_end _ (wf_recovered _ Hw)) as He. unfold validate_end in He.
  destruct (end_phase s), (is_terminal (status s)); cbn in He; split; done.
Qed.
End Absorbing.
