(* ===== verification/Actor.v ===== *)
(** * The execution actor (node/src/execution)

    One actor owns an execution: its state in memory, the resident guest, the send
    lanes to its peers and the writer of the store.  [actor.rs] (startup, recovery,
    progress, the end timer, persistence), [guest.rs] (dispatches and step
    signatures), [delivery.rs] (frames in and out) and [terminal.rs] (stops and
    publication) are translated handler by handler.

    The actor runs in a [World] with the database and a log of what it did; an entry
    of the log keeps the state of the actor and the database at that moment.  The
    store's calls are those of [Store] and [Registry] on the database; other users
    of the connection act in between ([interfere]), transactions fail as in
    [Database], a panic closes the connection.  Clocks, the guest and the observer
    answer from outside ([Surroundings]).  The select loop runs over the inputs it
    takes; a send task is an entry of [a_tasks] until an input settles it. *)

From S2P Require Import Prelude Book Borsh Crypto Session Trace Negotiation Evidence Validation Receipt Frame Execution.
From S2P Require Import Publish StateCodec Envelope ChangeLog Database Persist Store Registry Resident.

#[local] Open Scope Z_scope.

Definition PROGRESS_INTERVAL : Z := 50.
Definition MAX_TIMER_BATCH : nat := 16.

(** ** Errors (node/src/context.rs) *)

(** Why the guest's handler was not applied. *)
Inductive RejectReason :=
| ByProgram (reason : option bytes)
| Trapped (handler : string) (e : SandboxError)
| ByProtocol (e : ProtocolError).

Inductive Divergence :=
| DivRejected (step : Z) (reason : RejectReason)
| DivProtocol (step : Z) (e : ProtocolError)
| DivCommitment (step : Z) (cause : string).

Inductive ExecError :=
| NotFound (id : ExecId)
| CalloutNotPending
| InputRejected (reason : RejectReason)
| Diverged (d : Divergence)
| OutgoingQueueOverflow
| BudgetExhausted (step : Z)
| AgreementPending
| InvalidState (what : string)
| InvalidProtocol (e : ProtocolError)
| InvalidEncoding (e : io_kind)
| DeliveryInvariant (what : string)
| Unavailable (what : string)
| SandboxUnavailable (e : SandboxError)
| StoreUnavailable (e : StoreError).

(** [From<ProtocolError>] and [From<StoreError>]. *)
Definition from_protocol (e : ProtocolError) : ExecError :=
  match e with ReceiptBudgetExhausted step => BudgetExhausted step | _ => InvalidProtocol e end.
Definition from_store (e : StoreError) : ExecError :=
  match e with Protocol (ReceiptBudgetExhausted step) => BudgetExhausted step | _ => StoreUnavailable e end.

(** [truncate_reason]: [String::pop] drops the last scalar value, its lead byte and
    the continuation bytes after it. *)
Definition is_continuation (b : Z) : bool := (128 <=? b) && (b <? 192).
Fixpoint pop_rev (l : bytes) : bytes :=
  match l with
  | [] => []
  | b :: l => if is_continuation b then pop_rev l else l
  end.
Definition pop (s : bytes) : bytes := reverse (pop_rev (reverse s)).
Fixpoint truncate_fuel (n : nat) (limit : Z) (s : bytes) : bytes :=
  match n with
  | O => s
  | S n => if limit <? zlen s then truncate_fuel n limit (pop s) else s
  end.
Definition truncate_reason (limit : Z) (s : bytes) : bytes := truncate_fuel (length s) limit s.

(** ** The actor's state *)

Inductive EndTimerPhase := TimerEnding | TimerEnded.
#[global] Instance EndTimerPhase_eq_dec : EqDecision EndTimerPhase.
Proof. solve_decision. Defined.
Record EndTimer := MkEndTimer { et_version : Z; et_phase : EndTimerPhase; et_deadline : Z }.

(** A kept stream handle is [true]. *)
Record SendLane := MkSendLane {
  l_handle : bool;
  l_acked : gset Z;
  l_rejected : gset Z;
  l_busy : bool;
  l_suppressed : bool;
  l_retry_at : option Z;
  l_direct_retry_at : option Z }.
Definition send_lane_default : SendLane := MkSendLane false ∅ ∅ false false None None.

Inductive Sent := SentProtocol (digest : Z) | SentDirect (seq : Z).

(** [Result<(), TransportError>] of a send; an answer of the peer returns the handle. *)
Inductive SendOutcome :=
| SendAccepted
| SendRejected
| SendConflict
| SendNotYet
| SendFailed.

(** How a send task ended: its result, a failure to read the attachment, a panic. *)
Inductive TaskOutcome := TaskSent (o : SendOutcome) | TaskUnprepared (e : ExecError) | TaskLost.

Inductive ExecDeliveryRejection := Conflict | NotYet | Rejected.

Inductive SessionMessage :=
| EndChanged (e : EndPhase)
| TraceAppended (step : Z)
| SessionStartedMsg (session : SessionHash) (ensemble : Ensemble)
| CalloutRequested (pending_id index : Z) (context : bytes)
| ReceiptPublished (a : ReceiptArtifact)
| CompletedMsg (result : bytes) (json : option bytes)
| AbortedMsg (step : Z) (reason : bytes)
| FailedMsg (reason : bytes).

Record Actor := MkActor {
  a_state : ExecutionState;
  a_instance : option ProgramInstance;
  a_lanes : gmap Z SendLane;
  a_tasks : list (PeerId * Sent);
  a_end_timer : option EndTimer;
  a_started_emitted : bool;
  a_terminal_emitted : bool;
  a_announced : option Z }.

(** What the actor does outside itself; [EnterDispatch] is a dispatch with the memories
    it finds.  Initialization, outcome and query projections run on a scratch instance
    and leave no entry. *)
Inductive Action :=
| EnterDispatch (shared local : option bytes) (call : DispatchCall)
| SpawnSend (to : PeerId) (frame : ExecFrame)
| SpawnDirect (to : PeerId) (entry : DirectEntry)
| Acknowledge (source : PeerId) (frame : ExecFrame)
| Reject (source : PeerId) (frame : ExecFrame) (r : ExecDeliveryRejection)
| Observe (m : SessionMessage)
| ReplyInput (r : result ExecError unit)
| ReplyTerminate (r : result ExecError unit)
| ReplyQuery (r : result ExecError bytes).

(** An action with the actor's state and the database it was taken in. *)
Record Seen := MkSeen { seen_state : ExecutionState; seen_db : Database; seen_dead : bool; seen_action : Action }.

Record World := MkWorld {
  actor : Actor;
  db : Database;
  dead : bool;
  tick : nat;
  log : list Seen }.

(** What never changes for one actor. *)
Record ActorContext := MkContext {
  ctx_exec : ExecId;
  ctx_params : bytes;
  ctx_activation : Activation;
  ctx_program : Z;
  ctx_profile : Z;
  ctx_window : Z }.

(** What the world answers at the n-th question. *)
Record Surroundings := MkSurroundings {
  unix_ms : nat -> Z;
  instant : nat -> Z;
  interfere : nat -> Database -> Database;
  other_panics : nat -> bool;
  tx_faults : nat -> Faults;
  read_fault : nat -> option StoreError;
  observer_open : nat -> bool;
  engine_fault : nat -> option Fault;
  guest : nat -> option bytes -> option bytes -> DispatchCall -> string + GuestReturn;
  guest_outcome : nat -> bytes -> SandboxError + (bytes * bytes);
  guest_query : nat -> bytes -> Z -> bytes -> SandboxError + bytes;
  guest_initialize : nat -> bytes -> SandboxError + (bytes * bytes);
  shared_max : Z;
  local_max : Z }.

Definition AM : Type -> Type := M World ExecError.

Definition set_state s a := MkActor s (a_instance a) (a_lanes a) (a_tasks a) (a_end_timer a)
  (a_started_emitted a) (a_terminal_emitted a) (a_announced a).
Definition set_instance i a := MkActor (a_state a) i (a_lanes a) (a_tasks a) (a_end_timer a)
  (a_started_emitted a) (a_terminal_emitted a) (a_announced a).
Definition set_lanes l a := MkActor (a_state a) (a_instance a) l (a_tasks a) (a_end_timer a)
  (a_started_emitted a) (a_terminal_emitted a) (a_announced a).
Definition set_tasks t a := MkActor (a_state a) (a_instance a) (a_lanes a) t (a_end_timer a)
  (a_started_emitted a) (a_terminal_emitted a) (a_announced a).
Definition set_end_timer t a := MkActor (a_state a) (a_instance a) (a_lanes a) (a_tasks a) t
  (a_started_emitted a) (a_terminal_emitted a) (a_announced a).
Definition set_started a := MkActor (a_state a) (a_instance a) (a_lanes a) (a_tasks a) (a_end_timer a)
  true (a_terminal_emitted a) (a_announced a).
Definition set_terminal a := MkActor (a_state a) (a_instance a) (a_lanes a) (a_tasks a) (a_end_timer a)
  (a_started_emitted a) true (a_announced a).
Definition set_announced c a := MkActor (a_state a) (a_instance a) (a_lanes a) (a_tasks a) (a_end_timer a)
  (a_started_emitted a) (a_terminal_emitted a) c.

(** ** Primitive effects *)

Definition get {A} (f : Actor -> A) : AM A := sread (fun w => Ok (f (actor w))).
Definition put (f : Actor -> Actor) : AM unit :=
  smodify (fun w => MkWorld (f (actor w)) (db w) (dead w) (tick w) (log w)).
Definition act (x : Action) : AM unit :=
  smodify (fun w => MkWorld (actor w) (db w) (dead w) (tick w)
                      (log w ++ [MkSeen (a_state (actor w)) (db w) (dead w) x])).
Definition ask {A} (f : nat -> A) : AM A := fun w =>
  (Ok (f (tick w)), MkWorld (actor w) (db w) (dead w) (S (tick w)) (log w)).
Definition lift {A} (r : result ExecError A) : AM A := sread (fun _ => r).
Definition throw {A} (e : ExecError) : AM A := lift (Err e).
Definition when (b : bool) (m : AM unit) : AM unit := if b then m else sret tt.
(** The result as a value; a panic unwinds. *)
Definition try_ {A} (m : AM A) : AM (result ExecError A) := fun w =>
  match m w with
  | (Panic, w') => (Panic, w')
  | (r, w') => (Ok r, w')
  end.
(** An operation on a clone of the state. *)
Definition on_copy {A} (m : M ExecutionState ProtocolError A) : AM (result ProtocolError A * ExecutionState) := fun w =>
  match m (a_state (actor w)) with
  | (Panic, _) => (Panic, w)
  | (r, s) => (Ok (r, s), w)
  end.
(** The same with [?]. *)
Definition transition {A} (m : M ExecutionState ProtocolError A) : AM (A * ExecutionState) :=
  let! p := on_copy m in
  let! a := lift (map_err from_protocol p.1) in
  sret (a, p.2).

Section Actor.
Context `{Crypto, LocalKeys} (ctx : ActorContext) (env : Surroundings).
(** The text of an error, as its [Display] writes it. *)
Context (display : ExecError -> bytes).

(** ** The store handle (store/src/lib.rs) *)

(** [StoreHandle::run]: a panic inside poisons the lock, and every later call of
    anyone answers [Closed]. *)
Definition store_run {A} (m : nat -> db_op A) : AM A := fun w =>
  let n := tick w in
  let closed b := (Err (from_store Closed), MkWorld (actor w) b true (S n) (log w)) in
  if dead w then closed (db w) else
  let b := interfere env n (db w) in
  if other_panics env n then closed b else
  if poisoned b then (Err (from_store Closed), MkWorld (actor w) b false (S n) (log w)) else
  match m n b with
  | (Ok a, b') => (Ok a, MkWorld (actor w) b' false (S n) (log w))
  | (Err e, b') => (Err (from_store e), MkWorld (actor w) b' false (S n) (log w))
  | (Panic, b') => closed b'
  end.
Definition store_call {A} (m : Faults -> db_op A) : AM A := store_run (fun n => m (tx_faults env n)).
(** A read outside a transaction; SQLite may fail it. *)
Definition store_read {A} (g : PeerId -> Tables -> result StoreError A) : AM A :=
  store_run (fun n => sread (fun b => match read_fault env n with
                                      | Some e => Err e
                                      | None => g (host_id b) (view b)
                                      end)).

Definition load_state : AM (option ExecutionState) := store_read (fun host t => load_execution host t (ctx_exec ctx)).

(** [execution_updated_at_ms]. *)
Definition execution_updated_at_ms (t : Tables) (id : ExecId) : result StoreError (option Z) :=
  match executions t !! id with
  | Some r => rmap Some (sqlite_i64 (x_updated r))
  | None => Ok None
  end.

(** [due_timers]: [ORDER BY deadline_ms, timer_id LIMIT n]. *)
Definition MAX_RESPONSE_BYTES : Z := 8 * 1024 * 1024.
Definition due_rows (t : Tables) (id : ExecId) (now : Z) (limit : nat) : list (TimerId * TimerRow) :=
  take limit (sort_key (fun p : TimerId * TimerRow => tm_deadline p.2 * 256 ^ 32 + p.1)
    (filter (fun p : TimerId * TimerRow => tm_deadline p.2 <= now) (map_to_list (rows (active_timers t) id)))).
Definition due_timers (now : Z) (limit : nat) (t : Tables) (id : ExecId) : result StoreError (list (TimerId * TimerPayload)) :=
  err_if (negb (has (executions t) id)) (ExecutionNotFound id) ;;?
  if (limit =? 0)%nat then Ok [] else
  let? now := sqlite_u64 now in
  rmap fst (try_fold (fun (acc : list (TimerId * TimerPayload) * Z) (p : TimerId * TimerRow) =>
    let? bs := open KindTimer (tm_payload p.2) MAX_TIMER_RECORD_BYTES in
    err_if (MAX_RESPONSE_BYTES <? acc.2 + zlen bs) (StorePayloadTooLarge (acc.2 + zlen bs) MAX_RESPONSE_BYTES) ;;?
    let? timer := decode_borsh c_timer bs "active timer payload" in
    Ok (acc.1 ++ [(p.1, timer)], acc.2 + zlen bs)) ([], 0) (due_rows t id now limit)).

(** ** Observations *)

Definition observe_ignored (m : SessionMessage) : AM unit :=
  let! up := ask (observer_open env) in when up (act (Observe m)).
Definition observe (m : SessionMessage) : AM unit :=
  let! up := ask (observer_open env) in
  if up : bool then act (Observe m) else throw (Unavailable "message receiver closed").

Definition ensemble : AM Ensemble :=
  let! s := get a_state in lift (expect_ok (binding_ensemble (binding s))).

(** ** The end timer *)

(** After a restart the time already spent counts. *)
Definition recovered_deadline : AM Z :=
  let! o := store_read (fun _ b => execution_updated_at_ms b (ctx_exec ctx)) in
  let! updated := lift (ok_or o (from_store (ExecutionNotFound (ctx_exec ctx)))) in
  let! wall := ask (unix_ms env) in
  let! now := ask (instant env) in
  sret (now + sat_sub (ctx_window ctx) (sat_sub wall updated)).
Definition fresh_deadline : AM Z := let! now := ask (instant env) in sret (now + ctx_window ctx).

(** [sync_end_timer]. *)
Definition sync_end_timer : AM unit :=
  let! a := get id in
  let v := version (a_state a) in
  let ending t := bool_decide (et_phase t = TimerEnding) in
  match end_phase (a_state a) with
  | Open => put (set_end_timer None)
  | Ending _ =>
      match a_end_timer a with
      | Some t =>
          if (et_version t =? v) && ending t then sret tt else
          let! deadline := if ending t then fresh_deadline else recovered_deadline in
          put (set_end_timer (Some (MkEndTimer v TimerEnding deadline)))
      | None =>
          let! deadline := recovered_deadline in
          put (set_end_timer (Some (MkEndTimer v TimerEnding deadline)))
      end
  | Ended u =>
      if bool_decide (u = ∅) then put (set_end_timer None) else
      let! deadline := match a_end_timer a with
                       | Some t => if (et_version t =? v) || ending t then sret (et_deadline t) else fresh_deadline
                       | None => fresh_deadline
                       end in
      put (set_end_timer (Some (MkEndTimer v TimerEnded deadline)))
  end.

(** [end_run_finished]. *)
Definition end_run_finished : AM bool :=
  let! a := get id in
  match receipt_work (status (a_state a)), end_phase (a_state a) with
  | Published, Ended u =>
      if bool_decide (u = ∅) then sret true else
      match a_end_timer a with
      | Some t => let! now := ask (instant env) in sret (et_deadline t <=? now)
      | None => sret false
      end
  | _, _ => sret false
  end.

(** ** Persistence *)

(** [persist_transition]. *)
Definition persist_transition (next : ExecutionState) (c : Change) : AM unit :=
  let! s := get a_state in
  let! now := ask (unix_ms env) in
  store_call (fun f => persist f (ctx_exec ctx) (MkTransition (version s) next c now)) ;;!
  put (set_state next).

(** [resync_on_error]. *)
Definition resync_on_error (r : result ExecError unit) : AM unit :=
  match r with
  | Ok _ => sync_end_timer
  | Err e =>
      put (set_instance None) ;;!
      let! o := load_state in
      let! s := lift (ok_or o (NotFound (ctx_exec ctx))) in
      put (set_state s) ;;!
      throw e
  | Panic => lift Panic
  end.

(** [persist]. *)
Definition persist_next (next : ExecutionState) (c : Change) : AM unit :=
  let! before := get (fun a => end_phase (a_state a)) in
  let! r := try_ (persist_transition next c) in
  let! after := get (fun a => end_phase (a_state a)) in
  when (is_ok r && negb (bool_decide (after = before))) (observe_ignored (EndChanged after)) ;;!
  resync_on_error r.

(** ** The resident *)

Definition sandbox {A} (r : result SandboxError A) : AM A := lift (map_err SandboxUnavailable r).

(** [restore_resident], [resident_mut] and [reload_resident]. *)
Definition restore_resident : AM unit :=
  let! s := get a_state in
  let! f := ask (engine_fault env) in
  let! i := sandbox (resident (shared_max env) (local_max env) f (shared_state s) (local_state s)) in
  put (set_instance (Some i)).
Definition ensure_resident : AM unit :=
  let! i := get a_instance in
  match i with Some _ => sret tt | None => restore_resident end.
(** A call on the resident, its error as a value. *)
Definition on_resident {A} (m : nat -> M ProgramInstance SandboxError A) : AM (result SandboxError A) :=
  ensure_resident ;;!
  let! i := get a_instance in
  let! i := lift (expect i) in
  let! n := ask id in
  let '(r, i') := m n i in
  put (set_instance (Some i')) ;;!
  match r with Panic => lift Panic | _ => sret r end.
Definition reload_resident : AM unit :=
  let! i := get a_instance in
  match i with
  | None => sret tt
  | Some _ =>
      let! s := get a_state in
      let! r := on_resident (fun n => restore_payloads (shared_max env) (local_max env) (engine_fault env n)
                                        (shared_state s) (local_state s)) in
      when (negb (is_ok r)) (put (set_instance None)) ;;!
      sandbox r
  end.
(** [discard_candidate]. *)
Definition discard_candidate : AM unit :=
  let! r := on_resident (fun n => restore_committed (engine_fault env n)) in
  when (negb (is_ok r)) (put (set_instance None)) ;;!
  sandbox r.

(** ** Dispatches (guest.rs) *)

Inductive DispatchSource :=
| SrcLocal
| SrcAnswer (pending_id : Z)
| SrcTimer (timer : TimerId)
| SrcPeer (commitment : StepCommitment)
| SrcOwn
| SrcDirect (from : PeerId) (seq : Z) (attachment : option bytes).

Inductive DispatchOutcome := DCommitted | DFrozen | DRejected (reason : RejectReason).

Definition is_local_handler (e : Event) : bool :=
  match e with InputReceived _ _ | TimerFired _ | DirectReceived _ _ _ => true | _ => false end.

(** The call [dispatch_inner] builds. *)
Definition dispatch_call (s : ExecutionState) (en : Ensemble) (e : Event) (src : DispatchSource) (outgoing_len : Z) : DispatchCall :=
  MkCall local_peer en e outgoing_len
    (if is_local_handler e then Some (event_position s) else None)
    (if is_local_handler e then direct_queue_lens s else [])
    match src with SrcDirect _ _ att => att | _ => None end.

Definition session_end (effects : list Effect) : option bytes :=
  List.hd_error (omap (fun e => match e with SessionEnd o => Some o | _ => None end) effects).

(** [terminal_outcome]. *)
Definition project_outcome (shared : bytes) (effects : list Effect) : AM (option TerminalOutcome) :=
  match session_end effects with
  | None => sret None
  | Some o =>
      let! _ := ensemble in
      let! r := ask (fun n => guest_outcome env n shared) in
      let! p := sandbox match r with inl e => Err e | inr p => Ok p end in
      if negb (bool_decide (p.1 = o)) then throw (InvalidState "SessionEnd outcome differs from the guest outcome projection") else
      let! t := lift (map_err from_protocol (outcome_new p.1 p.2)) in
      sret (Some t)
  end.

(** The first field in which the receiver's commitment differs. *)
Definition mismatch (ours theirs : StepCommitment) : string :=
  if negb (c_post_state ours =? c_post_state theirs) then "post-state mismatch"
  else if negb (c_entry_hash ours =? c_entry_hash theirs) then "entry mismatch"
  else if negb (c_link ours =? c_link theirs) then "link mismatch"
  else "commitment mismatch".

(** What a trap means, by handler: an error of the execution, or a rejection. *)
Definition handler_of (e : Event) : option string :=
  match e with
  | InputReceived _ _ => Some "input"%string
  | DirectReceived _ _ _ => Some "direct"%string
  | MessageReceived _ _ => Some "message"%string
  | _ => None
  end.

(** The branches on an error of [apply_dispatch]. *)
Definition not_applied (src : DispatchSource) (step : Z) (e : ProtocolError) : result ExecError DispatchOutcome :=
  match e with
  | OutgoingQueueFull _ _ => Err OutgoingQueueOverflow
  | ReceiptBudgetExhausted step => Err (BudgetExhausted step)
  | _ => match src with
         | SrcPeer _ => Err (Diverged (DivProtocol step e))
         | _ => Ok (DRejected (ByProtocol e))
         end
  end.

(** The receiver of a message must come to the author's commitment. *)
Definition compare_commitment (src : DispatchSource) (next : ExecutionState) (step : Z) : AM unit :=
  match src with
  | SrcPeer theirs =>
      let! o := lift (expect_ok (proposal_commitment next)) in
      let! ours := lift (expect o) in
      if bool_decide (ours = theirs) then sret tt
      else throw (Diverged (DivCommitment step (mismatch ours theirs)))
  | _ => sret tt
  end.
(** A direct frame advances its lane with the dispatch. *)
Definition advance_lane (src : DispatchSource) (next : ExecutionState) : AM ExecutionState :=
  match src with
  | SrcDirect from seq _ =>
      match record_direct from seq next with
      | (Ok _, n) => sret n
      | (Err err, _) => throw (from_protocol err)
      | (Panic, _) => lift Panic
      end
  | _ => sret next
  end.

(** [dispatch_inner], after the guest accepted: apply, compare, persist, commit. *)
Definition settle_dispatch (e : Event) (src : DispatchSource) (r : DispatchCallResult) (shared local : bytes)
    : AM DispatchOutcome :=
  let! outcome := project_outcome shared (dr_effects r) in
  let! p := on_copy (apply_dispatch e shared local (dr_effects r) outcome
                       match src with SrcAnswer i => Some i | _ => None end (dr_callout r)) in
  let! s := get a_state in
  match p.1 with
  | Panic => lift Panic
  | Err err => lift (not_applied src (agreed_step s) err)
  | Ok _ =>
      let next := p.2 in
      compare_commitment src next (agreed_step s) ;;!
      let! next' := advance_lane src next in
      persist_next next' (ChDispatch e (dr_effects r) match src with SrcTimer t => Some t | _ => None end (dr_blobs r)) ;;!
      if is_some (proposal next) then sret DCommitted else
      let! c := on_resident (fun _ => commit (shared_max env) (local_max env)) in
      match c with
      | Ok _ => sret DCommitted
      | Err err => put (set_instance None) ;;! throw (SandboxUnavailable err)
      | Panic => lift Panic
      end
  end.

(** [dispatch_inner]. *)
Definition dispatch_inner (e : Event) (src : DispatchSource) (outgoing_len : Z) : AM DispatchOutcome :=
  let! s := get a_state in
  let! en := ensemble in
  let call := dispatch_call s en e src outgoing_len in
  ensure_resident ;;!
  let! i := get a_instance in
  let! i := lift (expect i) in
  act (EnterDispatch (mem_shared i) (mem_local i) call) ;;!
  let! r := on_resident (fun n => dispatch (shared_max env) (local_max env) (guest env n) (engine_fault env n) call) in
  match r with
  | Panic => lift Panic
  | Err err =>
      put (set_instance None) ;;!
      match handler_of e with
      | Some h => sret (DRejected (Trapped h err))
      | None => throw (SandboxUnavailable err)
      end
  | Ok r =>
      if dr_rejected r then sret (DRejected (ByProgram (dr_reason r))) else
      match dr_shared r, dr_local r with
      | Some shared, Some local => settle_dispatch e src r shared local
      | _, _ => throw (InvalidState "accepted dispatch returned no state images")
      end
  end.

(** [dispatch_event]. *)
Definition answers (s : ExecutionState) (e : Event) (src : DispatchSource) : bool :=
  match e with
  | InputReceived index _ =>
      match src, callout s with
      | SrcAnswer i, Some o => (i =? callout_id_ o) && (index =? callout_index o)
      | _, _ => false
      end
  | _ => true
  end.
Definition dispatch_event (e : Event) (src : DispatchSource) : AM DispatchOutcome :=
  let! s := get a_state in
  if negb (answers s e src) then throw CalloutNotPending else
  if is_terminal (status s) then sret DFrozen else
  if is_some (proposal s) then sret DFrozen else
  if negb (bool_decide (status s = Active)) then sret DFrozen else
  let outgoing_len := match src with
                      | SrcOwn => sat_sub (zlen (outgoing s)) 1
                      | _ => zlen (outgoing s)
                      end in
  let! r := try_ (dispatch_inner e src outgoing_len) in
  match r with
  | Ok DCommitted =>
      let! p := get (fun a => proposal (a_state a)) in
      when (is_some p) discard_candidate ;;! sret DCommitted
  | Ok (DRejected reason) => discard_candidate ;;! sret (DRejected reason)
  | Ok DFrozen => sret DFrozen
  | Err err =>
      let! i := get a_instance in
      when (is_some i) discard_candidate ;;! throw err
  | Panic => lift Panic
  end.

(** [dispatch_direct]: a rejected frame still advances its lane. *)
Definition dispatch_direct (from : PeerId) (seq : Z) (msg : bytes) (att : option bytes) : AM DispatchOutcome :=
  let! o := dispatch_event (DirectReceived from msg ((fun _ => 0) <$> att)) (SrcDirect from seq att) in
  match o with
  | DRejected _ =>
      let! p := transition (record_direct from seq) in
      persist_next p.2 ChState ;;! sret o
  | _ => sret o
  end.

(** [query]: on the committed shared state, beside the resident. *)
Definition query (index : Z) (q : bytes) : AM bytes :=
  let! s := get a_state in
  let! _ := ensemble in
  let! r := ask (fun n => guest_query env n (shared_state s) index q) in
  sandbox match r with inl e => Err e | inr b => Ok b end.

(** [emit_session_started], [session_start_is_durable], [ensure_session_started]. *)
Definition emit_session_started : AM unit :=
  let! done := get a_started_emitted in
  if done : bool then sret tt else
  let! en := ensemble in
  observe (SessionStartedMsg (act_session_hash (ctx_activation ctx)) en) ;;!
  put set_started.
Definition session_start_is_durable (s : ExecutionState) : AM bool :=
  if 0 <? agreed_step s then sret true else
  match proposal s with
  | None => sret false
  | Some p =>
      let! o := lift (expect_ok (proposal_commitment s)) in
      sret (match o with Some k => c_step k =? 0 | None => false end &&
            match event (entry p) with StepSessionStarted _ => true | _ => false end)
  end.
Definition ensure_session_started : AM unit :=
  let! s := get a_state in
  if negb match status_lifecycle (status s) with LActive => true | _ => false end || negb (agreed_step s =? 0) || is_some (proposal s)
  then let! durable := session_start_is_durable s in when durable emit_session_started
  else
    let! en := ensemble in
    let! o := dispatch_event (SessionStarted en) SrcLocal in
    match o with
    | DCommitted => emit_session_started
    | _ => throw (InvalidState "session start was rejected by the guest handler")
    end.

(** [apply_message]. *)
Definition apply_message (source : PeerId) (k : StepCommitment) (data : bytes) : AM unit :=
  let! o := dispatch_event (MessageReceived source data) (SrcPeer k) in
  match o with
  | DRejected reason => throw (Diverged (DivRejected (c_step k) reason))
  | _ => sret tt
  end.

(** [may_author] and [author_next_message]; a pass of the loop that goes on dropped
    the head of the queue. *)
Definition may_author (s : ExecutionState) : bool :=
  bool_decide (status s = Active) && negb (is_some (proposal s)) && negb (zlen (outgoing s) =? 0).
Fixpoint author_loop (fuel : nat) : AM unit :=
  let! s := get a_state in
  if negb (may_author s) then sret tt else
  match fuel with
  | O => lift Panic
  | S fuel =>
      let! msg := lift (expect (outgoing s !! 0%nat)) in
      let! o := dispatch_event (MessageReceived local_peer msg) SrcOwn in
      match o with
      | DRejected _ =>
          let! p := transition drop_outgoing_head in
          persist_next p.2 ChState ;;! author_loop fuel
      | _ => sret tt
      end
  end.
Definition author_next_message : AM unit :=
  let! s := get a_state in author_loop (S (length (outgoing s))).

(** [fire_due_timers]: a frozen guest leaves the rest for the next pass. *)
Fixpoint fire_timers (l : list (TimerId * TimerPayload)) : AM unit :=
  match l with
  | [] => sret tt
  | (id, timer) :: l =>
      let! o := dispatch_event (TimerFired timer) (SrcTimer id) in
      match o with DFrozen => sret tt | _ => fire_timers l end
  end.
Definition fire_due_timers : AM unit :=
  let! now := ask (unix_ms env) in
  let! timers := store_read (fun _ t => due_timers now MAX_TIMER_BATCH t (ctx_exec ctx)) in
  fire_timers timers.

(** [persist_step_signature] and [ensure_step_signature]. *)
Definition persist_step_signature (next : ExecutionState) (certified : option SharedProposal) : AM unit :=
  persist_next next (ChStepSignature certified) ;;!
  match certified with
  | None => sret tt
  | Some p => reload_resident ;;! observe_ignored (TraceAppended (step (entry p)))
  end.
Definition ensure_step_signature : AM unit :=
  let! s := get a_state in
  match proposal s with
  | None => sret tt
  | Some p =>
      if existsb (fun x => participant x =? local_peer) (signatures p) then sret tt else
      let! o := lift (expect_ok (proposal_commitment s)) in
      let! k := lift (expect o) in
      let sg := MkPSig local_peer (MkStepSig (c_step k) (execution_sign (signing_bytes k))) in
      let! r := transition (add_step_signature sg) in
      persist_step_signature r.2 r.1
  end.

(** ** Terminal transitions (terminal.rs) *)

(** [stopped_state]. *)
Definition stopped_state (kind : AbortKind) (code : Z) (reason : bytes) : AM ExecutionState :=
  let! s := get a_state in
  if negb (producer s =? local_peer) then throw (InvalidState "failure signer is not the execution producer") else
  let! u := lift (map_err from_protocol (abort_unsigned (session_id (binding s)) local_peer kind code
                    (truncate_reason MAX_TERMINAL_REASON_BYTES reason) (step_cursor s))) in
  let! bs := lift (map_err from_protocol (abort_signing_bytes u)) in
  let! o := lift (map_err from_protocol (with_signature u (node_sign bs))) in
  let! r := transition (stop o) in
  sret r.2.

(** [persist_abort]. *)
Definition persist_abort (kind : AbortKind) (code : Z) (reason : bytes) : AM unit :=
  let! s := get a_state in
  if is_terminal (status s) then sret tt else
  let! next := stopped_state kind code reason in
  persist_next next ChState.

(** [publish_receipt]: assemble from durable evidence, then publish. *)
Definition publish_terminal : AM unit :=
  let! s := get a_state in
  match receipt_work (status s) with
  | Assemble =>
      let! a := store_read (fun _ t => assemble_receipt t (ctx_exec ctx) s) in
      let! r := transition (publish_receipt a) in
      persist_transition r.2 (ChPublish a)
  | _ => sret tt
  end.

(** [fail_and_publish]. *)
Definition fail_and_publish (reason : bytes) : AM unit :=
  let! s := get a_state in
  match receipt_work (status s) with
  | NotTerminal =>
      let! next := stopped_state KFail 1 reason in
      persist_transition next ChState
  | _ => sret tt
  end ;;!
  publish_terminal.

(** [fail_execution], at startup: on the state the store holds. *)
Definition fail_execution (reason : bytes) : AM unit :=
  let! o := load_state in
  let! s := lift (ok_or o (NotFound (ctx_exec ctx))) in
  put (set_state s) ;;! fail_and_publish reason.

(** [fail_terminal]: whether the loop stays alive. *)
Definition fail_terminal (e : ExecError) : AM bool :=
  let! s := get a_state in
  let! r := try_ (fail_and_publish (display e)) in
  let! r := try_ (resync_on_error r) in
  match r with
  | Ok _ => sret true
  | Err _ => sret match receipt_work (status s) with Assemble => true | _ => false end
  | Panic => lift Panic
  end.

(** [finalize_receipt]. *)
Definition finalize_receipt : AM unit :=
  let! r := try_ publish_terminal in resync_on_error r.

(** [emit_published_terminal]. *)
Definition terminal_message (s : ExecutionState) (a : ReceiptArtifact) : SessionMessage :=
  match termination (artifact_body a) with
  | TCompleted => CompletedMsg (outcome (artifact_body a)) (json_bytes <$> terminal_outcome s)
  | TStopped cause =>
      match cause_kind cause with
      | KAbort => AbortedMsg (cause_step cause) (cause_reason cause)
      | KFail => FailedMsg (cause_reason cause)
      end
  end.
Definition emit_published_terminal : AM unit :=
  let! a := get id in
  let s := a_state a in
  if a_terminal_emitted a then sret tt else
  match receipt_work (status s) with
  | Published =>
      let! rid := lift (ok_or (published_receipt_id s) (InvalidState "published terminal status has no receipt identity")) in
      let! o := store_read (fun host t => load_receipt_by_id host t rid) in
      let! st := lift (ok_or o (InvalidState "published terminal status has no locally produced receipt")) in
      if negb (sr_id st =? rid) then throw (InvalidState "published terminal status and local receipt identity differ") else
      observe (ReceiptPublished (sr_receipt st)) ;;!
      observe (terminal_message s (sr_receipt st)) ;;!
      put set_terminal
  | _ => sret tt
  end.
End Actor.
