(* ===== verification/Delivery.v ===== *)
(** * Frames and the actor's loop (node/src/execution/delivery.rs, actor.rs)

    The frames the actor takes and sends, and the loop that serialises everything it
    does.  A send task runs outside the actor; what it settles with is an input.  The
    loop runs over the inputs [tokio::select!] hands it. *)

From S2P Require Import Prelude Book Borsh Crypto Session Trace Negotiation Evidence Validation Receipt Frame Execution.
From S2P Require Import Publish StateCodec Envelope ChangeLog Database Persist Store Registry Resident Actor.

#[local] Open Scope Z_scope.

(** ** Send lanes *)

Inductive Pick := PickProtocol (digest : Z) (frame : ExecFrame) | PickDirect (e : DirectEntry).

(** [is_none_or(|deadline| now >= deadline)]. *)
Definition elapsed (o : option Z) (now : Z) : bool := match o with Some d => d <=? now | None => true end.

(** [SendLane::next]: protocol evidence before direct traffic. *)
Definition lane_next (lane : SendLane) (frames : list (Z * ExecFrame)) (head : option DirectEntry) (ending : bool) (now : Z)
    : option Pick :=
  let direct := match head with
                | Some e => if negb ending && elapsed (l_direct_retry_at lane) now then Some (PickDirect e) else None
                | None => None
                end in
  if elapsed (l_retry_at lane) now then
    match find_by (fun p : Z * ExecFrame => negb (bool_decide (p.1 ∈ l_acked lane)) &&
                     (ending || negb (bool_decide (p.1 ∈ l_rejected lane)))) frames with
    | Some p => Some (PickProtocol p.1 p.2)
    | None => direct
    end
  else direct.

(** The sets keep only the digests of current frames. *)
Definition retain (frames : list (Z * ExecFrame)) (lane : SendLane) : SendLane :=
  let current : gset Z := list_to_set frames.*1 in
  MkSendLane (l_handle lane) (l_acked lane ∩ current) (l_rejected lane ∩ current) (l_busy lane) (l_suppressed lane)
    (l_retry_at lane) (l_direct_retry_at lane).

Definition lane_of (a : Actor) (peer : PeerId) : SendLane := default send_lane_default (a_lanes a !! peer).
Definition with_lane (peer : PeerId) (f : SendLane -> SendLane) (a : Actor) : Actor :=
  set_lanes (<[peer := f (lane_of a peer)]> (a_lanes a)) a.

Definition lane_suppress (l : SendLane) : SendLane :=
  MkSendLane (l_handle l) (l_acked l) (l_rejected l) (l_busy l) true (l_retry_at l) (l_direct_retry_at l).
Definition lane_free (l : SendLane) : SendLane :=
  MkSendLane (l_handle l) (l_acked l) (l_rejected l) false (l_suppressed l) (l_retry_at l) (l_direct_retry_at l).
Definition lane_take (l : SendLane) : SendLane :=
  MkSendLane false (l_acked l) (l_rejected l) true (l_suppressed l) (l_retry_at l) (l_direct_retry_at l).
Definition lane_handle (l : SendLane) : SendLane :=
  MkSendLane true (l_acked l) (l_rejected l) (l_busy l) (l_suppressed l) (l_retry_at l) (l_direct_retry_at l).
Definition lane_ack (d : Z) (l : SendLane) : SendLane :=
  MkSendLane (l_handle l) ({[d]} ∪ l_acked l) (l_rejected l) (l_busy l) (l_suppressed l) (l_retry_at l) (l_direct_retry_at l).
Definition lane_reject (d : Z) (l : SendLane) : SendLane :=
  MkSendLane (l_handle l) (l_acked l) ({[d]} ∪ l_rejected l) (l_busy l) (l_suppressed l) (l_retry_at l) (l_direct_retry_at l).
Definition lane_retry (o : option Z) (l : SendLane) : SendLane :=
  MkSendLane (l_handle l) (l_acked l) (l_rejected l) (l_busy l) (l_suppressed l) o (l_direct_retry_at l).
Definition lane_direct_retry (o : option Z) (l : SendLane) : SendLane :=
  MkSendLane (l_handle l) (l_acked l) (l_rejected l) (l_busy l) (l_suppressed l) (l_retry_at l) o.

Inductive ExecCommand :=
| CmdSubmitInput (pending_id : Z) (data : bytes)
| CmdTerminate (reason : bytes)
| CmdQuery (index : Z) (q : bytes)
| CmdInbound (source : PeerId) (frame : ExecFrame).

(** What [select!] hands the loop; [InSettled k o] ends the [k]-th send task. *)
Inductive Input :=
| InSettled (k : nat) (o : TaskOutcome)
| InCommand (c : ExecCommand)
| InClosed
| InTick.

Section Delivery.
Context `{Crypto, LocalKeys} (ctx : ActorContext) (env : Surroundings).
Context (display : ExecError -> bytes).

(** ** Inbound frames *)

(** [authenticates]. *)
Definition authenticates (s : ExecutionState) (source : PeerId) (f : ExecFrame) : result ExecError bool :=
  if negb (is_participant (binding s) source) then Ok false else
  match f with
  | FStepCertificate c => match certificate_verify c (binding s) with
                          | Ok _ => Ok true
                          | Err _ => Ok false
                          | Panic => Panic
                          end
  | FAbort o =>
      if (ab_session_id o =? session_id (binding s)) && is_participant (binding s) (ab_sender o) then
        match verify_signature o with
        | Ok b => Ok b
        | Err _ => Ok false
        | Panic => Panic
        end
      else Ok false
  | FStepSignature k _ => Ok (c_session_id k =? session_id (binding s))
  | FMessage _ _ | FDirect _ _ _ => Ok true
  end.

(** [confirm_peer]. *)
Definition confirm_peer (peer : PeerId) : AM unit :=
  let! r := transition (confirm_end peer) in
  if r.1 : bool then persist_next ctx env r.2 ChState else sret tt.

Definition accept_terminal (source : PeerId) (f : ExecFrame) : AM (option ExecDeliveryRejection) :=
  let! s := get a_state in
  match end_conclusion_matches s f with
  | Same => confirm_peer source ;;! sret None
  | Different => put (with_lane source lane_suppress) ;;! sret (Some Conflict)
  | NotTerminalEvidence => sret None
  end.

Definition accept_message (source : PeerId) (k : StepCommitment) (data : bytes) : AM (option ExecDeliveryRejection) :=
  let! s := get a_state in
  if c_step k <? agreed_step s then sret None else
  if agreed_step s <? c_step k then sret (Some NotYet) else
  if negb (c_session_id k =? session_id (binding s)) || negb (c_pre_state k =? agreed_state s)
     || negb (c_link k =? agreed_link s)
  then sret (Some Rejected) else
  match proposal s with
  | Some p =>
      let! staged := lift (expect_ok (proposal_commitment s)) in
      sret (if bool_decide (staged = Some k) &&
               match event (entry p) with
               | StepMessage from d => (from =? source) && bool_decide (d = data)
               | _ => false
               end
            then None else Some Conflict)
  | None => apply_message ctx env source k data ;;! sret None
  end.

Definition accept_signature (source : PeerId) (k : StepCommitment) (z : Z) : AM (option ExecDeliveryRejection) :=
  let! s := get a_state in
  if c_step k <? agreed_step s then sret None else
  if agreed_step s <? c_step k then sret (Some NotYet) else
  match proposal s with
  | None => sret (Some NotYet)
  | Some p =>
      let! staged := lift (expect_ok (proposal_commitment s)) in
      if negb (bool_decide (staged = Some k)) then sret (Some Rejected) else
      let sg := MkPSig source (MkStepSig (c_step k) z) in
      if bool_decide (sg ∈ signatures p) then sret None else
      let! r := on_copy (add_step_signature sg) in
      match r.1 with
      | Ok certified => persist_step_signature ctx env r.2 certified ;;! sret None
      | _ => sret (Some Rejected)
      end
  end.

Definition accept_certificate (c : StepCertificate) : AM (option ExecDeliveryRejection) :=
  let! s := get a_state in
  if c_step (commitment c) <? agreed_step s then sret None else
  match proposal s with
  | None => sret (Some NotYet)
  | Some _ =>
      let! staged := lift (expect_ok (proposal_commitment s)) in
      if negb (bool_decide (staged = Some (commitment c)))
      then throw (DeliveryInvariant "verified certificate contradicts the staged proposal") else
      let! r := on_copy (certify_step c) in
      match r.1 with
      | Ok certified => persist_step_signature ctx env r.2 (Some certified) ;;! sret None
      | _ => throw (DeliveryInvariant "verified certificate could not be committed")
      end
  end.

Definition accept_direct (source : PeerId) (seq : Z) (msg : bytes) (att : option bytes) : AM (option ExecDeliveryRejection) :=
  let! s := get a_state in
  match end_phase s with
  | Open =>
      match direct_arrival s source seq with
      | Duplicate => sret None
      | Gap => sret (Some Rejected)
      | Next =>
          if is_some (proposal s) || negb (bool_decide (status s = Active)) then sret (Some NotYet) else
          let! o := dispatch_direct ctx env source seq msg att in
          sret match o with DFrozen => Some NotYet | _ => None end
      end
  | _ => sret None
  end.

Definition accept_abort (o : AbortOccurrence) : AM (option ExecDeliveryRejection) :=
  let! s := get a_state in
  if next_step (ab_coordinate o) <? agreed_step s then sret None else
  if agreed_step s <? next_step (ab_coordinate o) then sret (Some NotYet) else
  let! r := on_copy (stop o) in
  match r.1 with
  | Ok _ => persist_next ctx env r.2 ChState ;;! sret None
  | Err SharedProposalSigned => sret (Some NotYet)
  | Err InvalidAbortCoordinate => sret (Some Conflict)
  | _ => sret (Some Rejected)
  end.

(** [accept_frame]: [None] acknowledges. *)
Definition accept_frame (source : PeerId) (f : ExecFrame) : AM (option ExecDeliveryRejection) :=
  let! s := get a_state in
  let! ok := lift (authenticates s source f) in
  if negb ok then sret (Some Rejected) else
  if is_terminal (status s) then accept_terminal source f else
  match f with
  | FMessage k data => accept_message source k data
  | FStepSignature k z => accept_signature source k z
  | FStepCertificate c => accept_certificate c
  | FDirect seq msg att => accept_direct source seq msg att
  | FAbort o => accept_abort o
  end.

(** ** Outbound frames *)

(** [frame_digest]. *)
Definition frame_digest (f : ExecFrame) : result ExecError Z :=
  let? bs := map_err (fun _ => InvalidState "frame encoding") (enc c_frame f) in
  Ok (blake3 bs).

Definition is_unconfirmed (s : ExecutionState) (peer : PeerId) : bool :=
  match unconfirmed_of (end_phase s) with Some u => bool_decide (peer ∈ u) | None => false end.

(** The frames to deliver, with their digests. *)
Definition frames_to_send (s : ExecutionState) : result ExecError (list (Z * ExecFrame)) :=
  let? frames := if is_terminal (status s) then Ok (option_list (terminal_evidence s)) else current_frames s local_peer in
  try_fold (fun acc f => let? d := frame_digest f in Ok (acc ++ [(d, f)])) [] frames.

(** One peer of [deliver_frames]. *)
Definition deliver_to (frames : list (Z * ExecFrame)) (peer : PeerId) : AM unit :=
  let! s := get a_state in
  let ending := is_terminal (status s) in
  if (peer =? local_peer) || (ending && negb (is_unconfirmed s peer)) then sret tt else
  put (with_lane peer (retain frames)) ;;!
  let! lane := get (fun a => lane_of a peer) in
  if l_suppressed lane || l_busy lane then sret tt else
  let! now := ask (instant env) in
  match lane_next lane frames (List.hd_error (direct_queue s peer)) ending now with
  | None => sret tt
  | Some pick =>
      put (with_lane peer lane_take) ;;!
      match pick with
      | PickProtocol d f =>
          put (fun a => set_tasks (a_tasks a ++ [(peer, SentProtocol d)]) a) ;;! act (SpawnSend peer f)
      | PickDirect e =>
          put (fun a => set_tasks (a_tasks a ++ [(peer, SentDirect (d_seq e))]) a) ;;! act (SpawnDirect peer e)
      end
  end.
Fixpoint deliver_each (frames : list (Z * ExecFrame)) (peers : list PeerId) : AM unit :=
  match peers with
  | [] => sret tt
  | p :: peers => deliver_to frames p ;;! deliver_each frames peers
  end.
(** [deliver_frames]. *)
Definition deliver_frames : AM unit :=
  let! s := get a_state in
  let! frames := lift (frames_to_send s) in
  deliver_each frames (map ticket_signer (act_tickets (ctx_activation ctx))).

(** [settle_send]: the outcome of a direct frame, and of a protocol frame. *)
Definition settle_direct (peer : PeerId) (seq : Z) (o : SendOutcome) : AM unit :=
  put (with_lane peer (fun l => lane_direct_retry None (lane_free l))) ;;!
  let later := let! now := ask (instant env) in
               put (with_lane peer (lane_direct_retry (Some (now + PROGRESS_INTERVAL)))) in
  match o with
  | SendAccepted | SendRejected | SendConflict =>
      put (with_lane peer lane_handle) ;;!
      let! r := transition (ack_direct peer seq) in
      if r.1 : bool then persist_next ctx env r.2 ChState else sret tt
  | SendNotYet => put (with_lane peer lane_handle) ;;! later
  | SendFailed => later
  end.
Definition is_final (s : ExecutionState) (d : Z) : result ExecError bool :=
  match terminal_evidence s with
  | None => Ok false
  | Some f => match frame_digest f with Ok d' => Ok (d' =? d) | Err _ => Ok false | Panic => Panic end
  end.
Definition settle_protocol (peer : PeerId) (d : Z) (o : SendOutcome) : AM unit :=
  let! s := get a_state in
  let! final := lift (is_final s d) in
  put (with_lane peer (fun l => lane_retry None (lane_free l))) ;;!
  let later := let! now := ask (instant env) in
               put (with_lane peer (lane_retry (Some (now + PROGRESS_INTERVAL)))) in
  match o with
  | SendAccepted =>
      put (with_lane peer (fun l => lane_handle (lane_ack d l))) ;;!
      if final : bool then confirm_peer peer else sret tt
  | SendRejected =>
      if final : bool then put (with_lane peer lane_suppress)
      else put (with_lane peer (fun l => lane_handle (lane_reject d l)))
  | SendConflict => put (with_lane peer lane_suppress)
  | SendNotYet => put (with_lane peer lane_handle) ;;! later
  | SendFailed => later
  end.
Definition settle_send (peer : PeerId) (sent : Sent) (o : TaskOutcome) : AM unit :=
  match o with
  | TaskLost => throw (DeliveryInvariant "send task failed")
  | TaskUnprepared e => put (with_lane peer lane_free) ;;! throw e
  | TaskSent o =>
      match sent with
      | SentDirect seq => settle_direct peer seq o
      | SentProtocol d => settle_protocol peer d o
      end
  end.

(** ** Progress *)

(** [announce_callout]. *)
Definition announce_callout : AM unit :=
  let! a := get id in
  match callout (a_state a) with
  | None => sret tt
  | Some o =>
      if opt_eqb (a_announced a) (Some (callout_id_ o)) then sret tt else
      observe env (CalloutRequested (callout_id_ o) (callout_index o) (context o)) ;;!
      put (set_announced (Some (callout_id_ o)))
  end.

(** [progress_terminal_boundary]. *)
Definition progress_terminal_boundary : AM unit :=
  finalize_receipt ctx env ;;!
  emit_published_terminal env ;;!
  let! a := get id in
  match end_phase (a_state a), a_end_timer a with
  | Ending _, Some t =>
      let! now := ask (instant env) in
      if et_deadline t <=? now then
        let! r := transition expire_end in persist_next ctx env r.2 ChState
      else sret tt
  | _, _ => sret tt
  end ;;!
  let! finished := end_run_finished env in
  when (negb finished) deliver_frames.

(** [progress]: its loop body runs at most once before the state is terminal or the
    events were driven. *)
Definition progress_running : AM unit :=
  let! s := get a_state in
  (if is_some (proposal s) then ensure_step_signature ctx env
   else when (may_author s) (author_next_message ctx env)) ;;!
  announce_callout ;;!
  deliver_frames.
Definition progress : AM unit :=
  let! s := get a_state in
  match receipt_work (status s) with
  | NotTerminal =>
      ensure_session_started ctx env ;;!
      fire_due_timers ctx env ;;!
      let! s := get a_state in
      match receipt_work (status s) with
      | NotTerminal => progress_running
      | _ => progress_terminal_boundary
      end
  | _ => progress_terminal_boundary
  end.

(** ** Commands *)

(** [submit_input]: [Some e] is an expected rejection. *)
Definition submit_input (pending_id : Z) (data : bytes) : AM (option ExecError) :=
  let! s := get a_state in
  match callout s with
  | None => sret (Some CalloutNotPending)
  | Some open =>
      let! r := try_ (dispatch_event ctx env (InputReceived (callout_index open) data) (SrcAnswer pending_id)) in
      match r with
      | Ok DCommitted => progress ;;! sret None
      | Ok DFrozen => sret (Some AgreementPending)
      | Ok (DRejected reason) => sret (Some (InputRejected reason))
      | Err CalloutNotPending => sret (Some CalloutNotPending)
      | Err e => throw e
      | Panic => lift Panic
      end
  end.

(** [terminate]. *)
Definition terminate (reason : bytes) : AM unit :=
  persist_abort ctx env KAbort 0 reason ;;! progress.

(** [inbound]. *)
Definition inbound (source : PeerId) (f : ExecFrame) : AM unit :=
  let! r := try_ (accept_frame source f) in
  match r with
  | Ok None => act (Acknowledge source f)
  | Ok (Some rejection) => act (Reject source f rejection)
  | Err (Diverged d) =>
      let! recorded := fail_terminal ctx env display (Diverged d) in
      if recorded : bool then act (Acknowledge source f) else throw (Diverged d)
  | Err e => throw e
  | Panic => lift Panic
  end ;;!
  progress.

(** [handle]. *)
Definition handle (c : ExecCommand) : AM unit :=
  match c with
  | CmdSubmitInput pending_id data =>
      let! r := try_ (submit_input pending_id data) in
      match r with
      | Ok None => act (ReplyInput (Ok tt))
      | Ok (Some e) => act (ReplyInput (Err e))
      | Err e => act (ReplyInput (Err e)) ;;! throw e
      | Panic => lift Panic
      end
  | CmdTerminate reason => let! r := try_ (terminate reason) in act (ReplyTerminate r)
  | CmdQuery index q => let! r := try_ (query env index q) in act (ReplyQuery r)
  | CmdInbound source f => inbound source f
  end.

(** ** Startup *)

(** [ensure_execution]. *)
Definition ensure_execution : AM ExecutionState :=
  let! o := store_read env (fun _ t => load_execution_request t (ctx_exec ctx)) in
  let! request := lift (ok_or o (InvalidState "execution request is not durably recorded")) in
  if negb (er_program request =? ctx_program ctx) || match er_params request with
                                                      | Some ps => negb (bool_decide (ps = ctx_params ctx))
                                                      | None => false
                                                      end
  then throw (InvalidState "actor program or parameters differ from durable request") else
  let! o := store_read env (fun _ t => load_activation t (ctx_exec ctx)) in
  let! rec := lift (ok_or o (InvalidState "execution activation is not durably committed")) in
  let! a := lift (ok_or (rec_committed rec) (InvalidState "execution activation is only prepared")) in
  if negb (bool_decide (a = ctx_activation ctx))
  then throw (InvalidState "actor activation differs from durable activation") else
  if negb (program_hash (act_offer_data a) =? er_program request)
     || match er_params request with
        | Some ps => negb (bool_decide (params (act_offer_data a) = ps))
        | None => false
        end
     || negb (execution_profile (act_offer_data a) =? ctx_profile ctx)
  then throw (InvalidState "durable activation terms differ from the execution request or local profile") else
  let! t := lift (ok_or (find_by (fun t => ticket_signer t =? local_peer) (act_tickets a))
                    (InvalidState "durable activation has no ticket for the local producer")) in
  let! key := lift match action (ticket_data t) with
                   | Active_ k _ _ _ => Ok k
                   | Withdrawn => Err (InvalidState "local producer ticket is not active")
                   end in
  if negb (key =? bls_public) then throw (InvalidState "execution signer does not match the local activation ticket") else
  let! o := load_state ctx env in
  match o with
  | Some s =>
      if negb (producer s =? local_peer) || negb (bool_decide (activation (binding s) = ctx_activation ctx))
      then throw (InvalidState "durable execution binding differs from actor context")
      else sret s
  | None =>
      let! r := ask (fun n => guest_initialize env n (ctx_params ctx)) in
      let! init := sandbox match r with inl e => Err e | inr p => Ok p end in
      let! now := ask (unix_ms env) in
      store_call env (fun f => create_execution f (ctx_exec ctx) (ctx_activation ctx) local_peer init.1 init.2 now) ;;!
      let! o := load_state ctx env in
      lift (ok_or o (NotFound (ctx_exec ctx)))
  end.

(** [recover]. *)
Definition recover : AM unit :=
  restore_resident env ;;!
  let! s := get a_state in
  match status_lifecycle (status s) with
  | LActivating => let! r := transition activate in persist_next ctx env r.2 ChState
  | _ => sret tt
  end ;;!
  progress.

(** ** The loop *)

(** [continue_after]: the one error boundary. *)
Definition continue_after (r : result ExecError unit) : AM bool :=
  match r with
  | Ok _ => sret true
  | Err (DeliveryInvariant _) => sret false
  | Err e => fail_terminal ctx env display e
  | Panic => lift Panic
  end.
Definition guarded (m : AM unit) : AM bool := let! r := try_ m in continue_after r.

(** One turn of the loop: whether it goes on. *)
Definition turn (i : Input) : AM bool :=
  match i with
  | InSettled k o =>
      let! tasks := get a_tasks in
      match tasks !! k with
      | None => sret true
      | Some (peer, sent) =>
          put (set_tasks (delete k tasks)) ;;!
          let! go := guarded (settle_send peer sent o) in
          if go : bool then guarded progress else sret false
      end
  | InCommand c => guarded (handle c)
  | InClosed => fail_terminal ctx env display (Unavailable "execution command channel closed") ;;! sret false
  | InTick => guarded progress
  end.
Fixpoint run_loop (inputs : list Input) : AM unit :=
  let! finished := end_run_finished env in
  if finished : bool then sret tt else
  match inputs with
  | [] => sret tt
  | i :: inputs => let! go := turn i in if go : bool then run_loop inputs else sret tt
  end.
(** [run]. *)
Definition run (startup : option ExecError) (inputs : list Input) : AM unit :=
  let! go := guarded (sync_end_timer ctx env) in
  if negb go then sret tt else
  let! go := match startup with Some e => continue_after (Err e) | None => guarded recover end in
  if negb go then sret tt else
  run_loop inputs.

(** The task of [spawn_execution]. *)
Definition spawn (inputs : list Input) : AM unit :=
  let start s startup := put (fun _ => MkActor s None ∅ [] None false false None) ;;! run startup inputs in
  let! r := try_ ensure_execution in
  match r with
  | Ok s => start s None
  | Panic => lift Panic
  | Err e =>
      let reason := truncate_reason MAX_TERMINAL_REASON_BYTES (display e) in
      let! r := try_ (load_state ctx env) in
      match r with
      | Ok (Some s) => start s (Some e)
      | Panic => lift Panic
      | Ok None =>
          try_ (store_call env (fun f => record_execution_request_failure f (ctx_exec ctx) reason)) ;;!
          observe_ignored env (FailedMsg reason)
      | Err _ => observe_ignored env (FailedMsg reason)
      end
  end.
End Delivery.
