(* ===== verification/Reasons.v ===== *)
(** * Bounded reasons (node/src/execution/mod.rs)

    [truncate_reason] pops scalar values until a text fits.  A valid text is a
    sequence of scalars, each a lead byte and its continuation bytes, so what is
    left is a valid prefix within the bound. *)

From S2P Require Import Prelude Borsh Actor.

#[local] Open Scope Z_scope.

(** One scalar value: a lead byte, its continuation bytes, and a reader that goes on
    after them. *)
Record scalar (c : bytes) : Prop := {
  sc_shape : exists b l, c = b :: l /\ is_continuation b = false /\ Forall (fun x => is_continuation x = true) l;
  sc_next : forall t, utf8_valid (c ++ t) = utf8_valid t }.

Ltac bytes_bounds :=
  repeat match goal with
  | Hx : (_ && _)%bool = true |- _ => apply andb_true_iff in Hx as [? ?]
  | Hx : (_ <=? _) = true |- _ => apply Z.leb_le in Hx
  | Hx : (_ =? _) = true |- _ => apply Z.eqb_eq in Hx
  end.

(** The reader's branches: a scalar of one to four bytes and a valid rest. *)
Lemma utf8_split b0 t0 :
  utf8_valid (b0 :: t0) = true -> exists c t, b0 :: t0 = c ++ t /\ scalar c /\ utf8_valid t = true.
Proof.
  assert (forall c l, (128 <=? c) && (c <=? 191) = true -> Forall (fun x => is_continuation x = true) l ->
            Forall (fun x => is_continuation x = true) (c :: l)) as Hcont.
  { intros c l Hc Hl. constructor; [|done]. unfold is_continuation. bytes_bounds. lia. }
  assert (forall b, b <= 127 \/ 192 <= b -> is_continuation b = false) as Hlead.
  { intros b Hb. unfold is_continuation. lia. }
  assert (forall b, (128 <=? b) && (b <=? 143) = true -> (128 <=? b) && (b <=? 191) = true) as W1 by (intros; lia).
  assert (forall b, (128 <=? b) && (b <=? 159) = true -> (128 <=? b) && (b <=? 191) = true) as W2 by (intros; lia).
  assert (forall b, (160 <=? b) && (b <=? 191) = true -> (128 <=? b) && (b <=? 191) = true) as W3 by (intros; lia).
  assert (forall b, (144 <=? b) && (b <=? 191) = true -> (128 <=? b) && (b <=? 191) = true) as W4 by (intros; lia).
  assert (forall c l t, (exists b l', c = b :: l' /\ is_continuation b = false /\ Forall (fun x => is_continuation x = true) l') ->
    (forall t, utf8_valid (c ++ t) = utf8_valid t) -> utf8_valid t = true -> l = c ++ t ->
    exists c t, l = c ++ t /\ scalar c /\ utf8_valid t = true) as Hmk.
  { intros c l t Hs Hn Ht ->. by exists c, t. }
  intros Hv. cbn [utf8_valid] in Hv.
  destruct ((0 <=? b0) && (b0 <=? 127)) eqn:E0.
  { apply (Hmk [b0] _ t0); [|intros t; cbn; by rewrite E0|done|done]. exists b0, []. split_and!; [done|apply Hlead; lia|constructor]. }
  destruct t0 as [|b1 t1]; [done|]. destruct ((194 <=? b0) && (b0 <=? 223)) eqn:E1.
  { apply andb_true_iff in Hv as [H1 Hv]. apply (Hmk [b0; b1] _ t1); [|intros t; cbn; by rewrite E0, E1, H1|done|done].
    exists b0, [b1]. split_and!; [done|apply Hlead; lia|by apply Hcont]. }
  destruct t1 as [|b2 t2]; [done|].
  destruct (b0 =? 224) eqn:E2.
  { apply andb_true_iff in Hv as [[H1 H2]%andb_true_iff Hv].
    apply (Hmk [b0; b1; b2] _ t2); [|intros t; cbn; by rewrite E0, E1, E2, H1, H2|done|done].
    exists b0, [b1; b2]. split_and!; [done|apply Hlead; lia|by apply Hcont; [apply W3|apply Hcont]]. }
  destruct (b0 =? 237) eqn:E3.
  { apply andb_true_iff in Hv as [[H1 H2]%andb_true_iff Hv].
    apply (Hmk [b0; b1; b2] _ t2); [|intros t; cbn; by rewrite E0, E1, E2, E3, H1, H2|done|done].
    exists b0, [b1; b2]. split_and!; [done|apply Hlead; lia|by apply Hcont; [apply W2|apply Hcont]]. }
  destruct ((225 <=? b0) && (b0 <=? 239)) eqn:E4.
  { apply andb_true_iff in Hv as [[H1 H2]%andb_true_iff Hv].
    apply (Hmk [b0; b1; b2] _ t2); [|intros t; cbn; by rewrite E0, E1, E2, E3, E4, H1, H2|done|done].
    exists b0, [b1; b2]. split_and!; [done|apply Hlead; lia|by apply Hcont; [|apply Hcont]]. }
  destruct t2 as [|b3 t3]; [done|].
  assert (forall H1 : (128 <=? b1) && (b1 <=? 191) = true, (128 <=? b2) && (b2 <=? 191) = true -> (128 <=? b3) && (b3 <=? 191) = true ->
    is_continuation b0 = false -> exists b l', [b0; b1; b2; b3] = b :: l' /\ is_continuation b = false /\ Forall (fun x => is_continuation x = true) l') as H4.
  { intros H1 H2 H3 Hb. exists b0, [b1; b2; b3]. split_and!; [done|done|by apply Hcont; [|apply Hcont; [|apply Hcont]]]. }
  destruct (b0 =? 240) eqn:E5.
  { apply andb_true_iff in Hv as [[[H1 H2]%andb_true_iff H3]%andb_true_iff Hv].
    apply (Hmk [b0; b1; b2; b3] _ t3); [apply H4; [by apply W4|done|done|apply Hlead; lia]|intros t; cbn; by rewrite E0, E1, E2, E3, E4, E5, H1, H2, H3|done|done]. }
  destruct (b0 =? 244) eqn:E6.
  { apply andb_true_iff in Hv as [[[H1 H2]%andb_true_iff H3]%andb_true_iff Hv].
    apply (Hmk [b0; b1; b2; b3] _ t3); [apply H4; [by apply W1|done|done|apply Hlead; lia]|intros t; cbn; by rewrite E0, E1, E2, E3, E4, E5, E6, H1, H2, H3|done|done]. }
  destruct ((241 <=? b0) && (b0 <=? 243)) eqn:E7; [|done].
  apply andb_true_iff in Hv as [[[H1 H2]%andb_true_iff H3]%andb_true_iff Hv].
  apply (Hmk [b0; b1; b2; b3] _ t3); [apply H4; [done|done|done|apply Hlead; lia]|intros t; cbn; by rewrite E0, E1, E2, E3, E4, E5, E6, E7, H1, H2, H3|done|done].
Qed.

Lemma scalars_valid cs : Forall scalar cs -> utf8_valid (concat cs) = true.
Proof. induction 1 as [|c cs Hc _ IH]; [done|]. cbn [concat]. by rewrite (sc_next _ Hc). Qed.

Lemma valid_scalars s : utf8_valid s = true -> exists cs, s = concat cs /\ Forall scalar cs.
Proof.
  remember (length s) as n eqn:Hn. revert s Hn. induction (lt_wf n) as [n _ IH]. intros [|b0 t0] Hn Hv; [by exists []|].
  destruct (utf8_split b0 t0 Hv) as (c & t & Heq & Hc & Ht). destruct (sc_shape _ Hc) as (b & l & -> & _).
  destruct (IH (length t)) with (s := t) as (cs & -> & Hcs); [|done|done|].
  { subst n. rewrite Heq, length_app. cbn [length]. lia. }
  exists ((b :: l) :: cs). split; [exact Heq|by constructor].
Qed.

(** [pop] removes the last scalar. *)
Lemma pop_rev_conts l t : Forall (fun x => is_continuation x = true) l -> pop_rev (l ++ t) = pop_rev t.
Proof. induction 1 as [|x l Hx _ IH]; [done|]. cbn [app pop_rev]. by rewrite Hx. Qed.
Lemma pop_scalar cs c : scalar c -> pop (concat (cs ++ [c])) = concat cs.
Proof.
  intros [(b & l & -> & Hb & Hl) _]. unfold pop. rewrite concat_app. cbn [concat]. rewrite app_nil_r.
  rewrite reverse_app, reverse_cons, <- app_assoc, pop_rev_conts by (by apply Forall_reverse). cbn [app pop_rev]. rewrite Hb.
  by rewrite reverse_involutive.
Qed.

Lemma truncate_fuel_spec n limit cs :
  Forall scalar cs -> (length (concat cs) <= n)%nat -> 0 <= limit ->
  exists k, truncate_fuel n limit (concat cs) = concat (take k cs) /\ zlen (concat (take k cs)) <= limit.
Proof.
  intros Hcs. revert n. induction cs as [|c cs IH] using rev_ind; intros n Hn Hlim.
  - exists 0%nat. destruct n; cbn [truncate_fuel concat take]; [by split|]. cbn. rewrite (proj2 (Z.ltb_ge _ _)) by done. by split.
  - apply Forall_app in Hcs as [Hcs Hc]. apply Forall_cons in Hc as [Hc _].
    destruct n as [|n].
    { rewrite concat_app, length_app in Hn. destruct (sc_shape _ Hc) as (b & l & -> & _). cbn in Hn. lia. }
    cbn [truncate_fuel]. destruct (Z.ltb_spec limit (zlen (concat (cs ++ [c])))) as [Hlt|Hge].
    + rewrite pop_scalar by done. destruct (IH Hcs n) as (k & Hk & Hl); [|done|].
      { rewrite concat_app, length_app in Hn. destruct (sc_shape _ Hc) as (b & l & -> & _). cbn in Hn. lia. }
      exists (k `min` length cs)%nat. rewrite take_app_le by lia.
      replace (take (k `min` length cs) cs) with (take k cs); [done|]. destruct (decide (k <= length cs)%nat).
      * by rewrite Nat.min_l by lia.
      * by rewrite Nat.min_r, !take_ge by lia.
    + exists (length (cs ++ [c])). rewrite firstn_all. by split.
Qed.

(** What is left of a valid text is a valid prefix of it within the bound. *)
Lemma truncated limit s :
  utf8_valid s = true -> 0 <= limit ->
  utf8_valid (truncate_reason limit s) = true /\ zlen (truncate_reason limit s) <= limit /\ truncate_reason limit s `prefix_of` s.
Proof.
  intros (cs & -> & Hcs)%valid_scalars Hlim. unfold truncate_reason.
  destruct (truncate_fuel_spec (length (concat cs)) limit cs Hcs) as (k & -> & Hl); [done|done|]. split_and!; [|done|].
  - apply scalars_valid. by apply Forall_take.
  - exists (concat (drop k cs)). by rewrite <- concat_app, take_drop.
Qed.
