(* ===== verification/Acting.v ===== *)
(** * What one handler of the actor keeps (node/src/execution)

    [base s0 w]: the state in the actor's memory is one the store held, the one it
    holds while it is open; it evolved from [s0] by operations of the aggregate;
    and what the log shows is in order.  [inv] adds that the resident's checkpoint
    is the committed images while the execution runs.  Every handler keeps [inv],
    whether it returns or fails, and none panics. *)

From S2P Require Import Prelude Book Borsh Crypto Session Trace Negotiation Evidence Validation Receipt Frame Execution.
From S2P Require Import Invariant History Publish Guarantees Consistency Canonical NoPanic StateCodec Ranges Envelope ChangeLog Database.
From S2P Require Import Persist Store Registry Durable Writes Registered Refinement Simulation Resident Absorbing Actor.

#[local] Open Scope Z_scope.

(** ** Weakest preconditions *)

(** From [w], [m] does not panic, ends in [Q] when it returns, in [X] when it fails. *)
Definition wp {A} (m : AM A) (Q : A -> World -> Prop) (X : ExecError -> World -> Prop) (w : World) : Prop :=
  match m w with
  | (Ok a, w') => Q a w'
  | (Err e, w') => X e w'
  | (Panic, _) => False
  end.

Definition tick_w (w : World) : World := MkWorld (actor w) (db w) (dead w) (S (tick w)) (log w).
Definition put_w (f : Actor -> Actor) (w : World) : World := MkWorld (f (actor w)) (db w) (dead w) (tick w) (log w).
Definition act_w (x : Action) (w : World) : World :=
  MkWorld (actor w) (db w) (dead w) (tick w) (log w ++ [MkSeen (a_state (actor w)) (db w) (dead w) x]).

Section Rules.
Context {A B : Type}.

Lemma aw_sret (a : A) Q X w : Q a w -> wp (sret a) Q X w.
Proof. done. Qed.
Lemma aw_bind (m : AM A) (f : A -> AM B) Q X w : wp m (fun a w' => wp (f a) Q X w') X w -> wp (sbind m f) Q X w.
Proof. unfold wp, sbind. by destruct (m w) as [[a|e|] w']. Qed.
Lemma aw_mono (m : AM A) (Q Q' : A -> World -> Prop) (X X' : ExecError -> World -> Prop) w :
  wp m Q X w -> (forall a w', Q a w' -> Q' a w') -> (forall e w', X e w' -> X' e w') -> wp m Q' X' w.
Proof. unfold wp. destruct (m w) as [[a|e|] w']; auto. Qed.
Lemma aw_get (f : Actor -> A) Q X w : Q (f (actor w)) w -> wp (get f) Q X w.
Proof. done. Qed.
Lemma aw_ask (f : nat -> A) Q X w : (forall n, Q (f n) (tick_w w)) -> wp (ask f) Q X w.
Proof. intros HQ. apply HQ. Qed.
Lemma aw_lift (r : result ExecError A) Q X w :
  r <> Panic -> (forall a, r = Ok a -> Q a w) -> (forall e, r = Err e -> X e w) -> wp (lift r) Q X w.
Proof. unfold wp, lift, sread. destruct r; eauto. Qed.
Lemma aw_throw e (Q : A -> World -> Prop) (X : ExecError -> World -> Prop) w : X e w -> wp (throw e) Q X w.
Proof. done. Qed.
Lemma wp_try (m : AM A) (Q : result ExecError A -> World -> Prop) X w :
  wp m (fun a w' => Q (Ok a) w') (fun e w' => Q (Err e) w') w -> wp (try_ m) Q X w.
Proof. unfold wp, try_. by destruct (m w) as [[a|e|] w']. Qed.
Lemma wp_on_copy (m : M ExecutionState ProtocolError A) Q X w :
  (m (a_state (actor w))).1 <> Panic -> Q (m (a_state (actor w))) w -> wp (on_copy m) Q X w.
Proof. unfold wp, on_copy. destruct (m (a_state (actor w))) as [[a|e|] s]; simpl; auto. Qed.
Lemma wp_transition (m : M ExecutionState ProtocolError A) Q (X : ExecError -> World -> Prop) w :
  (m (a_state (actor w))).1 <> Panic ->
  (forall a s, m (a_state (actor w)) = (Ok a, s) -> Q (a, s) w) ->
  (forall e, X e w) -> wp (transition m) Q X w.
Proof.
  intros Hp HQ HX. unfold transition, wp, sbind, on_copy. destruct (m (a_state (actor w))) as [[a|e|] s]; simpl in *; auto; try done.
Qed.
End Rules.

Lemma aw_put f Q X w : Q tt (put_w f w) -> wp (put f) Q X w.
Proof. done. Qed.
Lemma aw_act x Q X w : Q tt (act_w x w) -> wp (act x) Q X w.
Proof. done. Qed.

(** One step of symbolic execution. *)
Ltac wp1 :=
  match goal with
  | |- wp (sbind _ _) _ _ _ => apply aw_bind
  | |- wp (sret _) _ _ _ => apply aw_sret
  | |- wp (get _) _ _ _ => apply aw_get; cbv beta delta [id]
  | |- wp (put _) _ _ _ => apply aw_put
  | |- wp (act _) _ _ _ => apply aw_act
  | |- wp (ask _) _ _ _ => apply aw_ask; intros ?
  | |- wp (throw _) _ _ _ => apply aw_throw
  | |- wp (try_ _) _ _ _ => apply wp_try
  | |- wp (when ?b _) _ _ _ => unfold when; destruct b eqn:?
  | |- wp (if ?b then _ else _) _ _ _ => destruct b eqn:?
  | |- wp (let _ := _ in _) _ _ _ => cbv zeta
  end.

(** ** What the actor relies on *)

Section Reliance.
Context `{Crypto, LocalKeys} (ctx : ActorContext) (env : Surroundings) (dir : bytes).

(** The store [b] came from calls the store allows and holds [s] for this execution. *)
Definition durable_in (b : Database) (s : ExecutionState) : Prop :=
  exists A tr, history local_peer dir b A /\ A !! ctx_exec ctx = Some (s, tr).

(** The same, and it holds no execution here yet. *)
Definition absent_in (b : Database) : Prop := exists A, history local_peer dir b A /\ A !! ctx_exec ctx = None.
Definition holds_in (b : Database) (o : option ExecutionState) : Prop :=
  match o with Some s => durable_in b s | None => absent_in b end.

(** Other users of the store leave this execution alone. *)
Definition others_leave : Prop := forall n b o, holds_in b o -> holds_in (interfere env n b) o.

(** What a guest returns has its types' bounds. *)
Definition guest_typed : Prop := forall n sh lo c g,
  guest env n sh lo c = inr g ->
  Forall (cwf c_effect) (gr_effects g) /\ forall r, gr_callout g = Some r -> request_ranged r.
Definition initial_typed : Prop := forall n ps p,
  guest_initialize env n ps = inr p -> zlen p.1 <= MAX_SHARED_STATE_BYTES /\ zlen p.2 <= MAX_LOCAL_STATE_BYTES.
End Reliance.

(** The keys sign, digests and signatures have their lengths and no digest is zero,
    the context's fields have their types' bounds, errors print as text, and the
    store and the guest behave as above. *)
Class Hosting `{Crypto, LocalKeys} (ctx : ActorContext) (env : Surroundings) (dir : bytes) (display : ExecError -> bytes) : Prop := {
  host_keys : KeysSign;
  host_digest : forall bs, 0 < blake3 bs < 256 ^ 32;
  host_aggregate : forall l z, blst_aggregate l = inr z -> 0 <= z < 256 ^ 48;
  host_others : others_leave ctx env dir;
  host_guest : guest_typed env;
  host_initial : initial_typed env;
  host_context : cwf c_id (ctx_exec ctx) /\ cwf c_activation (ctx_activation ctx);
  host_text : forall e, utf8_valid (display e) = true }.

(** ** The invariant *)

Section Acting.
Context `{Hosting}.
#[local] Abbreviation durable_in := (durable_in ctx dir).

Lemma digest_range : forall bs, 0 <= blake3 bs < 256 ^ 32.
Proof. intros bs. pose proof (host_digest bs). lia. Qed.
Lemma aggregate_range : forall l z, blst_aggregate l = inr z -> 0 <= z < 256 ^ 48.
Proof. apply host_aggregate. Qed.

(** The frames a state has to deliver. *)
Definition frames_of (s : ExecutionState) : result ExecError (list ExecFrame) :=
  if is_terminal (status s) then Ok (option_list (terminal_evidence s)) else current_frames s local_peer.

Definition is_conclusion (m : SessionMessage) : bool :=
  match m with CompletedMsg _ _ | AbortedMsg _ _ | FailedMsg _ => true | _ => false end.
Definition conclusions (l : list Seen) : list Seen :=
  filter (fun x => match seen_action x with Observe m => is_conclusion m | _ => false end = true) l.

(** What an action needs of the state it is taken in. *)
Definition supported (s : ExecutionState) (x : Action) : Prop :=
  match x with
  | EnterDispatch sh lo c =>
      status s = Active /\ proposal s = None /\ sh = Some (shared_state s) /\ lo = Some (local_state s)
  | SpawnSend to f => is_participant (binding s) to = true /\ exists l, frames_of s = Ok l /\ f ∈ l
  | SpawnDirect to e => is_terminal (status s) = false /\ List.hd_error (direct_queue s to) = Some e
  | Acknowledge source f => absorbed s source f = true
  | Observe (ReceiptPublished a) => published_receipt_id s = Some (receipt_id a)
  | Observe m => is_conclusion m = true -> is_some (published_receipt_id s) = true
  | _ => True
  end.

Definition seen_ok (x : Seen) : Prop :=
  supported (seen_state x) (seen_action x) /\ (exists b, durable_in b (seen_state x)) /\
  (seen_dead x = false -> durable_in (seen_db x) (seen_state x)).

Record base (s0 : ExecutionState) (w : World) : Prop := {
  b_durable : exists b, durable_in b (a_state (actor w));
  b_alive : dead w = false -> durable_in (db w) (a_state (actor w));
  b_evolves : rtc op_step s0 (a_state (actor w));
  b_log : Forall seen_ok (log w);
  b_emitted : length (conclusions (log w)) = if a_terminal_emitted (actor w) then 1%nat else 0%nat }.

(** The resident holds the committed images, live and as its checkpoint; during a
    dispatch, only as its checkpoint. *)
Definition resident_ok (a : Actor) : Prop :=
  is_terminal (status (a_state a)) = false ->
  forall i, a_instance a = Some i -> holds (shared_state (a_state a)) (local_state (a_state a)) i.
Definition checkpoint_ok (a : Actor) : Prop :=
  is_terminal (status (a_state a)) = false ->
  forall i, a_instance a = Some i -> checkpoint (shared_state (a_state a)) (local_state (a_state a)) i.

Definition inv (s0 : ExecutionState) (w : World) : Prop := base s0 w /\ resident_ok (actor w).

(** What a part of a handler that only reads leaves. *)
Record alike (w w' : World) : Prop := {
  al_state : a_state (actor w') = a_state (actor w);
  al_instance : a_instance (actor w') = a_instance (actor w);
  al_emitted : a_terminal_emitted (actor w') = a_terminal_emitted (actor w);
  al_log : log w' = log w }.

Lemma alike_refl w : alike w w.
Proof. done. Qed.
Lemma alike_trans w1 w2 w3 : alike w1 w2 -> alike w2 w3 -> alike w1 w3.
Proof. intros [] []. split; congruence. Qed.

Lemma inv_alike s0 w w' : inv s0 w -> base s0 w' -> alike w w' -> inv s0 w'.
Proof. intros [_ Hr] Hb [E1 E2 _ _]. split; [done|]. unfold resident_ok in *. by rewrite E1, E2. Qed.

Lemma base_tick s0 w : base s0 w -> base s0 (tick_w w).
Proof. intros []. by split. Qed.
Lemma inv_tick s0 w : inv s0 w -> inv s0 (tick_w w).
Proof. intros [? ?]. split; [by apply base_tick|done]. Qed.

(** An update of the actor beside the state, the resident and the terminal flag. *)
Definition quiet_put (f : Actor -> Actor) : Prop := forall a,
  a_state (f a) = a_state a /\ a_instance (f a) = a_instance a /\ a_terminal_emitted (f a) = a_terminal_emitted a.

Lemma alike_put f w : quiet_put f -> alike w (put_w f w).
Proof. intros Hf. destruct (Hf (actor w)) as (? & ? & ?). by split. Qed.
Lemma base_put s0 f w :
  (forall a, a_state (f a) = a_state a /\ a_terminal_emitted (f a) = a_terminal_emitted a) -> base s0 w -> base s0 (put_w f w).
Proof.
  intros Hf []. destruct (Hf (actor w)) as (E1 & E2).
  split; cbn [put_w actor db dead tick log]; rewrite ?E1, ?E2; done.
Qed.
Lemma inv_put s0 f w : quiet_put f -> inv s0 w -> inv s0 (put_w f w).
Proof.
  intros Hf Hi. eapply inv_alike; [exact Hi| |by apply alike_put]. apply base_put; [|apply Hi].
  intros a. by destruct (Hf a) as (? & ? & ?).
Qed.
Lemma inv_drop s0 w : base s0 w -> inv s0 (put_w (set_instance None) w).
Proof. intros Hb. split; [|by intros _ i [=]]. by apply base_put. Qed.

Lemma base_act s0 x w :
  base s0 w -> supported (a_state (actor w)) x -> (forall m, x = Observe m -> is_conclusion m = false) -> base s0 (act_w x w).
Proof.
  intros [B1 B2 B3 B4 B5] Hs Hn. split; cbn [act_w actor db dead log]; try done.
  - apply Forall_app. split; [done|]. apply Forall_singleton. by split_and!.
  - unfold conclusions. rewrite filter_app, filter_cons_False, filter_nil, app_nil_r; [done|]. simpl.
    destruct x; try done. by rewrite (Hn m).
Qed.
Lemma inv_act s0 x w :
  inv s0 w -> supported (a_state (actor w)) x -> (forall m, x = Observe m -> is_conclusion m = false) -> inv s0 (act_w x w).
Proof. intros [Hb Hr] Hs Hn. split; [by apply base_act|exact Hr]. Qed.

(** ** The store *)

Lemma durable_stored b s :
  durable_in b s ->
  settled b /\ host_id b = local_peer /\
  exists A tr, represents local_peer (disk b) A /\ A !! ctx_exec ctx = Some (s, tr) /\
    stored local_peer (disk b) (ctx_exec ctx) s tr.
Proof.
  intros (A & tr & Hh & Hs). destruct (history_represents digest_range aggregate_range _ _ _ _ Hh) as (Hset & Hho & Hr).
  split_and!; [done|done|]. exists A, tr. split_and!; [done|done|]. pose proof (rp_held _ _ _ Hr (ctx_exec ctx)) as Hheld.
  by rewrite Hs in Hheld.
Qed.

Lemma durable_live b s : durable_in b s -> exists tr, live s tr /\ execution_id s = ctx_exec ctx /\ producer s = local_peer.
Proof. intros (_ & _ & A & tr & _ & _ & Hst)%durable_stored. exists tr. split_and!; apply Hst. Qed.

Lemma base_live s0 w :
  base s0 w -> exists tr, live (a_state (actor w)) tr /\ execution_id (a_state (actor w)) = ctx_exec ctx /\
    producer (a_state (actor w)) = local_peer.
Proof. intros [[b Hb] _ _ _ _]. by eapply durable_live. Qed.

Lemma base_wf s0 w : base s0 w -> wf (a_state (actor w)).
Proof. intros (tr & Hl & _)%base_live. by eapply live_wf. Qed.

(** The world after a call: the store is closed, or open on [b]. *)
Definition after_call (b : Database) (closed : bool) (w : World) : World := MkWorld (actor w) b closed (S (tick w)) (log w).

Lemma base_call s0 w b d :
  base s0 w -> (d = false -> durable_in b (a_state (actor w))) -> base s0 (after_call b d w).
Proof. intros [B1 B2 B3 B4 B5] Hb. by split. Qed.
Lemma alike_call w b d : alike w (after_call b d w).
Proof. done. Qed.

(** A call of the store: it is refused, or runs on an open store that holds the
    state of the actor. *)
Lemma wp_store_run {A} (m : nat -> db_op A) Q X s0 w :
  base s0 w ->
  (forall b d e, base s0 (after_call b d w) -> X e (after_call b d w)) ->
  (forall b n, durable_in b (a_state (actor w)) -> poisoned b = false ->
     match m n b with
     | (Ok a, b') => Q a (after_call b' false w)
     | (Err e, b') => X (from_store e) (after_call b' false w)
     | (Panic, b') => True
     end) ->
  wp (store_run env m) Q X w.
Proof.
  intros Hb HX HQ. unfold wp, store_run. destruct (dead w) eqn:Hd.
  { apply (HX _ true). apply base_call; [done|]. by intros [=]. }
  assert (durable_in (interfere env (tick w) (db w)) (a_state (actor w))) as Hi by (apply (host_others _ _ (Some _)), (b_alive _ _ Hb Hd)).
  destruct (other_panics env (tick w)). { apply (HX _ true). apply base_call; [done|]. by intros [=]. }
  destruct (poisoned _) eqn:Hp. { apply (HX _ false). apply base_call; [done|]. done. }
  specialize (HQ _ (tick w) Hi Hp). destruct (m (tick w) _) as [[a|e|] b']; [done|done|].
  apply (HX _ true). apply base_call; [done|]. by intros [=].
Qed.

(** A read sees the tables the state is stored in. *)
Lemma wp_store_read {A} (g : PeerId -> Tables -> result StoreError A) Q X s0 w :
  base s0 w ->
  (forall e w', base s0 w' -> alike w w' -> X e w') ->
  (forall a t w' M tr, base s0 w' -> alike w w' -> represents local_peer t M -> M !! ctx_exec ctx = Some (a_state (actor w), tr) ->
     stored local_peer t (ctx_exec ctx) (a_state (actor w)) tr -> g local_peer t = Ok a -> Q a w') ->
  wp (store_read env g) Q X w.
Proof.
  intros Hb HX HQ. eapply wp_store_run; [exact Hb| |].
  - intros b d e Hb'. by apply HX.
  - intros b n Hdb Hp. cbn [sread]. unfold sread. destruct (read_fault env n) as [e|].
    { apply HX; [|done]. by apply base_call. }
    destruct (durable_stored _ _ Hdb) as (Hset & Hho & M & tr & Hr & Hm & Hst). destruct (Hset Hp) as [Hv _]. rewrite Hho, Hv.
    destruct (g local_peer (disk b)) as [a|e|] eqn:Hg; [| |done].
    + eapply HQ; [by apply base_call|done|exact Hr|exact Hm|exact Hst|exact Hg].
    + apply HX; [|done]. by apply base_call.
Qed.

(** ** Persistence *)

Lemma computed_steps s s' c log : computed s s' c log -> rtc op_step s s'.
Proof.
  intros [op r ? _ [Hp _] Hr|e sh lo ef o pid rq r ? tm bl [Hp _] _ Hr|e sh lo ef o pid rq r s1 from seq r' ? tm bl [Hp _] _ Hr [Hp' _] Hr'
    |sg p ? [Hp _] Hr|cert p ? [Hp _] Hr|a r ? [Hp _] Hr]; try (apply rtc_once; eexists _, _; split; [exact Hp|exact Hr]).
  eapply rtc_l; [eexists _, _; split; [exact Hp|exact Hr]|]. apply rtc_once. eexists _, _. split; [exact Hp'|exact Hr'].
Qed.

Definition advance_w (next : ExecutionState) (b : Database) (w : World) : World :=
  MkWorld (set_state next (actor w)) b false (S (S (tick w))) (log w).

(** A transition the aggregate computed is written, and only then taken over. *)
Lemma persist_transition_wp next c log0 s0 w Q (X : ExecError -> World -> Prop) :
  base s0 w -> computed (a_state (actor w)) next c log0 ->
  (forall b, base s0 (advance_w next b w) -> Q tt (advance_w next b w)) ->
  (forall e w', base s0 w' -> alike w w' -> X e w') ->
  wp (persist_transition ctx env next c) Q X w.
Proof.
  intros Hb Hc HQ HX. unfold persist_transition. wp1. wp1. wp1. apply aw_ask. intros now. wp1.
  eapply wp_store_run; [by apply base_tick| |].
  { intros b d e Hb'. by apply HX. }
  intros b n Hdb Hp. cbn [actor tick_w] in Hdb.
  set (r := MkTransition (version (a_state (actor w))) next c (unix_ms env now)).
  destruct Hdb as (A & tr & Hh & Hs).
  assert (allowed A (CallPersist (ctx_exec ctx) r)) as Hal by (exists (a_state (actor w)), tr, log0; done).
  destruct (persist (tx_faults env n) (ctx_exec ctx) r b) as [[u|e|] b'] eqn:Hr; [| |done].
  - destruct u. apply aw_put. apply (HQ b').
    assert (durable_in b' next) as Hd.
    { exists (applied A (CallPersist (ctx_exec ctx) r)). cbn [applied]. rewrite Hs. cbn [Persist.next Persist.change r].
      eexists. split; [|apply lookup_insert_eq].
      pose proof (hist_ok _ _ (tx_faults env n) (CallPersist (ctx_exec ctx) r) _ _ tt _ Hh Hal Hr) as Hok.
      cbn [applied] in Hok. by rewrite Hs in Hok. }
    destruct Hb as [B1 B2 B3 B4 B5]. split; cbn [advance_w actor db dead log a_state set_state]; try done.
    + by exists b'.
    + etransitivity; [exact B3|by eapply computed_steps].
  - apply HX; [|done]. apply (base_call _ (tick_w w)); [by apply base_tick|]. intros _. exists A, tr. split; [|done].
    exact (hist_err _ _ (tx_faults env n) (CallPersist (ctx_exec ctx) r) _ _ _ _ Hh Hal Hr).
Qed.

Lemma inv_terminal s0 w : base s0 w -> is_terminal (status (a_state (actor w))) = true -> inv s0 w.
Proof. intros Hb Ht. split; [done|]. intros Hn. congruence. Qed.

(** Parts that only read the store and set the timer. *)
Definition reads {A} (m : AM A) : Prop := forall s0 w, base s0 w ->
  wp m (fun _ w' => base s0 w' /\ alike w w') (fun _ w' => base s0 w' /\ alike w w') w.

Lemma reads_use {A} (m : AM A) (Q : A -> World -> Prop) (X : ExecError -> World -> Prop) s0 w :
  reads m -> base s0 w -> (forall a w', base s0 w' -> alike w w' -> Q a w') ->
  (forall e w', base s0 w' -> alike w w' -> X e w') -> wp m Q X w.
Proof. intros Hm Hb HQ HX. eapply aw_mono; [by apply Hm| |]; intros ? ? [? ?]; eauto. Qed.

Lemma recovered_deadline_reads : reads (recovered_deadline ctx env).
Proof.
  intros s0 w Hb. unfold recovered_deadline. wp1. eapply wp_store_read; [exact Hb|by auto|].
  intros o t w' M tr Hb' Ha _ _ _ _. wp1. apply aw_lift; [by destruct o| |by auto]. intros u _.
  repeat wp1. split; [by do 2 apply base_tick|by destruct Ha].
Qed.
Lemma fresh_deadline_reads : reads (fresh_deadline ctx env).
Proof. intros s0 w Hb. unfold fresh_deadline. repeat wp1. split; [by apply base_tick|done]. Qed.

Lemma set_timer_quiet t : quiet_put (set_end_timer t).
Proof. done. Qed.

Lemma sync_end_timer_wp s0 w Q (X : ExecError -> World -> Prop) :
  base s0 w -> (forall w', base s0 w' -> alike w w' -> Q tt w') ->
  (forall e w', base s0 w' -> alike w w' -> is_terminal (status (a_state (actor w))) = true -> X e w') ->
  wp (sync_end_timer ctx env) Q X w.
Proof.
  intros Hb HQ HX. unfold sync_end_timer. wp1. wp1. cbv zeta.
  assert (forall w' t, base s0 w' -> alike w w' -> Q tt (put_w (set_end_timer t) w')) as Hset.
  { intros w' t Hb' Ha. apply HQ; [by apply base_put|]. eapply alike_trans; [exact Ha|by apply alike_put]. }
  pose proof (open_running _ (base_wf _ _ Hb)) as Hopen.
  destruct (end_phase (a_state (actor w))) as [|u|u] eqn:He.
  - wp1. by apply Hset.
  - assert (is_terminal (status (a_state (actor w))) = true) as Ht by (destruct (is_terminal _); naive_solver).
    assert (forall k, reads k -> wp (let! d := k in put (set_end_timer (Some (MkEndTimer (version (a_state (actor w))) TimerEnding d)))) Q X w) as Hk.
    { intros k Hk. wp1. eapply reads_use; [exact Hk|exact Hb| |by auto]. intros d w' Hb' Ha. wp1. by apply Hset. }
    destruct (a_end_timer (actor w)) as [t|]; [|by apply Hk, recovered_deadline_reads].
    destruct (_ && _); [wp1; by apply HQ|]. apply Hk. destruct (bool_decide _); [apply fresh_deadline_reads|apply recovered_deadline_reads].
  - case_bool_decide; [wp1; by apply Hset|]. wp1.
    assert (is_terminal (status (a_state (actor w))) = true) as Ht by (destruct (is_terminal _); naive_solver).
    eapply reads_use; [|exact Hb|intros d w' Hb' Ha; wp1; by apply Hset|by auto].
    intros s1 w1 Hb1. destruct (a_end_timer (actor w)) as [t|]; [|by apply fresh_deadline_reads].
    destruct (_ || _); [by wp1|by apply fresh_deadline_reads].
Qed.

(** Whoever reads the state back reads what the actor has. *)
Lemma load_state_wp s0 w Q (X : ExecError -> World -> Prop) :
  base s0 w -> (forall w', base s0 w' -> alike w w' -> Q (Some (a_state (actor w))) w') ->
  (forall e w', base s0 w' -> alike w w' -> X e w') -> wp (load_state ctx env) Q X w.
Proof.
  intros Hb HQ HX. eapply wp_store_read; [exact Hb|done|]. intros o t w' M tr Hb' Ha _ _ Hst Hl.
  rewrite (load_stored digest_range aggregate_range _ _ _ _ _ Hst) in Hl. injection Hl as <-. by apply HQ.
Qed.

Lemma set_state_same s0 w : base s0 w -> put_w (set_state (a_state (actor w))) w = w.
Proof. intros _. destruct w as [[] ? ? ? ?]. done. Qed.

Lemma resync_wp r s0 w Q (X : ExecError -> World -> Prop) :
  base s0 w -> r <> Panic ->
  (r = Ok tt -> forall w', base s0 w' -> alike w w' -> Q tt w') ->
  (forall e w', inv s0 w' -> a_state (actor w') = a_state (actor w) -> log w' = log w -> X e w') ->
  wp (resync_on_error ctx env r) Q X w.
Proof.
  intros Hb Hr HQ HX. unfold resync_on_error. destruct r as [[]|e|]; [| |done].
  - apply (sync_end_timer_wp s0); [done|by apply HQ|]. intros e w' Hb' [E1 E2 E3 E4] Ht. apply HX; [|done|done].
    apply inv_terminal; [done|]. by rewrite E1.
  - wp1. wp1. wp1. pose proof (inv_drop _ _ Hb) as Hi. set (w1 := put_w (set_instance None) w) in *.
    apply (load_state_wp s0); [apply Hi| |].
    + intros w' Hb' Ha. wp1. apply aw_lift; [done| |done]. intros s [= <-]. wp1. wp1. wp1.
      replace (a_state (actor w)) with (a_state (actor w')) by apply Ha. rewrite (set_state_same s0 w' Hb').
      apply HX; [by eapply inv_alike|apply Ha|apply Ha].
    + intros e' w' Hb' Ha. apply HX; [by eapply inv_alike|apply Ha|apply Ha].
Qed.

Lemma observe_ignored_wp m s0 w Q (X : ExecError -> World -> Prop) :
  is_conclusion m = false -> (forall a, m <> ReceiptPublished a) -> base s0 w ->
  (forall w', base s0 w' -> actor w' = actor w -> Q tt w') -> wp (observe_ignored env m) Q X w.
Proof.
  intros Hm Hr Hb HQ. unfold observe_ignored. wp1. wp1. destruct (observer_open env n); cbn [when].
  - wp1. apply HQ; [|done]. apply base_act; [by apply base_tick| |by intros ? [= <-]]. destruct m; try done. by destruct (Hr a).
  - wp1. apply HQ; [by apply base_tick|done].
Qed.

(** [persist]: the state moves exactly when it was written; a failure leaves the
    invariant. *)
Lemma persist_next_wp next c log0 s0 w Q (X : ExecError -> World -> Prop) :
  base s0 w -> computed (a_state (actor w)) next c log0 ->
  (forall w', base s0 w' -> a_state (actor w') = next -> a_instance (actor w') = a_instance (actor w) -> Q tt w') ->
  (forall e w', inv s0 w' -> X e w') ->
  wp (persist_next ctx env next c) Q X w.
Proof.
  intros Hb Hc HQ HX. unfold persist_next. wp1. wp1. wp1. apply wp_try.
  eapply persist_transition_wp; [exact Hb|exact Hc| |].
  - intros b Hb'. wp1. wp1. wp1.
    assert (forall w1, base s0 w1 -> actor w1 = set_state next (actor w) ->
      wp (resync_on_error ctx env (Ok tt)) Q X w1) as Hsync.
    { intros w1 Hb1 Ha. apply (resync_wp _ s0); [done|done| |by auto]. intros _ w' Hb2 [E1 E2 _ _].
      apply HQ; [done|by rewrite E1, Ha|by rewrite E2, Ha]. }
    cbn [is_ok andb]. destruct (negb _); cbn [when].
    + apply (observe_ignored_wp _ s0); [done|done|done|]. intros w1 Hb1 Ha. apply Hsync; [done|by rewrite Ha].
    + wp1. by apply Hsync.
  - intros e w' Hb' Ha. wp1. wp1. wp1. cbn [is_ok andb when]. wp1. by apply (resync_wp _ s0); [done|done|done|auto].
Qed.

(** The same for a transition that keeps the images. *)
Lemma persist_kept_wp next c log0 s0 w Q (X : ExecError -> World -> Prop) :
  inv s0 w -> computed (a_state (actor w)) next c log0 ->
  shared_state next = shared_state (a_state (actor w)) -> local_state next = local_state (a_state (actor w)) ->
  (is_terminal (status (a_state (actor w))) = true -> is_terminal (status next) = true) ->
  (forall w', inv s0 w' -> a_state (actor w') = next -> a_instance (actor w') = a_instance (actor w) -> Q tt w') ->
  (forall e w', inv s0 w' -> X e w') ->
  wp (persist_next ctx env next c) Q X w.
Proof.
  intros [Hb Hr] Hc Hsh Hlo Ht HQ HX. eapply persist_next_wp; [exact Hb|exact Hc| |exact HX].
  intros w' Hb' Hs Hi. apply HQ; [|done|done]. split; [done|]. intros Hn i Hi'. rewrite Hs in *. rewrite Hi in Hi'.
  rewrite Hsh, Hlo. apply Hr; [|done]. destruct (is_terminal (status (a_state (actor w)))); [|done]. by rewrite Ht in Hn.
Qed.

(** ** The resident *)

Lemma wp_sandbox {A} (r : result SandboxError A) Q (X : ExecError -> World -> Prop) w :
  r <> Panic -> (forall a, r = Ok a -> Q a w) -> (forall e, r = Err e -> X (SandboxUnavailable e) w) -> wp (sandbox r) Q X w.
Proof. destruct r as [a|e|]; intros Hr HQ HX; [by apply HQ|by apply HX|done]. Qed.

Lemma base_instance s0 i w : base s0 w -> base s0 (put_w (set_instance i) w).
Proof. by apply base_put. Qed.

Lemma restore_resident_wp s0 w Q (X : ExecError -> World -> Prop) :
  base s0 w ->
  (forall w' i, base s0 w' -> a_state (actor w') = a_state (actor w) -> a_instance (actor w') = Some i ->
     holds (shared_state (a_state (actor w))) (local_state (a_state (actor w))) i -> Q tt w') ->
  (forall e w', base s0 w' -> alike w w' -> X e w') ->
  wp (restore_resident env) Q X w.
Proof.
  intros Hb HQ HX. unfold restore_resident. wp1. wp1. wp1. wp1. wp1. apply wp_sandbox; [apply resident_noPanic| |].
  - intros i Hi. wp1. eapply HQ; [apply base_instance; by apply base_tick|done|done|by eapply resident_holds].
  - intros e _. apply HX; [by apply base_tick|done].
Qed.

(** A call on the resident, which is rebuilt first when it was dropped. *)
Lemma on_resident_wp {A} (m : nat -> M ProgramInstance SandboxError A) s0 w (Q : result SandboxError A -> World -> Prop) (X : ExecError -> World -> Prop) :
  base s0 w ->
  (forall n i w1, base s0 w1 -> a_state (actor w1) = a_state (actor w) ->
     (a_instance (actor w) = Some i \/ a_instance (actor w) = None /\
      holds (shared_state (a_state (actor w))) (local_state (a_state (actor w))) i) ->
     (m n i).1 <> Panic /\ Q (m n i).1 (put_w (set_instance (Some (m n i).2)) w1)) ->
  (forall e w', base s0 w' -> alike w w' -> a_instance (actor w) = None -> X e w') ->
  wp (on_resident env m) Q X w.
Proof.
  intros Hb HQ HX. unfold on_resident, ensure_resident. wp1. wp1. wp1.
  assert (forall i w1, base s0 w1 -> a_state (actor w1) = a_state (actor w) -> a_instance (actor w1) = Some i ->
    (a_instance (actor w) = Some i \/ a_instance (actor w) = None /\ holds (shared_state (a_state (actor w))) (local_state (a_state (actor w))) i) ->
    wp (let! i := get a_instance in let! i := lift (expect i) in let! n := ask id in
        let '(r, i') := m n i in put (set_instance (Some i')) ;;!
        match r with Panic => lift Panic | _ => sret r end) Q X w1) as Hcall.
  { intros i w1 Hb1 Hs Hi Hor. wp1. wp1. rewrite Hi. wp1. apply aw_lift; [done| |done]. intros ? [= <-]. wp1. wp1.
    destruct (HQ n i (tick_w w1)) as [Hp Hq]; [by apply base_tick|done|done|]. cbv beta delta [id]. destruct (m n i) as [r i']. wp1. wp1.
    destruct r; [wp1; exact Hq|wp1; exact Hq|by destruct Hp]. }
  destruct (a_instance (actor w)) as [i|] eqn:Hi.
  - wp1. by eapply Hcall; [|done|exact Hi|left].
  - apply (restore_resident_wp s0); [done| |by auto]. intros w1 i Hb1 Hs Hi' Hh. by eapply Hcall; [|exact Hs|exact Hi'|right].
Qed.

Lemma restore_committed_keeps f i : 
  committed_shared (restore_committed f i).2 = committed_shared i /\ committed_local (restore_committed f i).2 = committed_local i.
Proof. unfold restore_committed. by destruct f. Qed.

Lemma dispatch_keeps sm lm g f c i :
  committed_shared (dispatch sm lm g f c i).2 = committed_shared i /\ committed_local (dispatch sm lm g f c i).2 = committed_local i.
Proof.
  unfold dispatch. cbv [sbind sread smodify sret]. destruct (into_input c); [|done|done].
  destruct (encode_envelope _ _); [|done|done]. destruct (g _ _ c) as [e|x]; [apply restore_committed_keeps|].
  destruct (gr_rejected x).
  - pose proof (restore_committed_keeps f i) as Hk. destruct (restore_committed f i) as [[]]; exact Hk.
  - destruct (resident_payloads _ _ _) as [[s l]|e|]; [done| |done].
    exact (restore_committed_keeps f (MkInstance (gr_shared x) (gr_local x) (committed_shared i) (committed_local i))).
Qed.

Lemma resident_checkpoint a : resident_ok a -> checkpoint_ok a.
Proof. intros Hr Hn i Hi. by apply holds_checkpoint, Hr. Qed.

(** Inside a dispatch the checkpoint is what is left to restore. *)
Definition mid (s0 : ExecutionState) (w : World) : Prop := base s0 w /\ checkpoint_ok (actor w).
Lemma inv_mid s0 w : inv s0 w -> mid s0 w.
Proof. intros [Hb Hr]. split; [done|by apply resident_checkpoint]. Qed.
Lemma mid_alike s0 w w' : mid s0 w -> base s0 w' -> alike w w' -> mid s0 w'.
Proof. intros [_ Hr] Hb [E1 E2 _ _]. split; [done|]. unfold checkpoint_ok in *. by rewrite E1, E2. Qed.

Lemma discard_candidate_wp s0 w Q (X : ExecError -> World -> Prop) :
  mid s0 w -> (forall w', inv s0 w' -> a_state (actor w') = a_state (actor w) -> Q tt w') ->
  (forall e w', inv s0 w' -> X e w') -> wp (discard_candidate env) Q X w.
Proof.
  intros [Hb Hr] HQ HX. unfold discard_candidate. wp1. apply (on_resident_wp _ s0); [done| |].
  - intros n i w1 Hb1 Hs Hi. split; [apply restore_committed_noPanic|].
    pose proof (restore_committed_noPanic (engine_fault env n) i) as Hnp.
    destruct (restore_committed (engine_fault env n) i) as [r i'] eqn:Hc; cbn [fst snd] in *.
    destruct r as [[]|e|]; [| |done]; cbn [is_ok negb when].
    + wp1. wp1. apply wp_sandbox; [done| |done]. intros [] _. apply HQ; [|exact Hs]. split; [by apply base_instance|].
      intros Hn j [= <-]. cbn [actor put_w a_state set_instance] in *. rewrite Hs in *.
      eapply restore_committed_holds; [|exact Hc]. destruct Hi as [Hi|[_ Hi]]; [by apply Hr|by apply holds_checkpoint].
    + wp1. wp1. apply wp_sandbox; [done|done|]. intros e' _. apply HX. by apply inv_drop, base_instance.
  - intros e w' Hb' Ha Hn. apply HX. split; [done|]. intros _ i Hi. rewrite (al_instance _ _ Ha) in Hi. congruence.
Qed.

Lemma reload_resident_wp s0 w Q (X : ExecError -> World -> Prop) :
  base s0 w -> (forall w', inv s0 w' -> a_state (actor w') = a_state (actor w) -> Q tt w') ->
  (forall e w', inv s0 w' -> X e w') -> wp (reload_resident env) Q X w.
Proof.
  intros Hb HQ HX. unfold reload_resident. wp1. wp1. destruct (a_instance (actor w)) as [i|] eqn:Hi.
  - wp1. wp1. wp1. apply (on_resident_wp _ s0); [done| |].
    + intros n j w1 Hb1 Hs _. split; [apply restore_payloads_noPanic|].
      set (m := restore_payloads _ _ _ _ _ j). pose proof (restore_payloads_noPanic (shared_max env) (local_max env) (engine_fault env n)
        (shared_state (a_state (actor w))) (local_state (a_state (actor w))) j) as Hnp. fold m in Hnp.
      destruct m as [r i'] eqn:Hm; cbn [fst snd] in *. destruct r as [[]|e|]; [| |done]; cbn [is_ok negb when].
      * wp1. wp1. apply wp_sandbox; [done| |done]. intros [] _. apply HQ; [|exact Hs].
        split; [by apply base_instance|]. intros _ k [= <-]. cbn [actor put_w a_state set_instance].
        rewrite Hs. by eapply restore_payloads_holds.
      * wp1. wp1. apply wp_sandbox; [done|done|]. intros e' _. apply HX. by apply inv_drop, base_instance.
    + intros e w' Hb' Ha Hn. congruence.
  - wp1. apply HQ; [|done]. split; [done|]. intros _ j Hj. congruence.
Qed.

Lemma ensure_resident_wp s0 w Q (X : ExecError -> World -> Prop) :
  inv s0 w -> (forall w' i, inv s0 w' -> a_state (actor w') = a_state (actor w) -> a_instance (actor w') = Some i -> Q tt w') ->
  (forall e w', inv s0 w' -> X e w') -> wp (ensure_resident env) Q X w.
Proof.
  intros Hi HQ HX. unfold ensure_resident. wp1. wp1. destruct (a_instance (actor w)) as [i|] eqn:Hs.
  - wp1. by eapply HQ.
  - apply (restore_resident_wp s0); [apply Hi| |].
    + intros w' i Hb Hst Hin Hh. eapply HQ; [|done|done]. split; [done|]. intros _ j Hj. rewrite Hst. congruence.
    + intros e w' Hb Ha. apply HX. by eapply inv_alike.
Qed.

Lemma ensemble_wp s0 w Q X :
  base s0 w -> (forall en, binding_ensemble (binding (a_state (actor w))) = Ok en -> Q en w) -> wp ensemble Q X w.
Proof.
  intros Hb HQ. unfold ensemble. wp1. wp1. destruct (binding_ensemble_Ok _ (wf_binding _ (base_wf _ _ Hb))) as [en Hen]. rewrite Hen.
  apply aw_lift; [done| |done]. intros ? [= <-]. by apply HQ.
Qed.

(** ** Dispatches *)

(** The bounds an event comes with, by its source. *)
Definition event_ok (e : Event) (src : DispatchSource) : Prop :=
  cwf c_event e /\ event_typed e /\
  match src with
  | SrcPeer _ => is_agreed_event e = true
  | SrcDirect from seq _ => is_agreed_event e = false /\ cwf c_id from /\ cwf c_u64 seq
  | _ => True
  end.

(** What a committed dispatch left, by its source. *)
Definition landed (s : ExecutionState) (e : Event) (src : DispatchSource) : Prop :=
  match src with
  | SrcPeer k => stages s k = true /\ exists p, proposal s = Some p /\ trace_event e = Ok (event (entry p))
  | SrcDirect from seq _ => applied_seq s from = seq
  | _ => True
  end.

Lemma trace_event_ranged e ev : cwf c_event e -> trace_event e = Ok ev -> cwf c_step_event ev.
Proof. destruct e; intros He [= <-]; exact He. Qed.

Lemma outcome_ranged b j t : outcome_new b j = Ok t -> cwf c_outcome t.
Proof.
  intros Hn. unfold outcome_new in Hn. inv_ok. split; [done|]. cbn [borsh_bytes json_bytes fst snd]. unfold outcome_new.
  repeat match goal with u : unit |- _ => destruct u end. by repeat match goal with Hx : _ = Ok tt |- _ => rewrite Hx; clear Hx end.
Qed.

Lemma outcome_new_noPanic b j : outcome_new b j <> Panic.
Proof. unfold outcome_new, validate_borsh, validate_json, json_try_new. np. Qed.

Lemma from_protocol_lift {A} (r : result ProtocolError A) Q (X : ExecError -> World -> Prop) w :
  r <> Panic -> (forall a, r = Ok a -> Q a w) -> (forall e, X e w) -> wp (lift (map_err from_protocol r)) Q X w.
Proof. intros Hr HQ HX. apply aw_lift; [by apply map_err_noPanic| |by auto]. intros a Ha%map_err_Ok. by apply HQ. Qed.

Lemma project_outcome_wp sh effects s0 w Q (X : ExecError -> World -> Prop) :
  base s0 w ->
  (forall o w', base s0 w' -> alike w w' -> (forall x, o = Some x -> cwf c_outcome x) -> Q o w') ->
  (forall e w', base s0 w' -> alike w w' -> X e w') -> wp (project_outcome env sh effects) Q X w.
Proof.
  intros Hb HQ HX. unfold project_outcome. destruct (session_end effects) as [o|]; [|wp1; by apply HQ].
  wp1. apply (ensemble_wp s0); [done|]. intros en _. wp1. wp1. wp1.
  assert (base s0 (tick_w w)) as Hb' by (by apply base_tick). assert (alike w (tick_w w)) as Hal by done.
  apply wp_sandbox; [by destruct (guest_outcome _ _ _)| |by auto]. intros p _.
  case_bool_decide; cbn [negb]; [|wp1; by apply HX]. wp1. apply from_protocol_lift; [apply outcome_new_noPanic| |by auto].
  intros t Ht. wp1. apply HQ; [done|done|]. intros x [= <-]. by eapply outcome_ranged.
Qed.

Lemma permitted_dispatch e sh lo effects o pid rq :
  cwf c_event e -> zlen sh <= MAX_SHARED_STATE_BYTES -> zlen lo <= MAX_LOCAL_STATE_BYTES -> Forall (cwf c_effect) effects ->
  (forall x, o = Some x -> cwf c_outcome x) -> (forall r, rq = Some r -> request_ranged r) ->
  permitted (OpDispatch e sh lo effects o pid rq).
Proof. intros He. split; [done|]. split_and!; try done. intros ev. by apply trace_event_ranged. Qed.

(** The state a dispatch persists: a direct frame also advances its lane. *)
Definition concluded (src : DispatchSource) (next next' : ExecutionState) : Prop :=
  match src with
  | SrcDirect from seq _ => record_direct from seq next = (Ok tt, next')
  | _ => next' = next
  end.

Lemma concluded_computed s e src sh lo ef o pid rq r next next' tm bl :
  event_ok e src -> permitted (OpDispatch e sh lo ef o pid rq) ->
  apply_dispatch e sh lo ef o pid rq s = (Ok r, next) -> concluded src next next' ->
  computed s next' (ChDispatch e ef tm bl) [].
Proof.
  intros (He & _ & Hsrc) Hp Hd Hc.
  assert (run_op (OpDispatch e sh lo ef o pid rq) s = (Ok (AFrame r), next)) as Hr.
  { cbn [run_op]. unfold answer, sbind. by rewrite Hd. }
  destruct src as [| | | | |from seq att]; cbn [concluded] in Hc; try (rewrite Hc; by eapply comp_dispatch).
  eapply comp_direct; [exact Hp|exact He|exact Hr| |]; [split; [done|split; apply Hsrc]|].
  cbn [run_op]. unfold answer, sbind. by rewrite Hc.
Qed.

Lemma dispatched_wf s tr e sh lo ef o pid rq r next :
  live s tr -> permitted (OpDispatch e sh lo ef o pid rq) -> apply_dispatch e sh lo ef o pid rq s = (Ok r, next) ->
  wf next /\ is_some (proposal next) = is_agreed_event e.
Proof.
  intros Hl Hp Hd. split.
  - apply (live_wf next tr). eapply (live_quiet s tr (OpDispatch e sh lo ef o pid rq) (AFrame r)); [done|done| |done].
    cbn [run_op]. unfold answer, sbind. by rewrite Hd.
  - destruct (dispatch_shape _ _ _ _ _ _ _ _ _ _ (live_wf _ _ Hl) Hd) as (_ & _ & _ & _ & _ & Hsh).
    destruct (is_agreed_event e); [by destruct Hsh as (p & -> & _)|by destruct Hsh as (-> & _)].
Qed.

Lemma concluded_shape s tr e src sh lo ef o pid rq r next next' :
  live s tr -> apply_dispatch e sh lo ef o pid rq s = (Ok r, next) -> concluded src next next' ->
  proposal next' = proposal next /\
  (shared_state next' = if is_agreed_event e then shared_state s else sh) /\
  (local_state next' = if is_agreed_event e then local_state s else lo) /\
  match src with SrcDirect from seq _ => applied_seq next' from = seq | _ => next' = next end /\
  (is_agreed_event e = true -> exists p, proposal next = Some p /\ trace_event e = Ok (event (entry p))).
Proof.
  intros Hl Hd Hc. pose proof (live_wf _ _ Hl) as Hw.
  destruct (dispatch_shape _ _ _ _ _ _ _ _ _ _ Hw Hd) as (_ & _ & _ & _ & _ & Hsh).
  assert (proposal next' = proposal next /\ shared_state next' = shared_state next /\ local_state next' = local_state next) as (E1 & E2 & E3).
  { destruct src as [| | | | |from seq att]; cbn [concluded] in Hc; try (by rewrite Hc).
    assert (run_op (OpRecordDirect from seq) next = (Ok AUnit, next')) as Hr by (cbn [run_op]; unfold answer, sbind; by rewrite Hc).
    split; [by eapply side_ops_proposal in Hr|]. by eapply images_kept in Hr. }
  split; [done|]. rewrite E2, E3. split_and!; [by destruct (is_agreed_event e); naive_solver..| |].
  - destruct src as [| | | | |from seq att]; try exact Hc. by eapply direct_recorded.
  - intros He. rewrite He in Hsh. naive_solver.
Qed.

(** A peer's commitment must be the one staged here. *)
Lemma compare_wp src next step0 (Q : unit -> World -> Prop) (X : ExecError -> World -> Prop) w :
  wf next -> match src with SrcPeer _ => is_some (proposal next) = true | _ => True end ->
  (match src with SrcPeer k => stages next k = true | _ => True end -> Q tt w) -> (forall e, X e w) ->
  wp (compare_commitment src next step0) Q X w.
Proof.
  intros Hw Hp HQ HX. unfold compare_commitment. destruct src as [| | |theirs| |]; try (wp1; by apply HQ).
  destruct (proposal_commitment_Ok next Hw) as (o & -> & Hs & Hk). rewrite Hp in Hs. wp1.
  apply aw_lift; [done| |done]. intros ? [= <-]. wp1. destruct o as [k|]; [|done]. apply aw_lift; [done| |done]. intros ? [= <-].
  case_bool_decide as E; [|wp1; apply HX]. wp1. apply HQ, Hk. congruence.
Qed.

(** After the write: a staged proposal leaves the old checkpoint, a local event
    promotes its images. *)
Lemma promote_wp e src s next' sh lo i s0 w1 (staged : bool) Q (X : ExecError -> World -> Prop) :
  base s0 w1 -> a_state (actor w1) = next' -> a_instance (actor w1) = Some i ->
  staged = is_agreed_event e -> is_some (proposal next') = staged ->
  (is_terminal (status next') = false -> checkpoint (shared_state s) (local_state s) i) ->
  mem_shared i = Some sh -> mem_local i = Some lo ->
  shared_state next' = (if is_agreed_event e then shared_state s else sh) ->
  local_state next' = (if is_agreed_event e then local_state s else lo) -> landed next' e src ->
  (forall w', mid s0 w' -> landed (a_state (actor w')) e src -> (is_some (proposal (a_state (actor w'))) = false -> inv s0 w') ->
     Q DCommitted w') ->
  (forall e w', mid s0 w' -> X e w') ->
  wp (if staged then sret DCommitted else
      let! c := on_resident env (fun _ => commit (shared_max env) (local_max env)) in
      match c with
      | Ok _ => sret DCommitted
      | Err err => put (set_instance None) ;;! throw (SandboxUnavailable err)
      | Panic => lift Panic
      end) Q X w1.
Proof.
  intros Hb Hs Hi -> Hp Hc Hms Hml Hsh Hlo Hld HQ HX. destruct (is_agreed_event e).
  - wp1. apply HQ; [|by rewrite Hs|by rewrite Hs, Hp]. split; [done|]. intros Hn j Hj. rewrite Hs in *.
    assert (j = i) as -> by congruence. rewrite Hsh, Hlo. by apply Hc.
  - wp1. apply (on_resident_wp _ s0); [done| |].
    + intros n j w2 Hb2 Hs2 Hj. split; [apply commit_noPanic|]. assert (j = i) as -> by (destruct Hj as [?|[? _]]; congruence).
      pose proof (commit_noPanic (shared_max env) (local_max env) i) as Hnp.
      destruct (commit _ _ i) as [r i'] eqn:Hcm; cbn [fst snd] in *. destruct r as [[]|err|]; [| |done].
      * assert (inv s0 (put_w (set_instance (Some i')) w2)) as Hinv.
        { split; [by apply base_instance|]. intros _ j [= <-]. cbn [actor put_w a_state set_instance]. rewrite Hs2, Hs, Hsh, Hlo.
          by eapply commit_holds. }
        wp1. apply HQ; [by apply inv_mid| |by intros _]. cbn [actor put_w a_state set_instance]. by rewrite Hs2, Hs.
      * wp1. wp1. wp1. by apply HX, inv_mid, inv_drop, base_instance.
    + intros err w' Hb' Ha Hn. congruence.
Qed.

Lemma not_applied_wp src step0 err (Q : DispatchOutcome -> World -> Prop) (X : ExecError -> World -> Prop) w :
  (forall reason, Q (DRejected reason) w) -> (forall e, X e w) -> wp (lift (not_applied src step0 err)) Q X w.
Proof.
  intros HQ HX. apply aw_lift; [|intros o Ho|intros; apply HX].
  - unfold not_applied. by destruct err; try done; destruct src.
  - assert (exists reason, o = DRejected reason) as [reason ->]; [|apply HQ].
    unfold not_applied in Ho. destruct err; try done; destruct src; simplify_eq; eauto.
Qed.

Lemma record_wp src next s0 w (Q : ExecutionState -> World -> Prop) (X : ExecError -> World -> Prop) :
  base s0 w -> (forall next', concluded src next next' -> Q next' w) -> (forall e, X e w) ->
  wp (advance_lane src next) Q X w.
Proof.
  intros Hb HQ HX. unfold advance_lane. destruct src as [| | | | |from seq att]; try (wp1; by apply HQ).
  pose proof (record_direct_safe from seq next) as Hsafe. unfold safe in Hsafe.
  destruct (record_direct from seq next) as [[[]|err|] n] eqn:Hr; [| |done].
  - wp1. by apply HQ.
  - wp1. apply HX.
Qed.

Lemma settle_dispatch_wp e src r sh lo i s0 w Q (X : ExecError -> World -> Prop) :
  mid s0 w -> event_ok e src -> is_terminal (status (a_state (actor w))) = false ->
  a_instance (actor w) = Some i -> mem_shared i = Some sh -> mem_local i = Some lo ->
  zlen sh <= MAX_SHARED_STATE_BYTES -> zlen lo <= MAX_LOCAL_STATE_BYTES ->
  Forall (cwf c_effect) (dr_effects r) -> (forall rq, dr_callout r = Some rq -> request_ranged rq) ->
  (forall w', mid s0 w' -> landed (a_state (actor w')) e src -> (is_some (proposal (a_state (actor w'))) = false -> inv s0 w') ->
     Q DCommitted w') ->
  (forall reason w', mid s0 w' -> a_state (actor w') = a_state (actor w) -> Q (DRejected reason) w') ->
  (forall e w', mid s0 w' -> X e w') ->
  wp (settle_dispatch ctx env e src r sh lo) Q X w.
Proof.
  intros Hm He Hn Hi Hms Hml Hzs Hzl Hef Hrq HQ HR HX. unfold settle_dispatch. wp1.
  apply (project_outcome_wp _ _ s0); [apply Hm| |intros err w' Hb Ha; apply HX; by eapply mid_alike].
  intros o w1 Hb1 Ha Ho. assert (mid s0 w1) as Hm1 by (by eapply mid_alike). destruct Ha as [E1 E2 _ _]. rewrite <- E1 in Hn, HR. rewrite <- E2 in Hi.
  set (s := a_state (actor w1)) in *. destruct (base_live _ _ Hb1) as (tr & Hl & _). fold s in Hl.
  pose proof (live_wf _ _ Hl) as Hw.
  set (pid := match src with SrcAnswer j => Some j | _ => None end).
  assert (permitted (OpDispatch e sh lo (dr_effects r) o pid (dr_callout r))) as Hperm by (apply permitted_dispatch; auto; apply He).
  assert ((apply_dispatch e sh lo (dr_effects r) o pid (dr_callout r) s).1 <> Panic) as Hsafe.
  { apply apply_dispatch_safe; [apply He|done]. }
  wp1. apply wp_on_copy; [exact Hsafe|]. fold s. wp1. wp1. fold s.
  destruct (apply_dispatch e sh lo (dr_effects r) o pid (dr_callout r) s) as [[a|err|] next] eqn:Hd; cbn [fst snd]; [| |done].
  2: { apply not_applied_wp; [intros reason; by apply HR|intros; by apply HX]. }
  destruct (dispatched_wf _ _ _ _ _ _ _ _ _ _ _ Hl Hperm Hd) as [Hwn Hpn].
  wp1. apply compare_wp; [done|destruct src; try done; by rewrite Hpn; apply He| |intros; by apply HX]. intros Hst. wp1.
  apply (record_wp _ _ s0); [done| |intros; by apply HX]. intros next' Hc.
  destruct (concluded_shape _ _ _ _ _ _ _ _ _ _ _ _ _ Hl Hd Hc) as (Hpr & Hsh & Hlo & Hdir & Hag). wp1.
  eapply persist_next_wp; [exact Hb1|by eapply concluded_computed| |intros; by apply HX, inv_mid].
  intros w2 Hb2 Hs2 Hi2. rewrite Hi in Hi2.
  eapply (promote_wp e src s); [exact Hb2|exact Hs2|exact Hi2|exact Hpn|by rewrite Hpr|by intros _; apply Hm1|
    exact Hms|exact Hml|exact Hsh|exact Hlo| |exact HQ|exact HX].
  destruct src; try done. rewrite Hdir. split; [done|]. apply Hag, He.
Qed.

Lemma dispatch_inner_wp e src len0 s0 w Q (X : ExecError -> World -> Prop) :
  inv s0 w -> event_ok e src -> status (a_state (actor w)) = Active -> proposal (a_state (actor w)) = None ->
  (forall w', mid s0 w' -> landed (a_state (actor w')) e src -> (is_some (proposal (a_state (actor w'))) = false -> inv s0 w') ->
     Q DCommitted w') ->
  (forall reason w', mid s0 w' -> a_state (actor w') = a_state (actor w) -> Q (DRejected reason) w') ->
  (forall e w', mid s0 w' -> X e w') ->
  wp (dispatch_inner ctx env e src len0) Q X w.
Proof.
  intros Hi He Hst Hpr HQ HR HX. unfold dispatch_inner. wp1. wp1. wp1. apply (ensemble_wp s0); [apply Hi|]. intros en _. cbv zeta.
  set (call := dispatch_call _ _ _ _ _). wp1. apply (ensure_resident_wp s0); [done| |intros; by apply HX, inv_mid].
  intros w1 i Hi1 Hs1 Hin1. wp1. wp1. rewrite Hin1. wp1. apply aw_lift; [done| |done]. intros ? [= <-]. wp1. wp1.
  assert (holds (shared_state (a_state (actor w))) (local_state (a_state (actor w))) i) as Hh.
  { destruct Hi1 as [_ Hr]. unfold resident_ok in Hr. rewrite Hs1, Hst in Hr. by apply Hr. }
  set (w2 := act_w _ w1). assert (inv s0 w2) as Hi2.
  { apply inv_act; [done| |done]. rewrite Hs1. cbn [supported]. rewrite Hh. done. }
  wp1. apply (on_resident_wp _ s0); [apply Hi2| |].
  2: { intros err w' Hb' Ha Hn. cbn in Hn. congruence. }
  intros n j w3 Hb3 Hs3 Hj. split; [apply dispatch_noPanic|].
  assert (j = i) as ->. { destruct Hj as [Hj|[Hj _]]; cbn in Hj; congruence. }
  pose proof (dispatch_noPanic (shared_max env) (local_max env) (guest env n) (engine_fault env n) call i) as Hnp.
  destruct (dispatch _ _ _ _ call i) as [r i'] eqn:Hd; cbn [fst snd] in *.
  assert (a_state (actor w3) = a_state (actor w)) as Hs3' by (rewrite Hs3; exact Hs1).
  assert (base s0 (put_w (set_instance (Some i')) w3)) as Hb4 by (by apply base_instance).
  destruct r as [r|err|]; [| |done].
  - destruct (dispatch_Ok _ _ _ _ _ _ _ _ _ _ (holds_checkpoint _ _ _ Hh) Hd) as (Hck & Henc & x & Hg & Hrej & Hres).
    assert (mid s0 (put_w (set_instance (Some i')) w3)) as Hm4.
    { split; [done|]. intros _ k [= <-]. cbn [actor put_w a_state set_instance]. by rewrite Hs3'. }
    destruct (dr_rejected r); [wp1; by apply HR|]. destruct Hres as (sh & lo & E1 & E2 & E3 & E4 & E5 & E6 & Hz1 & Hz2).
    rewrite E1, E2. destruct (host_guest _ _ _ _ _ Hg) as [Ht1 Ht2]. rewrite <- E5 in Ht1. rewrite <- E6 in Ht2.
    eapply settle_dispatch_wp; [exact Hm4|exact He| |reflexivity|exact E3|exact E4|exact Hz1|exact Hz2|exact Ht1|exact Ht2|exact HQ| |exact HX].
    + cbn [actor put_w a_state set_instance]. by rewrite Hs3', Hst.
    + intros reason w' Hm' Hs'. apply HR; [done|]. rewrite Hs'. exact Hs3'.
  - wp1. wp1. assert (inv s0 (put_w (set_instance None) (put_w (set_instance (Some i')) w3))) as Hi5 by (by apply inv_drop).
    destruct (handler_of e); [wp1; apply HR; [by apply inv_mid|exact Hs3']|wp1; by apply HX, inv_mid].
Qed.

(** A dispatch that commits leaves what its source asked for; one that is refused
    leaves the state; every way out restores the resident. *)
Lemma dispatch_event_wp e src s0 w Q (X : ExecError -> World -> Prop) :
  inv s0 w -> event_ok e src ->
  (forall w', inv s0 w' -> landed (a_state (actor w')) e src -> Q DCommitted w') ->
  (is_some (proposal (a_state (actor w))) = true \/ status (a_state (actor w)) <> Active -> Q DFrozen w) ->
  (forall reason w', inv s0 w' -> a_state (actor w') = a_state (actor w) -> Q (DRejected reason) w') ->
  (forall e w', inv s0 w' -> X e w') ->
  wp (dispatch_event ctx env e src) Q X w.
Proof.
  intros Hi He HQ HF HR HX. unfold dispatch_event. wp1. wp1. destruct (negb (answers _ _ _)); [wp1; by apply HX|].
  destruct (is_terminal (status (a_state (actor w)))) eqn:Ht. { wp1. apply HF. right. intros E. by rewrite E in Ht. }
  destruct (is_some (proposal (a_state (actor w)))) eqn:Hp. { wp1. apply HF. by left. }
  case_bool_decide as Hst; cbn [negb]; [|wp1; apply HF; by right]. cbv zeta. wp1. apply wp_try.
  eapply dispatch_inner_wp; [exact Hi|exact He|exact Hst|by destruct (proposal _)| | |].
  - intros w1 Hm Hl Hinv. wp1. wp1. destruct (is_some (proposal (a_state (actor w1)))) eqn:Hp1; cbn [when].
    + wp1. apply (discard_candidate_wp s0); [done| |by auto]. intros w2 Hi2 Hs2. wp1. apply HQ; [done|]. by rewrite Hs2.
    + wp1. wp1. wp1. by apply HQ; [apply Hinv|].
  - intros reason w1 Hm Hs. wp1. apply (discard_candidate_wp s0); [done| |by auto]. intros w2 Hi2 Hs2. wp1. apply HR; [done|congruence].
  - intros err w1 Hm. wp1. wp1. destruct (a_instance (actor w1)) as [i|] eqn:Hi1; cbn [is_some when].
    + wp1. apply (discard_candidate_wp s0); [done| |by auto]. intros w2 Hi2 Hs2. wp1. by apply HX.
    + wp1. wp1. wp1. apply HX. split; [apply Hm|]. intros _ j Hj. congruence.
Qed.
End Acting.
