(* ===== verification/Handling.v ===== *)
(** * The actor's handlers keep its invariant (node/src/execution/guest.rs, terminal.rs)

    Each handler of [Actor] on top of a dispatch and a write: from [inv] it does not
    panic and ends in [inv], returned or failed; what it left where a caller needs
    it.  The authoring loop ends because every pass that goes on shortens the queue. *)

From S2P Require Import Prelude Book Borsh Crypto Session Trace Negotiation Evidence Validation Receipt Frame Execution.
From S2P Require Import Invariant History Publish Guarantees Consistency Canonical NoPanic StateCodec Ranges Envelope ChangeLog Database.
From S2P Require Import Persist Store Registry Durable Writes Registered Refinement Simulation Resident Absorbing Actor Reasons Acting.

#[local] Open Scope Z_scope.

Section Handling.
Context `{Hosting}.
#[local] Abbreviation durable_in := (durable_in ctx dir).
#[local] Abbreviation inv := (inv (ctx:=ctx) (dir:=dir)).
#[local] Abbreviation base := (base (ctx:=ctx) (dir:=dir)).

(** A handler that keeps the invariant on every way out. *)
Definition keeps {A} (m : AM A) : Prop := forall s0 w, inv s0 w -> wp m (fun _ w' => inv s0 w') (fun _ w' => inv s0 w') w.

Lemma keeps_use {A} (m : AM A) (Q : A -> World -> Prop) (X : ExecError -> World -> Prop) s0 w :
  keeps m -> inv s0 w -> (forall a w', inv s0 w' -> Q a w') -> (forall e w', inv s0 w' -> X e w') -> wp m Q X w.
Proof. intros Hm Hi HQ HX. eapply aw_mono; [by apply Hm| |]; eauto. Qed.

Lemma keeps_seq {A B} (m : AM A) (f : A -> AM B) : keeps m -> (forall a, keeps (f a)) -> keeps (sbind m f).
Proof. intros Hm Hf s0 w Hi. apply aw_bind. eapply keeps_use; [exact Hm|exact Hi| |by auto]. intros a w' Hi'. by apply Hf. Qed.

Lemma inv_wf s0 w : inv s0 w -> wf (a_state (actor w)).
Proof. intros [Hb _]. by eapply base_wf. Qed.
Lemma inv_ranged s0 w : inv s0 w -> ranged (a_state (actor w)).
Proof. intros [Hb _]. destruct (base_live _ _ Hb) as (tr & Hl & _). by eapply (live_ranged digest_range aggregate_range). Qed.

(** A transition that touches nothing but the state. *)
Lemma persist_op_wp op r next s0 w Q (X : ExecError -> World -> Prop) :
  inv s0 w -> state_only op = true -> permitted op -> run_op op (a_state (actor w)) = (Ok r, next) ->
  (forall w', inv s0 w' -> a_state (actor w') = next -> Q tt w') -> (forall e w', inv s0 w' -> X e w') ->
  wp (persist_next ctx env next ChState) Q X w.
Proof.
  intros Hi Hso Hp Hr HQ HX. destruct (images_kept op _ _ _ ltac:(by destruct op) Hr) as [E1 E2].
  eapply (persist_kept_wp next ChState []); [exact Hi|by eapply comp_state|done|done| |by auto|done].
  intros Ht. by destruct (terminal_step _ _ _ _ (inv_wf _ _ Hi) Ht Hr).
Qed.

Lemma answer_run {A} (f : A -> Answer) (m : M ExecutionState ProtocolError A) s a s' :
  m s = (Ok a, s') -> answer f m s = (Ok (f a), s').
Proof. intros Hm. unfold answer, sbind. by rewrite Hm. Qed.

(** ** Direct frames *)

Lemma dispatch_direct_wp from seq msg att s0 w Q (X : ExecError -> World -> Prop) :
  inv s0 w -> cwf c_id from -> cwf c_u64 seq ->
  (forall o w', inv s0 w' -> o <> DFrozen -> applied_seq (a_state (actor w')) from = seq -> Q o w') ->
  Q DFrozen w -> (forall e w', inv s0 w' -> X e w') ->
  wp (dispatch_direct ctx env from seq msg att) Q X w.
Proof.
  intros Hi Hf Hq HQ HF HX. unfold dispatch_direct. wp1.
  apply (dispatch_event_wp (env:=env) (display:=display) _ _ s0); [done| | | | |done].
  - split; [|done]. split; [exact Hf|]. split; [done|]. by destruct att.
  - intros w' Hi' Hl. wp1. apply HQ; [done|done|exact Hl].
  - intros _. wp1. exact HF.
  - intros reason w' Hi' Hs. wp1. apply wp_transition; [apply record_direct_safe| |by auto].
    intros [] next Hr. wp1. cbn [snd]. eapply (persist_op_wp (OpRecordDirect from seq)); [exact Hi'|done|by split|by apply answer_run| |done].
    intros w2 Hi2 Hs2. wp1. apply HQ; [done|done|]. rewrite Hs2. by eapply direct_recorded.
Qed.

(** ** Session start *)

Lemma participant_ranged s0 w p : inv s0 w -> is_participant (binding (a_state (actor w))) p = true -> cwf c_id p.
Proof.
  intros Hi Hp. apply is_participant_elem in Hp. eapply participants_ranged; [apply (rg_binding _ (inv_ranged _ _ Hi))|exact Hp].
Qed.

Lemma ensemble_ranged s0 w en :
  inv s0 w -> binding_ensemble (binding (a_state (actor w))) = Ok en -> cwf c_ensemble en /\ zlen (peers en) <= MAX_PARTICIPANTS.
Proof.
  intros Hi Hen. unfold binding_ensemble in Hen. split; [split|].
  - apply Forall_forall. intros p Hp. rewrite (from_peers_elem_of _ _ _ Hen) in Hp.
    eapply participant_ranged; [exact Hi|by apply is_participant_elem].
  - by eapply from_peers_canonical.
  - apply from_peers_Ok in Hen as [_ Hz]. lia.
Qed.

Lemma observe_wp m s0 w Q (X : ExecError -> World -> Prop) :
  is_conclusion m = false -> (forall a, m <> ReceiptPublished a) -> inv s0 w ->
  (forall w', inv s0 w' -> Q tt w') -> (forall e w', inv s0 w' -> X e w') -> wp (observe env m) Q X w.
Proof.
  intros Hm Hr Hi HQ HX. unfold observe. wp1. wp1. destruct (observer_open env n); [wp1|wp1; by apply HX, inv_tick].
  apply HQ, inv_act; [by apply inv_tick| |by intros ? [= <-]]. destruct m; try done. by destruct (Hr a).
Qed.

Lemma emit_session_started_keeps : keeps (emit_session_started ctx env).
Proof.
  intros s0 w Hi. unfold emit_session_started. wp1. wp1. destruct (a_started_emitted (actor w)); [by wp1|]. wp1.
  apply (ensemble_wp s0); [apply Hi|]. intros en _. wp1. apply (observe_wp _ s0); [done|done|done| |done].
  intros w' Hi'. wp1. by apply inv_put.
Qed.

Lemma session_start_durable_wp s0 w Q X :
  inv s0 w -> (forall b, Q b w) -> wp (session_start_is_durable (a_state (actor w))) Q X w.
Proof.
  intros Hi HQ. unfold session_start_is_durable. destruct (0 <? _); [wp1; apply HQ|]. destruct (proposal _) as [p|] eqn:Hp; [|wp1; apply HQ].
  destruct (proposal_commitment_Ok _ (inv_wf _ _ Hi)) as (o & -> & _). wp1. apply aw_lift; [done| |done]. intros ? [= <-]. wp1. apply HQ.
Qed.

Lemma ensure_session_started_keeps : keeps (ensure_session_started ctx env).
Proof.
  intros s0 w Hi. unfold ensure_session_started. wp1. wp1. destruct (_ || is_some (proposal (a_state (actor w)))).
  - wp1. apply (session_start_durable_wp s0); [done|]. intros []; cbn [when]; [by apply emit_session_started_keeps|by wp1].
  - wp1. apply (ensemble_wp s0); [apply Hi|]. intros en Hen. wp1. destruct (ensemble_ranged _ _ _ Hi Hen) as [Hc Hz].
    apply (dispatch_event_wp (env:=env) (display:=display) _ _ s0); [done|by split_and!| | | |done].
    + intros w' Hi' _. by apply emit_session_started_keeps.
    + intros _. by wp1.
    + intros reason w' Hi' _. by wp1.
Qed.

(** ** Messages *)

Lemma apply_message_wp source k data s0 w Q (X : ExecError -> World -> Prop) :
  inv s0 w -> cwf c_id source -> zlen data <= MAX_EFFECT_PAYLOAD_BYTES ->
  (forall w', inv s0 w' -> landed (a_state (actor w')) (MessageReceived source data) (SrcPeer k) -> Q tt w') ->
  (is_some (proposal (a_state (actor w))) = true \/ status (a_state (actor w)) <> Active -> Q tt w) ->
  (forall e w', inv s0 w' -> X e w') ->
  wp (apply_message ctx env source k data) Q X w.
Proof.
  intros Hi Hs Hz HQ HF HX. unfold apply_message. wp1.
  apply (dispatch_event_wp (env:=env) (display:=display) _ _ s0); [done|by split_and!| | | |done].
  - intros w' Hi' Hl. wp1. by apply HQ.
  - intros Hf. wp1. by apply HF.
  - intros reason w' Hi' _. wp1. by apply HX.
Qed.

Lemma local_ranged : cwf c_id local_peer.
Proof. destruct host_keys as [[Hk _] _ _ _]. exact Hk. Qed.

Lemma outgoing_bounded s0 w m i : inv s0 w -> outgoing (a_state (actor w)) !! i = Some m -> zlen m <= MAX_EFFECT_PAYLOAD_BYTES.
Proof.
  intros Hi Hm. pose proof (rf_outgoing _ (wf_recovered _ (inv_wf _ _ Hi))) as Ho. apply validate_outgoing_Ok in Ho as [_ Hf].
  by apply (Forall_lookup_1 _ _ _ _ Hf) in Hm.
Qed.

(** Every pass that goes on drops the head of the queue, so the loop ends. *)
Lemma author_loop_wp fuel s0 w :
  inv s0 w -> (length (outgoing (a_state (actor w))) <= fuel)%nat ->
  wp (author_loop ctx env fuel) (fun _ w' => inv s0 w') (fun _ w' => inv s0 w') w.
Proof.
  revert w. induction fuel as [|fuel IH]; intros w Hi Hf; cbn [author_loop]; wp1; wp1; unfold may_author at 1.
  - assert (zlen (outgoing (a_state (actor w))) = 0) as -> by (unfold zlen; lia). rewrite andb_false_r. by wp1.
  - destruct (negb _) eqn:Hm; [by wp1|]. inv_ok. destruct (outgoing (a_state (actor w)) !! 0%nat) as [m|] eqn:Hh.
    2: { destruct (outgoing (a_state (actor w))); done. }
    wp1. apply aw_lift; [done| |done]. intros ? [= <-]. wp1.
    apply (dispatch_event_wp (env:=env) (display:=display) _ _ s0); [done| |by intros; wp1|by intros; wp1| |done].
    + split_and!; [split; [apply local_ranged|done]|by eapply outgoing_bounded|done].
    + intros reason w' Hi' Hs. wp1. apply wp_transition; [apply drop_outgoing_head_safe| |done]. intros [] next Hd. wp1. cbn [snd].
      eapply (persist_op_wp OpDropHead); [exact Hi'|done|by split|by apply answer_run| |done].
      intros w2 Hi2 Hs2. apply IH; [done|]. rewrite Hs2. apply head_dropped in Hd. rewrite Hs in Hd. lia.
Qed.
Lemma author_next_message_keeps : keeps (author_next_message ctx env).
Proof. intros s0 w Hi. unfold author_next_message. wp1. wp1. apply author_loop_wp; [done|lia]. Qed.

(** ** Timers *)

Lemma decoded_timer bs t : decode_borsh c_timer bs "active timer payload" = Ok t -> cwf c_timer t.
Proof.
  unfold decode_borsh. intros Hd%map_err_Ok. unfold from_slice in Hd. apply rbind_Ok in Hd as ([t' rest] & Hd & Ht).
  assert (t' = t) as -> by (destruct rest; congruence). cbn in Hd. unfold rd_map, rbind, read_string in Hd.
  destruct (read_bytes MAX_TERMINAL_REASON_BYTES bs) as [[n r1]|e|]; [|done..]. unfold rbind in Hd. destruct (utf8_valid n) eqn:Hu; [|done].
  destruct (read_bytes MAX_TIMER_PAYLOAD_BYTES r1) as [[d r2]|e|]; [|done..]. injection Hd as <- _. by split.
Qed.

Lemma due_timers_ranged now n t id l :
  due_timers now n t id = Ok l -> Forall (fun p => cwf c_timer p.2) l.
Proof.
  unfold due_timers. intros Hd. inv_ok. destruct (n =? 0)%nat; [by injection Hd as <-|]. inv_ok.
  match goal with Hf : try_fold _ _ _ = Ok ?x |- _ => enough (Forall (fun p : TimerId * TimerPayload => cwf c_timer p.2) x.1) by done;
    revert Hf end.
  match goal with |- try_fold _ ?a0 _ = _ -> _ => assert (Forall (fun p : TimerId * TimerPayload => cwf c_timer p.2) a0.1) as Hacc by done; revert Hacc; generalize a0 end.
  match goal with |- context [due_rows ?t ?i ?a ?n] => generalize (due_rows t i a n) end. intros rows. induction rows as [|q rows IH]; intros acc Hacc Hf; [by injection Hf as <-|].
  cbn [try_fold] in Hf. apply rbind_Ok in Hf as (acc' & Hstep & Hf). apply (IH acc'); [|done]. inv_ok. cbn [fst].
  apply Forall_app. split; [done|]. apply Forall_singleton. cbn [snd]. by eapply decoded_timer.
Qed.

Lemma fire_timers_keeps l : Forall (fun p => cwf c_timer p.2) l -> keeps (fire_timers ctx env l).
Proof.
  induction 1 as [|[id t] l Ht _ IH]; intros s0 w Hi; cbn [fire_timers]; [by wp1|]. wp1.
  apply (dispatch_event_wp (env:=env) (display:=display) _ _ s0); [done|by split_and!| | | |done].
  - intros w' Hi' _. by apply IH.
  - intros _. by wp1.
  - intros reason w' Hi' _. by apply IH.
Qed.
Lemma fire_due_timers_keeps : keeps (fire_due_timers ctx env).
Proof.
  intros s0 w Hi. unfold fire_due_timers. wp1. wp1. wp1. pose proof (inv_tick _ _ Hi) as Hi'.
  eapply (wp_store_read (display:=display)); [apply Hi'|intros e w' Hb Ha; by eapply inv_alike|].
  intros l t w' M tr Hb Ha _ _ _ Hl. apply (fire_timers_keeps l); [by eapply due_timers_ranged|by eapply inv_alike].
Qed.

(** ** Step signatures *)

Definition signs (op : Op) : bool := match op with OpSign _ | OpCertify _ => true | _ => false end.

Lemma signs_computed op s certified next :
  signs op = true -> permitted op -> run_op op s = (Ok (ACommitted certified), next) ->
  computed s next (ChStepSignature certified) (logged (ACommitted certified)).
Proof. intros Hs Hp Hr. destruct op; try done; [by eapply comp_sign|by eapply comp_certify]. Qed.

(** A certified step replaces the resident's images; a signature below the
    threshold keeps them. *)
Lemma persist_step_signature_wp op certified next s0 w Q (X : ExecError -> World -> Prop) :
  inv s0 w -> signs op = true -> permitted op -> run_op op (a_state (actor w)) = (Ok (ACommitted certified), next) ->
  (forall w', inv s0 w' -> a_state (actor w') = next -> Q tt w') -> (forall e w', inv s0 w' -> X e w') ->
  wp (persist_step_signature ctx env next certified) Q X w.
Proof.
  intros Hi Hs Hp Hr HQ HX. pose proof (signs_computed _ _ _ _ Hs Hp Hr) as Hc. unfold persist_step_signature. wp1.
  destruct certified as [p|].
  - eapply (persist_next_wp next); [apply Hi|exact Hc| |done]. intros w1 Hb1 Hs1 _. wp1.
    eapply (reload_resident_wp (dir:=dir)); [exact Hb1| |done]. intros w2 Hi2 Hs2. eapply (observe_ignored_wp (dir:=dir)); [done|done|apply Hi2|].
    intros w3 Hb3 Ha3. apply HQ; [|by rewrite Ha3, Hs2]. split; [done|]. rewrite Ha3. apply Hi2.
  - destruct op as [| | |sg|cert| | | | | |]; try done; pose proof Hr as Hr'; apply answer_Ok in Hr as (a & Hr & Ha); [|done].
    injection Ha as <-. destruct (unsigned_images _ _ _ (inv_wf _ _ Hi) Hr) as [E1 E2].
    eapply (persist_kept_wp next); [exact Hi|exact Hc|exact E1|exact E2| |intros w' Hi' Hs' _; wp1; by apply HQ|done].
    intros Ht. by destruct (terminal_step _ _ _ _ (inv_wf _ _ Hi) Ht Hr').
Qed.

Lemma staged_ranged s0 w k : inv s0 w -> stages (a_state (actor w)) k = true -> cwf c_u64 (c_step k).
Proof.
  intros Hi (p & Hp & Hk)%stages_Some. rewrite (staged_coordinate _ _ _ (inv_wf _ _ Hi) Hp Hk). apply (rg_step _ (inv_ranged _ _ Hi)).
Qed.

Lemma ensure_step_signature_keeps : keeps (ensure_step_signature ctx env).
Proof.
  intros s0 w Hi. unfold ensure_step_signature. wp1. wp1. destruct (proposal _) as [p|] eqn:Hp; [|by wp1].
  destruct (existsb _ _); [by wp1|]. destruct (proposal_commitment_Ok _ (inv_wf _ _ Hi)) as (o & -> & Ho & Hk). rewrite Hp in Ho.
  wp1. apply aw_lift; [done| |done]. intros ? [= <-]. wp1. destruct o as [k|]; [|done]. apply aw_lift; [done| |done]. intros ? [= <-].
  cbv zeta. set (sg := MkPSig _ _). wp1. apply wp_transition; [apply add_step_signature_safe, (inv_wf _ _ Hi)| |done].
  intros certified next Hr. cbn [fst snd]. eapply (persist_step_signature_wp (OpSign sg)); [exact Hi|done| |by apply answer_run|done|done].
  split; [done|]. split; [apply local_ranged|]. split; [by eapply staged_ranged; [|apply Hk]|].
  destruct host_keys as [_ Hsign _ _]. apply (Hsign DST_SIG).
Qed.
End Handling.
