(* ===== verification/Concluding.v ===== *)
(** * How the actor ends an execution (node/src/execution/terminal.rs)

    A stop is signed, written and only then published; whatever fails, the actor
    keeps its invariant, and a failure it reports as recorded left the execution
    over.  The conclusion is announced once, with the receipt the store holds. *)

From S2P Require Import Prelude Book Borsh Crypto Session Trace Negotiation Evidence Validation Receipt Frame Execution.
From S2P Require Import Invariant History Publish Guarantees Consistency Canonical NoPanic StateCodec Ranges Envelope ChangeLog Database.
From S2P Require Import Persist Store Registry Durable Writes Registered Refinement Simulation Resident Absorbing Actor Reasons Acting Handling.

#[local] Open Scope Z_scope.

Section Concluding.
Context `{Hosting}.
#[local] Abbreviation durable_in := (durable_in ctx dir).
#[local] Abbreviation inv := (inv (ctx:=ctx) (dir:=dir)).
#[local] Abbreviation base := (base (ctx:=ctx) (dir:=dir)).
#[local] Abbreviation keeps := (keeps (ctx:=ctx) (dir:=dir)).

Definition over (w : World) : Prop := is_terminal (status (a_state (actor w))) = true.

(** ** Stops *)

Lemma cursor_ranged s : ranged s -> cwf c_cursor (step_cursor s).
Proof. intros Hr. split; [apply (rg_step _ Hr)|split; [apply (rg_state _ Hr)|apply (rg_link _ Hr)]]. Qed.

(** The occurrence the actor signs has its type's bounds. *)
Lemma signed_abort_ranged s kind code reason u o bs :
  ranged s -> utf8_valid reason = true -> cwf c_u32 code ->
  abort_unsigned (session_id (binding s)) local_peer kind code (truncate_reason MAX_TERMINAL_REASON_BYTES reason) (step_cursor s) = Ok u ->
  with_signature u (node_sign bs) = Ok o -> cwf c_abort o.
Proof.
  intros Hr Hu Hc Ha Hw. unfold abort_unsigned, abort_new in Ha. inv_ok. unfold with_signature in Hw. cbn [ab_domain ab_version ab_session_id ab_sender ab_kind ab_code ab_reason ab_coordinate] in Hw. inv_ok.
  destruct (truncated MAX_TERMINAL_REASON_BYTES reason Hu) as (Ht & _ & _); [done|]. split.
  - split; [|destruct host_keys as [_ Hsign _ _]; apply (Hsign DST_SIG)].
    split; [done|]. split; [by split|]. split; [apply (session_ranged digest_range), (rg_binding _ Hr)|].
    split; [apply local_ranged|]. split; [by destruct kind|]. split; [exact Hc|]. split; [exact Ht|by apply cursor_ranged].
  - cbn [id]. by match goal with Hv : validate_shape _ = Ok ?u |- context [validate_shape ?x] =>
      destruct u; replace (validate_shape x) with (Ok (E:=ProtocolError) tt) by (symmetry; exact Hv) end.
Qed.

Lemma abort_signing_noPanic u : abort_signing_bytes u <> Panic.
Proof. unfold abort_signing_bytes, to_vec. np. apply quiet_abort_fields, _. Qed.

Lemma stopped_state_wp kind code reason s0 w Q (X : ExecError -> World -> Prop) :
  base s0 w -> utf8_valid reason = true -> cwf c_u32 code ->
  (forall o next, permitted (OpStop o) -> stop o (a_state (actor w)) = (Ok tt, next) -> Q next w) ->
  (forall e, X e w) -> wp (stopped_state kind code reason) Q X w.
Proof.
  intros Hb Hu Hc HQ HX. unfold stopped_state. wp1. wp1. destruct (negb _); [wp1; apply HX|].
  wp1. apply from_protocol_lift; [unfold abort_unsigned, abort_new; np; apply validate_shape_safe| |done]. intros u Ha.
  wp1. apply from_protocol_lift; [apply abort_signing_noPanic| |done]. intros bs _.
  wp1. apply from_protocol_lift; [unfold with_signature; np; apply validate_shape_safe| |done]. intros o Hw.
  wp1. apply wp_transition; [apply stop_safe| |done]. intros [] next Hs. wp1. apply (HQ o); [|done].
  split; [done|]. eapply signed_abort_ranged; [|exact Hu|exact Hc|exact Ha|exact Hw].
  destruct (base_live _ _ Hb) as (tr & Hl & _). by eapply (live_ranged digest_range aggregate_range).
Qed.

Lemma stop_over o s u next : stop o s = (Ok u, next) -> is_terminal (status next) = true.
Proof. by intros (_ & _ & -> & _)%stop_same. Qed.

Lemma persist_abort_wp kind code reason s0 w Q (X : ExecError -> World -> Prop) :
  inv s0 w -> utf8_valid reason = true -> cwf c_u32 code ->
  (forall w', inv s0 w' -> over w' -> Q tt w') -> (forall e w', inv s0 w' -> X e w') ->
  wp (persist_abort ctx env kind code reason) Q X w.
Proof.
  intros Hi Hu Hc HQ HX. unfold persist_abort. wp1. wp1. destruct (is_terminal _) eqn:Ht; [wp1; by apply HQ|]. wp1.
  apply (stopped_state_wp _ _ _ s0); [apply Hi|done|done| |by auto]. intros o next Hp Hs.
  eapply (persist_op_wp (OpStop o)); [exact Hi|done|exact Hp|by apply answer_run| |done].
  intros w' Hi' Hs'. apply HQ; [done|]. unfold over. rewrite Hs'. by eapply stop_over.
Qed.

(** ** Receipts *)

(** What the constructor accepts is a value of its type, with a digest as identity. *)
Lemma new_artifact b a : artifact_new b = Ok a -> artifact_typed a /\ 0 < receipt_id a < 256 ^ 32.
Proof.
  intros Ha. assert (artifact_body a = b) as Hb.
  { unfold artifact_new in Ha. inv_ok. by destruct (termination b) as [|[]]. }
  split; [unfold artifact_typed; by rewrite Hb|]. unfold artifact_new in Ha. inv_ok.
  match goal with Hd : derive_body _ = Ok ?i |- _ => assert (0 < i < 256 ^ 32) as Hz by (unfold derive_body in Hd; inv_ok; apply host_digest) end.
  by destruct (termination b) as [|[]].
Qed.

Lemma assembled_artifact t id s a : assemble_receipt t id s = Ok a -> artifact_typed a /\ 0 < receipt_id a < 256 ^ 32.
Proof.
  unfold assemble_receipt, assemble_terminal_artifact. intros Ha. inv_ok. by eapply new_artifact.
Qed.

(** The receipt is written before the state says so. *)
Lemma publish_terminal_wp s0 w Q (X : ExecError -> World -> Prop) :
  inv s0 w -> (forall w', inv s0 w' -> (over w -> over w') -> Q tt w') ->
  (forall e w', inv s0 w' -> a_state (actor w') = a_state (actor w) -> X e w') -> wp (publish_terminal ctx env) Q X w.
Proof.
  intros Hi HQ HX. unfold publish_terminal. wp1. wp1. destruct (receipt_work _) eqn:Hw; [by wp1; apply HQ| |by wp1; apply HQ]. wp1.
  eapply (wp_store_read (display:=display)); [apply Hi|intros e w' Hb Ha; apply HX; [by eapply inv_alike|apply Ha]|].
  intros a t w1 M tr Hb1 Ha _ _ _ Hasm. destruct (assembled_artifact _ _ _ _ Hasm) as [Hty Hz].
  assert (inv s0 w1) as Hi1 by (by eapply inv_alike). pose proof (al_state _ _ Ha) as E1.
  wp1. apply wp_transition; [by apply publish_receipt_safe| |intros e; by apply HX]. intros [] next Hp. cbn [fst snd].
  assert (run_op (OpPublish a) (a_state (actor w1)) = (Ok AUnit, next)) as Hr by (by apply (answer_run (fun _ => AUnit) _ _ tt)).
  assert (is_terminal (status next) = true) as Hn.
  { apply publish_same in Hp as (_ & _ & _ & [(o & _ & ->)|(c & _ & ->)]); done. }
  eapply (persist_transition_wp next); [exact Hb1|eapply comp_publish; [|exact Hr]| |].
  - split; [cbn; lia|]. change (0 <= receipt_id a < 256 ^ 32). lia.
  - intros b Hb2. apply HQ; [|done]. by apply inv_terminal.
  - intros e w2 Hb2 Ha2. apply HX; [by eapply inv_alike|]. by rewrite (al_state _ _ Ha2).
Qed.

Lemma fail_and_publish_wp reason s0 w Q (X : ExecError -> World -> Prop) :
  inv s0 w -> utf8_valid reason = true ->
  (forall w', inv s0 w' -> over w' -> Q tt w') -> (forall e w', inv s0 w' -> (over w -> over w') -> X e w') ->
  wp (fail_and_publish ctx env reason) Q X w.
Proof.
  intros Hi Hu HQ HX. unfold fail_and_publish. wp1. wp1. wp1.
  assert (forall w1, inv s0 w1 -> over w1 -> wp (publish_terminal ctx env) Q X w1) as Hpub.
  { intros w1 Hi1 Ho1. apply (publish_terminal_wp s0); [done|intros w' Hi' Ho; apply HQ; [done|by apply Ho]|].
    intros e w' Hi' Hs. apply HX; [done|]. intros _. unfold over. by rewrite Hs. }
  destruct (receipt_work _) eqn:Hw; [|wp1; apply Hpub; [done|unfold over; by destruct (status _)]..].
  wp1. apply (stopped_state_wp _ _ _ s0); [apply Hi|done|done| |intros e; by apply HX].
  intros o next Hp Hs. eapply (persist_transition_wp next); [apply Hi|by eapply (comp_state _ (OpStop o)); [|done|apply answer_run]| |].
  - intros b Hb. assert (is_terminal (status next) = true) as Hn by (by eapply stop_over). apply Hpub; [by apply inv_terminal|done].
  - intros e w' Hb' Ha. apply HX; [by eapply inv_alike|]. unfold over. by rewrite (al_state _ _ Ha).
Qed.

(** A failure that counts as recorded left the execution over. *)
Lemma fail_terminal_wp e s0 w Q (X : ExecError -> World -> Prop) :
  inv s0 w -> (forall b w', inv s0 w' -> (b = true -> over w') -> Q b w') -> wp (fail_terminal ctx env display e) Q X w.
Proof.
  intros Hi HQ. unfold fail_terminal. wp1. wp1. wp1. wp1. apply (fail_and_publish_wp _ s0); [done|apply host_text| |].
  - intros w1 Hi1 Ho1. wp1. wp1. eapply (resync_wp (display:=display)); [apply Hi1|done| |].
    + intros _ w2 Hb2 Ha2. wp1. apply HQ; [by eapply inv_alike|]. intros _. unfold over. by rewrite (al_state _ _ Ha2).
    + intros e' w2 Hi2 Hs2 _. wp1. apply HQ; [done|]. intros _. unfold over. by rewrite Hs2.
  - intros e' w1 Hi1 Ho1. wp1. wp1. eapply (resync_wp (display:=display)); [apply Hi1|done|done|].
    intros e2 w2 Hi2 Hs2 _. wp1. apply HQ; [done|]. intros Hb. unfold over in *. rewrite Hs2. apply Ho1. by destruct (status _).
Qed.

Lemma finalize_receipt_keeps : keeps (finalize_receipt ctx env).
Proof.
  intros s0 w Hi. unfold finalize_receipt. wp1. wp1. apply (publish_terminal_wp s0); [done| |].
  - intros w1 Hi1 _. eapply (resync_wp (display:=display)); [apply Hi1|done| |done]. intros _ w2 Hb2 Ha2. by eapply inv_alike.
  - intros e w1 Hi1 _. eapply (resync_wp (display:=display)); [apply Hi1|done|done|done].
Qed.

(** ** The conclusion *)

Lemma loaded_receipt host t rid st : load_receipt_by_id host t rid = Ok (Some st) -> receipt_id (sr_receipt st) = rid.
Proof.
  unfold load_receipt_by_id. destruct (receipts t !! rid) as [r|]; [|done]. intros Hl. inv_ok. unfold decode_stored_receipt in *. inv_ok.
  cbn [sr_receipt fst]. by match goal with Hx : (receipt_id _ =? _) = true |- _ => apply Z.eqb_eq in Hx end.
Qed.

Lemma terminal_message_concludes s a : is_conclusion (terminal_message s a) = true.
Proof. unfold terminal_message. destruct (termination _) as [|c]; [done|]. by destruct (cause_kind c). Qed.

(** The last word: logged once, with the flag. *)
Lemma inv_concluded s0 m w :
  inv s0 w -> a_terminal_emitted (actor w) = false -> is_conclusion m = true -> is_some (published_receipt_id (a_state (actor w))) = true ->
  inv s0 (put_w set_terminal (act_w (Observe m) w)).
Proof.
  intros [[B1 B2 B3 B4 B5] Hr] He Hm Hp. split; [|exact Hr].
  split; cbn [put_w act_w actor db dead log set_terminal a_state a_terminal_emitted]; try done.
  - apply Forall_app. split; [done|]. apply Forall_singleton. split; [|by split]. cbn [seen_state seen_action supported]. by destruct m.
  - unfold conclusions in *. rewrite filter_app, length_app, B5, He. rewrite filter_cons_True; [done|exact Hm].
Qed.

Lemma emit_published_terminal_keeps : keeps (emit_published_terminal env).
Proof.
  intros s0 w Hi. unfold emit_published_terminal. wp1. wp1. cbv zeta. destruct (a_terminal_emitted _) eqn:He; [by wp1|].
  destruct (receipt_work _); [by wp1|by wp1|]. wp1. apply aw_lift; [by destruct (published_receipt_id _)| |done].
  intros rid Hrid. assert (published_receipt_id (a_state (actor w)) = Some rid) as Hp by (destruct (published_receipt_id _); simplify_eq/=; done).
  wp1. eapply (wp_store_read (display:=display)); [apply Hi|intros e w' Hb Ha; by eapply inv_alike|].
  intros o t w1 M tr Hb1 Ha1 _ _ _ Hl. assert (inv s0 w1) as Hi1 by (by eapply inv_alike). destruct Ha1 as [E1 _ E3 _].
  wp1. apply aw_lift; [by destruct o| |done]. intros st Hst. destruct o as [st'|]; [|done]. injection Hst as ->.
  apply loaded_receipt in Hl. destruct (negb _); [by wp1|]. unfold observe. wp1. wp1. wp1.
  destruct (observer_open env n); [wp1|by wp1; apply inv_tick].
  set (w2 := act_w _ _). assert (inv s0 w2) as Hi2.
  { apply inv_act; [by apply inv_tick| |by intros ? [= <-]]. cbn [supported actor tick_w]. by rewrite E1, Hl. }
  wp1. wp1. wp1. destruct (observer_open env n0); [wp1|by wp1; apply inv_tick]. wp1.
  apply inv_concluded; [by apply inv_tick|cbn; congruence|apply terminal_message_concludes|]. cbn [tick_w w2 act_w actor]. by rewrite E1, Hp.
Qed.
End Concluding.
