(* ===== verification/Accepting.v ===== *)
(** * Frames the actor takes (node/src/execution/delivery.rs)

    [accept_frame] acknowledges a frame only in a state that has absorbed it, and
    every other way out keeps the invariant.  A frame comes out of the frame
    decoder, so it has its type's bounds. *)

From S2P Require Import Prelude Book Borsh Crypto Session Trace Negotiation Evidence Validation Receipt Frame Execution.
From S2P Require Import Invariant History Publish Guarantees Consistency Canonical NoPanic StateCodec Ranges Envelope ChangeLog Database.
From S2P Require Import Persist Store Registry Durable Writes Registered Refinement Simulation Resident Absorbing Actor Delivery Acting Handling Concluding.

#[local] Open Scope Z_scope.

(** What the decoder returned. *)
Definition decoded `{Crypto} (f : ExecFrame) : Prop := exists bs, octets bs /\ from_slice c_frame bs = Ok f.

(** An activated execution with a history. *)
Definition started `{Crypto} (s : ExecutionState) : Prop := status s <> Activating /\ exists tr, reach s tr.

Section Accepting.
Context `{Hosting}.
#[local] Abbreviation inv := (inv (ctx:=ctx) (dir:=dir)).
#[local] Abbreviation base := (base (ctx:=ctx) (dir:=dir)).
#[local] Abbreviation keeps := (keeps (ctx:=ctx) (dir:=dir)).

Lemma decoded_facts f :
  decoded f -> cwf c_frame f /\ match f with FMessage _ data => zlen data <= MAX_EFFECT_PAYLOAD_BYTES | _ => True end.
Proof.
  intros (bs & Ho & Hf). apply from_slice_iff in Hf as [Hw He]; [|apply _|done]. split; [done|].
  destruct f as [k data| | | |]; try done. unfold to_vec in He. cbn [enc c_frame] in He. apply variant_Ok in He as (b & He & _).
  cbn [enc c_frame_message c_pair] in He. apply wcat_Ok in He as (b1 & b2 & _ & He & _). cbn in He. unfold write_bytes in He.
  apply wcat_Ok in He as (b3 & b4 & He & _ & _). by apply write_len_Ok in He as (? & ? & _).
Qed.

(** The invariant seen from a later state. *)
Lemma inv_rebase s0 w : inv s0 w -> inv (a_state (actor w)) w.
Proof. intros [[B1 B2 B3 B4 B5] Hr]. split; [|done]. by split. Qed.
Lemma inv_earlier s0 s1 w : rtc op_step s0 s1 -> inv s1 w -> inv s0 w.
Proof. intros Hs [[B1 B2 B3 B4 B5] Hr]. split; [|done]. split; try done. by etransitivity. Qed.
Lemma inv_started s0 w : started s0 -> inv s0 w -> status (a_state (actor w)) <> Activating.
Proof. intros [Hs [tr Hr]] [Hb _]. by eapply started_steps; [exact Hr|apply (b_evolves _ _ Hb)|]. Qed.
Lemma started_running s0 w : started s0 -> inv s0 w -> is_terminal (status (a_state (actor w))) = false -> status (a_state (actor w)) = Active.
Proof. intros Hs Hi Ht. pose proof (inv_started _ _ Hs Hi). by destruct (status _). Qed.

Lemma absorbed_over s source f : is_terminal (status s) = true -> absorbed s source f = true.
Proof. intros Ht. unfold absorbed. by rewrite Ht. Qed.

Lemma authenticates_noPanic s source f : authenticates s source f <> Panic.
Proof.
  unfold authenticates. destruct (negb _); [done|]. destruct f as [| |o|c|]; try done.
  - destruct (_ && _); [|done]. pose proof (verify_signature_safe o). by destruct (verify_signature o).
  - pose proof (certificate_verify_safe c (binding s)). by destruct (certificate_verify c _).
Qed.
Lemma authenticates_participant s source f : authenticates s source f = Ok true -> is_participant (binding s) source = true.
Proof. unfold authenticates. by destruct (is_participant (binding s) source). Qed.

Lemma confirm_peer_wp peer s0 w Q (X : ExecError -> World -> Prop) :
  inv s0 w -> (forall w', inv s0 w' -> (over w -> over w') -> Q tt w') -> (forall e w', inv s0 w' -> X e w') ->
  wp (confirm_peer ctx env peer) Q X w.
Proof.
  intros Hi HQ HX. unfold confirm_peer. wp1. apply wp_transition; [apply confirm_end_safe| |by auto]. intros b next Hc. cbn [fst snd].
  destruct b; [|wp1; by apply HQ].
  assert (run_op (OpConfirmEnd peer) (a_state (actor w)) = (Ok (AChanged true), next)) as Hr by (by apply answer_run).
  eapply (persist_op_wp (OpConfirmEnd peer)); [exact Hi|done|by split|exact Hr| |done].
  intros w' Hi' Hs. apply HQ; [done|]. unfold over. rewrite Hs. intros Ho. by destruct (terminal_step _ _ _ _ (inv_wf _ _ Hi) Ho Hr).
Qed.

(** What an answer to a frame means. *)
Definition answered (s0 : ExecutionState) (source : PeerId) (f : ExecFrame) (o : option ExecDeliveryRejection) (w : World) : Prop :=
  inv s0 w /\ (o = None -> absorbed (a_state (actor w)) source f = true).

Lemma accept_terminal_wp source f s0 w (X : ExecError -> World -> Prop) :
  inv s0 w -> over w -> (forall e w', inv s0 w' -> X e w') ->
  wp (accept_terminal ctx env source f) (answered s0 source f) X w.
Proof.
  intros Hi Ho HX. unfold accept_terminal. wp1. wp1. destruct (end_conclusion_matches _ _).
  - wp1. apply (confirm_peer_wp _ s0); [done| |done]. intros w' Hi' Ho'. wp1. split; [done|]. intros _. by apply absorbed_over, Ho'.
  - wp1. wp1. wp1. split; [by apply inv_put|done].
  - wp1. split; [done|]. intros _. by apply absorbed_over.
Qed.

Lemma staged_absorbs s source k p data :
  stages s k = true -> proposal s = Some p -> event (entry p) = StepMessage source data -> absorbed s source (FMessage k data) = true.
Proof. intros Hk Hp He. unfold absorbed. rewrite Hp, Hk, He, bool_decide_true by done. by rewrite !orb_true_r. Qed.

Lemma accept_message_wp source k data s0 w (X : ExecError -> World -> Prop) :
  started s0 -> inv s0 w -> is_terminal (status (a_state (actor w))) = false -> cwf c_id source -> zlen data <= MAX_EFFECT_PAYLOAD_BYTES ->
  (forall e w', inv s0 w' -> X e w') -> wp (accept_message ctx env source k data) (answered s0 source (FMessage k data)) X w.
Proof.
  intros Hst Hi Ht Hs Hz HX. unfold accept_message. wp1. wp1. destruct (Z.ltb_spec (c_step k) (agreed_step (a_state (actor w)))) as [Hl|Hl].
  { wp1. split; [done|]. intros _. unfold absorbed. rewrite (proj2 (Z.ltb_lt _ _) Hl). by rewrite orb_true_r. }
  destruct (_ <? _); [by wp1|]. destruct (_ || _); [by wp1|]. destruct (proposal _) as [p|] eqn:Hp.
  - destruct (proposal_commitment_Ok _ (inv_wf _ _ Hi)) as (o & -> & _ & Hk). wp1. apply aw_lift; [done| |done]. intros ? [= <-]. wp1.
    split; [done|]. case_bool_decide as E; [|done]. destruct (event (entry p)) as [en|from d] eqn:He; [done|].
    cbn [andb]. destruct (Z.eqb_spec from source) as [->|]; [|done]. cbn [andb]. case_bool_decide; [|done]. intros _. subst d.
    eapply staged_absorbs; [by apply Hk|done|done].
  - wp1. apply (apply_message_wp (display:=display) _ _ _ s0); [done|done|done| | |done].
    + intros w' Hi' (Hk & p & Hp' & [= He]). wp1. split; [done|]. intros _. by eapply staged_absorbs.
    + intros [Hf|Hf]; [by rewrite Hp in Hf|]. by destruct Hf; eapply started_running.
Qed.

Lemma accept_signature_wp source k z s0 w (X : ExecError -> World -> Prop) :
  inv s0 w -> cwf c_id source -> cwf c_frame (FStepSignature k z) ->
  (forall e w', inv s0 w' -> X e w') -> wp (accept_signature ctx env source k z) (answered s0 source (FStepSignature k z)) X w.
Proof.
  intros Hi Hs Hz HX. unfold accept_signature. wp1. wp1. destruct (Z.ltb_spec (c_step k) (agreed_step (a_state (actor w)))) as [Hl|Hl].
  { wp1. split; [done|]. intros _. unfold absorbed. rewrite (proj2 (Z.ltb_lt _ _) Hl). by rewrite orb_true_r. }
  destruct (_ <? _); [by wp1|]. destruct (proposal _) as [p|] eqn:Hp; [|by wp1].
  destruct (proposal_commitment_Ok _ (inv_wf _ _ Hi)) as (o & -> & _ & Hk). wp1. apply aw_lift; [done| |done]. intros ? [= <-].
  case_bool_decide as Eo; cbn [negb]; [|by wp1]. apply Hk in Eo as Hst. cbv zeta. set (sg := MkPSig _ _). case_bool_decide as Hin.
  { wp1. split; [done|]. intros _. unfold absorbed. rewrite Hp, Hst, bool_decide_true by done. by rewrite !orb_true_r. }
  wp1. pose proof (add_step_signature_safe sg _ (inv_wf _ _ Hi)) as Hsafe. apply wp_on_copy; [exact Hsafe|].
  unfold safe in Hsafe. destruct (add_step_signature sg (a_state (actor w))) as [[c|e|] next] eqn:Hr; cbn [fst snd]; [|by wp1..]. wp1.
  eapply (persist_step_signature_wp (display:=display) (OpSign sg)); [exact Hi|done| |by apply answer_run| |done].
  { split; [done|]. destruct Hz as [(_ & Hc) Ha]. split; [done|]. split; [by eapply staged_ranged|exact Ha]. }
  intros w' Hi' Hs'. wp1. split; [done|]. intros _. apply stages_Some in Hst as (p0 & Hp0 & Hk0).
  destruct (signature_recorded _ _ _ _ (inv_wf _ _ Hi) Hr) as (q & k' & Hq & Hk' & Hc).
  assert (k' = k) as -> by congruence. pose proof (staged_coordinate _ _ _ (inv_wf _ _ Hi) Hq Hk') as Hstep. unfold absorbed. rewrite Hs'.
  destruct c as [c|].
  - rewrite (proj2 (Z.ltb_lt _ _)) by lia. by rewrite orb_true_r.
  - destruct Hc as (p' & Hp' & Hin' & Hkn). rewrite Hp', (proj2 (stages_Some _ _)) by eauto. rewrite bool_decide_true by done.
    by rewrite !orb_true_r.
Qed.

Lemma accept_certificate_wp source c s0 w (X : ExecError -> World -> Prop) :
  inv s0 w -> cwf c_frame (FStepCertificate c) ->
  (forall e w', inv s0 w' -> X e w') -> wp (accept_certificate ctx env c) (answered s0 source (FStepCertificate c)) X w.
Proof.
  intros Hi Hz HX. unfold accept_certificate. wp1. wp1.
  destruct (Z.ltb_spec (c_step (commitment c)) (agreed_step (a_state (actor w)))) as [Hl|Hl].
  { wp1. split; [done|]. intros _. unfold absorbed. rewrite (proj2 (Z.ltb_lt _ _) Hl). by rewrite orb_true_r. }
  destruct (proposal _) as [p|] eqn:Hp; [|by wp1].
  destruct (proposal_commitment_Ok _ (inv_wf _ _ Hi)) as (o & -> & _ & Hk). wp1. apply aw_lift; [done| |done]. intros ? [= <-].
  case_bool_decide as Eo; cbn [negb]; [|wp1; by apply HX]. apply Hk in Eo as Hst.
  wp1. pose proof (certify_step_safe c _ (inv_wf _ _ Hi)) as Hsafe. apply wp_on_copy; [exact Hsafe|].
  unfold safe in Hsafe. destruct (certify_step c (a_state (actor w))) as [[q|e|] next] eqn:Hr; cbn [fst snd]; [|by wp1; apply HX..]. wp1.
  eapply (persist_step_signature_wp (display:=display) (OpCertify c)); [exact Hi|done| |by apply (answer_run (fun p => ACommitted (Some p)))| |done].
  { split; [done|]. destruct Hz as [Hz1 [Hz2 Hz3]]. split; [exact Hz1|]. by split. }
  intros w' Hi' Hs'. wp1. split; [done|]. intros _. apply stages_Some in Hst as (p0 & Hp0 & Hk0).
  pose proof (staged_coordinate _ _ _ (inv_wf _ _ Hi) Hp0 Hk0) as Hstep. apply certify_step_advances in Hr as [Ha _].
  unfold absorbed. rewrite Hs', (proj2 (Z.ltb_lt _ _)) by lia. by rewrite orb_true_r.
Qed.

Lemma accept_direct_wp source seq msg att s0 w (X : ExecError -> World -> Prop) :
  inv s0 w -> is_terminal (status (a_state (actor w))) = false -> cwf c_id source -> cwf c_u64 seq ->
  (forall e w', inv s0 w' -> X e w') -> wp (accept_direct ctx env source seq msg att) (answered s0 source (FDirect seq msg att)) X w.
Proof.
  intros Hi Ht Hs Hq HX. unfold accept_direct. wp1. wp1. pose proof (open_running _ (inv_wf _ _ Hi)) as [_ Hopen].
  rewrite (Hopen Ht). destruct (direct_arrival _ _ _) eqn:Ha.
  - wp1. split; [done|]. intros _. apply arrival_duplicate in Ha. unfold absorbed. rewrite (proj2 (Z.leb_le _ _) Ha). by rewrite orb_true_r.
  - destruct (_ || _); [by wp1|]. wp1. apply (dispatch_direct_wp (display:=display) _ _ _ _ s0); [done|done|done| |by wp1|done].
    intros o w' Hi' Ho Happ. wp1. split; [done|]. destruct o; [|done|]; intros _; unfold absorbed;
      rewrite (proj2 (Z.leb_le _ _)) by lia; by rewrite orb_true_r.
  - by wp1.
Qed.

Lemma accept_abort_wp source o s0 w (X : ExecError -> World -> Prop) :
  inv s0 w -> cwf c_abort o ->
  (forall e w', inv s0 w' -> X e w') -> wp (accept_abort ctx env o) (answered s0 source (FAbort o)) X w.
Proof.
  intros Hi Ho HX. unfold accept_abort. wp1. wp1.
  destruct (Z.ltb_spec (next_step (ab_coordinate o)) (agreed_step (a_state (actor w)))) as [Hl|Hl].
  { wp1. split; [done|]. intros _. unfold absorbed. rewrite (proj2 (Z.ltb_lt _ _) Hl). by rewrite orb_true_r. }
  destruct (_ <? _); [by wp1|]. wp1. pose proof (stop_safe o (a_state (actor w))) as Hsafe. apply wp_on_copy; [exact Hsafe|].
  unfold safe in Hsafe. destruct (stop o (a_state (actor w))) as [[[]|e|] next] eqn:Hr; cbn [fst snd]; [| |done].
  2: { destruct e; by wp1. }
  wp1. eapply (persist_op_wp (display:=display) (OpStop o)); [exact Hi|done|by split|by apply answer_run| |done].
  intros w' Hi' Hs'. wp1. split; [done|]. intros _. apply absorbed_over. rewrite Hs'. by eapply stop_over.
Qed.

(** An acknowledgement says the frame is in the state that is written. *)
Lemma accept_frame_wp source f s0 w (X : ExecError -> World -> Prop) :
  started s0 -> inv s0 w -> decoded f -> (forall e w', inv s0 w' -> X e w') ->
  wp (accept_frame ctx env source f) (answered s0 source f) X w.
Proof.
  intros Hst Hi [Hw Hz]%decoded_facts HX. unfold accept_frame. wp1. wp1. wp1. apply aw_lift; [apply authenticates_noPanic| |by auto].
  intros ok Hok. destruct ok; cbn [negb]; [|by wp1]. apply authenticates_participant in Hok as Hp.
  pose proof (participant_ranged _ _ _ Hi Hp) as Hs. destruct (is_terminal _) eqn:Ht; [by apply accept_terminal_wp|]. destruct f.
  - by apply accept_message_wp.
  - by apply accept_signature_wp.
  - by apply accept_abort_wp.
  - by apply accept_certificate_wp.
  - apply accept_direct_wp; try done. apply Hw.
Qed.
End Accepting.
