(* ===== verification/Serving.v ===== *)
(** * The actor's loop (node/src/execution/actor.rs, delivery.rs)

    Sends, progress, commands and the loop over its inputs, on top of the handlers:
    everything keeps the invariant, nothing panics and the loop goes on only with an
    activated execution. *)

From S2P Require Import Prelude Book Borsh Crypto Session Trace Negotiation Evidence Validation Receipt Frame Execution.
From S2P Require Import Invariant History Publish Guarantees Consistency Canonical NoPanic StateCodec Ranges Envelope ChangeLog Database.
From S2P Require Import Persist Store Registry Durable Writes Registered Refinement Simulation Resident Absorbing Actor Delivery Acting Handling Concluding Accepting.

#[local] Open Scope Z_scope.

Section Serving.
Context `{Hosting}.
#[local] Abbreviation inv := (inv (ctx:=ctx) (dir:=dir)).
#[local] Abbreviation base := (base (ctx:=ctx) (dir:=dir)).
#[local] Abbreviation keeps := (keeps (ctx:=ctx) (dir:=dir)).

(** The actor's context describes the execution it serves. *)
Definition bound (s : ExecutionState) : Prop := activation (binding s) = ctx_activation ctx /\ exists tr, reach s tr.

Lemma steps_binding s tr s' : reach s tr -> rtc op_step s s' -> binding s' = binding s.
Proof.
  intros Hr Hs. revert tr Hr. induction Hs as [s|s s1 s2 (op & r & Hop & Ho) _ IH]; intros tr Hr; [done|].
  rewrite (IH (tr ++ logged r)) by (by eapply reach_op).
  by destruct (op_monotone _ _ _ _ (tr_wf _ _ (reach_traced _ _ Hr)) Ho).
Qed.
Lemma inv_bound s0 w : bound s0 -> inv s0 w -> activation (binding (a_state (actor w))) = ctx_activation ctx.
Proof. intros [Ha [tr Hr]] [Hb _]. by rewrite (steps_binding _ _ _ Hr (b_evolves _ _ Hb)). Qed.

(** A handler that keeps the invariant of executions with [G]. *)
Definition serves {A} (G : ExecutionState -> Prop) (m : AM A) : Prop := forall s0 w,
  G s0 -> inv s0 w -> wp m (fun _ w' => inv s0 w') (fun _ w' => inv s0 w') w.

Lemma keeps_serves {A} G (m : AM A) : keeps m -> serves G m.
Proof. intros Hm s0 w _. apply Hm. Qed.
Lemma serves_bind {A B} G (m : AM A) (f : A -> AM B) : serves G m -> (forall a, serves G (f a)) -> serves G (sbind m f).
Proof. intros Hm Hf s0 w HG Hi. apply aw_bind. eapply aw_mono; [by apply Hm| |done]. intros a w' Hi'. by apply Hf. Qed.
Lemma serves_use {A} G (m : AM A) (Q : A -> World -> Prop) (X : ExecError -> World -> Prop) s0 w :
  serves G m -> G s0 -> inv s0 w -> (forall a w', inv s0 w' -> Q a w') -> (forall e w', inv s0 w' -> X e w') -> wp m Q X w.
Proof. intros Hm HG Hi HQ HX. eapply aw_mono; [by apply Hm| |]; eauto. Qed.
Lemma serves_weaken {A} (G G' : ExecutionState -> Prop) (m : AM A) : (forall s, G' s -> G s) -> serves G m -> serves G' m.
Proof. intros HG Hm s0 w HG'. apply Hm. auto. Qed.

(** ** Frames out *)

#[local] Instance quiet_frame_commitment : Quiet c_frame_commitment.
Proof.
  intros k. cbn [enc c_frame_commitment]. destruct (has_step_domain k); [|done]. apply (quiet (c:=c_commitment)).
Qed.
Lemma frame_quiet f : enc c_frame f <> Panic.
Proof.
  destruct f as [k data|k z|o|c|seq m att]; cbn [enc c_frame]; apply variant_quiet;
    unfold c_frame_message, c_frame_signature, c_frame_certificate, c_frame_direct; apply _.
Qed.
Lemma frame_digest_noPanic f : frame_digest f <> Panic.
Proof. unfold frame_digest. pose proof (frame_quiet f). by destruct (enc c_frame f). Qed.

Lemma frames_to_send_noPanic s : wf s -> frames_to_send s <> Panic.
Proof.
  intros Hw. unfold frames_to_send. apply rbind_noPanic; [destruct (is_terminal _); [done|]|].
  - unfold current_frames. destruct (proposal s) as [p|] eqn:Hp; [|done]. by destruct (staged_commitment (E:=ExecError) s p Hw Hp) as [k ->].
  - intros l _. apply try_fold_noPanic. intros acc f _. apply rbind_noPanic; [apply frame_digest_noPanic|done].
Qed.

(** What is sent are the state's frames. *)
Lemma digested_frames s l : frames_to_send s = Ok l -> exists fs, frames_of s = Ok fs /\ forall p, p ∈ l -> p.2 ∈ fs.
Proof.
  unfold frames_to_send, frames_of. intros Hl. apply rbind_Ok in Hl as (fs & Hf & Hl). exists fs. split; [done|].
  assert (forall acc, try_fold (fun acc f => let? d := frame_digest f in Ok (acc ++ [(d, f)])) acc fs = Ok l ->
    forall p, p ∈ l -> p ∈ acc \/ p.2 ∈ fs) as Hgen; [|intros p Hp; destruct (Hgen [] Hl p Hp); set_solver].
  clear Hf Hl. induction fs as [|f fs IH]; intros acc Hl p Hp; cbn [try_fold] in Hl; [injection Hl as ->; by left|].
  apply rbind_Ok in Hl as (acc' & Hd & Hl). inv_ok. destruct (IH _ Hl p Hp) as [Hin|Hin]; [|set_solver].
  apply elem_of_app in Hin as [Hin|Hin]; [by left|]. apply list_elem_of_singleton in Hin as ->. right. cbn. set_solver.
Qed.

Lemma find_by_elem {A} (P : A -> bool) l x : find_by P l = Some x -> x ∈ l.
Proof. intros [Hf _]%List.find_some. by apply list_elem_of_In. Qed.

(** A pick is one of the frames, or the head of the queue while the execution runs. *)
Lemma lane_next_pick lane frames head ending now pick :
  lane_next lane frames head ending now = Some pick ->
  match pick with
  | PickProtocol d f => (d, f) ∈ frames
  | PickDirect e => ending = false /\ head = Some e
  end.
Proof.
  unfold lane_next. intros Hp.
  assert (forall o, match head with Some e => if negb ending && elapsed o now then Some (PickDirect e) else None | None => None end = Some pick ->
    match pick with PickProtocol d f => (d, f) ∈ frames | PickDirect e => ending = false /\ head = Some e end) as Hd.
  { intros o Hh. destruct head as [e|]; [|done]. destruct ending; [done|]. destruct (elapsed o now); [|done]. by injection Hh as <-. }
  destruct (elapsed (l_retry_at lane) now); [|by eapply Hd]. destruct (find_by _ frames) as [[d f]|] eqn:Hf; [|by eapply Hd].
  injection Hp as <-. by eapply find_by_elem.
Qed.

Lemma with_lane_quiet peer f : quiet_put (with_lane peer f).
Proof. done. Qed.

Lemma deliver_to_wp frames fs peer s0 w Q X :
  inv s0 w -> is_participant (binding (a_state (actor w))) peer = true ->
  frames_of (a_state (actor w)) = Ok fs -> (forall p, p ∈ frames -> p.2 ∈ fs) ->
  (forall w', inv s0 w' -> a_state (actor w') = a_state (actor w) -> Q tt w') -> wp (deliver_to env frames peer) Q X w.
Proof.
  intros Hi Hp Hfs Hin HQ. unfold deliver_to. wp1. wp1. cbv zeta. destruct (_ || _); [wp1; by apply HQ|]. wp1. wp1. wp1. wp1.
  set (w1 := put_w _ w). assert (inv s0 w1) as Hi1 by (by apply inv_put). destruct (_ || _); [wp1; by apply HQ|]. wp1. wp1.
  destruct (lane_next _ _ _ _ _) as [pick|] eqn:Hn; [|wp1; apply HQ; [by apply inv_tick|done]]. apply lane_next_pick in Hn.
  assert (forall f1 f2 w2, quiet_put f1 -> quiet_put f2 -> inv s0 w2 -> inv s0 (put_w f2 (put_w f1 w2))) as Hput.
  { intros f1 f2 w2 H1' H2' Hi2. by apply inv_put, inv_put. }
  destruct pick as [d f|e]; do 5 wp1; (apply HQ; [|done]); (apply inv_act; [by apply Hput, inv_tick| |done]); [|done].
  split; [done|]. exists fs. split; [done|]. by apply (Hin (d, f)).
Qed.

Lemma deliver_each_wp frames fs peers s0 w Q X :
  inv s0 w -> Forall (fun p => is_participant (binding (a_state (actor w))) p = true) peers ->
  frames_of (a_state (actor w)) = Ok fs -> (forall p, p ∈ frames -> p.2 ∈ fs) ->
  (forall w', inv s0 w' -> Q tt w') -> wp (deliver_each env frames peers) Q X w.
Proof.
  intros Hi Hp Hfs Hin HQ. revert w Hi Hp Hfs. induction peers as [|p peers IH]; intros w Hi Hp Hfs; cbn [deliver_each]; [wp1; by apply HQ|].
  apply Forall_cons in Hp as [Hp Hps]. wp1. apply (deliver_to_wp _ fs _ s0); [done|done|done|done|]. intros w' Hi' Hs. apply IH; [done|..]; by rewrite Hs.
Qed.

Lemma deliver_frames_serves : serves bound (deliver_frames ctx env).
Proof.
  intros s0 w Hbd Hi. unfold deliver_frames. wp1. wp1. wp1. apply aw_lift; [by apply frames_to_send_noPanic, (inv_wf _ _ Hi)| |done].
  intros frames Hf. destruct (digested_frames _ _ Hf) as (fs & Hfs & Hin). apply (deliver_each_wp _ fs _ s0); [done| |done|done|done].
  apply Forall_forall. intros p Hp. apply is_participant_elem. unfold participants, binding_tickets. by rewrite (inv_bound _ _ Hbd Hi).
Qed.

(** ** Settled sends *)

Lemma retry_keeps peer f : keeps (let! now := ask (instant env) in put (with_lane peer (f now))).
Proof. intros s0 w Hi. wp1. wp1. wp1. apply inv_put; [done|by apply inv_tick]. Qed.
Lemma lane_keeps peer f : keeps (put (with_lane peer f)).
Proof. intros s0 w Hi. wp1. by apply inv_put. Qed.
Lemma confirm_peer_keeps peer : keeps (confirm_peer ctx env peer).
Proof. intros s0 w Hi. by apply (confirm_peer_wp (display:=display) _ s0). Qed.

Lemma settle_direct_keeps peer seq o : keeps (settle_direct ctx env peer seq o).
Proof.
  unfold settle_direct. apply keeps_seq; [apply lane_keeps|]. intros []. cbv zeta.
  assert (keeps (put (with_lane peer lane_handle) ;;!
    let! r := transition (ack_direct peer seq) in if r.1 : bool then persist_next ctx env r.2 ChState else sret tt)) as Hack.
  { apply keeps_seq; [apply lane_keeps|]. intros [] s0 w Hi. wp1. apply wp_transition; [apply ack_direct_safe| |done].
    intros b next Ha. cbn [fst snd]. destruct b; [|by wp1].
    eapply (persist_op_wp (display:=display) (OpAckDirect peer seq)); [exact Hi|done|by split|by apply answer_run|done|done]. }
  destruct o; try done; [|apply retry_keeps]. apply keeps_seq; [apply lane_keeps|]. intros []. apply retry_keeps.
Qed.

Lemma is_final_noPanic s d : is_final s d <> Panic.
Proof. unfold is_final. destruct (terminal_evidence s) as [f|]; [|done]. pose proof (frame_digest_noPanic f). by destruct (frame_digest f). Qed.

Lemma settle_protocol_keeps peer d o : keeps (settle_protocol ctx env peer d o).
Proof.
  intros s0 w Hi. unfold settle_protocol. wp1. wp1. wp1. apply aw_lift; [apply is_final_noPanic| |done]. intros final _.
  revert s0 w Hi. change (keeps (put (with_lane peer (fun l => lane_retry None (lane_free l))) ;;!
    let later := let! now := ask (instant env) in put (with_lane peer (lane_retry (Some (now + PROGRESS_INTERVAL)))) in
    match o with
    | SendAccepted => put (with_lane peer (fun l => lane_handle (lane_ack d l))) ;;! if final : bool then confirm_peer ctx env peer else sret tt
    | SendRejected => if final : bool then put (with_lane peer lane_suppress) else put (with_lane peer (fun l => lane_handle (lane_reject d l)))
    | SendConflict => put (with_lane peer lane_suppress)
    | SendNotYet => put (with_lane peer lane_handle) ;;! later
    | SendFailed => later
    end)).
  apply keeps_seq; [apply lane_keeps|]. intros []. cbv zeta. destruct o.
  - apply keeps_seq; [apply lane_keeps|]. intros []. destruct final; [apply confirm_peer_keeps|]. intros s0 w Hi. by wp1.
  - destruct final; apply lane_keeps.
  - apply lane_keeps.
  - apply keeps_seq; [apply lane_keeps|]. intros []. apply retry_keeps.
  - apply retry_keeps.
Qed.

Lemma settle_send_keeps peer sent o : keeps (settle_send ctx env peer sent o).
Proof.
  unfold settle_send. destruct o as [o|e|].
  - destruct sent; [apply settle_protocol_keeps|apply settle_direct_keeps].
  - apply keeps_seq; [apply lane_keeps|]. intros [] s0 w Hi. by wp1.
  - intros s0 w Hi. by wp1.
Qed.

(** ** Progress *)

Lemma announce_callout_keeps : keeps (announce_callout env).
Proof.
  intros s0 w Hi. unfold announce_callout. wp1. wp1. destruct (callout _) as [o|]; [|by wp1]. destruct (opt_eqb _ _); [by wp1|]. wp1.
  apply (observe_wp (ctx:=ctx) (dir:=dir) _ s0); [done|done|done| |done]. intros w' Hi'. wp1. by apply inv_put.
Qed.

Lemma end_run_finished_wp s0 w Q X : inv s0 w -> (forall b w', inv s0 w' -> a_state (actor w') = a_state (actor w) -> Q b w') -> wp (end_run_finished env) Q X w.
Proof.
  intros Hi HQ. unfold end_run_finished. wp1. wp1. destruct (receipt_work _); [by wp1; apply HQ..|].
  destruct (end_phase _); [by wp1; apply HQ..|]. case_bool_decide; [by wp1; apply HQ|]. destruct (a_end_timer _); [|by wp1; apply HQ].
  wp1. wp1. wp1. apply HQ; [by apply inv_tick|done].
Qed.

Lemma expire_keeps : keeps (let! r := transition expire_end in persist_next ctx env r.2 ChState).
Proof.
  intros s0 w Hi. wp1. apply wp_transition; [apply expire_end_safe| |done]. intros [] next Hr. cbn [snd].
  by eapply (persist_op_wp (display:=display) OpExpireEnd); [exact Hi|done|by split|apply answer_run| |].
Qed.

Lemma expired_keeps e o : keeps (
  match e, o with
  | Ending _, Some t =>
      let! now := ask (instant env) in
      if et_deadline t <=? now then let! r := transition expire_end in persist_next ctx env r.2 ChState else sret tt
  | _, _ => sret tt
  end).
Proof.
  intros s0 w Hi. destruct e; [by wp1| |by wp1]. destruct o as [t|]; [|by wp1]. wp1. wp1.
  destruct (_ <=? _); [by apply expire_keeps, inv_tick|wp1; by apply inv_tick].
Qed.

Lemma progress_terminal_boundary_serves : serves bound (progress_terminal_boundary ctx env).
Proof.
  unfold progress_terminal_boundary. apply serves_bind; [apply keeps_serves, finalize_receipt_keeps|]. intros [].
  apply serves_bind; [apply keeps_serves, emit_published_terminal_keeps|]. intros [] s0 w Hbd Hi. wp1. wp1. wp1.
  eapply keeps_use; [apply expired_keeps|exact Hi| |done]. intros [] w1 Hi1. wp1. apply (end_run_finished_wp s0); [done|]. intros b w2 Hi2 _.
  destruct b; cbn [negb when]; [by wp1|by apply deliver_frames_serves].
Qed.

Lemma progress_running_serves : serves bound (progress_running ctx env).
Proof.
  intros s0 w Hbd Hi. unfold progress_running. wp1. wp1. wp1.
  assert (forall w1, inv s0 w1 -> wp (announce_callout env ;;! deliver_frames ctx env) (fun _ w' => inv s0 w') (fun _ w' => inv s0 w') w1) as Hend.
  { intros w1 Hi1. wp1. eapply keeps_use; [apply announce_callout_keeps|exact Hi1| |done]. intros [] w2 Hi2. by apply deliver_frames_serves. }
  destruct (is_some _); [by eapply keeps_use; [apply ensure_step_signature_keeps|exact Hi|intros []; apply Hend|]|].
  unfold when. destruct (may_author _); [by eapply keeps_use; [apply author_next_message_keeps|exact Hi|intros []; apply Hend|]|]. wp1. by apply Hend.
Qed.

Lemma progress_serves : serves bound (progress ctx env).
Proof.
  intros s0 w Hbd Hi. unfold progress. wp1. wp1. destruct (receipt_work _); [|by apply progress_terminal_boundary_serves..]. wp1.
  eapply keeps_use; [apply ensure_session_started_keeps|exact Hi| |done]. intros [] w1 Hi1. wp1.
  eapply keeps_use; [apply fire_due_timers_keeps|exact Hi1| |done]. intros [] w2 Hi2. wp1. wp1.
  destruct (receipt_work _); [by apply progress_running_serves|by apply progress_terminal_boundary_serves..].
Qed.

(** ** Commands *)

(** A reason is text, an inbound frame was decoded, an input fits its envelope. *)
Definition command_ok (c : ExecCommand) : Prop :=
  match c with
  | CmdTerminate reason => utf8_valid reason = true
  | CmdInbound _ f => decoded f
  | _ => True
  end.
Definition input_ok (i : Input) : Prop := match i with InCommand c => command_ok c | _ => True end.

Definition serving (s : ExecutionState) : Prop := bound s /\ started s.

Lemma submit_input_serves pending_id data : serves bound (submit_input ctx env pending_id data).
Proof.
  intros s0 w Hbd Hi. unfold submit_input. wp1. wp1. destruct (callout _) as [open|] eqn:Hc; [|by wp1]. wp1. wp1.
  apply (dispatch_event_wp (env:=env) (display:=display) _ _ s0); [done| | | | |].
  - split_and!; [|done|done]. split; [|done]. pose proof (rg_callout _ (inv_ranged _ _ Hi)) as [Hr _]. rewrite Hc in Hr. apply Hr.
  - intros w' Hi' _. wp1. eapply serves_use; [apply progress_serves|exact Hbd|exact Hi'|intros [] w2 Hi2; by wp1|done].
  - intros _. by wp1.
  - intros reason w' Hi' _. by wp1.
  - intros e w' Hi'. destruct e; by wp1.
Qed.

Lemma terminate_serves reason : utf8_valid reason = true -> serves bound (terminate ctx env reason).
Proof.
  intros Hu s0 w Hbd Hi. unfold terminate. wp1. apply (persist_abort_wp (display:=display) _ _ _ s0); [done|done|done| |done].
  intros w' Hi' _. by apply progress_serves.
Qed.

Lemma query_keeps index q : keeps (query env index q).
Proof.
  intros s0 w Hi. unfold query. wp1. wp1. wp1. apply (ensemble_wp (dir:=dir) (display:=display) (ctx:=ctx) (env:=env) s0); [apply Hi|]. intros en _. wp1. wp1.
  apply wp_sandbox; [by destruct (guest_query _ _ _ _ _)|intros; by apply inv_tick|intros; by apply inv_tick].
Qed.

(** Only an absorbed frame is acknowledged, a divergence after the failure is written. *)
Lemma inbound_serves source f : decoded f -> serves serving (inbound ctx env display source f).
Proof.
  intros Hf s0 w [Hbd Hst] Hi. unfold inbound. wp1. wp1.
  assert (forall w', inv s0 w' -> wp (progress ctx env) (fun _ w' => inv s0 w') (fun _ w' => inv s0 w') w') as Hgo by (intros; by apply progress_serves).
  assert (forall w', inv s0 w' -> absorbed (a_state (actor w')) source f = true ->
    wp (act (Acknowledge source f)) (fun _ w1 => wp (progress ctx env) (fun _ w' => inv s0 w') (fun _ w' => inv s0 w') w1) (fun _ w' => inv s0 w') w') as Hack.
  { intros w' Hi' Ha. wp1. by apply Hgo, inv_act. }
  eapply aw_mono; [apply (accept_frame_wp (display:=display) source f s0 w (fun _ w' => inv s0 w')); try done| |].
  - intros [r|] w1 [Hi1 Ha]; wp1; [wp1; by apply Hgo, inv_act|]. by apply Hack, Ha.
  - intros e w1 Hi1. wp1. destruct e; try (by wp1). wp1. apply (fail_terminal_wp _ s0); [done|]. intros [] w2 Hi2 Ho; [|by wp1].
    apply Hack; [done|]. by apply absorbed_over, Ho.
Qed.

Lemma reply_keeps {A} (r : A) (f : A -> Action) : (forall s a, supported s (f a)) -> (forall a m, f a <> Observe m) -> keeps (act (f r)).
Proof. intros Hf Hn s0 w Hi. wp1. apply inv_act; [done|apply Hf|]. intros m E. by destruct (Hn r m). Qed.

Lemma handle_serves c : command_ok c -> serves serving (handle ctx env display c).
Proof.
  intros Hc s0 w [Hbd Hst] Hi. destruct c as [pid data|reason|index q|source f]; cbn [handle].
  - wp1. wp1. eapply serves_use; [apply submit_input_serves|exact Hbd|exact Hi| |].
    + intros [e|] w' Hi'; by apply (reply_keeps _ ReplyInput).
    + intros e w' Hi'. wp1. wp1. wp1. by apply inv_act.
  - wp1. wp1. eapply serves_use; [by apply terminate_serves|exact Hbd|exact Hi| |]; intros ? w' Hi'; by apply (reply_keeps _ ReplyTerminate).
  - wp1. wp1. eapply keeps_use; [apply query_keeps|exact Hi| |]; intros ? w' Hi'; by apply (reply_keeps _ ReplyQuery).
  - by apply inbound_serves.
Qed.

(** ** The loop *)

(** The error boundary: an execution the loop goes on with after an error is over. *)
Lemma continue_after_wp r s0 w Q X :
  inv s0 w -> r <> Panic -> (forall b w', inv s0 w' -> (b = true -> r = Ok tt /\ w' = w \/ over w') -> Q b w') ->
  wp (continue_after ctx env display r) Q X w.
Proof.
  intros Hi Hr HQ. unfold continue_after. destruct r as [[]|e|]; [wp1; apply HQ; auto| |done].
  assert (wp (fail_terminal ctx env display e) Q X w) as Hf.
  { apply (fail_terminal_wp _ s0); [done|]. intros b w' Hi' Ho. apply HQ; [done|]. intros Hb. right. by apply Ho. }
  destruct e; try exact Hf. wp1. apply HQ; [done|done].
Qed.

Lemma guarded_wp (m : AM unit) (P : World -> Prop) s0 w Q X :
  wp m (fun _ w' => inv s0 w' /\ P w') (fun _ w' => inv s0 w') w ->
  (forall b w', inv s0 w' -> (b = true -> P w' \/ over w') -> Q b w') -> wp (guarded ctx env display m) Q X w.
Proof.
  intros Hm HQ. unfold guarded. wp1. wp1. eapply aw_mono; [exact Hm| |].
  - intros [] w1 [Hi1 Hp]. apply (continue_after_wp _ s0); [done|done|]. intros b w2 Hi2 Ho. apply HQ; [done|].
    intros Hb. destruct (Ho Hb) as [[_ ->]|?]; [by left|by right].
  - intros e w1 Hi1. apply (continue_after_wp _ s0); [done|done|]. intros b w2 Hi2 Ho. apply HQ; [done|].
    intros Hb. destruct (Ho Hb) as [[? _]|?]; [done|by right].
Qed.

Lemma guarded_serves G (m : AM unit) s0 w Q X :
  serves G m -> G s0 -> inv s0 w -> (forall b w', inv s0 w' -> Q b w') -> wp (guarded ctx env display m) Q X w.
Proof.
  intros Hm HG Hi HQ. apply (guarded_wp _ (fun _ => True) s0); [|by auto]. eapply aw_mono; [by apply Hm|by auto|done].
Qed.

Lemma actor_turn_wp i s0 w Q X :
  serving s0 -> inv s0 w -> input_ok i -> (forall b w', inv s0 w' -> Q b w') -> wp (turn ctx env display i) Q X w.
Proof.
  intros Hs Hi Hok HQ. destruct i as [k o|c| |]; cbn [turn].
  - wp1. wp1. destruct (a_tasks (actor w) !! k) as [[peer sent]|]; [|wp1; by apply HQ]. wp1. wp1. wp1.
    eapply (guarded_serves serving); [apply keeps_serves, settle_send_keeps|done|by apply inv_put|]. intros [] w1 Hi1; [|wp1; by apply HQ].
    eapply (guarded_serves bound); [apply progress_serves|apply Hs|exact Hi1|exact HQ].
  - eapply (guarded_serves serving); [by apply handle_serves|done|exact Hi|exact HQ].
  - wp1. apply (fail_terminal_wp _ s0); [done|]. intros b w1 Hi1 _. wp1. by apply HQ.
  - eapply (guarded_serves bound); [apply progress_serves|apply Hs|exact Hi|exact HQ].
Qed.

Lemma run_loop_wp inputs s0 w Q X :
  serving s0 -> inv s0 w -> Forall input_ok inputs -> (forall w', inv s0 w' -> Q tt w') -> wp (run_loop ctx env display inputs) Q X w.
Proof.
  intros Hs Hi Hok HQ. revert w Hi. induction Hok as [|i inputs Hi' _ IH]; intros w Hi; cbn [run_loop]; wp1;
    (apply (end_run_finished_wp s0); [done|]); intros [] w1 Hi1 _; [by wp1; apply HQ..|by wp1; apply HQ|].
  wp1. apply (actor_turn_wp _ s0); [done|done|done|]. intros [] w2 Hi2; [by apply IH|wp1; by apply HQ].
Qed.

(** ** Startup *)

(** Recovery activates the execution, or fails. *)
Lemma recover_wp s0 w (X : ExecError -> World -> Prop) :
  bound s0 -> inv s0 w -> (forall e w', inv s0 w' -> X e w') ->
  wp (recover ctx env) (fun _ w' => inv s0 w' /\ status (a_state (actor w')) <> Activating) X w.
Proof.
  intros Hbd Hi HX. unfold recover. wp1. eapply (restore_resident_wp (dir:=dir)); [apply Hi| |intros e w' Hb Ha; apply HX; by eapply inv_alike].
  intros w1 i Hb1 Hs1 Hin1 Hh. assert (inv s0 w1) as Hi1.
  { split; [done|]. intros _ j Hj. rewrite Hs1. congruence. }
  assert (forall w2, inv s0 w2 -> status (a_state (actor w2)) <> Activating ->
    wp (progress ctx env) (fun _ w' => inv s0 w' /\ status (a_state (actor w')) <> Activating) X w2) as Hgo.
  { intros w2 Hi2 Hst2. destruct (base_live _ _ (proj1 Hi2)) as (tr & Hl & _). apply live_reach in Hl.
    pose proof (inv_bound _ _ Hbd Hi2) as Hb2. pose proof (b_evolves _ _ (proj1 Hi2)) as Hev.
    eapply serves_use; [apply progress_serves| |by eapply inv_rebase| |].
    - split; [exact Hb2|by exists tr].
    - intros [] w3 Hi3. split; [by eapply inv_earlier|]. eapply inv_started; [|exact Hi3]. by split; [|exists tr].
    - intros e w3 Hi3. apply HX. by eapply inv_earlier. }
  wp1. wp1. wp1. destruct (status_lifecycle _) eqn:Hl.
  2: { wp1. apply wp_transition; [apply activate_safe| |by auto]. intros [] next Ha. cbn [snd].
    eapply (persist_op_wp (display:=display) OpActivate); [exact Hi1|done|by split|by apply answer_run| |done].
    intros w2 Hi2 Hs2. apply Hgo; [done|]. rewrite Hs2. by apply activate_same in Ha as (_ & _ & -> & _). }
  all: wp1; apply Hgo; [done|]; intros E; by rewrite E in Hl.
Qed.

Lemma actor_run_wp startup inputs s0 w Q X :
  bound s0 -> base s0 w -> a_instance (actor w) = None -> Forall input_ok inputs ->
  (forall w', inv s0 w' -> Q tt w') -> wp (run ctx env display startup inputs) Q X w.
Proof.
  intros Hbd Hb Hin Hok HQ. unfold run.
  assert (inv s0 w) as Hi. { split; [done|]. intros _ i Hi. congruence. }
  assert (serves bound (sync_end_timer ctx env)) as Hsync.
  { intros s1 w1 _ Hi1. eapply (sync_end_timer_wp (display:=display)); [apply Hi1|intros; by eapply inv_alike|]. intros; by eapply inv_alike. }
  wp1. eapply (guarded_serves bound); [exact Hsync|done|done|]. intros [] w1 Hi1; cbn [negb]; [|wp1; by apply HQ]. wp1.
  assert (forall b w2, inv s0 w2 -> (b = true -> status (a_state (actor w2)) <> Activating) ->
    wp (if negb b then sret tt else run_loop ctx env display inputs) Q X w2) as Hloop.
  { intros [] w2 Hi2 Hst; cbn [negb]; [|wp1; by apply HQ]. destruct (base_live _ _ (proj1 Hi2)) as (tr & Hl & _). apply live_reach in Hl.
    pose proof (inv_bound _ _ Hbd Hi2) as Hb2. pose proof (b_evolves _ _ (proj1 Hi2)) as Hev.
    eapply run_loop_wp; [|by eapply inv_rebase|done|intros w3 Hi3; apply HQ; by eapply inv_earlier].
    split; split; [exact Hb2|by exists tr|by apply Hst|by exists tr]. }
  assert (forall w2, over w2 -> status (a_state (actor w2)) <> Activating) as Hov by (intros w2 Ho E; unfold over in Ho; by rewrite E in Ho).
  destruct startup as [e|].
  - apply (continue_after_wp _ s0); [done|done|]. intros b w2 Hi2 Ho. apply Hloop; [done|]. intros Hb'. by destruct (Ho Hb') as [[? _]|?%Hov].
  - apply (guarded_wp _ (fun w' => status (a_state (actor w')) <> Activating) s0); [by apply recover_wp|].
    intros b w2 Hi2 Ho. apply Hloop; [done|]. intros Hb'. by destruct (Ho Hb') as [?|?%Hov].
Qed.
End Serving.
