(* ===== verification/Spawning.v ===== *)
(** * What the execution actor guarantees (node/src/execution/mod.rs)

    [spawn]: the actor finds or creates the execution in the store and serves it.
    Whatever the inputs, the guest, the clocks and the failures of the store, it
    never panics; what it tells others is in the store first. *)

From S2P Require Import Prelude Book Borsh Crypto Session Trace Negotiation Evidence Validation Receipt Frame Execution.
From S2P Require Import Invariant History Publish Guarantees Consistency Canonical NoPanic StateCodec Ranges Envelope ChangeLog Database.
From S2P Require Import Persist Store Registry Durable Writes Registered Refinement Simulation Resident Absorbing Actor Delivery Acting Handling Concluding Accepting Serving.

#[local] Open Scope Z_scope.

(** Before the actor runs: nothing logged, the store holds [o] for this execution,
    and an execution it holds has the actor's activation. *)
Record at_start `{Crypto, LocalKeys} (ctx : ActorContext) (dir : bytes) (o : option ExecutionState) (w : World) : Prop := {
  as_log : log w = [];
  as_store : dead w = false -> holds_in ctx dir (db w) o;
  as_bound : forall s, o = Some s -> activation (binding s) = ctx_activation ctx }.

(** The actor stopped before it ran an execution: startup failed and the state then
    could not be loaded, because there is none or because the load itself failed.  It
    reported at most that failure. *)
Definition turned_away (w : World) : Prop :=
  (length (log w) <= 1)%nat /\ Forall (fun x => exists r, seen_action x = Observe (FailedMsg r)) (log w).

Section Spawning.
Context `{Hosting}.
#[local] Abbreviation durable_in := (durable_in ctx dir).
#[local] Abbreviation absent_in := (absent_in ctx dir).
#[local] Abbreviation holds_in := (holds_in ctx dir).
#[local] Abbreviation inv := (inv (ctx:=ctx) (dir:=dir)).
#[local] Abbreviation base := (base (ctx:=ctx) (dir:=dir)).
#[local] Abbreviation bound := (bound (ctx:=ctx)).
#[local] Abbreviation at_start := (at_start ctx dir).

Lemma start_call o w b d : at_start o w -> (d = false -> holds_in b o) -> at_start o (after_call b d w).
Proof. intros [A1 A2 A3] Hb. by split. Qed.
Lemma start_tick o w : at_start o w -> at_start o (tick_w w).
Proof. intros [A1 A2 A3]. by split. Qed.

Lemma start_run {A} (m : nat -> db_op A) Q X o w :
  at_start o w -> (forall w' e, at_start o w' -> X e w') ->
  (forall b n, holds_in b o -> poisoned b = false ->
     match m n b with
     | (Ok a, b') => Q a (after_call b' false w)
     | (Err e, b') => X (from_store e) (after_call b' false w)
     | (Panic, b') => True
     end) ->
  wp (store_run env m) Q X w.
Proof.
  intros Hs HX HQ. unfold wp, store_run.
  assert (forall b, X (from_store Closed) (after_call b true w)) as Hclosed by (intros b; apply HX, start_call; [done|by intros [=]]).
  destruct (dead w) eqn:Hd; [apply Hclosed|].
  assert (holds_in (interfere env (tick w) (db w)) o) as Hi by (by apply host_others, (as_store _ _ _ _ Hs)).
  destruct (other_panics env (tick w)); [apply Hclosed|].
  destruct (poisoned _) eqn:Hp; [by apply (HX (after_call _ false w)), start_call|].
  specialize (HQ _ (tick w) Hi Hp). destruct (m (tick w) _) as [[a|e|] b']; [done|done|apply Hclosed].
Qed.

(** A read of the execution finds what the store holds. *)
Lemma load_held o b : holds_in b o -> poisoned b = false -> load_execution (host_id b) (view b) (ctx_exec ctx) = Ok o.
Proof.
  intros Ho Hp. assert (exists A, history local_peer dir b A /\ fst <$> A !! ctx_exec ctx = o) as (A & Hh & <-).
  { destruct o as [s|]; [destruct Ho as (A & tr & Hh & HA)|destruct Ho as (A & Hh & HA)]; exists A; by rewrite HA. }
  destruct (history_represents digest_range aggregate_range _ _ _ _ Hh) as (Hs & -> & HA). destruct (Hs Hp) as [-> _].
  pose proof (rp_held _ _ _ HA (ctx_exec ctx)) as Hid. destruct (A !! ctx_exec ctx) as [[s tr]|]; cbn.
  - by apply (load_stored digest_range aggregate_range _ _ _ _ tr).
  - unfold load_execution. by rewrite (ab_row _ _ Hid).
Qed.

Lemma start_load o w Q X :
  at_start o w -> (forall w' e, at_start o w' -> X e w') -> (forall w', at_start o w' -> dead w' = false -> Q o w') ->
  wp (load_state ctx env) Q X w.
Proof.
  intros Hs HX HQ. eapply start_run; [exact Hs|exact HX|]. intros b n Hb Hp. cbn. destruct (read_fault env n) as [e|].
  - by apply HX, start_call.
  - rewrite (load_held o b Hb Hp). apply HQ; [by apply start_call|done].
Qed.

Lemma start_read {A} (g : PeerId -> Tables -> result StoreError A) Q X o w :
  at_start o w -> (forall w' e, at_start o w' -> X e w') -> (forall a w', at_start o w' -> Q a w') -> wp (store_read env g) Q X w.
Proof.
  intros Hs HX HQ. eapply start_run; [exact Hs|exact HX|]. intros b n Hb Hp. cbn. destruct (read_fault env n) as [e|].
  { by apply HX, start_call. }
  destruct (g (host_id b) (view b)); [by apply HQ, start_call|by apply HX, start_call|done].
Qed.

(** Creation puts the new execution where there was none. *)
Lemma create_holds f sh lo now b r b' :
  absent_in b -> zlen sh <= MAX_SHARED_STATE_BYTES -> zlen lo <= MAX_LOCAL_STATE_BYTES ->
  create_execution f (ctx_exec ctx) (ctx_activation ctx) local_peer sh lo now b = (r, b') ->
  match r with
  | Ok _ => exists s, durable_in b' s /\ activation (binding s) = ctx_activation ctx
  | Err _ => absent_in b'
  | Panic => True
  end.
Proof.
  intros (A & Hh & HA) Hsh Hlo Hc. set (c := CallCreate (ctx_exec ctx) (ctx_activation ctx) local_peer sh lo now).
  assert (allowed A c) as Hal.
  { destruct host_context as [Hid Hac]. split_and!; [exact Hid|exact Hac|apply (local_ranged (display:=display))|done|done]. }
  assert (run_call f c b = (match r with Ok _ => Ok tt | Err e => Err e | Panic => Panic end, b')) as Hr.
  { cbn [run_call c]. unfold void, sbind. rewrite Hc. by destruct r. }
  destruct r as [out|e|]; [| |done].
  - pose proof (hist_ok _ _ f c b A tt b' Hh Hal Hr) as Hok. cbn [applied c] in Hok.
    unfold create_execution in Hc. inv_ok. match goal with Hn : state_new _ _ _ _ _ = Ok ?x |- _ => rename Hn into Hnew; rename x into s end.
    rewrite Hnew in Hok. pose proof (state_new_facts _ _ _ _ _ _ Hnew) as (Hid & _). unfold created in Hok. rewrite Hid, HA in Hok.
    exists s. split; [by eexists _, _; split; [exact Hok|apply lookup_insert_eq]|].
    unfold state_new, binding_new in Hnew. by inv_ok.
  - exists A. split; [|done]. by eapply hist_err.
Qed.

Lemma ok_or_lift {A} (o : option A) e Q (X : ExecError -> World -> Prop) w :
  (forall a, o = Some a -> Q a w) -> X e w -> wp (lift (ok_or o e)) Q X w.
Proof. intros HQ HX. apply aw_lift; [by destruct o| |]; destruct o; intros ? [= <-]; auto. Qed.

Lemma ensure_execution_wp o w Q X :
  at_start o w -> (forall o' w' e, at_start o' w' -> X e w') ->
  (forall s w', at_start (Some s) w' -> dead w' = false -> Q s w') -> wp (ensure_execution ctx env) Q X w.
Proof.
  intros Hs HX HQ. assert (forall w' e, at_start o w' -> X e w') as HX1 by eauto. unfold ensure_execution.
  wp1. eapply start_read; [exact Hs|exact HX1|]. clear w Hs. intros req w Hs. wp1. apply ok_or_lift; [|by auto]. intros request _.
  destruct (_ || _); [by wp1; auto|]. wp1. eapply start_read; [exact Hs|exact HX1|]. clear w Hs. intros orec w Hs.
  wp1. apply ok_or_lift; [|by auto]. intros rec _. wp1. apply ok_or_lift; [|by auto]. intros a _.
  destruct (negb _); [by wp1; auto|]. destruct (_ || _); [by wp1; auto|]. wp1. apply ok_or_lift; [|by auto]. intros t _.
  wp1. apply aw_lift; [by destruct (action _)| |by auto]. intros key _. destruct (negb (key =? _)); [by wp1; auto|].
  wp1. eapply start_load; [exact Hs|exact HX1|]. clear w Hs. intros w Hs Hd. destruct o as [s|].
  { destruct (_ || _); [by wp1; auto|]. wp1. by apply HQ. }
  wp1. wp1. wp1. apply start_tick in Hs. destruct (guest_initialize env n (ctx_params ctx)) as [e|p] eqn:Hg; apply wp_sandbox; try done.
  { intros e' _. by apply HX1. }
  intros ? [= <-]. destruct (host_initial _ _ _ Hg) as [Hsh Hlo]. wp1. wp1. apply start_tick in Hs. wp1.
  eapply start_run; [exact Hs|exact HX1|]. intros b n' Hb Hp.
  destruct (create_execution _ _ _ _ _ _ _ b) as [r b'] eqn:Hc. pose proof (create_holds _ _ _ _ _ _ _ Hb Hsh Hlo Hc) as Hh.
  destruct r as [out|e|]; [|by apply HX1, start_call|done]. destruct Hh as (s & Hds & Hbd).
  assert (at_start (Some s) (after_call b' false (tick_w (tick_w w)))) as Hs'.
  { split; [apply Hs|by intros _|by intros ? [= <-]]. }
  wp1. eapply start_load; [exact Hs'|by eauto|]. intros w2 Hs2 Hd2. apply ok_or_lift; [|by eauto]. intros ? [= <-]. by apply HQ.
Qed.

Lemma failed_wp reason w :
  log w = [] -> wp (observe_ignored env (FailedMsg reason)) (fun _ w' => turned_away w' \/ exists s0, inv s0 w') (fun _ _ => False) w.
Proof.
  intros Hl. unfold observe_ignored. wp1. wp1. destruct (observer_open env n); cbn [when]; wp1; left; unfold turned_away; cbn; rewrite Hl.
  - split; [done|]. constructor; [by eexists|done].
  - split; [cbn; lia|done].
Qed.

(** The actor ends without a panic, turned away or with its invariant. *)
Lemma spawn_wp inputs o w :
  at_start o w -> Forall input_ok inputs ->
  wp (spawn ctx env display inputs) (fun _ w' => turned_away w' \/ exists s0, inv s0 w') (fun _ _ => False) w.
Proof.
  intros Hs Hok. unfold spawn. cbv zeta.
  assert (forall s startup w1, at_start (Some s) w1 -> dead w1 = false ->
    wp (put (fun _ => MkActor s None ∅ [] None false false None) ;;! run ctx env display startup inputs)
      (fun _ w' => turned_away w' \/ exists s0, inv s0 w') (fun _ _ => False) w1) as Hstart.
  { intros s startup w1 [A1 A2 A3] Hd. pose proof (A2 Hd) as Hdur. destruct (durable_live _ _ Hdur) as (tr & Hlv & _).
    wp1. wp1. apply (actor_run_wp _ _ s); [split; [by apply A3|by eexists; eapply live_reach]| |done|done|by eauto].
    split; cbn; [by exists (db w1)|done|done|by rewrite A1|by rewrite A1]. }
  wp1. wp1. eapply (ensure_execution_wp o); [exact Hs| |intros s w1 Hs1 Hd1; by apply Hstart].
  clear w Hs o. intros o w e Hs. wp1. wp1. eapply (start_load o); [exact Hs|intros w1 e' [Hl _ _]; by apply failed_wp|].
  clear w Hs. intros w Hs Hd. destruct o as [s|]; [by apply Hstart|]. wp1. wp1.
  eapply start_run; [exact Hs|intros w1 e' [Hl _ _]; by apply failed_wp|]. intros b n Hb Hp.
  destruct Hs as [Hl _ _]. by destruct (record_execution_request_failure _ _ _ b) as [[u|e'|] b']; [apply failed_wp..|].
Qed.

(** What a log entry of the actor shows. *)
Lemma logged_ok inputs o w r w' x :
  at_start o w -> Forall input_ok inputs -> spawn ctx env display inputs w = (r, w') -> x ∈ log w' ->
  (exists reason, seen_action x = Observe (FailedMsg reason)) \/ seen_ok (ctx:=ctx) (dir:=dir) x.
Proof.
  intros Hs Hok Hr Hx. pose proof (spawn_wp inputs o w Hs Hok) as Hw. unfold wp in Hw. rewrite Hr in Hw.
  destruct r as [[]|e|]; [|done..]. destruct Hw as [[_ Hf]|[s0 [Hb _]]].
  - left. by apply (proj1 (Forall_forall _ _) Hf).
  - right. by apply (proj1 (Forall_forall _ _) (b_log _ _ Hb)).
Qed.

(** C22: the execution actor never panics and always ends: from any start, over
    every sequence of inputs and whatever the guest, the clocks, the other users of
    the store and its failures do, the task returns. *)
Theorem actor_never_panics inputs o w :
  at_start o w -> Forall input_ok inputs -> exists w', spawn ctx env display inputs w = (Ok tt, w').
Proof.
  intros Hs Hok. pose proof (spawn_wp inputs o w Hs Hok) as Hw. unfold wp in Hw.
  destruct (spawn _ _ _ _ w) as [[[]|e|] w']; [by exists w'|done..].
Qed.

(** The state an action was taken in is one the store held, and the one it holds
    while it is open. *)
Definition in_store (x : Seen) : Prop :=
  (exists b, durable_in b (seen_state x)) /\ (seen_dead x = false -> durable_in (seen_db x) (seen_state x)).

(** C5: write before send: what the actor sends to a peer, protocol evidence or a
    direct message, is what its state has to deliver, and that state is in the store
    when the send starts. *)
Theorem actor_sends_what_is_stored inputs o w r w' x :
  at_start o w -> Forall input_ok inputs -> spawn ctx env display inputs w = (r, w') -> x ∈ log w' ->
  (forall to f, seen_action x = SpawnSend to f ->
     in_store x /\ is_participant (binding (seen_state x)) to = true /\ exists l, frames_of (seen_state x) = Ok l /\ f ∈ l) /\
  (forall to e, seen_action x = SpawnDirect to e ->
     in_store x /\ is_terminal (status (seen_state x)) = false /\ List.hd_error (direct_queue (seen_state x) to) = Some e).
Proof.
  intros Hs Hok Hr Hx. destruct (logged_ok _ _ _ _ _ _ Hs Hok Hr Hx) as [[m Hm]|(Hsup & Hst)].
  - split; intros ? ? E; congruence.
  - split; intros to y E; rewrite E in Hsup; by split.
Qed.

(** C6: an acknowledgement is a promise the actor keeps: a frame it acknowledged is
    absorbed by a state in the store, and by every state the execution goes through
    after that. *)
Theorem acknowledged_frames_stay_absorbed inputs o w r w' x source f s' :
  at_start o w -> Forall input_ok inputs -> spawn ctx env display inputs w = (r, w') -> x ∈ log w' ->
  seen_action x = Acknowledge source f -> rtc op_step (seen_state x) s' ->
  in_store x /\ absorbed s' source f = true.
Proof.
  intros Hs Hok Hr Hx E Hop. destruct (logged_ok _ _ _ _ _ _ Hs Hok Hr Hx) as [[m Hm]|(Hsup & Hst)]; [congruence|].
  split; [done|]. rewrite E in Hsup. destruct Hst as [[b Hb] _]. destruct (durable_live _ _ Hb) as (tr & Hl%live_reach & _).
  by eapply absorbed_steps.
Qed.

(** C23: dispatches only run on committed images: when the actor dispatches an event to
    the guest, the execution is active with nothing staged and the memories the guest
    finds are the images of the state in the store.  (The read-only projections of the
    guest, which work on a copy, are not dispatches.) *)
Theorem dispatches_run_on_committed_images inputs o w r w' x sh lo call :
  at_start o w -> Forall input_ok inputs -> spawn ctx env display inputs w = (r, w') -> x ∈ log w' ->
  seen_action x = EnterDispatch sh lo call ->
  in_store x /\ status (seen_state x) = Active /\ proposal (seen_state x) = None /\
  sh = Some (shared_state (seen_state x)) /\ lo = Some (local_state (seen_state x)).
Proof.
  intros Hs Hok Hr Hx E. destruct (logged_ok _ _ _ _ _ _ Hs Hok Hr Hx) as [[m Hm]|(Hsup & Hst)]; [congruence|].
  rewrite E in Hsup. by split.
Qed.


End Spawning.
