(* ===== verification/ActorExample.v ===== *)
(** * A worked actor

    Alice's actor on the store and the two-party execution of the other examples:
    it creates the execution, starts the session, certifies two steps with bob's
    signatures, publishes the receipt and announces the end.  The guarantees of the
    actor are evaluated on this run. *)

From S2P Require Import Prelude Borsh Crypto Session Trace Negotiation Evidence Validation Receipt Frame Execution Invariant History.
From S2P Require Import Publish Fixture Guarantees Consistency Canonical Artifacts NoPanic StateCodec Ranges Envelope ChangeLog Database Persist Store.
From S2P Require Import Registry Durable Simulation StoreExample Book Signing DriveExample Resident Absorbing Actor Delivery Reasons Acting Handling Concluding Accepting Serving Spawning.

#[local] Open Scope Z_scope.

Section Example.
#[local] Existing Instance toy.
#[local] Existing Instance alice_keys.

Definition context0 : ActorContext := MkContext 9 [123; 125] activation0 77 88 5000.
Definition display0 (e : ExecError) : bytes := [101; 114; 114].

(** The guest of the run: the session starts with a broadcast, the message ends it. *)
Definition guest0 (sh lo : option bytes) (c : DispatchCall) : string + GuestReturn :=
  match dc_event c with
  | SessionStarted _ => inr (MkReturn false None None [Broadcast [7; 7]] [] (Some shared1) (Some [5]))
  | MessageReceived _ _ => inr (MkReturn false None None [SessionEnd [42]] [] (Some shared2) (Some [5]))
  | _ => inr (MkReturn true None None [] [] sh lo)
  end.
Definition env0 : Surroundings := {|
  unix_ms n := 1000; instant n := Z.of_nat n; interfere _ b := b; other_panics _ := false; tx_faults _ := no_faults;
  read_fault _ := None; observer_open _ := true; engine_fault _ := None; guest _ := guest0;
  guest_outcome _ _ := inr ([42], [52; 50]); guest_query _ _ _ _ := inr []; guest_initialize _ _ := inr (shared0, [4]);
  shared_max := 1000; local_max := 1000 |}.

Definition world0 : World := MkWorld (MkActor st_new None ∅ [] None false false None) db_committed false 0 [].
Definition bob_signs (k : StepCommitment) : ExecFrame := FStepSignature k (bob_bls + toy_hash (signing_bytes k)).
Definition inputs0 : list Input :=
  [InSettled 0 (TaskSent SendAccepted); InCommand (CmdInbound bob (bob_signs commitment1));
   InCommand (CmdInbound bob (bob_signs commitment2)); InSettled 0 (TaskSent SendAccepted); InTick;
   InSettled 0 (TaskSent SendAccepted)].
Definition run0 : result ExecError unit * World := spawn context0 env0 display0 inputs0 world0.

(** ** The hypotheses hold *)

Lemma toy_hash_small bs : 0 < toy_hash bs <= 65521.
Proof.
  unfold toy_hash. induction (take 200 bs) as [|x l _] using rev_ind; [done|].
  rewrite foldl_snoc. pose proof (Z.mod_pos_bound (foldl (fun h b => (h * 31 + b) mod 65521) 7 l * 31 + x) 65521). lia.
Qed.

#[local] Instance alice_signs : KeysSign.
Proof.
  split.
  - by split.
  - intros dst msg. pose proof (toy_hash_small msg) as Hb. cbn [dalek_sign blst_sign alice_keys]. unfold alice, alice_bls.
    assert (70000 <= 256 ^ 48 <= 256 ^ 64) by done. split; lia.
  - intros msg. cbn. by rewrite Z.eqb_refl.
  - intros dst msg. cbn. by rewrite Z.eqb_refl.
Qed.

#[local] Instance hosting0 : Hosting context0 env0 dir0 display0.
Proof.
  split.
  - apply _.
  - exact toy_digest_positive.
  - exact toy_aggregate_range.
  - by intros n b o.
  - intros n sh lo c g Hg. cbn in Hg. unfold guest0 in Hg. destruct (dc_event c); injection Hg as <-; cbn; (split; [|done]);
      repeat constructor.
  - intros n ps p [= <-]. split; by apply Z.leb_le.
  - split; [done|exact activation0_cwf].
  - by intros e.
Qed.

Lemma starts0 : at_start context0 dir0 None world0.
Proof. split; [done| |done]. intros _. exists ∅. split; [exact history_committed|apply lookup_empty]. Qed.

Lemma decoded_at f bs : forallb (fun b => (0 <=? b) && (b <? 256)) bs = true -> from_slice c_frame bs = Ok f -> decoded f.
Proof. intros Ho Hf. exists bs. split; [by apply octets_decide|done]. Qed.
Lemma inputs0_ok : Forall input_ok inputs0.
Proof.
  repeat (apply Forall_cons_2; [try exact I|]); [..|done].
  - apply (decoded_at _ (unwrap [] (to_vec c_frame (bob_signs commitment1)))); vm_compute; reflexivity.
  - apply (decoded_at _ (unwrap [] (to_vec c_frame (bob_signs commitment2)))); vm_compute; reflexivity.
Qed.

(** ** The guarantees on this run *)

Definition entry_at (i : nat) : Seen :=
  match log run0.2 !! i with Some x => x | None => MkSeen st_new db_committed true (ReplyInput (Ok tt)) end.
Lemma entry_logged i : (i <? 14)%nat = true -> entry_at i ∈ log run0.2.
Proof.
  intros Hi%Nat.ltb_lt. assert (length (log run0.2) = 14%nat) as Hl by (vm_compute; reflexivity).
  unfold entry_at. destruct (log run0.2 !! i) as [x|] eqn:Hx; [by eapply list_elem_of_lookup_2|]. apply lookup_ge_None in Hx. lia.
Qed.

Lemma actor_never_panics_witness : exists w', run0 = (Ok tt, w').
Proof. exact (actor_never_panics (H1:=hosting0) inputs0 None world0 starts0 inputs0_ok). Defined.

Lemma run0_pair : spawn context0 env0 display0 inputs0 world0 = (run0.1, run0.2).
Proof. apply surjective_pairing. Qed.

(** Alice's own signature goes to bob from the stored state that holds it. *)
Lemma actor_sends_what_is_stored_witness : exists (f : ExecFrame) (l : list ExecFrame),
  seen_action (entry_at 2) = SpawnSend bob f /\ in_store (ctx:=context0) (dir:=dir0) (entry_at 2) /\
  is_participant (binding (seen_state (entry_at 2))) bob = true /\ frames_of (seen_state (entry_at 2)) = Ok l /\ f ∈ l.
Proof.
  set (f := FStepSignature commitment1 (alice_bls + toy_hash (signing_bytes commitment1))).
  assert (seen_action (entry_at 2) = SpawnSend bob f) as Ha by (vm_compute; reflexivity).
  destruct (actor_sends_what_is_stored (H1:=hosting0) inputs0 None world0 run0.1 run0.2 (entry_at 2) starts0 inputs0_ok run0_pair
    (entry_logged 2 eq_refl)) as [Hs _].
  destruct (Hs bob f Ha) as (Hst & Hp & l & Hl & Hf). exists f, l. exact (conj Ha (conj Hst (conj Hp (conj Hl Hf)))).
Defined.

(** Bob's signature of the first step was acknowledged and is absorbed. *)
Lemma acknowledged_frames_stay_absorbed_witness :
  in_store (ctx:=context0) (dir:=dir0) (entry_at 4) /\ absorbed (seen_state (entry_at 4)) bob (bob_signs commitment1) = true.
Proof.
  refine (acknowledged_frames_stay_absorbed (H1:=hosting0) inputs0 None world0 run0.1 run0.2 (entry_at 4) bob (bob_signs commitment1)
    (seen_state (entry_at 4)) starts0 inputs0_ok run0_pair (entry_logged 4 eq_refl) _ (rtc_refl _ _)).
  vm_compute. reflexivity.
Defined.

(** The second call of the guest finds the images of the certified first step. *)
Lemma dispatches_run_on_committed_images_witness : exists call,
  seen_action (entry_at 5) = EnterDispatch (Some shared1) (Some [5]) call /\ in_store (ctx:=context0) (dir:=dir0) (entry_at 5) /\
  shared_state (seen_state (entry_at 5)) = shared1.
Proof.
  set (call := MkCall alice ensemble0 (MessageReceived alice [7; 7]) 0 None [] None).
  assert (seen_action (entry_at 5) = EnterDispatch (Some shared1) (Some [5]) call) as Ha by (vm_compute; reflexivity).
  destruct (dispatches_run_on_committed_images (H1:=hosting0) inputs0 None world0 run0.1 run0.2 (entry_at 5) _ _ call starts0 inputs0_ok run0_pair
    (entry_logged 5 eq_refl) Ha) as (Hst & _ & _ & Hsh & _).
  exists call. split; [exact Ha|]. split; [exact Hst|]. exact (eq_sym (f_equal (from_option id []) Hsh)).
Defined.


(** ** Signatures for the guest *)

Definition signed0 : bytes * bytes :=
  Eval vm_compute in unwrap ([], []) (dispatch_sign (session_id (binding st_active)) 77 9 0 1 Bls [1; 2; 3]).
Lemma guest_signature_is_no_oracle_witness : signed0.1 <> signing_bytes commitment1.
Proof.
  assert (dispatch_sign (session_id (binding st_active)) 77 9 0 1 Bls [1; 2; 3] = Ok signed0) as Hs by (vm_compute; reflexivity).
  assert (protocol_preimage (signing_bytes commitment1)) as Hp by (apply pre_step; vm_compute; reflexivity).
  exact (guest_signature_is_no_oracle _ _ _ _ _ _ _ _ _ _ Hs Hp).
Defined.
Lemma guest_signature_verifies_witness : guest_verify signed0.1 signed0.2 local_peer (binding st_active) = Ok [1; 2; 3].
Proof.
  assert (dispatch_sign (session_id (binding st_active)) (program_hash (act_offer_data (activation (binding st_active)))) 9 0 1 Bls [1; 2; 3]
    = Ok (signed0.1, signed0.2)) as Hs by (vm_compute; reflexivity).
  assert (0 <= session_id (binding st_active) < 256 ^ 32) as Hi by (split; [by apply Z.leb_le|by apply Z.ltb_lt]).
  assert (0 <= program_hash (act_offer_data (activation (binding st_active))) < 256 ^ 32) as Hp by (split; [by apply Z.leb_le|by apply Z.ltb_lt]).
  assert (is_participant (binding st_active) local_peer = true) as Hm by (vm_compute; reflexivity).
  assert (participant_key (binding st_active) local_peer = Ok bls_public) as Hk by (vm_compute; reflexivity).
  pose proof (guest_signature_verifies (binding st_active) 9 0 1 Bls [1; 2; 3] signed0.1 signed0.2) as Ht.
  assert (0 <= 9 < 256 ^ 32) as H9 by (split; [by apply Z.leb_le|by apply Z.ltb_lt]).
  assert (0 <= 0 < 256 ^ 8) as H0' by (split; [by apply Z.leb_le|by apply Z.ltb_lt]).
  assert (0 <= 1 < 256 ^ 4) as H1' by (split; [by apply Z.leb_le|by apply Z.ltb_lt]).
  exact (Ht H9 H0' H1' Hi Hp Hm Hk Hs).
Defined.
End Example.
