(* ===== verification/Imports.v ===== *)
(** * The host imports of the sandbox (sandbox/src/engine/mod.rs, engine/imports,
      engine/entropy.rs, signing.rs; program/src/abi.rs, profile.rs)

    What a guest can ask of its host during one call: the ledger and the fuel every
    import is charged to, the queue of effects, the staged blob changes, and each
    import over the guest's memories.  wasmtime is outside: a memory is its bytes,
    and a failed import is a trap that ends the call. *)

From S2P Require Import Prelude Borsh Crypto Session Trace Evidence Validation Persist Randomness Signing Execution.

#[local] Open Scope Z_scope.

(** ** Text *)

(** [String::from_utf8_lossy]: a character stays; the longest start of one that
    does not continue becomes one U+FFFD. *)
Definition REPLACEMENT : bytes := [239; 191; 189].
Fixpoint from_utf8_lossy (bs : bytes) : bytes :=
  let range lo hi b := (lo <=? b) && (b <=? hi) in
  let cont b := range 128 191 b in
  match bs with
  | [] => []
  | b0 :: t0 =>
      if range 0 127 b0 then b0 :: from_utf8_lossy t0 else
      if range 194 223 b0 then
        match t0 with
        | b1 :: t1 => if cont b1 then b0 :: b1 :: from_utf8_lossy t1 else REPLACEMENT ++ from_utf8_lossy t0
        | [] => REPLACEMENT
        end
      else if range 224 239 b0 then
        match t0 with
        | b1 :: t1 =>
            if (if b0 =? 224 then range 160 191 b1 else if b0 =? 237 then range 128 159 b1 else cont b1) then
              match t1 with
              | b2 :: t2 => if cont b2 then b0 :: b1 :: b2 :: from_utf8_lossy t2 else REPLACEMENT ++ from_utf8_lossy t1
              | [] => REPLACEMENT
              end
            else REPLACEMENT ++ from_utf8_lossy t0
        | [] => REPLACEMENT
        end
      else if range 240 244 b0 then
        match t0 with
        | b1 :: t1 =>
            if (if b0 =? 240 then range 144 191 b1 else if b0 =? 244 then range 128 143 b1 else cont b1) then
              match t1 with
              | b2 :: t2 =>
                  if cont b2 then
                    match t2 with
                    | b3 :: t3 =>
                        if cont b3 then b0 :: b1 :: b2 :: b3 :: from_utf8_lossy t3 else REPLACEMENT ++ from_utf8_lossy t2
                    | [] => REPLACEMENT
                    end
                  else REPLACEMENT ++ from_utf8_lossy t1
              | [] => REPLACEMENT
              end
            else REPLACEMENT ++ from_utf8_lossy t0
        | [] => REPLACEMENT
        end
      else REPLACEMENT ++ from_utf8_lossy t0
  end.

(** ** Calls and traps *)

Inductive CallKind := KPrepare | KMetadata | KInitialize | KDispatch | KQuery | KView | KOutcome.
Definition allows_effects (k : CallKind) : bool := match k with KDispatch => true | _ => false end.
Definition allows_state_io (k : CallKind) : bool := match k with KDispatch => true | _ => false end.

Inductive DispatchKind := DAgreed | DLocal.
Definition is_local (d : DispatchKind) : bool := match d with DLocal => true | DAgreed => false end.
(** The kind [into_input] gives an event. *)
Definition dispatch_kind (e : Event) : DispatchKind :=
  match e with
  | SessionStarted _ | MessageReceived _ _ => DAgreed
  | InputReceived _ _ | TimerFired _ | DirectReceived _ _ _ => DLocal
  end.

Inductive Trap :=
| TrapMsg (what : string)
| HostCallLimitExceeded (count max : Z)
| HostBytesExceeded (count max : Z)
| LogLimitExceeded (actual max : Z)
| IntentOverflow (count max : Z)
| EffectBytesLimitExceeded (actual max : Z)
| EffectRejected (e : ProtocolError)
| BorshError (e : io_kind)
| FrameError (e : StateFrameError)
| InsufficientFuel.

(** ** Profile (program/src/profile.rs): what the imports read *)

Record Limits := MkLimits {
  max_permutation_len : Z;
  max_host_bytes : Z;
  max_effects_per_dispatch : Z;
  max_effect_bytes : Z;
  max_log_bytes : Z;
  max_log_entries : Z;
  max_host_calls : Z;
  max_random_draws : Z;
  max_shared_state_bytes : Z;
  max_local_state_bytes : Z }.
Record FuelConfiguration := MkFuel {
  per_call : Z; hash_per_byte : Z; permutation_per_item : Z; verify_fuel : Z }.
Record ExecutionProfile := MkProfile { limits : Limits; fuel_config : FuelConfiguration; max_draw_bytes : Z }.

Definition current_limits : Limits :=
  MkLimits 4096 (32 * 1024 * 1024) 100 (4 * 1024 * 1024) (1024 * 1024) 1000 10000 1000
    MAX_SHARED_STATE_BYTES MAX_LOCAL_STATE_BYTES.
Definition current_fuel : FuelConfiguration := MkFuel 1000000000 1 32 1000000.
Definition current_profile : ExecutionProfile := MkProfile current_limits current_fuel (4 * 1024 * 1024).

(** ** The ledger *)

Record ResourceLedger := MkLedger {
  host_calls : Z; host_bytes : Z; log_bytes : Z; log_entries : Z;
  effect_bytes : Z; effect_entries : Z; random_draws : Z }.
Definition ledger_new : ResourceLedger := MkLedger 0 0 0 0 0 0 0.

(** [u64::saturating_add]. *)
Definition saturating_add (x y : Z) : Z := Z.min (x + y) u64_max.

Definition ledger_host_call (max : Z) : M ResourceLedger Trap unit :=
  smodify (fun l => MkLedger (saturating_add (host_calls l) 1) (host_bytes l) (log_bytes l) (log_entries l)
                      (effect_bytes l) (effect_entries l) (random_draws l)) ;;!
  sread (fun l => err_if (max <? host_calls l) (HostCallLimitExceeded (host_calls l) max)).
Definition ledger_copy_bytes (n max : Z) : M ResourceLedger Trap unit :=
  smodify (fun l => MkLedger (host_calls l) (saturating_add (host_bytes l) n) (log_bytes l) (log_entries l)
                      (effect_bytes l) (effect_entries l) (random_draws l)) ;;!
  sread (fun l => err_if (max <? host_bytes l) (HostBytesExceeded (host_bytes l) max)).
Definition ledger_log (n max_bytes max_entries : Z) : M ResourceLedger Trap unit :=
  smodify (fun l => MkLedger (host_calls l) (host_bytes l) (saturating_add (log_bytes l) n)
                      (saturating_add (log_entries l) 1) (effect_bytes l) (effect_entries l) (random_draws l)) ;;!
  sread (fun l => err_if (max_entries <? log_entries l) (LogLimitExceeded (log_entries l) max_entries)) ;;!
  sread (fun l => err_if (max_bytes <? log_bytes l) (LogLimitExceeded (log_bytes l) max_bytes)).
Definition ledger_effect (n max_bytes max_entries : Z) : M ResourceLedger Trap unit :=
  smodify (fun l => MkLedger (host_calls l) (host_bytes l) (log_bytes l) (log_entries l)
                      (saturating_add (effect_bytes l) n) (saturating_add (effect_entries l) 1) (random_draws l)) ;;!
  sread (fun l => err_if (max_entries <? effect_entries l)
                    (IntentOverflow (Z.min (effect_entries l) u32_max) (Z.min max_entries u32_max))) ;;!
  sread (fun l => err_if (max_bytes <? effect_bytes l) (EffectBytesLimitExceeded (effect_bytes l) max_bytes)).
Definition ledger_random (max : Z) : M ResourceLedger Trap unit :=
  smodify (fun l => MkLedger (host_calls l) (host_bytes l) (log_bytes l) (log_entries l)
                      (effect_bytes l) (effect_entries l) (saturating_add (random_draws l) 1)) ;;!
  sread (fun l => err_if (max <? random_draws l) (HostCallLimitExceeded (random_draws l) max)).

(** ** Host state *)

(** [BlobView]: the committed blobs as the dispatch sees them (sandbox/src/blobs.rs);
    an error traps. *)
Record BlobPartial := MkPartial { bp_length : Z; bp_written : Z; bp_committed : bool }.
Record BlobView := MkView {
  granted : BlobHash -> result string (option Z);
  read_granted : BlobHash -> Z -> Z -> result string (option bytes);
  view_partial : BlobHash -> result string (option BlobPartial);
  hash_partial : BlobHash -> bytes -> result string BlobHash }.

(** [GuestSigner], [GuestVerifier] (sandbox/src/signing.rs). *)
Abbreviation GuestSigner := (Z -> SignScheme -> bytes -> result string (bytes * bytes)) (only parsing).
Abbreviation GuestVerifier := (bytes -> bytes -> PeerId -> result VerifyError bytes) (only parsing).

Record DispatchScope := MkScope {
  logs : list (Z * bytes);
  effect_queue : list Effect;
  entropy_log : list bytes;
  ledger : ResourceLedger;
  signer : option GuestSigner;
  signer_calls : Z;
  verifier : option GuestVerifier;
  blob_store : option BlobView;
  staged_blobs : list BlobChange;
  attachment : option bytes;
  direct_queued : list (PeerId * Z);
  scope_peer : option PeerId;
  scope_session : option Ensemble }.

Definition scope_new : DispatchScope :=
  MkScope [] [] [] ledger_new None 0 None None [] None [] None None.

(** The store data with the guest's memories and its fuel beside it. *)
Record HostState := MkHost {
  work : option bytes;
  shared_mem : option bytes;
  local_mem : option bytes;
  fuel : Z;
  call_kind : CallKind;
  dispatch_of : DispatchKind;
  outgoing_len : Z;
  profile : ExecutionProfile;
  scope : DispatchScope }.

Definition set_scope (x : DispatchScope) (h : HostState) : HostState :=
  MkHost (work h) (shared_mem h) (local_mem h) (fuel h) (call_kind h) (dispatch_of h) (outgoing_len h) (profile h) x.
Definition set_work (x : option bytes) (h : HostState) : HostState :=
  MkHost x (shared_mem h) (local_mem h) (fuel h) (call_kind h) (dispatch_of h) (outgoing_len h) (profile h) (scope h).
Definition set_fuel (x : Z) (h : HostState) : HostState :=
  MkHost (work h) (shared_mem h) (local_mem h) x (call_kind h) (dispatch_of h) (outgoing_len h) (profile h) (scope h).
Definition set_state_mem (kind : Z) (x : option bytes) (h : HostState) : HostState :=
  if kind =? 0
  then MkHost (work h) x (local_mem h) (fuel h) (call_kind h) (dispatch_of h) (outgoing_len h) (profile h) (scope h)
  else MkHost (work h) (shared_mem h) x (fuel h) (call_kind h) (dispatch_of h) (outgoing_len h) (profile h) (scope h).
Definition set_ledger (x : ResourceLedger) (c : DispatchScope) : DispatchScope :=
  MkScope (logs c) (effect_queue c) (entropy_log c) x (signer c) (signer_calls c) (verifier c) (blob_store c)
    (staged_blobs c) (attachment c) (direct_queued c) (scope_peer c) (scope_session c).
Definition push_effect (e : Effect) (c : DispatchScope) : DispatchScope :=
  MkScope (logs c) (effect_queue c ++ [e]) (entropy_log c) (ledger c) (signer c) (signer_calls c) (verifier c)
    (blob_store c) (staged_blobs c) (attachment c) (direct_queued c) (scope_peer c) (scope_session c).
Definition push_blob (b : BlobChange) (c : DispatchScope) : DispatchScope :=
  MkScope (logs c) (effect_queue c) (entropy_log c) (ledger c) (signer c) (signer_calls c) (verifier c)
    (blob_store c) (staged_blobs c ++ [b]) (attachment c) (direct_queued c) (scope_peer c) (scope_session c).
Definition push_log (x : Z * bytes) (c : DispatchScope) : DispatchScope :=
  MkScope (logs c ++ [x]) (effect_queue c) (entropy_log c) (ledger c) (signer c) (signer_calls c) (verifier c)
    (blob_store c) (staged_blobs c) (attachment c) (direct_queued c) (scope_peer c) (scope_session c).
Definition push_draw (x : bytes) (c : DispatchScope) : DispatchScope :=
  MkScope (logs c) (effect_queue c) (entropy_log c ++ [x]) (ledger c) (signer c) (signer_calls c) (verifier c)
    (blob_store c) (staged_blobs c) (attachment c) (direct_queued c) (scope_peer c) (scope_session c).
Definition set_signer_calls (x : Z) (c : DispatchScope) : DispatchScope :=
  MkScope (logs c) (effect_queue c) (entropy_log c) (ledger c) (signer c) x (verifier c)
    (blob_store c) (staged_blobs c) (attachment c) (direct_queued c) (scope_peer c) (scope_session c).

Abbreviation host := (M HostState Trap) (only parsing).
Definition host_get {A} (f : HostState -> A) : M HostState Trap A := sread (fun h => Ok (f h)).
Definition host_try {A} (r : result Trap A) : M HostState Trap A := sread (fun _ => r).
Definition trap {A} (e : Trap) : M HostState Trap A := host_try (Err e).
Definition trap_if (b : bool) (e : Trap) : M HostState Trap unit := host_try (err_if b e).
Definition msg_if (b : bool) (what : string) : M HostState Trap unit := trap_if b (TrapMsg what).
Definition on_scope (f : DispatchScope -> DispatchScope) : M HostState Trap unit :=
  smodify (fun h => set_scope (f (scope h)) h).
Definition on_ledger (m : M ResourceLedger Trap unit) : M HostState Trap unit := fun h =>
  let '(r, l) := m (ledger (scope h)) in (r, set_scope (set_ledger l (scope h)) h).

(** [HostState::reset_for_dispatch] and what [dispatch_input] installs after it. *)
Definition reset_for_dispatch (d : DispatchKind) (out : Z) (h : HostState) : HostState :=
  MkHost (work h) (shared_mem h) (local_mem h) (fuel h) KDispatch d out (profile h) scope_new.
Definition install (sg : option GuestSigner) (vf : option GuestVerifier) (view : option BlobView) (att : option bytes)
    (queued : list (PeerId * Z)) (peer : PeerId) (session : Ensemble) (h : HostState) : HostState :=
  set_scope (MkScope [] [] [] ledger_new sg 0 vf view [] att queued (Some peer) (Some session)) h.

(** ** Operations on a caller (engine/imports/mod.rs) *)

(** [u64] multiplication; an overflow panics. *)
Definition checked_mul (x y : Z) : option Z := if x * y <=? u64_max then Some (x * y) else None.

Definition charge_fuel (n : Z) : M HostState Trap unit :=
  let! have := host_get fuel in
  trap_if (have <? n) InsufficientFuel ;;!
  smodify (set_fuel (have - n)).
(** [charge_fuel(count * rate)]. *)
Definition charge_each (count : Z) (rate : FuelConfiguration -> Z) : M HostState Trap unit :=
  let! r := host_get (fun h => rate (fuel_config (profile h))) in
  let! n := host_try (expect (checked_mul count r)) in
  charge_fuel n.

Definition work_memory : M HostState Trap bytes :=
  sread (fun h => ok_or (work h) (TrapMsg "memory not found in caller")).
(** [StateMemoryKind::try_from] on the import's tag. *)
Definition state_kind (kind : Z) : M HostState Trap unit :=
  msg_if (negb ((kind =? 0) || (kind =? 1))) "unknown state memory kind".
Definition state_memory (kind : Z) : M HostState Trap bytes :=
  state_kind kind ;;!
  sread (fun h => ok_or (if kind =? 0 then shared_mem h else local_mem h) (TrapMsg "state memory not found")).
Definition state_payload_max (kind : Z) : M HostState Trap Z :=
  state_kind kind ;;!
  host_get (fun h => let l := limits (profile h) in
                     if kind =? 0 then max_shared_state_bytes l else max_local_state_bytes l).

Definition reject_state_io : M HostState Trap unit :=
  sread (fun h => err_if (negb (allows_state_io (call_kind h))) (TrapMsg "state memory imports are unavailable")).
Definition reject_read_only : M HostState Trap unit :=
  sread (fun h => err_if (negb (allows_effects (call_kind h))) (TrapMsg "effect imports are unavailable")).
Definition require_local : M HostState Trap unit :=
  reject_read_only ;;!
  sread (fun h => err_if (negb (is_local (dispatch_of h))) (TrapMsg "only available in local handlers")).

Definition begin_import : M HostState Trap unit :=
  let! max := host_get (fun h => max_host_calls (limits (profile h))) in
  on_ledger (ledger_host_call max).
Definition copy_bytes (n : Z) : M HostState Trap unit :=
  let! max := host_get (fun h => max_host_bytes (limits (profile h))) in
  on_ledger (ledger_copy_bytes n max).

Definition read_guest_bytes (ptr len : Z) : M HostState Trap bytes :=
  copy_bytes len ;;!
  let! data := work_memory in
  msg_if (zlen data <? ptr + len) "read out of bounds" ;;!
  sret (take (Z.to_nat len) (drop (Z.to_nat ptr) data)).
(** [Memory::write]. *)
Definition write_guest (ptr : Z) (b : bytes) : M HostState Trap unit :=
  let! data := work_memory in
  msg_if (zlen data <? ptr + zlen b) "out of bounds memory access" ;;!
  smodify (set_work (Some (copy_at (Z.to_nat ptr) b data))).
(** A 32-byte array from the guest: [try_into().expect(..)]. *)
Definition read_array (ptr : Z) : M HostState Trap Z :=
  let! b := read_guest_bytes ptr 32 in
  host_try (expect (array_of 32 b)).

Definition record_effect (e : Effect) : M HostState Trap unit :=
  reject_read_only ;;!
  let! d := host_get dispatch_of in
  msg_if (is_send_direct e && negb (is_local d)) "send_direct: only available in local handlers" ;;!
  let! q := host_get (fun h => effect_queue (scope h)) in
  (if is_lifecycle e then
     msg_if (is_local d) "a lifecycle effect is only available to agreed events" ;;!
     msg_if (existsb is_lifecycle q) "at most one lifecycle effect is allowed per dispatch" ;;!
     msg_if (existsb is_set_timer q) "a lifecycle effect cannot be combined with SetTimer"
   else
     msg_if (is_set_timer e && existsb is_lifecycle q) "SetTimer cannot be combined with a lifecycle effect") ;;!
  host_try (map_err EffectRejected (check_effect_budget (q ++ [e]))) ;;!
  let! b := host_try (map_err BorshError (to_vec c_effect e)) in
  let! l := host_get (fun h => limits (profile h)) in
  on_ledger (ledger_effect (zlen b) (max_effect_bytes l) (max_effects_per_dispatch l)) ;;!
  on_scope (push_effect e).

(** ** Imports every module has (engine/imports/core.rs) *)

(** BLAKE3's tree interface, [blake3::hazmat]: a subtree's value at an offset, the
    two merges, and the longest subtree that can start at an offset. *)
Class Blake3Hazmat := {
  finalize_non_root : Z -> bytes -> Z;
  merge_subtrees_root : Z -> Z -> Z;
  merge_subtrees_non_root : Z -> Z -> Z;
  max_subtree_len : Z -> option Z }.

(** crypto/src/blake3_tree.rs. *)
Definition CHUNK_BYTES : Z := 1024.
Definition is_subtree `{Blake3Hazmat} (offset len : Z) : bool :=
  negb (len =? 0) && (offset mod CHUNK_BYTES =? 0)
  && match max_subtree_len offset with None => true | Some max => len <=? max end.
Definition subtree_cv {E} `{Blake3Hazmat} (data : bytes) (offset : Z) : result E Z :=
  if is_subtree offset (zlen data) then Ok (finalize_non_root offset data) else Panic.
Definition merge_cv `{Blake3Hazmat} (l r : Z) (root : bool) : Z :=
  if root then merge_subtrees_root l r else merge_subtrees_non_root l r.

(** [borsh::to_vec] of [Result<Vec<u8>, VerifyError>]; a failure panics. *)
Definition verify_error_tag (e : VerifyError) : Z :=
  match e with Malformed => 0 | OtherSession => 1 | NotParticipant => 2 | BadSignature => 3 end.
Definition encode_verified (r : result VerifyError bytes) : result Trap bytes :=
  match r with
  | Ok payload => expect_ok (write_uint 1 1 +++ write_bytes u32_max payload)
  | Err e => expect_ok (write_uint 1 0 +++ write_uint 1 (verify_error_tag e))
  | Panic => Panic
  end.

Section Imports.
Context `{Crypto, Blake3Hazmat, Rng}.
(** [ChaCha20Rng::fill_bytes]: the next draw after the ones served, by its length. *)
Context (fill_bytes : list bytes -> Z -> bytes).

Definition import_hash (data_ptr data_len out_ptr : Z) : M HostState Trap unit :=
  begin_import ;;!
  let! data := read_guest_bytes data_ptr data_len in
  charge_each data_len hash_per_byte ;;!
  copy_bytes 32 ;;!
  write_guest out_ptr (be_bytes 32 (blake3 data)).

Definition import_merge_cv (left_ptr right_ptr root out_ptr : Z) : M HostState Trap unit :=
  begin_import ;;!
  let! l := read_guest_bytes left_ptr 32 in
  let! r := read_guest_bytes right_ptr 32 in
  charge_each 64 hash_per_byte ;;!
  copy_bytes 32 ;;!
  let! l := host_try (expect (array_of 32 l)) in
  let! r := host_try (expect (array_of 32 r)) in
  write_guest out_ptr (be_bytes 32 (merge_cv l r (negb (root =? 0)))).

(** The loop that writes the items one after the other. *)
Fixpoint write_items_at (out_ptr : Z) (l : list nat) : M HostState Trap unit :=
  match l with
  | [] => sret tt
  | x :: l => write_guest out_ptr (le_bytes 4 (Z.of_nat x)) ;;! write_items_at (out_ptr + 4) l
  end.
Definition import_permutation (seed_ptr n out_ptr : Z) : M HostState Trap unit :=
  begin_import ;;!
  let! max := host_get (fun h => max_permutation_len (limits (profile h))) in
  msg_if (max <? n) "permutation: length exceeds maximum" ;;!
  let! seed := read_guest_bytes seed_ptr 32 in
  copy_bytes (4 * n) ;;!
  charge_each n permutation_per_item ;;!
  let! seed := host_try (expect (array_of 32 seed)) in
  let! order := host_try (permutation seed (Z.to_nat n)) in
  let! order := host_try (ok_or order (TrapMsg "permutation: random draw exhausted")) in
  let! _ := work_memory in
  write_items_at out_ptr order.

Definition import_verify (signed_ptr signed_len sig_ptr sig_len signer_ptr out_ptr out_cap : Z)
    : M HostState Trap Z :=
  begin_import ;;!
  let! v := sread (fun h => ok_or (verifier (scope h)) (TrapMsg "verify is only available in dispatches")) in
  charge_each 1 verify_fuel ;;!
  let! signed := read_guest_bytes signed_ptr signed_len in
  let! signature := read_guest_bytes sig_ptr sig_len in
  let! key := read_array signer_ptr in
  let! encoded := host_try (encode_verified (v signed signature key)) in
  msg_if (out_cap <? zlen encoded) "verify: result exceeds output capacity" ;;!
  copy_bytes (zlen encoded) ;;!
  write_guest out_ptr encoded ;;!
  sret (zlen encoded).

Definition import_state_len (kind : Z) : M HostState Trap Z :=
  begin_import ;;!
  reject_state_io ;;!
  let! memory := state_memory kind in
  let! max := state_payload_max kind in
  host_try (map_err FrameError (state_frame_len memory max)).

Definition import_state_read (kind dst len : Z) : M HostState Trap unit :=
  begin_import ;;!
  reject_state_io ;;!
  let! state := state_memory kind in
  let! max := state_payload_max kind in
  let! payload_len := host_try (map_err FrameError (state_frame_len state max)) in
  msg_if (payload_len <? len) "state_read: requested range exceeds state payload" ;;!
  let! w := work_memory in
  msg_if (zlen w <? dst + len) "state_read: destination exceeds work memory" ;;!
  copy_bytes len ;;!
  write_guest dst (take (Z.to_nat len) (drop 4 state)).

Definition import_state_write (kind src len : Z) : M HostState Trap unit :=
  begin_import ;;!
  reject_state_io ;;!
  let! w := work_memory in
  msg_if (zlen w <? src + len) "state_write: source exceeds work memory" ;;!
  let! state := state_memory kind in
  let! max := state_payload_max kind in
  msg_if (max <? len) "state_write: payload length exceeds maximum" ;;!
  let! old_len := host_try (map_err FrameError (state_frame_len state max)) in
  msg_if (zlen state <? CANONICAL_STATE_PREFIX_BYTES + len) "state_write: payload exceeds state memory" ;;!
  copy_bytes (Z.max 0 (old_len - len) + len) ;;!
  let payload := take (Z.to_nat len) (drop (Z.to_nat src) w) in
  let! state := host_try (map_err FrameError (write_state_frame state old_len payload)) in
  smodify (set_state_mem kind (Some state)).

Definition import_log (level ptr len : Z) : M HostState Trap unit :=
  begin_import ;;!
  reject_read_only ;;!
  let! message := read_guest_bytes ptr len in
  let! l := host_get (fun h => limits (profile h)) in
  on_ledger (ledger_log (zlen message) (max_log_bytes l) (max_log_entries l)) ;;!
  msg_if (3 <? level) "invalid log level ABI tag" ;;!
  on_scope (push_log (level, from_utf8_lossy message)).

Definition import_random (ptr len : Z) : M HostState Trap unit :=
  begin_import ;;!
  reject_read_only ;;!
  let! p := host_get profile in
  msg_if (max_draw_bytes p <? len) "random: draw exceeds maximum" ;;!
  copy_bytes len ;;!
  on_ledger (ledger_random (max_random_draws (limits p))) ;;!
  let! data := work_memory in
  msg_if (zlen data <? ptr + len) "random: write out of bounds" ;;!
  let! drawn := host_get (fun h => fill_bytes (entropy_log (scope h)) len) in
  on_scope (push_draw drawn) ;;!
  smodify (set_work (Some (copy_at (Z.to_nat ptr) drawn data))).

Definition import_fail (ptr len : Z) : M HostState Trap unit :=
  begin_import ;;!
  reject_read_only ;;!
  let! reason := read_guest_bytes ptr len in
  record_effect (Fail (from_utf8_lossy reason)).
Definition import_end_session (ptr len : Z) : M HostState Trap unit :=
  begin_import ;;!
  reject_read_only ;;!
  let! outcome := read_guest_bytes ptr len in
  record_effect (SessionEnd outcome).
Definition import_abort_session (ptr len : Z) : M HostState Trap unit :=
  begin_import ;;!
  reject_read_only ;;!
  let! reason := read_guest_bytes ptr len in
  record_effect (SessionAbort (from_utf8_lossy reason)).

(** ** Imports of a declared capability (engine/imports/capabilities.rs) *)

(** protocol/src/blob.rs. *)
Inductive BlobError := NotFound | Quota | BadRange | BadAttachment | Incomplete | Mismatch.
Definition blob_status (e : BlobError) : Z :=
  match e with NotFound => 0 | Quota => 1 | BadRange => 2 | BadAttachment => 3 | Incomplete => 4 | Mismatch => 5 end + 1.
Inductive CvSource := CvBlob (hash : BlobHash) (start stop : Z) | CvAttachment (token : Z).
Definition read_cv_source : Reader CvSource := fun bs =>
  let? (tag, rest) := read_uint 1 bs in
  if tag =? 0 then let? (r, rest) := dec c_range rest in
                   Ok (CvBlob (range_hash r) (range_start r) (range_end r), rest)
  else if tag =? 1 then let? (t, rest) := read_uint 4 rest in Ok (CvAttachment t, rest)
  else Err InvalidData.

Definition view_err {A} (r : result string A) : result Trap A := map_err TrapMsg r.
(** [DispatchScope::blob_view]. *)
Definition get_view : M HostState Trap BlobView :=
  sread (fun h => ok_or (blob_store (scope h)) (TrapMsg "blob view unavailable")).

Definition count_direct (to : PeerId) (q : list Effect) : Z :=
  zlen (filter (fun e => match e with SendDirect p _ _ => p =? to | _ => false end = true) q).
Definition count_broadcasts (q : list Effect) : Z := zlen (filter (fun e => is_broadcast e = true) q).
Definition queued_for (to : PeerId) (l : list (PeerId * Z)) : Z :=
  match find_by (fun p => p.1 =? to) l with Some p => p.2 | None => 0 end.

(** The range of [send_direct], read and checked against the grant. *)
Definition read_range (range_ptr range_len : Z) : M HostState Trap (option RangeAttachment) :=
  if range_len =? 0 then sret None else
  let! b := read_guest_bytes range_ptr range_len in
  let! r := host_try (map_err BorshError (from_slice c_range b)) in
  let! v := get_view in
  let! g := host_try (view_err (granted v (range_hash r))) in
  let! length := host_try (ok_or g (TrapMsg "send_direct: blob not granted")) in
  msg_if ((range_end r <=? range_start r) || (length <? range_end r)
          || (MAX_DIRECT_RANGE_BYTES <? range_end r - range_start r)) "send_direct: invalid source range" ;;!
  sret (Some r).

Definition import_send_direct (to_ptr msg_ptr msg_len range_ptr range_len : Z) : M HostState Trap Z :=
  begin_import ;;!
  require_local ;;!
  let! to := read_array to_ptr in
  let! session := sread (fun h => expect (scope_session (scope h))) in
  let! me := host_get (fun h => scope_peer (scope h)) in
  msg_if (opt_eqb (Some to) me || negb (existsb (Z.eqb to) (peers session)))
    "send_direct: recipient must be another participant" ;;!
  msg_if (MAX_DIRECT_CONTROL_BYTES <? msg_len) "send_direct: control message exceeds limit" ;;!
  let! range := read_range range_ptr range_len in
  let! c := host_get scope in
  if MAX_DIRECT_QUEUE <=? queued_for to (direct_queued c) + count_direct to (effect_queue c) then sret 1 else
  let! msg := read_guest_bytes msg_ptr msg_len in
  record_effect (SendDirect to msg range) ;;!
  sret 0.

Definition import_broadcast (data_ptr data_len : Z) : M HostState Trap Z :=
  begin_import ;;!
  reject_read_only ;;!
  let! h := host_get (fun h => h) in
  if is_local (dispatch_of h)
     && (MAX_OUTGOING_MESSAGES <=? outgoing_len h + count_broadcasts (effect_queue (scope h))) then sret 1 else
  let! data := read_guest_bytes data_ptr data_len in
  record_effect (Broadcast data) ;;!
  sret 0.

Definition import_set_timer (delay_ms type_ptr type_len data_ptr data_len : Z) : M HostState Trap unit :=
  begin_import ;;!
  reject_read_only ;;!
  let! name := read_guest_bytes type_ptr type_len in
  msg_if (negb (utf8_valid name)) "set_timer: invalid type name" ;;!
  let! data := read_guest_bytes data_ptr data_len in
  record_effect (SetTimer delay_ms (MkTimer name data)).

(** [normalize_sign_schemes]: sorted by [canonical_order], then [dedup]. *)
Fixpoint dedup_schemes (l : list SignScheme) : list SignScheme :=
  match l with
  | x :: (y :: _) as l' => if scheme_tag x =? scheme_tag y then dedup_schemes l' else x :: dedup_schemes l'
  | _ => l
  end.
Definition normalize_sign_schemes (l : list SignScheme) : list SignScheme := dedup_schemes (sort_key scheme_tag l).

Definition import_sign (allowed : list SignScheme) (scheme data_ptr data_len out_ptr out_cap : Z) : M HostState Trap Z :=
  begin_import ;;!
  reject_read_only ;;!
  let! s := host_try (map_err BorshError (scheme_from_tag scheme)) in
  msg_if (negb (existsb (fun a => scheme_tag a =? scheme_tag s) allowed)) "sign scheme is not declared" ;;!
  let! payload := read_guest_bytes data_ptr data_len in
  let! f := sread (fun h => ok_or (signer (scope h)) (TrapMsg "sign is only available in local handlers")) in
  let! call := host_get (fun h => signer_calls (scope h)) in
  on_scope (set_signer_calls (Z.min (call + 1) u32_max)) ;;!
  let! (signed, signature) := host_try (view_err (f call s payload)) in
  let! encoded := host_try (map_err BorshError (write_bytes u32_max signed +++ write_bytes u32_max signature)) in
  msg_if (out_cap <? zlen encoded) "sign: result exceeds guest capacity" ;;!
  copy_bytes (zlen encoded) ;;!
  write_guest out_ptr encoded ;;!
  sret (zlen encoded).

(** *** Blobs *)

Record Receive := MkReceive { rc_length : option Z; rc_written : Z; rc_committed : bool; rc_durable : bool }.

Definition overlay (hash : BlobHash) (r : Receive) (c : BlobChange) : Receive :=
  match c with
  | BlobAppend h length _ data =>
      if h =? hash then MkReceive (Some length) (rc_written r + zlen data) (rc_committed r) (rc_durable r) else r
  | BlobCommit h =>
      if h =? hash then MkReceive (rc_length r) (rc_written r) true (rc_durable r) else r
  end.
Definition receive_of (p : option BlobPartial) : Receive :=
  match p with
  | Some p => MkReceive (Some (bp_length p)) (bp_written p) (bp_committed p) true
  | None => MkReceive None 0 false false
  end.
Definition receive_state (hash : BlobHash) : M HostState Trap Receive :=
  let! v := get_view in
  let! p := host_try (view_err (view_partial v hash)) in
  host_get (fun h => fold_left (overlay hash) (staged_blobs (scope h)) (receive_of p)).

Definition staged_bytes (hash : BlobHash) (c : BlobChange) : bytes :=
  match c with BlobAppend h _ _ data => if h =? hash then data else [] | BlobCommit _ => [] end.
Definition staged_tail (hash : BlobHash) (l : list BlobChange) : bytes := flat_map (staged_bytes hash) l.

(** The attachment a token names: token 0, not empty. *)
Definition attached (token : Z) (c : DispatchScope) : option bytes :=
  match attachment c with
  | Some b => if (token =? 0) && negb (zlen b =? 0) then Some b else None
  | None => None
  end.

Definition blob_append (hash : BlobHash) (length token : Z) : M HostState Trap Z :=
  if MAX_BLOB_BYTES <? length then sret (blob_status Quota) else
  let! a := host_get (fun h => attached token (scope h)) in
  match a with
  | None => sret (blob_status BadAttachment)
  | Some data =>
      let! r := receive_state hash in
      if rc_committed r || match rc_length r with Some known => negb (known =? length) | None => false end
         || (length <? rc_written r + zlen data)
      then sret (blob_status BadRange) else
      copy_bytes (zlen data) ;;!
      on_scope (push_blob (BlobAppend hash length (rc_written r) data)) ;;!
      sret 0
  end.
Definition import_blob_append (hash_ptr length token : Z) : M HostState Trap Z :=
  begin_import ;;!
  require_local ;;!
  let! hash := read_array hash_ptr in
  blob_append hash length token.

Definition blob_commit (hash : BlobHash) : M HostState Trap Z :=
  let! r := receive_state hash in
  match rc_length r with
  | None => sret (blob_status NotFound)
  | Some length =>
      if rc_committed r then sret (blob_status BadRange) else
      if negb (rc_written r =? length) then sret (blob_status Incomplete) else
      charge_each length hash_per_byte ;;!
      let! tail := host_get (fun h => staged_tail hash (staged_blobs (scope h))) in
      let! digest := (if rc_durable r
                      then (let! v := get_view in host_try (view_err (hash_partial v hash tail)))
                      else sret (blake3 tail)) in
      if negb (digest =? hash) then sret (blob_status Mismatch) else
      on_scope (push_blob (BlobCommit hash)) ;;!
      sret 0
  end.
Definition import_blob_commit (hash_ptr : Z) : M HostState Trap Z :=
  begin_import ;;!
  require_local ;;!
  let! hash := read_array hash_ptr in
  blob_commit hash.

(** The geometry of [subtree_cv]: the length of the source, or why not. *)
Definition source_len (v : BlobView) (src : CvSource) : M HostState Trap (BlobError + Z) :=
  match src with
  | CvBlob hash start stop =>
      if (stop <=? start) || (MAX_DIRECT_RANGE_BYTES <? stop - start) then sret (inl BadRange) else
      let! g := host_try (view_err (granted v hash)) in
      match g with
      | None => sret (inl NotFound)
      | Some length => sret (if length <? stop then inl BadRange else inr (stop - start))
      end
  | CvAttachment token =>
      let! a := host_get (fun h => attached token (scope h)) in
      match a with
      | None => sret (inl BadAttachment)
      | Some b => sret (if MAX_DIRECT_RANGE_BYTES <? zlen b then inl BadRange else inr (zlen b))
      end
  end.
Definition source_bytes (v : BlobView) (src : CvSource) : M HostState Trap (option bytes) :=
  match src with
  | CvBlob hash start stop => host_try (view_err (read_granted v hash start stop))
  | CvAttachment _ => let! a := sread (fun h => expect (attachment (scope h))) in sret (Some a)
  end.
(** [subtree_cv] after its source is decoded and before its value is written. *)
Definition cv_of (src : CvSource) (offset : Z) : M HostState Trap (BlobError + Z) :=
  let! v := get_view in
  let! len := source_len v src in
  match len with
  | inl e => sret (inl e)
  | inr len =>
      if negb (is_subtree offset len) then sret (inl BadRange) else
      charge_each len hash_per_byte ;;!
      copy_bytes 32 ;;!
      let! b := source_bytes v src in
      match b with
      | None => sret (inl NotFound)
      | Some b => let! cv := host_try (subtree_cv b offset) in sret (inr cv)
      end
  end.
Definition import_subtree_cv (source_ptr source_len offset out_ptr : Z) : M HostState Trap Z :=
  begin_import ;;!
  require_local ;;!
  msg_if (64 <? source_len) "subtree_cv: source exceeds limit" ;;!
  let! b := read_guest_bytes source_ptr source_len in
  let! (src, rest) := host_try (map_err BorshError (read_cv_source b)) in
  trap_if (negb (zlen rest =? 0)) (BorshError InvalidData) ;;!
  let! r := cv_of src offset in
  match r with
  | inl e => sret (blob_status e)
  | inr cv => write_guest out_ptr (be_bytes 32 cv) ;;! sret 0
  end.

(** ** A call of the guest *)

(** program/src/abi.rs: [Capability] and what it links. *)
Inductive Capability := Messaging | Timers | Sign (schemes : list SignScheme) | Blobs.

Inductive ImportCall :=
| CHash (data_ptr data_len out_ptr : Z)
| CMergeCv (left_ptr right_ptr root out_ptr : Z)
| CPermutation (seed_ptr n out_ptr : Z)
| CVerify (signed_ptr signed_len sig_ptr sig_len signer_ptr out_ptr out_cap : Z)
| CStateLen (kind : Z)
| CStateRead (kind dst len : Z)
| CStateWrite (kind src len : Z)
| CLog (level ptr len : Z)
| CRandom (ptr len : Z)
| CFail (ptr len : Z)
| CEndSession (ptr len : Z)
| CAbortSession (ptr len : Z)
| CSendDirect (to_ptr msg_ptr msg_len range_ptr range_len : Z)
| CBroadcast (data_ptr data_len : Z)
| CSetTimer (delay_ms type_ptr type_len data_ptr data_len : Z)
| CSign (scheme data_ptr data_len out_ptr out_cap : Z)
| CBlobAppend (hash_ptr length token : Z)
| CBlobCommit (hash_ptr : Z)
| CSubtreeCv (source_ptr source_len offset out_ptr : Z).

Definition declares (p : Capability -> bool) (caps : list Capability) : bool := existsb p caps.
(** [register_capability_imports]: the schemes of every declared [Sign]. *)
Definition sign_schemes (caps : list Capability) : list SignScheme :=
  normalize_sign_schemes (flat_map (fun c => match c with Sign l => l | _ => [] end) caps).
(** Whether the linker has the import; a module that names another does not load. *)
Definition linked (caps : list Capability) (c : ImportCall) : bool :=
  match c with
  | CSendDirect _ _ _ _ _ | CBroadcast _ _ => declares (fun c => match c with Messaging => true | _ => false end) caps
  | CSetTimer _ _ _ _ _ => declares (fun c => match c with Timers => true | _ => false end) caps
  | CSign _ _ _ _ _ => negb (zlen (sign_schemes caps) =? 0)
  | CBlobAppend _ _ _ | CBlobCommit _ | CSubtreeCv _ _ _ _ =>
      declares (fun c => match c with Blobs => true | _ => false end) caps
  | _ => true
  end.

Definition returns_unit (m : M HostState Trap unit) : M HostState Trap Z := m ;;! sret 0.
Definition call_import (caps : list Capability) (c : ImportCall) : M HostState Trap Z :=
  if negb (linked caps c) then trap (TrapMsg "unknown import") else
  match c with
  | CHash a b o => returns_unit (import_hash a b o)
  | CMergeCv a b r o => returns_unit (import_merge_cv a b r o)
  | CPermutation s n o => returns_unit (import_permutation s n o)
  | CVerify a b c d e o k => import_verify a b c d e o k
  | CStateLen k => import_state_len k
  | CStateRead k d l => returns_unit (import_state_read k d l)
  | CStateWrite k s l => returns_unit (import_state_write k s l)
  | CLog v p l => returns_unit (import_log v p l)
  | CRandom p l => returns_unit (import_random p l)
  | CFail p l => returns_unit (import_fail p l)
  | CEndSession p l => returns_unit (import_end_session p l)
  | CAbortSession p l => returns_unit (import_abort_session p l)
  | CSendDirect t m l r k => import_send_direct t m l r k
  | CBroadcast p l => import_broadcast p l
  | CSetTimer d a b e f => returns_unit (import_set_timer d a b e f)
  | CSign s p l o k => import_sign (sign_schemes caps) s p l o k
  | CBlobAppend p l t => import_blob_append p l t
  | CBlobCommit p => import_blob_commit p
  | CSubtreeCv p l f o => import_subtree_cv p l f o
  end.

(** Between imports the guest computes: it burns fuel and leaves any contents in its
    memories. *)
Inductive GuestAct :=
| Computes (w s l : option bytes) (burned : Z)
| Calls (c : ImportCall).
Definition act (caps : list Capability) (a : GuestAct) : M HostState Trap unit :=
  match a with
  | Computes w s l burned =>
      charge_fuel burned ;;!
      smodify (set_work w) ;;! smodify (set_state_mem 0 s) ;;! smodify (set_state_mem 1 l)
  | Calls c => call_import caps c ;;! sret tt
  end.
Fixpoint guest_run (caps : list Capability) (l : list GuestAct) : M HostState Trap unit :=
  match l with
  | [] => sret tt
  | a :: l => act caps a ;;! guest_run caps l
  end.
End Imports.
