(* ===== verification/Emission.v ===== *)
(** * What a guest can emit

    Whatever a guest computes and whichever imports it calls, the effects its call
    leaves in the queue are within every bound the execution aggregate checks
    ([record_effect]), so a local dispatch is never refused for them, and the blob
    changes it stages continue the durable partials.  [quiet] imports leave both
    queues alone; the others go through [record_effect] or [push_blob]. *)

From S2P Require Import Prelude Borsh Crypto Session Trace Evidence Validation Execution Invariant Canonical Persist Randomness Signing Imports.

#[local] Open Scope Z_scope.

(** ** Lossy text *)

#[local] Arguments Z.leb : simpl never.
#[local] Arguments Z.eqb : simpl never.

Lemma utf8_replacement bs : utf8_valid (REPLACEMENT ++ bs) = utf8_valid bs.
Proof. reflexivity. Qed.

(** The branches of the two readers, one per byte. *)
Ltac utf8_branch :=
  match goal with
  | |- context [if (?a <=? ?b) && (?c <=? ?d) then _ else _] =>
      destruct ((a <=? b) && (c <=? d)) eqn:?
  | |- context [if ?a =? ?b then _ else _] => destruct (a =? b) eqn:?
  | |- context [match ?l with [] => _ | _ :: _ => _ end] => is_var l; destruct l
  end.

Lemma from_utf8_lossy_valid bs : utf8_valid (from_utf8_lossy bs) = true.
Proof.
  induction bs as [bs IH] using (induction_ltof1 _ (@length Z)); unfold ltof in IH.
  assert (forall t, (length t < length bs)%nat -> utf8_valid (REPLACEMENT ++ from_utf8_lossy t) = true) as IHr
    by (intros; rewrite utf8_replacement; auto).
  destruct bs as [|b0 t0]; [done|]. cbn [from_utf8_lossy].
  repeat first [utf8_branch | (apply IHr; simpl; lia) | done];
    cbn [utf8_valid]; rewrite IH by (simpl; lia); rewrite ?andb_true_r;
    repeat match goal with |- context [if ?c then _ else _] => destruct c eqn:? end; lia.
Qed.

(** Text that is well formed is kept. *)
Lemma from_utf8_lossy_id bs : utf8_valid bs = true -> from_utf8_lossy bs = bs.
Proof.
  induction bs as [bs IH] using (induction_ltof1 _ (@length Z)); unfold ltof in IH.
  destruct bs as [|b0 t0]; [done|]. intros Hv. cbn [from_utf8_lossy]. cbn [utf8_valid] in Hv.
  repeat match type of Hv with
         | context [match ?l with [] => _ | _ :: _ => _ end] => is_var l; destruct l
         | context [if ?c then _ else _] => destruct c eqn:?
         end; try discriminate Hv; rewrite ?andb_true_iff in Hv; destruct_and?;
    repeat match goal with |- context [if ?c then _ else _] => destruct c eqn:?; try lia end;
    rewrite IH by (simpl; lia || done); done.
Qed.

(** ** Frames *)

Definition queue_of (h : HostState) : list Effect := effect_queue (scope h).
Definition staged_of (h : HostState) : list BlobChange := staged_blobs (scope h).

(** What no import changes. *)
Record same_call (h h' : HostState) : Prop := {
  sc_kind : call_kind h' = call_kind h;
  sc_dispatch : dispatch_of h' = dispatch_of h;
  sc_outgoing : outgoing_len h' = outgoing_len h;
  sc_profile : profile h' = profile h;
  sc_signer : signer (scope h') = signer (scope h);
  sc_verifier : verifier (scope h') = verifier (scope h);
  sc_view : blob_store (scope h') = blob_store (scope h);
  sc_attachment : attachment (scope h') = attachment (scope h);
  sc_queued : direct_queued (scope h') = direct_queued (scope h);
  sc_peer : scope_peer (scope h') = scope_peer (scope h);
  sc_session : scope_session (scope h') = scope_session (scope h) }.
Record same (h h' : HostState) : Prop := {
  same_header : same_call h h'; same_queue : queue_of h' = queue_of h; same_staged : staged_of h' = staged_of h }.

#[export] Instance same_call_preorder : PreOrder same_call.
Proof. split; [done|]. intros a b c [] []. split; congruence. Qed.
#[export] Instance same_preorder : PreOrder same.
Proof. split; [done|]. intros a b c [] []. split; [by etrans|congruence..]. Qed.

(** Memories hold bytes, and so does what the host's services return. *)
Definition octets_in (o : option bytes) : Prop := match o with Some b => octets b | None => True end.
Record memories (h : HostState) : Prop := {
  mem_work : octets_in (work h); mem_shared_ok : octets_in (shared_mem h); mem_local_ok : octets_in (local_mem h) }.
Record services (h : HostState) : Prop := {
  sv_sign : forall f c s p a b, signer (scope h) = Some f -> octets p -> f c s p = Ok (a, b) -> octets a /\ octets b;
  sv_verify : forall f a b p r, verifier (scope h) = Some f -> octets a -> f a b p = Ok r -> octets r;
  sv_session : forall e, scope_session (scope h) = Some e -> Forall (cwf c_id) (peers e) }.
Definition typed (h : HostState) : Prop := memories h /\ services h.

Lemma services_same h h' : same_call h h' -> services h -> services h'.
Proof. intros [] []. split; intros *; rewrite ?sc_signer0, ?sc_verifier0, ?sc_session0; eauto. Qed.

(** An import that touches neither queue, and what it returns. *)
Definition quiet {A} (m : M HostState Trap A) (Q : A -> Prop) : Prop := forall h,
  typed h -> same h (m h).2 /\ typed (m h).2 /\ forall a, (m h).1 = Ok a -> Q a.
Abbreviation still m := (quiet m (fun _ => True)).

Section Quiet.
Context {A B : Type}.
Implicit Types (m : M HostState Trap A) (f : A -> M HostState Trap B).

Lemma quiet_bind m f (P : A -> Prop) (Q : B -> Prop) :
  quiet m P -> (forall a, P a -> quiet (f a) Q) -> quiet (sbind m f) Q.
Proof.
  intros Hm Hf h Ht. destruct (Hm h Ht) as (Hs & Ht' & Hp). unfold sbind.
  destruct (m h) as [[a|e|] h']; simpl in *; [|split_and!; done..].
  destruct (Hf a (Hp a eq_refl) h' Ht') as (Hs' & Ht'' & Hq). split_and!; [by etrans|done|done].
Qed.

Lemma quiet_mono m (P Q : A -> Prop) : quiet m P -> (forall a, P a -> Q a) -> quiet m Q.
Proof. intros Hm Hpq h Ht. destruct (Hm h Ht) as (? & ? & ?). naive_solver. Qed.

Lemma quiet_sread (g : HostState -> result Trap A) (Q : A -> Prop) :
  (forall h a, typed h -> g h = Ok a -> Q a) -> quiet (sread g) Q.
Proof. intros Hg h Ht. split_and!; [done|done|]. eauto. Qed.

Lemma quiet_sret (a : A) (Q : A -> Prop) : Q a -> quiet (sret a) Q.
Proof. intros Hq h Ht. split_and!; [done|done|]. by intros ? [= <-]. Qed.
End Quiet.

Lemma quiet_smodify (g : HostState -> HostState) :
  (forall h, same h (g h)) -> (forall h, memories h -> memories (g h)) -> still (smodify g).
Proof.
  intros Hs Hm h [Hme Hsv]. split_and!; [apply Hs| |done].
  split; [by apply Hm|]. eapply services_same; [apply same_header, Hs|done].
Qed.

Lemma still_on_scope (g : DispatchScope -> DispatchScope) :
  (forall h, same h (set_scope (g (scope h)) h)) -> still (on_scope g).
Proof. intros Hs. apply quiet_smodify; [done|]. by intros h []. Qed.

Lemma still_ledger m : still (on_ledger m).
Proof.
  intros h [Hm Hv]. unfold on_ledger. destruct (m (ledger (scope h))) as [r l]. simpl.
  split_and!; [done| |done]. destruct Hm, Hv. done.
Qed.

Ltac qt :=
  repeat first
    [ assumption
    | exact I
    | match goal with
      | |- quiet (sbind _ _) _ => eapply quiet_bind; [|intros ? ?]
      | |- quiet (match ?x with _ => _ end) _ => destruct x eqn:?
      | |- quiet (let '(_, _) := ?x in _) _ => destruct x eqn:?
      | |- quiet (sret _) _ => apply quiet_sret
      | |- quiet (on_ledger _) _ => apply still_ledger
      | |- quiet (sread _) _ => apply quiet_sread; intros ? ? ? ?
      end ].

Lemma still_try {A} (r : result Trap A) : quiet (host_try r) (fun a => r = Ok a).
Proof. unfold host_try. qt. Qed.
Lemma still_get {A} (f : HostState -> A) : quiet (host_get f) (fun a => exists h, a = f h).
Proof. unfold host_get. qt. inv_ok. eauto. Qed.
Lemma still_msg b what : quiet (msg_if b what) (fun _ => b = false).
Proof. unfold msg_if, trap_if, host_try. qt. by inv_ok. Qed.
Lemma still_trap_if b e : quiet (trap_if b e) (fun _ => b = false).
Proof. unfold trap_if, host_try. qt. by inv_ok. Qed.
Lemma still_reject : still reject_read_only.
Proof. unfold reject_read_only. by qt. Qed.
Lemma still_local : still require_local.
Proof. unfold require_local. eapply quiet_bind; [apply still_reject|]. intros. by qt. Qed.
Lemma still_begin : still begin_import.
Proof. unfold begin_import. eapply quiet_bind; [apply still_get|]. intros. qt. Qed.
Lemma still_copy n : still (copy_bytes n).
Proof. unfold copy_bytes. eapply quiet_bind; [apply still_get|]. intros. qt. Qed.
Lemma still_charge n : still (charge_fuel n).
Proof.
  unfold charge_fuel. eapply quiet_bind; [apply still_get|]. intros. eapply quiet_bind; [apply still_trap_if|].
  intros. apply quiet_smodify; [done|]. by intros h [].
Qed.
Lemma still_charge_each n r : still (charge_each n r).
Proof.
  unfold charge_each. eapply quiet_bind; [apply still_get|]. intros. eapply quiet_bind; [apply still_try|].
  intros. apply still_charge.
Qed.
Lemma quiet_work : quiet work_memory octets.
Proof.
  unfold work_memory. apply quiet_sread. intros h a [[Hw _ _] _] Ha. apply ok_or_Ok in Ha. by rewrite Ha in Hw.
Qed.

Lemma octets_copy_at n a b : octets a -> octets b -> octets (copy_at n a b).
Proof. intros. unfold copy_at. apply octets_app; split; [by apply octets_take|]. apply octets_app; split; [done|by apply octets_drop]. Qed.
Lemma octets_le n z : octets (le_bytes n z).
Proof.
  revert z. induction n as [|n IH]; intros z; [constructor|].
  change (octets ((z mod 256) :: le_bytes n (z / 256))). constructor; [apply Z.mod_pos_bound; lia|apply IH].
Qed.
Lemma octets_be n z : octets (be_bytes n z).
Proof. unfold be_bytes. apply Forall_reverse, octets_le. Qed.

Lemma quiet_read ptr len : quiet (read_guest_bytes ptr len) octets.
Proof.
  unfold read_guest_bytes. eapply quiet_bind; [apply still_copy|]. intros _ _.
  eapply quiet_bind; [apply quiet_work|]. intros data Hd. eapply quiet_bind; [apply still_msg|]. intros _ _.
  apply quiet_sret. by apply octets_take, octets_drop.
Qed.
Lemma still_write ptr b : octets b -> still (write_guest ptr b).
Proof.
  intros Hb. unfold write_guest. eapply quiet_bind; [apply quiet_work|]. intros data Hd.
  eapply quiet_bind; [apply still_msg|]. intros _ _. apply quiet_smodify; [done|].
  intros h []. split; [by apply octets_copy_at|done..].
Qed.

Lemma be_val_range n b : octets b -> length b = n -> cwf (c_arr n) (be_val b).
Proof.
  intros Hb <-. assert (octets (reverse b)) as Hr by (by apply Forall_reverse).
  pose proof (le_val_range _ Hr) as Hz. unfold zlen in Hz. by rewrite length_reverse in Hz.
Qed.
Lemma quiet_array ptr : quiet (read_array ptr) (cwf c_id).
Proof.
  unfold read_array. eapply quiet_bind; [apply quiet_read|]. intros b Hb. eapply quiet_mono; [apply still_try|].
  intros z Hz. apply expect_Ok in Hz. unfold array_of in Hz. destruct (length b =? 32)%nat eqn:Hl; [|done].
  injection Hz as <-. apply (be_val_range 32); [done|by apply Nat.eqb_eq].
Qed.

(** The rules above, applied until none fits. *)
Create HintDb quiet.
#[export] Hint Resolve still_try still_get still_msg still_trap_if still_reject still_local still_begin still_copy
  still_charge still_charge_each quiet_work quiet_read quiet_array still_ledger : quiet.
Create HintDb octets.
#[export] Hint Resolve octets_be octets_le octets_take octets_drop octets_copy_at : octets.

Ltac quiet_rule := first
  [ solve [eauto with quiet nocore]
  | solve [apply still_write; eauto with octets]
  | apply quiet_sret; exact I
  | solve [eapply quiet_mono; [solve [eauto with quiet nocore]|done]] ].
Ltac quiets :=
  repeat (match goal with
    | |- quiet (sbind _ _) _ => eapply quiet_bind; [quiet_rule|intros ? ?; cbv beta in *]
    | |- quiet (if ?x then _ else _) _ => destruct x eqn:?
    | |- quiet (match ?x with _ => _ end) _ => destruct x eqn:?
    end); try quiet_rule.

Section Emission.
Context `{Crypto, Blake3Hazmat, Rng}.
Context (fill_bytes : list bytes -> Z -> bytes).

Lemma still_kind k : still (state_kind k).
Proof. unfold state_kind. quiets. Qed.
Lemma quiet_state_memory k : quiet (state_memory k) octets.
Proof.
  unfold state_memory. eapply quiet_bind; [apply still_kind|]. intros _ _. apply quiet_sread.
  intros h a [[_ Hs Hl] _] Ha. apply ok_or_Ok in Ha. destruct (k =? 0); [by rewrite Ha in Hs|by rewrite Ha in Hl].
Qed.
Lemma still_payload_max k : still (state_payload_max k).
Proof. unfold state_payload_max. eapply quiet_bind; [apply still_kind|]. intros _ _. quiets. Qed.
Lemma still_reject_io : still reject_state_io.
Proof. unfold reject_state_io. by apply quiet_sread. Qed.
#[local] Hint Resolve still_kind quiet_state_memory still_payload_max still_reject_io : quiet.

Lemma still_hash a b o : still (import_hash a b o).
Proof. unfold import_hash. quiets. Qed.
Lemma still_merge_cv a b r o : still (import_merge_cv a b r o).
Proof. unfold import_merge_cv. quiets. Qed.
Lemma still_write_items o l : still (write_items_at o l).
Proof. revert o. induction l as [|x l IH]; intros o; simpl; quiets. Qed.
Lemma still_permutation a n o : still (import_permutation a n o).
Proof. unfold import_permutation. quiets. apply still_write_items. Qed.

Lemma octets_verified r e : (forall p, r = Ok p -> octets p) -> encode_verified r = Ok e -> octets e.
Proof.
  intros Hr He. destruct r as [p|v|]; [| |done]; unfold encode_verified in He; apply expect_ok_Ok, wcat_Ok in He as (b1 & b2 & Ha & Hb & ->).
  - unfold write_uint in Ha. inv_ok. apply write_bytes_Ok in Hb as (_ & _ & ->).
    repeat (apply octets_app; split); auto using octets_le.
  - unfold write_uint in *. inv_ok. apply octets_app; split; apply octets_le.
Qed.

Lemma still_verify a b c d e o k : still (import_verify a b c d e o k).
Proof.
  unfold import_verify. quiets. eapply quiet_bind.
  { apply (quiet_sread _ (fun v => forall a b p r, octets a -> v a b p = Ok r -> octets r)).
    intros h v [_ Hv] Ha ? ? ? ? ?. apply ok_or_Ok in Ha. by eapply sv_verify. }
  intros v Hv. quiets. match goal with E : encode_verified _ = Ok ?x |- _ =>
    assert (octets x) by (eapply octets_verified; [|exact E]; intros; eapply Hv; [|eassumption]; done) end. quiets.
Qed.

Lemma still_state_len k : still (import_state_len k).
Proof. unfold import_state_len. quiets. Qed.
Lemma still_state_read k d l : still (import_state_read k d l).
Proof. unfold import_state_read. quiets. Qed.
Lemma octets_frame f n p f' : octets f -> octets p -> write_state_frame f n p = Ok f' -> octets f'.
Proof.
  intros Hf Hp Hw. unfold write_state_frame in Hw.
  repeat match type of Hw with (if ?c then _ else _) = _ => destruct c; [done|] end. injection Hw as <-.
  apply octets_copy_at; [done|]. apply octets_copy_at; [apply octets_le|].
  destruct (_ <? n); [|done]. apply octets_copy_at; [|done]. by apply Forall_replicate.
Qed.
Lemma still_state_write k s l : still (import_state_write k s l).
Proof.
  unfold import_state_write. quiets. match goal with E : map_err _ (write_state_frame _ _ _) = Ok ?x |- _ =>
    apply map_err_Ok in E; assert (octets x) by (eapply octets_frame; [| |exact E]; eauto with octets) end.
  apply quiet_smodify; unfold set_state_mem; intros h; [by destruct (k =? 0)|]. intros []. by destruct (k =? 0).
Qed.
Lemma still_log v p l : still (import_log v p l).
Proof. unfold import_log. quiets. by apply still_on_scope. Qed.

(** The generator fills its buffer with bytes. *)
Context (fills : forall l n, octets (fill_bytes l n)).

Lemma still_random p l : still (import_random fill_bytes p l).
Proof.
  unfold import_random. quiets. eapply quiet_bind; [by apply still_on_scope|]. intros _ _.
  match goal with E : exists h, _ = fill_bytes _ _ |- _ => destruct E as [? ->] end.
  apply quiet_smodify; [done|]. intros h' []. split; [by apply octets_copy_at|done..].
Qed.

Lemma still_view : still get_view.
Proof. unfold get_view. by apply quiet_sread. Qed.
#[local] Hint Resolve still_view : quiet.

(** A range that is offered is encodable and within the bounds of [send_direct]. *)
Lemma quiet_range p l : quiet (read_range p l) (fun o => match o with Some r => cwf c_range r | None => True end).
Proof.
  unfold read_range. destruct (l =? 0); [by apply quiet_sret|]. quiets.
  apply quiet_sret. match goal with Hb : octets ?b, E : map_err _ (from_slice c_range ?b) = _ |- _ =>
    apply map_err_Ok in E; unfold from_slice in E; apply rbind_Ok in E as ([r' rest] & Hd & Hr) end.
  destruct rest; [|done]. injection Hr as ->. by eapply enc_dec.
Qed.

Lemma still_sign sch s p l o k : still (import_sign sch s p l o k).
Proof.
  unfold import_sign. quiets. eapply quiet_bind.
  { apply (quiet_sread _ (fun f => forall c s p a b, octets p -> f c s p = Ok (a, b) -> octets a /\ octets b)).
    intros h f [_ Hv] Ha ? ? ? ? ? ?. apply ok_or_Ok in Ha. by eapply sv_sign. }
  intros f Hf. quiets. eapply quiet_bind; [by apply still_on_scope|]. intros _ _.
  eapply quiet_bind; [apply still_try|]. intros [x y] Hx. apply map_err_Ok in Hx. apply Hf in Hx as [Hx Hy]; [|done].
  eapply quiet_bind; [apply still_try|]. intros z Hz. apply map_err_Ok, wcat_Ok in Hz as (b1 & b2 & Ha & Hb & ->).
  apply write_bytes_Ok in Ha as (_ & _ & ->). apply write_bytes_Ok in Hb as (_ & _ & ->).
  assert (octets ((le_bytes 4 (zlen x) ++ x) ++ le_bytes 4 (zlen y) ++ y))
    by (repeat (apply octets_app; split); auto using octets_le).
  quiets.
Qed.

Lemma still_source_len v src : still (source_len v src).
Proof. unfold source_len. quiets. Qed.
Lemma still_source_bytes v src : still (source_bytes v src).
Proof. unfold source_bytes. quiets. eapply quiet_bind; [by apply (quiet_sread _ (fun _ => True))|]. intros. quiets. Qed.
#[local] Hint Resolve still_source_len still_source_bytes : quiet.
Lemma still_cv_of src off : still (cv_of src off).
Proof. unfold cv_of. quiets. Qed.
#[local] Hint Resolve still_cv_of : quiet.
Lemma still_subtree_cv p l f o : still (import_subtree_cv p l f o).
Proof. unfold import_subtree_cv. quiets. Qed.
Lemma still_receive h : still (receive_state h).
Proof. unfold receive_state. quiets. Qed.

(** ** The effects of a call *)

(** What [ExecutionState::apply_dispatch] asks of a list of effects, per queue. *)
Record emitted (h : HostState) : Prop := {
  em_budget : check_effect_budget (queue_of h) = Ok tt;
  em_typed : Forall (cwf c_effect) (queue_of h);
  em_single : zlen (filter (fun e => is_lifecycle e = true) (queue_of h)) <= 1;
  em_local : is_local (dispatch_of h) = true -> existsb is_lifecycle (queue_of h) = false;
  em_agreed : is_local (dispatch_of h) = false -> existsb is_send_direct (queue_of h) = false;
  em_timer : existsb is_lifecycle (queue_of h) && existsb is_set_timer (queue_of h) = false;
  em_peers : forall to m r, SendDirect to m r ∈ queue_of h ->
    exists e, scope_session (scope h) = Some e /\ to ∈ peers e /\ scope_peer (scope h) <> Some to;
  em_lanes : forall to, count_direct to (queue_of h) = 0 \/
    queued_for to (direct_queued (scope h)) + count_direct to (queue_of h) <= MAX_DIRECT_QUEUE;
  em_broadcasts : is_local (dispatch_of h) = true -> count_broadcasts (queue_of h) = 0 \/
    outgoing_len h + count_broadcasts (queue_of h) <= MAX_OUTGOING_MESSAGES }.

(** What an import has checked before it records an effect. *)
Record allowed (h : HostState) (e : Effect) : Prop := {
  al_typed : cwf c_effect e;
  al_peer : forall to m r, e = SendDirect to m r ->
    exists en, scope_session (scope h) = Some en /\ to ∈ peers en /\ scope_peer (scope h) <> Some to;
  al_lane : forall to m r, e = SendDirect to m r ->
    queued_for to (direct_queued (scope h)) + count_direct to (queue_of h) < MAX_DIRECT_QUEUE;
  al_broadcast : is_broadcast e = true -> is_local (dispatch_of h) = true ->
    outgoing_len h + count_broadcasts (queue_of h) < MAX_OUTGOING_MESSAGES }.

Lemma emitted_same h h' : same h h' -> emitted h -> emitted h'.
Proof.
  intros [Hc Hq _] []. destruct Hc. split; rewrite ?Hq, ?sc_dispatch0, ?sc_session0, ?sc_peer0, ?sc_queued0, ?sc_outgoing0; done.
Qed.
Lemma allowed_same h h' e : same h h' -> allowed h e -> allowed h' e.
Proof.
  intros [Hc Hq _] []. destruct Hc. split; rewrite ?Hq, ?sc_dispatch0, ?sc_session0, ?sc_peer0, ?sc_queued0, ?sc_outgoing0; done.
Qed.

Lemma existsb_snoc {A} (p : A -> bool) l x : existsb p (l ++ [x]) = existsb p l || p x.
Proof. by rewrite existsb_app, (orb_false_r (p x) : existsb p [x] = p x). Qed.
Lemma count_direct_snoc to l e :
  count_direct to (l ++ [e]) = count_direct to l + match e with SendDirect p _ _ => if p =? to then 1 else 0 | _ => 0 end.
Proof.
  unfold count_direct. rewrite filter_app, zlen_app. f_equal. rewrite filter_cons, filter_nil.
  destruct e; try done. by destruct (to0 =? to).
Qed.
Lemma count_broadcasts_snoc l e : count_broadcasts (l ++ [e]) = count_broadcasts l + if is_broadcast e then 1 else 0.
Proof. unfold count_broadcasts. rewrite filter_app, zlen_app. f_equal. rewrite filter_cons, filter_nil. by destruct (is_broadcast e). Qed.
Lemma filter_lifecycle_none l : existsb is_lifecycle l = false -> filter (fun e => is_lifecycle e = true) l = [].
Proof.
  induction l as [|e l IH]; [done|]. simpl. intros [He Hl]%orb_false_iff. rewrite filter_cons, He. simpl. by apply IH.
Qed.

(** One more effect, under the checks of [record_effect]. *)
Lemma emitted_push h h' e :
  emitted h -> allowed h e -> same_call h h' -> queue_of h' = queue_of h ++ [e] ->
  is_send_direct e && negb (is_local (dispatch_of h)) = false ->
  (if is_lifecycle e then is_local (dispatch_of h) = false /\ existsb is_lifecycle (queue_of h) = false /\
                          existsb is_set_timer (queue_of h) = false
   else is_set_timer e && existsb is_lifecycle (queue_of h) = false) ->
  check_effect_budget (queue_of h ++ [e]) = Ok tt -> emitted h'.
Proof.
  intros [] [] [] Hq Hd Hl Hb.
  split; rewrite ?Hq, ?sc_dispatch0, ?sc_session0, ?sc_peer0, ?sc_queued0, ?sc_outgoing0; rewrite ?existsb_snoc; [done|..].
  - apply Forall_app. auto.
  - rewrite filter_app, zlen_app, filter_cons, filter_nil. destruct (is_lifecycle e) eqn:He.
    + destruct Hl as (_ & Hn & _). rewrite filter_lifecycle_none by done. done.
    + simpl. rewrite zlen_nil. lia.
  - intros Hk. rewrite em_local0 by done. destruct (is_lifecycle e); [|done]. destruct Hl as [Hl _]. congruence.
  - intros Hk. rewrite em_agreed0 by done. rewrite Hk, andb_true_r in Hd. done.
  - destruct (is_lifecycle e) eqn:He.
    + destruct Hl as (_ & -> & ->). by destruct e.
    + rewrite orb_false_r. destruct (is_set_timer e); [by rewrite andb_true_l in Hl; rewrite Hl|].
      by rewrite orb_false_r.
  - intros to m r [Hi|Hi%list_elem_of_singleton]%elem_of_app; [by eapply em_peers0|by eapply al_peer0].
  - intros to. rewrite count_direct_snoc. destruct e; rewrite ?Z.add_0_r; try apply em_lanes0.
    destruct (Z.eqb_spec to0 to) as [->|]; rewrite ?Z.add_0_r; [|apply em_lanes0].
    right. pose proof (al_lane0 _ _ _ eq_refl). lia.
  - intros Hk. rewrite count_broadcasts_snoc. destruct (is_broadcast e); rewrite ?Z.add_0_r; [|by apply em_broadcasts0].
    right. pose proof (al_broadcast0 eq_refl Hk). lia.
Qed.

(** An import that emits: the call goes on as it was and its queue stays admissible. *)
Definition emitting {A} (m : M HostState Trap A) (h : HostState) : Prop :=
  typed h -> emitted h -> same_call h (m h).2 /\ typed (m h).2 /\ emitted (m h).2.

Lemma emitting_quiet {A} (m : M HostState Trap A) P h : quiet m P -> emitting m h.
Proof.
  intros Hm Ht He. destruct (Hm h Ht) as (Hs & Ht' & _). split_and!; [apply Hs|done|by eapply emitted_same].
Qed.

(** A quiet step, then one that emits and may use what it returned. *)
Lemma emitting_bind {A B} (m : M HostState Trap A) (f : A -> M HostState Trap B) P h :
  quiet m P -> (forall a h', same h h' -> P a -> emitting (f a) h') -> emitting (sbind m f) h.
Proof.
  intros Hm Hf Ht He. destruct (Hm h Ht) as (Hs & Ht' & Hp). unfold sbind.
  pose proof (emitted_same _ _ Hs He) as He'. destruct (m h) as [[a|e|] h']; simpl in *;
    [|split_and!; [apply Hs|done|done]..].
  destruct (Hf a h' Hs (Hp a eq_refl) Ht' He') as (? & ? & ?). split_and!; [|done|done].
  etrans; [apply Hs|done].
Qed.
Lemma emitting_sret {A} (a : A) h : emitting (sret a) h.
Proof. by eapply emitting_quiet, (quiet_sret a (fun _ => True)). Qed.
Lemma emitting_then {A B} (m : M HostState Trap A) (b : B) h : emitting m h -> emitting (m ;;! sret b) h.
Proof. intros Hm Ht He. specialize (Hm Ht He). unfold sbind. by destruct (m h) as [[]]. Qed.

Lemma emitting_get {A B} (g : HostState -> A) (k : A -> M HostState Trap B) h :
  emitting (k (g h)) h -> emitting (sbind (host_get g) k) h.
Proof. done. Qed.
Lemma emitting_record e h : allowed h e -> emitting (record_effect e) h.
Proof.
  intros Ha. unfold record_effect.
  eapply emitting_bind; [apply still_reject|]. intros _ h1 S1 _. apply emitting_get.
  eapply emitting_bind; [apply still_msg|]. intros u2 h2 S2 Hd. cbv beta in Hd. apply emitting_get.
  eapply (emitting_bind _ _ (fun _ => if is_lifecycle e then is_local (dispatch_of h1) = false /\
    existsb is_lifecycle (queue_of h2) = false /\ existsb is_set_timer (queue_of h2) = false
    else is_set_timer e && existsb is_lifecycle (queue_of h2) = false)).
  { destruct (is_lifecycle e); [|apply still_msg]. do 2 (eapply quiet_bind; [apply still_msg|]; intros ? ?; cbv beta in * ).
    eapply quiet_mono; [apply still_msg|]. by intros. }
  intros u3 h3 S3 Hl. cbv beta in Hl. eapply emitting_bind; [apply still_try|]. intros u h4 S4 Hb. apply map_err_Ok in Hb. destruct u.
  eapply emitting_bind; [apply still_try|]. intros b h5 S5 Henc. apply emitting_get.
  eapply emitting_bind; [apply still_ledger|]. intros _ h6 S6 _.
  assert (same h2 h6) as S26 by (do 3 (etrans; [done|]); done). assert (same h h6) as S06 by (do 2 (etrans; [done|]); done).
  fold (queue_of h2) in Hl, Hb. rewrite <- (same_queue _ _ S26) in Hl, Hb.
  assert (dispatch_of h1 = dispatch_of h6) as Hk.
  { rewrite (sc_dispatch _ _ (same_header _ _ S06)). apply (sc_dispatch _ _ (same_header _ _ S1)). }
  rewrite Hk in Hl, Hd. intros Ht He. cbv [on_scope smodify snd]. split_and!; [done|by destruct Ht as [[] []]|].
  eapply (emitted_push h6 _ e); try done. by eapply allowed_same.
Qed.

Lemma allowed_plain h e : cwf c_effect e -> is_send_direct e = false -> is_broadcast e = false -> allowed h e.
Proof. intros Hc Hd Hb. split; [done| | |congruence]; by intros ? ? ? ->. Qed.

(** The three lifecycle imports. *)
Ltac lifecycle := repeat (lazymatch goal with |- emitting (sbind _ _) _ => eapply emitting_bind; [quiet_rule|intros ? ? ? ?] end); apply emitting_record, allowed_plain; try done.
Lemma emitting_fail p l h : emitting (import_fail p l) h.
Proof. unfold import_fail. lifecycle. apply from_utf8_lossy_valid. Qed.
Lemma emitting_end p l h : emitting (import_end_session p l) h.
Proof. unfold import_end_session. lifecycle. Qed.
Lemma emitting_abort p l h : emitting (import_abort_session p l) h.
Proof. unfold import_abort_session. lifecycle. apply from_utf8_lossy_valid. Qed.

Lemma emitting_timer d a b c e h : 0 <= d <= u64_max -> emitting (import_set_timer d a b c e) h.
Proof.
  intros Hd. unfold import_set_timer. do 3 (eapply emitting_bind; [quiet_rule|intros ? ? ? ?]).
  eapply emitting_bind; [apply still_msg|]. intros ? ? ? Hv. cbv beta in Hv. apply negb_false_iff in Hv.
  eapply emitting_bind; [quiet_rule|]. intros ? ? ? ?. apply emitting_record, allowed_plain; [|done..].
  cbn. unfold u64_max in Hd. repeat split; try done; lia.
Qed.

Lemma emitting_broadcast p l h : emitting (import_broadcast p l) h.
Proof.
  unfold import_broadcast. do 2 (eapply emitting_bind; [quiet_rule|intros ? ? ? ?]). apply emitting_get.
  match goal with |- emitting (if ?c then _ else _) _ => destruct c eqn:Hc end; [apply emitting_sret|].
  eapply emitting_bind; [quiet_rule|]. intros data h2 Hs _. apply emitting_then, emitting_record.
  eapply allowed_same; [done|]. split; [done|done|done|]. intros _ Hl. rewrite Hl in Hc. simpl in Hc.
  apply Z.leb_gt in Hc. done.
Qed.

Lemma emitting_sread {A B} (g : HostState -> result Trap A) (k : A -> M HostState Trap B) h :
  (forall a, g h = Ok a -> emitting (k a) h) -> emitting (sbind (sread g) k) h.
Proof. intros Hk Ht He. unfold sbind, sread. destruct (g h) eqn:Hg; [by apply Hk|done..]. Qed.

Lemma emitting_send a b c d e h : emitting (import_send_direct a b c d e) h.
Proof.
  unfold import_send_direct. do 2 (eapply emitting_bind; [quiet_rule|intros ? ? ? _]).
  eapply emitting_bind; [apply quiet_array|]. intros to h1 _ Hto.
  apply emitting_sread. intros en Hen. apply expect_Ok in Hen. apply emitting_get.
  eapply emitting_bind; [apply still_msg|]. intros ? h2 S2 Hg. cbv beta in Hg. apply orb_false_iff in Hg as [Hme Hin].
  eapply emitting_bind; [quiet_rule|]. intros _ h3 S3 _.
  eapply emitting_bind; [apply quiet_range|]. intros range h4 S4 Hr. apply emitting_get.
  match goal with |- emitting (if ?c then _ else _) _ => destruct c eqn:Hc end; [apply emitting_sret|].
  apply Z.leb_gt in Hc. eapply emitting_bind; [quiet_rule|]. intros msg h5 S5 _.
  apply emitting_then, emitting_record. eapply (allowed_same h4); [done|].
  assert (same h1 h4) as S14 by (do 2 (etrans; [done|]); done). pose proof (same_header _ _ S14) as [].
  split; [by split_and!| | |done].
  - intros ? ? ? [= <- _ _]. exists en. split_and!; [congruence| |].
    + apply negb_false_iff, existsb_exists in Hin as (x & Hx & ->%Z.eqb_eq). by apply list_elem_of_In.
    + rewrite sc_peer0. intros Hp. rewrite Hp in Hme. simpl in Hme. by rewrite Z.eqb_refl in Hme.
  - by intros ? ? ? [= <- _ _].
Qed.

(** *** Blob changes do not touch the effects *)

Lemma emitting_stage b h : emitting (on_scope (push_blob b)) h.
Proof. intros [[] []] []. cbv [on_scope smodify snd]. done. Qed.
Lemma emitting_append hash length t h : emitting (blob_append hash length t) h.
Proof.
  unfold blob_append. destruct (_ <? length); [apply emitting_sret|].
  eapply emitting_bind; [quiet_rule|]. intros o h1 _ _. destruct o as [data|]; [|apply emitting_sret].
  eapply emitting_bind; [apply still_receive|]. intros r h2 _ _.
  match goal with |- emitting (if ?c then _ else _) _ => destruct c end; [apply emitting_sret|].
  eapply emitting_bind; [quiet_rule|]. intros _ h3 _ _. apply emitting_then, emitting_stage.
Qed.
Lemma emitting_commit hash h : emitting (blob_commit hash) h.
Proof.
  unfold blob_commit. eapply emitting_bind; [apply still_receive|]. intros r h1 _ _.
  destruct (rc_length r) as [length|]; [|apply emitting_sret].
  do 2 (match goal with |- emitting (if ?c then _ else _) _ => destruct c end; [apply emitting_sret|]).
  eapply emitting_bind; [quiet_rule|]. intros _ h2 _ _. eapply emitting_bind; [quiet_rule|]. intros tail h3 _ _.
  eapply (emitting_bind _ _ (fun _ => True)); [quiets|]. intros digest h4 _ _.
  match goal with |- emitting (if ?c then _ else _) _ => destruct c end; [apply emitting_sret|].
  apply emitting_then, emitting_stage.
Qed.

(** ** A run of the guest *)

(** Arguments have their types' widths and memories hold bytes. *)
Definition act_typed (a : GuestAct) : Prop :=
  match a with
  | Computes w s l _ => octets_in w /\ octets_in s /\ octets_in l
  | Calls (CSetTimer d _ _ _ _) => 0 <= d <= u64_max
  | Calls _ => True
  end.

Lemma emitting_unit m h : emitting m h -> emitting (returns_unit m) h.
Proof. apply emitting_then. Qed.
Lemma emitting_still {A} (m : M HostState Trap A) h : still m -> emitting m h.
Proof. apply emitting_quiet. Qed.
#[local] Create HintDb emitting.
#[local] Hint Resolve emitting_unit emitting_fail emitting_end emitting_abort emitting_timer emitting_broadcast
  emitting_send emitting_still still_hash still_merge_cv still_permutation still_verify still_state_len still_state_read
  still_state_write still_log still_random still_sign still_subtree_cv : emitting.

Lemma emitting_call caps c h : act_typed (Calls c) -> emitting (call_import fill_bytes caps c) h.
Proof.
  intros Hc. unfold call_import. destruct (negb (linked caps c)); [by apply emitting_still, (quiet_mono _ _ _ (still_try _))|].
  destruct c; try solve [eauto 4 with emitting nocore].
  - unfold import_blob_append. do 3 (eapply emitting_bind; [quiet_rule|intros ? ? _ _]). apply emitting_append.
  - unfold import_blob_commit. do 3 (eapply emitting_bind; [quiet_rule|intros ? ? _ _]). apply emitting_commit.
Qed.

Lemma emitting_seq {A B} (m : M HostState Trap A) (f : A -> M HostState Trap B) h :
  emitting m h -> (forall a h', emitting (f a) h') -> emitting (sbind m f) h.
Proof.
  intros Hm Hf Ht He. destruct (Hm Ht He) as (Hs & Ht' & He'). unfold sbind.
  destruct (m h) as [[a|e|] h']; simpl in *; [|done..].
  destruct (Hf a h' Ht' He') as (? & ? & ?). split_and!; [by etrans|done|done].
Qed.

Lemma emitting_act caps a h : act_typed a -> emitting (act fill_bytes caps a) h.
Proof.
  destruct a as [w s l b|c]; intros Ha; [|by apply emitting_then, emitting_call].
  destruct Ha as (Hw & Hs & Hl). unfold act. eapply emitting_bind; [apply still_charge|]. intros _ h1 _ _.
  intros [Hm []] []. cbv [sbind smodify snd]. done.
Qed.

Lemma emitting_run caps l : Forall act_typed l -> forall h, emitting (guest_run fill_bytes caps l) h.
Proof.
  induction 1 as [|a l Ha _ IH]; intros h; cbn [guest_run]; [apply emitting_sret|].
  apply emitting_seq; [by apply emitting_act|]. intros _ h'. apply IH.
Qed.

Lemma emitted_fresh h : queue_of h = [] -> emitted h.
Proof. intros Hq. split; rewrite Hq; try done; [by intros to m r ?%not_elem_of_nil|by left..]. Qed.

(** ** The aggregate admits them *)

Lemma append_broadcasts_room l out :
  zlen out + count_broadcasts l <= MAX_OUTGOING_MESSAGES \/ count_broadcasts l = 0 ->
  exists out', append_broadcasts out l = Ok out' /\ zlen out' = zlen out + count_broadcasts l /\
    (forall m, m ∈ out' -> m ∈ out \/ Broadcast m ∈ l).
Proof.
  unfold append_broadcasts. revert out. induction l as [|e l IH]; intros out Hr.
  { exists out. rewrite Z.add_0_r. eauto. }
  assert (count_broadcasts (e :: l) = (if is_broadcast e then 1 else 0) + count_broadcasts l) as Hc.
  { unfold count_broadcasts. rewrite filter_cons. destruct (is_broadcast e); [|done]. apply zlen_cons. }
  assert (0 <= count_broadcasts l) by apply zlen_nonneg. rewrite Hc in *. cbn [try_fold].
  destruct (is_broadcast e) eqn:He; [|destruct e; try done;
    (destruct (IH out ltac:(rewrite ?Z.add_0_l in Hr; done)) as (o & Hf & Ho & Hm); exists o; split_and!; [exact Hf|lia|];
     intros m [?|?]%Hm; [by left|right; by right])].
  destruct e; try done. destruct (Z.leb_spec MAX_OUTGOING_MESSAGES (zlen out)); [lia|]. cbn [err_if rbind].
  destruct (IH (out ++ [data])) as (o & -> & Ho & Hm); [rewrite zlen_app, zlen_cons, zlen_nil; lia|].
  exists o. split_and!; [done|rewrite Ho, zlen_app, zlen_cons, zlen_nil; lia|].
  intros m [[?| ->%list_elem_of_singleton]%elem_of_app|?]%Hm; [by left|right; by left|right; by right].
Qed.

(** The lengths a dispatch is given are the lengths of the lanes. *)
Lemma queued_for_lens s to : queued_for to (direct_queue_lens s) = zlen (direct_queue s to).
Proof.
  unfold queued_for, find_by. destruct (List.find _ _) as [[p n]|] eqn:Hf.
  - apply List.find_some in Hf as [Hin He]. simpl in He. apply Z.eqb_eq in He as ->.
    unfold direct_queue_lens, lanes in Hin. apply List.in_map_iff in Hin as ([q l] & [= -> <-] & Hin).
    apply list_elem_of_In, list_elem_of_filter in Hin as [_ Hin]. rewrite sort_key_Permutation in Hin.
    apply elem_of_map_to_list in Hin. unfold direct_queue. by rewrite Hin.
  - unfold direct_queue. destruct (direct s !! to) as [l|] eqn:Hl; [|done].
    destruct (decide (queue l = [])) as [->|Hne]; [done|].
    assert (In (to, zlen (queue l)) (direct_queue_lens s)) as Hin.
    { unfold direct_queue_lens, lanes. apply List.in_map_iff. exists (to, l). split; [done|].
      apply list_elem_of_In, list_elem_of_filter. split; [done|]. rewrite sort_key_Permutation. by apply elem_of_map_to_list. }
    pose proof (List.find_none _ _ Hf _ Hin) as Hn. simpl in Hn. by rewrite Z.eqb_refl in Hn.
Qed.

Definition lane_of (m : gmap PeerId DirectLane) (p : PeerId) : DirectLane := default lane_default (m !! p).

(** Every direct message finds a participant, room in its lane and a sequence number. *)
Lemma queue_direct_room s l m :
  (forall to x r, SendDirect to x r ∈ l -> remote_participant s to = true) ->
  (forall to, count_direct to l = 0 \/
     zlen (queue (lane_of m to)) + count_direct to l <= MAX_DIRECT_QUEUE) ->
  (forall to, last_queued (lane_of m to) + count_direct to l <= u64_max) ->
  exists m', queue_direct s m l = Ok m'.
Proof.
  unfold queue_direct. revert m. induction l as [|e l IH]; intros m Hp Hr Hs; [by eexists|]. cbn [try_fold].
  assert (forall to, count_direct to (e :: l) =
    match e with SendDirect p _ _ => if p =? to then 1 else 0 | _ => 0 end + count_direct to l) as Hc.
  { intros to. unfold count_direct. rewrite filter_cons. destruct e; try done. destruct (to0 =? to); [|done]. apply zlen_cons. }
  assert (forall to, 0 <= count_direct to l) as Hpos by (intros; apply zlen_nonneg).
  destruct e; try (apply IH; [intros; eapply Hp; by right|intros q; specialize (Hr q); by rewrite Hc in Hr|
                              intros q; specialize (Hs q); by rewrite Hc in Hs]).
  rewrite (Hp _ _ _ ltac:(left)). cbn [negb err_if rbind]. fold (lane_of m to).
  pose proof (Hr to) as Hrt. pose proof (Hs to) as Hst. rewrite Hc, Z.eqb_refl in Hrt, Hst. specialize (Hpos to).
  rewrite (proj2 (Z.eqb_neq _ _)) by lia. cbn [err_if rbind]. unfold checked_add.
  rewrite (proj2 (Z.leb_le _ _)) by lia. cbn [ok_or rbind].
  apply IH; [intros; eapply Hp; by right|..]; intros q; specialize (Hr q); specialize (Hs q); rewrite Hc in Hr, Hs;
    unfold lane_of in *; destruct (Z.eqb_spec to q) as [Heq|Hne]; try rewrite <- Heq in *.
  - rewrite lookup_insert_eq. cbn [from_option id queue]. unfold zlen in *. rewrite length_app. simpl length. lia.
  - rewrite lookup_insert_ne by done. rewrite Z.add_0_l in Hr. done.
  - rewrite lookup_insert_eq. cbn [from_option id last_queued]. lia.
  - rewrite lookup_insert_ne by done. lia.
Qed.

(** The host state a dispatch of [e] in [s] starts from; [out] is the length of the
    outgoing queue it is told. *)
Definition dispatch_host (out : Z) (s : ExecutionState) (e : Event) (en : Ensemble) (sg : option GuestSigner)
    (vf : option GuestVerifier) (view : option BlobView) (att : option bytes) (h : HostState) : HostState :=
  install sg vf view att (if is_agreed_event e then [] else direct_queue_lens s) (producer s) en
    (reset_for_dispatch (dispatch_kind e) out h).

(** What the run leaves, against the header it started from. *)
Lemma run_emitted out s e en sg vf view att h caps l h' :
  typed (dispatch_host out s e en sg vf view att h) -> Forall act_typed l ->
  guest_run fill_bytes caps l (dispatch_host out s e en sg vf view att h) = (Ok tt, h') ->
  same_call (dispatch_host out s e en sg vf view att h) h' /\ emitted h'.
Proof.
  intros Ht Hl Hr. pose proof (emitting_run caps l Hl _ Ht) as He. rewrite Hr in He.
  destruct He as (Hs & _ & He); [by apply emitted_fresh|]. done.
Qed.

Lemma count_direct_le to l : count_direct to l <= zlen l.
Proof. unfold count_direct, zlen. apply inj_le, length_filter. Qed.
Lemma single_none l : existsb is_lifecycle l = false -> single_lifecycle_effect l = Ok None.
Proof. intros Hl. unfold single_lifecycle_effect. by rewrite filter_lifecycle_none. Qed.
Lemma single_some l : zlen (filter (fun e => is_lifecycle e = true) l) <= 1 -> exists lc,
  single_lifecycle_effect l = Ok lc /\ (is_some lc = true -> existsb is_lifecycle l = true).
Proof.
  unfold single_lifecycle_effect. destruct (filter _ l) as [|e [|e' k]] eqn:Hf; intros Hn; [by eexists|..].
  - exists (Some e). split; [done|]. intros _. apply existsb_exists. exists e.
    assert (e ∈ filter (fun e => is_lifecycle e = true) l) as Hi by (rewrite Hf; by left).
    apply list_elem_of_filter in Hi as [? ?]. split; [by apply list_elem_of_In|done].
  - rewrite !zlen_cons in Hn. pose proof (zlen_nonneg k). lia.
Qed.
Lemma indexed_small l : zlen l <= MAX_EFFECTS -> exists r, indexed_dispatch_effects l = Ok r.
Proof.
  intros Hn. unfold indexed_dispatch_effects.
  assert (forall k acc n, (n + length k <= 128)%nat -> exists r, try_fold (fun acc (p : Z * Effect) =>
    err_if (E:=ProtocolError) (u32_max <? p.1) (CollectionTooLarge "effects" (zlen l) u32_max) ;;? Ok (acc ++ [p])) acc
    (imap (fun i e => (Z.of_nat (n + i), e)) k) = Ok r) as Hk.
  { induction k as [|e k IH]; intros acc n Hb; [by eexists|]. cbn [imap try_fold]. simpl in Hb.
    rewrite (proj2 (Z.ltb_ge _ _)) by (unfold u32_max; simpl; lia). cbn [err_if rbind].
    destruct (IH (acc ++ [(Z.of_nat (n + 0), e)]) (S n)) as [r Hr]; [lia|]. exists r. rewrite <- Hr. f_equal.
    apply imap_ext. intros i x _. unfold compose. do 2 f_equal. lia. }
  apply (Hk l [] 0%nat). unfold zlen, MAX_EFFECTS in Hn. lia.
Qed.

Lemma outgoing_admitted out l :
  validate_outgoing out = Ok tt -> check_effect_budget l = Ok tt ->
  count_broadcasts l = 0 \/ zlen out + count_broadcasts l <= MAX_OUTGOING_MESSAGES ->
  exists out', append_broadcasts out l = Ok out' /\ validate_outgoing out' = Ok tt.
Proof.
  intros Hv Hb Hr. destruct (append_broadcasts_room l out) as (out' & Ha & Hn & Hm); [naive_solver|].
  exists out'. split; [done|]. unfold validate_outgoing in *. inv_ok.
  rewrite try_for_each_Ok in Hv. rewrite (proj2 (Z.ltb_ge _ _)) by lia. cbn [err_if rbind].
  apply try_for_each_Ok, Forall_forall. intros m [Hi|Hi]%Hm; [by eapply Forall_forall in Hv|].
  apply check_effect_budget_Ok in Hb as (_ & Hf & _). rewrite Forall_forall in Hf. specialize (Hf _ Hi).
  destruct Hf as [Hf _]. unfold validate_effect_payload, ensure_payload in *. by destruct (_ <? zlen m).
Qed.

(** The aggregate's side: a list of effects within these bounds is accepted. *)
Lemma local_accepts s e q lo pid rq :
  is_agreed_event e = false -> recovered_facts s -> status s = Active -> proposal s = None ->
  validate_callout_dispatch s e pid = Ok tt -> version s < u64_max -> event_position s < u64_max ->
  check_effect_budget q = Ok tt -> existsb is_lifecycle q = false ->
  (exists out, append_broadcasts (outgoing s) q = Ok out /\ validate_outgoing out = Ok tt) ->
  (exists m, queue_direct s (direct s) q = Ok m) ->
  exists s', apply_dispatch e (shared_state s) lo q None pid rq s = (Ok None, s').
Proof.
  intros Hl Hrf Ha Hp Hc Hver Hpos Hb Hn (out & Hout & Hvo) [m Hm]. pose proof (rf_shared _ Hrf) as Hsh.
  destruct (indexed_small q) as [ix Hix]; [apply (check_effect_budget_Ok q), Hb|].
  unfold apply_dispatch, apply_local, install_dispatch, bump_version, next_version, version_next.
  cbv [sbind sread sret smodify on_clone].
  rewrite Hp, Hsh, Hix, (single_none _ Hn), Hc, Hb, Hl. cbn [is_some andb err_if negb].
  rewrite Z.eqb_refl, Hout, Hm. cbn [negb err_if]. rewrite Hp, Ha. cbn [is_some err_if is_active negb].
  rewrite !Z.eqb_refl. cbn [negb err_if]. rewrite Hvo. unfold checked_add.
  rewrite (proj2 (Z.leb_le (event_position s + 1) _)) by lia. cbn [ok_or].
  match goal with |- context [version ?x + 1 <=? _] => change (version x) with (version s) end.
  rewrite (proj2 (Z.leb_le (version s + 1) _)) by lia. cbn [ok_or]. by eexists.
Qed.

(** Whatever a guest computes and whichever imports it calls in a local handler,
    [apply_dispatch] accepts the effects of its call: no limit, recipient, lane or
    queue bound of the aggregate is left to refuse them. *)
Lemma local_admitted s e en sg vf view att h caps l h' lo pid rq :
  is_agreed_event e = false -> validate_recovered s = Ok tt -> status s = Active -> proposal s = None ->
  binding_ensemble (binding s) = Ok en -> validate_callout_dispatch s e pid = Ok tt ->
  version s < u64_max -> event_position s < u64_max ->
  (forall p, last_queued (lane_of (direct s) p) + MAX_EFFECTS <= u64_max) ->
  typed (dispatch_host (zlen (outgoing s)) s e en sg vf view att h) -> Forall act_typed l ->
  guest_run fill_bytes caps l (dispatch_host (zlen (outgoing s)) s e en sg vf view att h) = (Ok tt, h') ->
  exists s', apply_dispatch e (shared_state s) lo (queue_of h') None pid rq s = (Ok None, s').
Proof.
  intros Hl Hv%validate_recovered_Ok Ha Hp Hen Hc Hver Hpos Hseq Ht Hacts Hr.
  destruct (run_emitted _ _ _ _ _ _ _ _ _ _ _ _ Ht Hacts Hr) as [Hsame Hem]. destruct Hsame.
  assert (is_local (dispatch_of h') = true) as Hk by (rewrite sc_dispatch0; cbn; by destruct e).
  apply local_accepts; try done; [apply em_budget|by apply em_local|apply outgoing_admitted|apply queue_direct_room]; try done.
  - apply Hv.
  - apply em_budget, Hem.
  - pose proof (em_broadcasts _ Hem Hk) as Hb. by rewrite sc_outgoing0 in Hb.
  - intros to x r Hi. destruct (em_peers _ Hem _ _ _ Hi) as (en' & He & Hin & Hme).
    rewrite sc_session0 in He. rewrite sc_peer0 in Hme. injection He as <-. unfold remote_participant.
    rewrite (proj2 (Z.eqb_neq _ _)) by (intros ->; by apply Hme). simpl. unfold is_participant.
    apply existsb_exists. exists to. split; [|apply Z.eqb_refl]. apply list_elem_of_In.
    by apply (from_peers_elem_of _ _ to Hen).
  - intros to. pose proof (em_lanes _ Hem to) as Hn. rewrite sc_queued0 in Hn. cbn in Hn. rewrite Hl, queued_for_lens in Hn.
    unfold direct_queue in Hn. unfold lane_of. by destruct (direct s !! to).
  - intros to. pose proof (count_direct_le to (queue_of h')). specialize (Hseq to).
    pose proof (em_budget _ Hem) as (Hn & _)%check_effect_budget_Ok. lia.
Qed.

(** In an agreed handler the effects pass every check [apply_dispatch] makes on
    them before it builds the proposal. *)
Lemma agreed_admitted out s e en sg vf view att h caps l h' lo pid rq sh o post :
  is_agreed_event e = true -> proposal s = None -> validate_callout_dispatch s e pid = Ok tt ->
  of_shared (E:=ProtocolError) sh = Ok post ->
  typed (dispatch_host out s e en sg vf view att h) -> Forall act_typed l ->
  guest_run fill_bytes caps l (dispatch_host out s e en sg vf view att h) = (Ok tt, h') ->
  exists indexed lc, indexed_dispatch_effects (queue_of h') = Ok indexed /\
    single_lifecycle_effect (queue_of h') = Ok lc /\
    apply_dispatch e sh lo (queue_of h') o pid rq s =
      apply_agreed e (event_position s) post sh lo (queue_of h') indexed lc o rq s.
Proof.
  intros Hl Hp Hc Hsh Ht Hacts Hr.
  destruct (run_emitted _ _ _ _ _ _ _ _ _ _ _ _ Ht Hacts Hr) as [[] []].
  destruct (indexed_small (queue_of h')) as [ix Hix]; [apply (check_effect_budget_Ok _), em_budget0|].
  destruct (single_some _ em_single0) as (lc & Hlc & Hx). exists ix, lc. split_and!; [done..|].
  unfold apply_dispatch. cbv [sbind sread]. rewrite Hp, Hsh, Hix, Hlc, Hc, em_budget0, Hl.
  rewrite em_agreed0 by (rewrite sc_dispatch0; cbn; by destruct e). cbn [is_some err_if andb negb].
  destruct (is_some lc); [|done]. rewrite Hx in em_timer0 by done. simpl in em_timer0. by rewrite em_timer0.
Qed.
End Emission.
