(* ===== verification/Staging.v ===== *)
(** * Blob changes a guest stages (engine/imports/capabilities.rs,
      node/src/execution/blobs.rs, store/src/lib.rs, database/blobs.rs)

    An execution receives objects piecewise.  [inbox] is what it has received, and
    [stage] the meaning of one change on it.  The changes a guest stages always
    continue the inbox its dispatch saw, whatever it calls ([staged_continue]); the
    store applies exactly these changes, and what it publishes hashes to its name. *)

From S2P Require Import Prelude Borsh Crypto Session Trace Evidence Validation Execution Canonical Envelope ChangeLog Database Persist.
From S2P Require Import Randomness Signing Imports Emission.

#[local] Open Scope Z_scope.

(** ** Received objects *)

Record Received := MkReceived { rv_length : Z; rv_bytes : bytes; rv_committed : bool }.
Abbreviation inbox := (gmap BlobHash Received).

Definition stage (D : inbox) (c : BlobChange) : option inbox :=
  match c with
  | BlobAppend h len off data =>
      match D !! h with
      | None => if off =? 0 then Some (<[h := MkReceived len data false]> D) else None
      | Some r =>
          if rv_committed r || negb (rv_length r =? len) || negb (zlen (rv_bytes r) =? off) then None
          else Some (<[h := MkReceived len (rv_bytes r ++ data) false]> D)
      end
  | BlobCommit h =>
      match D !! h with
      | Some r =>
          if rv_committed r || negb (zlen (rv_bytes r) =? rv_length r) then None
          else Some (<[h := MkReceived (rv_length r) (rv_bytes r) true]> D)
      | None => None
      end
  end.
Fixpoint stage_all (D : inbox) (l : list BlobChange) : option inbox :=
  match l with
  | [] => Some D
  | c :: l => D' ← stage D c; stage_all D' l
  end.

Lemma stage_all_snoc D l c : stage_all D (l ++ [c]) = D' ← stage_all D l; stage D' c.
Proof.
  revert D. induction l as [|x l IH]; intros D; simpl; [by destruct (stage D c)|]. destruct (stage D x); simpl; auto.
Qed.

(** What the overlay of [receive_state] shows of an inbox. *)
Definition shown (durable : bool) (o : option Received) : Receive :=
  match o with
  | Some r => MkReceive (Some (rv_length r)) (zlen (rv_bytes r)) (rv_committed r) durable
  | None => MkReceive None 0 false durable
  end.
Definition bytes_at (D : inbox) (h : BlobHash) : bytes := match D !! h with Some r => rv_bytes r | None => [] end.

Ltac stage_cases H :=
  unfold stage in H; repeat match type of H with
  | match ?x with _ => _ end = Some _ => destruct x eqn:?; try discriminate H
  end; injection H as <-; rewrite ?orb_false_iff, ?negb_false_iff, ?Z.eqb_eq in *; destruct_and?; subst.

Lemma overlay_stage D c D' d h : stage D c = Some D' -> overlay h (shown d (D !! h)) c = shown d (D' !! h).
Proof.
  intros Hs. stage_cases Hs; cbn [overlay].
  all: destruct (Z.eqb_spec hash h) as [Heq|Hne]; [rewrite <- Heq|].
  all: rewrite ?lookup_insert_eq, ?lookup_insert_ne by done; try done.
  all: match goal with E : _ !! _ = _ |- _ => rewrite E end; simpl; rewrite ?zlen_app; f_equal; congruence.
Qed.
Lemma bytes_stage D c D' h : stage D c = Some D' -> bytes_at D' h = bytes_at D h ++ staged_bytes h c.
Proof.
  intros Hs. stage_cases Hs; cbn [staged_bytes]; unfold bytes_at.
  all: destruct (Z.eqb_spec hash h) as [Heq|Hne]; [rewrite <- Heq|].
  all: rewrite ?lookup_insert_eq, ?lookup_insert_ne by done; try (by rewrite app_nil_r).
  all: match goal with E : _ !! _ = _ |- _ => rewrite E end; simpl; rewrite ?app_nil_r; done.
Qed.

Lemma overlay_stage_all D l D' d h :
  stage_all D l = Some D' -> fold_left (overlay h) l (shown d (D !! h)) = shown d (D' !! h).
Proof.
  revert D. induction l as [|c l IH]; intros D Hs; simpl in *; [by injection Hs as <-|].
  apply bind_Some in Hs as (D1 & H1 & Hs). rewrite (overlay_stage _ _ _ d h H1). by apply IH.
Qed.
Lemma bytes_stage_all D l D' h : stage_all D l = Some D' -> bytes_at D' h = bytes_at D h ++ staged_tail h l.
Proof.
  revert D. induction l as [|c l IH]; intros D Hs; simpl in *; [injection Hs as <-; by rewrite app_nil_r|].
  apply bind_Some in Hs as (D1 & H1 & Hs). rewrite (IH _ Hs), (bytes_stage _ _ _ h H1). unfold staged_tail. simpl.
  by rewrite <- app_assoc.
Qed.

Section Staging.
Context `{Crypto, Blake3Hazmat, Rng}.
Context (fill_bytes : list bytes -> Z -> bytes).

(** An inbox within the bounds of the imports, whose committed objects are the
    preimages of their names. *)
Record sound_entry (h : BlobHash) (r : Received) : Prop := {
  so_id : cwf c_id h;
  so_bound : zlen (rv_bytes r) <= rv_length r <= MAX_BLOB_BYTES;
  so_hash : rv_committed r = true -> zlen (rv_bytes r) = rv_length r /\ blake3 (rv_bytes r) = h }.
Definition sound (D : inbox) : Prop := map_Forall sound_entry D.

(** ** The interface of a view: it answers for the inbox, or traps *)

Class Viewing (v : BlobView) (D : inbox) : Prop := {
  vw_partial : forall h p, view_partial v h = Ok p ->
    p = (fun r => MkPartial (rv_length r) (zlen (rv_bytes r)) (rv_committed r)) <$> D !! h;
  vw_hash : forall h r t d, D !! h = Some r -> hash_partial v h t = Ok d -> d = blake3 (rv_bytes r ++ t);
  vw_range : forall h a b x, a <= b -> read_granted v h a b = Ok (Some x) -> zlen x = b - a;
  vw_calm : forall h a b t, view_partial v h <> Panic /\ hash_partial v h t <> Panic /\ granted v h <> Panic /\
    read_granted v h a b <> Panic }.

Context (v : BlobView) (D : inbox).
Context `{!Viewing v D}.

(** The view is the only one installed, and the staged changes so far continue the inbox. *)
Definition staging (h : HostState) : Prop :=
  (forall w, blob_store (scope h) = Some w -> w = v) /\ exists D', stage_all D (staged_of h) = Some D' /\ sound D'.

Definition keeps_staged {A} (m : M HostState Trap A) : Prop :=
  forall h, staged_of (m h).2 = staged_of h /\ blob_store (scope (m h).2) = blob_store (scope h).

Lemma keeps_staged_bind {A B} (m : M HostState Trap A) (f : A -> M HostState Trap B) :
  keeps_staged m -> (forall a, keeps_staged (f a)) -> keeps_staged (sbind m f).
Proof.
  intros Hm Hf h. specialize (Hm h). unfold sbind. destruct (m h) as [[a|e|] h']; [|done..].
  destruct (Hf a h') as [-> ->]. done.
Qed.
Lemma keeps_staged_sread {A} (g : HostState -> result Trap A) : keeps_staged (sread g).
Proof. done. Qed.
Lemma keeps_staged_sret {A} (a : A) : keeps_staged (sret a).
Proof. done. Qed.
Lemma keeps_staged_ledger m : keeps_staged (on_ledger m).
Proof. intros h. unfold on_ledger. by destruct (m _). Qed.
Lemma keeps_staged_smodify g : (forall h, staged_of (g h) = staged_of h /\ blob_store (scope (g h)) = blob_store (scope h)) ->
  keeps_staged (smodify g).
Proof. done. Qed.
End Staging.

Ltac keeps_step :=
  first [ apply keeps_staged_sread | apply keeps_staged_sret | apply keeps_staged_ledger
        | apply keeps_staged_bind; [|intros ?]
        | match goal with |- keeps_staged (match ?x with _ => _ end) => destruct x end
        | apply keeps_staged_smodify; intros ?; solve [done | unfold set_state_mem; by case_match] ].
Ltac keeps := repeat keeps_step.

(** Every import but the two that stage leaves the staged changes alone. *)
Section Keeps.
Context `{Crypto, Blake3Hazmat, Rng}.
Context (fill_bytes : list bytes -> Z -> bytes).

Lemma keeps_record e : keeps_staged (record_effect e).
Proof.
  unfold record_effect, reject_read_only, msg_if, trap_if, host_get, host_try, on_scope. keeps.
Qed.
Lemma keeps_read p l : keeps_staged (read_guest_bytes p l).
Proof. unfold read_guest_bytes, copy_bytes, work_memory, msg_if, trap_if, host_get, host_try. keeps. Qed.
Lemma keeps_write p b : keeps_staged (write_guest p b).
Proof. unfold write_guest, work_memory, msg_if, trap_if, host_try. keeps. Qed.
Lemma keeps_charge n r : keeps_staged (charge_each n r).
Proof. unfold charge_each, charge_fuel, trap_if, host_get, host_try. keeps. Qed.
Lemma keeps_copy n : keeps_staged (copy_bytes n).
Proof. unfold copy_bytes, host_get. keeps. Qed.
Lemma keeps_begin : keeps_staged begin_import.
Proof. unfold begin_import, host_get. keeps. Qed.
Lemma keeps_items o l : keeps_staged (write_items_at o l).
Proof. revert o. induction l as [|x l IH]; intros o; simpl; [keeps|]. apply keeps_staged_bind; [apply keeps_write|auto]. Qed.

Ltac keeps_import :=
  repeat first [ apply keeps_record | apply keeps_read | apply keeps_write | apply keeps_charge | apply keeps_copy
               | apply keeps_begin | apply keeps_items | keeps_step ].

Definition stages (c : ImportCall) : bool := match c with CBlobAppend _ _ _ | CBlobCommit _ => true | _ => false end.
Lemma keeps_call caps c : stages c = false -> keeps_staged (call_import fill_bytes caps c).
Proof.
  intros Hc. unfold call_import, trap, host_try. destruct (negb (linked caps c)); [keeps|].
  unfold returns_unit, import_hash, import_merge_cv, import_permutation, import_verify, import_state_len,
    import_state_read, import_state_write, import_log, import_random, import_fail, import_end_session,
    import_abort_session, import_send_direct, import_broadcast, import_set_timer, import_sign, import_subtree_cv,
    read_range, cv_of, source_len, source_bytes, read_array, get_view, state_memory, state_payload_max, state_kind,
    reject_state_io, require_local, reject_read_only, work_memory, msg_if, trap_if, host_get, host_try, on_scope.
  destruct c; try discriminate Hc; keeps_import.
Qed.
End Keeps.

Section Run.
Context `{Crypto, Blake3Hazmat, Rng}.
Context (fill_bytes : list bytes -> Z -> bytes) (v : BlobView) (D : inbox).
Context (fills : forall l n, octets (fill_bytes l n)) `{!Viewing v D}.

Lemma staging_keeps {A} (m : M HostState Trap A) h : keeps_staged m -> staging v D h -> staging v D (m h).2.
Proof. intros Hk [Hv Hs]. destruct (Hk h) as [Hq Hb]. split; [by rewrite Hb|]. by rewrite Hq. Qed.

(** A step that only reads, then one that stages. *)
Lemma staging_bind {A B} (m : M HostState Trap A) (f : A -> M HostState Trap B) h :
  keeps_staged m -> staging v D h ->
  (forall a h', m h = (Ok a, h') -> staging v D h' -> staging v D (f a h').2) -> staging v D (sbind m f h).2.
Proof.
  intros Hk Hs Hf. pose proof (staging_keeps m h Hk Hs) as Hs'. unfold sbind.
  destruct (m h) as [[a|e|] h'] eqn:Hm; [|done..]. by apply Hf.
Qed.

(** What [receive_state] reads is the inbox with the staged changes applied. *)
Lemma receive_shown hash h r h' D' :
  staging v D h -> stage_all D (staged_of h) = Some D' -> receive_state hash h = (Ok r, h') ->
  h' = h /\ r = shown (is_some (D !! hash)) (D' !! hash).
Proof.
  intros [Hv _] Hs Hr. unfold receive_state, get_view, host_try, host_get in Hr.
  cbv [sbind sread] in Hr. destruct (blob_store (scope h)) as [w|] eqn:Hw; [|done]. rewrite (Hv _ eq_refl) in Hr. cbn [ok_or] in Hr.
  destruct (view_err _) as [p| |] eqn:Hp; [|done..]. injection Hr as <- <-. split; [done|].
  apply map_err_Ok in Hp. rewrite (vw_partial _ _ Hp). rewrite <- (overlay_stage_all _ _ _ _ _ Hs).
  f_equal. by destruct (D !! hash).
Qed.

Lemma keeps_receive hash : keeps_staged (receive_state hash).
Proof. unfold receive_state, get_view, host_get, host_try. keeps. Qed.

Lemma attached_Some token c b : attached token c = Some b -> 0 < zlen b.
Proof.
  unfold attached. destruct (attachment c) as [x|]; [|done]. destruct (_ && _) eqn:Hc; [|done]. intros [= <-].
  pose proof (zlen_nonneg x). lia.
Qed.

Lemma staging_push h c D' D'' :
  (forall w, blob_store (scope h) = Some w -> w = v) -> stage_all D (staged_of h) = Some D' -> stage D' c = Some D'' -> sound D'' ->
  staging v D (on_scope (push_blob c) h).2.
Proof.
  intros Hv Hs Hc Hd. split; [done|]. exists D''. split; [|done]. unfold staged_of. simpl.
  rewrite stage_all_snoc. fold (staged_of h). by rewrite Hs.
Qed.

Lemma stage_append D' hash len data d :
  sound D' -> cwf c_id hash -> len <= MAX_BLOB_BYTES ->
  rc_committed (shown d (D' !! hash))
    || match rc_length (shown d (D' !! hash)) with Some known => negb (known =? len) | None => false end
    || (len <? rc_written (shown d (D' !! hash)) + zlen data) = false ->
  exists D'', stage D' (BlobAppend hash len (rc_written (shown d (D' !! hash))) data) = Some D'' /\ sound D''.
Proof.
  intros Hd Hid Hl Hc. unfold stage. rewrite !orb_false_iff, Z.ltb_ge in Hc. destruct Hc as [[Hc Hk] Hw].
  destruct (D' !! hash) as [r|] eqn:Hr; simpl in *.
  - apply negb_false_iff, Z.eqb_eq in Hk as <-. rewrite Hc, !Z.eqb_refl. simpl. eexists. split; [done|].
    apply map_Forall_insert_2; [|done]. split; [done| |done]. simpl. rewrite zlen_app. lia.
  - eexists. split; [done|]. apply map_Forall_insert_2; [|done]. split; [done| |done]. simpl. lia.
Qed.
Lemma stage_commit D' hash len d :
  sound D' -> rc_length (shown d (D' !! hash)) = Some len -> rc_committed (shown d (D' !! hash)) = false ->
  rc_written (shown d (D' !! hash)) = len -> blake3 (bytes_at D' hash) = hash ->
  exists D'', stage D' (BlobCommit hash) = Some D'' /\ sound D''.
Proof.
  intros Hd Hl Hc Hw Hb. unfold stage, bytes_at in *. destruct (D' !! hash) as [r|] eqn:Hr; [|done]. simpl in *.
  injection Hl as Hl. rewrite Hc, Hw, Hl, Z.eqb_refl. simpl. eexists. split; [done|].
  destruct (Hd _ _ Hr) as [Hi Hbd _]. apply map_Forall_insert_2; [|done]. split; simpl; [done|lia|].
  intros _. split; [lia|done].
Qed.

(** Pushing after steps that leave the staged changes alone. *)
Lemma staging_then c (a : Z) h h' D' D'' :
  staging v D h' -> staged_of h' = staged_of h -> stage_all D (staged_of h) = Some D' -> stage D' c = Some D'' ->
  sound D'' -> staging v D ((on_scope (push_blob c) ;;! sret a) h').2.
Proof.
  intros [Hv _] Hq Hs Hc Hd. change (staging v D (on_scope (push_blob c) h').2).
  apply (staging_push _ _ D' D''); [done| |done|done]. by rewrite Hq.
Qed.

Lemma staging_append hash length token h :
  cwf c_id hash -> staging v D h -> staging v D (blob_append hash length token h).2.
Proof.
  intros Hid Hst. unfold blob_append. destruct (Z.ltb_spec MAX_BLOB_BYTES length) as [|Hl]; [done|].
  apply staging_bind; [unfold host_get; keeps|done|]. intros o h1 Ho Hst1.
  injection Ho as <- <-. destruct (attached _ _) as [data|]; [|done].
  apply staging_bind; [apply keeps_receive|done|]. intros r h2 Hr _.
  pose proof Hst1 as [Hv (D' & Hs & Hd)]. pose proof (receive_shown _ _ _ _ D' Hst1 Hs Hr) as [-> ->].
  match goal with |- context [if ?c then sret _ else _] => destruct c eqn:Hc end; [done|].
  destruct (stage_append _ _ _ _ _ Hd Hid Hl Hc) as (D'' & Hstage & Hd'').
  apply staging_bind; [apply keeps_copy|done|]. intros u h3 Hcp Hst3.
  eapply (staging_then _ _ h); try done. pose proof (proj1 (keeps_copy (zlen data) h)) as Hq. by rewrite Hcp in Hq.
Qed.

(** The digest [blob_commit] compares is that of the received bytes. *)
Lemma digest_exact hash D' h x h' :
  staging v D h -> stage_all D (staged_of h) = Some D' ->
  (if is_some (D !! hash)
   then (let! w := get_view in host_try (view_err (hash_partial w hash (staged_tail hash (staged_of h)))))
   else sret (blake3 (staged_tail hash (staged_of h)))) h = (Ok x, h') -> x = blake3 (bytes_at D' hash).
Proof.
  intros [Hv _] Hs Hx. rewrite (bytes_stage_all _ _ _ hash Hs). unfold bytes_at at 1.
  destruct (D !! hash) as [r|] eqn:Hr; simpl in Hx.
  - unfold get_view, host_try in Hx. cbv [sbind sread] in Hx.
    destruct (blob_store (scope h)) as [w|] eqn:Hw; [|done]. rewrite (Hv _ eq_refl) in Hx. simpl in Hx.
    destruct (view_err _) as [y| |] eqn:Hy; [|done..]. injection Hx as <- _. apply map_err_Ok in Hy. by eapply vw_hash.
  - by injection Hx as <- _.
Qed.

Lemma staging_commit hash h : staging v D h -> staging v D (blob_commit hash h).2.
Proof.
  intros Hst. unfold blob_commit. apply staging_bind; [apply keeps_receive|done|]. intros r h1 Hr _.
  pose proof Hst as [Hv (D' & Hs & Hd)]. pose proof (receive_shown _ _ _ _ D' Hst Hs Hr) as [-> ->].
  set (r := shown _ _). destruct (rc_length r) as [len|] eqn:Hlen; [|done].
  destruct (rc_committed r) eqn:Hc; [done|]. destruct (Z.eqb_spec (rc_written r) len) as [Hw|]; [|done]. cbn [negb].
  apply staging_bind; [apply keeps_charge|done|]. intros u h2 Hch Hst2.
  pose proof (proj1 (keeps_charge len hash_per_byte h)) as Hq. rewrite Hch in Hq. simpl in Hq.
  apply staging_bind; [unfold host_get; keeps|done|]. intros tail h3 Ht Hst3. injection Ht as <- <-.
  fold (staged_of h2).
  apply staging_bind; [unfold get_view, host_try; keeps|done|]. intros x h4 Hx Hst4.
  replace (rc_durable r) with (is_some (D !! hash)) in Hx by (unfold r; by destruct (D' !! hash)).
  assert (h4 = h2) as ->.
  { destruct (is_some (D !! hash)); [|by injection Hx]. unfold get_view, host_try in Hx. cbv [sbind sread] in Hx.
    destruct (ok_or _ _); [|done..]. destruct (view_err _); [|done..]. by injection Hx. }
  pose proof (digest_exact hash D' h2 x h2 Hst2 ltac:(congruence) Hx) as ->.
  destruct (Z.eqb_spec (blake3 (bytes_at D' hash)) hash) as [Hb|]; [|done]. cbn [negb].
  destruct (stage_commit _ _ _ _ Hd Hlen Hc Hw Hb) as (D'' & Hstage & Hd''). by eapply (staging_then _ _ h).
Qed.

(** The prologue of the two imports: the hash they name is 32 bytes. *)
Lemma staging_named hash_ptr (f : BlobHash -> M HostState Trap Z) h :
  typed h -> staging v D h -> (forall hash h', cwf c_id hash -> staging v D h' -> staging v D (f hash h').2) ->
  staging v D ((begin_import ;;! require_local ;;! (let! hash := read_array hash_ptr in f hash)) h).2.
Proof.
  intros Ht Hs Hf. apply staging_bind; [apply keeps_begin|done|]. intros u h1 H1' Hs1.
  assert (typed h1) as Ht1 by (pose proof (proj1 (proj2 (still_begin h Ht))) as X; by rewrite H1' in X).
  apply staging_bind; [unfold require_local, reject_read_only; keeps|done|]. intros u' h2 H2' Hs2.
  assert (typed h2) as Ht2 by (pose proof (proj1 (proj2 (still_local h1 Ht1))) as X; by rewrite H2' in X).
  apply staging_bind; [unfold read_array, host_try; apply keeps_staged_bind; [apply keeps_read|intros; keeps]|done|].
  intros hash h3 H3' Hs3. apply Hf; [|done].
  destruct (quiet_array hash_ptr h2 Ht2) as (_ & _ & Hq). apply Hq. by rewrite H3'.
Qed.

Lemma staging_call caps c h : typed h -> staging v D h -> staging v D (call_import fill_bytes caps c h).2.
Proof.
  intros Ht Hs. destruct (stages c) eqn:Hc; [|by apply staging_keeps; [apply keeps_call|]].
  unfold call_import. destruct (negb (linked caps c)); [done|].
  destruct c; try discriminate Hc; apply staging_named; auto using staging_append, staging_commit.
Qed.

Lemma staging_act caps a h : typed h -> staging v D h -> staging v D (act fill_bytes caps a h).2.
Proof.
  intros Ht Hs. destruct a as [w s l n|c]; cbn [act].
  - apply staging_keeps; [|done]. unfold charge_fuel, host_get, trap_if, host_try. keeps.
  - pose proof (staging_call caps c h Ht Hs) as Hc. unfold sbind. by destruct (call_import _ _ _ _) as [[] ?].
Qed.

Lemma staging_run caps l h : typed h -> emitted h -> Forall act_typed l -> staging v D h ->
  staging v D (guest_run fill_bytes caps l h).2.
Proof.
  revert h. induction l as [|a l IH]; intros h Ht He Hl Hs; [done|]. apply Forall_cons in Hl as [Ha Hl].
  cbn [guest_run]. pose proof (staging_act caps a h Ht Hs) as Hs'.
  destruct (emitting_act fill_bytes fills caps a h Ha Ht He) as (_ & Ht' & He').
  unfold sbind. destruct (act fill_bytes caps a h) as [[u|e|] h']; [|done..]. by apply IH.
Qed.

(** The changes a dispatch stages continue the inbox it saw, and what they commit is
    the preimage of its name. *)
Lemma staged_continue out s e en sg vf att h caps l h' :
  typed (dispatch_host out s e en sg vf (Some v) att h) -> Forall act_typed l -> sound D ->
  guest_run fill_bytes caps l (dispatch_host out s e en sg vf (Some v) att h) = (Ok tt, h') ->
  exists D', stage_all D (staged_of h') = Some D' /\ sound D'.
Proof.
  intros Ht Hl Hd Hr. assert (staging v D (dispatch_host out s e en sg vf (Some v) att h)) as Hs
    by (split; [by intros w [= <-]|]; by exists D).
  assert (emitted (dispatch_host out s e en sg vf (Some v) att h)) as He by by apply emitted_fresh.
  pose proof (staging_run caps l _ Ht He Hl Hs) as [_ Hs']. by rewrite Hr in Hs'.
Qed.
End Run.

(** ** The store's side *)

(** [StoreBlobView] (node/src/execution/blobs.rs) over the store's blocking reads. *)
Section StoreView.
Context `{Crypto}.
(** How a store error prints. *)
Context (display : StoreError -> string).

(** [blob_granted]: the grant joined with its blob. *)
Definition blob_granted (t : Tables) (id : ExecId) (hash : BlobHash) : result StoreError (option Z) :=
  if bool_decide (hash ∈ (default ∅ (blob_grants t !! id) : gset BlobHash)) then
    match blobs t !! hash with
    | Some b => rmap Some (sqlite_i64 (bl_length b))
    | None => Ok None
    end
  else Ok None.
Definition blob_location (t : Tables) (hash : BlobHash) : result StoreError (option (bytes * Z)) :=
  match blobs t !! hash with
  | Some b => let? l := sqlite_i64 (bl_length b) in Ok (Some (bl_path b, l))
  | None => Ok None
  end.
(** The lock of the connection and its [poisoned] check. *)
Definition live_db {A} (db : Database) (r : result StoreError A) : result StoreError A :=
  if poisoned db then Err Closed else r.

(** [read_blob_range_blocking]: any failure of the read is an absent range. *)
Definition read_blob_range (db : Database) (hash : BlobHash) (start stop : Z) : result StoreError (option bytes) :=
  let? loc := live_db db (blob_location (view db) hash) in
  match loc with
  | None => Ok None
  | Some (path, _) =>
      Ok (content ← files db !! path;
          let b := take (Z.to_nat (stop - start)) (drop (Z.to_nat start) content) in
          if zlen b =? stop - start then Some b else None)
  end.

(** [hash_blob_partial_blocking]: the durable prefix, then the tail. *)
Definition hash_blob_partial (db : Database) (id : ExecId) (hash : BlobHash) (tail : bytes) : result StoreError BlobHash :=
  let? p := live_db db (blob_partial (view db) id hash) in
  let? p := ok_or p (Corruption "hashing a missing blob partial") in
  let short := Corruption "blob partial file is shorter than written" in
  let? content := ok_or (files db !! received_path (blob_dir db) id hash) short in
  err_if (zlen content <? pt_written p) short ;;?
  Ok (blake3 (take (Z.to_nat (pt_written p)) content ++ tail)).

Definition store_view (db : Database) (id : ExecId) : BlobView := {|
  granted h := map_err display (live_db db (blob_granted (view db) id h));
  read_granted h a b := map_err display (read_blob_range db h a b);
  view_partial h := map_err display (
    let? p := live_db db (blob_partial (view db) id h) in
    Ok ((fun p => MkPartial (pt_length p) (pt_written p) (pt_committed p)) <$> p));
  hash_partial h t := map_err display (hash_blob_partial db id h t) |}.

(** The inbox of an execution in the store: the SQL-committed prefix of each file. *)
Definition received (db : Database) (id : ExecId) : inbox :=
  map_imap (fun h r => Some (MkReceived (pt_length r)
    (take (Z.to_nat (pt_written r)) (default [] (files db !! received_path (blob_dir db) id h))) (pt_committed r)))
    (rows (blob_partials (view db)) id).

(** Each row's file holds at least what the row says was written. *)
Record filed (db : Database) (id : ExecId) (h : BlobHash) (r : PartialRow) : Prop := {
  fi_id : cwf c_id h;
  fi_range : 0 <= pt_written r <= pt_length r /\ pt_length r <= MAX_BLOB_BYTES;
  fi_file : exists b, files db !! received_path (blob_dir db) id h = Some b /\ pt_written r <= zlen b }.
Definition all_filed (db : Database) (id : ExecId) : Prop := map_Forall (filed db id) (rows (blob_partials (view db)) id).

Definition received_row (db : Database) (id : ExecId) (h : BlobHash) (r : PartialRow) : Received :=
  MkReceived (pt_length r) (take (Z.to_nat (pt_written r)) (default [] (files db !! received_path (blob_dir db) id h)))
    (pt_committed r).
Lemma received_lookup db id h : received db id !! h = received_row db id h <$> row (blob_partials (view db)) id h.
Proof. unfold received, row. rewrite map_lookup_imap. by destruct (_ !! h). Qed.

Lemma blob_partial_Ok db id h : all_filed db id -> blob_partial (view db) id h = Ok (row (blob_partials (view db)) id h).
Proof.
  intros Hf. unfold blob_partial. destruct (row _ id h) as [r|] eqn:Hr; [|done].
  destruct (Hf h r Hr) as [_ [[? ?] ?] _]. unfold sqlite_i64.
  rewrite !(proj2 (Z.ltb_ge _ _)) by lia. simpl. by destruct r.
Qed.
Lemma received_written db id h r : all_filed db id -> row (blob_partials (view db)) id h = Some r ->
  zlen (rv_bytes (received_row db id h r)) = pt_written r.
Proof.
  intros Hf Hr. destruct (Hf h r Hr) as [_ Hb (b & Hb1 & Hb2)]. unfold received_row. simpl. rewrite Hb1. simpl.
  unfold zlen in *. rewrite length_take. lia.
Qed.

(** The store's view answers for the inbox. *)
#[export] Instance store_viewing db id : all_filed db id -> Viewing (store_view db id) (received db id).
Proof.
  intros Hf. split.
  - intros h p Hp. apply map_err_Ok in Hp. unfold live_db in Hp. destruct (poisoned db); [done|].
    rewrite (blob_partial_Ok _ _ _ Hf) in Hp. injection Hp as <-. rewrite received_lookup.
    destruct (row _ id h) as [r|] eqn:Hr; [|done]. simpl. do 2 f_equal. symmetry. exact (received_written _ _ _ _ Hf Hr).
  - intros h r t d Hr Hd. apply map_err_Ok in Hd. unfold hash_blob_partial, live_db in Hd. destruct (poisoned db); [done|].
    rewrite (blob_partial_Ok _ _ _ Hf) in Hd. rewrite received_lookup in Hr.
    destruct (row _ id h) as [w|] eqn:Hw; [|done]. injection Hr as <-. cbn [rbind ok_or] in Hd.
    apply rbind_Ok in Hd as (c & Hc & Hd). apply ok_or_Ok in Hc. inv_ok. unfold received_row. simpl. by rewrite Hc.
  - intros h a b x Hab Hx. apply map_err_Ok in Hx. unfold read_blob_range in Hx.
    apply rbind_Ok in Hx as ([[path n]|] & _ & Hx); [|done]. injection Hx as Hx. apply bind_Some in Hx as (c & _ & Hx).
    destruct (Z.eqb_spec (zlen (take (Z.to_nat (b - a)) (drop (Z.to_nat a) c))) (b - a)) as [He|]; [|done].
    by injection Hx as <-.
  - intros h a b t. unfold store_view, hash_blob_partial, read_blob_range, blob_granted, blob_location, live_db,
      blob_partial, sqlite_i64. simpl. split_and!.
    all: apply map_err_noPanic. all: (repeat first [ done | apply rbind_noPanic; [|intros] | case_match | apply ok_or_noPanic | apply err_if_noPanic ]).
Qed.
End StoreView.

(** ** Applying the changes *)

Lemma hex_digit_inj a b : 0 <= a < 16 -> 0 <= b < 16 -> hex_digit a = hex_digit b -> a = b.
Proof. unfold hex_digit. intros. destruct (a <? 10) eqn:?, (b <? 10) eqn:?; lia. Qed.
Lemma hex_inj l k : octets l -> octets k ->
  flat_map (fun b => [hex_digit (b / 16); hex_digit (b mod 16)]) l =
  flat_map (fun b => [hex_digit (b / 16); hex_digit (b mod 16)]) k -> l = k.
Proof.
  intros Hl. revert k. induction Hl as [|a l Ha _ IH]; intros [|b k] Hk He; simpl in He; try done.
  apply Forall_cons in Hk as [Hb Hk]. injection He as H1 H2 He.
  apply hex_digit_inj in H1; [|split; [apply Z.div_pos|apply Z.div_lt_upper_bound]; lia..].
  apply hex_digit_inj in H2; [|apply Z.mod_pos_bound; lia..].
  f_equal; [|by apply IH]. rewrite (Z.div_mod a 16), (Z.div_mod b 16) by lia. congruence.
Qed.
Lemma to_hex_inj a b : cwf c_id a -> cwf c_id b -> to_hex a = to_hex b -> a = b.
Proof.
  intros Ha Hb He. apply hex_inj in He; [|by apply Forall_reverse, octets_le..].
  apply (f_equal (fun l => le_val (reverse l))) in He. rewrite !reverse_involutive in He.
  by rewrite !le_val_bytes in He.
Qed.
Lemma received_path_inj dir id a b : cwf c_id a -> cwf c_id b ->
  received_path dir id a = received_path dir id b -> a = b.
Proof. intros Ha Hb He. unfold received_path in He. do 4 apply app_inv_head in He. by apply to_hex_inj. Qed.

(** The prefix a write at its end extends. *)
Lemma write_at_prefix content n data :
  (n <= length content)%nat -> take (n + length data) (write_at content n data) = take n content ++ data.
Proof.
  intros Hn. unfold write_at. replace (n - length content)%nat with 0%nat by lia. rewrite app_nil_r, app_assoc.
  rewrite take_app_length'; [done|]. rewrite length_app, length_take. lia.
Qed.
Lemma length_write_at content n data :
  (n <= length content)%nat -> (n + length data <= length (write_at content n data))%nat.
Proof. intros Hn. unfold write_at. rewrite !length_app, length_take, length_app. lia. Qed.

Section Applying.
Context `{Crypto}.
Context (id : ExecId).

Lemma rows_put_id {V} (m : gmap ExecId (gmap Z V)) k x : rows (put m id k x) id = <[k := x]> (rows m id).
Proof. unfold rows, put. by rewrite lookup_insert_eq. Qed.

(** The database with one object's row and file replaced. *)
Definition refile (h : BlobHash) (r : PartialRow) (content : bytes) (db : Database) : Database :=
  set_view (set_blob_partials (put (blob_partials (view db)) id h r) (view db))
    (set_files (<[received_path (blob_dir db) id h := content]> (files db)) db).

Lemma refile_received db h r content :
  all_filed db id -> cwf c_id h -> received (refile h r content db) id =
    <[h := MkReceived (pt_length r) (take (Z.to_nat (pt_written r)) content) (pt_committed r)]> (received db id).
Proof.
  intros Hf Hh. apply map_eq. intros k. rewrite received_lookup. unfold row.
  change (blob_partials (view (refile h r content db))) with (put (blob_partials (view db)) id h r).
  rewrite rows_put_id. destruct (decide (k = h)) as [->|Hne].
  - rewrite !lookup_insert_eq. simpl. unfold received_row. simpl. by rewrite lookup_insert_eq.
  - rewrite !lookup_insert_ne by done. rewrite received_lookup. unfold row.
    destruct (rows _ id !! k) as [w|] eqn:Hw; [|done]. simpl. unfold received_row. simpl. f_equal.
    rewrite lookup_insert_ne; [done|]. intros He. apply Hne. symmetry. eapply received_path_inj; [done| |done].
    by destruct (Hf k w Hw).
Qed.
Lemma refile_filed db h r content :
  all_filed db id -> cwf c_id h -> 0 <= pt_written r <= pt_length r -> pt_length r <= MAX_BLOB_BYTES ->
  pt_written r <= zlen content -> all_filed (refile h r content db) id.
Proof.
  intros Hf Hh Hw Hl Hc k w Hk.
  change (blob_partials (view (refile h r content db))) with (put (blob_partials (view db)) id h r) in Hk.
  rewrite rows_put_id in Hk.
  destruct (decide (k = h)) as [->|Hne].
  - rewrite lookup_insert_eq in Hk. injection Hk as <-. split; [done|done|]. exists content. simpl. by rewrite lookup_insert_eq.
  - rewrite lookup_insert_ne in Hk by done. destruct (Hf k w Hk) as [Hki Hkr (b & Hb & Hwb)]. split; [done|done|].
    exists b. simpl. rewrite lookup_insert_ne; [done|]. intros He. apply Hne. symmetry. by eapply received_path_inj.
Qed.

Lemma apply_append db h len off data D' :
  all_filed db id -> cwf c_id h -> off + zlen data <= len -> len <= MAX_BLOB_BYTES ->
  stage (received db id) (BlobAppend h len off data) = Some D' ->
  exists r content, apply_blob_append id h len off data db = (Ok tt, refile h r content db) /\
    received (refile h r content db) id = D' /\ all_filed (refile h r content db) id.
Proof.
  intros Hf Hh Hfit Hl Hs. unfold stage in Hs. rewrite received_lookup in Hs.
  pose proof (zlen_nonneg data) as Hn. assert (MAX_BLOB_BYTES <= i64_max) as Hmax by done.
  assert (0 <= off -> checked_add off (zlen data) = Some (off + zlen data)) as Hadd.
  { intros. unfold checked_add. rewrite (proj2 (Z.leb_le _ _)); [done|]. unfold MAX_BLOB_BYTES, u64_max in *. lia. }
  assert (forall x, x <= len -> sqlite_u64 x = Ok x) as Hu
    by (intros; unfold sqlite_u64; by rewrite (proj2 (Z.ltb_ge _ _)) by lia).
  unfold apply_blob_append, select, update, write_file. cbv [sbind sread smodify]. rewrite (blob_partial_Ok _ _ _ Hf).
  destruct (row _ id h) as [w|] eqn:Hw; simpl in Hs.
  - pose proof (received_written _ _ _ _ Hf Hw) as Hz. unfold received_row in Hz. simpl in Hz. rewrite Hz in Hs.
    destruct (_ || _) eqn:Hg; [done|]. injection Hs as <-. cbn [err_if].
    rewrite !orb_false_iff, !negb_false_iff, !Z.eqb_eq in Hg. destruct Hg as [[Hc Hlen] Hoff].
    destruct (Hf h w Hw) as [_ Hr (b & Hb & Hwb)]. rewrite Hb in *. cbn [ok_or]. rewrite Hadd by lia. cbn [expect].
    rewrite Hu by lia. eexists (MkPartialRow _ _ _), _. split; [reflexivity|].
    assert ((Z.to_nat off <= List.length b)%nat) by (unfold zlen in Hwb; lia).
    rewrite refile_received by done. split.
    + cbn [pt_length pt_written pt_committed]. rewrite Hlen, Hc. repeat f_equal. rewrite Hoff.
      replace (Z.to_nat (off + zlen data)) with (Z.to_nat off + List.length data)%nat by (unfold zlen; lia).
      by apply write_at_prefix.
    + apply refile_filed; cbn [pt_length pt_written]; try done; try lia.
      pose proof (length_write_at b (Z.to_nat off) data). unfold zlen. lia.
  - destruct (Z.eqb_spec off 0) as [->|]; [|done]. injection Hs as <-. cbn [negb err_if]. rewrite Hadd by lia. cbn [expect].
    rewrite !Hu by lia. eexists (MkPartialRow _ _ _), _. split; [reflexivity|]. rewrite refile_received by done. split.
    + cbn [pt_length pt_written pt_committed]. repeat f_equal. rewrite take_ge; [done|]. unfold zlen. lia.
    + apply refile_filed; cbn [pt_length pt_written]; try done; lia.
Qed.

(** An object with a store-owned row, granted to the execution. *)
Definition published (db : Database) (h : BlobHash) : Prop :=
  (exists b, blobs (view db) !! h = Some b /\ bl_linked b = false) /\
  h ∈ (default ∅ (blob_grants (view db) !! id) : gset BlobHash).

Lemma refile_published db k r c h : published db h -> published (refile k r c db) h.
Proof. done. Qed.

(** Inboxes read only the rows and files. *)
Lemma received_ext a b :
  blob_partials (view a) = blob_partials (view b) -> files a = files b -> blob_dir a = blob_dir b ->
  received a id = received b id /\ (all_filed b id -> all_filed a id).
Proof.
  intros Hp Hf Hd. unfold received. rewrite Hp, Hf, Hd. split; [done|]. intros Hb k r Hr. rewrite Hp in Hr.
  destruct (Hb k r Hr) as [? ? ?]. split; [done|done|]. by rewrite Hf, Hd.
Qed.

(** What a commit leaves: the row marked, the grant added, the object listed. *)
Lemma apply_commit db h D' :
  all_filed db id -> utf8_valid (received_path (blob_dir db) id h) = true ->
  stage (received db id) (BlobCommit h) = Some D' ->
  exists db', apply_blob_commit id h db = (Ok tt, db') /\ received db' id = D' /\ all_filed db' id /\
    blob_dir db' = blob_dir db /\ published db' h /\ (forall k, published db k -> published db' k).
Proof.
  intros Hf Hutf Hs. unfold stage in Hs. rewrite received_lookup in Hs.
  destruct (row _ id h) as [w|] eqn:Hw; [|done]. simpl in Hs.
  pose proof (received_written _ _ _ _ Hf Hw) as Hz. unfold received_row in Hz. simpl in Hz. rewrite Hz in Hs.
  destruct (_ || _) eqn:Hg; [done|]. injection Hs as <-. destruct (Hf h w Hw) as [Hid Hr (b & Hb & Hwb)].
  pose proof (refile_received db h (MkPartialRow (pt_length w) (pt_written w) true) b Hf Hid) as HR.
  pose proof (refile_filed db h (MkPartialRow (pt_length w) (pt_written w) true) b Hf Hid) as HF.
  simpl in HR, HF. rewrite Hb. simpl. rewrite <- HR.
  assert (sqlite_u64 (pt_length w) = Ok (pt_length w)) as Hu.
  { unfold sqlite_u64. rewrite (proj2 (Z.ltb_ge _ _)); [done|]. unfold MAX_BLOB_BYTES, i64_max in *. lia. }
  unfold apply_blob_commit, select, update, record_change.
  cbv [sbind sread smodify sret]. rewrite (blob_partial_Ok _ _ _ Hf), Hw, Hg, Hutf, Hu. cbn [negb err_if].
  assert (forall db', blob_partials (view db') = put (blob_partials (view db)) id h (MkPartialRow (pt_length w) (pt_written w) true) ->
    files db' = files db -> blob_dir db' = blob_dir db ->
    received db' id = received (refile h (MkPartialRow (pt_length w) (pt_written w) true) b db) id /\ all_filed db' id) as Hx.
  { intros db' Hp Hfi Hd. destruct (received_ext db' (refile h (MkPartialRow (pt_length w) (pt_written w) true) b db)) as [? Hy];
      [done| |done|split; [done|apply Hy, HF; lia]]. simpl. by rewrite insert_id. }
  assert (forall db', (forall k, k <> h -> blobs (view db') !! k = blobs (view db) !! k) ->
    blob_grants (view db') = <[id := {[h]} ∪ default ∅ (blob_grants (view db) !! id)]> (blob_grants (view db)) ->
    (exists x, blobs (view db') !! h = Some x /\ bl_linked x = false) ->
    published db' h /\ (forall k, published db k -> published db' k)) as Hy.
  { intros db' Hk Hgr Hx'. unfold published. rewrite Hgr, lookup_insert_eq. simpl. split; [split; [done|set_solver]|].
    intros k [Hb1 Hb2]. split; [|set_solver]. destruct (decide (k = h)) as [->|]; [done|]. by rewrite Hk. }
  destruct (blobs (view db) !! h) as [x|] eqn:Hbl; [destruct (bl_linked x) eqn:Hlk|]; cbn [negb];
    try (destruct (bool_decide _));
    (eexists; split; [reflexivity|]; match goal with |- received ?d _ = _ /\ _ =>
       destruct (Hx d) as [Hx1 Hx2]; [reflexivity..|]; destruct (Hy d) as [Hy1 Hy2] end;
     [..|split_and!; [exact Hx1|exact Hx2|reflexivity|exact Hy1|exact Hy2]]); simpl; try reflexivity;
    try (intros; by rewrite lookup_insert_ne); try (rewrite lookup_insert_eq; eauto); eauto.
Qed.

(** Bounds of an inbox hold of the ones it continues. *)
Definition bounded_entry (h : BlobHash) (r : Received) : Prop :=
  cwf c_id h /\ zlen (rv_bytes r) <= rv_length r <= MAX_BLOB_BYTES.
Lemma stage_bounded D c D' : stage D c = Some D' -> map_Forall bounded_entry D' -> map_Forall bounded_entry D.
Proof.
  intros Hs Hb k r Hk. stage_cases Hs; (destruct (decide (k = hash)) as [->|Hne];
    [|apply Hb; by rewrite lookup_insert_ne]); specialize (Hb hash _ (lookup_insert_eq _ _ _)) as [Hid Hbd]; simplify_eq/=.
  - split; [done|]. rewrite zlen_app in Hbd. pose proof (zlen_nonneg data). lia.
  - by split.
Qed.
Lemma stage_all_bounded D l D' : stage_all D l = Some D' -> map_Forall bounded_entry D' -> map_Forall bounded_entry D.
Proof.
  revert D. induction l as [|c l IH]; intros D Hs Hb; simpl in Hs; [by injection Hs as ->|].
  apply bind_Some in Hs as (D1 & H1 & Hs). eauto using stage_bounded.
Qed.

(** The store applies a continuation of its inbox and lists what it commits. *)
Lemma apply_changes l db D' :
  all_filed db id -> (forall h, utf8_valid (received_path (blob_dir db) id h) = true) ->
  stage_all (received db id) l = Some D' -> map_Forall bounded_entry D' ->
  exists db', apply_blob_changes id l db = (Ok tt, db') /\ received db' id = D' /\ all_filed db' id /\
    (forall k, published db k \/ BlobCommit k ∈ l -> published db' k).
Proof.
  revert db. induction l as [|c l IH]; intros db Hf Hu Hs Hb; simpl in Hs.
  { injection Hs as <-. exists db. split_and!; try done. intros k [?|Hk]; [done|by apply not_elem_of_nil in Hk]. }
  apply bind_Some in Hs as (D1 & H1 & Hs). pose proof (stage_all_bounded _ _ _ Hs Hb) as Hb1.
  assert (exists db1, (match c with
      | BlobAppend hash length offset data => apply_blob_append id hash length offset data
      | BlobCommit hash => apply_blob_commit id hash end) db = (Ok tt, db1) /\ received db1 id = D1 /\ all_filed db1 id /\
      blob_dir db1 = blob_dir db /\ (forall k, published db k \/ c = BlobCommit k -> published db1 k)) as (db1 & Ha & Hr & Hf1 & Hd & Hp).
  { destruct c as [h len off data|h].
    - assert (cwf c_id h /\ off + zlen data <= len <= MAX_BLOB_BYTES) as (Hid & Hfit & Hl).
      { pose proof H1 as H1'. stage_cases H1'; destruct (Hb1 h _ (lookup_insert_eq _ _ _)) as [Hid Hbd]; simpl in Hbd;
          rewrite ?zlen_app in Hbd; split; [done|lia|done|lia]. }
      destruct (apply_append db h len off data D1 Hf Hid Hfit Hl H1) as (r & content & Ha & Hr & Hf1).
      exists (refile h r content db). split_and!; try done. by intros k [?|?].
    - destruct (apply_commit db h D1 Hf (Hu h) H1) as (db1 & Ha & Hr & Hf1 & Hd & Hp & Hk).
      exists db1. split_and!; try done. intros k [?|[= ->]]; auto. }
  destruct (IH db1 Hf1) as (db' & Ha' & Hr' & Hf' & Hp'); [by rewrite Hd|by rewrite Hr|done|].
  exists db'. split_and!; try done.
  - unfold apply_blob_changes. cbn [for_each]. unfold sbind. by rewrite Ha.
  - intros k [Hk|[Hk|Hk]%elem_of_cons]; apply Hp'; eauto.
Qed.
End Applying.

(** ** Published objects are what their names say *)

Lemma utf8_app a b : utf8_valid a = true -> utf8_valid b = true -> utf8_valid (a ++ b) = true.
Proof.
  induction a as [a IH] using (induction_ltof1 _ (@length Z)); unfold ltof in IH. intros Ha Hb.
  destruct a as [|b0 t0]; [done|]. cbn [utf8_valid app] in *.
  repeat match type of Ha with
         | context [if ?c then _ else _] => destruct c
         | context [match ?l with [] => _ | _ :: _ => _ end] => is_var l; destruct l
         end; try discriminate Ha; simpl app; cbv iota; rewrite ?andb_true_iff in Ha; destruct_and?;
    rewrite ?andb_true_iff; split_and?; try done; apply IH; (simpl; lia) || done.
Qed.
Lemma utf8_ascii l : Forall (fun b => 0 <= b <= 127) l -> utf8_valid l = true.
Proof. induction 1 as [|b l Hb _ IH]; [done|]. cbn [utf8_valid]. by replace ((0 <=? b) && (b <=? 127)) with true by lia. Qed.
Lemma utf8_hex h : utf8_valid (to_hex h) = true.
Proof.
  apply utf8_ascii. unfold to_hex. assert (octets (reverse (le_bytes 32 h))) as Ho by apply Forall_reverse, octets_le.
  induction Ho as [|b l Hb _ IH]; simpl; [done|].
  assert (0 <= b / 16 < 16) by (split; [apply Z.div_pos|apply Z.div_lt_upper_bound]; lia).
  pose proof (Z.mod_pos_bound b 16). repeat constructor; try done; unfold hex_digit; case_match; lia.
Qed.
Lemma utf8_path dir id h : utf8_valid dir = true -> utf8_valid (received_path dir id h) = true.
Proof. intros Hd. unfold received_path. repeat (apply utf8_app; [done || apply utf8_hex|]). apply utf8_hex. Qed.

Lemma stage_all_committed D l D' k :
  stage_all D l = Some D' -> BlobCommit k ∈ l \/ (exists r, D !! k = Some r /\ rv_committed r = true) ->
  exists r, D' !! k = Some r /\ rv_committed r = true.
Proof.
  revert D. induction l as [|c l IH]; intros D Hs Hc; simpl in Hs.
  { injection Hs as <-. destruct Hc as [Hc|Hc]; [by apply not_elem_of_nil in Hc|done]. }
  apply bind_Some in Hs as (D1 & H1 & Hs). apply (IH D1 Hs).
  destruct Hc as [[Hc|Hc]%elem_of_cons|(r & Hr & Hc)]; [|by left|].
  - right. subst c. stage_cases H1. rewrite lookup_insert_eq. eauto.
  - right. stage_cases H1; (destruct (decide (k = hash)) as [->|Hne]; [simplify_eq; congruence|]);
      rewrite lookup_insert_ne by done; eauto.
Qed.

Section Genuine.
Context `{Crypto, Blake3Hazmat, Rng}.
Context (fill_bytes : list bytes -> Z -> bytes) (fills : forall l n, octets (fill_bytes l n)).

(** Whatever a guest does with the attachments it is given, the store applies the
    blob changes its dispatch staged, and each object they commit is complete, granted
    to the execution and hashes to its name. *)
Lemma commits_genuine display db id out s e en sg vf att h caps l h' :
  all_filed db id -> sound (received db id) -> utf8_valid (blob_dir db) = true ->
  typed (dispatch_host out s e en sg vf (Some (store_view display db id)) att h) -> Forall act_typed l ->
  guest_run fill_bytes caps l (dispatch_host out s e en sg vf (Some (store_view display db id)) att h) = (Ok tt, h') ->
  exists db', apply_blob_changes id (staged_of h') db = (Ok tt, db') /\ all_filed db' id /\ sound (received db' id) /\
    forall k, BlobCommit k ∈ staged_of h' -> published id db' k /\
      exists r, received db' id !! k = Some r /\ zlen (rv_bytes r) = rv_length r /\ blake3 (rv_bytes r) = k.
Proof.
  intros Hf Hd Hu Ht Hl Hr. pose proof (store_viewing display db id Hf).
  destruct (staged_continue fill_bytes _ _ fills _ _ _ _ _ _ _ _ _ _ _ Ht Hl Hd Hr) as (D' & Hs & Hd').
  destruct (apply_changes id (staged_of h') db D') as (db' & Ha & Hrec & Hf' & Hp); try done.
  { intros k. by apply utf8_path. }
  { eapply map_Forall_impl; [exact Hd'|]. by intros k r []. }
  exists db'. rewrite Hrec. split_and!; try done. intros k Hk. split; [apply Hp; by right|].
  destruct (stage_all_committed _ _ _ k Hs ltac:(by left)) as (r & Hkr & Hc). exists r. split; [done|].
  by apply (so_hash _ _ (Hd' k r Hkr)).
Qed.
End Genuine.
