(* ===== verification/Trapping.v ===== *)
(** * A guest cannot panic its host

    Every import ends in a result or a trap.  The slice conversions, the fuel
    products, the subtree geometry and the [expect]s of the imports hold for any
    sequence of calls with any arguments, as long as the profile's rates fit and the
    dispatch installed its session. *)

From S2P Require Import Prelude Borsh Crypto Session Trace Evidence Validation Execution NoPanic Canonical Persist Randomness Signing.
From S2P Require Import Imports Emission Staging.

#[local] Open Scope Z_scope.

(** Rates that fit a 32-bit count in 64 bits, an installed session, and services that
    return. *)
Record sane (h : HostState) : Prop := {
  sn_hash : 0 <= hash_per_byte (fuel_config (profile h)) <= u32_max;
  sn_permutation : 0 <= permutation_per_item (fuel_config (profile h)) <= u32_max;
  sn_verify : 0 <= verify_fuel (fuel_config (profile h)) <= u64_max;
  sn_items : max_permutation_len (limits (profile h)) <= u32_max;
  sn_session : is_Some (scope_session (scope h));
  sn_signs : forall f c s p, signer (scope h) = Some f -> f c s p <> Panic;
  sn_verifies : forall f a b p, verifier (scope h) = Some f -> octets a ->
    f a b p <> Panic /\ forall r, f a b p = Ok r -> zlen r <= u32_max }.

Lemma sane_same h h' : same_call h h' -> sane h -> sane h'.
Proof.
  intros [_ _ _ Hpr Hs Hv _ _ _ _ Hen] [? ? ? ? ? Hsg Hvf]. split; rewrite ?Hpr, ?Hen; try done; intros *; rewrite ?Hs, ?Hv;
    [apply Hsg|apply Hvf].
Qed.

Section Trapping.
Context `{Crypto, Blake3Hazmat, Rng}.
Context (fill_bytes : list bytes -> Z -> bytes) (v : BlobView) (D : inbox) (att : option bytes).
Context (fills : forall l n, octets (fill_bytes l n)) `{!Viewing v D}.

Record running (h : HostState) : Prop := {
  ru_typed : typed h; ru_staging : staging v D h; ru_sane : sane h; ru_attached : attachment (scope h) = att }.

(** A step of an import: it returns or traps, and the call goes on. *)
Record calm {A} (m : M HostState Trap A) (P : A -> Prop) : Prop := {
  cl_still : still m;
  cl_keeps : keeps_staged m;
  cl_returns : forall h, running h -> (m h).1 <> Panic;
  cl_value : forall h a, running h -> (m h).1 = Ok a -> P a }.

Lemma running_calm {A} (m : M HostState Trap A) P h : calm m P -> running h -> running (m h).2.
Proof.
  intros [Hq Hk _ _] [Ht Hs Hn Ha]. destruct (Hq h Ht) as (Hsame & Ht' & _). split; [done| | |].
  - by apply staging_keeps.
  - by eapply sane_same; [apply Hsame|].
  - rewrite (sc_attachment _ _ (same_header _ _ Hsame)). done.
Qed.

Lemma returns_bind {A B} (m : M HostState Trap A) (f : A -> M HostState Trap B) P h :
  calm m P -> running h -> (forall a h', P a -> running h' -> (f a h').1 <> Panic) -> (sbind m f h).1 <> Panic.
Proof.
  intros Hm Hr Hf. pose proof (running_calm m P h Hm Hr) as Hr'.
  pose proof (cl_returns _ _ Hm h Hr) as Hn. pose proof (fun a => cl_value _ _ Hm h a Hr) as Hv. unfold sbind.
  destruct (m h) as [[a|e|] h']; simpl in *; [|done..]. auto.
Qed.
Lemma calm_quiet {A} (m : M HostState Trap A) P :
  quiet m P -> keeps_staged m -> (forall h, running h -> (m h).1 <> Panic) -> calm m P.
Proof.
  intros Hq Hk Hn. split; [by eapply quiet_mono|done|done|]. intros h a Hr Ha.
  destruct (Hq h (ru_typed _ Hr)) as (_ & _ & Hp). auto.
Qed.

Lemma calm_try {A} (r : result Trap A) : r <> Panic -> calm (host_try r) (fun a => r = Ok a).
Proof. intros Hr. apply calm_quiet; [apply still_try|done|done]. Qed.
Lemma calm_get {A} (f : HostState -> A) : calm (host_get f) (fun a => exists h, running h /\ a = f h).
Proof. split; [by eapply quiet_mono; [apply still_get|]|done|done|]. intros h a Hr [= <-]. eauto. Qed.
Lemma calm_sread {A} (g : HostState -> result Trap A) (P : A -> Prop) :
  (forall h, running h -> g h <> Panic /\ forall a, g h = Ok a -> P a) -> calm (sread g) P.
Proof. intros Hg. split; [by apply quiet_sread|done|..]; intros h; [|intros a]; intros Hr; by apply Hg. Qed.
Lemma calm_msg b what : calm (msg_if b what) (fun _ => b = false).
Proof. apply calm_quiet; [apply still_msg|done|]. intros h _. unfold msg_if, trap_if, host_try. simpl. by destruct b. Qed.
Lemma calm_trap_if b e : calm (trap_if b e) (fun _ => b = false).
Proof. apply calm_quiet; [apply still_trap_if|done|]. intros h _. unfold trap_if, host_try. simpl. by destruct b. Qed.

Lemma ledger_returns (m : M ResourceLedger Trap unit) h : (forall l, (m l).1 <> Panic) -> (on_ledger m h).1 <> Panic.
Proof. intros Hm. unfold on_ledger. specialize (Hm (ledger (scope h))). by destruct (m _). Qed.
Ltac ledger_op := apply ledger_returns; intros l; cbv [sbind smodify sread err_if]; repeat case_match; done.
Lemma calm_begin : calm begin_import (fun _ => True).
Proof.
  apply calm_quiet; [apply still_begin|apply keeps_begin|]. intros h _.
  change ((on_ledger (ledger_host_call (max_host_calls (limits (profile h)))) h).1 <> Panic). unfold ledger_host_call. ledger_op.
Qed.
Lemma calm_copy n : calm (copy_bytes n) (fun _ => True).
Proof.
  apply calm_quiet; [apply still_copy|apply keeps_copy|]. intros h _.
  change ((on_ledger (ledger_copy_bytes n (max_host_bytes (limits (profile h)))) h).1 <> Panic). unfold ledger_copy_bytes. ledger_op.
Qed.
Lemma calm_effect n a b : calm (on_ledger (ledger_effect n a b)) (fun _ => True).
Proof. apply calm_quiet; [apply still_ledger|apply keeps_staged_ledger|]. intros h _. unfold ledger_effect. ledger_op. Qed.
Lemma calm_logged n a b : calm (on_ledger (ledger_log n a b)) (fun _ => True).
Proof. apply calm_quiet; [apply still_ledger|apply keeps_staged_ledger|]. intros h _. unfold ledger_log. ledger_op. Qed.
Lemma calm_drawn n : calm (on_ledger (ledger_random n)) (fun _ => True).
Proof. apply calm_quiet; [apply still_ledger|apply keeps_staged_ledger|]. intros h _. unfold ledger_random. ledger_op. Qed.

Lemma calm_reject : calm reject_read_only (fun _ => True).
Proof. apply calm_quiet; [apply still_reject|done|]. intros h _. unfold reject_read_only. simpl. by destruct (negb _). Qed.
Lemma calm_local : calm require_local (fun _ => True).
Proof.
  apply calm_quiet; [apply still_local|unfold require_local, reject_read_only; keeps|]. intros h Hr. unfold require_local.
  eapply returns_bind; [apply calm_reject|done|]. intros _ h' _ _. simpl. by destruct (negb _).
Qed.
Lemma calm_work : calm work_memory octets.
Proof. apply calm_quiet; [apply quiet_work|done|]. intros h _. unfold work_memory. simpl. apply ok_or_noPanic. Qed.
Lemma calm_view : calm get_view (fun w => w = v).
Proof.
  apply calm_sread. intros h Hr. split; [apply ok_or_noPanic|]. intros w Hw. apply ok_or_Ok in Hw.
  destruct (ru_staging _ Hr) as [Hv _]. auto.
Qed.

(** *** Memory *)

Lemma read_value ptr len h b : 0 <= ptr -> 0 <= len -> (read_guest_bytes ptr len h).1 = Ok b -> zlen b = len.
Proof.
  intros Hp Hl Hb. destruct (read_guest_bytes ptr len h) as [r h'] eqn:Hr. simpl in Hb. subst r.
  unfold read_guest_bytes in Hr. apply sbind_Ok in Hr as (u & h1 & _ & Hr). apply sbind_Ok in Hr as (data & h2 & _ & Hr).
  apply sbind_Ok in Hr as (u' & h3 & Hm & Hr). injection Hr as <- _. unfold msg_if, trap_if, host_try in Hm.
  apply sread_Ok in Hm as [Hm _]. inv_ok. unfold zlen in *. rewrite length_take, length_drop. lia.
Qed.
Lemma calm_read ptr len : 0 <= ptr -> 0 <= len -> calm (read_guest_bytes ptr len) (fun b => zlen b = len).
Proof.
  intros Hp Hl. split; [by eapply quiet_mono; [apply quiet_read|]|apply keeps_read| |].
  - intros h Hr. unfold read_guest_bytes. eapply returns_bind; [apply calm_copy|done|]. intros _ h1 _ Hr1.
    eapply returns_bind; [apply calm_work|done|]. intros data h2 _ Hr2. by eapply returns_bind; [apply calm_msg|done|].
  - intros h b _. by apply read_value.
Qed.
Lemma calm_octets ptr len : 0 <= ptr -> 0 <= len -> calm (read_guest_bytes ptr len) octets.
Proof.
  intros Hp Hl. destruct (calm_read ptr len Hp Hl) as [Hs Hk Hr _]. split; [done..|].
  intros h b Hrun. by apply quiet_read, Hrun.
Qed.
Lemma array_of_32 b : zlen b = 32 -> exists z, array_of 32 b = Some z.
Proof. intros Hb. unfold array_of. replace (length b) with 32%nat by (unfold zlen in Hb; lia). by eexists. Qed.
Lemma calm_array ptr : 0 <= ptr -> calm (read_array ptr) (cwf c_id).
Proof.
  intros Hp. apply calm_quiet; [apply quiet_array|unfold read_array, host_try; apply keeps_staged_bind; [apply keeps_read|intros; keeps]|].
  intros h Hr. unfold read_array. eapply returns_bind; [apply calm_read; lia|done|]. intros b h' Hb _.
  destruct (array_of_32 b Hb) as [z Hz]. simpl. by rewrite Hz.
Qed.
Lemma write_returns ptr b h : running h -> (write_guest ptr b h).1 <> Panic.
Proof.
  intros Hr. unfold write_guest. eapply returns_bind; [apply calm_work|done|]. intros data h1 _ Hr1.
  by eapply returns_bind; [apply calm_msg|done|].
Qed.

Lemma calm_charge n r : (forall h, running h -> n * r (fuel_config (profile h)) <= u64_max) ->
  calm (charge_each n r) (fun _ => True).
Proof.
  intros Hr. apply calm_quiet; [apply still_charge_each|apply keeps_charge|]. intros h Hh. unfold charge_each.
  eapply returns_bind; [apply calm_get|done|]. intros rate h1 (h0 & Hh0 & ->) Hr1. specialize (Hr h0 Hh0).
  unfold checked_mul. rewrite (proj2 (Z.leb_le _ _)) by done.
  eapply returns_bind; [by apply calm_try|done|]. intros k h2 _ Hr2. unfold charge_fuel.
  eapply returns_bind; [apply calm_get|done|]. intros have h3 _ Hr3. by eapply returns_bind; [apply calm_trap_if|done|].
Qed.
Lemma calm_hashing n : 0 <= n <= u32_max -> calm (charge_each n hash_per_byte) (fun _ => True).
Proof. intros Hn. apply calm_charge. intros h []. pose proof (sn_hash _ ru_sane0). unfold u32_max, u64_max in *. nia. Qed.

Lemma returns_then {A B} (m : M HostState Trap A) (b : B) h : (m h).1 <> Panic -> ((m ;;! sret b) h).1 <> Panic.
Proof. unfold sbind. by destruct (m h) as [[] ?]. Qed.

(** ** Each import *)

Tactic Notation "step" uconstr(P) :=
  eapply returns_bind; [apply P; try done; try lia|done|intros ? ? ? ?; cbv beta in *].

Lemma hash_returns a b o h : 0 <= a -> 0 <= b <= u32_max -> running h -> (import_hash a b o h).1 <> Panic.
Proof.
  intros Ha Hb Hr. unfold import_hash. step calm_begin. step calm_read. step calm_hashing. step calm_copy.
  by apply write_returns.
Qed.
Lemma calm_taken b : zlen b = 32 -> calm (host_try (expect (array_of 32 b))) (fun _ => True).
Proof. intros Hb. destruct (array_of_32 b Hb) as [z Hz]. rewrite Hz. apply calm_quiet; [by eapply quiet_mono; [apply still_try|]|done|done]. Qed.
Lemma merge_cv_returns a b r o h : 0 <= a -> 0 <= b -> running h -> (import_merge_cv a b r o h).1 <> Panic.
Proof.
  intros Ha Hb Hr. unfold import_merge_cv. step calm_begin. step calm_read. step calm_read. step calm_hashing. step calm_copy.
  step calm_taken. step calm_taken. by apply write_returns.
Qed.

Lemma calm_write ptr b : octets b -> calm (write_guest ptr b) (fun _ => True).
Proof. intros Hb. apply calm_quiet; [by apply still_write|apply keeps_write|]. intros h. apply write_returns. Qed.
Lemma items_return o l h : running h -> (write_items_at o l h).1 <> Panic.
Proof.
  revert o h. induction l as [|x l IH]; intros o h Hr; cbn [write_items_at]; [done|].
  eapply returns_bind; [apply calm_write, octets_le|done|]. intros. by apply IH.
Qed.
Lemma permutation_returns {E} seed n : permutation (E:=E) seed n <> Panic.
Proof.
  unfold permutation. destruct n as [|n]; [done|].
  destruct (pass_perm (E:=E) n seed 0 (seq 0 (S n))) as (r & Hp & _); [left; rewrite length_seq; lia|].
  by rewrite Nat.sub_succ, Nat.sub_0_r, Hp.
Qed.
Lemma permutation_import_returns a n o h : 0 <= a -> 0 <= n -> running h -> (import_permutation a n o h).1 <> Panic.
Proof.
  intros Ha Hn Hr. unfold import_permutation. step calm_begin.
  eapply returns_bind; [apply calm_get|done|]. intros max h1 (h0 & Hh0 & ->) Hr1. step calm_msg. step calm_read. step calm_copy.
  assert (n <= u32_max) as Hm by (pose proof (sn_items _ (ru_sane _ Hh0)); lia).
  eapply returns_bind; [apply calm_charge|done|intros ? ? ? ?].
  { intros hx []. pose proof (sn_permutation _ ru_sane0). unfold u32_max, u64_max in *. nia. }
  step calm_taken. eapply returns_bind; [apply calm_try, permutation_returns|done|intros ? ? ? ?].
  eapply returns_bind; [apply calm_try, ok_or_noPanic|done|intros ? ? ? ?]. step calm_work. by apply items_return.
Qed.

Lemma calm_verifier : calm (sread (fun h => ok_or (verifier (scope h)) (TrapMsg "verify is only available in dispatches")))
  (fun f => forall a b p, octets a -> f a b p <> Panic /\ forall r, f a b p = Ok r -> zlen r <= u32_max).
Proof.
  apply calm_sread. intros h [Ht _ Hs _]. split; [apply ok_or_noPanic|]. intros f Hf. apply ok_or_Ok in Hf.
  intros a b p Ha. by eapply sn_verifies.
Qed.
Lemma encode_verified_returns r : r <> Panic /\ (forall p, r = Ok p -> zlen p <= u32_max) -> encode_verified r <> Panic.
Proof.
  intros [Hr Hl]. destruct r as [p|e|]; [|by destruct e|done]. specialize (Hl p eq_refl). unfold encode_verified.
  rewrite (proj2 (write_bytes_Ok u32_max p _) (conj Hl (conj Hl eq_refl))). done.
Qed.
Lemma verify_returns a b c d e o k h : 0 <= a -> 0 <= b -> 0 <= c -> 0 <= d -> 0 <= e -> running h ->
  (import_verify a b c d e o k h).1 <> Panic.
Proof.
  intros Ha Hb Hc Hd He Hr. unfold import_verify. step calm_begin.
  eapply returns_bind; [apply calm_verifier|done|]. intros f h1 Hf Hr1.
  eapply returns_bind; [apply calm_charge|done|intros ? ? ? ?].
  { intros hx []. pose proof (sn_verify _ ru_sane0). lia. }
  eapply returns_bind; [by apply calm_octets|done|]. intros signed h2 Hs Hr2. step calm_read. step calm_array.
  eapply returns_bind; [by apply calm_try, encode_verified_returns, Hf|done|intros ? ? ? ?].
  step calm_msg. step calm_copy. by apply returns_then, write_returns.
Qed.

Lemma calm_reject_io : calm reject_state_io (fun _ => True).
Proof. apply calm_quiet; [apply still_reject_io|done|]. intros h _. unfold reject_state_io. simpl. by destruct (negb _). Qed.
Lemma calm_state k : calm (state_memory k) octets.
Proof.
  apply calm_quiet; [apply quiet_state_memory|unfold state_memory, state_kind, msg_if, trap_if, host_try; keeps|].
  intros h Hr. unfold state_memory, state_kind. step calm_msg. apply ok_or_noPanic.
Qed.
Lemma calm_max k : calm (state_payload_max k) (fun _ => True).
Proof.
  apply calm_quiet; [apply still_payload_max|unfold state_payload_max, state_kind, msg_if, trap_if, host_try, host_get; keeps|].
  intros h Hr. unfold state_payload_max, state_kind. by step calm_msg.
Qed.
Lemma calm_frame_len f m : calm (host_try (map_err FrameError (state_frame_len f m))) (fun _ => True).
Proof.
  apply calm_quiet; [by eapply quiet_mono; [apply still_try|]|done|]. intros h _. apply map_err_noPanic.
  unfold state_frame_len. repeat case_match; done.
Qed.
Lemma state_len_returns k h : running h -> (import_state_len k h).1 <> Panic.
Proof.
  intros Hr. unfold import_state_len. step calm_begin. step calm_reject_io. step calm_state. step calm_max.
  by apply (cl_returns _ _ (calm_frame_len _ _)).
Qed.
Lemma state_read_returns k d l h : running h -> (import_state_read k d l h).1 <> Panic.
Proof.
  intros Hr. unfold import_state_read. step calm_begin. step calm_reject_io. step calm_state. step calm_max.
  step calm_frame_len. step calm_msg. step calm_work. step calm_msg. step calm_copy. by apply write_returns.
Qed.
Lemma state_write_returns k s l h : running h -> (import_state_write k s l h).1 <> Panic.
Proof.
  intros Hr. unfold import_state_write. step calm_begin. step calm_reject_io. step calm_work. step calm_msg.
  step calm_state. step calm_max. step calm_msg. step calm_frame_len. step calm_msg. step calm_copy.
  eapply returns_bind; [apply calm_try, map_err_noPanic|done|done]. unfold write_state_frame. repeat case_match; done.
Qed.
Lemma log_returns v' p l h : 0 <= p -> 0 <= l -> running h -> (import_log v' p l h).1 <> Panic.
Proof.
  intros Hp Hl Hr. unfold import_log. step calm_begin. step calm_reject. step calm_read. step calm_get.
  eapply returns_bind; [apply calm_logged|done|intros ? ? ? ?]. by step calm_msg.
Qed.
Lemma random_returns p l h : running h -> (import_random fill_bytes p l h).1 <> Panic.
Proof.
  intros Hr. unfold import_random. step calm_begin. step calm_reject. step calm_get. step calm_msg. step calm_copy.
  eapply returns_bind; [apply calm_drawn|done|intros ? ? ? ?]. step calm_work. step calm_msg. by step calm_get.
Qed.

Lemma record_returns e h : running h -> (record_effect e h).1 <> Panic.
Proof.
  intros Hr. unfold record_effect. step calm_reject. step calm_get. step calm_msg. step calm_get.
  eapply (returns_bind _ _ (fun _ => True)); [|done|intros ? ? _ ?].
  { apply calm_quiet; [..|intros hx Hrx].
    - destruct (is_lifecycle e); [|by eapply quiet_mono; [apply still_msg|]].
      do 2 (eapply quiet_bind; [apply still_msg|intros ? ?]). by eapply quiet_mono; [apply still_msg|].
    - unfold msg_if, trap_if, host_try. keeps.
    - destruct (is_lifecycle e); [|by apply (cl_returns _ _ (calm_msg _ _))]. step calm_msg. step calm_msg.
      by apply (cl_returns _ _ (calm_msg _ _)). }
  eapply returns_bind; [apply calm_try, map_err_noPanic, check_effect_budget_safe|done|intros ? ? ? ?].
  eapply returns_bind; [apply calm_try, map_err_noPanic, quiet_effect|done|intros ? ? ? ?]. step calm_get.
  by eapply returns_bind; [apply calm_effect|done|].
Qed.
Lemma fail_returns p l h : 0 <= p -> 0 <= l -> running h -> (import_fail p l h).1 <> Panic.
Proof. intros Hp Hl Hr. unfold import_fail. step calm_begin. step calm_reject. step calm_read. by apply record_returns. Qed.
Lemma end_returns p l h : 0 <= p -> 0 <= l -> running h -> (import_end_session p l h).1 <> Panic.
Proof. intros Hp Hl Hr. unfold import_end_session. step calm_begin. step calm_reject. step calm_read. by apply record_returns. Qed.
Lemma abort_returns p l h : 0 <= p -> 0 <= l -> running h -> (import_abort_session p l h).1 <> Panic.
Proof. intros Hp Hl Hr. unfold import_abort_session. step calm_begin. step calm_reject. step calm_read. by apply record_returns. Qed.
Lemma broadcast_returns p l h : 0 <= p -> 0 <= l -> running h -> (import_broadcast p l h).1 <> Panic.
Proof.
  intros Hp Hl Hr. unfold import_broadcast. step calm_begin. step calm_reject. step calm_get.
  match goal with |- ((if ?c then _ else _) _).1 <> _ => destruct c; [done|] end. step calm_read.
  by apply returns_then, record_returns.
Qed.
Lemma timer_returns d a b c e h : 0 <= a -> 0 <= b -> 0 <= c -> 0 <= e -> running h -> (import_set_timer d a b c e h).1 <> Panic.
Proof.
  intros Ha Hb Hc He Hr. unfold import_set_timer. step calm_begin. step calm_reject. step calm_read. step calm_msg. step calm_read.
  by apply record_returns.
Qed.

Lemma calm_viewed {A} (r : result string A) : r <> Panic -> calm (host_try (view_err r)) (fun a => r = Ok a).
Proof.
  intros Hr. apply calm_quiet; [|done|intros; by apply map_err_noPanic].
  eapply quiet_mono; [apply still_try|]. intros a Ha. by apply map_err_Ok in Ha.
Qed.
Lemma calm_session : calm (sread (fun h => expect (scope_session (scope h)))) (fun _ => True).
Proof. apply calm_sread. intros h [_ _ Hs _]. destruct (sn_session _ Hs) as [e He]. by rewrite He. Qed.
Lemma range_returns p l h : 0 <= p -> 0 <= l -> running h -> (read_range p l h).1 <> Panic.
Proof.
  intros Hp Hl Hr. unfold read_range. destruct (l =? 0); [done|]. step calm_read.
  eapply returns_bind; [apply calm_try, map_err_noPanic|done|intros ? ? ? ?].
  { unfold from_slice, c_range, c_id. cbn. unfold read_arr, read_uint, read_exact.
    repeat first [done | apply rbind_noPanic; [|intros] | case_match]. }
  eapply returns_bind; [apply calm_view|done|]. intros w h2 -> Hr2.
  eapply returns_bind; [apply calm_viewed, (vw_calm (v:=v) (D:=D) _ 0 0 [])|done|intros ? ? ? ?].
  eapply returns_bind; [apply calm_try, ok_or_noPanic|done|intros ? ? ? ?]. by step calm_msg.
Qed.
Lemma calm_range p l : 0 <= p -> 0 <= l -> calm (read_range p l) (fun _ => True).
Proof.
  intros Hp Hl. apply calm_quiet; [by eapply quiet_mono; [apply quiet_range|]| |intros; by apply range_returns].
  unfold read_range, get_view, msg_if, trap_if, host_try. destruct (l =? 0); [keeps|].
  apply keeps_staged_bind; [apply keeps_read|intros; keeps].
Qed.
Lemma send_returns a b c d e h : 0 <= a -> 0 <= b -> 0 <= c -> 0 <= d -> 0 <= e -> running h ->
  (import_send_direct a b c d e h).1 <> Panic.
Proof.
  intros Ha Hb Hc Hd He Hr. unfold import_send_direct. step calm_begin. step calm_local. step calm_array. step calm_session.
  step calm_get. step calm_msg. step calm_msg. step calm_range. step calm_get.
  match goal with |- ((if ?c then _ else _) _).1 <> _ => destruct c; [done|] end. step calm_read.
  by apply returns_then, record_returns.
Qed.

Lemma calm_signer : calm (sread (fun h => ok_or (signer (scope h)) (TrapMsg "sign is only available in local handlers")))
  (fun f => forall c s p, f c s p <> Panic).
Proof.
  apply calm_sread. intros h [_ _ Hs _]. split; [apply ok_or_noPanic|]. intros f Hf c s p. apply ok_or_Ok in Hf. by eapply sn_signs.
Qed.
Lemma sign_returns al s p l o k h : 0 <= p -> 0 <= l -> running h -> (import_sign al s p l o k h).1 <> Panic.
Proof.
  intros Hp Hl Hr. unfold import_sign. step calm_begin. step calm_reject.
  eapply returns_bind; [apply calm_try, map_err_noPanic|done|intros ? ? ? ?]; [unfold scheme_from_tag; repeat case_match; done|].
  step calm_msg. step calm_read. eapply returns_bind; [apply calm_signer|done|]. intros f h1 Hf Hr1. step calm_get.
  eapply (returns_bind _ _ (fun _ => True)); [|done|intros ? ? ? ?].
  { apply calm_quiet; [by apply still_on_scope|by apply keeps_staged_smodify|done]. }
  eapply returns_bind; [apply calm_viewed, Hf|done|]. intros [x y] h2 _ Hr2.
  eapply returns_bind; [apply calm_try, map_err_noPanic|done|intros ? ? ? ?].
  { unfold wcat, write_bytes, wcat, write_len, write_uint. repeat first [done | apply rbind_noPanic; [|intros] | case_match]. }
  step calm_msg. step calm_copy. by apply returns_then, write_returns.
Qed.

(** *** Blobs *)

Lemma calm_receive hash : calm (receive_state hash) (fun r => forall len, rc_length r = Some len -> len <= MAX_BLOB_BYTES).
Proof.
  split; [apply still_receive|apply keeps_receive|..].
  - intros h Hr. unfold receive_state. eapply returns_bind; [apply calm_view|done|]. intros w h2 -> Hr2.
    by eapply returns_bind; [apply calm_viewed, (vw_calm (v:=v) (D:=D) _ 0 0 [])|done|].
  - intros h r Hr Ha len Hlen. destruct (receive_state hash h) as [x h'] eqn:Hx. simpl in Ha. subst x.
    pose proof (ru_staging _ Hr) as Hst. pose proof Hst as [_ (D' & Hs & Hd)].
    destruct (receive_shown v D hash h r h' D' Hst Hs Hx) as [_ ->]. destruct (D' !! hash) as [y|] eqn:Hy; [|done].
    simpl in Hlen. injection Hlen as <-. by destruct (so_bound _ _ (Hd _ _ Hy)).
Qed.
Lemma append_returns hash length t h : running h -> (blob_append hash length t h).1 <> Panic.
Proof.
  intros Hr. unfold blob_append. destruct (_ <? length); [done|]. step calm_get. destruct a as [data|]; [|done].
  eapply returns_bind; [apply calm_receive|done|intros ? ? ? ?].
  match goal with |- ((if ?c then _ else _) _).1 <> _ => destruct c; [done|] end. by step calm_copy.
Qed.
Lemma commit_returns hash h : running h -> (blob_commit hash h).1 <> Panic.
Proof.
  intros Hr. unfold blob_commit. eapply returns_bind; [apply calm_receive|done|]. intros r h1 Hlen Hr1.
  destruct (rc_length r) as [len|] eqn:He; [|done]. specialize (Hlen len He).
  do 2 (match goal with |- ((if ?c then _ else _) _).1 <> _ => destruct c; [done|] end).
  eapply returns_bind; [apply calm_charge|done|intros ? ? ? ?].
  { intros hx []. pose proof (sn_hash _ ru_sane0). unfold MAX_BLOB_BYTES, u32_max, u64_max in *. nia. }
  step calm_get. eapply (returns_bind _ _ (fun _ => True)); [|done|intros ? ? _ ?].
  { apply calm_quiet; [..|intros hx Hrx].
    - destruct (rc_durable r); [|by apply quiet_sret]. eapply quiet_bind; [apply still_view|intros ? ?].
      by eapply quiet_mono; [apply still_try|].
    - unfold get_view, host_try. keeps.
    - destruct (rc_durable r); [|done]. eapply returns_bind; [apply calm_view|done|]. intros w h2 -> Hr2.
      by apply (cl_returns _ _ (calm_viewed _ (proj1 (proj2 (vw_calm (v:=v) (D:=D) _ 0 0 _))))). }
  by destruct (negb _).
Qed.

(** The geometry check covers the bytes that are hashed: [subtree_cv] does not panic. *)
Lemma cv_returns src off h : running h -> (cv_of src off h).1 <> Panic.
Proof.
  intros Hr. unfold cv_of. eapply returns_bind; [apply calm_view|done|]. intros w h1 -> Hr1.
  assert (calm (source_len v src) (fun r => match r with inr len => 0 <= len <= u32_max /\
    match src with CvBlob _ a b => len = b - a /\ a <= b | CvAttachment _ => exists x, att = Some x /\ zlen x = len end | inl _ => True end)) as Hc.
  { split; [apply still_source_len|unfold source_len, host_try, host_get; keeps|..].
    - intros hx Hrx. unfold source_len. destruct src as [hash a b|t].
      + destruct (_ || _); [done|]. eapply returns_bind; [apply calm_viewed, (vw_calm (v:=v) (D:=D) _ 0 0 [])|done|].
        intros g h2 _ _. by destruct g.
      + step calm_get. by destruct a.
    - intros hx r Hrx Hx. unfold source_len in Hx. destruct src as [hash a b|t].
      + destruct (_ || _) eqn:Hg; [by injection Hx as <-|]. apply orb_false_iff in Hg as [Hg1 Hg2].
        unfold host_try in Hx. cbv [sbind sread] in Hx. destruct (view_err _) as [[l|]| |]; [|by injection Hx as <-|done..].
        injection Hx as <-. destruct (l <? b); [done|]. unfold MAX_DIRECT_RANGE_BYTES, u32_max in *. lia.
      + unfold host_get in Hx. cbv [sbind sread] in Hx. destruct (attached t (scope hx)) as [x|] eqn:Ha; [|by injection Hx as <-].
        injection Hx as <-. destruct (Z.ltb_spec MAX_DIRECT_RANGE_BYTES (zlen x)) as [|Hl]; [done|].
        pose proof (zlen_nonneg x). split; [unfold MAX_DIRECT_RANGE_BYTES, u32_max in *; lia|]. exists x. split; [|done].
        unfold attached in Ha. rewrite (ru_attached _ Hrx) in Ha. destruct att as [y|]; [|done]. by destruct (_ && _). }
  eapply returns_bind; [exact Hc|done|]. intros r h2 Hlen Hr2. cbv beta in Hlen. destruct r as [e|len]; [done|].
  destruct Hlen as [Hrange Hsrc]. destruct (is_subtree off len) eqn:Hsub; [|done]. cbn [negb].
  step calm_hashing. step calm_copy.
  assert (calm (source_bytes v src) (fun o => forall x, o = Some x -> zlen x = len)) as Hb.
  { split; [apply still_source_bytes|unfold source_bytes, host_try; keeps|..].
    - intros hx Hrx. unfold source_bytes. destruct src as [hash x y|t].
      + by apply (cl_returns _ _ (calm_viewed _ (proj2 (proj2 (proj2 (vw_calm (v:=v) (D:=D) hash x y [])))))).
      + destruct Hsrc as (x & Hx & _). cbv [sbind sread sret]. rewrite (ru_attached _ Hrx), Hx. done.
    - intros hx o Hrx Ho x ->. unfold source_bytes in Ho. destruct src as [hash p q|t].
      + apply map_err_Ok in Ho. destruct Hsrc as [-> Hab]. by eapply vw_range.
      + destruct Hsrc as (y & Hy & Hl). cbv [sbind sread sret] in Ho. rewrite (ru_attached _ Hrx), Hy in Ho. simpl in Ho.
        by injection Ho as <-. }
  eapply returns_bind; [exact Hb|done|]. intros [b|] h5 Hbl Hr5; [|done]. specialize (Hbl b eq_refl).
  eapply returns_bind; [apply calm_try|done|done]. unfold subtree_cv. by rewrite Hbl, Hsub.
Qed.
Lemma subtree_returns p l f o h : 0 <= p -> 0 <= l -> running h -> (import_subtree_cv p l f o h).1 <> Panic.
Proof.
  intros Hp Hl Hr. unfold import_subtree_cv. step calm_begin. step calm_local. step calm_msg. step calm_read.
  eapply returns_bind; [apply calm_try, map_err_noPanic|done|].
  { unfold read_cv_source, c_range, c_id. cbn. unfold read_arr, read_uint, read_exact.
    repeat first [done | apply rbind_noPanic; [|intros] | case_match]. }
  intros [src rest] h1 _ Hr1. step calm_trap_if.
  eapply (returns_bind _ _ (fun _ => True)); [|done|].
  { apply calm_quiet; [apply still_cv_of|unfold cv_of, source_len, source_bytes, get_view, host_try, host_get|intros; by apply cv_returns].
    repeat first [apply keeps_charge | apply keeps_copy | keeps_step]. }
  intros [e|cv] h2 _ Hr2; [done|]. by apply returns_then, write_returns.
Qed.

(** ** Any run *)

(** The [u32] arguments of a call. *)
Definition words (c : ImportCall) : list Z :=
  match c with
  | CHash a b c => [a; b; c]
  | CMergeCv a b c d => [a; b; c; d]
  | CPermutation a b c => [a; b; c]
  | CVerify a b c d e f g => [a; b; c; d; e; f; g]
  | CStateLen a => [a]
  | CStateRead a b c | CStateWrite a b c | CLog a b c => [a; b; c]
  | CRandom a b | CFail a b | CEndSession a b | CAbortSession a b | CBroadcast a b => [a; b]
  | CSendDirect a b c d e => [a; b; c; d; e]
  | CSetTimer _ b c d e => [b; c; d; e]
  | CSign a b c d e => [a; b; c; d; e]
  | CBlobAppend a _ c => [a; c]
  | CBlobCommit a => [a]
  | CSubtreeCv a b _ d => [a; b; d]
  end.
Definition act_words (a : GuestAct) : Prop :=
  act_typed a /\ match a with Calls c => Forall (fun x => 0 <= x <= u32_max) (words c) | Computes _ _ _ _ => True end.

Lemma named_returns ptr (f : BlobHash -> M HostState Trap Z) h : 0 <= ptr -> running h ->
  (forall hash h', running h' -> (f hash h').1 <> Panic) ->
  ((begin_import ;;! require_local ;;! (let! hash := read_array ptr in f hash)) h).1 <> Panic.
Proof. intros Hp Hr Hf. step calm_begin. step calm_local. step calm_array. by apply Hf. Qed.

Lemma call_returns caps c h : Forall (fun x => 0 <= x <= u32_max) (words c) -> running h ->
  (call_import fill_bytes caps c h).1 <> Panic.
Proof.
  intros Hw Hr. unfold call_import. destruct (negb (linked caps c)); [done|].
  destruct c; simpl in Hw; rewrite ?Forall_cons in Hw; destruct_and?; unfold returns_unit; try apply returns_then.
  - apply hash_returns; lia || done.
  - apply merge_cv_returns; lia || done.
  - apply permutation_import_returns; lia || done.
  - apply verify_returns; lia || done.
  - by apply state_len_returns.
  - by apply state_read_returns.
  - by apply state_write_returns.
  - apply log_returns; lia || done.
  - by apply random_returns.
  - apply fail_returns; lia || done.
  - apply end_returns; lia || done.
  - apply abort_returns; lia || done.
  - apply send_returns; lia || done.
  - apply broadcast_returns; lia || done.
  - apply timer_returns; lia || done.
  - apply sign_returns; lia || done.
  - apply named_returns; [lia|done|]. intros. by apply append_returns.
  - apply named_returns; [lia|done|]. intros. by apply commit_returns.
  - apply subtree_returns; lia || done.
Qed.

Lemma act_returns caps a h : act_words a -> running h -> (act fill_bytes caps a h).1 <> Panic.
Proof.
  intros [_ Hw] Hr. destruct a as [w s l n|c]; cbn [act]; [|by apply returns_then, call_returns].
  unfold charge_fuel, host_get, trap_if, host_try, err_if. cbv [sbind smodify sread]. cbn beta iota.
  by destruct (fuel h <? n).
Qed.
Lemma running_act caps a h : act_words a -> emitted h -> running h -> running (act fill_bytes caps a h).2.
Proof.
  intros [Ha _] He [Ht Hs Hn Hatt]. destruct (emitting_act fill_bytes fills caps a h Ha Ht He) as (Hsame & Ht' & _).
  split; [done|by apply staging_act|by eapply sane_same|]. by rewrite (sc_attachment _ _ Hsame).
Qed.

Lemma run_returns caps l h : Forall act_words l -> emitted h -> running h -> (guest_run fill_bytes caps l h).1 <> Panic.
Proof.
  revert h. induction l as [|a l IH]; intros h Hl He Hr; [done|]. apply Forall_cons in Hl as [Ha Hl]. cbn [guest_run].
  pose proof (act_returns caps a h Ha Hr) as Hp. pose proof (running_act caps a h Ha He Hr) as Hr'.
  destruct (emitting_act fill_bytes fills caps a h (proj1 Ha) (ru_typed _ Hr) He) as (_ & _ & He').
  unfold sbind. destruct (act fill_bytes caps a h) as [[u|e|] h']; [|done..]. by apply IH.
Qed.

(** No sequence of computations and import calls with any 32-bit arguments makes
    the host panic: a call of the guest returns or traps. *)
Lemma run_cannot_panic out s e en sg vf view h caps l :
  (forall w, view = Some w -> w = v) ->
  typed (dispatch_host out s e en sg vf view att h) -> sane (dispatch_host out s e en sg vf view att h) -> sound D ->
  Forall act_words l -> (guest_run fill_bytes caps l (dispatch_host out s e en sg vf view att h)).1 <> Panic.
Proof.
  intros Hv Ht Hn Hd Hl. apply run_returns; [done|by apply emitted_fresh|]. split; [done| |done|done].
  split; [done|]. by exists D.
Qed.
End Trapping.
