(* ===== verification/Hosts.v ===== *)
(** * The host of a guest's call (node/src/execution/guest.rs)

    The signer, the verifier and the blob view the execution actor installs for a
    call, and what follows for every call it makes: the aggregate admits the effects,
    the store applies the blob changes, and the host does not panic. *)

From S2P Require Import Prelude Borsh Crypto Session Trace Evidence Validation Execution Canonical Envelope ChangeLog Database Persist.
From S2P Require Import Randomness Signing Imports Emission.
From S2P Require Import Negotiation Invariant NoPanic Book Gossip Resident Actor Staging Trapping.

#[local] Open Scope Z_scope.

Section Hosts.
Context `{Crypto, Blake3Hazmat, Rng, LocalKeys}.
Context (ctx : ActorContext).
(** How the errors of the protocol and of the store print. *)
Context (show : ProtocolError -> string) (display : StoreError -> string).

(** [DispatchSigner] and [DispatchVerifier]. *)
Definition node_signer (position call : Z) (scheme : SignScheme) (payload : bytes) : result string (bytes * bytes) :=
  map_err show (dispatch_sign (act_session_hash (ctx_activation ctx)) (ctx_program ctx) (ctx_exec ctx) position call
                  scheme payload).
Definition node_verifier (b : ExecutionBinding) (signed signature : bytes) (signer : PeerId) : result VerifyError bytes :=
  guest_verify signed signature signer b.

(** The call's services: blobs and the signer are a local handler's. *)
Definition call_host (b : ExecutionBinding) (db : Database) (c : DispatchCall) (h : HostState) : HostState :=
  install (node_signer <$> dc_signer c) (Some (node_verifier b))
    (if is_local_handler (dc_event c) then Some (store_view display db (ctx_exec ctx)) else None)
    (dc_attachment c) (dc_direct_queued c) (dc_peer c) (dc_session c)
    (reset_for_dispatch (dispatch_kind (dc_event c)) (dc_outgoing_len c) h).

(** ** The services *)

Lemma octets_cat w1 w2 bs : (w1 +++ w2) = Ok bs ->
  (forall b, w1 = Ok b -> octets b) -> (forall b, w2 = Ok b -> octets b) -> octets bs.
Proof. intros (b1 & b2 & Hw1 & Hw2 & ->)%wcat_Ok Ha Hb. apply octets_app. auto. Qed.

Lemma guest_signing_octets g bs :
  octets (gs_domain g) -> octets (gs_payload g) -> guest_signing_bytes g = Ok bs -> octets bs.
Proof.
  intros Hd Hp Hb. apply map_err_Ok in Hb. unfold to_vec, c_guest_sign_raw in Hb. cbn [enc c_iso c_pair c_raw c_refine] in Hb.
  unfold c_u16, c_u64, c_u32, c_id, c_scheme, c_u8 in Hb. cbn in Hb.
  repeat (eapply octets_cat; [exact Hb|..]; clear Hb; intros ? Hb).
  all: try (unfold write_uint in Hb; injection Hb as <-; done || apply octets_le || apply octets_be).
  apply write_len_Ok in Hb as (_ & _ & ->). apply octets_le.
Qed.

Lemma node_signer_octets position call scheme payload a b :
  octets payload -> node_signer position call scheme payload = Ok (a, b) -> octets a /\ octets b.
Proof.
  intros Hp Hs. apply map_err_Ok, dispatch_sign_Ok in Hs as (g & -> & _ & Hb & ->). split.
  - eapply guest_signing_octets; [..|exact Hb]; [|done]. vm_compute. repeat constructor; discriminate.
  - destruct scheme; apply octets_be.
Qed.
#[local] Instance guest_sign_quiet : Quiet c_guest_sign_raw.
Proof. unfold c_guest_sign_raw, c_scheme. apply _. Qed.

#[local] Instance guest_sign_canonical : Canonical c_guest_sign.
Proof.
  apply can_refine; [|intros a b Hb; by inv_ok]. unfold c_guest_sign_raw. apply can_iso; [|by intros (?&?&?&?&?&?&?&?&?)].
  repeat (apply can_pair; [apply _|]). apply can_pair; [|apply _].
  apply can_refine; [apply _|]. intros a b Hb. unfold scheme_from_tag in Hb.
  destruct (Z.eqb_spec a 0) as [->|]; [by simplify_eq|]. destruct (Z.eqb_spec a 1) as [->|]; by simplify_eq.
Qed.
#[local] Instance guest_sign_calm : Calm c_guest_sign.
Proof.
  apply calm_refine; [|intros a; unfold guest_sign_validate, ensure_payload; np]. unfold c_guest_sign_raw, c_scheme.
  apply calm_iso. repeat (apply calm_pair; [apply _|]). apply calm_pair; [|apply _].
  apply calm_refine; [apply _|]. intros a. unfold scheme_from_tag. np.
Qed.

(** What a verifier returns is the payload of the signed bytes, within its bound. *)
Lemma node_verifier_payload b signed signature signer r :
  octets signed -> node_verifier b signed signature signer = Ok r -> octets r /\ zlen r <= u32_max.
Proof.
  intros Ho Hv. unfold node_verifier, guest_verify in Hv. inv_ok.
  match goal with Hs : from_slice c_guest_sign _ = Ok ?x |- _ =>
    apply (from_slice_iff _ _ _ Ho) in Hs as [_ Hs]; assert (r = gs_payload x) as -> by (by repeat case_match; simplify_eq);
    clear -Ho Hs; unfold to_vec in Hs; cbn [enc c_iso c_pair c_raw c_refine c_guest_sign c_guest_sign_raw] in Hs;
    do 8 (apply wcat_Ok in Hs as (? & ? & _ & Hs & ->); apply octets_app in Ho as [_ Ho]);
    apply write_bytes_Ok in Hs as (_ & ? & ->); by apply octets_app in Ho as [_ Ho]
  end.
Qed.

(** ** Every call *)

Lemma call_typed b db c h :
  memories h -> Forall (cwf c_id) (peers (dc_session c)) -> typed (call_host b db c h).
Proof.
  intros [] Hp. split; [done|]. split; cbn.
  - intros f call s p x y Hf Hpl Hs. destruct (dc_signer c); [|done]. injection Hf as <-. by eapply node_signer_octets.
  - intros f x y p r [= <-] Hx Hv. by eapply node_verifier_payload.
  - by intros e [= <-].
Qed.

(** The call the actor builds for an event, as the host of its dispatch. *)
Lemma call_as_dispatch out s en e src db h :
  producer s = local_peer -> Forall (cwf c_id) (peers en) -> memories h -> exists sg vf view att,
  call_host (binding s) db (dispatch_call s en e src out) h = dispatch_host out s e en sg vf view att h /\
  typed (dispatch_host out s e en sg vf view att h) /\
  view = if is_local_handler e then Some (store_view display db (ctx_exec ctx)) else None.
Proof.
  intros Hp Hpe Hm. pose proof (call_typed (binding s) db (dispatch_call s en e src out) h Hm Hpe) as Ht.
  eexists _, _, _, _. split; [|split; [|reflexivity]]; [unfold call_host, dispatch_host, dispatch_call; cbn; rewrite Hp; by destruct e|].
  revert Ht. unfold call_host, dispatch_host, dispatch_call. cbn. rewrite Hp. by destruct e.
Qed.

Context (fill_bytes : list bytes -> Z -> bytes) (fills : forall l n, octets (fill_bytes l n)).

(** C8: whatever a guest computes and whichever imports it calls in a local handler,
    [apply_dispatch] accepts the effects of its call: no limit, recipient, lane or
    queue bound of the aggregate is left to refuse them. *)
Theorem local_effects_admitted s en e src db h caps l h' lo pid rq :
  is_agreed_event e = false -> validate_recovered s = Ok tt -> status s = Active -> proposal s = None ->
  producer s = local_peer -> binding_ensemble (binding s) = Ok en -> Forall (cwf c_id) (peers en) ->
  validate_callout_dispatch s e pid = Ok tt -> version s < u64_max -> event_position s < u64_max ->
  (forall p, last_queued (lane_of (direct s) p) + MAX_EFFECTS <= u64_max) ->
  memories h -> Forall act_typed l ->
  guest_run fill_bytes caps l (call_host (binding s) db (dispatch_call s en e src (zlen (outgoing s))) h) = (Ok tt, h') ->
  exists s', apply_dispatch e (shared_state s) lo (queue_of h') None pid rq s = (Ok None, s').
Proof.
  intros Hl Hv Ha Hp Hme Hen Hpe Hc Hver Hpos Hseq Hm Hacts Hr.
  destruct (call_as_dispatch (zlen (outgoing s)) s en e src db h Hme Hpe Hm) as (sg & vf & view & att & Heq & Ht & _). rewrite Heq in Hr.
  by eapply (local_admitted fill_bytes fills).
Qed.

(** C9: whatever imports a guest calls in an agreed handler, and whatever length of the
    outgoing queue it is told, its effects pass every check [apply_dispatch] makes on them
    before it turns to the proposal: the call of [apply_dispatch] is a call of
    [apply_agreed] on them, which may still find the outgoing queue full or the proposal
    too large. *)
Theorem agreed_effects_admitted out s en e src db h caps l h' lo pid rq sh o post :
  is_agreed_event e = true -> proposal s = None -> producer s = local_peer -> Forall (cwf c_id) (peers en) ->
  validate_callout_dispatch s e pid = Ok tt -> of_shared (E:=ProtocolError) sh = Ok post ->
  memories h -> Forall act_typed l ->
  guest_run fill_bytes caps l (call_host (binding s) db (dispatch_call s en e src out) h) = (Ok tt, h') ->
  exists indexed lc, indexed_dispatch_effects (queue_of h') = Ok indexed /\
    single_lifecycle_effect (queue_of h') = Ok lc /\
    apply_dispatch e sh lo (queue_of h') o pid rq s =
      apply_agreed e (event_position s) post sh lo (queue_of h') indexed lc o rq s.
Proof.
  intros Ha Hp Hme Hpe Hc Hsh Hm Hacts Hr.
  destruct (call_as_dispatch out s en e src db h Hme Hpe Hm) as (sg & vf & view & att & Heq & Ht & _). rewrite Heq in Hr.
  by eapply (agreed_admitted fill_bytes fills).
Qed.

(** C7: whatever a guest does with the attachments it is given, the store applies the
    blob changes its dispatch staged, and each object they commit is complete, granted
    to the execution and hashes to its name. *)
Theorem committed_blobs_are_genuine out s en e src db h caps l h' :
  is_local_handler e = true -> producer s = local_peer -> Forall (cwf c_id) (peers en) ->
  all_filed db (ctx_exec ctx) -> sound (received db (ctx_exec ctx)) -> utf8_valid (blob_dir db) = true ->
  memories h -> Forall act_typed l ->
  guest_run fill_bytes caps l (call_host (binding s) db (dispatch_call s en e src out) h) = (Ok tt, h') ->
  exists db', apply_blob_changes (ctx_exec ctx) (staged_of h') db = (Ok tt, db') /\
    all_filed db' (ctx_exec ctx) /\ sound (received db' (ctx_exec ctx)) /\
    forall k, BlobCommit k ∈ staged_of h' -> published (ctx_exec ctx) db' k /\
      exists r, received db' (ctx_exec ctx) !! k = Some r /\ zlen (rv_bytes r) = rv_length r /\ blake3 (rv_bytes r) = k.
Proof.
  intros Hl Hme Hpe Hf Hs Hu Hm Hacts Hr.
  destruct (call_as_dispatch out s en e src db h Hme Hpe Hm) as (sg & vf & view & att & Heq & Ht & Hview).
  rewrite Hl in Hview. rewrite Hview in Ht, Heq. rewrite Heq in Hr.
  by eapply (commits_genuine fill_bytes fills).
Qed.

End Hosts.
