(* ===== verification/ImportExample.v ===== *)
(** * A worked guest call

    A direct delivery whose handler stores the attachment, answers the sender,
    broadcasts and sets a timer, and an agreed start whose handler broadcasts and
    fails; the theorems of Hosts.v evaluated there. *)

From S2P Require Import Prelude Borsh Crypto Session Trace Evidence Validation Execution Invariant Canonical Fixture Negotiation Envelope ChangeLog Database Persist Store.
From S2P Require Import StoreExample DriveExample Randomness Book Signing Resident Actor ActorExample Imports Emission Staging Trapping Hosts.

#[local] Open Scope Z_scope.

Section Example.
#[local] Existing Instance toy.
#[local] Existing Instance alice_keys.

(** A tree interface with the documented geometry. *)
#[local] Instance toy_hazmat : Blake3Hazmat := {
  finalize_non_root off data := 1 + (toy_hash data + off) mod 65521;
  merge_subtrees_root l r := 1 + (31 * l + r) mod 65521;
  merge_subtrees_non_root l r := 1 + (37 * l + r) mod 65521;
  max_subtree_len off := if off =? 0 then None else Some (Z.land off (- off)) }.

Definition draws0 (served : list bytes) (n : Z) : bytes := repeat 9 (Z.to_nat n).
Lemma draws0_octets l n : octets (draws0 l n).
Proof. unfold draws0. apply Forall_forall. intros x Hx%list_elem_of_In%repeat_spec. lia. Qed.

Definition attachment0 : bytes := [5; 6; 7; 8].
Definition blob0 : BlobHash := toy_hash attachment0.
(** The handler's data: Bob's key, the object's name, a text and a timer's name. *)
Definition work0 : bytes := be_bytes 32 bob ++ be_bytes 32 blob0 ++ [104; 105] ++ [116; 49] ++ replicate 40 0.
Definition host0 : HostState :=
  MkHost (Some work0) (Some (replicate 64 0)) (Some (replicate 64 0)) 1000000 KPrepare DAgreed 0 current_profile scope_new.
Definition caps0 : list Capability := [Messaging; Timers; Blobs].

Definition direct0 : Event := DirectReceived bob [1] (Some 0).
Definition handler0 : list GuestAct :=
  [ Calls (CBlobAppend 32 4 0); Calls (CBlobCommit 32); Calls (CSendDirect 0 64 2 0 0);
    Calls (CRandom 80 4); Calls (CBroadcast 64 2); Calls (CSetTimer 1000 66 2 64 1) ].
Definition shows0 (e : ProtocolError) : string := "protocol".
Definition displays0 (e : StoreError) : string := "store".
Definition host_of (s : ExecutionState) (e : Event) (src : DispatchSource) : HostState :=
  call_host context0 shows0 displays0 (binding s) db_step1 (dispatch_call s ensemble0 e src (zlen (outgoing s))) host0.
Definition src0 : DispatchSource := SrcDirect bob 1 (Some attachment0).
Definition before0 : HostState := host_of st_step1 direct0 src0.
Definition after0 : HostState := (guest_run draws0 caps0 handler0 before0).2.

Example handler0_stages : staged_of after0 = [BlobAppend blob0 4 0 attachment0; BlobCommit blob0].
Proof. vm_compute. reflexivity. Qed.
Example handler0_emits :
  queue_of after0 = [SendDirect bob [104; 105] None; Broadcast [104; 105]; SetTimer 1000 (MkTimer [116; 49] [104])].
Proof. vm_compute. reflexivity. Qed.

(** Concrete bytes are bytes. *)
Lemma octets_check l : forallb (fun b => (0 <=? b) && (b <? 256)) l = true -> octets l.
Proof.
  intros Hl. apply Forall_forall. intros x Hx%list_elem_of_In. rewrite forallb_forall in Hl. specialize (Hl x Hx). lia.
Qed.
Lemma memories0 : memories host0.
Proof. split; apply octets_check; vm_compute; reflexivity. Qed.
Lemma peers0 : Forall (cwf c_id) (peers ensemble0).
Proof. repeat constructor; done. Qed.
Lemma handler0_typed : Forall act_typed handler0.
Proof. repeat constructor; done. Qed.

Lemma ran {E A} (p : result E unit * A) : p.1 = Ok tt -> p = (Ok tt, p.2).
Proof. destruct p. by intros [= ->]. Qed.
Lemma handler0_ran : guest_run draws0 caps0 handler0 before0 = (Ok tt, after0).
Proof. unfold after0. apply (ran (guest_run draws0 caps0 handler0 before0)). vm_compute. reflexivity. Qed.

Lemma local_effects_admitted_witness : exists s',
  apply_dispatch direct0 (shared_state st_step1) [5] (queue_of after0) None None None st_step1 = (Ok None, s').
Proof.
  eapply (local_effects_admitted context0 shows0 displays0 draws0 draws0_octets st_step1 ensemble0 direct0 src0 db_step1
    host0 caps0 handler0).
  1-6: vm_compute; reflexivity.
  - exact peers0.
  - vm_compute. reflexivity.
  - vm_compute. reflexivity.
  - vm_compute. reflexivity.
  - intros p. vm_compute. destruct p; discriminate.
  - exact memories0.
  - exact handler0_typed.
  - exact handler0_ran.
Defined.

(** The start of a session, whose handler broadcasts and fails. *)
Definition start0 : Event := SessionStarted ensemble0.
Definition handler1 : list GuestAct := [ Calls (CBroadcast 64 2); Calls (CFail 64 2) ].
Definition before1 : HostState := host_of st_active start0 SrcLocal.
Definition after1 : HostState := (guest_run draws0 caps0 handler1 before1).2.
Definition post1 : StateHash := unwrap 0 (of_shared (E:=ProtocolError) shared1).

Lemma handler1_ran : guest_run draws0 caps0 handler1 before1 = (Ok tt, after1).
Proof. unfold after1. apply (ran (guest_run draws0 caps0 handler1 before1)). vm_compute. reflexivity. Qed.

Lemma agreed_effects_admitted_witness : exists indexed lc,
  indexed_dispatch_effects (queue_of after1) = Ok indexed /\
  single_lifecycle_effect (queue_of after1) = Ok lc /\
  apply_dispatch start0 shared1 [5] (queue_of after1) None None None st_active =
    apply_agreed start0 (event_position st_active) post1 shared1 [5] (queue_of after1) indexed lc None None st_active.
Proof.
  eapply (agreed_effects_admitted context0 shows0 displays0 draws0 draws0_octets (zlen (outgoing st_active)) st_active ensemble0 start0 SrcLocal
    db_step1 host0 caps0 handler1).
  1-3: vm_compute; reflexivity.
  - exact peers0.
  - vm_compute. reflexivity.
  - vm_compute. reflexivity.
  - exact memories0.
  - repeat constructor.
  - exact handler1_ran.
Defined.

Lemma no_partials0 : rows (blob_partials (view db_step1)) 9 = ∅.
Proof. vm_compute. reflexivity. Qed.
Lemma filed0 : all_filed db_step1 9.
Proof. unfold all_filed. rewrite no_partials0. apply map_Forall_empty. Qed.
Lemma sound0 : sound (received db_step1 9).
Proof. unfold received. rewrite no_partials0. unfold sound. rewrite map_imap_empty. apply map_Forall_empty. Qed.

Lemma committed_blobs_are_genuine_witness : exists db',
  apply_blob_changes 9 (staged_of after0) db_step1 = (Ok tt, db') /\ all_filed db' 9 /\ sound (received db' 9) /\
  forall k, BlobCommit k ∈ staged_of after0 -> published 9 db' k /\
    exists r, received db' 9 !! k = Some r /\ zlen (rv_bytes r) = rv_length r /\ blake3 (rv_bytes r) = k.
Proof.
  apply (committed_blobs_are_genuine context0 shows0 displays0 draws0 draws0_octets (zlen (outgoing st_step1)) st_step1 ensemble0 direct0 src0
    db_step1 host0 caps0 handler0).
  - vm_compute. reflexivity.
  - vm_compute. reflexivity.
  - exact peers0.
  - exact filed0.
  - exact sound0.
  - vm_compute. reflexivity.
  - exact memories0.
  - exact handler0_typed.
  - exact handler0_ran.
Defined.

End Example.
