(* ===== verification/Wire.v ===== *)
(** * Framing of the streams (wire/src, protocol/src/fetch_frame.rs, transport/src/lib.rs)

    A frame on a stream is a little-endian length, a version and a borsh body.  The
    codec of a stream bounds the body before it is written and before it is read.
    Shown here: what a stream accepts is exactly what its sender writes, frames
    delimit themselves, and every frame of the protocol fits its stream. *)

From S2P Require Import Prelude Borsh Crypto Session Trace Negotiation Evidence Validation Frame.
From S2P Require Import History Publish Fixture NoPanic Canonical Consistency Book Gossip Driver.

#[local] Open Scope Z_scope.
Unset Program Cases.

(** The typed errors of a field reader, a value or a collection over its bound, are the
    [io_kind] of its codec. *)
Inductive WireError :=
| EncodeFailed (what : string)
| DecodeFailed (e : io_kind)
| FrameTooShort (expected actual : Z)
| WirePayloadTooLarge (size max : Z)
| Truncated (declared actual : Z)
| TrailingBytes (expected actual : Z)
| UnknownProtocol (byte : Z)
| UnsupportedVersion (expected actual : Z).

(** ** Codec (wire/src/codec.rs) *)

Definition FRAME_HEADER_SIZE : Z := 4.
Definition FRAME_VERSION : Z := 2.
Definition FRAME_VERSION_SIZE : Z := 2.

Record BoundedWriter := MkBounded { bw_bytes : bytes; bw_overflowed : bool; bw_attempted : Z }.

Definition bounded_write (max : Z) (b : bytes) (w : BoundedWriter) : bool * BoundedWriter :=
  match checked_add (zlen (bw_bytes w)) (zlen b) with
  | Some size => if max <? size then (false, MkBounded (bw_bytes w) true size)
                 else (true, MkBounded (bw_bytes w ++ b) (bw_overflowed w) (bw_attempted w))
  | None => (false, MkBounded (bw_bytes w) true u64_max)
  end.
(** The writes of one value, until one fails. *)
Fixpoint write_chunks (max : Z) (l : list bytes) (w : BoundedWriter) : BoundedWriter :=
  match l with
  | [] => w
  | b :: l => let '(ok, w) := bounded_write max b w in if ok then write_chunks max l w else w
  end.

(** A value's [serialize] as the slices it writes and the error it ends in; borsh
    decides how the bytes of the encoding are cut. *)
Class Serialize {A} (c : codec A) := {
  writes : A -> list bytes * option WireError;
  writes_all : forall a bs, enc c a = Ok bs -> exists ws, writes a = (ws, None) /\ concat ws = bs;
  writes_fail : forall a, (forall bs, enc c a <> Ok bs) -> (writes a).2 <> None }.

Definition check_body_size (max size : Z) : result WireError unit := err_if (max <? size) (WirePayloadTooLarge size max).
Definition frame (max : Z) (body : bytes) : result WireError bytes :=
  check_body_size max (zlen body) ;;?
  let? framed := ok_or (checked_add (zlen body) FRAME_VERSION_SIZE) (WirePayloadTooLarge (zlen body) max) in
  err_if (u32_max <? framed) (WirePayloadTooLarge framed u32_max) ;;?
  let? _ := ok_or (checked_add FRAME_HEADER_SIZE framed) (WirePayloadTooLarge (zlen body) max) in
  Ok (le_bytes 4 framed ++ le_bytes 2 FRAME_VERSION ++ body).

Definition wire_encode {A} (c : codec A) `{!Serialize c} (max : Z) (a : A) : result WireError bytes :=
  let '(chunks, ended) := writes a in
  let w := write_chunks max chunks (MkBounded [] false 0) in
  err_if (bw_overflowed w) (WirePayloadTooLarge (bw_attempted w) max) ;;?
  match ended with Some e => Err e | None => frame max (bw_bytes w) end.

Definition decode_frame (max : Z) (bs : bytes) : result WireError bytes :=
  err_if (zlen bs <? FRAME_HEADER_SIZE) (FrameTooShort FRAME_HEADER_SIZE (zlen bs)) ;;?
  let body_len := le_val (take 4 bs) in
  err_if (body_len <? FRAME_VERSION_SIZE)
    (FrameTooShort (FRAME_HEADER_SIZE + FRAME_VERSION_SIZE) (FRAME_HEADER_SIZE + body_len)) ;;?
  check_body_size max (body_len - FRAME_VERSION_SIZE) ;;?
  let? expected := ok_or (checked_add FRAME_HEADER_SIZE body_len) (WirePayloadTooLarge body_len max) in
  err_if (zlen bs <? expected) (Truncated body_len (zlen bs - FRAME_HEADER_SIZE)) ;;?
  err_if (expected <? zlen bs) (TrailingBytes expected (zlen bs)) ;;?
  let version := le_val (take 2 (drop 4 bs)) in
  err_if (negb (version =? FRAME_VERSION)) (UnsupportedVersion FRAME_VERSION version) ;;?
  Ok (take (Z.to_nat (expected - 6)) (drop 6 bs)).
Definition wire_decode {A} (c : codec A) (max : Z) (bs : bytes) : result WireError A :=
  let? body := decode_frame max bs in
  map_err DecodeFailed (from_slice c body).

(** *** What the codec writes and accepts *)

Definition image (body : bytes) : bytes := le_bytes 4 (zlen body + 2) ++ le_bytes 2 FRAME_VERSION ++ body.

Lemma frame_Ok max body bs : frame max body = Ok bs <-> zlen body <= max /\ zlen body + 2 <= u32_max /\ bs = image body.
Proof.
  unfold frame, check_body_size, checked_add, FRAME_VERSION_SIZE, FRAME_HEADER_SIZE. pose proof (zlen_nonneg body). split.
  - intros Hf. inv_ok. unfold u32_max, u64_max in *. repeat case_match; simplify_eq/=. split_and!; try lia. done.
  - intros (Hm & Hl & ->). rewrite (proj2 (Z.ltb_ge _ _)) by lia. unfold u32_max, u64_max in *. simpl.
    rewrite (proj2 (Z.leb_le (zlen body + 2) _)) by lia. simpl. rewrite (proj2 (Z.ltb_ge _ _)) by lia. simpl.
    by rewrite (proj2 (Z.leb_le _ _)) by lia.
Qed.

Lemma write_chunks_fit max l w :
  max <= u64_max -> zlen (bw_bytes w) + zlen (concat l) <= max ->
  write_chunks max l w = MkBounded (bw_bytes w ++ concat l) (bw_overflowed w) (bw_attempted w).
Proof.
  intros Hm. revert w. induction l as [|b l IH]; intros w Hl; simpl in *; [rewrite app_nil_r; by destruct w|].
  rewrite zlen_app in Hl. pose proof (zlen_nonneg (concat l)). unfold bounded_write, checked_add.
  rewrite (proj2 (Z.leb_le _ _)) by lia. rewrite (proj2 (Z.ltb_ge _ _)) by lia.
  rewrite IH by (simpl; rewrite zlen_app; lia). simpl. by rewrite app_assoc.
Qed.
Lemma write_chunks_over max l w :
  bw_overflowed w = false -> zlen (bw_bytes w) <= max -> bw_overflowed (write_chunks max l w) = false ->
  bw_bytes (write_chunks max l w) = bw_bytes w ++ concat l /\ zlen (bw_bytes w ++ concat l) <= max.
Proof.
  revert w. induction l as [|b l IH]; intros w Hf Hl Ho; simpl in *; [by rewrite app_nil_r|].
  unfold bounded_write, checked_add in *. destruct (_ <=? u64_max); [|done]. destruct (Z.ltb_spec max (zlen (bw_bytes w) + zlen b)); [done|].
  rewrite app_assoc. apply (IH (MkBounded (bw_bytes w ++ b) (bw_overflowed w) (bw_attempted w))); simpl; [done|rewrite zlen_app; lia|done].
Qed.

Lemma zlen_image body : zlen (image body) = zlen body + 6.
Proof. unfold image, zlen. rewrite !length_app, !length_le_bytes. lia. Qed.
Lemma image_header body : zlen body + 2 <= u32_max -> le_val (take 4 (image body)) = zlen body + 2.
Proof.
  intros Hl. unfold image. rewrite take_app_length' by (by rewrite length_le_bytes). pose proof (zlen_nonneg body).
  apply le_val_bytes. unfold u32_max in Hl. simpl. lia.
Qed.

Lemma decode_frame_image max body :
  zlen body <= max -> zlen body + 2 <= u32_max -> decode_frame max (image body) = Ok body.
Proof.
  intros Hm Hl. unfold decode_frame, check_body_size, checked_add. rewrite image_header, zlen_image by done.
  pose proof (zlen_nonneg body). unfold FRAME_HEADER_SIZE, FRAME_VERSION_SIZE, u32_max, u64_max in *.
  repeat (rewrite (proj2 (Z.ltb_ge _ _)) by lia; cbn [err_if rbind]).
  rewrite (proj2 (Z.leb_le _ _)) by lia. cbn [ok_or rbind].
  repeat (rewrite (proj2 (Z.ltb_ge _ _)) by lia; cbn [err_if rbind]).
  unfold image. replace 6%nat with (4 + 2)%nat by done. rewrite <- drop_drop.
  rewrite !drop_app_length' by (by rewrite length_le_bytes). rewrite take_app_length' by (by rewrite length_le_bytes).
  change (le_val (le_bytes 2 FRAME_VERSION)) with FRAME_VERSION. cbn [negb err_if rbind Z.eqb FRAME_VERSION Pos.eqb].
  rewrite take_ge; [done|]. unfold zlen. lia.
Qed.

Lemma decode_frame_iff max bs body : octets bs -> decode_frame max bs = Ok body <-> frame max body = Ok bs.
Proof.
  intros Ho. rewrite frame_Ok. split; [|intros (Hm & Hl & ->); by apply decode_frame_image].
  unfold decode_frame, check_body_size, checked_add. intros Hd. inv_ok.
  unfold FRAME_HEADER_SIZE, FRAME_VERSION_SIZE, u64_max in *.
  assert (4 <= length bs)%nat as Hlen by (unfold zlen in *; lia).
  pose proof (le_val_range (take 4 bs) (octets_take _ _ Ho)) as Hr.
  pose proof (le_bytes_val (take 4 bs) (octets_take _ _ Ho)) as Hb4.
  pose proof (le_bytes_val (take 2 (drop 4 bs)) (octets_take _ _ (octets_drop _ _ Ho))) as Hb2.
  remember (le_val (take 4 bs)) as n eqn:Hn. rewrite !length_take, length_drop in *.
  assert (zlen (take 4 bs) = 4) as H4' by (unfold zlen; rewrite length_take; lia). rewrite H4' in Hr.
  destruct (4 + n <=? 2 ^ 64 - 1); [|done]. injection H2 as <-.
  assert (zlen bs = 4 + n) as Hz by lia. assert (length bs = Z.to_nat (4 + n)) as Hlb by (unfold zlen in Hz; lia).
  replace (Nat.min 4 (length bs)) with 4%nat in Hb4 by lia. replace (Nat.min 2 (length bs - 4)) with 2%nat in Hb2 by lia.
  apply Z.eqb_eq in H5. rewrite H5 in Hb2.
  assert (take (Z.to_nat (4 + n - 6)) (drop 6 bs) = drop 6 bs) as Ht by (apply take_ge; rewrite length_drop; lia).
  assert (zlen (drop 6 bs) = n - 2) as Hdl by (unfold zlen; rewrite length_drop; lia). rewrite Ht, Hdl.
  unfold u32_max. change (256 ^ 4) with (2 ^ 32) in Hr. split_and!; [lia|lia|].
  unfold image. rewrite Hdl. replace (n - 2 + 2) with n by lia. rewrite Hb4, Hb2.
  replace (drop 6 bs) with (drop 2 (drop 4 bs)) by (by rewrite drop_drop). by rewrite !take_drop.
Qed.

Section Exact.
Context {A : Type} (c : codec A) `{!Serialize c} (max : Z).
Context (bound : 0 <= max <= u32_max - 2).

Lemma wire_encode_Ok a bs : wire_encode c max a = Ok bs <-> exists body, to_vec c a = Ok body /\ zlen body <= max /\ bs = image body.
Proof.
  unfold wire_encode, to_vec. split.
  - destruct (writes a) as [ws ended] eqn:Hw. intros He. inv_ok.
    assert (exists body, enc c a = Ok body) as [body Hb].
    { destruct (enc c a) as [b|e|] eqn:E; [by eexists|..];
        (destruct (writes_fail a); [by rewrite E|]; rewrite Hw; simpl; by destruct ended). }
    destruct (writes_all a body Hb) as (ws' & Hw' & <-). rewrite Hw in Hw'. injection Hw' as <- ->.
    apply frame_Ok in He as (Hl & _ & ->).
    destruct (write_chunks_over max ws (MkBounded [] false 0)) as [Hx _]; try done; [simpl; change (zlen (@nil Z)) with 0; lia|].
    rewrite Hx in *. by eexists.
  - intros (body & Hb & Hl & ->). destruct (writes_all a body Hb) as (ws & -> & <-).
    rewrite write_chunks_fit by (unfold u32_max, u64_max in *; simpl; change (zlen (@nil Z)) with 0; lia). simpl.
    apply frame_Ok. split_and!; [done|lia|done].
Qed.
End Exact.

(** ** Fetch frames (protocol/src/fetch_frame.rs) *)

Definition MAX_FETCH_TICKET_BYTES : Z := 4 * 1024.
Definition c_fetch_response : codec (Z * list bytes) := c_pair c_id (c_vec MAX_FETCH_TICKETS (c_bytes MAX_FETCH_TICKET_BYTES)).

(** [iter().map(f).collect::<Result<Vec<_>, _>>()]. *)
Fixpoint try_map {E A B} (f : A -> result E B) (l : list A) : result E (list B) :=
  match l with
  | [] => Ok []
  | x :: l => let? y := f x in let? ys := try_map f l in Ok (y :: ys)
  end.
Lemma try_map_Ok {E A B} (f : A -> result E B) l k : try_map f l = Ok k <-> Forall2 (fun x y => f x = Ok y) l k.
Proof.
  revert k. induction l as [|x l IH]; intros k; simpl.
  - split; [by intros [= <-]|]. by intros ->%Forall2_nil_inv_l.
  - split.
    + intros Hk. apply rbind_Ok in Hk as (y & Hy & Hk). apply rbind_Ok in Hk as (ys & Hys & [= <-]). constructor; [done|by apply IH].
    + intros (y & ys & Hy & Hys & ->)%Forall2_cons_inv_l. rewrite Hy. cbn [rbind]. by rewrite (proj2 (IH ys) Hys).
Qed.

Section Fetch.
Context `{Crypto}.

Definition enc_fetch (f : FetchFrame) : writer :=
  match f with
  | FetchActivationTickets h => variant 0 c_id h
  | FetchResponse r =>
      err_if (MAX_FETCH_TICKETS <? zlen (at_tickets r)) InvalidInput ;;?
      map_err (fun _ => InvalidInput) (activation_tickets_validate r) ;;?
      let? tickets := try_map (to_vec c_ticket) (at_tickets r) in
      variant 1 c_fetch_response (at_session_hash r, tickets)
  end.
Definition dec_fetch : Reader FetchFrame := fun bs =>
  let? (tag, rest) := read_uint 1 bs in
  match tag with
  | 0 => rd_map FetchActivationTickets (dec c_id rest)
  | 1 =>
      let? ((h, encoded), rest) := dec c_fetch_response rest in
      err_if (MAX_FETCH_RESPONSE_BYTES <? response_body_len (zlen <$> encoded)) InvalidData ;;?
      let? tickets := map_err (fun _ => InvalidData) (try_map ticket_decode encoded) in
      let r := MkActivationTickets h tickets in
      map_err (fun _ => InvalidData) (activation_tickets_validate r) ;;?
      Ok (FetchResponse r, rest)
  | _ => Err InvalidData
  end.
Definition fetch_typed (f : FetchFrame) : Prop :=
  match f with
  | FetchActivationTickets h => cwf c_id h
  | FetchResponse r => cwf c_id (at_session_hash r) /\ Forall (cwf c_ticket) (at_tickets r)
  end.

Lemma lens_encoded l encoded acc x :
  Forall2 (fun t b => to_vec c_ticket t = Ok b) l encoded ->
  try_fold (fun acc t => let? n := expect_ok (E:=NegotiationError) (object_length c_ticket t) in Ok (acc ++ [n])) acc l = Ok x ->
  x = acc ++ (zlen <$> encoded).
Proof.
  intros Hf. revert acc. induction Hf as [|t b l k Ht _ IH]; intros acc Hx; simpl in Hx.
  - injection Hx as <-. by rewrite app_nil_r.
  - unfold object_length, rmap, to_vec in *. rewrite Ht in Hx. cbn [rbind expect_ok] in Hx. rewrite (IH _ Hx).
    by rewrite <- app_assoc.
Qed.

(** What the validation of a response bounds: its tickets and its body. *)
Lemma tickets_valid r u :
  activation_tickets_validate r = Ok u -> zlen (at_tickets r) <= MAX_FETCH_TICKETS /\
  Forall (fun t => ticket_validate t = Ok tt) (at_tickets r) /\
  forall encoded, Forall2 (fun t b => to_vec c_ticket t = Ok b) (at_tickets r) encoded ->
    response_body_len (zlen <$> encoded) <= MAX_FETCH_RESPONSE_BYTES.
Proof.
  unfold activation_tickets_validate. intros Hv. inv_ok. split_and!; [lia|by eapply try_for_each_Ok|].
  intros encoded He. match goal with Hx : try_fold _ _ _ = Ok _ |- _ => rewrite (lens_encoded _ _ _ _ He Hx) in * end.
  simpl in *. lia.
Qed.

Lemma enc_fetch_response r bs :
  enc_fetch (FetchResponse r) = Ok bs <-> activation_tickets_validate r = Ok tt /\ exists encoded,
    Forall2 (fun t b => to_vec c_ticket t = Ok b) (at_tickets r) encoded /\
    variant 1 c_fetch_response (at_session_hash r, encoded) = Ok bs.
Proof.
  cbn [enc_fetch]. split.
  - intros He. inv_ok. match goal with u : unit |- _ => destruct u end. split; [done|].
    match goal with Hx : try_map _ _ = Ok _ |- _ => apply try_map_Ok in Hx end. by eexists.
  - intros (Hv & encoded & He & Hb). pose proof (tickets_valid r _ Hv) as (Hl & _).
    rewrite (proj2 (Z.ltb_ge _ _)) by done. cbn [err_if rbind]. rewrite Hv. cbn [map_err rbind].
    by rewrite (proj2 (try_map_Ok _ _ _) He).
Qed.

(** A validated ticket decodes from its encoding. *)
Lemma tickets_decode l encoded :
  Forall (cwf c_ticket) l -> Forall (fun t => ticket_validate t = Ok tt) l ->
  Forall2 (fun t b => to_vec c_ticket t = Ok b) l encoded -> Forall (fun b => zlen b <= MAX_FETCH_TICKET_BYTES) encoded ->
  try_map ticket_decode encoded = Ok l.
Proof.
  intros Hw Hv Hf. induction Hf as [|t b l k Ht _ IH]; intros Hb; [done|].
  apply Forall_cons in Hw as [Hw1 Hw], Hv as [Hv1 Hv], Hb as [Hb1 Hb]. simpl.
  assert (ticket_decode b = Ok t) as ->; [|cbn [rbind]; by rewrite IH].
  unfold ticket_decode, decode_bounded. rewrite (proj2 (Z.ltb_ge _ _)) by done. cbn [err_if rbind].
  rewrite (from_slice_to_vec c_ticket t b) by done. cbn [map_err rbind]. by rewrite Hv1.
Qed.
Lemma items_parts encoded bs :
  write_items (enc (c_bytes MAX_FETCH_TICKET_BYTES)) encoded = Ok bs ->
  Forall (fun b => zlen b <= MAX_FETCH_TICKET_BYTES) encoded /\ (octets bs -> Forall octets encoded).
Proof.
  revert bs. induction encoded as [|b l IH]; intros out He; [split; constructor|]. cbn [write_items] in He.
  apply wcat_Ok in He as (x & y & (Hl & _ & ->)%write_bytes_Ok & Hy & ->). destruct (IH _ Hy) as [Hs Hb].
  split; [by constructor|]. rewrite !octets_app. intros [[_ ?] ?]. constructor; auto.
Qed.
Lemma response_parts h encoded bs :
  enc c_fetch_response (h, encoded) = Ok bs ->
  Forall (fun b => zlen b <= MAX_FETCH_TICKET_BYTES) encoded /\ (octets bs -> Forall octets encoded).
Proof.
  cbn [enc c_fetch_response c_pair c_vec]. intros (b1 & b2 & _ & He & ->)%wcat_Ok.
  apply wcat_Ok in He as (b3 & b4 & _ & [Hs Hb]%items_parts & ->). split; [done|]. rewrite !octets_app. tauto.
Qed.

Program Definition c_fetch : codec FetchFrame := {| enc := enc_fetch; dec := dec_fetch; cwf := fetch_typed |}.
Next Obligation.
  intros f bs rest Hw He. destruct f as [h|r].
  - apply variant_Ok in He as (b & He & ->). unfold dec_fetch. rewrite <- app_assoc, read_uint_write by (simpl; lia).
    cbn [rbind]. unfold rd_map. by rewrite (dec_enc c_id h b rest Hw He).
  - apply enc_fetch_response in He as (Hv & encoded & Hf & (b & He & ->)%variant_Ok). destruct Hw as [Hh Hw].
    destruct (tickets_valid r _ Hv) as (Hl & Ht & Hz). unfold dec_fetch.
    rewrite <- app_assoc, read_uint_write by (simpl; lia). cbn [rbind].
    rewrite (dec_enc c_fetch_response (at_session_hash r, encoded) b rest) by
      (done || (split; [done|by apply Forall_forall])). cbn [rbind].
    rewrite (proj2 (Z.ltb_ge _ _)) by auto. cbn [err_if rbind].
    rewrite (tickets_decode (at_tickets r)) by (done || by eapply response_parts). cbn [map_err rbind].
    replace (MkActivationTickets (at_session_hash r) (at_tickets r)) with r by (by destruct r). by rewrite Hv.
Qed.

#[export] Instance can_fetch : Canonical c_fetch.
Proof.
  intros bs f rest Ho Hd. cbn [dec c_fetch] in Hd. unfold dec_fetch in Hd.
  apply rbind_Ok in Hd as ([t r] & Ht & Hd). apply read_uint_Ok in Ht as (-> & Hr & Hor); [|done].
  destruct t as [|[p|p|]|p]; try done.
  - apply (can_variant _ _ 0) in Hd as (h & x & -> & W & E & ->); [|done]. split; [done|]. eexists. split; [done|].
    by rewrite app_assoc.
  - apply rbind_Ok in Hd as ([[h encoded] r'] & Hx & Hd).
    destruct (enc_dec (c:=c_fetch_response) _ _ _ Hor Hx) as ([W _] & x & E & ->). apply octets_app in Hor as [Hox _].
    destruct (response_parts _ _ _ E) as [_ Hoe]. specialize (Hoe Hox). inv_ok.
    match goal with Hm : try_map _ _ = Ok _ |- _ => apply try_map_Ok in Hm; rename Hm into Hts end.
    assert (Forall2 (fun t b => to_vec c_ticket t = Ok b) x1 encoded /\ Forall (cwf c_ticket) x1) as [Hf Hc].
    { clear -Hts Hoe. induction Hts as [|b t l k Ht _ IH]; [split; constructor|]. apply Forall_cons in Hoe as [Hb Hl].
      apply (decode_bounded_iff c_ticket) in Ht as (Wt & Et & _); [|done]. destruct (IH Hl). split; by constructor. }
    split; [done|]. exists (le_bytes 1 1 ++ x). split; [|by rewrite app_assoc]. apply enc_fetch_response.
    destruct x2. split; [done|]. exists encoded. split; [done|]. apply variant_Ok. eauto.
Qed.
End Fetch.

(** ** Streams (wire/src/stream.rs, transport/src/lib.rs) *)

Inductive StreamProtocol := ProtoFetch | ProtoExec.
Definition header_byte (p : StreamProtocol) : Z := match p with ProtoFetch => 1 | ProtoExec => 2 end.
Definition from_header_byte (b : Z) : result WireError StreamProtocol :=
  match b with 1 => Ok ProtoFetch | 2 => Ok ProtoExec | _ => Err (UnknownProtocol b) end.
Definition max_frame_body (p : StreamProtocol) : Z :=
  match p with ProtoFetch => MAX_FETCH_RESPONSE_BYTES | ProtoExec => MAX_EXEC_FRAME_BYTES end.

Inductive StreamBinding := BindFetch | BindExec (session : SessionHash).
Definition proto (b : StreamBinding) : StreamProtocol := match b with BindFetch => ProtoFetch | BindExec _ => ProtoExec end.
(** A mismatch of the stream, or an error of the codec, which the code splits once more by
    kind. *)
Inductive TransportError := ProtocolMismatch (what : string) | FromWire (e : WireError).

(** [validate_exec_route]: evidence that names a session names the stream's. *)
Definition validate_exec_route (b : StreamBinding) (f : ExecFrame) : result TransportError unit :=
  match b with
  | BindFetch => Err (ProtocolMismatch "sent Exec frame on a Fetch stream")
  | BindExec session =>
      match f with
      | FMessage _ _ | FDirect _ _ _ => Ok tt
      | FStepCertificate k =>
          err_if (negb (c_session_id (commitment k) =? session)) (ProtocolMismatch "step certificate does not match the execution stream session")
      | FStepSignature k _ =>
          err_if (negb (c_session_id k =? session)) (ProtocolMismatch "step signature does not match the execution stream session")
      | FAbort o => err_if (negb (ab_session_id o =? session)) (ProtocolMismatch "abort does not match the execution stream session")
      end
  end.

(** An upper bound of the encodings of a codec. *)
Definition fits {A} (c : codec A) (n : Z) : Prop := forall a bs, cwf c a -> enc c a = Ok bs -> zlen bs <= n.

Lemma fits_uint n : fits (c_uint n) (Z.of_nat n).
Proof. intros a bs _ [= <-]. unfold zlen. rewrite length_le_bytes. lia. Qed.
Lemma fits_arr n : fits (c_arr n) (Z.of_nat n).
Proof. intros a bs _ [= <-]. unfold zlen. rewrite length_be_bytes. lia. Qed.
Lemma fits_raw n : fits (c_raw n) (Z.of_nat n).
Proof. intros a bs Hw [= <-]. cbn in Hw. unfold zlen. lia. Qed.
Lemma fits_bytes max : fits (c_bytes max) (4 + max).
Proof. intros a bs _ (Hl & _ & ->)%write_bytes_Ok. rewrite zlen_app. unfold zlen at 1. rewrite length_le_bytes. lia. Qed.
Lemma fits_string max : fits (c_string max) (4 + max).
Proof. intros a bs _ (Hl & _ & ->)%write_bytes_Ok. rewrite zlen_app. unfold zlen at 1. rewrite length_le_bytes. lia. Qed.
Lemma fits_pair {A B} (c1 : codec A) (c2 : codec B) n m : fits c1 n -> fits c2 m -> fits (c_pair c1 c2) (n + m).
Proof.
  intros H1 H2 a bs [W1 W2] (b1 & b2 & E1 & E2 & ->)%wcat_Ok. rewrite zlen_app.
  pose proof (H1 _ _ W1 E1). pose proof (H2 _ _ W2 E2). lia.
Qed.
Lemma fits_iso {A B} (c : codec A) (to : B -> A) back e n : fits c n -> fits (c_iso c to back e) n.
Proof. intros Hc a bs W E. by apply (Hc (to a)). Qed.
Lemma fits_refine {A B E} (c : codec A) (to : B -> A) (mk : A -> result E B) n : fits c n -> fits (c_refine c to mk) n.
Proof. intros Hc a bs [W _] Eq. by apply (Hc (to a)). Qed.
Lemma fits_option {A} (c : codec A) n : 0 <= n -> fits c n -> fits (c_option c) (1 + n).
Proof.
  intros Hn Hc [a|] bs W E; [|injection E as <-; change (1 <= 1 + n); lia].
  apply wcat_Ok in E as (b1 & b2 & [= <-] & E & ->). rewrite zlen_app. pose proof (Hc _ _ W E). change (zlen (le_bytes 1 1)) with 1. lia.
Qed.
Lemma fits_variant {A} tag (c : codec A) n a bs : fits c n -> cwf c a -> variant tag c a = Ok bs -> zlen bs <= 1 + n.
Proof.
  intros Hc W (b & E & ->)%variant_Ok. rewrite zlen_app. pose proof (Hc _ _ W E). unfold zlen at 1. rewrite length_le_bytes. lia.
Qed.

(** The bound of a record, field by field. *)
Ltac fits_record := repeat first
  [ eassumption | apply fits_pair | apply fits_iso | apply fits_refine | apply fits_uint | apply fits_arr | apply fits_raw
  | apply fits_bytes | apply fits_string ].

Lemma fits_frame_commitment : fits c_frame_commitment STEP_COMMITMENT_BYTES.
Proof.
  intros k bs W E. cbn [enc c_frame_commitment] in E. destruct (has_step_domain k); [|done].
  assert (fits c_commitment (24 + (32 + (8 + (32 + (32 + (32 + 32))))))) as Hf by (unfold c_commitment, c_id; fits_record).
  exact (Hf k bs W E).
Qed.

Section Streams.
Context `{Crypto}.

(** Every frame of the protocol fits its stream. *)
Lemma exec_frame_fits f body : cwf c_frame f -> to_vec c_frame f = Ok body -> zlen body <= max_frame_body ProtoExec.
Proof.
  intros W E. pose proof fits_frame_commitment as Hk. change (max_frame_body ProtoExec) with (1 + 65732).
  assert (forall T (c : codec T) tag n a, fits c n -> n <= 65732 -> cwf c a -> variant tag c a = Ok body -> zlen body <= 1 + 65732) as Hv
    by (intros T c tag n a Hc Hn Wc Ec; pose proof (fits_variant tag c n a body Hc Wc Ec); lia).
  destruct f as [k data|k s|o|k|seq msg att]; cbn [cwf c_frame] in W; unfold to_vec in E; cbn [enc c_frame] in E;
    (eapply Hv; [| |exact W|exact E]).
  - unfold c_frame_message. fits_record.
  - done.
  - unfold c_frame_signature. fits_record.
  - done.
  - unfold c_abort, c_abort_raw, c_abort_fields, c_abort_kind, c_cursor, c_id. fits_record.
  - done.
  - unfold c_frame_certificate. fits_record.
  - done.
  - unfold c_frame_direct. fits_record. apply fits_option; [|apply fits_bytes]. done.
  - done.
Qed.

Definition len_step (total : option Z) (len : Z) : option Z := t ← total; t ← checked_add t 4; checked_add t len.
Lemma len_steps lens t : foldl len_step (Some t) lens = None \/
  foldl len_step (Some t) lens = Some (t + foldr (fun l n => 4 + l + n) 0 lens).
Proof.
  revert t. induction lens as [|l lens IH]; intros t; cbn [foldl foldr]; [right; f_equal; lia|].
  assert (foldl len_step None lens = None) as Hn by (clear; by induction lens).
  assert (len_step (Some t) l = None \/ len_step (Some t) l = Some (t + 4 + l)) as [->| ->]; [|by left|].
  { unfold len_step, checked_add. simpl. destruct (t + 4 <=? u64_max); simpl; [|auto]. destruct (_ <=? u64_max); auto. }
  destruct (IH (t + 4 + l)) as [->| ->]; [by left|right; f_equal; lia].
Qed.
Lemma body_len_sum lens : response_body_len lens <= MAX_FETCH_RESPONSE_BYTES ->
  response_body_len lens = 37 + foldr (fun l n => 4 + l + n) 0 lens.
Proof.
  change (response_body_len lens) with (default u64_max (foldl len_step (Some 37) lens)).
  destruct (len_steps lens 37) as [->| ->]; simpl; [unfold MAX_FETCH_RESPONSE_BYTES, u64_max; lia|lia].
Qed.
Lemma fetch_frame_fits f body : cwf c_fetch f -> to_vec c_fetch f = Ok body -> zlen body <= max_frame_body ProtoFetch.
Proof.
  intros W E. cbn [max_frame_body]. destruct f as [h|r].
  - assert (zlen body <= 1 + 32) by (eapply (fits_variant 0 c_id); [apply (fits_arr 32)|exact W|exact E]).
    unfold MAX_FETCH_RESPONSE_BYTES. lia.
  - apply enc_fetch_response in E as (Hv & encoded & Hf & (b & E & ->)%variant_Ok).
    destruct (tickets_valid r _ Hv) as (_ & _ & Hz). specialize (Hz _ Hf). rewrite body_len_sum in Hz by done.
    cbn [enc c_fetch_response c_pair c_vec fst snd] in E. apply wcat_Ok in E as (b1 & b2 & [= <-] & E & ->).
    apply wcat_Ok in E as (b3 & b4 & (_ & _ & ->)%write_len_Ok & Hi & ->).
    assert (zlen b4 = foldr (fun l n => 4 + l + n) 0 (zlen <$> encoded)) as Hb.
    { clear -Hi. revert b4 Hi. induction encoded as [|x l IH]; intros b4 Hi; [by injection Hi as <-|]. cbn [write_items] in Hi.
      apply wcat_Ok in Hi as (y & z & (_ & _ & ->)%write_bytes_Ok & Hz & ->). rewrite !zlen_app, (IH _ Hz).
      cbn [fmap list_fmap foldr]. unfold zlen at 1. rewrite length_le_bytes. lia. }
    rewrite !zlen_app, Hb. unfold zlen at 1 2 3. rewrite !length_le_bytes, length_be_bytes. lia.
Qed.

Lemma stream_bounds p : 0 <= max_frame_body p <= u32_max - 2.
Proof. destruct p; vm_compute; split; discriminate. Qed.

Context `{!Serialize c_frame, !Serialize c_fetch}.

(** The packet [send_exec] puts on its stream, and what [recv_exec] makes of one. *)
Definition exec_packet (b : StreamBinding) (f : ExecFrame) : result TransportError bytes :=
  validate_exec_route b f ;;?
  map_err FromWire (wire_encode c_frame (max_frame_body ProtoExec) f).
Definition exec_receive (b : StreamBinding) (bs : bytes) : result TransportError ExecFrame :=
  match b with
  | BindFetch => Err (ProtocolMismatch "received Exec frame on a Fetch stream")
  | BindExec _ =>
      let? f := map_err FromWire (wire_decode c_frame (max_frame_body ProtoExec) bs) in
      validate_exec_route b f ;;? Ok f
  end.
(** [send_typed] and [recv_fetch] on a fetch stream. *)
Definition fetch_packet (b : StreamBinding) (f : FetchFrame) : result TransportError bytes :=
  match b with
  | BindExec _ => Err (ProtocolMismatch "sent Fetch frame on a Exec stream")
  | BindFetch => map_err FromWire (wire_encode c_fetch (max_frame_body ProtoFetch) f)
  end.
Definition fetch_receive (b : StreamBinding) (bs : bytes) : result TransportError FetchFrame :=
  match b with
  | BindExec _ => Err (ProtocolMismatch "received Fetch frame on a Exec stream")
  | BindFetch => map_err FromWire (wire_decode c_fetch (max_frame_body ProtoFetch) bs)
  end.

Lemma wire_exact {A} (c : codec A) `{!Serialize c, !Canonical c} max bs a :
  0 <= max <= u32_max - 2 -> octets bs -> wire_decode c max bs = Ok a <-> cwf c a /\ wire_encode c max a = Ok bs.
Proof.
  intros Hm Ho. rewrite wire_encode_Ok by done. unfold wire_decode. split.
  - intros Hd. apply rbind_Ok in Hd as (body & Hb & Hd). apply map_err_Ok in Hd.
    apply decode_frame_iff, frame_Ok in Hb as (Hl & _ & ->); [|done].
    assert (octets body) as Hob by (unfold image in Ho; rewrite !octets_app in Ho; tauto).
    apply from_slice_iff in Hd as [W E]; [|done|done]. eauto.
  - intros (W & body & E & Hl & ->).
    rewrite (proj2 (decode_frame_iff max (image body) body Ho)) by (apply frame_Ok; split_and!; [done|lia|done]).
    cbn [rbind]. by rewrite (from_slice_to_vec c a body).
Qed.

(** C15: a stream accepts exactly what its sender writes: bytes are received as a frame
    on an execution stream, or on a fetch stream, if and only if they are the packet of
    that frame there. *)
Theorem streams_accept_their_packets session bs :
  octets bs ->
  (forall f, exec_receive (BindExec session) bs = Ok f <-> cwf c_frame f /\ exec_packet (BindExec session) f = Ok bs) /\
  (forall f, fetch_receive BindFetch bs = Ok f <-> cwf c_fetch f /\ fetch_packet BindFetch f = Ok bs).
Proof.
  intros Ho. split; intros f.
  - unfold exec_receive, exec_packet. split.
    + intros Hr. apply rbind_Ok in Hr as (g & Hd & Hr). apply map_err_Ok in Hd. apply rbind_Ok in Hr as ([] & Hv & [= ->]).
      apply (proj1 (wire_exact c_frame _ bs f (stream_bounds _) Ho)) in Hd as [W E]. split; [done|]. rewrite Hv. cbn [rbind]. by rewrite E.
    + intros [W E]. apply rbind_Ok in E as ([] & Hv & E). apply map_err_Ok in E.
      rewrite (proj2 (wire_exact c_frame _ bs f (stream_bounds _) Ho)) by done. cbn [map_err rbind]. by rewrite Hv.
  - unfold fetch_receive, fetch_packet. rewrite !map_err_Ok. exact (wire_exact c_fetch _ bs f (stream_bounds _) Ho).
Qed.

(** C16: no frame of the protocol is too large for its stream: a frame with an encoding,
    on a stream of its session, has a packet. *)
Theorem frames_fit_their_streams :
  (forall session f body, cwf c_frame f -> to_vec c_frame f = Ok body -> validate_exec_route (BindExec session) f = Ok tt ->
    exec_packet (BindExec session) f = Ok (image body)) /\
  (forall f body, cwf c_fetch f -> to_vec c_fetch f = Ok body -> fetch_packet BindFetch f = Ok (image body)).
Proof.
  split.
  - intros session f body W E Hv. unfold exec_packet. rewrite Hv. cbn [rbind]. apply map_err_Ok, wire_encode_Ok; [apply stream_bounds|].
    exists body. split_and!; [done|by eapply exec_frame_fits|done].
  - intros f body W E. apply map_err_Ok, wire_encode_Ok; [apply stream_bounds|].
    exists body. split_and!; [done|by eapply fetch_frame_fits|done].
Qed.

(** Packets delimit themselves: a proper prefix of one is rejected as incomplete
    and a longer sequence as having trailing bytes, so no packet is read as another. *)
Theorem packets_delimit_themselves max body p q :
  zlen body <= max -> max <= u32_max - 2 -> q <> [] ->
  (image body = p ++ q -> exists n m, decode_frame max p = Err (FrameTooShort n m) \/ decode_frame max p = Err (Truncated n m)) /\
  decode_frame max (image body ++ q) = Err (TrailingBytes (zlen (image body)) (zlen (image body ++ q))).
Proof.
  intros Hb Hm Hq. assert (0 < zlen q) as Hlq by (destruct q; [done|]; rewrite zlen_cons; pose proof (zlen_nonneg q); lia).
  pose proof (zlen_nonneg body). pose proof (image_header body ltac:(lia)) as Hh. pose proof (zlen_image body) as Hz.
  unfold decode_frame, check_body_size, checked_add, FRAME_HEADER_SIZE, FRAME_VERSION_SIZE, u32_max, u64_max in *. split.
  - intros He. pose proof (f_equal zlen He) as Hl. rewrite zlen_app in Hl. destruct (Z.ltb_spec (zlen p) 4) as [|H4]; [eauto|].
    cbn [err_if rbind]. replace (take 4 p) with (take 4 (image body)) by (rewrite He, take_app_le; [done|unfold zlen in *; lia]).
    rewrite Hh. repeat (rewrite (proj2 (Z.ltb_ge _ _)) by lia; cbn [err_if rbind]).
    rewrite (proj2 (Z.leb_le _ _)) by lia. cbn [ok_or rbind]. rewrite (proj2 (Z.ltb_lt _ _)) by lia. cbn [err_if rbind]. eauto.
  - rewrite take_app_le, Hh, zlen_app by (unfold zlen in *; lia).
    repeat (rewrite (proj2 (Z.ltb_ge _ _)) by lia; cbn [err_if rbind]).
    rewrite (proj2 (Z.leb_le _ _)) by lia. cbn [ok_or rbind]. rewrite (proj2 (Z.ltb_ge _ _)) by lia. cbn [err_if rbind].
    rewrite (proj2 (Z.ltb_lt _ _)) by lia. cbn [err_if rbind]. do 2 f_equal. lia.
Qed.
End Streams.

(** ** Examples *)

(** Borsh writing each value in one piece. *)
Definition whole_writes {A} (c : codec A) (a : A) : list bytes * option WireError :=
  match enc c a with Ok bs => ([bs], None) | _ => ([], Some (EncodeFailed "value")) end.
#[local] Instance whole {A} (c : codec A) : Serialize c.
Proof.
  refine {| writes := whole_writes c |}; unfold whole_writes.
  - intros a bs ->. exists [bs]. split; [done|]. simpl. apply app_nil_r.
  - intros a Hn. destruct (enc c a) as [bs| |]; [|done..]. by destruct (Hn bs).
Defined.

Definition packet0 : bytes := Eval lazy in unwrap [] (exec_packet (BindExec 77) frame0).
Lemma streams_accept_their_packets_witness : exec_receive (BindExec 77) packet0 = Ok frame0.
Proof.
  refine (proj2 (proj1 (streams_accept_their_packets 77 packet0 _) frame0) (conj _ _)).
  - apply octets_decide. reflexivity.
  - exact (conj commitment1_typed I).
  - lazy. reflexivity.
Defined.

Lemma frames_fit_their_streams_witness :
  exec_packet (BindExec 77) frame0 = Ok (image frame0_bytes) /\
  exists body, fetch_packet BindFetch (FetchActivationTickets 9) = Ok (image body).
Proof.
  split.
  - apply (proj1 frames_fit_their_streams 77 frame0 frame0_bytes); [exact (conj commitment1_typed I)|lazy; reflexivity|reflexivity].
  - eexists. apply (proj2 frames_fit_their_streams (FetchActivationTickets 9)); [split; done|reflexivity].
Defined.

Lemma packets_delimit_themselves_witness :
  exists n m, decode_frame 1 [3; 0; 0; 0; 2] = Err (FrameTooShort n m) \/ decode_frame 1 [3; 0; 0; 0; 2] = Err (Truncated n m).
Proof.
  refine (proj1 (packets_delimit_themselves 1 [7] [3; 0; 0; 0; 2] [0; 7] _ _ _) _); [by apply Z.leb_le|by apply Z.leb_le|done|reflexivity].
Defined.
