(* ===== verification/Tree.v ===== *)
(** * Leaf values and the root (primitives/src/verified_transfer.rs, crypto/src/blake3_tree.rs)

    A large object is named by its BLAKE3 hash and moved leaf by leaf.  [root] merges
    the chaining values of the leaves along BLAKE3's tree.  Shown here: the root of an
    object's leaf values is its hash. *)

From S2P Require Import Prelude Borsh Crypto Session Trace Randomness Signing Imports.

#[local] Open Scope Z_scope.

Definition LEAF_BYTES : Z := MAX_DIRECT_RANGE_BYTES.
Definition LEAVES_PER_MESSAGE : Z := 63.

Definition leaf_size : nat := Z.to_nat LEAF_BYTES.

(** ** The tree of BLAKE3 *)

(** [blake3::hazmat::left_subtree_len]: the largest power of two of bytes strictly
    below the length, of an input of more than one chunk. *)
Definition left_subtree_len (n : Z) : Z := 2 ^ Z.log2 (n - 1).

(** What [blake3::hazmat] documents: a subtree that does not start the input is as
    long as the alignment of its offset allows, an input and a subtree of more than one
    chunk are the merge of their left and right subtrees. *)
Class Blake3Tree `{Crypto, Blake3Hazmat} : Prop := {
  tree_max : forall offset, 0 < offset -> offset mod CHUNK_BYTES = 0 ->
    exists k, 0 <= k /\ max_subtree_len offset = Some (CHUNK_BYTES * 2 ^ k) /\
      (offset / CHUNK_BYTES) mod 2 ^ k = 0 /\ (offset / CHUNK_BYTES) mod 2 ^ (k + 1) <> 0;
  tree_first : max_subtree_len 0 = None;
  tree_split : forall offset data, is_subtree offset (zlen data) = true -> CHUNK_BYTES < zlen data ->
    let left := left_subtree_len (zlen data) in
    finalize_non_root offset data =
      merge_subtrees_non_root (finalize_non_root offset (take (Z.to_nat left) data))
        (finalize_non_root (offset + left) (drop (Z.to_nat left) data));
  tree_root : forall data, CHUNK_BYTES < zlen data ->
    let left := left_subtree_len (zlen data) in
    blake3 data =
      merge_subtrees_root (finalize_non_root 0 (take (Z.to_nat left) data))
        (finalize_non_root left (drop (Z.to_nat left) data)) }.

(** ** [root] *)

Section Root.
Context `{Crypto, Blake3Hazmat}.

(** [merge] and [subtree]; the fuel is the number of leaves. *)
Fixpoint merge {E} (fuel : nat) (leaves : list Z) (root : bool) : result E Z :=
  match fuel with
  | O => Panic
  | S fuel =>
      let subtree l := match l with [x] => Ok x | _ => merge fuel l false end in
      if (length leaves <? 2)%nat then Panic else
      let left := (2 ^ Nat.log2 (length leaves - 1))%nat in
      let? l := subtree (take left leaves) in
      let? r := subtree (drop left leaves) in
      Ok (merge_cv l r root)
  end.
Definition root {E} (leaves : list Z) : result E Z := merge (length leaves) leaves true.

(** The leaves of an object and their values. *)
Definition leaf_at (obj : bytes) (i : nat) : bytes :=
  take leaf_size (drop (leaf_size * i) obj).
Definition leaf_count_of (n : Z) : Z := (n + LEAF_BYTES - 1) / LEAF_BYTES.
Definition leaf_values (offset : Z) (obj : bytes) : list Z :=
  (fun i => finalize_non_root (offset + LEAF_BYTES * Z.of_nat i) (leaf_at obj i)) <$>
    seq 0 (Z.to_nat (leaf_count_of (zlen obj))).

Lemma leaf_nat : Z.of_nat leaf_size = LEAF_BYTES.
Proof. by apply Z2Nat.id. Qed.
#[local] Opaque LEAF_BYTES leaf_size.
Lemma leaf_pow : LEAF_BYTES = 2 ^ 15.
Proof. reflexivity. Qed.

Lemma leaf_offset a : 0 <= a -> Z.to_nat (a * LEAF_BYTES) = (leaf_size * Z.to_nat a)%nat.
Proof. intros Ha. rewrite Z2Nat.inj_mul by (done || rewrite leaf_pow; lia). apply Nat.mul_comm. Qed.

(** Leaves in number: [m] leaves hold [n] bytes. *)
Definition leaves_of (m : nat) (n : Z) : Prop := (Z.of_nat m - 1) * LEAF_BYTES < n <= Z.of_nat m * LEAF_BYTES.

Lemma leaf_count_eq m n : leaves_of m n -> Z.to_nat (leaf_count_of n) = m.
Proof.
  unfold leaves_of, leaf_count_of. rewrite leaf_pow. intros Hn.
  assert ((n + 2 ^ 15 - 1) / 2 ^ 15 = Z.of_nat m) as ->; [|lia].
  symmetry. apply (Z.div_unique _ _ _ (n + 2 ^ 15 - 1 - 2 ^ 15 * Z.of_nat m)); [|lia]. lia.
Qed.
Lemma leaves_count n : 0 < n -> leaves_of (Z.to_nat (leaf_count_of n)) n.
Proof.
  intros Hn. unfold leaves_of, leaf_count_of. rewrite leaf_pow.
  pose proof (Z.div_mod (n + 2 ^ 15 - 1) (2 ^ 15) ltac:(lia)). pose proof (Z.mod_pos_bound (n + 2 ^ 15 - 1) (2 ^ 15) ltac:(lia)).
  assert (0 <= (n + 2 ^ 15 - 1) / 2 ^ 15) by (apply Z.div_pos; lia). rewrite Z2Nat.id by done. lia.
Qed.
Lemma leaf_values_at m o obj : leaves_of m (zlen obj) ->
  leaf_values o obj = (fun i => finalize_non_root (o + LEAF_BYTES * Z.of_nat i) (leaf_at obj i)) <$> seq 0 m.
Proof. intros Hm. unfold leaf_values. by rewrite (leaf_count_eq m). Qed.
Lemma length_leaf_values m o obj : leaves_of m (zlen obj) -> length (leaf_values o obj) = m.
Proof. intros Hm. by rewrite (leaf_values_at m), length_fmap, length_seq. Qed.

(** The left subtree of [m] leaves. *)
Definition left_leaves (m : nat) : nat := (2 ^ Nat.log2 (m - 1))%nat.
Lemma left_leaves_spec m : (2 <= m)%nat -> (1 <= left_leaves m < m)%nat /\ (m - left_leaves m <= left_leaves m)%nat.
Proof.
  intros Hm. unfold left_leaves. destruct (Nat.log2_spec (m - 1)) as [H1 H2]; [lia|]. rewrite Nat.pow_succ_r' in H2.
  assert (2 ^ Nat.log2 (m - 1) <> 0)%nat by (by apply Nat.pow_nonzero). lia.
Qed.
Lemma left_bytes m n : (2 <= m)%nat -> leaves_of m n -> left_subtree_len n = Z.of_nat (left_leaves m) * LEAF_BYTES.
Proof.
  intros Hm Hn. unfold left_subtree_len, left_leaves, leaves_of in *. rewrite leaf_pow in *.
  set (q := Nat.log2 (m - 1)). assert (2 ^ Z.of_nat q <= Z.of_nat m - 1 < 2 * 2 ^ Z.of_nat q) as Hq.
  { destruct (Nat.log2_spec (m - 1)) as [H1 H2]; [lia|]. fold q in H1, H2. rewrite Nat.pow_succ_r' in H2.
    apply inj_le in H1. apply inj_lt in H2. rewrite Nat2Z.inj_mul, Nat2Z.inj_pow in *. lia. }
  rewrite (Z.log2_unique (n - 1) (15 + Z.of_nat q)); [|lia|].
  - rewrite Z.pow_add_r, Nat2Z.inj_pow by lia. change (Z.of_nat 2) with 2. lia.
  - rewrite Z.pow_succ_r, Z.pow_add_r by lia. lia.
Qed.

Lemma split_leaves m n : (2 <= m)%nat -> leaves_of m n ->
  leaves_of (m - left_leaves m) (n - Z.of_nat (left_leaves m) * LEAF_BYTES) /\
  Z.of_nat (left_leaves m) * LEAF_BYTES < n.
Proof.
  intros Hm Hn. destruct (left_leaves_spec m Hm) as [Hl _]. unfold leaves_of in *. rewrite leaf_pow in *.
  rewrite Nat2Z.inj_sub by lia. split; [lia|]. nia.
Qed.

Lemma zlen_take_leaves p m (obj : bytes) : leaves_of m (zlen obj) -> (p < m)%nat ->
  zlen (take (leaf_size * p) obj) = Z.of_nat p * LEAF_BYTES.
Proof.
  unfold leaves_of, zlen. intros Hm Hp. rewrite length_take. pose proof leaf_nat. pose proof leaf_pow. nia.
Qed.
Lemma zlen_drop_leaves p m (obj : bytes) : leaves_of m (zlen obj) -> (p < m)%nat ->
  zlen (drop (leaf_size * p) obj) = zlen obj - Z.of_nat p * LEAF_BYTES.
Proof.
  unfold leaves_of, zlen. intros Hm Hp. rewrite length_drop. pose proof leaf_nat. pose proof leaf_pow. nia.
Qed.

Lemma leaf_values_app p m o obj : leaves_of m (zlen obj) -> (1 <= p < m)%nat ->
  leaf_values o obj = leaf_values o (take (leaf_size * p) obj) ++
    leaf_values (o + Z.of_nat p * LEAF_BYTES) (drop (leaf_size * p) obj).
Proof.
  intros Hm Hp. pose proof (zlen_take_leaves p m obj Hm ltac:(lia)) as H1. pose proof (zlen_drop_leaves p m obj Hm ltac:(lia)) as H2.
  rewrite (leaf_values_at m) by done.
  rewrite (leaf_values_at p _ (take _ _)) by (unfold leaves_of in *; rewrite H1, leaf_pow; lia).
  rewrite (leaf_values_at (m - p) _ (drop _ _)) by (unfold leaves_of in *; rewrite H2, leaf_pow in *; lia).
  replace m with (p + (m - p))%nat at 1 by lia. rewrite seq_app, fmap_app. apply (f_equal2 app).
  - apply list_fmap_ext. intros k i Hk. apply list_numbers.list.lookup_seq in Hk as [-> Hk]. apply (f_equal2 finalize_non_root); [done|]. unfold leaf_at. cbn [Nat.add].
    rewrite skipn_firstn_comm, take_take. rewrite Nat.min_l by nia. done.
  - cbn [Nat.add]. replace (seq p (m - p)) with (Nat.add p <$> seq 0 (m - p)) by (by rewrite fmap_add_seq, Nat.add_0_r).
    rewrite <- list_fmap_compose. apply list_fmap_ext. intros k i Hk. cbn [compose].
    apply (f_equal2 finalize_non_root); [rewrite Nat2Z.inj_add; lia|].
    unfold leaf_at. rewrite drop_drop. by rewrite Nat.mul_add_distr_l.
Qed.

(** [subtree]. *)
Definition subtree {E} (fuel : nat) (l : list Z) : result E Z := match l with [x] => Ok x | _ => merge fuel l false end.
Lemma merge_S {E} fuel l b : (2 <= length l)%nat -> merge (E:=E) (S fuel) l b =
  (let? x := subtree fuel (take (left_leaves (length l)) l) in
   let? y := subtree fuel (drop (left_leaves (length l)) l) in Ok (merge_cv x y b)).
Proof. intros Hl. cbn [merge]. rewrite (proj2 (Nat.ltb_ge _ _)) by lia. done. Qed.

(** [o] is a multiple of [2 ^ j] leaves. *)
Definition aligned (j o : Z) : Prop := 0 <= j /\ 0 <= o /\ o mod (LEAF_BYTES * 2 ^ j) = 0.

Lemma aligned_weaken j k o : 0 <= k <= j -> aligned j o -> aligned k o.
Proof.
  intros Hk (Hj & Ho & Hm). split_and!; [lia|done|]. replace j with (k + (j - k)) in Hm by lia.
  rewrite Z.pow_add_r, Z.mul_assoc in Hm by lia. pose proof (Z.pow_pos_nonneg 2 k). pose proof (Z.pow_pos_nonneg 2 (j - k)).
  apply Z.mod_divide in Hm as [c Hc]; [|rewrite leaf_pow; nia]. rewrite Hc.
  apply Z.mod_divide; [rewrite leaf_pow; nia|]. exists (c * 2 ^ (j - k)). lia.
Qed.
Lemma aligned_right j o : aligned j o -> aligned j (o + 2 ^ j * LEAF_BYTES).
Proof.
  intros (Hj & Ho & Hm). pose proof (Z.pow_pos_nonneg 2 j). split_and!; [done|rewrite leaf_pow; nia|].
  replace (o + 2 ^ j * LEAF_BYTES) with (o + 1 * (LEAF_BYTES * 2 ^ j)) by lia.
  rewrite Z.mod_add by (rewrite leaf_pow; nia). done.
Qed.

Context `{!Blake3Tree}.

(** A subtree of leaves is one BLAKE3 can hash. *)
Lemma aligned_subtree j o n : aligned j o -> 0 < n <= LEAF_BYTES * 2 ^ j -> is_subtree o n = true.
Proof.
  intros (Hj & Ho & Hm) Hn. unfold is_subtree. rewrite (proj2 (Z.eqb_neq n 0)) by lia. cbn [negb andb].
  pose proof (Z.pow_pos_nonneg 2 j ltac:(lia) Hj) as Hp. apply Z.mod_divide in Hm as [c Hc]; [|rewrite leaf_pow; nia].
  rewrite leaf_pow in *. assert (o = 32 * (c * 2 ^ j) * CHUNK_BYTES) as Ho' by (unfold CHUNK_BYTES; lia).
  assert (o mod CHUNK_BYTES = 0) as -> by (rewrite Ho'; by apply Z.mod_mul). rewrite Z.eqb_refl. cbn [andb].
  destruct (Z.eq_dec o 0) as [->|Hne]; [by rewrite tree_first|].
  destruct (tree_max o) as (k & Hk & -> & _ & Hodd); [lia|rewrite Ho'; by apply Z.mod_mul|].
  rewrite Ho', Z.div_mul in Hodd by done. apply Z.leb_le.
  assert (j + 5 <= k) as Hjk.
  { apply Z.nlt_ge. intros Hlt. apply Hodd. replace (32 * (c * 2 ^ j)) with (c * 2 ^ (j + 5 - (k + 1)) * 2 ^ (k + 1)); [apply Z.mod_mul; lia|].
    rewrite <- Z.mul_assoc, <- Z.pow_add_r by lia. replace (j + 5 - (k + 1) + (k + 1)) with (j + 5) by lia. rewrite Z.pow_add_r by lia. lia. }
  pose proof (Z.pow_le_mono_r 2 (j + 5) k ltac:(lia) Hjk) as Hle. rewrite Z.pow_add_r in Hle by lia. unfold CHUNK_BYTES. lia.
Qed.

Lemma merge_leaves {E} fuel m j o obj b :
  leaves_of m (zlen obj) -> (2 <= m <= fuel)%nat -> Z.of_nat m <= 2 ^ j -> aligned j o ->
  let left := left_subtree_len (zlen obj) in
  merge (E:=E) fuel (leaf_values o obj) b =
    Ok (merge_cv (finalize_non_root o (take (Z.to_nat left) obj)) (finalize_non_root (o + left) (drop (Z.to_nat left) obj)) b).
Proof.
  revert m j o obj b. induction fuel as [|fuel IH]; intros m j o obj b Hm Hf Hj Ha; [lia|]. cbv zeta.
  assert (forall m' j' o' obj', leaves_of m' (zlen obj') -> (1 <= m' <= fuel)%nat -> Z.of_nat m' <= 2 ^ j' -> aligned j' o' ->
    subtree (E:=E) fuel (leaf_values o' obj') = Ok (finalize_non_root o' obj')) as Hsub.
  { intros m' j' o' obj' Hm' Hf' Hj' Ha'. destruct (decide (m' = 1)%nat) as [->|Hne].
    - rewrite (leaf_values_at 1) by done. cbn [seq fmap list_fmap subtree]. unfold leaf_at.
      rewrite Nat.mul_0_r, Z.mul_0_r, Z.add_0_r. rewrite drop_0, take_ge; [done|].
      unfold leaves_of, zlen in Hm'. pose proof leaf_nat. lia.
    - assert (2 <= length (leaf_values o' obj'))%nat as Hlen by (rewrite (length_leaf_values m') by done; lia).
      unfold subtree. destruct (leaf_values o' obj') as [|x [|y l]] eqn:Hv; [simpl in Hlen; lia..|]. rewrite <- Hv.
      rewrite (IH m' j') by (done || lia). f_equal. symmetry. apply (tree_split o' obj').
      + apply (aligned_subtree j'); [done|]. unfold leaves_of in Hm'. rewrite leaf_pow in *. nia.
      + unfold leaves_of in Hm'. rewrite leaf_pow in *. unfold CHUNK_BYTES. nia. }
  destruct (left_leaves_spec m ltac:(lia)) as [Hp Hr]. destruct (split_leaves m (zlen obj) ltac:(lia) Hm) as [Hright _].
  set (p := left_leaves m) in *. rewrite merge_S by (rewrite (length_leaf_values m) by done; lia).
  rewrite (length_leaf_values m) by done. fold p. rewrite (leaf_values_app p m) by (done || lia).
  assert (leaves_of p (zlen (take (leaf_size * p) obj))) as Hleft.
  { unfold leaves_of. rewrite (zlen_take_leaves p m) by (done || lia). rewrite leaf_pow. lia. }
  rewrite <- (zlen_drop_leaves p m) in Hright by (done || lia).
  rewrite take_app_length', drop_app_length' by (by rewrite (length_leaf_values p)).
  assert (left_subtree_len (zlen obj) = Z.of_nat p * LEAF_BYTES) as Hlen by (apply left_bytes; [lia|done]).
  assert (Z.to_nat (left_subtree_len (zlen obj)) = (leaf_size * p)%nat) as Hnat by (rewrite Hlen; pose proof leaf_nat; nia).
  rewrite Hnat, Hlen. assert (Z.of_nat p = 2 ^ Z.of_nat (Nat.log2 (m - 1))) as Hpow by (unfold p, left_leaves; by rewrite Nat2Z.inj_pow).
  set (q := Z.of_nat (Nat.log2 (m - 1))) in *.
  assert (aligned q o) as Hq.
  { apply (aligned_weaken j); [|done]. split; [lia|]. apply (Z.pow_le_mono_r_iff 2); [lia|apply Ha|]. lia. }
  rewrite (Hsub p q) by (done || lia). cbn [rbind].
  rewrite (Hsub (m - p)%nat q) by (done || lia || (rewrite Hpow; by apply aligned_right)). done.
Qed.

Lemma root_of_leaves {E} m obj : leaves_of m (zlen obj) -> (2 <= m)%nat -> root (E:=E) (leaf_values 0 obj) = Ok (blake3 obj).
Proof.
  intros Hm H2. unfold root. rewrite (length_leaf_values m) by done.
  rewrite (merge_leaves m m (Z.log2_up (Z.of_nat m)) 0 obj true); [|done|lia|..].
  - f_equal. rewrite Z.add_0_l. symmetry. apply tree_root. unfold leaves_of in Hm. rewrite leaf_pow in Hm. unfold CHUNK_BYTES. lia.
  - apply Z.log2_log2_up_spec. lia.
  - split_and!; [apply Z.log2_up_nonneg|lia|]. apply Z.mod_0_l. rewrite leaf_pow. pose proof (Z.pow_pos_nonneg 2 (Z.log2_up (Z.of_nat m)) ltac:(lia) (Z.log2_up_nonneg _)). lia.
Qed.

(** C14: the root of the leaf values of an object of more than one leaf, merged along
    the left-balanced tree, is the object's BLAKE3 hash. *)
Theorem root_is_blake3 {E} obj : LEAF_BYTES < zlen obj -> root (E:=E) (leaf_values 0 obj) = Ok (blake3 obj).
Proof.
  intros Hl. pose proof leaf_pow as Hp. assert (leaves_of (Z.to_nat (leaf_count_of (zlen obj))) (zlen obj)) as Hm by (apply leaves_count; lia).
  apply (root_of_leaves _ _ Hm). unfold leaves_of in Hm. lia.
Qed.
End Root.
