(* ===== verification/Transfer.v ===== *)
(** * Verified transfer (primitives/src/verified_transfer.rs)

    One participant sends an object to another over direct messages: first the
    chaining values of its leaves, then the leaves, each step waiting for the
    receiver's [Next].  [Guest] is what a handler sees of its host: the objects it may
    read, the attachment of the delivery, the partial objects, the messages already
    queued to the other side and those this dispatch sends.  Shown here: whatever a sender does, the receiver stores nothing but
    the object's bytes, in order, and reports at most once. *)

From S2P Require Import Prelude Borsh Crypto Session Trace Evidence Validation Execution Canonical Envelope ChangeLog Database Persist.
From S2P Require Import Randomness Signing Imports Emission Staging Tree.

#[local] Open Scope Z_scope.

Inductive TransferMessage := MComplete | MFailed.
Inductive TransferStatus := SComplete | SFailed.
Inductive DirectMessage :=
| Leaves (transfer_id first : Z) (cvs : list Z)
| Chunk (transfer_id : Z)
| Next (transfer_id : Z)
| Missing (transfer_id : Z).
Inductive TransferTimer := TimerSend (transfer_id : Z).
Inductive TransferError := Configuration | InvalidMessage.

Record VerifiedTransfer := MkTransfer {
  vt_id : Z;
  vt_sender : Z;
  vt_receiver : Z;
  vt_hash : BlobHash;
  vt_length : Z;
  vt_status : option TransferStatus }.
Record VerifiedTransferLocal := MkLocal { sent : Z; leaves : list Z; appended : Z; offered : bool }.
Definition local_default : VerifiedTransferLocal := MkLocal 0 [] 0 false.

Definition transfer_new (id sender receiver : Z) (hash : BlobHash) (length : Z) : result TransferError VerifiedTransfer :=
  err_if ((sender =? receiver) || (length =? 0) || (MAX_BLOB_BYTES <? length)) Configuration ;;?
  Ok (MkTransfer id sender receiver hash length None).
Definition leaf_count (t : VerifiedTransfer) : Z := leaf_count_of (vt_length t).
Definition batches (t : VerifiedTransfer) : Z := (leaf_count t + LEAVES_PER_MESSAGE - 1) / LEAVES_PER_MESSAGE.
Definition leaf_range (t : VerifiedTransfer) (index : Z) : Z * Z :=
  let start := index * LEAF_BYTES in (start, Z.min (start + LEAF_BYTES) (vt_length t)).

(** [start]: the timer every participant arms, and its delay. *)
Definition start (t : VerifiedTransfer) : TransferTimer * Z := (TimerSend (vt_id t), 0).

(** [handle]: the agreed result, from the receiver, once. *)
Definition handle (from : Z) (msg : TransferMessage) (t : VerifiedTransfer) : result TransferError VerifiedTransfer :=
  err_if (negb (from =? vt_receiver t) || is_some (vt_status t)) InvalidMessage ;;?
  Ok (MkTransfer (vt_id t) (vt_sender t) (vt_receiver t) (vt_hash t) (vt_length t)
        (Some match msg with MComplete => SComplete | MFailed => SFailed end)).

(** ** A local handler's context *)

Record Guest := MkGuest {
  g_local : VerifiedTransferLocal;
  g_holds : gmap BlobHash bytes;
  g_given : option bytes;
  g_inbox : inbox;
  g_queued : Z;
  g_out : list (Z * DirectMessage * option RangeAttachment) }.
Definition set_local (x : VerifiedTransferLocal) (g : Guest) : Guest :=
  MkGuest x (g_holds g) (g_given g) (g_inbox g) (g_queued g) (g_out g).
Definition set_inbox (x : inbox) (g : Guest) : Guest :=
  MkGuest (g_local g) (g_holds g) (g_given g) x (g_queued g) (g_out g).
Definition push_out (x : Z * DirectMessage * option RangeAttachment) (g : Guest) : Guest :=
  MkGuest (g_local g) (g_holds g) (g_given g) (g_inbox g) (g_queued g) (g_out g ++ [x]).

Definition slice (a b : Z) (l : bytes) : bytes := take (Z.to_nat (b - a)) (drop (Z.to_nat a) l).
(** The attachment a token names. *)
Definition given (token : Z) (g : Guest) : option bytes :=
  match g_given g with
  | Some b => if (token =? 0) && negb (zlen b =? 0) then Some b else None
  | None => None
  end.

Section Transfer.
Context `{Crypto, Blake3Hazmat}.

(** The calls of [ctx.blobs()] and [ctx.send_direct]. *)
Definition g_subtree_cv (src : CvSource) (offset : Z) (g : Guest) : BlobError + Z :=
  match src with
  | CvBlob hash a b =>
      if (b <=? a) || (MAX_DIRECT_RANGE_BYTES <? b - a) then inl BadRange else
      match g_holds g !! hash with
      | None => inl NotFound
      | Some obj => if (zlen obj <? b) || negb (is_subtree offset (b - a)) then inl BadRange
                    else inr (finalize_non_root offset (slice a b obj))
      end
  | CvAttachment token =>
      match given token g with
      | None => inl BadAttachment
      | Some b => if (MAX_DIRECT_RANGE_BYTES <? zlen b) || negb (is_subtree offset (zlen b)) then inl BadRange
                  else inr (finalize_non_root offset b)
      end
  end.
Definition g_append (hash : BlobHash) (length token : Z) (g : Guest) : BlobError + Guest :=
  if MAX_BLOB_BYTES <? length then inl Quota else
  match given token g with
  | None => inl BadAttachment
  | Some data =>
      match g_inbox g !! hash with
      | None => if length <? zlen data then inl BadRange
                else inr (set_inbox (<[hash := MkReceived length data false]> (g_inbox g)) g)
      | Some r => if rv_committed r || negb (rv_length r =? length) || (length <? zlen (rv_bytes r) + zlen data) then inl BadRange
                  else inr (set_inbox (<[hash := MkReceived length (rv_bytes r ++ data) false]> (g_inbox g)) g)
      end
  end.
Definition g_commit (hash : BlobHash) (g : Guest) : BlobError + Guest :=
  match g_inbox g !! hash with
  | None => inl NotFound
  | Some r =>
      if rv_committed r then inl BadRange else
      if negb (zlen (rv_bytes r) =? rv_length r) then inl Incomplete else
      if negb (blake3 (rv_bytes r) =? hash) then inl Mismatch else
      inr (set_inbox (<[hash := MkReceived (rv_length r) (rv_bytes r) true]> (g_inbox g)) g)
  end.
(** The bytes of a message's encoding. *)
Definition direct_len (m : DirectMessage) : Z := match m with Leaves _ _ cvs => 1 + 8 + 4 + 4 + 32 * zlen cvs | _ => 1 + 8 end.
(** A full queue is the handler's [expect]; a message over the limit or an ungranted
    range ends the call. *)
Definition g_send (to : Z) (msg : DirectMessage) (range : option RangeAttachment) : M Guest Trap unit :=
  sread (fun _ => err_if (MAX_DIRECT_CONTROL_BYTES <? direct_len msg) (TrapMsg "send_direct: control message exceeds limit")) ;;!
  sread (fun g => match range with
                  | None => Ok tt
                  | Some r => err_if (match g_holds g !! range_hash r with
                                      | Some obj => (range_end r <=? range_start r) || (zlen obj <? range_end r)
                                                    || (MAX_DIRECT_RANGE_BYTES <? range_end r - range_start r)
                                      | None => true
                                      end) (TrapMsg "send_direct: invalid source range")
                  end) ;;!
  sread (fun g => if MAX_DIRECT_QUEUE <=? g_queued g + zlen (filter (fun x => x.1.1 = to) (g_out g)) then Panic else Ok tt) ;;!
  smodify (push_out (to, msg, range)).
Definition on_local (f : VerifiedTransferLocal -> VerifiedTransferLocal) : M Guest Trap unit :=
  smodify (fun g => set_local (f (g_local g)) g).

(** ** The sender *)

(** The values of a batch, or the first error. *)
Fixpoint batch_cvs (t : VerifiedTransfer) (idx : list Z) (g : Guest) : BlobError + list Z :=
  match idx with
  | [] => inr []
  | i :: idx =>
      let '(a, b) := leaf_range t i in
      match g_subtree_cv (CvBlob (vt_hash t) a b) a g with
      | inl e => inl e
      | inr cv => match batch_cvs t idx g with inl e => inl e | inr cvs => inr (cv :: cvs) end
      end
  end.
Definition send_step (t : VerifiedTransfer) (step : Z) : M Guest Trap unit :=
  let advance := on_local (fun l => MkLocal (step + 1) (leaves l) (appended l) (offered l)) in
  if step <? batches t then
    let first := step * LEAVES_PER_MESSAGE in
    let stop := Z.min ((step + 1) * LEAVES_PER_MESSAGE) (leaf_count t) in
    let! r := sread (fun g => Ok (batch_cvs t (seqZ first (stop - first)) g)) in
    match r with
    | inl NotFound => g_send (vt_receiver t) (Missing (vt_id t)) None
    | inl _ => sread (fun _ => Panic)
    | inr cvs => g_send (vt_receiver t) (Leaves (vt_id t) first cvs) None ;;! advance
    end
  else
    let '(a, b) := leaf_range t (step - batches t) in
    g_send (vt_receiver t) (Chunk (vt_id t)) (Some (MkRange (vt_hash t) a b)) ;;! advance.
Definition on_timer (t : VerifiedTransfer) (me : Z) (timer : TransferTimer) : M Guest Trap unit :=
  let '(TimerSend transfer_id) := timer in
  if negb (transfer_id =? vt_id t) || is_some (vt_status t) then sret tt else
  if me =? vt_sender t then send_step t 0 else sret tt.

(** ** The receiver *)

Definition offer (m : TransferMessage) : M Guest Trap (option TransferMessage) :=
  on_local (fun l => MkLocal (sent l) (leaves l) (appended l) true) ;;! sret (Some m).
Definition send_next (t : VerifiedTransfer) : M Guest Trap (option TransferMessage) :=
  g_send (vt_sender t) (Next (vt_id t)) None ;;! sret None.

Definition receive_leaves (t : VerifiedTransfer) (first : Z) (cvs : list Z) : M Guest Trap (option TransferMessage) :=
  let! l := sread (fun g => Ok (g_local g)) in
  if negb (first =? zlen (leaves l)) || (zlen cvs =? 0) || (LEAVES_PER_MESSAGE <? zlen cvs)
     || (leaf_count t <? zlen (leaves l) + zlen cvs)
  then offer MFailed else
  let all := leaves l ++ cvs in
  on_local (fun l => MkLocal (sent l) all (appended l) (offered l)) ;;!
  let! bad := (if (zlen all =? leaf_count t) && (2 <=? leaf_count t)
               then sread (fun _ => rmap (fun h => negb (h =? vt_hash t)) (root all)) else sret false) in
  if bad then offer MFailed else send_next t.

Definition receive_chunk (t : VerifiedTransfer) (attachment : option Z) : M Guest Trap (option TransferMessage) :=
  let! l := sread (fun g => Ok (g_local g)) in
  if negb (zlen (leaves l) =? leaf_count t) then offer MFailed else
  match attachment with
  | None => offer MFailed
  | Some token =>
      let offset := appended l * LEAF_BYTES in
      let! expected := sread (fun _ => expect (leaves l !! Z.to_nat (appended l))) in
      let! g := sread (fun g => Ok g) in
      let stored := match g_subtree_cv (CvAttachment token) offset g with
                    | inr cv => if cv =? expected
                                then match g_append (vt_hash t) (vt_length t) token g with inr g' => Some g' | inl _ => None end
                                else None
                    | inl _ => None
                    end in
      match stored with
      | None => offer MFailed
      | Some g' =>
          smodify (fun _ => g') ;;!
          on_local (fun l => MkLocal (sent l) (leaves l) (appended l + 1) (offered l)) ;;!
          if appended l + 1 =? leaf_count t then
            let! g := sread (fun g => Ok g) in
            match g_commit (vt_hash t) g with
            | inr g' => smodify (fun _ => g') ;;! offer MComplete
            | inl _ => offer MFailed
            end
          else send_next t
      end
  end.

Definition msg_transfer (m : DirectMessage) : Z := match m with Leaves i _ _ | Chunk i | Next i | Missing i => i end.
Definition on_direct (t : VerifiedTransfer) (me from : Z) (msg : DirectMessage) (attachment : option Z)
    : M Guest Trap (option TransferMessage) :=
  if negb (msg_transfer msg =? vt_id t) || is_some (vt_status t) then sret None else
  let! l := sread (fun g => Ok (g_local g)) in
  if me =? vt_sender t then
    (if (from =? vt_receiver t) && match msg with Next _ => true | _ => false end
        && negb (sent l =? batches t + leaf_count t)
     then send_step t (sent l) else sret tt) ;;! sret None
  else if negb (me =? vt_receiver t) || negb (from =? vt_sender t) || offered l then sret None else
  match msg with
  | Leaves _ first cvs => receive_leaves t first cvs
  | Chunk _ => receive_chunk t attachment
  | Missing _ => offer MFailed
  | Next _ => sret None
  end.

(** ** What the handlers do *)

Lemma g_send_Ok to msg range g u g' : g_send to msg range g = (Ok u, g') -> g' = push_out (to, msg, range) g.
Proof.
  unfold g_send. cbv [sbind sread smodify]. destruct (MAX_DIRECT_CONTROL_BYTES <? direct_len msg); [done|]. cbn [err_if]. destruct range as [r|]; cbn.
  - destruct (match _ with Some _ => _ | None => _ end); [done|]. cbn. destruct (_ <=? _); [done|]. by intros [= _ <-].
  - destruct (_ <=? _); [done|]. by intros [= _ <-].
Qed.

(** What a handler of the receiver leaves alone. *)
Record kept (g g' : Guest) : Prop := { kp_inbox : g_inbox g' = g_inbox g; kp_appended : appended (g_local g') = appended (g_local g) }.

Definition failed (g g' : Guest) (r : option TransferMessage) : Prop :=
  r = Some MFailed /\ offered (g_local g') = true /\ kept g g'.

Lemma offer_failed g r g' : offer MFailed g = (Ok r, g') -> failed g g' r /\ leaves (g_local g') = leaves (g_local g).
Proof. intros [= <- <-]. split; [|done]. split; [done|]. split; [done|]. by split. Qed.

Lemma receive_leaves_Ok t first cvs g r g' :
  receive_leaves t first cvs g = (Ok r, g') ->
  failed g g' r \/ r = None /\ kept g g' /\ offered (g_local g') = offered (g_local g) /\
    zlen (leaves (g_local g')) <= leaf_count t /\ leaves (g_local g') = leaves (g_local g) ++ cvs /\
    (zlen (leaves (g_local g')) = leaf_count t -> 2 <= leaf_count t -> root (E:=Trap) (leaves (g_local g')) = Ok (vt_hash t)).
Proof.
  unfold receive_leaves. unfold sbind at 1. cbn [sread]. destruct (_ || _) eqn:Hg; [intros Ho; left; by eapply offer_failed|].
  rewrite !orb_false_iff in Hg. destruct Hg as [_ Hle%Z.ltb_ge]. rewrite <- zlen_app in Hle.
  set (all := leaves (g_local g) ++ cvs) in *. unfold on_local. unfold sbind at 1. cbn [smodify].
  set (g1 := set_local _ g). intros Hr. unfold sbind in Hr at 1.
  destruct ((zlen all =? leaf_count t) && (2 <=? leaf_count t)) eqn:Hc.
  - cbv [sread] in Hr. destruct (root all) as [h|e|] eqn:Hroot; [|done..]. cbn [rmap rbind] in Hr.
    destruct (Z.eqb_spec h (vt_hash t)) as [->|Hne]; cbn [negb] in Hr; [|left; injection Hr as <- <-; split_and!; try done; by split].
    right. unfold send_next, sbind in Hr. destruct (g_send _ _ _ g1) as [[u| |] g2] eqn:Hs; [|done..]. injection Hr as <- <-.
    apply g_send_Ok in Hs as ->. done.
  - cbv [sret] in Hr. right. unfold send_next, sbind in Hr. destruct (g_send _ _ _ g1) as [[u| |] g2] eqn:Hs; [|done..].
    injection Hr as <- <-. apply g_send_Ok in Hs as ->. split_and!; try done. simpl. intros He H2.
    apply andb_false_iff in Hc as [Hc|Hc]; lia.
Qed.

(** A chunk that is stored. *)
Record stored (t : VerifiedTransfer) (g g' : Guest) (data : bytes) : Prop := {
  st_given : g_given g = Some data;
  st_complete : zlen (leaves (g_local g)) = leaf_count t;
  st_value : leaves (g_local g) !! Z.to_nat (appended (g_local g)) = Some (finalize_non_root (appended (g_local g) * LEAF_BYTES) data);
  st_leaves : leaves (g_local g') = leaves (g_local g);
  st_appended : appended (g_local g') = appended (g_local g) + 1;
  st_inbox : exists r, g_inbox g' !! vt_hash t = Some r /\ rv_length r = vt_length t /\
    rv_bytes r = bytes_at (g_inbox g) (vt_hash t) ++ data }.

Lemma g_append_inv hash len tok g g' : g_append hash len tok g = inr g' -> exists data r,
  given tok g = Some data /\ g' = set_inbox (<[hash := r]> (g_inbox g)) g /\ rv_length r = len /\
  rv_bytes r = bytes_at (g_inbox g) hash ++ data.
Proof.
  unfold g_append. destruct (MAX_BLOB_BYTES <? len); [done|]. destruct (given tok g) as [data|]; [|done]. unfold bytes_at.
  destruct (g_inbox g !! hash) as [r|]; [destruct (_ || _)|destruct (_ <? _)]; [done| |done|];
    intros [= <-]; by eexists _, _.
Qed.
Lemma g_commit_inv hash g g' : g_commit hash g = inr g' -> exists r, g_inbox g !! hash = Some r /\
  zlen (rv_bytes r) = rv_length r /\ blake3 (rv_bytes r) = hash /\
  g' = set_inbox (<[hash := MkReceived (rv_length r) (rv_bytes r) true]> (g_inbox g)) g.
Proof.
  unfold g_commit. destruct (g_inbox g !! hash) as [r|]; [|done]. destruct (rv_committed r); [done|].
  destruct (Z.eqb_spec (zlen (rv_bytes r)) (rv_length r)); [|done]. destruct (Z.eqb_spec (blake3 (rv_bytes r)) hash); [|done].
  intros [= <-]. by exists r.
Qed.

Lemma receive_chunk_Ok t att g r g' :
  receive_chunk t att g = (Ok r, g') ->
  failed g g' r \/ exists data, stored t g g' data /\
    (r = None /\ offered (g_local g') = offered (g_local g) /\ appended (g_local g) + 1 <> leaf_count t \/
     r = Some MFailed /\ offered (g_local g') = true \/
     r = Some MComplete /\ offered (g_local g') = true /\ exists x, g_inbox g' !! vt_hash t = Some x /\
       rv_committed x = true /\ zlen (rv_bytes x) = vt_length t).
Proof.
  unfold receive_chunk. unfold sbind at 1. cbn [sread]. destruct (Z.eqb_spec (zlen (leaves (g_local g))) (leaf_count t)) as [Hc|]; cbn [negb];
    [|intros Ho; left; by eapply offer_failed].
  destruct att as [tok|]; [|intros Ho; left; by eapply offer_failed]. unfold sbind at 1 2. cbn [sread].
  destruct (leaves (g_local g) !! Z.to_nat (appended (g_local g))) as [ex|] eqn:Hex; [|done]. cbn [expect].
  intros Hr. set (s := match g_subtree_cv _ _ _ with inl _ => None | inr _ => _ end) in Hr.
  assert (forall g1, s = Some g1 -> exists data r1, g_given g = Some data /\ finalize_non_root (appended (g_local g) * LEAF_BYTES) data = ex /\
    g1 = set_inbox (<[vt_hash t := r1]> (g_inbox g)) g /\ rv_length r1 = vt_length t /\ rv_bytes r1 = bytes_at (g_inbox g) (vt_hash t) ++ data) as Hs.
  { intros g1 Hg1. unfold s, g_subtree_cv in Hg1. destruct (given tok g) as [data|] eqn:Hgiv; [|done].
    destruct (_ || _); [done|]. destruct (Z.eqb_spec (finalize_non_root (appended (g_local g) * LEAF_BYTES) data) ex) as [He|]; [|done].
    destruct (g_append _ _ _ _) as [|g2] eqn:Ha; [done|]. injection Hg1 as <-.
    apply g_append_inv in Ha as (data' & r1 & Hd & -> & Hl & Hb). rewrite Hgiv in Hd. injection Hd as <-. exists data, r1.
    split; [|done]. unfold given in Hgiv. destruct (g_given g) as [b|]; [|done]. destruct (_ && _); [by injection Hgiv as ->|done]. }
  clearbody s. destruct s as [g1|]; [|left; by eapply offer_failed].
  destruct (Hs g1 eq_refl) as (data & r1 & Hsrc & He & -> & Hl & Hb). right. exists data.
  unfold on_local in Hr. unfold sbind in Hr at 1 2. cbn [smodify] in Hr. set (g2 := set_local _ _) in Hr.
  assert (forall g3, leaves (g_local g3) = leaves (g_local g) -> appended (g_local g3) = appended (g_local g) + 1 ->
    (exists r2, g_inbox g3 !! vt_hash t = Some r2 /\ rv_length r2 = rv_length r1 /\ rv_bytes r2 = rv_bytes r1) -> stored t g g3 data) as Hst.
  { intros g3 H1 H2 (r2 & H3 & H4 & H5). split; try done; [by rewrite He|]. exists r2. split_and!; congruence. }
  assert (g_inbox g2 !! vt_hash t = Some r1) as Hin by (unfold g2; simpl; by rewrite lookup_insert_eq).
  destruct (Z.eqb_spec (appended (g_local g) + 1) (leaf_count t)) as [Hlast|Hlast].
  - unfold sbind in Hr at 1. cbn [sread] in Hr. destruct (g_commit (vt_hash t) g2) as [e|g3] eqn:Hcom.
    + injection Hr as <- <-. split; [|right; by left]. apply Hst; [done|done|]. by exists r1.
    + injection Hr as <- <-. apply g_commit_inv in Hcom as (r2 & Hr2 & Hlen & Hh & ->). rewrite Hin in Hr2. injection Hr2 as <-.
      split.
      * apply Hst; [done|done|]. eexists. split; [simpl; by rewrite lookup_insert_eq|]. done.
      * right; right. split; [done|]. split; [done|]. eexists. split; [simpl; by rewrite lookup_insert_eq|]. simpl. split; [done|congruence].
  - unfold send_next, sbind in Hr. destruct (g_send _ _ _ g2) as [[u| |] g3] eqn:Hsend; [|done..]. injection Hr as <- <-.
    apply g_send_Ok in Hsend as ->. split; [apply Hst; [done|done|by exists r1]|]. left. done.
Qed.

(** ** Deliveries *)

(** A delivery starts a dispatch with its attachment and the queue as it is; a trap
    rolls it back. *)
Record Arrival := MkArrival { ar_msg : DirectMessage; ar_bytes : option bytes; ar_queued : Z }.
Definition enter (att : option bytes) (queued : Z) (g : Guest) : Guest :=
  MkGuest (g_local g) (g_holds g) att (g_inbox g) queued [].
Definition token_of (att : option bytes) : option Z := match att with Some _ => Some 0 | None => None end.
Definition arrive (t : VerifiedTransfer) (me from : Z) (a : Arrival) (g : Guest) : option TransferMessage * Guest :=
  match on_direct t me from (ar_msg a) (token_of (ar_bytes a)) (enter (ar_bytes a) (ar_queued a) g) with
  | (Ok r, g') => (r, g')
  | _ => (None, g)
  end.
Fixpoint arrivals (t : VerifiedTransfer) (me from : Z) (l : list Arrival) (g : Guest) : list TransferMessage * Guest :=
  match l with
  | [] => ([], g)
  | a :: l => let '(r, g) := arrive t me from a g in
              let '(rs, g) := arrivals t me from l g in (option_list r ++ rs, g)
  end.

(** *** Against any sender *)

(** A value a sender sent. *)
Definition sent_value (l : list Arrival) (v : Z) : Prop :=
  exists a id first cvs, a ∈ l /\ ar_msg a = Leaves id first cvs /\ v ∈ cvs.
(** What deliveries must hold to pass for an object they are not: an attachment with
    the chaining value of a leaf it is not, or other leaf values with the object's root. *)
Definition forgery (obj : bytes) (l : list Arrival) : Prop :=
  (exists a i data, a ∈ l /\ ar_bytes a = Some data /\ data <> leaf_at obj i /\
     finalize_non_root (LEAF_BYTES * Z.of_nat i) data = finalize_non_root (LEAF_BYTES * Z.of_nat i) (leaf_at obj i)) \/
  (exists vs, Forall (sent_value l) vs /\ vs <> leaf_values 0 obj /\ length vs = length (leaf_values 0 obj) /\
     root (E:=Trap) vs = Ok (blake3 obj)).

Lemma sent_value_app l k v : sent_value l v -> sent_value (l ++ k) v.
Proof. intros (a & id & first & cvs & Ha & Hm & Hv). exists a, id, first, cvs. split; [|done]. apply elem_of_app. by left. Qed.

Section Receiver.
Context (t : VerifiedTransfer) (obj : bytes).
Context (named : blake3 obj = vt_hash t) (whole : zlen obj = vt_length t) (large : LEAF_BYTES < vt_length t).
#[local] Opaque LEAF_BYTES leaf_size.

Record receiving (past : list Arrival) (offers : list TransferMessage) (g : Guest) : Prop := {
  rc_sources : offered (g_local g) = false -> Forall (sent_value past) (leaves (g_local g));
  rc_count : offered (g_local g) = false -> zlen (leaves (g_local g)) <= leaf_count t;
  rc_values : offered (g_local g) = false -> zlen (leaves (g_local g)) = leaf_count t -> leaves (g_local g) = leaf_values 0 obj;
  rc_range : 0 <= appended (g_local g) <= leaf_count t;
  rc_offers : if offered (g_local g) then length offers = 1%nat else offers = [];
  rc_open : offered (g_local g) = false -> appended (g_local g) < leaf_count t;
  rc_inbox : bytes_at (g_inbox g) (vt_hash t) = take (Z.to_nat (appended (g_local g) * LEAF_BYTES)) obj;
  rc_final : MComplete ∈ offers -> exists r, g_inbox g !! vt_hash t = Some r /\ rv_committed r = true /\ rv_bytes r = obj }.

Lemma count_leaves : leaves_of (Z.to_nat (leaf_count t)) (zlen obj) /\ 2 <= leaf_count t.
Proof.
  assert (leaves_of (Z.to_nat (leaf_count t)) (zlen obj)) as Hm by (unfold leaf_count; rewrite <- whole; apply leaves_count; pose proof leaf_pow; lia).
  split; [done|]. unfold leaves_of in Hm. rewrite whole in Hm. pose proof leaf_pow. lia.
Qed.

Lemma receiving_same past a offers g g' :
  g_local g' = g_local g -> g_inbox g' = g_inbox g -> receiving past offers g -> receiving (past ++ [a]) offers g'.
Proof.
  intros Hl Hi []. split; rewrite ?Hl, ?Hi; try done. intros Ho. eapply Forall_impl; [by apply rc_sources0|]. intros. by apply sent_value_app.
Qed.

Lemma receiving_failed past k g0 g g' r :
  receiving past [] g0 -> g_local g = g_local g0 -> g_inbox g = g_inbox g0 -> failed g g' r -> receiving k (option_list r) g'.
Proof.
  intros [] Hl Hi (-> & Ho & Hin & Hap). rewrite Hi in Hin. rewrite Hl in Hap.
  split; rewrite ?Ho, ?Hin, ?Hap; try done. by intros ?%list_elem_of_singleton.
Qed.

(** Complete leaf values with the agreed root are the object's. *)
Lemma values_genuine past l :
  Forall (sent_value past) l -> zlen l = leaf_count t -> root (E:=Trap) l = Ok (vt_hash t) -> l = leaf_values 0 obj \/ forgery obj past.
Proof.
  intros Hs Hl Hr. destruct count_leaves as [Hm H2]. destruct (decide (l = leaf_values 0 obj)) as [|Hne]; [by left|right; right].
  exists l. split_and!; [done|done| |by rewrite named]. rewrite (length_leaf_values _ _ _ Hm). unfold zlen in Hl. lia.
Qed.

(** A stored chunk is the next leaf of the object. *)
Lemma chunk_genuine past a g g' data :
  a ∈ past -> g_given g = ar_bytes a ->
  leaves (g_local g) = leaf_values 0 obj -> 0 <= appended (g_local g) ->
  bytes_at (g_inbox g) (vt_hash t) = take (Z.to_nat (appended (g_local g) * LEAF_BYTES)) obj -> stored t g g' data ->
  forgery obj past \/ exists r, g_inbox g' !! vt_hash t = Some r /\ rv_length r = vt_length t /\
    rv_bytes r = take (Z.to_nat ((appended (g_local g) + 1) * LEAF_BYTES)) obj.
Proof.
  intros Hpast Hgiv Hv Ha Hb [Hsrc Hc Hx _ _ (r & Hr & Hl & Hbytes)]. destruct count_leaves as [Hm _]. set (i := Z.to_nat (appended (g_local g))) in *.
  rewrite Hv, (leaf_values_at _ _ _ Hm), list_lookup_fmap in Hx. apply fmap_Some in Hx as (k & Hk & Hx).
  apply list_numbers.list.lookup_seq in Hk as [-> Hk]. cbn [Nat.add] in Hx.
  replace (appended (g_local g) * LEAF_BYTES) with (LEAF_BYTES * Z.of_nat i) in Hx by (unfold i; rewrite Z2Nat.id by done; lia).
  rewrite Z.add_0_l in Hx.
  destruct (decide (data = leaf_at obj i)) as [->|Hne]; [right|left; left; exists a, i, data; split_and!; congruence].
  exists r. split; [done|]. split; [done|]. rewrite Hbytes, Hb. unfold leaf_at. rewrite !leaf_offset by lia. fold i.
  rewrite take_take_drop. replace (Z.to_nat (appended (g_local g) + 1)) with (S i) by (unfold i; lia). by rewrite Nat.mul_succ_r.
Qed.

Context (distinct : vt_sender t <> vt_receiver t).

Lemma receive_step past a offers g r g' : receiving past offers g -> arrive t (vt_receiver t) (vt_sender t) a g = (r, g') ->
  receiving (past ++ [a]) (offers ++ option_list r) g' \/ forgery obj (past ++ [a]).
Proof.
  intros Hrec Ha. unfold arrive in Ha. set (g0 := enter _ _ g) in Ha.
  assert (g_local g0 = g_local g /\ g_inbox g0 = g_inbox g) as [Hl0 Hi0] by done.
  destruct (on_direct _ _ _ _ _ g0) as [[r0| |] g1] eqn:Hd; injection Ha as <- <-;
    [|left; rewrite app_nil_r; by apply (receiving_same past a offers g)..].
  unfold on_direct in Hd. destruct (_ || _); [injection Hd as <- <-; left; rewrite app_nil_r; by apply (receiving_same past a offers g)|].
  unfold sbind in Hd at 1. cbn [sread] in Hd. rewrite (proj2 (Z.eqb_neq (vt_receiver t) (vt_sender t))) in Hd by done.
  rewrite !Z.eqb_refl in Hd. cbn [negb orb] in Hd. rewrite Hl0 in Hd.
  destruct (offered (g_local g)) eqn:Hoff; [injection Hd as <- <-; left; rewrite app_nil_r; by apply (receiving_same past a offers g)|].
  assert (offers = []) as -> by (pose proof (rc_offers _ _ _ Hrec) as Hx; by rewrite Hoff in Hx). simpl.
  destruct (ar_msg a) as [id first cvs|id|id|id] eqn:Hmsg.
  - apply receive_leaves_Ok in Hd as [Hf|(-> & [Hin Hap] & Ho & Hle & Hall & Hroot)]; [left; by eapply (receiving_failed past _ g)|].
    rewrite Hl0 in Hap, Ho, Hall. rewrite Hi0 in Hin. destruct Hrec as [Hs Hc Hv Hr Hof Hop Hib Hfi]. rewrite Hoff in Ho.
    assert (Forall (sent_value (past ++ [a])) (leaves (g_local g1))) as Hs1.
    { rewrite Hall. apply Forall_app. split; [eapply Forall_impl; [by apply Hs|]; intros; by apply sent_value_app|].
      apply Forall_forall. intros v Hvin. exists a, id, first, cvs. split; [apply elem_of_app; right; by left|done]. }
    destruct (decide (zlen (leaves (g_local g1)) = leaf_count t)) as [Hz|Hz];
      [destruct (values_genuine (past ++ [a]) (leaves (g_local g1))) as [Hvals|]; [done|done|apply Hroot; [done|apply count_leaves]| |by right]|];
      left; split; rewrite ?Hin, ?Hap, ?Ho; try done; auto.
  - apply receive_chunk_Ok in Hd as [Hf|(data & Hst & Hcase)]; [left; by eapply (receiving_failed past _ g)|].
    pose proof Hrec as [Hs Hc Hv Hr Hof Hop Hib Hfi].
    destruct (chunk_genuine (past ++ [a]) a g0 g1 data) as [|(x & Hx & Hlen & Hb)];
      [apply elem_of_app; right; by left|done|by rewrite Hl0; apply Hv; [|rewrite <- Hl0; apply Hst]|by rewrite Hl0; apply Hr|by rewrite Hl0, Hi0|done|by right|].
    rewrite Hl0 in Hb. left.
    assert (bytes_at (g_inbox g1) (vt_hash t) = take (Z.to_nat (appended (g_local g1) * LEAF_BYTES)) obj) as Hbytes
      by (unfold bytes_at; rewrite Hx, (st_appended _ _ _ _ Hst), Hl0; done).
    assert (0 <= appended (g_local g1) <= leaf_count t) as Hrange by (rewrite (st_appended _ _ _ _ Hst), Hl0; specialize (Hop Hoff); lia).
    destruct Hcase as [(-> & Ho & Hlast)|[[-> Ho]|(-> & Ho & y & Hy & Hcom & Hfull)]].
    + rewrite Hl0, Hoff in Ho. split; rewrite ?Ho; try done; rewrite ?(st_leaves _ _ _ _ Hst), ?(st_appended _ _ _ _ Hst), ?Hl0; auto; try lia.
      * intros _. eapply Forall_impl; [by apply Hs|]. intros. by apply sent_value_app.
      * rewrite Hl0 in Hlast. specialize (Hop Hoff). lia.
      * by intros ?%not_elem_of_nil.
    + split; rewrite ?Ho; try done. by intros ?%list_elem_of_singleton.
    + split; rewrite ?Ho; try done. intros _. rewrite Hx in Hy. injection Hy as <-. exists x. split_and!; [done|done|].
      rewrite Hb in Hfull |- *. rewrite <- whole in Hfull. apply take_ge. unfold zlen in Hfull. rewrite length_take in Hfull. lia.
  - injection Hd as <- <-. left. by apply (receiving_same past a [] g).
  - left. eapply (receiving_failed past _ g g0); [done..|]. by eapply offer_failed.
Qed.

Lemma forgery_app past l : forgery obj past -> forgery obj (past ++ l).
Proof.
  intros [(a & i & data & Ha & Hf)|(vs & Hs & Hf)]; [left; exists a, i, data; split; [apply elem_of_app; by left|done]|].
  right. exists vs. split; [|done]. eapply Forall_impl; [done|]. intros. by apply sent_value_app.
Qed.

Lemma receive_all l past offers g rs g' : receiving past offers g -> arrivals t (vt_receiver t) (vt_sender t) l g = (rs, g') ->
  receiving (past ++ l) (offers ++ rs) g' \/ forgery obj (past ++ l).
Proof.
  revert past offers g rs g'. induction l as [|a l IH]; intros past offers g rs g' Hr Ha; simpl in Ha.
  - injection Ha as <- <-. left. by rewrite !app_nil_r.
  - destruct (arrive _ _ _ _ _) as [r g1] eqn:Hone. destruct (arrivals _ _ _ _ g1) as [k g2] eqn:Hrest. injection Ha as <- <-.
    rewrite (cons_middle a past l), !app_assoc.
    destruct (receive_step _ _ _ _ _ _ Hr Hone) as [Hr1|Hf]; [by eapply IH|right; by apply forgery_app].
Qed.

End Receiver.

(** C11: whatever direct messages and attachments a sender delivers, the receiver of a
    transfer of more than one leaf stores nothing but a prefix of the object its terms
    name, reports at most one result, and reports completion only with the whole object
    committed; unless the deliveries themselves hold a forgery: an attachment with the
    chaining value of a leaf it is not, or other leaf values with the object's root. *)
Theorem transfer_stores_only_the_object t obj l g rs g' :
  blake3 obj = vt_hash t -> zlen obj = vt_length t -> LEAF_BYTES < vt_length t ->
  vt_sender t <> vt_receiver t -> g_local g = local_default -> g_inbox g !! vt_hash t = None ->
  arrivals t (vt_receiver t) (vt_sender t) l g = (rs, g') ->
  forgery obj l \/
  (exists n, bytes_at (g_inbox g') (vt_hash t) = take n obj) /\ (length rs <= 1)%nat /\
  (MComplete ∈ rs -> exists r, g_inbox g' !! vt_hash t = Some r /\ rv_committed r = true /\ rv_bytes r = obj).
Proof.
  intros Hh Hz Hl Hd Hloc Hin Ha. destruct (count_leaves t obj Hz Hl) as [_ H2].
  destruct (receive_all t obj Hh Hz Hl Hd l [] [] g rs g') as [[]|]; [|done|right|by left].
  - split; rewrite ?Hloc; simpl; try done; try (change (zlen (@nil Z)) with 0); try lia.
    + unfold bytes_at. by rewrite Hin.
    + by intros ?%not_elem_of_nil.
  - split; [by eexists|]. split; [|done]. simpl in rc_offers0. destruct (offered (g_local g')); [by rewrite rc_offers0|]. rewrite rc_offers0. simpl. lia.
Qed.
End Transfer.
