(* ===== verification/TransferHost.v ===== *)
(** * The blob calls of a handler, on the host (sandbox/src/engine/imports/capabilities.rs)

    [Transfer] lets a handler's context answer its blob calls from an inbox and the
    objects it holds.  Here the host's imports, over the changes a dispatch stages and a
    view of the store, are shown to implement that context. *)

From S2P Require Import Prelude Borsh Crypto Session Trace Evidence Validation Execution Canonical Envelope ChangeLog Database Persist.
From S2P Require Import Randomness Signing Imports Emission Staging Tree Transfer.

#[local] Open Scope Z_scope.

(** The interface of a view for reading: the objects an execution may read. *)
Class Granting (v : BlobView) (holds : gmap BlobHash bytes) : Prop := {
  gr_length : forall hash o, granted v hash = Ok o -> o = zlen <$> holds !! hash;
  gr_read : forall hash obj a b o, holds !! hash = Some obj -> 0 <= a < b -> b <= zlen obj ->
    read_granted v hash a b = Ok o -> o = Some (slice a b obj) }.

Section Host.
Context `{Crypto, Blake3Hazmat}.
Context (v : BlobView) (D : inbox) (holds : gmap BlobHash bytes) `{!Viewing v D, !Granting v holds}.

(** A host in a dispatch, and the context its guest sees. *)
Record hosted (h : HostState) (g : Guest) : Prop := {
  ho_view : blob_store (scope h) = Some v;
  ho_staged : stage_all D (staged_of h) = Some (g_inbox g);
  ho_sound : sound (g_inbox g);
  ho_holds : g_holds g = holds;
  ho_given : attachment (scope h) = g_given g }.

Lemma hosted_staging h g : hosted h g -> staging v D h.
Proof. intros [Hv Hs Hd _ _]. split; [|by eexists]. rewrite Hv. by intros w [= <-]. Qed.

(** What only charges the call. *)
Definition charges {A} (m : M HostState Trap A) : Prop :=
  forall h, staged_of (m h).2 = staged_of h /\ blob_store (scope (m h).2) = blob_store (scope h) /\ attachment (scope (m h).2) = attachment (scope h).
Lemma charges_copy n : charges (copy_bytes n).
Proof. intros h. unfold copy_bytes, host_get, on_ledger. cbv [sbind sread]. by destruct (ledger_copy_bytes _ _ _). Qed.
Lemma charges_each n r : charges (charge_each n r).
Proof.
  intros h. unfold charge_each, charge_fuel, host_get, trap_if, host_try. cbv [sbind sread smodify].
  repeat (case_match; try done); simplify_eq; done.
Qed.
Lemma charged {A} (m : M HostState Trap A) h g r h' : charges m -> hosted h g -> m h = (r, h') -> hosted h' g.
Proof. intros Hc [] Hm. destruct (Hc h) as (H1' & H2' & H3'). rewrite Hm in *. simpl in *. split; (done || congruence). Qed.

Lemma attached_given h g token : hosted h g -> attached token (scope h) = given token g.
Proof. intros [_ _ _ _ Ha]. unfold attached, given. by rewrite Ha. Qed.

Lemma hosted_push h g c D' : hosted h g -> stage (g_inbox g) c = Some D' -> sound D' ->
  hosted (on_scope (push_blob c) h).2 (set_inbox D' g).
Proof.
  intros [Hv Hs Hd Hh Ha] Hc Hd'. split; try done. unfold staged_of. simpl. rewrite stage_all_snoc. fold (staged_of h). by rewrite Hs.
Qed.

Lemma append_hosted hash len token h g z h' :
  cwf c_id hash -> hosted h g -> blob_append hash len token h = (Ok z, h') ->
  match g_append hash len token g with inr g' => z = 0 /\ hosted h' g' | inl e => z = blob_status e /\ hosted h' g end.
Proof.
  intros Hid Hh Hr. pose proof (hosted_staging _ _ Hh) as Hst. unfold blob_append, g_append in *.
  destruct (Z.ltb_spec MAX_BLOB_BYTES len) as [|Hl]; [by injection Hr as <- <-|].
  unfold sbind in Hr at 1. cbn [host_get sread] in Hr. rewrite (attached_given _ _ _ Hh) in Hr.
  destruct (given token g) as [data|]; [|by injection Hr as <- <-].
  unfold sbind in Hr at 1. destruct (receive_state hash h) as [[r| |] h1] eqn:Hrec; [|done..].
  destruct (receive_shown v D _ _ _ _ _ Hst (ho_staged _ _ Hh) Hrec) as [-> ->].
  match type of Hr with (if ?c then _ else _) _ = _ => destruct c eqn:Hc end.
  - injection Hr as <- <-. destruct (g_inbox g !! hash) as [x|]; simpl in Hc; rewrite ?Z.add_0_l in Hc; by rewrite Hc.
  - unfold sbind in Hr at 1. destruct (copy_bytes (zlen data) h) as [[u| |] h2] eqn:Hcp; [|done..].
    pose proof (charged _ _ _ _ _ (charges_copy _) Hh Hcp) as Hh2.
    destruct (stage_append _ _ _ _ _ (ho_sound _ _ Hh) Hid Hl Hc) as (D' & Hsg & Hd').
    pose proof (hosted_push _ _ _ _ Hh2 Hsg Hd') as Hpush. cbv [sbind sret] in Hr. unfold on_scope in Hr, Hpush. cbn [smodify snd] in Hr, Hpush. injection Hr as <- <-.
    unfold stage in Hsg. destruct (g_inbox g !! hash) as [x|]; simpl in Hc, Hsg; rewrite ?Z.add_0_l in Hc; rewrite Hc.
    + split; [done|]. destruct (_ || _) in Hsg; [done|]. by injection Hsg as <-.
    + split; [done|]. by injection Hsg as <-.
Qed.

Lemma commit_hosted hash h g z h' : hosted h g -> blob_commit hash h = (Ok z, h') ->
  match g_commit hash g with inr g' => z = 0 /\ hosted h' g' | inl e => z = blob_status e /\ hosted h' g end.
Proof.
  intros Hh Hr. pose proof (hosted_staging _ _ Hh) as Hst. unfold blob_commit, g_commit in *.
  unfold sbind in Hr at 1. destruct (receive_state hash h) as [[r| |] h1] eqn:Hrec; [|done..].
  destruct (receive_shown v D _ _ _ _ _ Hst (ho_staged _ _ Hh) Hrec) as [-> ->]. pose proof (ho_sound _ _ Hh) as Hd.
  destruct (g_inbox g !! hash) as [x|] eqn:Hx; simpl in Hr; [|by injection Hr as <- <-].
  destruct (rv_committed x) eqn:Hcom; [by injection Hr as <- <-|].
  destruct (Z.eqb_spec (zlen (rv_bytes x)) (rv_length x)) as [Hlen|]; cbn [negb] in *; [|by injection Hr as <- <-].
  unfold sbind in Hr at 1. destruct (charge_each (rv_length x) hash_per_byte h) as [[u| |] h2] eqn:Hch; [|done..].
  pose proof (charged _ _ _ _ _ (charges_each _ _) Hh Hch) as Hh2. pose proof (hosted_staging _ _ Hh2) as Hst2.
  unfold sbind in Hr at 1. cbn [host_get sread] in Hr. fold (staged_of h2) in Hr. unfold sbind in Hr at 1.
  match type of Hr with match ?m h2 with _ => _ end = _ => destruct (m h2) as [[d| |] h3] eqn:Hdig; [|done..] end.
  assert (h3 = h2) as ->.
  { destruct (is_some _); [|by injection Hdig]. unfold get_view, host_try in Hdig. cbv [sbind sread] in Hdig.
    destruct (ok_or _ _); [|done..]. destruct (view_err _); [|done..]. by injection Hdig. }
  pose proof (digest_exact v D hash _ _ _ _ Hst2 (ho_staged _ _ Hh2) Hdig) as ->. unfold bytes_at in Hr. rewrite Hx in Hr.
  destruct (Z.eqb_spec (blake3 (rv_bytes x)) hash) as [Hb|]; cbn [negb] in *; [|by injection Hr as <- <-].
  destruct (stage_commit (g_inbox g) hash (rv_length x) true Hd) as (D' & Hsg & Hd'); [by rewrite Hx..|unfold bytes_at; by rewrite Hx|].
  pose proof (hosted_push _ _ _ _ Hh2 Hsg Hd') as Hpush. cbv [sbind sret] in Hr. unfold on_scope in Hr, Hpush. cbn [smodify snd] in Hr, Hpush. injection Hr as <- <-.
  split; [done|]. unfold stage in Hsg. rewrite Hx, Hcom in Hsg. destruct (_ || _) in Hsg; [done|]. by injection Hsg as <-.
Qed.

Definition source_ok (src : CvSource) : Prop := match src with CvBlob _ a _ => 0 <= a | CvAttachment _ => True end.
(** The source of a chaining value: its length as the geometry has it, then its bytes. *)
Lemma source_hosted src offset h g len h1 : source_ok src -> hosted h g -> source_len v src h = (Ok len, h1) ->
  h1 = h /\ match len with
    | inl e => g_subtree_cv src offset g = inl e
    | inr n => exists b, zlen b = n /\
        g_subtree_cv src offset g = (if negb (is_subtree offset n) then inl BadRange else inr (finalize_non_root offset b)) /\
        forall o h2 h3, hosted h2 g -> source_bytes v src h2 = (Ok o, h3) -> h3 = h2 /\ o = Some b
    end.
Proof.
  intros Hok Hh Hlen. unfold g_subtree_cv, source_len, source_bytes in *. destruct src as [hash a b|token].
  - destruct (Z.leb_spec b a), (Z.ltb_spec MAX_DIRECT_RANGE_BYTES (b - a)); try (by injection Hlen as <- <-). cbn [orb] in *.
    unfold host_try in *. cbv [sbind sread sret] in Hlen. destruct (view_err _) as [o| |] eqn:Hg; [|done..].
    apply map_err_Ok, gr_length in Hg as ->. rewrite (ho_holds _ _ Hh). destruct (holds !! hash) as [obj|] eqn:Ho; simpl in Hlen; [|by injection Hlen as <- <-].
    destruct (Z.ltb_spec (zlen obj) b) as [|Hle]; injection Hlen as <- <-; [done|]. split; [done|]. exists (slice a b obj). cbn [orb]. simpl in Hok.
    split; [unfold slice, zlen in *; rewrite length_take, length_drop; lia|]. split; [done|].
    intros o h2 h3 _ Hr. cbv [sread] in Hr. destruct (view_err _) as [x| |] eqn:Hx; [|done..]. injection Hr as <- <-. split; [done|].
    apply map_err_Ok in Hx. by eapply (gr_read hash obj a b); [done|lia|done|].
  - unfold host_get in Hlen. cbv [sbind sread sret] in Hlen. rewrite (attached_given _ _ _ Hh) in Hlen.
    destruct (given token g) as [b|] eqn:Hgiv; [|by injection Hlen as <- <-].
    destruct (Z.ltb_spec MAX_DIRECT_RANGE_BYTES (zlen b)); injection Hlen as <- <-; [done|]. split; [done|]. exists b. split; [done|]. split; [done|].
    intros o h2 h3 Hh2 Hr. cbv [sbind sread sret] in Hr. rewrite (ho_given _ _ Hh2) in Hr. unfold given in Hgiv.
    destruct (g_given g) as [x|]; [|done]. injection Hr as <- <-. split; [done|]. by destruct (_ && _).
Qed.

Lemma cv_hosted src offset h g r h' : source_ok src -> hosted h g -> cv_of src offset h = (Ok r, h') ->
  r = g_subtree_cv src offset g /\ hosted h' g.
Proof.
  intros Hok Hh Hr. unfold cv_of in Hr. unfold sbind in Hr at 1. unfold get_view, host_get in Hr. cbn [sread] in Hr.
  rewrite (ho_view _ _ Hh) in Hr. cbn [ok_or] in Hr. unfold sbind in Hr at 1.
  destruct (source_len v src h) as [[len| |] h1] eqn:Hlen; [|done..].
  destruct (source_hosted src offset h g len h1 Hok Hh Hlen) as [-> Hsrc].
  destruct len as [e|n]; [by injection Hr as <- <-|]. destruct Hsrc as (b & Hz & Hg & Hb). rewrite Hg.
  destruct (is_subtree offset n) eqn:Hsub; cbn [negb] in *; [|by injection Hr as <- <-].
  unfold sbind in Hr at 1. destruct (charge_each n hash_per_byte h) as [[u| |] h2] eqn:Hch; [|done..].
  pose proof (charged _ _ _ _ _ (charges_each _ _) Hh Hch) as Hh2.
  unfold sbind in Hr at 1. destruct (copy_bytes 32 h2) as [[u'| |] h3] eqn:Hcp; [|done..].
  pose proof (charged _ _ _ _ _ (charges_copy _) Hh2 Hcp) as Hh3.
  unfold sbind in Hr at 1. destruct (source_bytes v src h3) as [[o| |] h4] eqn:Hsb; [|done..].
  destruct (Hb o h3 h4 Hh3 Hsb) as [-> ->]. unfold sbind, host_try, subtree_cv in Hr. cbn [sread] in Hr. rewrite Hz, Hsub in Hr.
  by injection Hr as <- <-.
Qed.
End Host.

(** ** The store's view grants what it holds *)

Section Store.
Context `{Crypto} (display : StoreError -> string) (db : Database) (id : ExecId).

(** The objects granted to the execution, each published whole. *)
Definition grants : gset BlobHash := default ∅ (blob_grants (view db) !! id).
Record serves (holds : gmap BlobHash bytes) : Prop := {
  sv_granted : forall hash obj, holds !! hash = Some obj -> hash ∈ grants /\ exists b, blobs (view db) !! hash = Some b /\
    bl_length b = zlen obj /\ files db !! bl_path b = Some obj;
  sv_only : forall hash b, hash ∈ grants -> blobs (view db) !! hash = Some b -> is_Some (holds !! hash) }.

#[export] Instance store_granting holds : serves holds -> Granting (store_view display db id) holds.
Proof.
  intros [Hg Ho]. split; simpl.
  - intros hash o Hr. apply map_err_Ok in Hr. unfold live_db in Hr. destruct (poisoned db); [done|]. unfold blob_granted in Hr.
    destruct (holds !! hash) as [obj|] eqn:Hh.
    + destruct (Hg _ _ Hh) as (Hin & b & Hb & Hl & _). rewrite bool_decide_true, Hb in Hr by done. unfold sqlite_i64 in Hr.
      destruct (_ <? _) in Hr; [done|]. injection Hr as <-. by rewrite Hl.
    + case_bool_decide as Hin; [|by injection Hr as <-]. destruct (blobs (view db) !! hash) as [b|] eqn:Hb; [|by injection Hr as <-].
      destruct (Ho hash b Hin Hb) as [obj Hobj]. congruence.
  - intros hash obj a b o Hh Ha Hb Hr. apply map_err_Ok in Hr. destruct (Hg _ _ Hh) as (_ & bl & Hbl & Hl & Hf).
    unfold read_blob_range, live_db in Hr. destruct (poisoned db); [done|]. unfold blob_location in Hr. rewrite Hbl in Hr.
    unfold sqlite_i64 in Hr. destruct (_ <? _) in Hr; [done|]. cbn [rbind] in Hr. rewrite Hf in Hr. simpl in Hr. injection Hr as <-.
    fold (slice a b obj). rewrite (proj2 (Z.eqb_eq _ _)); [done|]. unfold slice, zlen in *. rewrite length_take, length_drop. lia.
Qed.
End Store.

(** C13: over a view of the store that serves the objects granted to an execution and
    the objects it has received so far, every blob call of a handler that returns from
    the host returns what its context answers, and the changes staged by then are the
    inbox of that context. *)
Theorem host_answers_blob_calls `{Crypto, Blake3Hazmat} display db id holds h g :
  all_filed db id -> serves db id holds -> hosted (store_view display db id) (received db id) holds h g ->
  (forall hash len token z h', cwf c_id hash -> blob_append hash len token h = (Ok z, h') ->
     match g_append hash len token g with
     | inr g' => z = 0 /\ hosted (store_view display db id) (received db id) holds h' g'
     | inl e => z = blob_status e /\ hosted (store_view display db id) (received db id) holds h' g
     end) /\
  (forall hash z h', blob_commit hash h = (Ok z, h') ->
     match g_commit hash g with
     | inr g' => z = 0 /\ hosted (store_view display db id) (received db id) holds h' g'
     | inl e => z = blob_status e /\ hosted (store_view display db id) (received db id) holds h' g
     end) /\
  (forall src offset r h', source_ok src -> cv_of src offset h = (Ok r, h') ->
     r = g_subtree_cv src offset g /\ hosted (store_view display db id) (received db id) holds h' g).
Proof.
  intros Hf Hs Hh. pose proof (store_viewing display db id Hf). pose proof (store_granting display db id holds Hs).
  split_and!; intros; [by eapply append_hosted|by eapply commit_hosted|by eapply cv_hosted].
Qed.
