(* ===== verification/TransferRun.v ===== *)
(** * A run of a verified transfer (primitives/src/verified_transfer.rs)

    Two participants follow the protocol of [Transfer]; a network of two ordered queues
    carries their direct messages, each delivered once.  Shown here: every run of
    deliveries ends, after a number of deliveries the length fixes, with the object
    committed at the receiver and completion reported. *)

From S2P Require Import Prelude Borsh Crypto Session Trace Evidence Validation Execution Canonical Envelope ChangeLog Database Persist.
From S2P Require Import Randomness Signing Imports Emission Staging Tree Transfer.

#[local] Open Scope Z_scope.

Record Net := MkNet {
  n_sender : Guest;
  n_receiver : Guest;
  to_receiver : list (DirectMessage * option bytes);
  to_sender : list (DirectMessage * option bytes);
  n_reports : list TransferMessage }.

(** The host reads the attached range when it delivers the entry. *)
Definition attach (g : Guest) (range : option RangeAttachment) : option bytes :=
  match range with
  | Some r => match g_holds g !! range_hash r with Some obj => Some (slice (range_start r) (range_end r) obj) | None => None end
  | None => None
  end.
Definition posted (dest : Z) (g : Guest) : list (DirectMessage * option bytes) :=
  omap (fun '(to, m, range) => if to =? dest then Some (m, attach g range) else None) (g_out g).
Definition settle (g : Guest) : Guest := MkGuest (g_local g) (g_holds g) None (g_inbox g) 0 [].

Section Run.
Context `{Crypto, Blake3Hazmat}.

(** The network delivers the head of either queue; [q] entries of other transfers are
    queued at the time. *)
Inductive deliver (t : VerifiedTransfer) : Net -> Net -> Prop :=
| deliver_receiver net m att rest q r g : to_receiver net = (m, att) :: rest -> 0 <= q < MAX_DIRECT_QUEUE ->
    arrive t (vt_receiver t) (vt_sender t) (MkArrival m att q) (n_receiver net) = (r, g) ->
    deliver t net (MkNet (n_sender net) (settle g) rest (to_sender net ++ posted (vt_sender t) g) (n_reports net ++ option_list r))
| deliver_sender net m att rest q r g : to_sender net = (m, att) :: rest -> 0 <= q < MAX_DIRECT_QUEUE ->
    arrive t (vt_sender t) (vt_receiver t) (MkArrival m att q) (n_sender net) = (r, g) ->
    deliver t net (MkNet (settle g) (n_receiver net) (to_receiver net ++ posted (vt_receiver t) g) rest (n_reports net ++ option_list r)).

(** The sender's timer fires. *)
Definition launch (t : VerifiedTransfer) (q : Z) (gs gr : Guest) : Net :=
  match on_timer t (vt_sender t) (start t).1 (enter None q gs) with
  | (Ok _, g) => MkNet (settle g) gr (posted (vt_receiver t) g) [] []
  | _ => MkNet gs gr [] [] []
  end.

Definition steps_of (t : VerifiedTransfer) : Z := batches t + leaf_count t.

Section Honest.
Context `{!Blake3Tree} (t : VerifiedTransfer) (obj : bytes).
Context (named : blake3 obj = vt_hash t) (whole : zlen obj = vt_length t) (sized : 0 < vt_length t <= MAX_BLOB_BYTES).
Context (distinct : vt_sender t <> vt_receiver t) (running : vt_status t = None).
#[local] Opaque LEAF_BYTES leaf_size.

Abbreviation values := (leaf_values 0 obj).

(** ** Counting *)

Lemma count_spec : leaves_of (Z.to_nat (leaf_count t)) (zlen obj) /\ 1 <= leaf_count t.
Proof.
  assert (leaves_of (Z.to_nat (leaf_count t)) (zlen obj)) as Hm by (unfold leaf_count; rewrite <- whole; apply leaves_count; lia).
  split; [done|]. unfold leaves_of in Hm. rewrite whole in Hm. pose proof leaf_pow. lia.
Qed.
Lemma batches_spec : 63 * (batches t - 1) < leaf_count t <= 63 * batches t.
Proof.
  unfold batches, LEAVES_PER_MESSAGE. destruct count_spec as [_ Hc].
  pose proof (Z.div_mod (leaf_count t + 63 - 1) 63 ltac:(lia)). pose proof (Z.mod_pos_bound (leaf_count t + 63 - 1) 63 ltac:(lia)). lia.
Qed.
Lemma zlen_values : zlen values = leaf_count t.
Proof. destruct count_spec as [Hm Hc]. unfold zlen. rewrite (length_leaf_values _ _ _ Hm). lia. Qed.
Lemma values_lookup i : 0 <= i < leaf_count t -> values !! Z.to_nat i = Some (finalize_non_root (i * LEAF_BYTES) (leaf_at obj (Z.to_nat i))).
Proof.
  intros Hi. destruct count_spec as [Hm _]. rewrite (leaf_values_at _ _ _ Hm), list_lookup_fmap.
  rewrite (proj2 (list_numbers.list.lookup_seq 0 (Z.to_nat (leaf_count t)) (Z.to_nat i) (Z.to_nat i))) by lia. cbn [fmap option_fmap option_map].
  rewrite Z2Nat.id, Z.add_0_l, Z.mul_comm by lia. done.
Qed.

(** A leaf's range: a subtree of at most [LEAF_BYTES] within the object. *)
Lemma range_spec i a b : 0 <= i < leaf_count t -> leaf_range t i = (a, b) ->
  a = i * LEAF_BYTES /\ a < b <= vt_length t /\ b - a <= LEAF_BYTES /\ slice a b obj = leaf_at obj (Z.to_nat i) /\
  zlen (leaf_at obj (Z.to_nat i)) = b - a /\ is_subtree a (b - a) = true /\ a + zlen (leaf_at obj (Z.to_nat i)) = b.
Proof.
  intros Hi [= <- <-]. destruct count_spec as [Hm _]. pose proof leaf_pow as Hp. pose proof leaf_nat as Hn.
  assert (i * LEAF_BYTES < vt_length t) as Hlt by (unfold leaves_of in Hm; rewrite whole in Hm; nia).
  assert (slice (i * LEAF_BYTES) (Z.min (i * LEAF_BYTES + LEAF_BYTES) (vt_length t)) obj = leaf_at obj (Z.to_nat i)) as Hs.
  { unfold slice, leaf_at. rewrite <- leaf_offset by lia. destruct (Z.le_gt_cases (i * LEAF_BYTES + LEAF_BYTES) (vt_length t)).
    - rewrite Z.min_l by done. apply (f_equal2 (@take Z)); [lia|done].
    - rewrite Z.min_r by lia. unfold zlen in whole. rewrite !take_ge; [done|rewrite length_drop; lia..]. }
  assert (zlen (leaf_at obj (Z.to_nat i)) = Z.min (i * LEAF_BYTES + LEAF_BYTES) (vt_length t) - i * LEAF_BYTES) as Hz.
  { rewrite <- Hs. unfold slice, zlen. unfold zlen in whole. rewrite length_take, length_drop. lia. }
  split_and!; [done|lia|lia|lia|done|done| |lia].
  apply (aligned_subtree 0); [|rewrite Hp; lia]. split_and!; [done|lia|]. rewrite Z.mul_1_r. apply Z.mod_mul. lia.
Qed.
Lemma leaf_count_bytes : take (Z.to_nat (leaf_count t * LEAF_BYTES)) obj = obj.
Proof. destruct count_spec as [Hm Hc]. apply take_ge. unfold leaves_of, zlen in Hm. lia. Qed.

(** ** The sender's messages *)

Definition at_step (k : Z) : DirectMessage * option bytes :=
  if k <? batches t then (Leaves (vt_id t) (63 * k) (take 63 (drop (Z.to_nat (63 * k)) values)), None)
  else (Chunk (vt_id t), Some (leaf_at obj (Z.to_nat (k - batches t)))).

Lemma batch_cvs_values (n : nat) first g : g_holds g !! vt_hash t = Some obj -> 0 <= first -> first + Z.of_nat n <= leaf_count t ->
  batch_cvs t (seqZ first (Z.of_nat n)) g = inr (take n (drop (Z.to_nat first) values)).
Proof.
  intros Hg. revert first. induction n as [|n IH]; intros first Hf Hle; [done|].
  rewrite seqZ_cons by lia. cbn [batch_cvs]. destruct (leaf_range t first) as [a b] eqn:Hr.
  destruct (range_spec first a b ltac:(lia) Hr) as (-> & Hab & Hlen & Hs & _ & Hsub & _).
  unfold g_subtree_cv. rewrite (proj2 (Z.leb_gt _ _)) by lia. change MAX_DIRECT_RANGE_BYTES with LEAF_BYTES.
  rewrite (proj2 (Z.ltb_ge _ _)) by lia. cbn [orb]. rewrite Hg, whole, (proj2 (Z.ltb_ge _ _)), Hsub by lia. cbn [orb negb].
  replace (Z.pred (Z.of_nat (S n))) with (Z.of_nat n) by lia. rewrite IH by lia.
  rewrite (drop_S values _ _ (values_lookup first ltac:(lia))). replace (Z.to_nat (Z.succ first)) with (S (Z.to_nat first)) by lia.
  cbn [take firstn]. by rewrite Hs.
Qed.

(** The parts of a guest a sender's step works on. *)
Record sending (k : Z) (g : Guest) : Prop := { sn_holds : g_holds g !! vt_hash t = Some obj; sn_sent : sent (g_local g) = k }.

Lemma g_send_run to msg range g : direct_len msg <= MAX_DIRECT_CONTROL_BYTES -> g_queued g + zlen (g_out g) < MAX_DIRECT_QUEUE ->
  (forall r, range = Some r -> exists o, g_holds g !! range_hash r = Some o /\ range_start r < range_end r <= zlen o /\
     range_end r - range_start r <= LEAF_BYTES) ->
  g_send to msg range g = (Ok tt, push_out (to, msg, range) g).
Proof.
  intros Hlen Hq Hr. assert (g_queued g + zlen (filter (fun x => x.1.1 = to) (g_out g)) < MAX_DIRECT_QUEUE)
    by (pose proof (length_filter (fun x => x.1.1 = to) (g_out g)); unfold zlen in *; lia).
  unfold g_send. cbv [sbind sread smodify]. rewrite (proj2 (Z.ltb_ge _ _)) by done. cbn [err_if]. destruct range as [r|].
  - destruct (Hr r eq_refl) as (o & -> & Hb & Hl). rewrite (proj2 (Z.leb_gt _ _)), (proj2 (Z.ltb_ge _ _)) by lia.
    change MAX_DIRECT_RANGE_BYTES with LEAF_BYTES. rewrite (proj2 (Z.ltb_ge _ _)) by lia. cbn [orb err_if].
    by rewrite (proj2 (Z.leb_gt _ _)) by lia.
  - by rewrite (proj2 (Z.leb_gt _ _)) by lia.
Qed.

Lemma send_run k j g q : 0 <= k < steps_of t -> sending j g -> 0 <= q < MAX_DIRECT_QUEUE ->
  exists g', send_step t k (enter None q g) = (Ok tt, g') /\ posted (vt_receiver t) g' = [at_step k] /\ sending (k + 1) g'.
Proof.
  intros Hk [Hh _] Hq. set (g0 := enter None q g). assert (g_queued g0 + zlen (g_out g0) < MAX_DIRECT_QUEUE) as Hq0 by (change (q + 0 < MAX_DIRECT_QUEUE); lia).
  pose proof batches_spec as Hb. unfold send_step, at_step. destruct (Z.ltb_spec k (batches t)) as [Hlt|Hge].
  - unfold sbind at 1. cbn [sread]. unfold LEAVES_PER_MESSAGE.
    set (n := Z.min ((k + 1) * 63) (leaf_count t) - k * 63). assert (0 < n <= 63) as Hn by lia.
    replace n with (Z.of_nat (Z.to_nat n)) by lia. rewrite batch_cvs_values by (done || lia).
    unfold sbind. rewrite g_send_run; [|change MAX_DIRECT_CONTROL_BYTES with 2048; simpl; unfold zlen; rewrite length_take; lia|done|done]. eexists. split; [reflexivity|]. split; [|by split].
    unfold posted. simpl. rewrite Z.eqb_refl. cbn [omap list_omap]. replace (k * 63) with (63 * k) by lia.
    assert (take (Z.to_nat n) (drop (Z.to_nat (63 * k)) values) = take 63 (drop (Z.to_nat (63 * k)) values)) as ->; [|done].
    destruct (decide (Z.to_nat n = 63%nat)) as [->|]; [done|]. rewrite !take_ge; [done|..]; rewrite length_drop;
      pose proof zlen_values as Hz; unfold zlen in Hz; lia.
  - destruct (leaf_range t (k - batches t)) as [a b] eqn:Hr. unfold steps_of in Hk.
    destruct (range_spec (k - batches t) a b ltac:(lia) Hr) as (-> & Hab & Hlen & Hs & _).
    unfold sbind. rewrite g_send_run; [|done|done|].
    + eexists. split; [reflexivity|]. split; [|by split]. unfold posted. simpl. rewrite Z.eqb_refl. simpl. by rewrite Hh, Hs.
    + intros r [= <-]. exists obj. simpl. rewrite whole. done.
Qed.

(** ** The receiver after [k] messages *)

Record absorbed (k : Z) (g : Guest) : Prop := {
  ab_leaves : leaves (g_local g) = take (Z.to_nat (63 * k)) values;
  ab_appended : appended (g_local g) = Z.max 0 (k - batches t);
  ab_offered : offered (g_local g) = false;
  ab_inbox : g_inbox g !! vt_hash t =
    if k <=? batches t then None
    else Some (MkReceived (vt_length t) (take (Z.to_nat ((k - batches t) * LEAF_BYTES)) obj) false) }.

Lemma absorb_leaves k g : 0 <= k < batches t -> g_queued g < MAX_DIRECT_QUEUE -> g_out g = [] -> absorbed k g ->
  exists g', receive_leaves t (63 * k) (take 63 (drop (Z.to_nat (63 * k)) values)) g = (Ok None, g') /\
    g_out g' = [(vt_sender t, Next (vt_id t), None)] /\ absorbed (k + 1) g'.
Proof.
  intros Hk Hq Hout [Hl Ha Ho Hi]. pose proof batches_spec as Hb. pose proof zlen_values as Hz.
  unfold receive_leaves. unfold sbind at 1. cbn [sread]. rewrite Hl.
  set (cvs := take 63 (drop (Z.to_nat (63 * k)) values)).
  assert (zlen (take (Z.to_nat (63 * k)) values) = 63 * k) as Hz1 by (unfold zlen in *; rewrite length_take; lia).
  assert (zlen cvs = Z.min 63 (leaf_count t - 63 * k)) as Hz2 by (unfold cvs, zlen in *; rewrite length_take, length_drop; lia).
  rewrite Hz1, Hz2, Z.eqb_refl. cbn [negb orb]. rewrite (proj2 (Z.eqb_neq _ _)) by lia. unfold LEAVES_PER_MESSAGE.
  rewrite (proj2 (Z.ltb_ge 63 _)), (proj2 (Z.ltb_ge (leaf_count t) _)) by lia. cbn [orb].
  assert (take (Z.to_nat (63 * k)) values ++ cvs = take (Z.to_nat (63 * (k + 1))) values) as Hall.
  { unfold cvs. rewrite take_take_drop. f_equal. lia. }
  rewrite Hall. set (all := take (Z.to_nat (63 * (k + 1))) values). unfold on_local. unfold sbind at 1. cbn [smodify]. set (g1 := set_local _ g).
  assert ((if (zlen all =? leaf_count t) && (2 <=? leaf_count t)
           then sread (fun _ => rmap (fun h => negb (h =? vt_hash t)) (root all)) else sret false) g1 = (Ok (E:=Trap) false, g1)) as Hroot.
  { destruct (Z.eqb_spec (zlen all) (leaf_count t)) as [He|]; [|done]. destruct (Z.leb_spec 2 (leaf_count t)) as [Hz3|]; [|done].
    cbn [andb]. unfold sread. destruct count_spec as [Hm _]. assert (all = values) as ->.
    { apply take_ge. unfold all, zlen in He, Hz. rewrite length_take in He. lia. }
    rewrite (root_of_leaves _ _ Hm) by lia. simpl. by rewrite named, Z.eqb_refl. }
  unfold sbind at 1. rewrite Hroot. unfold send_next, sbind. rewrite g_send_run; [|done|simpl; rewrite Hout; change (zlen (@nil (Z * DirectMessage * option RangeAttachment))) with 0; lia|done].
  eexists. split; [reflexivity|]. simpl. rewrite Hout. split; [done|]. split; simpl; [done|lia|done|].
  rewrite Hi, !(proj2 (Z.leb_le _ _)) by lia. done.
Qed.

Lemma append_run i g data : 0 <= i < leaf_count t -> data = leaf_at obj (Z.to_nat i) -> given 0 g = Some data ->
  g_inbox g !! vt_hash t = (if i <=? 0 then None else Some (MkReceived (vt_length t) (take (Z.to_nat (i * LEAF_BYTES)) obj) false)) ->
  g_append (vt_hash t) (vt_length t) 0 g =
    inr (set_inbox (<[vt_hash t := MkReceived (vt_length t) (take (Z.to_nat ((i + 1) * LEAF_BYTES)) obj) false]> (g_inbox g)) g).
Proof.
  intros Hi Hdata Hg Hin. destruct (leaf_range t i) as [a b] eqn:Hr. destruct (range_spec i a b Hi Hr) as (-> & Hab & _ & _ & _ & _ & Hend).
  rewrite <- Hdata in Hend. assert (take (Z.to_nat ((i + 1) * LEAF_BYTES)) obj = take (Z.to_nat (i * LEAF_BYTES)) obj ++ data) as Htake.
  { rewrite Hdata. unfold leaf_at. rewrite !leaf_offset, take_take_drop by lia. replace (Z.to_nat (i + 1)) with (S (Z.to_nat i)) by lia.
    by rewrite Nat.mul_succ_r. }
  unfold g_append. rewrite (proj2 (Z.ltb_ge _ _)) by lia. rewrite Hg, Hin, Htake. destruct (Z.leb_spec i 0) as [Hi0|Hi0].
  - assert (i = 0) as -> by lia. rewrite (proj2 (Z.ltb_ge _ _)) by lia. rewrite Z.mul_0_l. done.
  - cbn [rv_committed rv_length rv_bytes orb]. rewrite Z.eqb_refl. cbn [negb orb]. rewrite (proj2 (Z.ltb_ge _ _)); [done|].
    assert (0 <= i * LEAF_BYTES) by (rewrite leaf_pow; lia). unfold zlen in *. rewrite length_take. lia.
Qed.
Lemma commit_run g : g_inbox g !! vt_hash t = Some (MkReceived (vt_length t) obj false) ->
  g_commit (vt_hash t) g = inr (set_inbox (<[vt_hash t := MkReceived (vt_length t) obj true]> (g_inbox g)) g).
Proof. intros Hin. unfold g_commit. rewrite Hin. cbn [rv_committed rv_length rv_bytes]. by rewrite whole, named, !Z.eqb_refl. Qed.

Lemma absorb_chunk k g data : batches t <= k < steps_of t -> g_queued g < MAX_DIRECT_QUEUE -> g_out g = [] -> absorbed k g ->
  data = leaf_at obj (Z.to_nat (k - batches t)) -> g_given g = Some data ->
  exists r g', receive_chunk t (Some 0) g = (Ok r, g') /\
    if k + 1 =? steps_of t
    then r = Some MComplete /\ g_out g' = [] /\ g_inbox g' !! vt_hash t = Some (MkReceived (vt_length t) obj true)
    else r = None /\ g_out g' = [(vt_sender t, Next (vt_id t), None)] /\ absorbed (k + 1) g'.
Proof.
  intros Hk Hq Hout [Hl Ha Ho Hi] Hdata Hgiv. pose proof batches_spec as Hb. pose proof zlen_values as Hz. unfold steps_of in Hk |- *.
  set (i := k - batches t) in *. assert (0 <= i < leaf_count t) as Hir by lia. rewrite Z.max_r in Ha by lia.
  assert (leaves (g_local g) = values) as Hv by (rewrite Hl; apply take_ge; unfold zlen in Hz; lia).
  destruct (leaf_range t i) as [a b] eqn:Hr. destruct (range_spec i a b Hir Hr) as (-> & Hab & Hlen & _ & Hzl & Hsub & Hend). rewrite <- Hdata in *.
  assert (given 0 g = Some data) as Hgive by (unfold given; rewrite Hgiv, (proj2 (Z.eqb_neq (zlen data) 0)) by lia; done).
  unfold receive_chunk. unfold sbind at 1. cbn [sread]. rewrite Hv, Hz, Z.eqb_refl. cbn [negb]. rewrite Ha.
  unfold sbind at 1 2. cbn [sread]. rewrite (values_lookup i Hir), <- Hdata. cbn [expect].
  unfold g_subtree_cv. rewrite Hgive. change MAX_DIRECT_RANGE_BYTES with LEAF_BYTES. rewrite (proj2 (Z.ltb_ge LEAF_BYTES _)), Hzl, Hsub by lia.
  cbn [orb negb]. rewrite Z.eqb_refl.
  assert (g_append (vt_hash t) (vt_length t) 0 g =
    inr (set_inbox (<[vt_hash t := MkReceived (vt_length t) (take (Z.to_nat ((i + 1) * LEAF_BYTES)) obj) false]> (g_inbox g)) g)) as Happ.
  { apply (append_run i g data Hir Hdata Hgive). rewrite Hi. destruct (Z.leb_spec k (batches t)), (Z.leb_spec i 0); (done || lia). }
  rewrite Happ. unfold on_local. unfold sbind at 1 2. cbn [smodify]. set (g1 := set_inbox _ g). set (g2 := set_local _ g1).
  destruct (Z.eqb_spec (i + 1) (leaf_count t)) as [Hlast|Hlast].
  - rewrite (proj2 (Z.eqb_eq _ _)) by lia. unfold sbind at 1. cbn [sread]. rewrite commit_run by (simpl; by rewrite lookup_insert_eq, Hlast, leaf_count_bytes).
    eexists _, _. split; [reflexivity|]. split; [done|]. split; [done|]. simpl. by rewrite lookup_insert_eq.
  - rewrite (proj2 (Z.eqb_neq (k + 1) _)) by lia. unfold send_next, sbind. rewrite g_send_run; [|done|simpl; rewrite Hout; change (zlen (@nil (Z * DirectMessage * option RangeAttachment))) with 0; lia|done].
    eexists _, _. split; [reflexivity|]. split; [done|]. split; [simpl; by rewrite Hout|]. split; simpl; [|lia|done|].
    + rewrite Hv, take_ge; [done|]. unfold zlen in Hz. lia.
    + rewrite (proj2 (Z.leb_gt _ _)), lookup_insert_eq by lia. replace (k + 1 - batches t) with (i + 1) by lia. done.
Qed.

(** One delivery to each side. *)
Lemma absorb_step k g q : 0 <= k < steps_of t -> 0 <= q < MAX_DIRECT_QUEUE -> absorbed k g ->
  exists r g', arrive t (vt_receiver t) (vt_sender t) (MkArrival (at_step k).1 (at_step k).2 q) g = (r, g') /\
    if k + 1 =? steps_of t
    then r = Some MComplete /\ g_out g' = [] /\ g_inbox g' !! vt_hash t = Some (MkReceived (vt_length t) obj true)
    else r = None /\ g_out g' = [(vt_sender t, Next (vt_id t), None)] /\ absorbed (k + 1) g'.
Proof.
  intros Hk Hq Hab. pose proof batches_spec as Hb. destruct count_spec as [_ Hc]. unfold arrive. cbn [ar_msg ar_bytes ar_queued]. set (g0 := enter (at_step k).2 q g).
  assert (absorbed k g0) as Hab0 by (destruct Hab; by split).
  assert (on_direct t (vt_receiver t) (vt_sender t) (at_step k).1 (token_of (at_step k).2) g0 =
    (if k <? batches t then receive_leaves t (63 * k) (take 63 (drop (Z.to_nat (63 * k)) values)) else receive_chunk t (Some 0)) g0) as Hon.
  { unfold on_direct, at_step. destruct (k <? batches t); cbn [fst snd msg_transfer token_of]; rewrite Z.eqb_refl, running; cbn [negb orb is_some];
      unfold sbind at 1; cbn [sread]; rewrite (proj2 (Z.eqb_neq (vt_receiver t) (vt_sender t))), !Z.eqb_refl, (ab_offered _ _ Hab0) by done; done. }
  rewrite Hon. clear Hon. destruct (Z.ltb_spec k (batches t)) as [Hlt|Hge].
  - destruct (absorb_leaves k g0) as (g' & -> & Hout & Hab'); [lia|simpl; lia|done|done|]. exists None, g'. split; [done|].
    rewrite (proj2 (Z.eqb_neq _ _)); [done|]. unfold steps_of. lia.
  - destruct (absorb_chunk k g0 (leaf_at obj (Z.to_nat (k - batches t)))) as (r & g' & -> & Hcase); [lia|simpl; lia|done|done|done| |by exists r, g'].
    simpl. unfold at_step. by rewrite (proj2 (Z.ltb_ge _ _)).
Qed.
Lemma next_step k g q : 0 < k < steps_of t -> 0 <= q < MAX_DIRECT_QUEUE -> sending k g ->
  exists g', arrive t (vt_sender t) (vt_receiver t) (MkArrival (Next (vt_id t)) None q) g = (None, g') /\
    posted (vt_receiver t) g' = [at_step k] /\ sending (k + 1) g'.
Proof.
  intros Hk Hq Hs. destruct (send_run k k g q ltac:(lia) Hs Hq) as (g' & Hrun & Hp & Hs'). exists g'. split; [|done].
  unfold arrive, on_direct. cbn [ar_msg ar_bytes ar_queued msg_transfer token_of]. rewrite Z.eqb_refl, running. cbn [negb orb is_some].
  unfold sbind at 1. cbn [sread]. rewrite !Z.eqb_refl. cbn [andb enter g_local]. rewrite (sn_sent _ _ Hs).
  unfold steps_of in Hk. rewrite (proj2 (Z.eqb_neq _ _)) by lia. cbn [negb andb]. unfold sbind. by rewrite Hrun.
Qed.

(** ** Every run *)

Inductive phase : Z -> Net -> Prop :=
| ph_message k net : 0 <= k < steps_of t -> sending (k + 1) (n_sender net) -> absorbed k (n_receiver net) ->
    to_receiver net = [at_step k] -> to_sender net = [] -> n_reports net = [] -> phase (2 * k) net
| ph_next k net : 0 <= k -> k + 1 < steps_of t -> sending (k + 1) (n_sender net) -> absorbed (k + 1) (n_receiver net) ->
    to_receiver net = [] -> to_sender net = [(Next (vt_id t), None)] -> n_reports net = [] -> phase (2 * k + 1) net
| ph_done net : to_receiver net = [] -> to_sender net = [] -> n_reports net = [MComplete] ->
    g_inbox (n_receiver net) !! vt_hash t = Some (MkReceived (vt_length t) obj true) -> phase (2 * steps_of t - 1) net.

Lemma settle_absorbed k g : absorbed k g -> absorbed k (settle g).
Proof. intros []. by split. Qed.
Lemma settle_sending k g : sending k g -> sending k (settle g).
Proof. intros []. by split. Qed.

Lemma phase_step n net net' : phase n net -> deliver t net net' -> phase (n + 1) net'.
Proof.
  intros [k net0 Hk Hs Ha Hr He Hn|k net0 Hk Hk1 Hs Ha Hr He Hn|net0 Hr He Hn Hi] Hd; inversion Hd as [? m att rest q r g Hq Hb Harr|? m att rest q r g Hq Hb Harr]; subst; rewrite ?Hr, ?He in Hq; try done.
  - injection Hq as Hat <-. destruct (absorb_step k (n_receiver net0) q) as (r' & g' & Harr' & Hcase); [done..|]. rewrite Hat in Harr'.
    cbn [fst snd] in Harr'. rewrite Harr in Harr'. injection Harr' as <- <-. rewrite He, Hn. unfold posted.
    destruct (Z.eqb_spec (k + 1) (steps_of t)) as [Hlast|Hlast].
    + destruct Hcase as (-> & -> & Hin). replace (2 * k + 1) with (2 * steps_of t - 1) by lia. by apply ph_done.
    + destruct Hcase as (-> & -> & Hab). apply ph_next; try done; [lia..|by apply settle_absorbed|]. simpl. by rewrite Z.eqb_refl.
  - injection Hq as <- <- <-. destruct (next_step (k + 1) (n_sender net0) q) as (g' & Harr' & Hp & Hs'); [lia|done|done|].
    rewrite Harr in Harr'. injection Harr' as -> ->. replace (2 * k + 1 + 1) with (2 * (k + 1)) by lia. rewrite Hr, Hn, Hp.
    apply ph_message; try done; [lia|by apply settle_sending].
Qed.
Lemma phase_progress n net : phase n net -> n <> 2 * steps_of t - 1 -> exists net', deliver t net net'.
Proof.
  intros [k net0 Hk Hs Ha Hr He Hn|k net0 Hk Hk1 Hs Ha Hr He Hn|net0 Hr He Hn Hi] Hne; [| |done].
  - destruct (at_step k) as [m att]. destruct (arrive t (vt_receiver t) (vt_sender t) (MkArrival m att 0) (n_receiver net0)) as [r g] eqn:Harr.
    eexists. by eapply (deliver_receiver t net0 m att [] 0).
  - destruct (arrive t (vt_sender t) (vt_receiver t) (MkArrival (Next (vt_id t)) None 0) (n_sender net0)) as [r g] eqn:Harr.
    eexists. by eapply (deliver_sender t net0 _ _ [] 0).
Qed.
Lemma phase_run m n net net' : phase n net -> nsteps (deliver t) m net net' -> phase (n + Z.of_nat m) net'.
Proof.
  intros Hp Hs. revert n Hp. induction Hs as [net|m net net1 net2 Hone _ IH]; intros n Hp; [by rewrite Z.add_0_r|].
  replace (n + Z.of_nat (S m)) with (n + 1 + Z.of_nat m) by lia. apply IH. by eapply phase_step.
Qed.
Lemma phase_bound n net : phase n net -> n <= 2 * steps_of t - 1.
Proof. intros []; lia. Qed.

Lemma launch_phase q gs gr : g_holds gs !! vt_hash t = Some obj -> g_local gr = local_default -> g_inbox gr !! vt_hash t = None ->
  0 <= q < MAX_DIRECT_QUEUE -> phase 0 (launch t q gs gr).
Proof.
  intros Hh Hl Hi Hq. destruct count_spec as [_ Hc]. pose proof batches_spec as Hb.
  destruct (send_run 0 (sent (g_local gs)) gs q) as (g' & Hrun & Hp & Hs); [unfold steps_of; lia|done|done|].
  unfold launch, on_timer. cbn [start fst]. rewrite Z.eqb_refl, running. cbn [negb orb is_some]. rewrite Z.eqb_refl, Hrun, Hp.
  apply (ph_message 0); try done; [unfold steps_of; lia|by apply settle_sending|]. simpl. split; rewrite ?Hl; [done|simpl; lia|done|].
  by rewrite Hi, (proj2 (Z.leb_le _ _)) by lia.
Qed.

End Honest.

(** C12: with a sender that holds the object and a network that delivers each direct
    message once and in order, every run of a transfer goes on until its last delivery,
    one less than two for each batch of leaf values and each leaf, and then the receiver
    has committed the object and reported completion, once. *)
Theorem honest_transfer_completes `{!Blake3Tree} t obj q gs gr n net :
  transfer_new (vt_id t) (vt_sender t) (vt_receiver t) (vt_hash t) (vt_length t) = Ok t ->
  blake3 obj = vt_hash t -> zlen obj = vt_length t -> g_holds gs !! vt_hash t = Some obj ->
  g_local gr = local_default -> g_inbox gr !! vt_hash t = None -> 0 <= q < MAX_DIRECT_QUEUE ->
  nsteps (deliver t) n (launch t q gs gr) net ->
  let last := 2 * (batches t + leaf_count t) - 1 in
  Z.of_nat n <= last /\
  (Z.of_nat n < last -> exists net', deliver t net net') /\
  (Z.of_nat n = last -> n_reports net = [MComplete] /\
    g_inbox (n_receiver net) !! vt_hash t = Some (MkReceived (vt_length t) obj true)).
Proof.
  intros Hnew Hh Hz Hs Hl Hi Hq Hrun. unfold transfer_new in Hnew. destruct (_ || _) eqn:Hg in Hnew; [done|]. injection Hnew as Ht.
  assert (vt_status t = None) as Hst by (by rewrite <- Ht). rewrite !orb_false_iff, !Z.eqb_neq, Z.ltb_ge in Hg. destruct Hg as [[Hd Hpos] Hm].
  assert (0 < vt_length t <= MAX_BLOB_BYTES) as Hsz by (pose proof (zlen_nonneg obj); lia).
  pose proof (launch_phase t obj Hz Hsz Hst q gs gr Hs Hl Hi Hq) as Hp.
  apply (phase_run t obj Hh Hz Hsz Hd Hst n _ _ net) in Hp; [|done]. rewrite Z.add_0_l in Hp. cbv zeta. change (batches t + leaf_count t) with (steps_of t).
  split; [by eapply phase_bound|]. split; [intros Hlt; eapply phase_progress; [done|lia]|].
  intros He. inversion Hp; subst; [lia|lia|done].
Qed.
End Run.
