(* ===== verification/TransferExample.v ===== *)
(** * A transfer of two leaves

    A hash of the shape of BLAKE3's tree, the sum of the bytes, and an object of two
    leaves: the hypotheses of the theorems on [root] and on transfers hold together. *)

From S2P Require Import Prelude Borsh Crypto Session Trace Evidence Validation Execution Canonical Envelope ChangeLog Database Persist.
From S2P Require Import Randomness Signing Imports Emission Staging Tree Transfer TransferHost TransferRun.

#[local] Open Scope Z_scope.

Definition sum_of (l : bytes) : Z := foldr Z.add 0 l.
#[local] Instance sum_crypto : Crypto := {
  blake3 := sum_of;
  dalek_verify _ _ _ := inr true;
  blst_verify _ _ _ _ := inr true;
  blst_aggregate l := inr (sum_of l);
  blst_fast_aggregate_verify _ _ _ := inr true;
  serde_json_value _ := inr tt }.

(** The exponent of two in a number. *)
Fixpoint twos (p : positive) : nat := match p with xO p => S (twos p) | _ => O end.
#[local] Instance sum_tree : Blake3Hazmat := {
  finalize_non_root _ data := sum_of data;
  merge_subtrees_root := Z.add;
  merge_subtrees_non_root := Z.add;
  max_subtree_len offset :=
    if offset =? 0 then None else Some (CHUNK_BYTES * 2 ^ Z.of_nat (twos (Z.to_pos (offset / CHUNK_BYTES)))) }.

Lemma twos_spec p : exists c, Z.pos p = (2 * c + 1) * 2 ^ Z.of_nat (twos p).
Proof.
  induction p as [p _|p [c IH]|]; [exists (Z.pos p); simpl; lia| |exists 0; simpl; lia].
  exists c. cbn [twos]. rewrite Nat2Z.inj_succ, Z.pow_succ_r by lia. lia.
Qed.
Lemma sum_split n l : sum_of l = sum_of (take n l) + sum_of (drop n l).
Proof. revert l. induction n as [|n IH]; intros [|x l]; simpl; try done. rewrite (IH l). lia. Qed.

#[local] Instance sum_laws : Blake3Tree.
Proof.
  split; simpl.
  - intros offset Hpos Hmod. rewrite (proj2 (Z.eqb_neq _ _)) by lia. eexists. split; [|split; [done|]]; [lia|].
    assert (0 < offset / CHUNK_BYTES) as Hq.
    { apply Z.mod_divide in Hmod as [c ->]; [|done]. rewrite Z.div_mul by done. unfold CHUNK_BYTES in Hpos. lia. }
    destruct (twos_spec (Z.to_pos (offset / CHUNK_BYTES))) as [c Hc]. rewrite Z2Pos.id in Hc by done. set (k := Z.of_nat (twos _)) in *.
    pose proof (Z.pow_pos_nonneg 2 k ltac:(lia) ltac:(lia)) as Hk. rewrite Hc. split; [apply Z.mod_mul; lia|].
    rewrite (Z.add_1_r k), Z.pow_succ_r, Zmult_mod_distr_r, (Z.add_comm _ 1), (Z.mul_comm 2 c), Z.mod_add by lia.
    change (1 mod 2) with 1. lia.
  - done.
  - intros _ data _ _. apply sum_split.
  - intros data _. apply sum_split.
Qed.

Definition obj0 : bytes := replicate (Z.to_nat 32770) 7.
Definition t0 : VerifiedTransfer := MkTransfer 5 0 1 (sum_of obj0) 32770 None.
Definition guest (holds : gmap BlobHash bytes) : Guest := MkGuest local_default holds None ∅ 0 [].
Definition receiver0 : Guest := guest ∅.
Definition sender0 : Guest := guest {[sum_of obj0 := obj0]}.
Definition sums0 : list Z := [7 * 32768; 14].
(** The sender's messages, and a chunk sent in place of the last one. *)
Definition honest0 : list Arrival :=
  [MkArrival (Leaves 5 0 sums0) None 0; MkArrival (Chunk 5) (Some (replicate (Z.to_nat 32768) 7)) 0; MkArrival (Chunk 5) (Some [7; 7]) 0].
Definition forged0 : list Arrival :=
  [MkArrival (Leaves 5 0 sums0) None 0; MkArrival (Chunk 5) (Some (replicate (Z.to_nat 32768) 7)) 0; MkArrival (Chunk 5) (Some [7; 8]) 0].

Lemma obj0_length : zlen obj0 = 32770.
Proof. vm_compute. reflexivity. Qed.
Lemma obj0_named : blake3 obj0 = vt_hash t0.
Proof. vm_compute. reflexivity. Qed.

Lemma root_is_blake3_witness : LEAF_BYTES < zlen obj0 /\ root (E:=Trap) (leaf_values 0 obj0) = Ok (blake3 obj0).
Proof. split; [rewrite obj0_length; vm_compute; reflexivity|]. apply (root_is_blake3 obj0). rewrite obj0_length. vm_compute. reflexivity. Defined.

Lemma transfer_stores_only_the_object_witness :
  (arrivals t0 1 0 honest0 receiver0).1 = [MComplete] /\ (arrivals t0 1 0 forged0 receiver0).1 = [MFailed] /\
  (forgery obj0 forged0 \/
   (exists n, bytes_at (g_inbox (arrivals t0 1 0 forged0 receiver0).2) (vt_hash t0) = take n obj0) /\
   (length (arrivals t0 1 0 forged0 receiver0).1 <= 1)%nat /\
   (MComplete ∈ (arrivals t0 1 0 forged0 receiver0).1 -> exists r,
      g_inbox (arrivals t0 1 0 forged0 receiver0).2 !! vt_hash t0 = Some r /\ rv_committed r = true /\ rv_bytes r = obj0)).
Proof.
  split; [vm_compute; reflexivity|]. split; [vm_compute; reflexivity|].
  apply (transfer_stores_only_the_object t0 obj0 forged0 receiver0).
  - apply obj0_named.
  - apply obj0_length.
  - vm_compute. reflexivity.
  - discriminate.
  - reflexivity.
  - apply lookup_empty.
  - apply surjective_pairing.
Defined.

Lemma honest_transfer_completes_witness :
  let last := 2 * (batches t0 + leaf_count t0) - 1 in
  last = 5 /\ Z.of_nat 0 <= last /\ (Z.of_nat 0 < last -> exists net', deliver t0 (launch t0 0 sender0 receiver0) net') /\
  (Z.of_nat 0 = last -> n_reports (launch t0 0 sender0 receiver0) = [MComplete] /\
     g_inbox (n_receiver (launch t0 0 sender0 receiver0)) !! vt_hash t0 = Some (MkReceived (vt_length t0) obj0 true)).
Proof.
  cbv zeta. split; [vm_compute; reflexivity|].
  apply (honest_transfer_completes t0 obj0 0 sender0 receiver0 0).
  - vm_compute. reflexivity.
  - apply obj0_named.
  - apply obj0_length.
  - apply lookup_singleton_eq.
  - reflexivity.
  - apply lookup_empty.
  - split; [done|reflexivity].
  - apply nsteps_O.
Defined.

(** ** The host's side *)

(** An execution granted one object, and a delivery with an attachment of two bytes. *)
Definition tables1 : Tables :=
  MkTables ∅ ∅ ∅ ∅ ∅ ∅ ∅ ∅ ∅ {[6 := MkBlobRow 3 [1] true]} {[9 := {[6]}]} ∅ ∅ ∅ 0 [] ∅.
Definition db1 : Database := MkDb tables1 tables1 0 false [] log_new [] {[[1] := [1; 2; 3]]}.
Definition display1 (e : StoreError) : string := "store".
Definition scope1 : DispatchScope :=
  MkScope [] [] [] ledger_new None 0 None (Some (store_view display1 db1 9)) [] (Some [7; 7]) [] None None.
Definition host1 : HostState := MkHost None None None 1000000 KDispatch DLocal 0 current_profile scope1.
Definition guest1 : Guest := MkGuest local_default {[6 := [1; 2; 3]]} (Some [7; 7]) ∅ 0 [].

Lemma serves1 : serves db1 9 {[6 := [1; 2; 3]]}.
Proof.
  split.
  - intros hash obj [<- <-]%lookup_singleton_Some. split; [vm_compute; done|]. exists (MkBlobRow 3 [1] true). by vm_compute.
  - intros hash b Hin Hb. change (({[6 := MkBlobRow 3 [1] true]} : gmap BlobHash BlobRow) !! hash = Some b) in Hb. apply lookup_singleton_Some in Hb as [<- _]. by rewrite lookup_singleton_eq.
Qed.
Lemma hosted1 : hosted (store_view display1 db1 9) (received db1 9) {[6 := [1; 2; 3]]} host1 guest1.
Proof. split; [done|vm_compute; done|apply map_Forall_empty|done|done]. Qed.

Lemma host_answers_blob_calls_witness :
  (blob_append 14 2 0 host1).1 = Ok 0 /\ (cv_of (CvBlob 6 0 3) 0 host1).1 = Ok (inr 6) /\
  exists g, g_append 14 2 0 guest1 = inr g /\
    hosted (store_view display1 db1 9) (received db1 9) {[6 := [1; 2; 3]]} (blob_append 14 2 0 host1).2 g.
Proof.
  split; [vm_compute; reflexivity|]. split; [vm_compute; reflexivity|].
  destruct (host_answers_blob_calls display1 db1 9 _ host1 guest1 (map_Forall_empty _) serves1 hosted1) as [Happ _].
  eexists. split; [vm_compute; reflexivity|].
  specialize (Happ 14 2 0 0 (blob_append 14 2 0 host1).2).
  apply Happ; [by vm_compute|]. rewrite (surjective_pairing (blob_append 14 2 0 host1)) at 1. done.
Defined.
